(* ===== verification/_CoqProject ===== *)
-Q . S2P
Prelude.v
Locks.v
OptParse.v
NodeTable.v
Node.v
NodeOps.v
TreeLock.v
Buffer.v
Wire.v
Dir.v
Request.v
Handlers.v
Init.v
Session.v
SessionSafe.v
InitSafe.v
LoopMt.v
LoopMtSafe.v
LoopMtEnd.v
Bound.v
Study.v
HighLevel.v
Stacked.v
Subdir.v
Iconv.v
Cuse.v
Signals.v
Receive.v
ReceiveSafe.v
Send.v
SendSafe.v
Fusermount.v
FusermountSafe.v
FusermountOpts.v
FusermountMain.v
MountLib.v
MountSafe.v
Helper.v
Hidden.v
HighSafe.v
