(* ===== verification/Prelude.v ===== *)
(** * A verification of libfuse and of the study's network file system

    The repository is libfuse 3 with a small network file system built on it.
    The kernel sends requests through a device; a session receives, checks and
    decodes them ([src/lib/fuse_lowlevel.c]); the low-level operations of a file
    system answer them.  The high-level library ([src/lib/fuse.c]) is such a file
    system: it turns inode numbers into paths, keeps the tree of names, locks and
    open files behind them, and calls a path-based file system.  The study
    ([src/source/fuse_study.c], [src/server/server.c]) is another one: a client
    that forwards operations to a server over one TCP connection.  File systems of
    ordinary users are mounted by a helper that runs with the privileges of root
    ([src/util/fusermount.c]).

    ** Files and what they model

    - [Prelude]: outcomes of C code (a value, [abort], out of fuel), the state
      monad [M] with its weakest-precondition calculus [wp], machine integers
      ([wrap], [swrap]), C strings, little-endian bytes, shared list lemmas and
      hints.
    - [Locks]: [struct lock], [locks_conflict], [locks_insert], [flock_to_lock],
      [lock_to_flock] of [fuse.c].
    - [OptParse]: [fuse_opt.c]: argument vectors, escaping, templates, the whole
      of [fuse_opt_parse] with every allocation failure.
    - [NodeTable]: the linear-hashing tables of [fuse.c] ([hash_*], [unhash_*],
      [rehash_*], [remerge_*], [resize]).  [Node]: nodes, reference and lookup
      counts, names, [next_id], [find_node], [forget_node], [rename_node],
      [exchange_node], the list of remembered nodes.  [NodeOps]: the invariant of
      the store and the correctness of each of those operations.
    - [TreeLock]: [add_name], [try_get_path], [try_get_path2], [unlock_path],
      [queue_path] and the waiting queue; the path locks under concurrency.
    - [Buffer]: [buffer.c]; the system calls are the class [Syscalls].
    - [Wire]: the structures of [fuse_kernel.h] that replies carry, at their C
      widths, as bytes.
    - [Dir]: directory handles, the fillers, READDIR and READDIRPLUS of [fuse.c].
    - [Request]: [struct fuse_req], [struct fuse_session], the request lists and
      every [fuse_reply_*]; [Handlers]: the [do_*] decoders; [Init]: [do_init],
      the feature flags and [fuse_apply_conn_info_opts]; [Session]:
      [fuse_session_process_buf_internal], interrupts and notifications, all of
      [fuse_lowlevel.c].  [SessionSafe], [InitSafe]: their theorems.
    - [LoopMt]: the worker threads of [fuse_loop_mt.c] with their channels, ring and
      counters; each stretch of code between two points where the threads can
      interleave is one event of a schedule.  [LoopMtSafe], [LoopMtEnd]: the
      invariant of the pool and the theorems.
    - [Bound]: [custom_include/bound.c], packets over a stream socket.  [Study]:
      client and server of the network file system.
    - [Receive]: message buffers, pipes and [fuse_session_receive_buf] of
      [fuse_lowlevel.c], the single-threaded loop of [fuse_loop.c].  [Send]:
      [fuse_reply_data] and [fuse_lowlevel_notify_store], through the pipe or
      through memory.  [ReceiveSafe], [SendSafe]: their theorems, on the laws of
      the device and of pipes ([DeviceLaws], [OutletLaws]).
    - [Signals]: [fuse_signals.c].  [Cuse]: [cuse_lowlevel.c], its INIT being
      another instance of [InitHandler].
    - [Stacked]: what file systems stacked on another one have in common, on the
      [fuse_fs_*] wrappers of [HighLevel].  [Subdir]: [modules/subdir.c].  [Iconv]:
      [modules/iconv.c].
    - [Fusermount]: [util/fusermount.c], the set-uid program that mounts and unmounts
      for users, with [fuse_mnt_resolve_path] of [mount_util.c]; its system calls are
      the type [call], answered by an oracle and logged with the privileges they were
      made with.  [FusermountSafe]: what users can mount and unmount with it;
      [FusermountOpts]: options that start with [x-]; [FusermountMain]: whole runs.
    - [MountLib]: [mount.c], mounting from the library, by system call or with the
      helper, and [fuse_session_mount].  [MountSafe]: its theorems.  [Helper]: the
      command line and [fuse_main] of [helper.c].
    - [HighLevel]: the [fuse_fs_*] wrappers and [fuse_lib_*] handlers of [fuse.c],
      composed from [Node], [TreeLock], [Locks] and [Dir].  [Hidden]: the names
      of files unlinked or overwritten while open.  [HighSafe]: the protocol
      between the handlers and the kernel.

    State is a record per component with the fields of the C structure; a C
    function that reads or writes it is a function of the monad [M]; every access
    through a pointer to freed memory and every failed [assert] is [Abort].
    Allocations and system calls can fail at every call: an oracle ([alloc_ok],
    [send_errno], a class of system calls) says how the [i]-th one ends.

    ** What the theorems show

    - The composed library ([HighSafe.requests_answered]): after any sequence of
      requests that respects the protocol, the next one is answered exactly once,
      no assertion fails, nothing loops or waits, every path lock is released and
      library and kernel agree about lookup counts, open files and directory
      handles.  Covered are all requests but READDIR and READDIRPLUS, which [Dir]
      covers on its own, and LOOKUP of [.] and [..], in sessions without
      [-o remember]; renames include RENAME_EXCHANGE, the overwriting of an open
      file and every allocation failure.
    - The session ([SessionSafe]): under every interleaving of receiving threads,
      answers and interrupts no request is used after it is freed or answered
      twice (sessions without [no_interrupt], no NOTIFY_REPLY that answers nothing:
      such a message leaks, [unmatched_notify_reply_leaks]); which messages are
      turned away and with which error, and that each gets one answer; an early
      interrupt marks its request and leaves the list, and no other does.  The INIT handler is an interface ([InitHandler]) that
      [InitSafe.do_init_handles] implements.  INIT itself: the answer enables what
      was offered and wanted, errors end the session, every size fits its type,
      old and new wish lists are read consistently ([InitSafe]).
    - The worker pool ([LoopMtEnd]): under every schedule nothing of a worker,
      channel or buffer is used after it is freed, the counters are exact, a live
      session always has workers; after the exit the threads end in a bounded
      number of steps and everything is released.
    - The tree ([NodeTable], [NodeOps], [TreeLock], [Locks]): the hash tables
      implement sets, every operation keeps the store consistent (each node is
      found, each reference count is the number of references), the paths built
      are the paths of the nodes, readers and writers of a path exclude each
      other, and the lock list denotes a map from (owner, byte) to lock type, which
      a failed allocation leaves as it is.
    - Data ([Buffer], [Wire], [Dir], [OptParse]): copies move exactly the bytes
      that fit, directory entries are read back as written, a directory scan
      of a file system without offsets returns every entry once and ends, option
      parsing is total and its escaping is invertible.  Stacked file systems: with [Subdir] every operation, listings
      included, stays below the base directory and rewritten links lead where they
      led before; with [Iconv] every operation gets the converted path, whose
      conversion never leaves its buffer, for encodings without shift states.
    - Device I/O ([ReceiveSafe], [SendSafe]): the size that [buf_alloc] really has
      room for ([buffer_room_exact]); for sizes it has room for, receiving writes only
      into its buffer, frees what it replaces and reports messages that are complete
      and where the buffer says; the single-threaded loop ends and releases everything
      for every handler of messages that keeps the buffer ([Processor]); a reply with
      data is one complete message, or one error that a refused allocation or call
      of the device accounts for.  [Cuse]: the strings of a device are packed so that
      the kernel reads them back, and INIT is answered with what the device's [init]
      has left of the values it was offered.  [Signals]: exactly the signals
      of the three tables that have their default action are taken over, and removing
      the handlers restores them, also after a failure in the middle.
    - The mount helper ([FusermountSafe], [FusermountMain]): whatever command line a
      user gives and whatever the system answers, every mount is [nosuid] and [nodev],
      of a FUSE type, on a target checked with the user's own privileges, with only
      permitted options and the user's ids, none of which can be smuggled in, and every
      unmount is of a FUSE mount that the mount table shows as the user's, from the
      confirmed parent directory.  [FusermountOpts]: the options are taken apart
      without loss.  The library's side ([MountSafe], [Helper]): mounting leaves open
      exactly the descriptor it returns (without [auto_unmount], whose failure
      leaks), the name of the file system passes the options of the helper unchanged
      when no comma in it is followed by [x-], every command line is read without reaching an [abort()], and
      [fuse_main] releases what it has acquired on every path but one.
    - The study ([Bound], [Study]): messages survive every way the stream is cut when
      each write takes a whole packet, and [bound_send] does not notice when one does
      not; in runs without failures attributes agree with the server's files; READ is
      answered with the whole file whatever was asked for; the places where client
      and server lose each other are proved as such.
    - Where the code does not do what it means to, the theorem states what it
      does (names ending in [leaks], [lost], [freed], [desync]).

    ** Fuel

    Loops that are not structural take fuel and end in [Diverge] without it; the
    correctness theorems conclude [Ok], so the fuel given is enough.  Climbing to
    the root and unlocking a path visit each node at most once: one more than the
    number of nodes.  [next_id] skips ids in use: the number of nodes plus three.
    Finding an unused hidden name: one more than the number of nodes.
    [locks_insert] visits each lock once, plus the split: the length plus two.
    Serving a directory from its list, and chain searches, take one more than the
    length.  [fuse_buf_copy] makes progress of at least one byte or one buffer per
    turn.  [bound_send] sends at least one byte per packet, [bound_read] receives
    at least one per call.  Cancelling the workers visits each of the ring: the
    number of workers plus one.  Splitting paths into components consumes at least
    one character per turn: the lengths of the paths plus one.  Converting a path
    grows its buffer or consumes a character: five rounds for each character, plus
    five.  Receiving retries only when the device says so: one more than the number
    of calls the device answers before it reports the end.  The mount helper takes
    one turn for each character of its options and of its configuration at most;
    waiting for the socket to be closed takes one turn for each message, whose number
    is a parameter: [FusermountMain.main_confined] holds for every one.  Receiving the
    descriptor is retried once for each interruption: one more than their number.

    ** Not modelled

    Creating and destroying sessions, the BSD variants of mounting and
    [mount.fuse.c], the details of becoming a daemon, logging and debug output, locking
    and rewriting [/etc/mtab], the control messages that carry descriptors, custom I/O
    functions of a session (they take the place of the calls on the device), example file systems, tests and earlier drafts of the study.
    [-o intr] of the high-level library and several threads inside
    the high-level handlers are left out; the path locks are proved for
    concurrent use on their own.  Reference counts of nodes are numbers without
    bound where the code has an [int]; a worker is cancelled inside a receive that has
    not just allocated its buffer; the mounts that the child of the helper makes in a
    name space of its own are separate constructors of [Fusermount.call]; the
    debugging output of the study's client, which prints data without a terminator,
    is left out. *)
From Corelib Require Export ssreflect.
From Stdlib Require Export ZArith Lia Ascii String Bool.
From stdpp Require Export base tactics list gmap option.

#[export] Set Warnings "-rewrite-rw,-clear-no-such-hyp,-level-tolerance".

Declare Scope fuse_scope.
Delimit Scope fuse_scope with fuse.
#[global] Open Scope Z_scope.

(** ** Outcomes and the state monad of the C code *)

(** What running a piece of C code ends in: a value, [abort()] (a failed
    [assert], or an explicit [abort]), or a loop that was cut off because the
    fuel given to the model ran out. *)
Inductive outcome (A : Type) : Type :=
  | Ok (a : A)
  | Abort
  | Diverge.
Arguments Ok {A} _.
Arguments Abort {A}.
Arguments Diverge {A}.

(** State passing with abort: the model of a C function that reads and writes
    the state [S] and returns an [A]. *)
Definition M (S A : Type) : Type := S -> outcome (A * S).

#[global] Instance M_ret S : MRet (M S) := fun A a s => Ok (a, s).
#[global] Instance M_bind S : MBind (M S) := fun A B f m s =>
  match m s with
  | Ok (a, s') => f a s'
  | Abort => Abort
  | Diverge => Diverge
  end.

Definition get {S} : M S S := fun s => Ok (s, s).
Definition put {S} (s : S) : M S unit := fun _ => Ok (tt, s).
Definition modify {S} (f : S -> S) : M S unit := fun s => Ok (tt, f s).
Definition gets {S A} (f : S -> A) : M S A := fun s => Ok (f s, s).
Definition abort {S A} : M S A := fun _ => Abort.
Definition diverge {S A} : M S A := fun _ => Diverge.

(** [assert(b)] of the C code. *)
Definition assert {S} (b : bool) : M S unit :=
  fun s => if b then Ok (tt, s) else Abort.

(** Total-correctness weakest precondition: [m] started in [s] neither aborts
    nor diverges, and its result satisfies [Q]. *)
Definition wp {S A} (m : M S A) (Q : A -> S -> Prop) (s : S) : Prop :=
  match m s with
  | Ok (a, s') => Q a s'
  | _ => False
  end.

Section wp.
Context {S : Type}.

Lemma wp_ret {A} (a : A) (Q : A -> S -> Prop) s : Q a s -> wp (mret a) Q s.
Proof. done. Qed.

Lemma wp_bind {A B} (m : M S A) (f : A -> M S B) Q s :
  wp m (fun a s' => wp (f a) Q s') s -> wp (m ≫= f) Q s.
Proof.
  rewrite /wp /mbind /M_bind. by destruct (m s) as [[a s']| |].
Qed.

Lemma wp_mono {A} (m : M S A) (P Q : A -> S -> Prop) s :
  wp m P s -> (forall a s', P a s' -> Q a s') -> wp m Q s.
Proof. rewrite /wp. destruct (m s) as [[a s']| |]; auto. Qed.

Lemma wp_assoc {A B C} (m : M S A) (f : A -> M S B) (g : B -> M S C) Q s :
  wp ((m ≫= f) ≫= g) Q s -> wp (m ≫= fun x => f x ≫= g) Q s.
Proof. rewrite /wp /mbind /M_bind. by destruct (m s) as [[a s']| |]. Qed.

Lemma wp_get (Q : S -> S -> Prop) s : Q s s -> wp get Q s.
Proof. done. Qed.

Lemma wp_gets {A} (f : S -> A) Q s : Q (f s) s -> wp (gets f) Q s.
Proof. done. Qed.

Lemma wp_put s' (Q : unit -> S -> Prop) s : Q tt s' -> wp (put s') Q s.
Proof. done. Qed.

Lemma wp_modify f (Q : unit -> S -> Prop) s : Q tt (f s) -> wp (modify f) Q s.
Proof. done. Qed.

Lemma wp_assert b (Q : unit -> S -> Prop) s :
  b = true -> Q tt s -> wp (assert b) Q s.
Proof. by rewrite /wp /assert => ->. Qed.

Lemma wp_Ok {A} (m : M S A) Q s :
  wp m Q s -> exists a s', m s = Ok (a, s') /\ Q a s'.
Proof. rewrite /wp. destruct (m s) as [[a s']| |]; eauto; done. Qed.

(** The outcome may be remembered. *)
Lemma wp_run {A} (m : M S A) (Q : A -> S -> Prop) s : wp m Q s -> wp m (fun a s' => Q a s' /\ m s = Ok (a, s')) s.
Proof. rewrite /wp. by destruct (m s) as [[a s']| |]. Qed.

Lemma Ok_wp {A} (m : M S A) (Q : A -> S -> Prop) s a s' :
  m s = Ok (a, s') -> Q a s' -> wp m Q s.
Proof. by rewrite /wp => ->. Qed.

(** A run that ends in [Ok] ends so in each part of a bind. *)
Lemma bind_Ok {A B} (m : M S A) (f : A -> M S B) s r :
  (m ≫= f) s = Ok r -> exists a s', m s = Ok (a, s') /\ f a s' = Ok r.
Proof. rewrite /mbind /M_bind. destruct (m s) as [[a s']| |]; naive_solver. Qed.
End wp.

(** Symbolic execution of the goal [wp m Q s], one primitive at a time. *)
Ltac wp_step :=
  lazymatch goal with
  | |- wp (mbind _ _) _ _ => apply wp_bind
  | |- wp (mret _) _ _ => apply wp_ret
  | |- wp get _ _ => apply wp_get
  | |- wp (gets _) _ _ => apply wp_gets
  | |- wp (put _) _ _ => apply wp_put
  | |- wp (modify _) _ _ => apply wp_modify
  | |- wp (assert _) _ _ => apply wp_assert
  end.
Ltac wp_steps := repeat (wp_step; cbn beta).

(** Run the monadic primitives of a [wp] goal by unfolding them. *)
Ltac wp_run :=
  unfold wp, mbind, M_bind, mret, M_ret, get, put, modify, gets; cbn beta iota.

(** Peel the binds off a hypothesis [(m ≫= f) s = Ok r]. *)
Ltac bind_inv :=
  repeat match goal with
  | H : (_ ≫= _) _ = Ok _ |- _ =>
      let a := fresh "a" in let s := fresh "s" in
      let H1 := fresh "Hrun" in let H2 := fresh "Hrun" in
      apply bind_Ok in H as (a & s & H1 & H2)
  end.

(** ** Machine integers *)

(** A [w]-bit unsigned integer is a [Z]; arithmetic wraps. *)
Definition wrap (w : Z) (x : Z) : Z := x mod 2 ^ w.
Abbreviation u8 := (wrap 8).
Abbreviation u16 := (wrap 16).
Abbreviation u32 := (wrap 32).
Abbreviation u64 := (wrap 64).

(** Two's complement: the signed value of the low [w] bits. *)
Definition swrap (w : Z) (x : Z) : Z :=
  let r := x mod 2 ^ w in if r <? 2 ^ (w - 1) then r else r - 2 ^ w.

Definition SIZE_MAX : Z := 18446744073709551615.
Definition UINT_MAX : Z := 4294967295.
Definition INT_MAX : Z := 2147483647.
Definition INT_MIN : Z := -2147483648.
(** [0x7fffffffffffffffLL], the largest [off_t]. *)
Definition OFFSET_MAX : Z := 9223372036854775807.

Lemma wrap_range w x : 0 <= w -> 0 <= wrap w x < 2 ^ w.
Proof. intros. apply Z.mod_pos_bound. by apply Z.pow_pos_nonneg. Qed.

Lemma wrap_small w x : 0 <= x < 2 ^ w -> wrap w x = x.
Proof. apply Z.mod_small. Qed.

(** [x & flag] used as a condition. *)
Definition has_flag (x flag : Z) : bool := negb (Z.land x flag =? 0).

Lemma has_flag_pow x k : 0 <= k -> has_flag x (2 ^ k) = Z.testbit x k.
Proof.
  intros Hk. unfold has_flag. destruct (Z.eqb_spec (Z.land x (2 ^ k)) 0) as [E|E]; cbn [negb].
  - apply (f_equal (fun y => Z.testbit y k)) in E. rewrite Z.land_spec Z.pow2_bits_true // andb_true_r Z.bits_0 in E. done.
  - destruct (Z.testbit x k) eqn:Hx; [done|]. destruct E. apply Z.bits_inj'. intros i Hi.
    rewrite Z.land_spec Z.bits_0 Z.pow2_bits_eqb //. destruct (Z.eqb_spec k i) as [->|]; [by rewrite Hx|by rewrite andb_false_r].
Qed.

(** C's truth value of an [int]. *)
Definition truth (x : Z) : bool := negb (x =? 0).

(** C's [bool] to [int]. *)
Definition int_of_bool (b : bool) : Z := if b then 1 else 0.

(** Case analysis on the integer comparisons of the code. *)
Ltac zcase1 :=
  match goal with
  | |- context [?a <? ?b] => destruct (Z.ltb_spec a b)
  | |- context [?a <=? ?b] => destruct (Z.leb_spec a b)
  | |- context [?a =? ?b] => destruct (Z.eqb_spec a b)
  | H : context [?a <? ?b] |- _ => destruct (Z.ltb_spec a b)
  | H : context [?a <=? ?b] |- _ => destruct (Z.leb_spec a b)
  | H : context [?a =? ?b] |- _ => destruct (Z.eqb_spec a b)
  end.
Ltac zcase := repeat (zcase1; cbn [negb andb orb] in *); try lia.

(** ** errno values (Linux, [<asm-generic/errno-base.h>], [errno.h]) *)

Definition EPERM : Z := 1.
Definition ENOENT : Z := 2.
Definition EINTR : Z := 4.
Definition EIO : Z := 5.
Definition EBADF : Z := 9.
Definition EAGAIN : Z := 11.
Definition ENOMEM : Z := 12.
Definition EACCES : Z := 13.
Definition EBUSY : Z := 16.
Definition EEXIST : Z := 17.
Definition ENODEV : Z := 19.
Definition ENOTDIR : Z := 20.
Definition EINVAL : Z := 22.
Definition ENOTTY : Z := 25.
Definition ERANGE : Z := 34.
Definition ENOLCK : Z := 37.
Definition ENOSYS : Z := 38.
Definition ENOTEMPTY : Z := 39.
Definition EPROTO : Z := 71.
Definition ENOTCONN : Z := 107.
Definition ESTALE : Z := 116.

(** ** C strings *)

(** The bytes of a NUL-terminated string, without the terminator. *)
Abbreviation cstring := (list ascii).

Definition NUL : ascii := Ascii.zero.

(** String literals of the C source. *)
Definition lit (s : string) : cstring := list_ascii_of_string s.

(** [s[i]]: the terminator is readable at index [strlen(s)]. *)
Definition char_at (s : cstring) (i : nat) : ascii := nth i s NUL.

Definition strlen (s : cstring) : Z := Z.of_nat (length s).

(** [(unsigned char) c]. *)
Definition uchar (c : ascii) : Z := Z.of_N (N_of_ascii c).
Definition of_uchar (z : Z) : ascii := ascii_of_N (Z.to_N (z mod 256)).

#[global] Instance ascii_eq_dec : EqDecision ascii := ascii_dec.

Definition ceq (a b : ascii) : bool := bool_decide (a = b).
Definition strcmp_eq (s t : cstring) : bool := bool_decide (s = t).

(** What a [char *] denotes when its buffer holds [s]: the bytes up to the
    first NUL. *)
Fixpoint c_str (s : list ascii) : cstring :=
  match s with
  | [] => []
  | c :: s => if ceq c NUL then [] else c :: c_str s
  end.

(** [strchr(s, c)] for a non-NUL [c], as the index of the first occurrence. *)
Fixpoint strchr (s : cstring) (c : ascii) : option nat :=
  match s with
  | [] => None
  | d :: s => if ceq d c then Some O else S <$> strchr s c
  end.

(** No NUL inside: what every C string satisfies. *)
Definition nul_free (s : cstring) : Prop := NUL ∉ s.

Lemma ceq_refl c : ceq c c = true.
Proof. by apply bool_decide_eq_true. Qed.

Lemma ceq_true a b : ceq a b = true <-> a = b.
Proof. apply bool_decide_eq_true. Qed.

Lemma ceq_false a b : ceq a b = false <-> a <> b.
Proof. apply bool_decide_eq_false. Qed.

Lemma nul_free_cons c s : nul_free (c :: s) <-> c <> NUL /\ nul_free s.
Proof. rewrite /nul_free elem_of_cons. naive_solver. Qed.

Lemma nul_free_app s t : nul_free (s ++ t) <-> nul_free s /\ nul_free t.
Proof. rewrite /nul_free elem_of_app. naive_solver. Qed.

Lemma c_str_id s : nul_free s -> c_str s = s.
Proof.
  induction s as [|c s IH]; [done|].
  intros [Hc Hs]%nul_free_cons. simpl.
  by rewrite (proj2 (ceq_false c NUL) Hc) IH.
Qed.

Lemma c_str_app_NUL s t : c_str (s ++ NUL :: t) = c_str s.
Proof. induction s as [|c s IH]; cbn; [done|]. by rewrite IH. Qed.

(** ** Lists *)

(** [memmove]/array splice: [l] with [x] inserted before position [n]. *)
Definition list_insert_at {A} (n : nat) (x : A) (l : list A) : list A :=
  take n l ++ x :: drop n l.

(** [l] without the first [x]: unlinking one element. *)
Fixpoint remove_first (x : Z) (l : list Z) : list Z :=
  match l with
  | [] => []
  | y :: l => if y =? x then l else y :: remove_first x l
  end.

(** ** Buffers *)

(** [memcpy]/[memmove] of [src] to offset [at] of [buf]. *)
Definition blit {A} (buf : list A) (at_ : Z) (src : list A) : list A :=
  take (Z.to_nat at_) buf ++ src ++ drop (Z.to_nat at_ + length src) buf.

(** The loop that doubles a 32-bit buffer size until [need] fits, in [add_name]
    and [extend_contents] of [lib/fuse.c]; 32 doublings leave no 32-bit size. *)
Fixpoint grow (fuel : nat) (newbufsize need : Z) : option Z :=
  if newbufsize <? need then
    match fuel with
    | O => None
    | S fuel =>
      grow fuel (if 2147483648 <=? newbufsize then 4294967295 else newbufsize * 2) need
    end
  else Some newbufsize.

(** Copying [src] just before [tl] at the end of the buffer. *)
Lemma blit_before {A} (buf : list A) at_ src tl :
  0 <= at_ -> drop (Z.to_nat at_ + length src) buf = tl ->
  (Z.to_nat at_ + length src <= length buf)%nat ->
  drop (Z.to_nat at_) (blit buf at_ src) = src ++ tl /\ length (blit buf at_ src) = length buf.
Proof.
  intros Ha Ht Hl. unfold blit. rewrite Ht.
  assert (length (take (Z.to_nat at_) buf) = Z.to_nat at_) as Hlt by (rewrite length_take; lia).
  split.
  - by rewrite drop_app_length'.
  - rewrite !length_app Hlt -Ht length_drop. lia.
Qed.

Lemma blit_nil {A} (l : list A) at_ : blit l at_ [] = l.
Proof. unfold blit. cbn. by rewrite Nat.add_0_r take_drop. Qed.

(** Appending behind the first [n] bytes. *)
Lemma take_blit {A} (l : list A) n bs :
  0 <= n -> n + Z.of_nat (length bs) <= Z.of_nat (length l) ->
  take (Z.to_nat (n + Z.of_nat (length bs))) (blit l n bs) = take (Z.to_nat n) l ++ bs /\
  length (blit l n bs) = length l.
Proof.
  intros Hn Hl. unfold blit.
  assert (length (take (Z.to_nat n) l) = Z.to_nat n) as Ht by (rewrite length_take; lia).
  split.
  - rewrite app_assoc take_app_length' //. rewrite length_app. lia.
  - rewrite !length_app length_drop. lia.
Qed.

Lemma grow_spec fuel nb need :
  1 <= nb < 4294967296 -> need <= 4294967295 -> 4294967295 <= nb * 2 ^ Z.of_nat fuel ->
  exists nb', grow fuel nb need = Some nb' /\ need <= nb' /\ nb <= nb' < 4294967296.
Proof.
  revert nb. induction fuel as [|fuel IH]; intros nb Hnb Hneed Hf; cbn [grow].
  - rewrite Z.mul_1_r in Hf. destruct (Z.ltb_spec nb need); [lia|]. exists nb. split; [done|lia].
  - destruct (Z.ltb_spec nb need); [|exists nb; split; [done|lia]].
    rewrite Nat2Z.inj_succ Z.pow_succ_r in Hf; [lia|].
    assert (1 <= 2 ^ Z.of_nat fuel) by (pose proof (Z.pow_pos_nonneg 2 (Z.of_nat fuel)); lia).
    destruct (Z.leb_spec 2147483648 nb).
    + destruct (IH 4294967295) as (nb' & -> & ? & ?); [lia|lia|nia|]. exists nb'. split; [done|lia].
    + destruct (IH (nb * 2)) as (nb' & -> & ? & ?); [lia|lia|nia|]. exists nb'. split; [done|lia].
Qed.

(** ** Little-endian integers *)

(** The [n] bytes of [v] as the machine stores them, and back. *)
Fixpoint le (n : nat) (v : Z) : list Z :=
  match n with
  | O => []
  | S n => v mod 256 :: le n (v / 256)
  end.

Fixpoint unle (bs : list Z) : Z :=
  match bs with
  | [] => 0
  | b :: bs => b + 256 * unle bs
  end.

Lemma length_le n v : length (le n v) = n.
Proof. revert v. induction n as [|n IH]; intros v; cbn; [done|]. by rewrite IH. Qed.

(** What is read back is the value modulo the width. *)
Lemma unle_le n v : unle (le n v) = v mod 256 ^ Z.of_nat n.
Proof.
  revert v. induction n as [|n IH]; intros v; cbn [le unle]; [by rewrite Z.mod_1_r|].
  rewrite IH Nat2Z.inj_succ Z.pow_succ_r; [lia|].
  rewrite (Z.rem_mul_r v 256); [lia|apply Z.pow_pos_nonneg; lia|lia].
Qed.

Lemma le_bytes n v : Forall (fun b => 0 <= b < 256) (le n v).
Proof.
  revert v. induction n as [|n IH]; intros v; cbn [le]; constructor; [|done].
  apply Z.mod_pos_bound. lia.
Qed.

(** Bytes of a C string. *)
Definition bytes_of (s : cstring) : list Z := uchar <$> s.
Definition of_bytes (bs : list Z) : cstring := of_uchar <$> bs.

Lemma of_bytes_of s : of_bytes (bytes_of s) = s.
Proof.
  unfold of_bytes, bytes_of. rewrite -list_fmap_compose. rewrite -{2}(list_fmap_id s). apply list_fmap_ext.
  intros i c _. cbn. unfold of_uchar, uchar. destruct c as [[] [] [] [] [] [] [] []]; reflexivity.
Qed.

(** ** Occurrences in a list *)

Abbreviation count := (count_occ Z.eq_dec).

Lemma count_pos (l : list Z) n : (0 < count l n)%nat <-> n ∈ l.
Proof. rewrite list_elem_of_In (count_occ_In Z.eq_dec). lia. Qed.

Lemma count_zero (l : list Z) n : n ∉ l -> count l n = 0%nat.
Proof. rewrite -count_pos. lia. Qed.

(** ** Automation *)

(** Facts on C strings, machine integers and byte images that the components
    look up by [eauto with fuse]. *)
Create HintDb fuse discriminated.
#[export] Hint Resolve wrap_range wrap_small c_str_id of_bytes_of le_bytes length_le ceq_refl : fuse.
#[export] Hint Resolve wp_ret wp_get wp_gets wp_put wp_modify : fuse.

(** Sizes of byte images: [autorewrite with bytes]. *)
Create Rewrite HintDb bytes.
#[export] Hint Rewrite @length_app @length_fmap @length_replicate length_le @length_take @length_drop : bytes.
