(* ===== verification/Locks.v ===== *)
(** * POSIX record locks of a node ([lib/fuse.c], [struct lock])

    The high-level library keeps, for every node, the list of byte-range locks
    that were granted, so that [GETLK] can be answered locally.  This file
    models [locks_conflict], [locks_insert] and the conversions from and to
    [struct flock], and shows that the list always denotes the right map from
    (owner, byte) to lock type. *)
From S2P Require Import Prelude.
From Stdlib Require Import Sorted.

(** Lock types, [<fcntl.h>] on Linux. *)
Definition F_RDLCK : Z := 0.
Definition F_WRLCK : Z := 1.
Definition F_UNLCK : Z := 2.

(** [struct lock]; the [next] pointers are the list structure. *)
Record lock := mkLock {
  type : Z;
  start : Z;
  end_ : Z;
  pid : Z;
  owner : Z;
}.

Definition set_start (l : lock) (v : Z) : lock :=
  mkLock (type l) v (end_ l) (pid l) (owner l).
Definition set_end (l : lock) (v : Z) : lock :=
  mkLock (type l) (start l) v (pid l) (owner l).

(** The condition under which [locks_conflict] stops at [l]. *)
Definition conflicts (l lk : lock) : bool :=
  negb (owner l =? owner lk) && (start lk <=? end_ l) && (start l <=? end_ lk) &&
  ((type l =? F_WRLCK) || (type lk =? F_WRLCK)).

(** [locks_conflict(node, lock)] on [node->locks]. *)
Fixpoint locks_conflict (locks : list lock) (lk : lock) : option lock :=
  match locks with
  | [] => None
  | l :: rest => if conflicts l lk then Some l else locks_conflict rest lk
  end.

(** The code after the loop: insert a copy of [lock] at [*lp] unless it is an
    unlock.  [newl1] says whether the pointer is non-NULL. *)
Definition locks_insert_end (tail : list lock) (lk : lock) (newl1 : bool)
  : outcome (list lock) :=
  if negb (type lk =? F_UNLCK) then
    if newl1 then Ok (lk :: tail) else Abort
  else Ok tail.

Definition ocons (l : lock) (r : outcome (list lock)) : outcome (list lock) :=
  match r with
  | Ok ls => Ok (l :: ls)
  | Abort => Abort
  | Diverge => Diverge
  end.

(** The [for (lp = &node->locks; *lp;)] loop of [locks_insert]: the result is
    the list hanging off [*lp] when the function returns. *)
Fixpoint locks_insert_loop (fuel : nat) (locks : list lock) (lk : lock)
    (newl1 newl2 : bool) : outcome (list lock) :=
  match fuel with
  | O => Diverge
  | S fuel =>
    match locks with
    | [] => locks_insert_end [] lk newl1
    | l :: rest =>
      if negb (owner l =? owner lk) then
        ocons l (locks_insert_loop fuel rest lk newl1 newl2)
      else if type lk =? type l then
        if end_ l <? start lk - 1 then
          ocons l (locks_insert_loop fuel rest lk newl1 newl2)
        else if end_ lk <? start l - 1 then
          locks_insert_end (l :: rest) lk newl1
        else if (start l <=? start lk) && (end_ lk <=? end_ l) then
          Ok (l :: rest)
        else
          let lk := if start l <? start lk then set_start lk (start l) else lk in
          let lk := if end_ lk <? end_ l then set_end lk (end_ l) else lk in
          locks_insert_loop fuel rest lk newl1 newl2
      else
        if end_ l <? start lk then
          ocons l (locks_insert_loop fuel rest lk newl1 newl2)
        else if end_ lk <? start l then
          locks_insert_end (l :: rest) lk newl1
        else if (start lk <=? start l) && (end_ l <=? end_ lk) then
          locks_insert_loop fuel rest lk newl1 newl2
        else if end_ l <=? end_ lk then
          ocons (set_end l (start lk - 1))
            (locks_insert_loop fuel rest lk newl1 newl2)
        else if start lk <=? start l then
          locks_insert_end (set_start l (end_ lk + 1) :: rest) lk newl1
        else if newl2 then
          ocons (set_end l (start lk - 1))
            (locks_insert_loop fuel (set_start l (end_ lk + 1) :: rest) lk newl1 false)
        else Abort
    end
  end.

(** [locks_insert(node, lock)]: the return value and the new [node->locks].
    [ok1] and [ok2] say whether the two [malloc]s succeed.  Each iteration
    consumes one lock and at most one is created, so [length locks + 2]
    iterations suffice. *)
Definition locks_insert (ok1 ok2 : bool) (locks : list lock) (lk : lock)
  : outcome (Z * list lock) :=
  let need := negb (type lk =? F_UNLCK) || negb (start lk =? 0) ||
              negb (end_ lk =? OFFSET_MAX) in
  if need && (negb ok1 || negb ok2) then Ok (- ENOLCK, locks)
  else
    match locks_insert_loop (length locks + 2) locks lk need need with
    | Ok ls => Ok (0, ls)
    | Abort => Abort
    | Diverge => Diverge
    end.

(** [struct flock], the fields used. *)
Record flock := mkFlock {
  l_type : Z;
  l_start : Z;
  l_len : Z;
  l_pid : Z;
}.

Definition flock_to_lock (fl : flock) : lock :=
  {| type := l_type fl;
     start := l_start fl;
     end_ := if truth (l_len fl) then swrap 64 (l_start fl + l_len fl - 1)
             else OFFSET_MAX;
     pid := l_pid fl;
     owner := 0 |}.

(** The fields [lock_to_flock] writes; the rest of [*flock] is kept. *)
Definition lock_to_flock (lk : lock) : flock :=
  {| l_type := type lk;
     l_start := start lk;
     l_len := if end_ lk =? OFFSET_MAX then 0
              else swrap 64 (end_ lk - start lk + 1);
     l_pid := pid lk |}.

(** ** What the list denotes *)

Definition covers (l : lock) (o x : Z) : bool :=
  (owner l =? o) && (start l <=? x) && (x <=? end_ l).

(** The type of the lock [o] holds on byte [x]. *)
Fixpoint held (ls : list lock) (o x : Z) : option Z :=
  match ls with
  | [] => None
  | l :: rest => if covers l o x then Some (type l) else held rest o x
  end.

(** The abstract effect of a [SETLK] on the map (owner, byte) -> type. *)
Definition set_held (lk : lock) (h : Z -> Z -> option Z) (o x : Z) : option Z :=
  if covers lk o x then (if type lk =? F_UNLCK then None else Some (type lk))
  else h o x.

Definition valid_range (l : lock) : Prop :=
  0 <= start l /\ start l <= end_ l /\ end_ l <= OFFSET_MAX.

Definition valid_lock (l : lock) : Prop :=
  valid_range l /\ (type l = F_RDLCK \/ type l = F_WRLCK).

(** Locks of one owner are in increasing order and disjoint. *)
Definition before (l r : lock) : Prop := owner l = owner r -> end_ l < start r.

Record locks_wf (ls : list lock) : Prop := {
  wf_valid : Forall valid_lock ls;
  wf_sorted : StronglySorted before ls;
}.

(** ** Lemmas *)

Section lemmas.
Implicit Types (l lk r : lock) (ls res : list lock).

Lemma covers_true l o x :
  covers l o x = true <-> owner l = o /\ start l <= x <= end_ l.
Proof. unfold covers. zcase; naive_solver lia. Qed.

Lemma covers_false l o x :
  covers l o x = false <-> (owner l <> o \/ x < start l \/ end_ l < x).
Proof. unfold covers. zcase; naive_solver lia. Qed.

(** No lock of [o] starts at or below [b]. *)
Definition above (o b : Z) ls : Prop := Forall (fun r => owner r = o -> b < start r) ls.

Lemma held_above o x ls : above o x ls -> held ls o x = None.
Proof.
  induction 1 as [|r ls Hr _ IH]; [done|]. simpl.
  rewrite IH /covers. destruct (Z.eqb_spec (owner r) o) as [Ho|Ho]; [|done].
  specialize (Hr Ho). zcase; done.
Qed.

Lemma locks_wf_nil : locks_wf [].
Proof. by split; constructor. Qed.

Lemma locks_wf_cons l ls :
  locks_wf (l :: ls) <-> valid_lock l /\ Forall (before l) ls /\ locks_wf ls.
Proof.
  split.
  - intros [Hv Hs]. inversion Hv; inversion Hs; subst. split_and!; [done..|by split].
  - intros (Hl & Hb & [Hv Hs]). by split; constructor.
Qed.

Lemma above_before l ls : Forall (before l) ls <-> above (owner l) (end_ l) ls.
Proof. split; apply Forall_impl; intros r Hr; unfold before in *; naive_solver. Qed.

Lemma above_weaken o b b' ls : b' <= b -> above o b ls -> above o b' ls.
Proof. intros ?. apply Forall_impl. intros r Hr ?. specialize (Hr ltac:(done)). lia. Qed.

(** What the loop establishes for the list [res] that replaces [ls]. *)
Record insert_post lk ls res : Prop := {
  post_wf : locks_wf res;
  post_held : forall o x, held res o x = set_held lk (held ls) o x;
  post_above : forall o b, above o b (lk :: ls) -> above o b res;
}.

Definition granted lk : Prop :=
  type lk = F_RDLCK \/ type lk = F_WRLCK \/ type lk = F_UNLCK.

Lemma insert_end_spec lk ls newl1 :
  valid_range lk -> granted lk -> newl1 = true \/ type lk = F_UNLCK ->
  locks_wf ls -> above (owner lk) (end_ lk) ls ->
  exists res, locks_insert_end ls lk newl1 = Ok res /\ insert_post lk ls res.
Proof.
  intros Hr Hg Hn Hwf Hab. unfold locks_insert_end.
  destruct (Z.eqb_spec (type lk) F_UNLCK) as [Ht|Ht]; simpl.
  - exists ls. split; [done|]. split; [done| |].
    + intros o x. rewrite /set_held Ht /=. destruct (covers lk o x) eqn:Hc; [|done].
      apply covers_true in Hc as [<- ?]. apply held_above.
      eapply above_weaken, Hab. lia.
    + intros o b H. by inversion H.
  - destruct Hn as [->|?]; [|done]. exists (lk :: ls). split; [done|]. split.
    + apply locks_wf_cons. split_and!; [split; [done|] | by apply above_before | done].
      destruct Hg as [?|[?|?]]; tauto.
    + intros o x. rewrite /set_held /=. by rewrite (proj2 (Z.eqb_neq _ _) Ht).
    + done.
Qed.

(** The skip case: a lock that lies before [lk] is kept. *)
Lemma insert_post_skip l lk ls res :
  valid_lock l -> above (owner l) (end_ l) ls ->
  (owner l = owner lk -> end_ l < start lk) ->
  insert_post lk ls res -> insert_post lk (l :: ls) (l :: res).
Proof.
  intros Hv Hab Hlk [Hwf Hheld Habove]. split.
  - apply locks_wf_cons. split_and!; [done| |done]. apply above_before.
    apply Habove. constructor; [naive_solver|done].
  - intros o x. cbn [held]. rewrite Hheld. unfold set_held. cbn [held].
    destruct (covers l o x) eqn:Hc'; [|done]. destruct (covers lk o x) eqn:Hc; [|done].
    apply covers_true in Hc' as [??], Hc as [??]. exfalso.
    specialize (Hlk ltac:(congruence)). lia.
  - intros o b H. inversion H as [|? ? H1 H2]; subst. inversion H2 as [|? ? H3 H4]; subst.
    constructor; [done|]. apply Habove. by constructor.
Qed.

(** The loop may go on with another list and lock that denote the same map. *)
Lemma insert_post_ext lk lk' ls ls' res :
  (forall o x, set_held lk (held ls) o x = set_held lk' (held ls') o x) ->
  (forall o b, above o b (lk :: ls) -> above o b (lk' :: ls')) ->
  insert_post lk' ls' res -> insert_post lk ls res.
Proof.
  intros Hh Ha [Hwf Hheld Habove]. split; [done| |auto].
  intros o x. by rewrite Hh Hheld.
Qed.

(** Trimming both ends of [l] to what [lk] leaves of it. *)
Lemma valid_set_end l v : valid_lock l -> start l <= v <= end_ l -> valid_lock (set_end l v).
Proof. intros [(?&?&?) ?] ?. split; [|done]. unfold valid_range; simpl; lia. Qed.
Lemma valid_set_start l v : valid_lock l -> start l <= v <= end_ l -> valid_lock (set_start l v).
Proof. intros [(?&?&?) ?] ?. split; [|done]. unfold valid_range; simpl; lia. Qed.

Lemma above_cons o b l ls :
  above o b (l :: ls) <-> (owner l = o -> b < start l) /\ above o b ls.
Proof. apply List.Forall_cons_iff. Qed.

Ltac solve_held :=
  let o := fresh "o" in let x := fresh "x" in
  intros o x; unfold set_held; cbn [held type set_start set_end];
  repeat match goal with
  | |- context [covers ?a o x] =>
      let H := fresh "Hc" in destruct (covers a o x) eqn:H;
      [apply covers_true in H | apply covers_false in H]
  end; cbn [owner start end_ set_start set_end] in *;
  try done; try lia;
  repeat match goal with
  | |- context [?t =? F_UNLCK] =>
      destruct (Z.eqb_spec t F_UNLCK);
      [exfalso; unfold F_RDLCK, F_WRLCK, F_UNLCK in *; lia|]
  end; try congruence.
Ltac solve_above :=
  let o := fresh "o" in let b := fresh "b" in
  intros o b; rewrite !above_cons; cbn [owner start end_ set_start set_end];
  intros; repeat match goal with H : _ /\ _ |- _ => destruct H end;
  split_and?; first [assumption|lia].

(** The specification of a run of the loop with the given fuel. *)
Definition loop_ok (fuel : nat) : Prop := forall ls lk newl1 newl2,
  (length ls + 2 <= fuel)%nat -> locks_wf ls -> valid_range lk -> granted lk ->
  newl1 = true \/ type lk = F_UNLCK ->
  newl2 = true \/ (start lk = 0 /\ end_ lk = OFFSET_MAX) ->
  exists res, locks_insert_loop fuel ls lk newl1 newl2 = Ok res /\
              insert_post lk ls res.

Section iteration.
Context (fuel : nat) (l lk : lock) (ls : list lock) (newl1 newl2 : bool).
Hypothesis IH : loop_ok fuel.
Hypothesis Hf : (length ls + 2 <= fuel)%nat.
Hypothesis Hwf : locks_wf (l :: ls).
Hypothesis Hr : valid_range lk.
Hypothesis Hg : granted lk.
Hypothesis Hn1 : newl1 = true \/ type lk = F_UNLCK.
Hypothesis Hn2 : newl2 = true \/ (start lk = 0 /\ end_ lk = OFFSET_MAX).

Let Hv : valid_lock l := proj1 (proj1 (locks_wf_cons l ls) Hwf).
Let Hwf' : locks_wf ls := proj2 (proj2 (proj1 (locks_wf_cons l ls) Hwf)).
Let Hab : above (owner l) (end_ l) ls :=
  proj1 (above_before l ls) (proj1 (proj2 (proj1 (locks_wf_cons l ls) Hwf))).

(** [goto skip] with [l] unchanged. *)
Lemma insert_skip :
  (owner l = owner lk -> end_ l < start lk) ->
  exists res, ocons l (locks_insert_loop fuel ls lk newl1 newl2) = Ok res /\
    insert_post lk (l :: ls) res.
Proof.
  intros H. destruct (IH ls lk newl1 newl2) as (res & -> & Hpost); [done..|].
  exists (l :: res). split; [done|]. by apply insert_post_skip.
Qed.

(** [break] before [l]. *)
Lemma insert_break :
  owner l = owner lk -> end_ lk < start l ->
  exists res, locks_insert_end (l :: ls) lk newl1 = Ok res /\
    insert_post lk (l :: ls) res.
Proof.
  intros Ho Hlt. apply insert_end_spec; auto. constructor; [lia|].
  rewrite -Ho. eapply above_weaken, Hab. destruct Hv as [(?&?&?) _]. lia.
Qed.

(** The iteration on a lock of the same owner and type. *)
Lemma insert_iter_same :
  owner l = owner lk -> type lk = type l ->
  exists res, locks_insert_loop (S fuel) (l :: ls) lk newl1 newl2 = Ok res /\
    insert_post lk (l :: ls) res.
Proof.
  intros Ho Ht. pose proof Hv as [(?&?&?) Hvt]. pose proof Hr as (?&?&?).
  cbn [locks_insert_loop]. rewrite Ho Ht !Z.eqb_refl. cbn [negb].
  destruct (Z.ltb_spec (end_ l) (start lk - 1)); [apply insert_skip; lia|].
  destruct (Z.ltb_spec (end_ lk) (start l - 1)); [apply insert_break; [done|lia]|].
  destruct ((start l <=? start lk) && (end_ lk <=? end_ l)) eqn:Hin.
  { exists (l :: ls). split; [done|].
    apply andb_true_iff in Hin as [?%Z.leb_le ?%Z.leb_le].
    split; [done| |solve_above]. solve_held. }
  set (lk1 := if start l <? start lk then _ else _).
  set (lk2 := if end_ lk1 <? end_ l then _ else _).
  assert (owner lk2 = owner lk /\ type lk2 = type lk /\
    start lk2 = Z.min (start l) (start lk) /\ end_ lk2 = Z.max (end_ lk) (end_ l))
    as (Ho2 & Ht2 & Hs2 & He2).
  { subst lk2 lk1. destruct (Z.ltb_spec (start l) (start lk)); cbn;
    destruct (Z.ltb_spec (end_ lk) (end_ l)); cbn; lia. }
  destruct (IH ls lk2 newl1 newl2) as (res & -> & Hpost); [lia|done|..].
  { unfold valid_range. lia. }
  { unfold granted in *. by rewrite Ht2. }
  { by rewrite Ht2. }
  { destruct Hn2 as [?|?]; [by left|right]. lia. }
  exists res. split; [done|]. revert Hpost. apply insert_post_ext; [|solve_above].
  solve_held.
Qed.

(** What is left of [l] above [lk] is still well formed. *)
Lemma wf_upper_part :
  owner l = owner lk -> start l <= end_ lk + 1 -> end_ lk < end_ l ->
  let u := set_start l (end_ lk + 1) :: ls in
  locks_wf u /\ above (owner lk) (end_ lk) u.
Proof.
  intros Ho H1 H2 u. assert (above (owner l) (end_ lk) ls) by (eapply above_weaken, Hab; lia).
  split; [|constructor; [cbn; lia|by rewrite -Ho]].
  apply locks_wf_cons. split_and!; [|by apply above_before, Hab|done].
  apply valid_set_start; [done|lia].
Qed.

(** [lk] lies strictly inside [l]: [l] is split in two. *)
Lemma insert_split :
  owner l = owner lk -> type lk <> type l -> start l < start lk -> end_ lk < end_ l ->
  exists res,
    ocons (set_end l (start lk - 1))
      (locks_insert_loop fuel (set_start l (end_ lk + 1) :: ls) lk newl1 false) = Ok res /\
    insert_post lk (l :: ls) res.
Proof.
  intros Ho Ht H1 H2. pose proof Hv as [(?&?&?) Hvt]. pose proof Hr as (?&?&?).
  destruct wf_upper_part as [??]; [done|lia..|].
  destruct fuel as [|n]; [lia|]. cbn [locks_insert_loop owner type start end_ set_start].
  rewrite (proj2 (Z.eqb_eq _ _) Ho) (proj2 (Z.eqb_neq _ _) Ht). cbn [negb].
  destruct (Z.ltb_spec (end_ l) (start lk)); [lia|].
  destruct (Z.ltb_spec (end_ lk) (end_ lk + 1)); [|lia].
  destruct (insert_end_spec lk (set_start l (end_ lk + 1) :: ls) newl1)
    as (res & -> & Hpost); auto.
  eexists. split; [done|].
  apply (insert_post_ext _ lk _
    (set_end l (start lk - 1) :: set_start l (end_ lk + 1) :: ls)); [|solve_above|].
  { solve_held. }
  apply insert_post_skip; [apply valid_set_end; [done|lia]| |cbn; lia|done].
  constructor; [cbn; lia|]. cbn. eapply above_weaken, Hab. lia.
Qed.

(** The iteration on a lock of the same owner and another type. *)
Lemma insert_iter_other :
  owner l = owner lk -> type lk <> type l ->
  exists res, locks_insert_loop (S fuel) (l :: ls) lk newl1 newl2 = Ok res /\
    insert_post lk (l :: ls) res.
Proof.
  intros Ho Ht. pose proof Hv as [(?&?&?) Hvt]. pose proof Hr as (?&?&?).
  cbn [locks_insert_loop].
  rewrite (proj2 (Z.eqb_eq _ _) Ho) (proj2 (Z.eqb_neq _ _) Ht). cbn [negb].
  destruct (Z.ltb_spec (end_ l) (start lk)); [apply insert_skip; lia|].
  destruct (Z.ltb_spec (end_ lk) (start l)); [by apply insert_break|].
  destruct ((start lk <=? start l) && (end_ l <=? end_ lk)) eqn:Hin.
  { apply andb_true_iff in Hin as [?%Z.leb_le ?%Z.leb_le].
    destruct (IH ls lk newl1 newl2) as (res & -> & Hpost); [done..|].
    exists res. split; [done|]. revert Hpost.
    apply insert_post_ext; [|solve_above]. solve_held. }
  apply andb_false_iff in Hin. rewrite !Z.leb_gt in Hin.
  destruct (Z.leb_spec (end_ l) (end_ lk)).
  { destruct (IH ls lk newl1 newl2) as (res & -> & Hpost); [done..|].
    eexists. split; [done|].
    apply (insert_post_ext _ lk _ (set_end l (start lk - 1) :: ls)); [|solve_above|].
    { solve_held. }
    apply insert_post_skip; [apply valid_set_end; [done|lia]| |cbn; lia|done].
    cbn. eapply above_weaken, Hab. lia. }
  destruct (Z.leb_spec (start lk) (start l)).
  { destruct wf_upper_part as [??]; [done|lia..|].
    destruct (insert_end_spec lk (set_start l (end_ lk + 1) :: ls) newl1)
      as (res & -> & Hpost); auto.
    exists res. split; [done|]. revert Hpost.
    apply insert_post_ext; [|solve_above]. solve_held. }
  destruct Hn2 as [->|?]; [|lia]. apply insert_split; [done..|lia|lia].
Qed.
End iteration.

Lemma insert_loop_spec fuel : loop_ok fuel.
Proof.
  induction fuel as [|fuel IH]; intros ls lk newl1 newl2 Hf Hwf Hr Hg Hn1 Hn2; [lia|].
  destruct ls as [|l ls].
  { apply insert_end_spec; auto. constructor. }
  cbn [length] in Hf. assert (length ls + 2 <= fuel)%nat by lia.
  destruct (Z.eqb_spec (owner l) (owner lk)) as [Ho|Ho].
  - destruct (Z.eqb_spec (type lk) (type l)).
    + by apply insert_iter_same.
    + by apply insert_iter_other.
  - cbn [locks_insert_loop]. rewrite (proj2 (Z.eqb_neq _ _) Ho). by apply insert_skip.
Qed.
End lemmas.

Lemma held_elem ls l o x :
  locks_wf ls -> l ∈ ls -> covers l o x = true -> held ls o x = Some (type l).
Proof.
  intros Hwf Hin Hc. induction ls as [|r ls IH]; [by apply elem_of_nil in Hin|].
  apply locks_wf_cons in Hwf as (Hv & Hb & Hwf). cbn [held].
  apply elem_of_cons in Hin as [<-|Hin]; [by rewrite Hc|].
  destruct (covers r o x) eqn:Hcr; [|by apply IH].
  apply covers_true in Hc as [<- ?], Hcr as [? ?].
  eapply Forall_forall in Hb; [|by apply list_elem_of_In]. specialize (Hb ltac:(done)). lia.
Qed.

Lemma held_Some_elem ls o x t :
  held ls o x = Some t -> exists l, l ∈ ls /\ covers l o x = true /\ type l = t.
Proof.
  induction ls as [|r ls IH]; cbn [held]; [done|]. destruct (covers r o x) eqn:Hc.
  - intros [= <-]. exists r. by rewrite elem_of_cons; auto.
  - intros (l & ? & ? & ?)%IH. exists l. by rewrite elem_of_cons; auto.
Qed.

Lemma locks_conflict_None ls lk :
  locks_conflict ls lk = None <-> forall l, l ∈ ls -> conflicts l lk = false.
Proof.
  induction ls as [|r ls IH]; cbn [locks_conflict].
  { split; [|done]. by intros _ l ?%elem_of_nil. }
  destruct (conflicts r lk) eqn:Hc.
  - split; [done|]. intros H. specialize (H r). rewrite elem_of_cons in H. naive_solver congruence.
  - rewrite IH. setoid_rewrite elem_of_cons. naive_solver.
Qed.

Lemma conflicts_true l lk :
  conflicts l lk = true <->
  owner l <> owner lk /\ start lk <= end_ l /\ start l <= end_ lk /\
  (type l = F_WRLCK \/ type lk = F_WRLCK).
Proof.
  unfold conflicts. destruct (Z.eqb_spec (owner l) (owner lk)), (Z.leb_spec (start lk) (end_ l)),
    (Z.leb_spec (start l) (end_ lk)), (Z.eqb_spec (type l) F_WRLCK),
    (Z.eqb_spec (type lk) F_WRLCK); simpl; split; intros; try done; try tauto; try lia.
Qed.

(** Two owners never hold a byte when one of them has it for writing. *)
Definition exclusive (ls : list lock) : Prop :=
  forall o1 o2 x, o1 <> o2 -> held ls o1 x = Some F_WRLCK -> held ls o2 x = None.

Lemma locks_insert_run ok1 ok2 ls lk :
  locks_wf ls -> valid_range lk -> granted lk ->
  (type lk = F_UNLCK /\ start lk = 0 /\ end_ lk = OFFSET_MAX) \/ ok1 = true /\ ok2 = true ->
  exists res, locks_insert ok1 ok2 ls lk = Ok (0, res) /\ insert_post lk ls res.
Proof.
  intros Hwf Hr Hg Hok. unfold locks_insert. set (need := _ || _ || _).
  assert (need && (negb ok1 || negb ok2) = false) as ->.
  { destruct Hok as [(Ht & Hs & He)|[-> ->]]; [|by rewrite andb_false_r]. unfold need. by rewrite Ht Hs He. }
  destruct (insert_loop_spec (length ls + 2) ls lk need need) as (res & -> & Hpost); eauto.
  - subst need. destruct (Z.eqb_spec (type lk) F_UNLCK); [by right|by left].
  - subst need. zcase; auto.
Qed.

(** ** Theorems *)

(** Unlocking the whole file needs no memory. *)
Definition whole_unlock (lk : lock) : Prop := type lk = F_UNLCK /\ start lk = 0 /\ end_ lk = OFFSET_MAX.

(** C10: [locks_insert] implements the abstract [SETLK]: on a well-formed list
    it terminates without touching a NULL pointer and keeps the list well formed
    (per owner sorted and disjoint).  When both allocations succeed, or none is needed
    because the whole file is unlocked, it returns 0 and changes the lock type
    exactly on the bytes and for the owner of the request; otherwise it returns
    [-ENOLCK] and changes nothing. *)
Theorem locks_insert_refines ok1 ok2 ls lk :
  locks_wf ls -> valid_range lk -> granted lk ->
  exists r ls', locks_insert ok1 ok2 ls lk = Ok (r, ls') /\ locks_wf ls' /\
    (r = 0 /\ (whole_unlock lk \/ ok1 = true /\ ok2 = true) /\ (forall o x, held ls' o x = set_held lk (held ls) o x) \/
     r = - ENOLCK /\ ~ whole_unlock lk /\ (ok1 = false \/ ok2 = false) /\ ls' = ls).
Proof.
  intros Hwf Hr Hg. destruct (decide (whole_unlock lk \/ ok1 = true /\ ok2 = true)) as [Hok|Hok].
  - destruct (locks_insert_run ok1 ok2 ls lk) as (res & ? & []); eauto 10.
  - exists (- ENOLCK), ls. assert (~ whole_unlock lk /\ (ok1 = false \/ ok2 = false)) as [Hn Hf] by (destruct ok1, ok2; tauto).
    split_and!; [|done|right; done]. unfold locks_insert.
    assert (negb (type lk =? F_UNLCK) || negb (start lk =? 0) || negb (end_ lk =? OFFSET_MAX) = true) as ->.
    { unfold whole_unlock in Hn. zcase; tauto. }
    by destruct Hf as [-> | ->]; [|rewrite orb_true_r].
Qed.

(** A sample node: owner 1 reads 0-99 and writes 200-299, owner 2 reads 50-149. *)
Definition sample_locks : list lock :=
  [mkLock F_RDLCK 0 99 11 1; mkLock F_RDLCK 50 149 12 2; mkLock F_WRLCK 200 299 11 1].

Lemma sample_locks_wf : locks_wf sample_locks.
Proof.
  split.
  - repeat (apply List.Forall_cons; [unfold valid_lock, valid_range, F_RDLCK, F_WRLCK, OFFSET_MAX;
      cbn; lia|]). constructor.
  - repeat constructor; unfold before; cbn; lia.
Qed.

(** Splitting the first read lock of owner 1 by unlocking its middle. *)
Lemma locks_insert_refines_witness :
  exists r ls', locks_insert true true sample_locks (mkLock F_UNLCK 10 19 11 1) = Ok (r, ls') /\
    locks_wf ls' /\
    (r = 0 /\ (whole_unlock (mkLock F_UNLCK 10 19 11 1) \/ true = true /\ true = true) /\
      (forall o x, held ls' o x = set_held (mkLock F_UNLCK 10 19 11 1) (held sample_locks) o x) \/
     r = - ENOLCK /\ ~ whole_unlock (mkLock F_UNLCK 10 19 11 1) /\ (true = false \/ true = false) /\ ls' = sample_locks).
Proof.
  apply (locks_insert_refines true true sample_locks (mkLock F_UNLCK 10 19 11 1)).
  - apply sample_locks_wf.
  - unfold valid_range, OFFSET_MAX; cbn; lia.
  - right; right; reflexivity.
Defined.

Example locks_insert_splits :
  locks_insert true true sample_locks (mkLock F_UNLCK 10 19 11 1) =
  Ok (0, [mkLock F_RDLCK 0 9 11 1; mkLock F_RDLCK 20 99 11 1;
          mkLock F_RDLCK 50 149 12 2; mkLock F_WRLCK 200 299 11 1]).
Proof. reflexivity. Qed.

(** [l] keeps [lk] from being granted: another owner has a byte of the range, and
    one of the two is a writer. *)
Definition stands_in_way (l lk : lock) : Prop :=
  owner l <> owner lk /\ (exists x, start l <= x <= end_ l /\ start lk <= x <= end_ lk) /\
  (type l = F_WRLCK \/ type lk = F_WRLCK).

Lemma conflicts_stands l lk : valid_range l -> valid_range lk -> conflicts l lk = true <-> stands_in_way l lk.
Proof.
  unfold valid_range, stands_in_way. rewrite conflicts_true. intros [Hl1 Hl2] [Hk1 Hk2]. split.
  - intros (Ho & H1 & H2 & Ht). split_and!; [done| |done]. exists (Z.max (start l) (start lk)). lia.
  - intros (Ho & (x & ? & ?) & Ht). split_and!; [done|lia|lia|done].
Qed.

Lemma locks_conflict_Some ls lk l : locks_conflict ls lk = Some l ->
  exists before after, ls = before ++ l :: after /\ conflicts l lk = true /\ forall l', l' ∈ before -> conflicts l' lk = false.
Proof.
  induction ls as [|r ls IH]; cbn [locks_conflict]; [done|]. destruct (conflicts r lk) eqn:Hc.
  - intros [= ->]. exists [], ls. split_and!; [done..|]. by intros l' ?%elem_of_nil.
  - intros (bf & af & -> & Hl & Hb)%IH. exists (r :: bf), af. split_and!; [done..|]. setoid_rewrite elem_of_cons. naive_solver.
Qed.

(** C25: [locks_conflict] answers [GETLK] exactly: when it finds nothing, no other
    owner holds a byte of the range in a way that excludes the requested type;
    what it finds is the first lock of the list that stands in the way. *)
Theorem locks_conflict_exact ls lk :
  locks_wf ls -> valid_range lk ->
  match locks_conflict ls lk with
  | None => forall o x t, o <> owner lk -> start lk <= x <= end_ lk -> held ls o x = Some t ->
      t <> F_WRLCK /\ type lk <> F_WRLCK
  | Some l => exists before after, ls = before ++ l :: after /\ stands_in_way l lk /\
      forall l', l' ∈ before -> ~ stands_in_way l' lk
  end.
Proof.
  intros Hwf Hr.
  assert (forall l, l ∈ ls -> valid_range l) as Hv.
  { intros l Hin. assert (valid_lock l) as [? _]; [|done]. eapply Forall_forall; [by destruct Hwf|by apply list_elem_of_In]. }
  destruct (locks_conflict ls lk) as [l|] eqn:E.
  - apply locks_conflict_Some in E as (bf & af & -> & Hl & Hb). exists bf, af.
    setoid_rewrite elem_of_app in Hv. setoid_rewrite elem_of_cons in Hv.
    split_and!; [done|apply conflicts_stands; auto|]. intros l' Hl' Hs%conflicts_stands; auto. by rewrite Hb in Hs.
  - rewrite locks_conflict_None in E. intros o x t Ho Hx (l & Hin & [<- Hc]%covers_true & <-)%held_Some_elem.
    specialize (E l Hin). apply not_true_iff_false in E. rewrite conflicts_true in E.
    split; intros ?; apply E; split_and!; try done; lia || auto.
Qed.

Lemma locks_conflict_exact_witness :
  (exists l before after, sample_locks = before ++ l :: after /\ start l = 200 /\ stands_in_way l (mkLock F_RDLCK 150 250 13 3)) /\
  forall o x t, o <> 3 -> 150 <= x <= 199 -> held sample_locks o x = Some t -> t <> F_WRLCK /\ F_RDLCK <> F_WRLCK.
Proof.
  split.
  - assert (valid_range (mkLock F_RDLCK 150 250 13 3)) as Hr by (unfold valid_range, OFFSET_MAX; cbn; lia).
    destruct (locks_conflict_exact sample_locks _ sample_locks_wf Hr) as (bf & af & H1 & H2 & _).
    eexists _, bf, af. split; [exact H1|]. split; [reflexivity|exact H2].
  - apply (locks_conflict_exact sample_locks (mkLock F_RDLCK 150 199 13 3)).
    + apply sample_locks_wf.
    + unfold valid_range, OFFSET_MAX; cbn; lia.
Defined.

(** C24: mutual exclusion.  If a lock is inserted only when [locks_conflict]
    reports none, no byte is ever held by two owners when one of them has it for
    writing. *)
Theorem locks_insert_exclusive ls lk ls' :
  locks_wf ls -> exclusive ls -> valid_range lk -> granted lk ->
  locks_conflict ls lk = None -> locks_insert true true ls lk = Ok (0, ls') ->
  exclusive ls'.
Proof.
  intros Hwf Hex Hr Hg Hnc Hins o1 o2 x Hne.
  destruct (locks_insert_run true true ls lk) as (res & Hres & [_ Hheld _]); auto.
  rewrite Hres in Hins. injection Hins as ->.
  rewrite !Hheld. unfold set_held.
  rewrite locks_conflict_None in Hnc.
  assert (forall o t, o <> owner lk -> covers lk (owner lk) x = true -> held ls o x = Some t ->
    t <> F_WRLCK /\ type lk <> F_WRLCK) as Hno.
  { intros o t Ho [_ Hx]%covers_true (l & Hin & [<- Hc]%covers_true & <-)%held_Some_elem.
    specialize (Hnc l Hin). apply not_true_iff_false in Hnc. rewrite conflicts_true in Hnc.
    split; intros ?; apply Hnc; split_and!; auto; lia. }
  destruct (covers lk o1 x) eqn:H1; destruct (covers lk o2 x) eqn:H2; eauto.
  - apply covers_true in H1 as [<- _], H2 as [<- _]. done.
  - pose proof H1 as [<- _]%covers_true. destruct (Z.eqb_spec (type lk) F_UNLCK); [done|].
    intros [= Ht]. destruct (held ls o2 x) as [t|] eqn:Hh; [|done].
    destruct (Hno o2 t) as [_ ?]; [by intros ->|done|done|done].
  - pose proof H2 as [<- _]%covers_true. intros Hh.
    destruct (Hno o1 F_WRLCK) as [? _]; done.
Qed.

Lemma locks_insert_exclusive_witness :
  exclusive [mkLock F_RDLCK 0 9 11 1; mkLock F_WRLCK 10 19 11 1].
Proof.
  apply (locks_insert_exclusive [mkLock F_RDLCK 0 19 11 1] (mkLock F_WRLCK 10 19 11 1)).
  - apply locks_wf_cons. split_and!; [|constructor|apply locks_wf_nil].
    split; [unfold valid_range, OFFSET_MAX; cbn; lia|by left].
  - intros o1 o2 x ?. unfold held, covers, type. zcase; try done; intros [= ].
  - unfold valid_range, OFFSET_MAX; cbn; lia.
  - right; left; reflexivity.
  - reflexivity.
  - reflexivity.
Defined.

(** the conversions between [struct flock] and [struct lock] are inverse on
    every range the kernel sends: a finite range comes back unchanged, a range
    that reaches [OFFSET_MAX] comes back as the open-ended one ([l_len = 0]). *)
Theorem flock_lock_roundtrip fl :
  0 <= l_start fl -> 0 <= l_len fl -> l_start fl + l_len fl - 1 <= OFFSET_MAX ->
  lock_to_flock (flock_to_lock fl) =
  if (l_start fl + l_len fl - 1 =? OFFSET_MAX)
  then mkFlock (l_type fl) (l_start fl) 0 (l_pid fl) else fl.
Proof.
  destruct fl as [t st len p]. unfold lock_to_flock, flock_to_lock, truth, swrap; cbn.
  unfold OFFSET_MAX. intros Hs Hl He.
  destruct (Z.eqb_spec len 0) as [->|Hne]; cbn.
  { by destruct (Z.eqb_spec (st + 0 - 1) 9223372036854775807). }
  assert (forall x, 0 <= x <= 9223372036854775807 ->
    (let r := x mod 18446744073709551616 in
     if r <? 9223372036854775808 then r else r - 18446744073709551616) = x) as Hid.
  { intros x Hx. rewrite Z.mod_small; [lia|]. cbn. zcase; lia. }
  cbn in Hid. rewrite Hid; [lia|]. destruct (Z.eqb_spec (st + len - 1) 9223372036854775807); [done|].
  rewrite Hid; [lia|]. f_equal. lia.
Qed.

Lemma flock_lock_roundtrip_witness :
  lock_to_flock (flock_to_lock (mkFlock F_RDLCK 100 50 7)) = mkFlock F_RDLCK 100 50 7.
Proof.
  apply (flock_lock_roundtrip (mkFlock F_RDLCK 100 50 7)); cbn; unfold OFFSET_MAX; lia.
Defined.
