(* ===== verification/OptParse.v ===== *)
(** * The option parser ([lib/fuse_opt.c])

    [struct fuse_args] and its constructors, the escaping of comma-separated
    option strings, template matching, and [fuse_opt_parse] with every function
    it calls.  Memory allocation can fail at every call ([alloc_ok]); the
    callback [proc] and the C library's [sscanf] are parameters. *)
From S2P Require Import Prelude.

(** ** Argument vectors *)

(** [struct fuse_args]; [argv] is [NULL] or an array whose cells are strings or
    [NULL]. *)
Record fuse_args := mkArgs {
  argc : Z;
  argv : option (list (option cstring));
  allocated : Z;
}.

Definition FUSE_OPT_KEY_OPT : Z := -1.
Definition FUSE_OPT_KEY_NONOPT : Z := -2.
Definition FUSE_OPT_KEY_KEEP : Z := -3.
Definition FUSE_OPT_KEY_DISCARD : Z := -4.

(** [-1U], the offset of [FUSE_OPT_KEY]. *)
Definition NO_OFFSET : Z := 4294967295.

(** [struct fuse_opt]; the terminating entry with [templ == NULL] is the end of
    the list. *)
Record fuse_opt := mkOpt {
  templ : cstring;
  offset : Z;
  value : Z;
}.

(** What a field of the user's [data] holds: an integer written by a flag or by
    [sscanf], or a [strdup]ed string. *)
Inductive field := FInt (v : Z) | FStr (s : cstring).

(** The fields of [data], by offset. *)
Abbreviation fields := (gmap Z field).

(** [struct fuse_opt_context]; [opt] and [proc] are constant and parameters
    below.  [tick] counts the allocations made. *)
Record context := mkCtx {
  data : fields;
  argctr : Z;
  in_argc : Z;
  in_argv : list (option cstring);
  outargs : fuse_args;
  opts : option cstring;
  nonopt : Z;
  tick : nat;
}.

Definition set_data (c : context) d :=
  mkCtx d (argctr c) (in_argc c) (in_argv c) (outargs c) (opts c) (nonopt c) (tick c).
Definition set_argctr (c : context) n :=
  mkCtx (data c) n (in_argc c) (in_argv c) (outargs c) (opts c) (nonopt c) (tick c).
Definition set_outargs (c : context) a :=
  mkCtx (data c) (argctr c) (in_argc c) (in_argv c) a (opts c) (nonopt c) (tick c).
Definition set_opts (c : context) o :=
  mkCtx (data c) (argctr c) (in_argc c) (in_argv c) (outargs c) o (nonopt c) (tick c).
Definition set_nonopt (c : context) n :=
  mkCtx (data c) (argctr c) (in_argc c) (in_argv c) (outargs c) (opts c) n (tick c).
Definition set_tick (c : context) t :=
  mkCtx (data c) (argctr c) (in_argc c) (in_argv c) (outargs c) (opts c) (nonopt c) t.

(** The argument strings are read with [argv[i]]. *)
Definition arg_at (av : list (option cstring)) (i : Z) : cstring :=
  default [] (default None (av !! Z.to_nat i)).

Definition fuse_opt_free_args (args : fuse_args) : fuse_args :=
  mkArgs 0 None 0.

(** The body of [fuse_opt_add_arg]: [ok1] and [ok2] are the outcomes of
    [strdup] and of [realloc].  [realloc] keeps the old cells; the two cells
    written after it are the new last string and the new terminator. *)
Definition fuse_opt_add_arg (ok1 ok2 : bool) (args : fuse_args) (arg : cstring)
  : outcome (Z * fuse_args) :=
  if bool_decide (argv args = None) || truth (allocated args) then
    if negb ok1 then Ok (-1, args)
    else if negb ok2 then Ok (-1, args)
    else
      let old := default [] (argv args) in
      let n := Z.to_nat (argc args) in
      let newargv := resize (n + 2) None old in
      let newargv := <[n := Some arg]> newargv in
      let newargv := <[S n := None]> newargv in
      Ok (0, mkArgs (argc args + 1) (Some newargv) 1)
  else Abort.

(** [memmove(&a[pos + 1], &a[pos], len)] on an array of pointers. *)
Definition memmove_up {A} (a : list A) (pos len : nat) : list A :=
  take (S pos) a ++ take len (drop pos a) ++ drop (S pos + len) a.

Definition fuse_opt_insert_arg_common (ok1 ok2 : bool) (args : fuse_args) (pos : Z)
    (arg : cstring) : outcome (Z * fuse_args) :=
  if pos <=? argc args then
    match fuse_opt_add_arg ok1 ok2 args arg with
    | Ok (r, args) =>
      if r =? -1 then Ok (-1, args)
      else if negb (pos =? argc args - 1) then
        let av := default [] (argv args) in
        let newarg := default None (av !! Z.to_nat (argc args - 1)) in
        let av := memmove_up av (Z.to_nat pos) (Z.to_nat (argc args - pos - 1)) in
        Ok (0, mkArgs (argc args) (Some (<[Z.to_nat pos := newarg]> av)) (allocated args))
      else Ok (0, args)
    | Abort => Abort
    | Diverge => Diverge
    end
  else Abort.

Definition fuse_opt_insert_arg := fuse_opt_insert_arg_common.

(** ** Option strings *)

Definition comma : ascii := ",".
Definition backslash : ascii := "\".
Definition equals : ascii := "=".
Definition space : ascii := " ".
Definition percent : ascii := "%".
Definition dash : ascii := "-".

(** The copying loop of [add_opt_common]. *)
Fixpoint escape (esc : bool) (opt : cstring) : cstring :=
  match opt with
  | [] => []
  | c :: opt =>
    if esc && (ceq c comma || ceq c backslash) then backslash :: c :: escape esc opt
    else c :: escape esc opt
  end.

(** [add_opt_common(opts, opt, esc)]: [realloc], a comma when the old string is
    not empty, and the escaped option. *)
Definition add_opt_common (ok : bool) (opts : option cstring) (opt : cstring) (esc : bool)
  : Z * option cstring :=
  let oldlen := match opts with Some o => strlen o | None => 0 end in
  if negb ok then (-1, opts)
  else
    let old := default [] opts in
    (0, Some ((if truth oldlen then old ++ [comma] else []) ++ escape esc opt)).

Definition fuse_opt_add_opt (ok : bool) opts opt := add_opt_common ok opts opt false.
Definition fuse_opt_add_opt_escaped (ok : bool) opts opt := add_opt_common ok opts opt true.

(** ** Templates *)

(** [strncmp(arg, t, n) == 0] when both strings have [n] bytes. *)
Definition strncmp_eq (a b : cstring) (n : nat) : bool := bool_decide (take n a = take n b).

(** [match_template(t, arg, sepp)]: the result is [*sepp] when it returns 1. *)
Definition match_template (t arg : cstring) : option nat :=
  let sep := match strchr t equals with Some i => Some i | None => strchr t space end in
  let by_prefix :=
    match sep with
    | Some i =>
      if ceq (char_at t (S i)) NUL || ceq (char_at t (S i)) percent then
        let tlen := if ceq (char_at t i) equals then S i else i in
        if (Nat.leb tlen (length arg)) && strncmp_eq arg t tlen then Some i else None
      else None
    | None => None
    end in
  match by_prefix with
  | Some i => Some i
  | None => if strcmp_eq t arg then Some O else None
  end.

(** [find_opt]: the first matching entry, its [sep] and the entries after it. *)
Fixpoint find_opt (opts : list fuse_opt) (arg : cstring)
  : option (fuse_opt * nat * list fuse_opt) :=
  match opts with
  | [] => None
  | o :: rest =>
    match match_template (templ o) arg with
    | Some sep => Some (o, sep, rest)
    | None => find_opt rest arg
    end
  end.

Definition fuse_opt_match (opts : list fuse_opt) (opt : cstring) : Z :=
  match find_opt opts opt with Some _ => 1 | None => 0 end.

(** ** The parser *)

Section parser.
(** The allocator: whether the [n]-th allocation succeeds. *)
Context (alloc_ok : nat -> bool).
(** [sscanf(param, format, var)]: the value stored when it returns 1. *)
Context (sscanf : cstring -> cstring -> option Z).
(** [ctx->opt] and [ctx->proc]. *)
Context (templates : list fuse_opt).
Context (proc : option (fields -> cstring -> Z -> fuse_args -> nat ->
                        Z * fields * fuse_args * nat)).

Definition malloc : M context bool := fun c =>
  Ok (alloc_ok (tick c), set_tick c (S (tick c))).

(** [fuse_opt_add_arg] on [ctx->outargs]: [realloc] is called only after a
    successful [strdup]. *)
Definition add_arg (arg : cstring) : M context Z := fun c =>
  let ok1 := alloc_ok (tick c) in
  let t := if ok1 then S (S (tick c)) else S (tick c) in
  match fuse_opt_add_arg ok1 (alloc_ok (S (tick c))) (outargs c) arg with
  | Ok (r, a) => Ok (r, set_tick (set_outargs c a) t)
  | Abort => Abort
  | Diverge => Diverge
  end.

Definition insert_arg (pos : Z) (arg : cstring) : M context Z := fun c =>
  let ok1 := alloc_ok (tick c) in
  let t := if ok1 then S (S (tick c)) else S (tick c) in
  match fuse_opt_insert_arg ok1 (alloc_ok (S (tick c))) (outargs c) pos arg with
  | Ok (r, a) => Ok (r, set_tick (set_outargs c a) t)
  | Abort => Abort
  | Diverge => Diverge
  end.

Definition add_opt (opt : cstring) : M context Z :=
  ok ← malloc;
  c ← get;
  let '(r, o) := add_opt_common ok (opts c) opt true in
  put (set_opts c o);;
  mret r.

Definition next_arg (opt : cstring) : M context Z :=
  c ← get;
  if in_argc c <=? argctr c + 1 then mret (-1)
  else put (set_argctr c (argctr c + 1));; mret 0.

Definition call_proc (arg : cstring) (key : Z) (iso : bool) : M context Z :=
  if key =? FUSE_OPT_KEY_DISCARD then mret 0
  else
    res ← (match proc with
           | Some p =>
             if negb (key =? FUSE_OPT_KEY_KEEP) then
               c ← get;
               let '(r, d, a, t) := p (data c) arg key (outargs c) (tick c) in
               put (set_tick (set_outargs (set_data c d) a) t);;
               mret (if (r =? -1) || (r =? 0) then Some r else None)
             else mret None
           | None => mret None
           end);
    match res with
    | Some r => mret r
    | None => if iso then add_opt arg else add_arg arg
    end.

Definition process_opt_param (var : Z) (format param arg : cstring) : M context Z :=
  assert (ceq (char_at format 0) percent);;
  if ceq (char_at format 1) "s"%char then
    ok ← malloc;
    if negb ok then mret (-1)
    else modify (fun c => set_data c (<[var := FStr param]> (data c)));; mret 0
  else
    match sscanf param format with
    | None => mret (-1)
    | Some v => modify (fun c => set_data c (<[var := FInt v]> (data c)));; mret 0
    end.

Definition process_opt (opt : fuse_opt) (sep : nat) (arg : cstring) (iso : bool)
  : M context Z :=
  if offset opt =? NO_OFFSET then
    r ← call_proc arg (value opt) iso;
    mret (if r =? -1 then -1 else 0)
  else if negb (sep =? 0)%nat && negb (ceq (char_at (templ opt) (S sep)) NUL) then
    let param := drop sep arg in
    let param := if ceq (char_at (templ opt) sep) equals then drop 1 param else param in
    r ← process_opt_param (offset opt) (drop (S sep) (templ opt)) param arg;
    mret (if r =? -1 then -1 else 0)
  else
    modify (fun c => set_data c (<[offset opt := FInt (value opt)]> (data c)));;
    mret 0.

Definition process_opt_sep_arg (opt : fuse_opt) (sep : nat) (arg : cstring) (iso : bool)
  : M context Z :=
  r ← next_arg arg;
  if r =? -1 then mret (-1)
  else
    c ← get;
    let param := arg_at (in_argv c) (argctr c) in
    ok ← malloc;
    if negb ok then mret (-1)
    else process_opt opt sep (take sep arg ++ param) iso.

(** The [for] loop of [process_gopt] over the matching templates. *)
Fixpoint gopt_loop (ts : list fuse_opt) (arg : cstring) (iso : bool) : M context Z :=
  match ts with
  | [] => mret 0
  | opt :: ts =>
    match match_template (templ opt) arg with
    | None => gopt_loop ts arg iso
    | Some sep =>
      res ← (if negb (sep =? 0)%nat && ceq (char_at (templ opt) sep) space &&
                ceq (char_at arg sep) NUL
             then process_opt_sep_arg opt sep arg iso
             else process_opt opt sep arg iso);
      if res =? -1 then mret (-1) else gopt_loop ts arg iso
    end
  end.

Definition process_gopt (arg : cstring) (iso : bool) : M context Z :=
  match find_opt templates arg with
  | Some _ => gopt_loop templates arg iso
  | None => call_proc arg FUSE_OPT_KEY_OPT iso
  end.

Definition octal_digit (c hi : ascii) : bool :=
  (48 <=? uchar c) && (uchar c <=? uchar hi).

Definition octal_value (a b c : ascii) : ascii :=
  of_uchar ((uchar a - 48) * 64 + (uchar b - 48) * 8 + (uchar c - 48)).

(** [process_real_option_group]: the string is decoded in place; [buf] is the
    array [opts], [s] and [d] the read and write positions. *)
Fixpoint group_loop (fuel : nat) (buf : list ascii) (s d : nat) : M context Z :=
  match fuel with
  | O => diverge
  | S fuel =>
    let at_ i := nth i buf NUL in
    let end_ := ceq (at_ s) NUL in
    if ceq (at_ s) comma || end_ then
      let buf := <[d := NUL]> buf in
      res ← process_gopt (c_str buf) true;
      if res =? -1 then mret (-1)
      else if end_ then mret 0 else group_loop fuel buf (S s) 0
    else if ceq (at_ s) backslash && negb (ceq (at_ (S s)) NUL) then
      let s := S s in
      if octal_digit (at_ s) "3" && octal_digit (at_ (S s)) "7" &&
         octal_digit (at_ (S (S s))) "7"
      then group_loop fuel
             (<[d := octal_value (at_ s) (at_ (S s)) (at_ (S (S s)))]> buf)
             (S (S (S s))) (S d)
      else group_loop fuel (<[d := at_ s]> buf) (S s) (S d)
    else group_loop fuel (<[d := at_ s]> buf) (S s) (S d)
  end.

Definition process_real_option_group (opts : list ascii) : M context Z :=
  group_loop (length opts) opts 0 0.

(** [strdup] copies the string with its terminator. *)
Definition process_option_group (opts : cstring) : M context Z :=
  ok ← malloc;
  if negb ok then mret (-1)
  else process_real_option_group (opts ++ [NUL]).

Definition process_one (arg : cstring) : M context Z :=
  c ← get;
  if truth (nonopt c) || negb (ceq (char_at arg 0) dash) then
    call_proc arg FUSE_OPT_KEY_NONOPT false
  else if ceq (char_at arg 1) "o"%char then
    if negb (ceq (char_at arg 2) NUL) then process_option_group (drop 2 arg)
    else
      r ← next_arg arg;
      if r =? -1 then mret (-1)
      else c ← get; process_option_group (arg_at (in_argv c) (argctr c))
  else if ceq (char_at arg 1) dash && ceq (char_at arg 2) NUL then
    r ← add_arg arg;
    if r =? -1 then mret (-1)
    else modify (fun c => set_nonopt c (argc (outargs c)));; mret 0
  else process_gopt arg false.

(** The [for] loop of [opt_parse]; each iteration advances [argctr]. *)
Fixpoint parse_loop (fuel : nat) : M context Z :=
  match fuel with
  | O => diverge
  | S fuel =>
    c ← get;
    if argctr c <? in_argc c then
      r ← process_one (arg_at (in_argv c) (argctr c));
      if r =? -1 then mret (-1)
      else modify (fun c => set_argctr c (argctr c + 1));; parse_loop fuel
    else mret 0
  end.

(** If the option separator is the last argument, remove it. *)
Definition drop_separator (a : fuse_args) (nonopt : Z) : fuse_args :=
  let av := default [] (argv a) in
  if truth nonopt && (nonopt =? argc a) &&
     strcmp_eq (arg_at av (argc a - 1)) (lit "--")
  then mkArgs (argc a - 1) (Some (<[Z.to_nat (argc a - 1) := None]> av)) (allocated a)
  else a.

Definition opt_parse : M context Z :=
  c ← get;
  r ← (if truth (in_argc c) then add_arg (arg_at (in_argv c) 0) else mret 0);
  if r =? -1 then mret (-1)
  else
    modify (fun c => set_argctr c 1);;
    r ← parse_loop (S (Z.to_nat (in_argc c)));
    if r =? -1 then mret (-1)
    else
      c ← get;
      r ← (match opts c with
           | Some o =>
             r1 ← insert_arg 1 (lit "-o");
             if r1 =? -1 then mret (-1)
             else r2 ← insert_arg 2 o; mret (if r2 =? -1 then -1 else 0)
           | None => mret 0
           end);
      if r =? -1 then mret (-1)
      else modify (fun c => set_outargs c (drop_separator (outargs c) (nonopt c)));;
           mret 0.

(** [fuse_opt_parse(args, data, opts, proc)]: the return value, the new
    [*args] and the new [*data]. *)
Definition fuse_opt_parse (args : option fuse_args) (d : fields)
  : outcome (Z * option fuse_args * fields) :=
  match args with
  | None => Ok (0, None, d)
  | Some a =>
    match argv a with
    | None => Ok (0, Some a, d)
    | Some av =>
      if argc a =? 0 then Ok (0, Some a, d)
      else
        match opt_parse (mkCtx d 0 (argc a) av (mkArgs 0 None 0) None 0 0) with
        | Ok (res, c) =>
          Ok (res, Some (if negb (res =? -1) then outargs c else a), data c)
        | Abort => Abort
        | Diverge => Diverge
        end
    end
  end.
End parser.

(** ** Specifications *)

(** [a] represents the argument list [l]: [argc] strings, then a [NULL]. *)
Definition args_rep (a : fuse_args) (l : list cstring) : Prop :=
  argc a = Z.of_nat (length l) /\
  (argv a = None /\ l = [] \/
   exists junk, argv a = Some ((Some <$> l) ++ None :: junk)).

(** An argument list the parser may extend: built by [fuse_opt_add_arg]. *)
Definition out_rep (a : fuse_args) (l : list cstring) : Prop :=
  args_rep a l /\ (argv a = None \/ truth (allocated a) = true).

(** Decoding of an option group: split at unescaped commas, remove escapes.
    [acc] is what the current option has so far. *)
Fixpoint split_opts (acc s : cstring) : list cstring :=
  match s with
  | [] => [acc]
  | c :: s1 =>
    if ceq c comma then acc :: split_opts [] s1
    else if ceq c backslash then
      match s1 with
      | [] => [acc ++ [c]]
      | a :: s2 =>
        match s2 with
        | b :: e :: s4 =>
          if octal_digit a "3" && octal_digit b "7" && octal_digit e "7"
          then split_opts (acc ++ [octal_value a b e]) s4
          else split_opts (acc ++ [a]) s2
        | _ => split_opts (acc ++ [a]) s2
        end
      end
    else split_opts (acc ++ [c]) s1
  end.

(** Adding options one by one, every allocation succeeding. *)
Definition add_opts (o : option cstring) (l : list cstring) : option cstring :=
  foldl (fun o x => snd (fuse_opt_add_opt_escaped true o x)) o l.

(** ** Argument vectors: lemmas *)

Lemma add_arg_rep a l arg :
  out_rep a l ->
  exists a', fuse_opt_add_arg true true a arg = Ok (0, a') /\ out_rep a' (l ++ [arg]).
Proof.
  intros [[Hc Hv] Hal]. unfold fuse_opt_add_arg.
  assert (bool_decide (argv a = None) || truth (allocated a) = true) as ->.
  { destruct Hal as [->| ->]; [done|by rewrite orb_true_r]. }
  cbn [negb]. eexists. split; [done|]. split; [|by right]. split; cbn [argc argv].
  { rewrite length_app /=. lia. }
  right. exists []. f_equal. rewrite Hc Nat2Z.id fmap_app /=.
  destruct Hv as [[-> ->]|(junk & ->)]; [done|]. cbn [default].
  rewrite resize_spec take_app length_app length_fmap /=.
  rewrite take_ge ?length_fmap; [lia|].
  replace (length l + 2 - length l)%nat with 2%nat by lia. cbn [take app].
  rewrite -!app_assoc.
  rewrite insert_app_r_alt ?length_fmap // Nat.sub_diag.
  rewrite insert_app_r_alt ?length_fmap; [lia|].
  replace (S (length l) - length l)%nat with 1%nat by lia.
  destruct junk as [|j junk]; cbn.
  - by replace (length l + 2 - (length l + 1))%nat with 1%nat by lia.
  - by replace (length l + 2 - (length l + S (S (length junk))))%nat with 0%nat by lia.
Qed.

Lemma add_arg_cases ok1 ok2 a l arg :
  out_rep a l ->
  (ok1 && ok2 = false /\ fuse_opt_add_arg ok1 ok2 a arg = Ok (-1, a)) \/
  (exists a', ok1 && ok2 = true /\ fuse_opt_add_arg ok1 ok2 a arg = Ok (0, a') /\
    out_rep a' (l ++ [arg])).
Proof.
  intros H. destruct (ok1 && ok2) eqn:Hok.
  - apply andb_true_iff in Hok as [-> ->]. destruct (add_arg_rep a l arg H) as (a' & ? & ?). eauto.
  - left. split; [done|]. destruct H as [_ Hal]. unfold fuse_opt_add_arg.
    assert (bool_decide (argv a = None) || truth (allocated a) = true) as ->.
    { destruct Hal as [->| ->]; [done|by rewrite orb_true_r]. }
    by destruct ok1, ok2.
Qed.

(** [memmove] and the store of [fuse_opt_insert_arg_common] rotate the last
    string into place. *)
Lemma memmove_insert {A} (l : list A) (x : A) rest pos :
  (pos <= length l)%nat ->
  <[pos := x]> (memmove_up (l ++ x :: rest) pos (length l - pos)) =
  list_insert_at pos x l ++ rest.
Proof.
  revert pos. induction l as [|y l IH]; intros [|pos] Hp; cbn [length] in *; try lia.
  - done.
  - unfold memmove_up, list_insert_at. rewrite Nat.sub_0_r. cbn [drop take app insert list_insert].
    rewrite take_0 take_app_length. cbn [app Nat.add drop]. do 3 f_equal.
    by rewrite cons_middle app_assoc drop_app_length' // length_app /= Nat.add_comm.
  - change (memmove_up ((y :: l) ++ x :: rest) (S pos) (S (length l) - S pos))
      with (y :: memmove_up (l ++ x :: rest) pos (length l - pos)).
    cbn [insert list_insert app]. unfold list_insert_at in *. cbn [take drop app].
    f_equal. apply IH. lia.
Qed.

Lemma out_rep_argv a l :
  out_rep a l -> l <> [] ->
  exists junk, argv a = Some ((Some <$> l) ++ None :: junk) /\ truth (allocated a) = true.
Proof.
  intros [[_ [[_ ->]|(junk & Hv)]] Hal] Hne; [done|]. exists junk. split; [done|].
  destruct Hal as [?|?]; [congruence|done].
Qed.

Lemma insert_arg_rep ok1 ok2 a l pos arg :
  out_rep a l -> 0 <= pos <= Z.of_nat (length l) ->
  (ok1 && ok2 = false /\ fuse_opt_insert_arg ok1 ok2 a pos arg = Ok (-1, a)) \/
  (exists a', ok1 && ok2 = true /\ fuse_opt_insert_arg ok1 ok2 a pos arg = Ok (0, a') /\
    out_rep a' (list_insert_at (Z.to_nat pos) arg l)).
Proof.
  intros Hrep Hpos. unfold fuse_opt_insert_arg, fuse_opt_insert_arg_common.
  pose proof Hrep as [[Hc _] _]. destruct (Z.leb_spec pos (argc a)); [|lia].
  destruct (add_arg_cases ok1 ok2 a l arg Hrep) as [[? ->]|(a' & ? & -> & Hrep')]; [by left|].
  right. cbn [Z.eqb]. pose proof Hrep' as [[Hc' _] _].
  rewrite length_app /= in Hc'.
  destruct (Z.eqb_spec pos (argc a' - 1)) as [Hlast|Hnl]; cbn [negb].
  { exists a'. split_and!; [done..|]. unfold list_insert_at.
    rewrite take_ge; [lia|]. rewrite drop_ge; [lia|]. done. }
  destruct (out_rep_argv a' _ Hrep') as (junk & Hv & Hal); [by destruct l|].
  eexists. split_and!; [done..|]. rewrite Hv /= fmap_app -app_assoc /=.
  assert (Z.to_nat (argc a' - 1) = length (Some <$> l)) as -> by (rewrite length_fmap; lia).
  rewrite list_lookup_middle // /=.
  replace (Z.to_nat (argc a' - pos - 1)) with (length (Some <$> l) - Z.to_nat pos)%nat
    by (rewrite length_fmap; lia).
  rewrite memmove_insert ?length_fmap; [lia|].
  split; [|by right]. split; cbn [argc argv].
  { unfold list_insert_at. rewrite length_app /= length_take length_drop. lia. }
  right. exists junk. f_equal. unfold list_insert_at.
  by rewrite !fmap_app !fmap_cons fmap_take fmap_drop -app_assoc.
Qed.

(** ** Escaping *)

Lemma octal_digit_special a hi : a = comma \/ a = backslash -> uchar hi <= 57 ->
  octal_digit a hi = false.
Proof.
  intros [->| ->] H; unfold octal_digit.
  - done.
  - change (uchar backslash) with 92. destruct (Z.leb_spec 92 (uchar hi)); [lia|done].
Qed.

Lemma split_escape acc o rest :
  split_opts acc (escape true o ++ rest) = split_opts (acc ++ o) rest.
Proof.
  revert acc. induction o as [|c o IH]; intros acc; cbn [escape app].
  { by rewrite app_nil_r. }
  rewrite andb_true_l. destruct (ceq c comma || ceq c backslash) eqn:Hc.
  - assert (c = comma \/ c = backslash) as Hcb.
    { apply orb_true_iff in Hc as [H|H]; apply ceq_true in H; auto. }
    cbn [split_opts app].
    rewrite (proj2 (ceq_false backslash comma)) // ceq_refl.
    rewrite (cons_middle c acc o) app_assoc -(IH (acc ++ [c])).
    assert (octal_digit c "3" = false) as -> by by apply octal_digit_special.
    by destruct (escape true o ++ rest) as [|? [|??]].
  - apply orb_false_iff in Hc as [Hc1 Hc2].
    cbn [split_opts app]. rewrite Hc1 Hc2 IH. by rewrite -app_assoc.
Qed.

(** The string [add_opts] builds. *)
Definition joined (x : cstring) (l : list cstring) : cstring :=
  escape true x ++ concat ((fun y => comma :: escape true y) <$> l).

Lemma split_joined acc x l : split_opts acc (joined x l) = (acc ++ x) :: l.
Proof.
  unfold joined. rewrite split_escape. revert acc x.
  induction l as [|y l IH]; intros acc x; cbn [fmap list_fmap concat]; [done|].
  cbn [app split_opts]. rewrite ceq_refl. f_equal.
  rewrite split_escape. apply (IH [] y).
Qed.

Lemma nul_free_escape esc o : nul_free o -> nul_free (escape esc o).
Proof.
  induction o as [|c o IH]; cbn; [done|]. intros [? ?]%nul_free_cons.
  destruct (esc && _); rewrite !nul_free_cons; auto.
Qed.

Lemma nul_free_joined x l : Forall nul_free (x :: l) -> nul_free (joined x l).
Proof.
  intros [Hx Hl]%List.Forall_cons_iff. apply nul_free_app. split; [by apply nul_free_escape|].
  induction Hl as [|y l Hy _ IH]; cbn; [by intros ?%elem_of_nil|].
  apply nul_free_cons. split; [done|]. apply nul_free_app. split; [by apply nul_free_escape|done].
Qed.

Lemma escape_nil esc o : escape esc o = [] -> o = [].
Proof. destruct o as [|c o]; [done|]. cbn. by destruct (esc && _). Qed.

Lemma add_opts_joined x l :
  x <> [] -> add_opts None (x :: l) = Some (joined x l).
Proof.
  intros Hx. unfold add_opts. cbn [foldl]. unfold fuse_opt_add_opt_escaped at 2, add_opt_common.
  cbn. assert (forall o, o <> [] ->
    foldl (fun o x => (fuse_opt_add_opt_escaped true o x).2) (Some o) l =
    Some (o ++ concat ((fun y => comma :: escape true y) <$> l))) as Hgen.
  { clear. induction l as [|y l IH]; intros o Ho; cbn [foldl fmap list_fmap concat].
    { by rewrite app_nil_r. }
    unfold fuse_opt_add_opt_escaped at 2, add_opt_common, truth, strlen. cbn [negb snd default].
    destruct (Z.eqb_spec (Z.of_nat (length o)) 0) as [H|H]; [by destruct o|]. cbn [negb].
    rewrite IH; [by destruct o|]. by rewrite -!app_assoc. }
  apply Hgen. intros H. by apply escape_nil in H.
Qed.

(** ** Template matching *)

Lemma match_template_format t arg sep :
  match_template t arg = Some sep -> sep <> O -> char_at t (S sep) <> NUL ->
  char_at t (S sep) = percent.
Proof.
  unfold match_template. intros H Hs Hn.
  set (o := match strchr t equals with Some i => Some i | None => strchr t space end) in H.
  destruct o as [i|].
  - destruct (ceq (char_at t (S i)) NUL || ceq (char_at t (S i)) percent) eqn:Hc.
    + destruct (_ && _) in H.
      * injection H as ->. apply orb_true_iff in Hc as [Hc|Hc]; by apply ceq_true in Hc.
      * destruct (strcmp_eq t arg); congruence.
    + destruct (strcmp_eq t arg); congruence.
  - destruct (strcmp_eq t arg); congruence.
Qed.

Lemma strchr_Some s c i : strchr s c = Some i -> (i < length s)%nat /\ nth i s NUL = c.
Proof.
  revert i. induction s as [|d s IH]; intros i; cbn; [done|].
  destruct (ceq d c) eqn:Hc.
  - intros [= <-]. apply ceq_true in Hc as ->. split; [lia|done].
  - destruct (strchr s c) as [j|]; [|done]. intros [= <-].
    destruct (IH j) as [? ?]; [done|]. split; [lia|done].
Qed.

Lemma strchr_app s c t : c ∉ s -> strchr (s ++ c :: t) c = Some (length s).
Proof.
  induction s as [|d s IH]; cbn; intros Hn; [by rewrite ceq_refl|].
  rewrite elem_of_cons in Hn. rewrite (proj2 (ceq_false d c)); [naive_solver|].
  rewrite IH; [naive_solver|]. done.
Qed.

Lemma strchr_None s c : c ∉ s -> strchr s c = None.
Proof.
  induction s as [|d s IH]; cbn; intros Hn; [done|]. rewrite elem_of_cons in Hn.
  rewrite (proj2 (ceq_false d c)); [naive_solver|]. rewrite IH; [naive_solver|]. done.
Qed.

(** The length check and [strncmp] of [match_template] are a prefix test. *)
Lemma prefix_test arg t p q n :
  t = p ++ q -> n = length p ->
  (n <=? length arg)%nat && strncmp_eq arg t n = bool_decide (p `prefix_of` arg).
Proof.
  intros -> ->. unfold strncmp_eq. rewrite take_app_length. case_bool_decide as Hp.
  - destruct (Nat.leb_spec (length p) (length arg)) as [Hl|Hl].
    + symmetry. apply bool_decide_eq_true. rewrite -(take_drop (length p) arg) Hp. by eexists.
    + symmetry. apply bool_decide_eq_false. intros [k ->]. rewrite length_app in Hl. lia.
  - rewrite andb_false_r. symmetry. apply bool_decide_eq_false. intros [k ->].
    by rewrite take_app_length in Hp.
Qed.

(** ** Safety of the parser *)

Section safety.
Context (alloc_ok : nat -> bool).
Context (sscanf : cstring -> cstring -> option Z).
Context (templates : list fuse_opt).
Context (proc : option (fields -> cstring -> Z -> fuse_args -> nat ->
                        Z * fields * fuse_args * nat)).

(** What the parser relies on of the callback: it may change the output
    arguments only the way [fuse_opt_add_arg] and [fuse_opt_insert_arg] do, and
    removes none. *)
Definition proc_ok : Prop := forall p d arg key a t r d' a' t' l,
  proc = Some p -> p d arg key a t = (r, d', a', t') -> out_rep a l ->
  exists l', out_rep a' l' /\ (length l <= length l')%nat.

Hypothesis Hproc : proc_ok.

Definition out_wf (c : context) : Prop := exists l, out_rep (outargs c) l.

(** How every step of the parser changes the context. *)
Record ext (c c' : context) : Prop := {
  ext_wf : out_wf c';
  ext_argc : argc (outargs c) <= argc (outargs c');
  ext_argctr : argctr c <= argctr c';
  ext_in : in_argc c' = in_argc c /\ in_argv c' = in_argv c;
}.

Lemma ext_refl c : out_wf c -> ext c c.
Proof. intros ?. by split. Qed.

Lemma ext_trans c1 c2 c3 : ext c1 c2 -> ext c2 c3 -> ext c1 c3.
Proof. intros [? ? ? [??]] [? ? ? [??]]. split; [done|lia|lia|split; congruence]. Qed.

(** [m] runs to a result in [R] and extends the context. *)
Definition safe {A} (R : A -> Prop) (m : M context A) : Prop :=
  forall c, out_wf c -> wp m (fun r c' => R r /\ ext c c') c.

(** The C functions that return 0 or -1. *)
Definition status (r : Z) : Prop := r = 0 \/ r = -1.

Lemma safe_bind {A B} R R' (m : M context A) (f : A -> M context B) :
  safe R m -> (forall a, R a -> safe R' (f a)) -> safe R' (m ≫= f).
Proof.
  intros Hm Hf c Hc. apply wp_bind. eapply wp_mono; [by apply Hm|].
  intros a c1 [Ha Hext]. eapply wp_mono; [apply (Hf a Ha), Hext|].
  intros b c2 [Hb Hext2]. split; [done|]. by eapply ext_trans.
Qed.

Lemma safe_ret {A} (R : A -> Prop) a : R a -> safe R (mret a).
Proof. intros ? c Hc. split; [done|by apply ext_refl]. Qed.

Lemma safe_get : safe (fun _ => True) get.
Proof. intros c Hc. split; [done|by apply ext_refl]. Qed.

Lemma safe_weaken {A} (R R' : A -> Prop) m : (forall a, R a -> R' a) -> safe R m -> safe R' m.
Proof. intros H Hm c Hc. eapply wp_mono; [by apply Hm|]. naive_solver. Qed.

Lemma safe_modify f :
  (forall c, outargs (f c) = outargs c /\ argctr c <= argctr (f c) /\
     in_argc (f c) = in_argc c /\ in_argv (f c) = in_argv c) ->
  safe (fun _ => True) (modify f).
Proof.
  intros Hf c Hc. split; [done|]. destruct (Hf c) as (Ho & ? & ? & ?).
  split; [|by rewrite Ho|done|done]. destruct Hc as [l ?]. exists l. by rewrite Ho.
Qed.

(** [return res == -1 ? -1 : 0]. *)
Lemma safe_status (m : M context Z) :
  safe status m -> safe status (r ← m; mret (if r =? -1 then -1 else 0)).
Proof.
  intros Hm. eapply safe_bind; [done|]. intros r Hr. apply safe_ret.
  destruct Hr as [->| ->]; [by left|by right].
Qed.

(** [if (res == -1) return -1; ...]. *)
Lemma safe_if_err {A} (R : A -> Prop) (r : Z) (m1 m2 : M context A) :
  (r = -1 -> safe R m1) -> (r <> -1 -> safe R m2) -> safe R (if r =? -1 then m1 else m2).
Proof. intros. destruct (Z.eqb_spec r (-1)); auto. Qed.

Lemma status_m1 : status (-1). Proof. by right. Qed.
Lemma status_0 : status 0. Proof. by left. Qed.

Lemma safe_malloc : safe (fun _ => True) (malloc alloc_ok).
Proof. intros c Hc. split; [done|]. destruct Hc as [l ?]. split; [by exists l|done..]. Qed.

Lemma safe_add_arg arg : safe status (add_arg alloc_ok arg).
Proof.
  intros c [l Hl]. unfold wp, add_arg.
  destruct (add_arg_cases (alloc_ok (tick c)) (alloc_ok (S (tick c))) _ l arg Hl)
    as [[_ ->]|(a' & _ & -> & Hrep)]; (split; [unfold status; auto|]); split; cbn; try done.
  - by exists l.
  - by exists (l ++ [arg]).
  - destruct Hl as [[-> _] _], Hrep as [[-> _] _]. rewrite length_app. lia.
Qed.

Lemma safe_add_opt opt : safe status (add_opt alloc_ok opt).
Proof.
  unfold add_opt. eapply safe_bind; [apply safe_malloc|]. intros ok _ c Hc.
  wp_run. destruct (add_opt_common ok (opts c) opt true) as [r o] eqn:Ho. cbn.
  split.
  - unfold add_opt_common in Ho. destruct ok; cbn in Ho; injection Ho as <- _; [by left|by right].
  - destruct Hc as [l ?]. split; [by exists l|done..].
Qed.

Lemma safe_next_arg opt : safe status (next_arg opt).
Proof.
  intros c Hc. unfold next_arg. wp_run. destruct (Z.leb_spec (in_argc c) (argctr c + 1)); cbn.
  - split; [by right|by apply ext_refl].
  - split; [by left|]. destruct Hc as [l ?]. split; cbn; [by exists l|done|lia|done].
Qed.

Lemma safe_call_proc arg key iso : safe status (call_proc alloc_ok proc arg key iso).
Proof.
  unfold call_proc. destruct (key =? FUSE_OPT_KEY_DISCARD); [apply safe_ret, status_0|].
  eapply (safe_bind (fun o : option Z => forall r, o = Some r -> status r)).
  - destruct proc as [p|] eqn:Hp; [|by apply safe_ret].
    destruct (negb _); [|by apply safe_ret]. intros c [l Hl]. wp_run.
    destruct (p (data c) arg key (outargs c) (tick c)) as [[[r d] a] t] eqn:Hr. cbn.
    destruct (Hproc p _ _ _ _ _ _ _ _ _ l Hp Hr Hl) as (l' & Hl' & Hlen).
    split; [|split; cbn; [by exists l'| |done|done]].
    + unfold status. intros r'. zcase; naive_solver.
    + destruct Hl as [[-> _] _], Hl' as [[-> _] _]. lia.
  - intros [r|] Hr; [by apply safe_ret, Hr|].
    destruct iso; [apply safe_add_opt|apply safe_add_arg].
Qed.

Lemma safe_process_opt_param var format param arg :
  char_at format 0 = percent ->
  safe status (process_opt_param alloc_ok sscanf var format param arg).
Proof.
  intros Hf. unfold process_opt_param. rewrite Hf. eapply (safe_bind (fun _ => True)).
  { intros c Hc. split; [done|by apply ext_refl]. }
  intros _ _. destruct (ceq (char_at format 1) _).
  - eapply safe_bind; [apply safe_malloc|]. intros [] _; cbn [negb].
    + eapply safe_bind; [by apply safe_modify|]. intros _ _. apply safe_ret, status_0.
    + apply safe_ret, status_m1.
  - destruct (sscanf param format).
    + eapply safe_bind; [by apply safe_modify|]. intros _ _. apply safe_ret, status_0.
    + apply safe_ret, status_m1.
Qed.

Lemma char_at_drop s n : char_at (drop n s) 0 = char_at s n.
Proof.
  unfold char_at. revert s. induction n as [|n IH]; intros s; [by destruct s|].
  destruct s as [|c s]; [done|]. apply IH.
Qed.

Lemma safe_process_opt opt sep x arg iso :
  match_template (templ opt) x = Some sep ->
  safe status (process_opt alloc_ok sscanf proc opt sep arg iso).
Proof.
  intros Hm. unfold process_opt. destruct (offset opt =? NO_OFFSET).
  { apply safe_status, safe_call_proc. }
  destruct (Nat.eqb_spec sep 0) as [->|Hs]; cbn [negb andb].
  { eapply safe_bind; [by apply safe_modify|]. intros _ _. apply safe_ret, status_0. }
  destruct (ceq (char_at (templ opt) (S sep)) NUL) eqn:Hc; cbn [negb].
  { eapply safe_bind; [by apply safe_modify|]. intros _ _. apply safe_ret, status_0. }
  apply safe_status, safe_process_opt_param. rewrite char_at_drop.
  eapply match_template_format; [done..|]. by apply ceq_false in Hc.
Qed.

Lemma safe_process_opt_sep_arg opt sep x arg iso :
  match_template (templ opt) x = Some sep ->
  safe status (process_opt_sep_arg alloc_ok sscanf proc opt sep arg iso).
Proof.
  intros Hm. unfold process_opt_sep_arg. eapply safe_bind; [apply safe_next_arg|].
  intros r _. apply safe_if_err; intros _; [apply safe_ret, status_m1|].
  eapply safe_bind; [apply safe_get|]. intros c _.
  eapply safe_bind; [apply safe_malloc|]. intros [] _; cbn [negb].
  - by eapply safe_process_opt.
  - apply safe_ret, status_m1.
Qed.

Lemma safe_gopt_loop ts arg iso : safe status (gopt_loop alloc_ok sscanf proc ts arg iso).
Proof.
  induction ts as [|o ts IH]; cbn [gopt_loop]; [apply safe_ret, status_0|].
  destruct (match_template (templ o) arg) as [sep|] eqn:Hm; [|done].
  eapply (safe_bind status).
  - destruct (_ && _); [by eapply safe_process_opt_sep_arg|by eapply safe_process_opt].
  - intros r _. apply safe_if_err; intros _; [apply safe_ret, status_m1|done].
Qed.

Lemma safe_process_gopt arg iso :
  safe status (process_gopt alloc_ok sscanf templates proc arg iso).
Proof.
  unfold process_gopt. destruct (find_opt templates arg); [apply safe_gopt_loop|].
  apply safe_call_proc.
Qed.

Lemma nth_suffix (pre suf : cstring) k : nth (k + length pre) (pre ++ suf) NUL = nth k suf NUL.
Proof. rewrite app_nth2; [lia|]. f_equal. lia. Qed.

Lemma octal_NUL hi : octal_digit NUL hi = false.
Proof. done. Qed.

(** What a reader of the buffer sees once [*d = 0] has been written. *)
Lemma c_str_terminated buf acc :
  take (length acc) buf = acc -> (length acc < length buf)%nat ->
  c_str (<[length acc := NUL]> buf) = c_str acc.
Proof.
  intros Ht Hl. rewrite insert_take_drop // Ht. apply c_str_app_NUL.
Qed.

(** Reading [ks] at [s] and writing one byte at [d <= s] leaves what is still to
    be read untouched. *)
Lemma write_step (buf pre ks tl acc : list ascii) x :
  ks <> [] -> buf = pre ++ ks ++ tl -> take (length acc) buf = acc ->
  (length acc <= length pre)%nat ->
  exists pre', <[length acc := x]> buf = pre' ++ tl /\
    length pre' = (length pre + length ks)%nat /\
    take (S (length acc)) (<[length acc := x]> buf) = acc ++ [x].
Proof.
  intros Hks -> Ht Hle. assert (length ks <> 0)%nat by by destruct ks.
  exists (<[length acc := x]> (pre ++ ks)). rewrite app_assoc in Ht |- *. split_and!.
  - rewrite insert_app_l // length_app. lia.
  - by rewrite length_insert length_app.
  - rewrite insert_take_drop; [rewrite !length_app; lia|]. rewrite Ht.
    by rewrite cons_middle app_assoc take_app_length' // length_app /= Nat.add_comm.
Qed.

(** [process_gopt] on each option of a decoded group, until one fails. *)
Fixpoint process_all (l : list cstring) : M context Z :=
  match l with
  | [] => mret 0
  | o :: l =>
    r ← process_gopt alloc_ok sscanf templates proc (c_str o) true;
    if r =? -1 then mret (-1) else process_all l
  end.

Lemma safe_process_all l : safe status (process_all l).
Proof.
  induction l as [|o l IH]; cbn [process_all]; [apply safe_ret, status_0|].
  eapply safe_bind; [apply safe_process_gopt|]. intros r _.
  apply safe_if_err; intros _; [apply safe_ret, status_m1|done].
Qed.

(** The in-place decoder agrees with [split_opts].  [rest] is what is still to
    be read at [s], [acc] what has been written before [d]. *)
Lemma group_loop_spec fuel buf pre rest acc :
  nul_free rest -> buf = pre ++ rest ++ [NUL] -> take (length acc) buf = acc ->
  (length acc <= length pre)%nat -> (length rest < fuel)%nat ->
  forall c, group_loop alloc_ok sscanf templates proc fuel buf (length pre) (length acc) c =
            process_all (split_opts acc rest) c.
Proof.
  revert buf pre rest acc. induction fuel as [|fuel IH]; intros buf pre rest acc Hnf Hbuf Hacc Hle Hf c; [lia|].
  pose proof (nth_suffix pre (rest ++ [NUL])) as Hn. rewrite -Hbuf in Hn.
  pose proof (Hn 0%nat) as H0. pose proof (Hn 1%nat) as H1.
  pose proof (Hn 2%nat) as H2. pose proof (Hn 3%nat) as H3. cbn [Nat.add] in *.
  cbn [group_loop]. rewrite H0.
  destruct rest as [|ch rest]; cbn [app nth].
  { rewrite ceq_refl orb_true_r. cbn [split_opts process_all].
    rewrite (c_str_terminated _ _ Hacc); [rewrite Hbuf !length_app /=; lia|].
    unfold mbind, M_bind. by destruct (process_gopt _ _ _ _ (c_str acc) true c) as [[r c']| |];
      [destruct (r =? -1)| |]. }
  apply nul_free_cons in Hnf as [Hch Hnf]. rewrite (proj2 (ceq_false ch NUL) Hch) orb_false_r.
  cbn [split_opts length app nth] in *. destruct (ceq ch comma).
  { cbn [process_all]. rewrite (c_str_terminated _ _ Hacc); [rewrite Hbuf !length_app /=; lia|].
    destruct (write_step buf pre [ch] (rest ++ [NUL]) acc NUL) as (pre' & Hb' & Hl' & _); [done..|].
    unfold mbind, M_bind. destruct (process_gopt _ _ _ _ (c_str acc) true c) as [[r c']| |]; [|done..].
    destruct (r =? -1); [done|]. cbn [length] in Hl'. rewrite -(Nat.add_1_r (length pre)) -Hl'.
    apply (IH _ pre' rest []); [done..|cbn; lia|lia]. }
  assert (forall x ks tl, ks <> [] -> ch :: rest = ks ++ tl ->
    group_loop alloc_ok sscanf templates proc fuel (<[length acc := x]> buf)
      (length ks + length pre) (S (length acc)) c = process_all (split_opts (acc ++ [x]) tl) c) as Hgo.
  { intros x ks tl Hks Heq.
    destruct (write_step buf pre ks (tl ++ [NUL]) acc x) as (pre' & Hb' & Hl' & Ht'); [done| |done..|].
    { by rewrite Hbuf app_comm_cons Heq -app_assoc. }
    rewrite Nat.add_comm -Hl' -(Nat.add_1_r (length acc)) -(length_app acc [x]).
    assert (length (ch :: rest) = length (ks ++ tl)) as Hlen by by rewrite Heq.
    rewrite length_app /= in Hlen. assert (length ks <> 0)%nat by by destruct ks.
    apply IH; [|done|by rewrite length_app Nat.add_1_r|rewrite length_app /=; lia|lia].
    assert (nul_free (ks ++ tl)) as [_ ?]%nul_free_app by (rewrite -Heq; by apply nul_free_cons).
    done. }
  destruct (ceq ch backslash); cbn [andb]; [|apply (Hgo ch [ch] rest); done].
  rewrite H1 H2 H3. destruct rest as [|a rest]; cbn [app nth] in *.
  { rewrite ceq_refl. cbn [negb]. apply (Hgo ch [ch] []); done. }
  apply nul_free_cons in Hnf as [Ha _]. rewrite (proj2 (ceq_false a NUL) Ha). cbn [negb].
  pose proof (Hgo a [ch; a] rest ltac:(done) ltac:(done)) as Hplain.
  destruct rest as [|b rest]; cbn [app nth].
  { by rewrite octal_NUL andb_false_r. }
  destruct rest as [|e rest]; cbn [app nth].
  { by rewrite octal_NUL andb_false_r. }
  destruct (octal_digit a "3" && octal_digit b "7" && octal_digit e "7"); [|done].
  apply (Hgo _ [ch; a; b; e] rest); done.
Qed.

Lemma option_group_eq o c :
  nul_free o ->
  process_real_option_group alloc_ok sscanf templates proc (o ++ [NUL]) c =
  process_all (split_opts [] o) c.
Proof.
  intros Hnf. unfold process_real_option_group. rewrite length_app Nat.add_1_r.
  apply (group_loop_spec _ _ [] o []); [done..|cbn; lia|lia].
Qed.

Lemma safe_process_option_group o :
  nul_free o -> safe status (process_option_group alloc_ok sscanf templates proc o).
Proof.
  intros Hnf. unfold process_option_group. eapply safe_bind; [apply safe_malloc|].
  intros [] _; cbn [negb]; [|apply safe_ret, status_m1].
  intros c Hc. unfold wp. rewrite option_group_eq //. by apply safe_process_all.
Qed.

Lemma nul_free_drop n s : nul_free s -> nul_free (drop n s).
Proof. intros H. rewrite -(take_drop n s) in H. by apply nul_free_app in H as [_ ?]. Qed.

(** The strings of the input vector have no NUL inside. *)
Definition strings_ok (av : list (option cstring)) : Prop :=
  forall i, nul_free (arg_at av i).

Lemma strings_ok_intro l : Forall nul_free l -> strings_ok ((Some <$> l) ++ [None]).
Proof.
  intros Hl i. unfold arg_at. destruct (_ !! _) as [[x|]|] eqn:Hx; cbn; try by intros ?%elem_of_nil.
  apply list_elem_of_lookup_2 in Hx. apply elem_of_app in Hx as [Hx|Hx].
  - apply list_elem_of_fmap in Hx as (y & [= ->] & Hy). rewrite Forall_forall in Hl. by apply Hl, list_elem_of_In.
  - by apply list_elem_of_singleton in Hx.
Qed.

Lemma process_one_wp arg c :
  out_wf c -> nul_free arg -> strings_ok (in_argv c) ->
  wp (process_one alloc_ok sscanf templates proc arg) (fun r c' => status r /\ ext c c') c.
Proof.
  intros Hc Ha Hin. unfold process_one. apply wp_bind, wp_get.
  destruct (_ || _); [by apply safe_call_proc|].
  destruct (ceq (char_at arg 1) "o").
  - destruct (negb _); [by apply safe_process_option_group; [apply nul_free_drop|]|].
    apply wp_bind. eapply wp_mono; [by apply safe_next_arg|].
    intros r c1 [_ H1]. destruct (r =? -1); [by split; [right|]|].
    apply wp_bind, wp_get. eapply wp_mono.
    + apply safe_process_option_group; [|apply H1]. destruct H1 as [_ _ _ [_ ->]]. apply Hin.
    + intros r2 c2 [? H2]. split; [done|by eapply ext_trans].
  - destruct (_ && _); [|by apply safe_process_gopt].
    eapply safe_bind; [apply safe_add_arg| |done]. intros r _.
    apply safe_if_err; intros _; [apply safe_ret, status_m1|].
    eapply safe_bind; [by apply safe_modify|]. intros _ _. apply safe_ret, status_0.
Qed.

Lemma parse_loop_wp fuel c :
  out_wf c -> strings_ok (in_argv c) -> Z.max 0 (in_argc c - argctr c) < Z.of_nat fuel ->
  wp (parse_loop alloc_ok sscanf templates proc fuel) (fun r c' => status r /\ ext c c') c.
Proof.
  revert c. induction fuel as [|fuel IH]; intros c Hc Hin Hf; cbn [parse_loop]; [lia|].
  apply wp_bind, wp_get. destruct (Z.ltb_spec (argctr c) (in_argc c)).
  2: { split; [by left|by apply ext_refl]. }
  apply wp_bind. eapply wp_mono; [by apply process_one_wp|].
  intros r c1 [_ H1]. destruct (r =? -1); [by split; [right|]|].
  apply wp_bind, wp_modify. pose proof H1 as [[l Hl] ? ? [Hi1 Hi2]].
  eapply wp_mono; [apply IH; cbn; [by exists l|by rewrite Hi2|lia]|].
  intros r2 c2 [? H2]. split; [done|]. eapply ext_trans; [exact H1|].
  destruct H2 as [? ? ? [??]]. cbn in *. split; [done..|lia|done].
Qed.

Lemma insert_arg_wp pos arg c :
  out_wf c -> 0 <= pos <= argc (outargs c) ->
  wp (insert_arg alloc_ok pos arg) (fun r c' => status r /\ ext c c' /\
    (r = 0 -> argc (outargs c') = argc (outargs c) + 1)) c.
Proof.
  intros [l Hl] Hp. pose proof Hl as [[Hc _] _]. unfold wp, insert_arg.
  destruct (insert_arg_rep (alloc_ok (tick c)) (alloc_ok (S (tick c))) _ l pos arg Hl)
    as [[_ ->]|(a' & _ & -> & Hrep)]; [lia| |].
  - split_and!; [by right| |done]. split; [by exists l|done..].
  - pose proof Hrep as [[Hc' _] _]. rewrite length_app /= length_take length_drop in Hc'.
    split_and!; [by left| |cbn; intros _; lia].
    split; [by eexists|cbn; lia|done|done].
Qed.

(** The arguments after the loop: [-o opts] goes in at position 1, and a final
    separator is dropped. *)
Lemma drop_separator_rep a l n :
  out_rep a l ->
  exists l', out_rep (drop_separator a n) l'.
Proof.
  intros Hl. unfold drop_separator. destruct (_ && _) eqn:Hd; [|by exists l].
  apply andb_true_iff in Hd as [Hd _]. apply andb_true_iff in Hd as [Ht Heq].
  unfold truth in Ht. pose proof Hl as [[Hc _] _].
  destruct (Z.eqb_spec n 0); [done|]. apply Z.eqb_eq in Heq.
  destruct l as [|x l _] using rev_ind; [cbn in Hc; lia|].
  destruct (out_rep_argv a _ Hl) as (junk & Hv & Hal); [by destruct l|].
  rewrite length_app /= in Hc. exists l. split; [|by right]. split; cbn; [lia|].
  right. exists (None :: junk). rewrite Hv /=. f_equal.
  rewrite fmap_app -app_assoc /= insert_app_r_alt length_fmap; [lia|].
  by replace (Z.to_nat (argc a - 1) - length l)%nat with 0%nat by lia.
Qed.

Lemma opt_parse_wp c :
  outargs c = mkArgs 0 None 0 -> 0 < in_argc c -> strings_ok (in_argv c) ->
  wp (opt_parse alloc_ok sscanf templates proc) (fun r c' =>
    r = -1 \/ r = 0 /\ exists l, out_rep (outargs c') l) c.
Proof.
  intros Ho Hn Hin. unfold opt_parse. apply wp_bind, wp_get.
  unfold truth. destruct (Z.eqb_spec (in_argc c) 0); [lia|]. cbn [negb].
  assert (out_rep (outargs c) []) as Hrep by (rewrite Ho; split; [split; [done|by left]|by left]).
  apply wp_bind. unfold wp at 1, add_arg.
  destruct (add_arg_cases (alloc_ok (tick c)) (alloc_ok (S (tick c))) _ _ (arg_at (in_argv c) 0) Hrep)
    as [[_ ->]|(a' & _ & -> & Hrep')]; [by left|].
  cbn [Z.eqb]. apply wp_bind, wp_modify. apply wp_bind.
  eapply wp_mono; [apply parse_loop_wp; cbn; [by eexists|done|lia]|].
  intros r c1 [Hr H1]. cbn in H1. destruct (r =? -1); [by left|]. apply wp_bind, wp_get.
  destruct H1 as [Hc1 Hlen _ _]. cbn in Hlen. destruct Hrep' as [[Ha' _] _]. cbn in Ha'.
  apply wp_bind. assert (wp (match opts c1 with
     | Some o => r1 ← insert_arg alloc_ok 1 (lit "-o");
         if r1 =? -1 then mret (-1) else r2 ← insert_arg alloc_ok 2 o; mret (if r2 =? -1 then -1 else 0)
     | None => mret 0 end) (fun r c' => status r /\ out_wf c') c1) as Hins.
  { destruct (opts c1) as [o|]; [|by split; [left|]].
    apply wp_bind. eapply wp_mono; [apply insert_arg_wp; [done|lia]|].
    intros r1 c2 ([->| ->] & [? ? _ _] & Hc2); cbn [Z.eqb]; [|by split; [right|]].
    specialize (Hc2 eq_refl). apply wp_bind. eapply wp_mono; [apply insert_arg_wp; [done|lia]|].
    intros r2 c3 (Hr2 & [? ? _ _] & _). split; [|done].
    destruct Hr2 as [->| ->]; [by left|by right]. }
  eapply wp_mono; [exact Hins|]. intros r2 c2 [Hr2 [l Hl]].
  destruct (r2 =? -1); [by left|]. apply wp_bind, wp_modify. right. split; [done|].
  by eapply drop_separator_rep.
Qed.
End safety.

(** ** Keeping arguments: no templates and no callback *)

Section keep.
Context (sscanf : cstring -> cstring -> option Z).

Abbreviation ok := (fun _ : nat => true).
Abbreviation process_gopt' := (process_gopt ok sscanf [] None).

(** The parts of the context the kept arguments live in. *)
Record keeps (l : list cstring) (o : option cstring) (c0 c : context) : Prop := {
  keep_out : out_rep (outargs c) l;
  keep_opts : opts c = o;
  keep_rest : nonopt c = nonopt c0 /\ argctr c = argctr c0 /\
              in_argc c = in_argc c0 /\ in_argv c = in_argv c0;
  keep_data : data c = data c0;
}.

Lemma keep_add_arg l o c arg :
  out_rep (outargs c) l -> opts c = o ->
  wp (add_arg ok arg) (fun r c' => r = 0 /\ keeps (l ++ [arg]) o c c') c.
Proof.
  intros Hl Ho. unfold wp, add_arg.
  destruct (add_arg_rep _ l arg Hl) as (a' & -> & ?). by split.
Qed.

Lemma keep_add_opt l o c arg :
  out_rep (outargs c) l -> opts c = o ->
  wp (add_opt ok arg) (fun r c' => r = 0 /\ keeps l (add_opts o [arg]) c c') c.
Proof. intros Hl <-. split; [done|]. by split. Qed.

Lemma keeps_trans l1 o1 l2 o2 c c1 c2 : keeps l1 o1 c c1 -> keeps l2 o2 c1 c2 -> keeps l2 o2 c c2.
Proof.
  intros [_ _ (? & ? & ? & ?) ?] [? ? (? & ? & ? & ?) ?]. split; [done..| |congruence].
  split_and!; congruence.
Qed.

Lemma keep_process_all l o c pieces :
  out_rep (outargs c) l -> opts c = o -> Forall nul_free pieces ->
  wp (process_all ok sscanf [] None pieces)
     (fun r c' => r = 0 /\ keeps l (add_opts o pieces) c c') c.
Proof.
  revert o c. induction pieces as [|p pieces IH]; intros o c Hl Ho Hnf; cbn [process_all].
  { split; [done|by split]. }
  apply List.Forall_cons_iff in Hnf as [Hp Hnf].
  apply wp_bind. rewrite c_str_id //. eapply wp_mono; [by apply (keep_add_opt l o)|].
  intros r c1 [-> H1]. cbn [Z.eqb].
  eapply wp_mono; [apply (IH (add_opts o [p])); [apply H1..|done]|].
  intros r c2 [-> H2]. split; [done|by eapply keeps_trans].
Qed.

(** An argument that is neither an option group nor the separator. *)
Definition plain (a : cstring) : Prop :=
  nul_free a /\
  (char_at a 0 <> dash \/ char_at a 1 <> "o"%char /\ (char_at a 1 <> dash \/ char_at a 2 <> NUL)).

Lemma keep_plain l o c a :
  out_rep (outargs c) l -> opts c = o -> nonopt c = 0 -> plain a ->
  wp (process_one ok sscanf [] None a) (fun r c' => r = 0 /\ keeps (l ++ [a]) o c c') c.
Proof.
  intros Hl Ho Hn [_ Ha]. unfold process_one. apply wp_bind, wp_get. rewrite Hn. cbn [truth Z.eqb negb orb].
  destruct (ceq (char_at a 0) dash) eqn:H0; cbn [negb orb].
  - apply ceq_true in H0. destruct Ha as [?|[H1 H2]]; [done|].
    rewrite (proj2 (ceq_false _ _) H1).
    assert (ceq (char_at a 1) dash && ceq (char_at a 2) NUL = false) as ->.
    { apply andb_false_iff. rewrite !ceq_false. tauto. }
    by apply keep_add_arg.
  - by apply keep_add_arg.
Qed.

Lemma keep_group l o c x xs :
  out_rep (outargs c) l -> opts c = o -> nonopt c = 0 -> x <> [] -> Forall nul_free (x :: xs) ->
  wp (process_one ok sscanf [] None (lit "-o" ++ joined x xs))
     (fun r c' => r = 0 /\ keeps l (add_opts o (x :: xs)) c c') c.
Proof.
  intros Hl Ho Hn Hx Hnf. unfold process_one. apply wp_bind, wp_get. rewrite Hn. cbn [truth Z.eqb negb orb].
  cbn [lit list_ascii_of_string app char_at nth]. rewrite !ceq_refl. cbn [negb orb].
  assert (nul_free (joined x xs)) as Hj by by apply nul_free_joined.
  assert (ceq (nth 0 (joined x xs) NUL) NUL = false) as ->.
  { apply ceq_false. destruct (joined x xs) as [|ch s] eqn:Hjx.
    - unfold joined in Hjx. apply app_eq_nil in Hjx as [?%escape_nil _]. done.
    - by apply nul_free_cons in Hj as [? _]. }
  cbn [negb drop]. unfold process_option_group. apply wp_bind. unfold wp at 1, malloc. cbn [negb].
  unfold wp. rewrite option_group_eq // split_joined /=.
  change (wp (process_all ok sscanf [] None (x :: xs)) (fun r c' => r = 0 /\ 
    keeps l (add_opts o (x :: xs)) c c') (set_tick c (S (tick c)))).
  eapply wp_mono; [by apply (keep_process_all l o)|]. intros r c' [-> [? ? ? ?]].
  split; [done|by split].
Qed.

(** A command line as its user thinks of it: arguments and groups of options. *)
Inductive item := Plain (a : cstring) | Group (x : cstring) (xs : list cstring).

Definition render (i : item) : cstring :=
  match i with Plain a => a | Group x xs => lit "-o" ++ joined x xs end.
Definition item_ok (i : item) : Prop :=
  match i with Plain a => plain a | Group x xs => x <> [] /\ Forall nul_free (x :: xs) end.
Definition plains (l : list item) : list cstring :=
  l ≫= fun i => match i with Plain a => [a] | Group _ _ => [] end.
Definition options (l : list item) : list cstring :=
  l ≫= fun i => match i with Plain _ => [] | Group x xs => x :: xs end.

Lemma options_nonempty items x xs : Forall item_ok items -> options items = x :: xs -> x <> [].
Proof.
  induction 1 as [|[a|y ys] items Hi _ IH]; cbn; [done|exact IH|].
  intros [= <- _]. apply Hi.
Qed.

Lemma arg_at_app (pre : list cstring) a suf rest :
  arg_at ((Some <$> pre ++ a :: suf) ++ rest) (Z.of_nat (length pre)) = a.
Proof.
  unfold arg_at. rewrite Nat2Z.id fmap_app -app_assoc /= list_lookup_middle // length_fmap //.
Qed.

Lemma keep_process_one l o c i :
  out_rep (outargs c) l -> opts c = o -> nonopt c = 0 -> item_ok i ->
  wp (process_one ok sscanf [] None (render i))
     (fun r c' => r = 0 /\ keeps (l ++ plains [i]) (add_opts o (options [i])) c c') c.
Proof.
  intros Hl Ho Hn Hi. destruct i as [a|x xs]; cbn [render plains options mbind list_bind].
  - by apply keep_plain.
  - rewrite !app_nil_r. destruct Hi as [??]. by apply keep_group.
Qed.

Lemma keep_loop items : forall pre l o c junk fuel,
  out_rep (outargs c) l -> opts c = o -> nonopt c = 0 -> Forall item_ok items ->
  in_argv c = (Some <$> pre ++ map render items) ++ junk ->
  argctr c = Z.of_nat (length pre) -> in_argc c = Z.of_nat (length (pre ++ map render items)) ->
  (length items < fuel)%nat ->
  wp (parse_loop ok sscanf [] None fuel) (fun r c' => r = 0 /\
    out_rep (outargs c') (l ++ plains items) /\ opts c' = add_opts o (options items) /\
    nonopt c' = 0 /\ data c' = data c) c.
Proof.
  induction items as [|i items IH]; intros pre l o c junk fuel Hl Ho Hn Hok Hav Hctr Hac Hf;
    (destruct fuel as [|fuel]; [cbn in Hf; lia|]); cbn [parse_loop]; apply wp_bind, wp_get;
    rewrite length_app /= in Hac.
  - destruct (Z.ltb_spec (argctr c) (in_argc c)); [lia|]. split_and!; [done| |done..].
    by rewrite app_nil_r.
  - apply List.Forall_cons_iff in Hok as [Hi Hok].
    destruct (Z.ltb_spec (argctr c) (in_argc c)); [|lia].
    rewrite Hctr Hav. cbn [map]. rewrite arg_at_app.
    apply wp_bind. eapply wp_mono; [by apply (keep_process_one l o)|].
    intros r c1 [-> [Hl1 Ho1 (Hn1 & Hc1 & Hac1 & Hav1) Hd1]]. cbn [Z.eqb]. apply wp_bind, wp_modify.
    eapply wp_mono; [apply (IH (pre ++ [render i]) (l ++ plains [i]) (add_opts o (options [i])) _ junk)|];
      cbn; try done; try congruence.
    + rewrite Hav1 Hav -app_assoc. done.
    + rewrite Hc1 Hctr length_app /=. lia.
    + rewrite Hac1 Hac !length_app /=. lia.
    + cbn in Hf. lia.
    + intros r c2 (-> & Hl2 & Ho2 & Hn2 & Hd2). split_and!; [done| | |done|].
      * revert Hl2. unfold plains. cbn. by rewrite app_nil_r -app_assoc.
      * rewrite Ho2. unfold options, add_opts. cbn. by rewrite app_nil_r foldl_app.
      * rewrite Hd2. done.
Qed.

Lemma opt_parse_keep prog items c junk :
  outargs c = mkArgs 0 None 0 -> opts c = None -> nonopt c = 0 -> Forall item_ok items ->
  in_argv c = (Some <$> prog :: map render items) ++ junk ->
  in_argc c = Z.of_nat (length (prog :: map render items)) ->
  wp (opt_parse ok sscanf [] None) (fun r c' => r = 0 /\ data c' = data c /\
    out_rep (outargs c') (prog :: (match add_opts None (options items) with
                                   | Some o => [lit "-o"; o] | None => [] end) ++ plains items)) c.
Proof.
  intros Hout Hopts Hn Hok Hav Hac. unfold opt_parse. apply wp_bind, wp_get.
  unfold truth. destruct (Z.eqb_spec (in_argc c) 0); [cbn in Hac; lia|]. cbn [negb].
  assert (out_rep (outargs c) []) as Hrep by (rewrite Hout; split; [split; [done|by left]|by left]).
  assert (arg_at (in_argv c) 0 = prog) as -> by by rewrite Hav.
  apply wp_bind. eapply wp_mono; [by apply (keep_add_arg [] None)|].
  intros r c1 [-> [Hl1 Ho1 (Hn1 & Hc1 & Hac1 & Hav1) Hd1]]. cbn [Z.eqb]. apply wp_bind, wp_modify.
  apply wp_bind. eapply wp_mono.
  { apply (keep_loop items [prog] [prog] None _ junk); cbn; try done; try congruence.
    - by rewrite Hav1 Hav.
    - by rewrite Hac1 Hac.
    - rewrite Hac /= length_map. lia. }
  intros r c2 (-> & Hl2 & Ho2 & Hn2 & Hd2). cbn [Z.eqb]. apply wp_bind, wp_get. rewrite Ho2.
  apply wp_bind.
  set (oo := add_opts None (options items)).
  apply wp_mono with (P := fun r c' => r = 0 /\ nonopt c' = 0 /\ data c' = data c2 /\ out_rep (outargs c')
    (prog :: match oo with Some o => [lit "-o"; o] | None => [] end ++ plains items)).
  - destruct oo as [o|]; [|by split_and!].
    apply wp_bind. unfold wp at 1, insert_arg.
    destruct (insert_arg_rep true true _ _ 1 (lit "-o") Hl2) as [[? _]|(a' & _ & -> & Ha')];
      [rewrite length_app /=; lia|done|].
    change (Z.to_nat 1) with 1%nat in Ha'. cbn [Z.eqb]. apply wp_bind. unfold wp at 1, insert_arg.
    cbn [outargs set_tick set_outargs]. destruct (insert_arg_rep true true _ _ 2 o Ha') as [[? _]|(a2 & _ & -> & Ha2)];
      [cbn; rewrite take_0 drop_0; cbn; lia|done|].
    by split_and!.
  - intros r c3 (-> & Hn3 & Hd3 & Hl3). cbn [Z.eqb]. apply wp_bind, wp_modify.
    split_and!; [done|cbn in *; congruence|]. cbn. unfold drop_separator. by rewrite Hn3.
Qed.
End keep.

(** ** Theorems *)

(** [fuse_opt_insert_arg] inserts exactly one string at [pos] and keeps the
    vector NULL-terminated, never fails its assertion for [pos <= argc], and
    leaves the vector untouched when an allocation fails. *)
Theorem fuse_opt_insert_arg_spec ok1 ok2 a l pos arg :
  out_rep a l -> 0 <= pos <= Z.of_nat (length l) ->
  exists r a', fuse_opt_insert_arg ok1 ok2 a pos arg = Ok (r, a') /\
    (r = 0 /\ ok1 && ok2 = true /\ out_rep a' (list_insert_at (Z.to_nat pos) arg l) \/
     r = -1 /\ ok1 && ok2 = false /\ a' = a).
Proof.
  intros H Hp. destruct (insert_arg_rep ok1 ok2 a l pos arg H Hp) as [[? ->]|(a' & ? & -> & ?)].
  - exists (-1), a. eauto.
  - exists 0, a'. eauto.
Qed.

Definition sample_args : fuse_args :=
  mkArgs 2 (Some [Some (lit "prog"); Some (lit "/mnt"); None]) 1.

Lemma fuse_opt_insert_arg_spec_witness :
  exists r a', fuse_opt_insert_arg true true sample_args 1 (lit "-f") = Ok (r, a') /\
    (r = 0 /\ true && true = true /\
       out_rep a' (list_insert_at (Z.to_nat 1) (lit "-f") [lit "prog"; lit "/mnt"]) \/
     r = -1 /\ true && true = false /\ a' = sample_args).
Proof.
  apply (fuse_opt_insert_arg_spec true true sample_args [lit "prog"; lit "/mnt"] 1 (lit "-f")).
  - split; [split; [reflexivity|right; exists []; reflexivity]|right; reflexivity].
  - cbn. lia.
Defined.

(** C27: escaping and splitting are inverse.  Adding non-empty options one by one
    with [fuse_opt_add_opt_escaped] builds a string that the in-place decoder of
    [process_real_option_group] takes apart into the same options in the same
    order, commas, backslashes and digits in them included: it runs
    [process_gopt] on exactly these. *)
Theorem escaped_group_roundtrip alloc_ok sscanf templates proc x xs c :
  x <> [] -> Forall nul_free (x :: xs) ->
  exists o, add_opts None (x :: xs) = Some o /\
    process_real_option_group alloc_ok sscanf templates proc (o ++ [NUL]) c =
    process_all alloc_ok sscanf templates proc (x :: xs) c.
Proof.
  intros Hx Hnf. exists (joined x xs). split; [by apply add_opts_joined|].
  rewrite option_group_eq; [by apply nul_free_joined|]. by rewrite split_joined.
Qed.

Definition empty_context : context := mkCtx ∅ 0 0 [] (mkArgs 0 None 0) None 0 0.

Lemma escaped_group_roundtrip_witness :
  exists o, add_opts None [lit "fsname=a,b"; lit "x\101"] = Some o /\
    process_real_option_group (fun _ => true) (fun _ _ => None) [] None (o ++ [NUL]) empty_context =
    process_all (fun _ => true) (fun _ _ => None) [] None [lit "fsname=a,b"; lit "x\101"] empty_context.
Proof.
  apply (escaped_group_roundtrip (fun _ => true) (fun _ _ => None) [] None (lit "fsname=a,b")
           [lit "x\101"] empty_context).
  - discriminate.
  - repeat (apply List.Forall_cons; [unfold nul_free; apply (bool_decide_unpack _); vm_compute; exact I|]).
    constructor.
Defined.

(** C26: [fuse_opt_parse] always returns.  Whatever allocations fail, on every
    argument vector and template list and with every callback that only extends
    the output vector, no assertion fails and no loop runs forever; the result
    is 0 with a fresh well-formed vector, or -1 with the caller's vector
    unchanged. *)
Theorem fuse_opt_parse_total alloc_ok sscanf templates proc a l d :
  proc_ok proc -> l <> [] -> Forall nul_free l ->
  argc a = Z.of_nat (length l) -> argv a = Some ((Some <$> l) ++ [None]) ->
  exists r a' d', fuse_opt_parse alloc_ok sscanf templates proc (Some a) d = Ok (r, Some a', d') /\
    (r = -1 /\ a' = a \/ r = 0 /\ exists l', out_rep a' l').
Proof.
  intros Hp Hl Hnf Hc Hv. unfold fuse_opt_parse. rewrite Hv.
  destruct (Z.eqb_spec (argc a) 0); [destruct l; [done|cbn in Hc; lia]|].
  set (c0 := mkCtx _ _ _ _ _ _ _ _).
  destruct (wp_Ok (opt_parse alloc_ok sscanf templates proc) (fun r c' =>
    r = -1 \/ r = 0 /\ exists l, out_rep (outargs c') l) c0) as (r & c' & -> & Hr).
  { apply opt_parse_wp; cbn; [done|done|lia|]. apply strings_ok_intro, Hnf. }
  eexists _, _, _. split; [done|]. destruct Hr as [->|[-> Hr]]; [by left|by right].
Qed.

Lemma proc_ok_None : proc_ok None.
Proof. done. Qed.

(** A callback that keeps every argument also adds [-s] once it sees [-x]. *)
Definition sample_proc (d : fields) (arg : cstring) (key : Z) (a : fuse_args) (t : nat)
  : Z * fields * fuse_args * nat :=
  if strcmp_eq arg (lit "-x") then
    match fuse_opt_add_arg true true a (lit "-s") with
    | Ok (_, a') => (0, d, a', t)
    | _ => (-1, d, a, t)
    end
  else (1, d, a, t).

Lemma sample_proc_ok : proc_ok (Some sample_proc).
Proof.
  intros p d arg key a t r d' a' t' l [= <-] Hp Hl. unfold sample_proc in Hp.
  destruct (strcmp_eq arg (lit "-x")).
  - destruct (add_arg_rep a l (lit "-s") Hl) as (a1 & H1 & H2). rewrite H1 in Hp.
    injection Hp as <- <- <- <-. exists (l ++ [lit "-s"]). rewrite length_app. split; [done|lia].
  - injection Hp as <- <- <- <-. by exists l.
Qed.

Lemma nul_free_dec s : bool_decide (NUL ∉ s) = true -> nul_free s.
Proof. apply bool_decide_eq_true. Qed.

Lemma fuse_opt_parse_total_witness :
  exists r a' d', fuse_opt_parse (fun n => (n <? 20)%nat) (fun _ _ => None)
      [mkOpt (lit "-x") NO_OFFSET 7; mkOpt (lit "--name=%s") 8 0] (Some sample_proc)
      (Some (mkArgs 3 (Some [Some (lit "prog"); Some (lit "-x"); Some (lit "--name=q"); None]) 0)) ∅
      = Ok (r, Some a', d') /\
    (r = -1 /\ a' = mkArgs 3 (Some [Some (lit "prog"); Some (lit "-x"); Some (lit "--name=q"); None]) 0
     \/ r = 0 /\ exists l', out_rep a' l').
Proof.
  apply (fuse_opt_parse_total _ _ _ _ _ [lit "prog"; lit "-x"; lit "--name=q"] ∅).
  - apply sample_proc_ok.
  - discriminate.
  - repeat (apply List.Forall_cons; [apply nul_free_dec; reflexivity|]). constructor.
  - reflexivity.
  - reflexivity.
Defined.

(** The run behind the witness: the callback replaces [-x], the template stores
    the name in [data]. *)
Example fuse_opt_parse_sample :
  fuse_opt_parse (fun n => (n <? 20)%nat) (fun _ _ => None)
      [mkOpt (lit "-x") NO_OFFSET 7; mkOpt (lit "--name=%s") 8 0] (Some sample_proc)
      (Some (mkArgs 3 (Some [Some (lit "prog"); Some (lit "-x"); Some (lit "--name=q"); None]) 0)) ∅
  = Ok (0, Some (mkArgs 2 (Some [Some (lit "prog"); Some (lit "-s"); None]) 1), {[8 := FStr (lit "q")]}).
Proof. vm_compute. reflexivity. Qed.

(** canonicalisation.  With no templates and no callback, a command line that
    mixes plain arguments and [-o] groups becomes: the program name, one [-o]
    with all options of all groups in order, re-escaped, and the plain
    arguments in order. *)
Theorem fuse_opt_parse_canonical sscanf prog items d :
  Forall item_ok items ->
  exists a', fuse_opt_parse (fun _ => true) sscanf [] None
      (Some (mkArgs (Z.of_nat (S (length items)))
                    (Some ((Some <$> prog :: map render items) ++ [None])) 0)) d = Ok (0, Some a', d) /\
    out_rep a' (prog :: match options items with
                        | [] => []
                        | x :: xs => [lit "-o"; joined x xs]
                        end ++ plains items).
Proof.
  intros Hok. unfold fuse_opt_parse. cbn [argv argc].
  destruct (Z.eqb_spec (Z.of_nat (S (length items))) 0); [lia|].
  set (c0 := mkCtx _ _ _ _ _ _ _ _).
  destruct (wp_Ok _ _ _ (opt_parse_keep sscanf prog items c0 [None] eq_refl eq_refl eq_refl Hok eq_refl
       ltac:(cbn; by rewrite length_map))) as (r & c' & -> & -> & Hd & Hrep).
  cbn [Z.eqb negb]. exists (outargs c'). rewrite Hd. split; [done|].
  destruct (options items) as [|x xs] eqn:Hx; [done|].
  rewrite add_opts_joined in Hrep; [|done]. by eapply options_nonempty.
Qed.

Lemma fuse_opt_parse_canonical_witness :
  exists a', fuse_opt_parse (fun _ => true) (fun _ _ => None) [] None
      (Some (mkArgs 5 (Some [Some (lit "prog"); Some (lit "-oro,nosuid"); Some (lit "/mnt");
                            Some (lit "-odev"); Some (lit "-d"); None]) 0)) ∅ = Ok (0, Some a', ∅) /\
    out_rep a' [lit "prog"; lit "-o"; lit "ro,nosuid,dev"; lit "/mnt"; lit "-d"].
Proof.
  apply (fuse_opt_parse_canonical (fun _ _ => None) (lit "prog")
    [Group (lit "ro") [lit "nosuid"]; Plain (lit "/mnt"); Group (lit "dev") []; Plain (lit "-d")] ∅).
  repeat (apply List.Forall_cons; [split|]); try discriminate; try apply List.Forall_nil;
      try (apply nul_free_dec; reflexivity);
      try (repeat (apply List.Forall_cons; [apply nul_free_dec; reflexivity|]); apply List.Forall_nil).
  - left. discriminate.
  - right. split; [discriminate|left; discriminate].
Defined.

(** what a template with a parameter matches.  [name=format] and
    [name format] match exactly the arguments that start with the name (and the
    equals sign), and the separator found is where the name ends; any other
    argument has to be the template itself. *)
Theorem match_template_param name fmt arg (eq : bool) :
  equals ∉ name -> space ∉ name -> equals ∉ fmt ->
  head fmt = None \/ head fmt = Some percent ->
  let t := name ++ (if eq then equals else space) :: fmt in
  match_template t arg =
  if bool_decide ((if eq then name ++ [equals] else name) `prefix_of` arg)
  then Some (length name)
  else if bool_decide (t = arg) then Some 0%nat else None.
Proof.
  intros He Hs Hf Hfmt t. unfold match_template.
  assert (match strchr t equals with Some i => Some i | None => strchr t space end =
    Some (length name)) as ->.
  { unfold t. destruct eq; [by rewrite strchr_app|].
    rewrite strchr_None; [|by rewrite strchr_app].
    rewrite elem_of_app elem_of_cons. by intros [?|[?|?]]. }
  assert (char_at t (length name) = if eq then equals else space) as ->.
  { apply nth_middle. }
  assert (ceq (char_at t (S (length name))) NUL || ceq (char_at t (S (length name))) percent = true) as ->.
  { unfold t, char_at. rewrite app_nth2; [lia|].
    replace (S (length name) - length name)%nat with 1%nat by lia. cbn [nth].
    destruct fmt as [|f fmt]; [done|]. destruct Hfmt as [?|[= ->]]; [done|].
    by rewrite ceq_refl orb_true_r. }
  destruct eq; cbn [ceq].
  - rewrite (proj2 (ceq_true _ _)) //.
    rewrite (prefix_test arg t (name ++ [equals]) fmt);
      [unfold t; by rewrite -app_assoc|by rewrite length_app /= Nat.add_1_r|].
    by destruct (bool_decide _).
  - rewrite (proj2 (ceq_false _ _)) //.
    rewrite (prefix_test arg t name (space :: fmt)) //. by destruct (bool_decide _).
Qed.

Lemma match_template_param_witness :
  match_template (lit "fsname=%s") (lit "fsname=sshfs") = Some 6%nat.
Proof.
  apply (match_template_param (lit "fsname") (lit "%s") (lit "fsname=sshfs") true).
  - apply (bool_decide_eq_true _). reflexivity.
  - apply (bool_decide_eq_true _). reflexivity.
  - apply (bool_decide_eq_true _). reflexivity.
  - right. reflexivity.
Defined.
