(* ===== verification/NodeTable.v ===== *)
(** * The node hash tables ([lib/fuse.c], [struct node_table])

    [id_table] and [name_table] are linear-hashing tables: buckets are split one
    at a time as the table fills ([rehash_id], [rehash_name]) and merged back
    when it empties ([remerge_id], [remerge_name]), with the array grown and
    shrunk by [realloc], which may fail.  The two families of functions are the
    same code up to the chain field and the hash, so the model is parametrised
    by [raw], the hash of an entry before it is reduced modulo the table size.
    A chain of [id_next] or [name_next] pointers is a list of node ids. *)
From S2P Require Import Prelude.

Definition NODE_TABLE_MIN_SIZE : Z := 8192.

(** [struct node_table] *)
Record node_table := mkTable {
  array : list (list Z);
  use : Z;
  size : Z;
  split : Z;
}.

Definition set_array (t : node_table) a := mkTable a (use t) (size t) (split t).
Definition set_use (t : node_table) u := mkTable (array t) u (size t) (split t).
Definition set_split (t : node_table) s := mkTable (array t) (use t) (size t) s.

(** The common tail of [id_hash] and [name_hash]. *)
Definition table_hash (t : node_table) (h : Z) : Z :=
  let hash := h mod size t in
  let oldhash := hash mod (size t / 2) in
  if split t <=? oldhash then oldhash else hash.

(** [(uint32_t) ino * 2654435761U] *)
Definition id_raw (ino : Z) : Z := u32 (u32 ino * 2654435761).

(** The loop of [name_hash] over the bytes of the name. *)
Definition name_raw (parent : Z) (name : cstring) : Z :=
  foldl (fun hash c => u64 (hash * 31 + uchar c)) (u64 parent) name.

Definition bucket (t : node_table) (i : Z) : list Z := default [] (array t !! Z.to_nat i).
Definition set_bucket (t : node_table) (i : Z) (l : list Z) : node_table :=
  set_array t (<[Z.to_nat i := l]> (array t)).

(** [node_table_reduce]; a failed [realloc] keeps the larger array. *)
Definition node_table_reduce (realloc_ok : bool) (t : node_table) : node_table :=
  let newsize := size t / 2 in
  if newsize <? NODE_TABLE_MIN_SIZE then t
  else mkTable (if realloc_ok then take (Z.to_nat newsize) (array t) else array t)
               (use t) newsize (newsize / 2).

(** The [for (iter = 8; ...)] loop of [remerge_id] and [remerge_name]: the chain
    of the upper bucket is hooked to the end of the lower one. *)
Fixpoint remerge_loop (iter : nat) (t : node_table) : node_table :=
  match iter with
  | O => t
  | S iter =>
    if 0 <? split t then
      let t := set_split t (split t - 1) in
      match bucket t (split t + size t / 2) with
      | [] => remerge_loop iter t
      | upper =>
        set_bucket (set_bucket t (split t) (bucket t (split t) ++ upper))
                   (split t + size t / 2) []
      end
    else t
  end.

Definition remerge (realloc_ok : bool) (t : node_table) : node_table :=
  let t := if split t =? 0 then node_table_reduce realloc_ok t else t in
  remerge_loop 8 t.

(** The chain walk of [unhash_id] and [unhash_name]: unlink the first [n]. *)
Fixpoint unlink (n : Z) (chain : list Z) : option (list Z) :=
  match chain with
  | [] => None
  | m :: rest => if m =? n then Some rest else cons m <$> unlink n rest
  end.

(** Unlinking from the bucket: [None] when the chain does not hold the node. *)
Definition table_unlink (t : node_table) (h n : Z) : option node_table :=
  let i := table_hash t h in
  set_bucket t i <$> unlink n (bucket t i).

(** What follows a successful unlink: [use--], and a merge step when the table
    is less than a quarter full. *)
Definition table_dec (realloc_ok : bool) (t : node_table) : node_table :=
  let t := set_use t (u64 (use t - 1)) in
  if use t <? size t / 4 then remerge realloc_ok t else t.

(** [node_table_resize]: the upper half is cleared with [memset]. *)
Definition node_table_resize (realloc_ok : bool) (t : node_table) : Z * node_table :=
  if realloc_ok then
    let newsize := size t * 2 in
    (0, mkTable (take (Z.to_nat (size t)) (array t) ++ replicate (Z.to_nat (size t)) [])
                (use t) newsize 0)
  else (-1, t).

Section table.
(** The unreduced hash of an entry. *)
Context (raw : Z -> Z).

(** The loop of [rehash_id] and [rehash_name] over the chain of bucket [hash]:
    the entries that now hash elsewhere are pushed on their new bucket. *)
Fixpoint rehash_chain (t : node_table) (hash : Z) (chain kept : list Z) : node_table :=
  match chain with
  | [] => set_bucket t hash kept
  | n :: rest =>
    let newhash := table_hash t (raw n) in
    if negb (newhash =? hash) then
      rehash_chain (set_bucket t newhash (n :: bucket t newhash)) hash rest kept
    else rehash_chain t hash rest (kept ++ [n])
  end.

Definition rehash (realloc_ok : bool) (t : node_table) : node_table :=
  if split t =? size t / 2 then t
  else
    let hash := split t in
    let t := set_split t (split t + 1) in
    let t := rehash_chain t hash (bucket t hash) [] in
    if split t =? size t / 2 then snd (node_table_resize realloc_ok t) else t.

(** Insertion: [hash_id], and the end of [hash_name]. *)
Definition table_insert (realloc_ok : bool) (t : node_table) (n : Z) : node_table :=
  let i := table_hash t (raw n) in
  let t := set_use (set_bucket t i (n :: bucket t i)) (u64 (use t + 1)) in
  if size t / 2 <=? use t then rehash realloc_ok t else t.

(** The chain walks of [get_node_nocheck] and [lookup_node]. *)
Definition table_find (t : node_table) (h : Z) (p : Z -> bool) : option Z :=
  List.find p (bucket t (table_hash t h)).

(** ** The invariant *)

(** Everything stored. *)
Definition entries (t : node_table) : list Z := concat (array t).

Record table_wf (t : node_table) : Prop := {
  wf_size : exists k, 0 <= k /\ size t = NODE_TABLE_MIN_SIZE * 2 ^ k;
  wf_split : 0 <= split t <= size t / 2;
  wf_array : size t <= Z.of_nat (length (array t));
  wf_bucket : forall i n, n ∈ bucket t i -> 0 <= i -> i = table_hash t (raw n);
}.

(** ** Arithmetic of the hash *)

Implicit Types (t : node_table).

Lemma half_facts t :
  table_wf t ->
  exists half, size t = 2 * half /\ size t / 2 = half /\ 0 < half /\
    (NODE_TABLE_MIN_SIZE <= half -> exists k, 0 <= k /\ half = NODE_TABLE_MIN_SIZE * 2 ^ k).
Proof.
  intros [(k & Hk & Hs) _ _ _]. exists (4096 * 2 ^ k).
  assert (0 < 2 ^ k) by (apply Z.pow_pos_nonneg; lia).
  unfold NODE_TABLE_MIN_SIZE in *. split_and!; [lia| |lia|].
  { rewrite Hs. replace (8192 * 2 ^ k) with (4096 * 2 ^ k * 2) by lia. apply Z.div_mul. lia. }
  intros Hge. destruct (Z.eq_dec k 0) as [->|]; [cbn in Hge; lia|]. exists (k - 1).
  split; [lia|]. assert (2 ^ k = 2 * 2 ^ (k - 1)); [|lia].
  rewrite -(Z.pow_succ_r 2 (k - 1) ltac:(lia)). f_equal. lia.
Qed.

(** The reduced hash as a function of the unreduced one. *)
Definition hash_of (half split h : Z) : Z :=
  if split <=? h mod half then h mod half else h mod (2 * half).

Lemma mod_mod_half h half : 0 < half -> (h mod (2 * half)) mod half = h mod half.
Proof.
  intros Hh. rewrite {2}(Z.div_mod h (2 * half)); [lia|].
  replace (2 * half * (h / (2 * half)) + h mod (2 * half))
    with (h mod (2 * half) + (2 * (h / (2 * half))) * half) by ring.
  rewrite Z.mod_add //. lia.
Qed.

Lemma mod_double h half : 0 < half ->
  h mod (2 * half) = h mod half \/ h mod (2 * half) = h mod half + half.
Proof.
  intros Hh. pose proof (Z.mod_pos_bound h (2 * half) ltac:(lia)).
  rewrite -(mod_mod_half h half Hh). set (x := h mod (2 * half)) in *.
  destruct (Z.lt_ge_cases x half).
  - left. symmetry. apply Z.mod_small. lia.
  - right. assert (x / half = 1) as Hq by (symmetry; apply Z.div_unique with (x - half); lia).
    pose proof (Z.div_mod x half ltac:(lia)). lia.
Qed.

Lemma table_hash_half t half h :
  size t = 2 * half -> 0 < half -> table_hash t h = hash_of half (split t) h.
Proof.
  intros Hs Hp. unfold table_hash, hash_of.
  assert (size t / 2 = half) as -> by (rewrite Hs Z.mul_comm Z.div_mul; lia).
  by rewrite Hs mod_mod_half.
Qed.

Lemma table_hash_eq t h : table_wf t -> table_hash t h = hash_of (size t / 2) (split t) h.
Proof.
  intros Hwf. destruct (half_facts t Hwf) as (half & Hs & -> & Hp & _). by apply table_hash_half.
Qed.

Lemma hash_of_range half sp h : 0 < half -> 0 <= hash_of half sp h < half + Z.max 0 sp.
Proof.
  intros Hp. unfold hash_of. pose proof (Z.mod_pos_bound h half Hp).
  destruct (mod_double h half Hp); destruct (Z.leb_spec sp (h mod half)); lia.
Qed.

(** One step of splitting moves only the entries of bucket [sp], to [sp + half]. *)
Lemma hash_of_split half sp h :
  0 < half -> 0 <= sp ->
  hash_of half sp h <> sp -> hash_of half (sp + 1) h = hash_of half sp h.
Proof.
  intros Hp Hs. unfold hash_of. pose proof (Z.mod_pos_bound h half Hp).
  destruct (Z.leb_spec sp (h mod half)), (Z.leb_spec (sp + 1) (h mod half)); lia.
Qed.

Lemma hash_of_split_eq half sp h :
  0 < half -> 0 <= sp < half -> hash_of half sp h = sp ->
  hash_of half (sp + 1) h = sp \/ hash_of half (sp + 1) h = sp + half.
Proof.
  intros Hp Hs. unfold hash_of. pose proof (Z.mod_pos_bound h half Hp).
  destruct (mod_double h half Hp);
    destruct (Z.leb_spec sp (h mod half)), (Z.leb_spec (sp + 1) (h mod half)); lia.
Qed.

(** And one step of merging brings them back. *)
Lemma hash_of_merge half sp h :
  0 < half -> 0 <= sp < half ->
  hash_of half sp h =
  if hash_of half (sp + 1) h =? sp + half then sp else hash_of half (sp + 1) h.
Proof.
  intros Hp Hs. unfold hash_of. pose proof (Z.mod_pos_bound h half Hp).
  destruct (mod_double h half Hp);
    destruct (Z.leb_spec sp (h mod half)), (Z.leb_spec (sp + 1) (h mod half)); zcase.
Qed.

(** A full round of splitting is a table of twice the size with none done. *)
Lemma hash_of_double half h : 0 < half -> hash_of (2 * half) 0 h = hash_of half half h.
Proof.
  intros Hp. unfold hash_of. pose proof (Z.mod_pos_bound h half Hp).
  pose proof (Z.mod_pos_bound h (2 * half)).
  destruct (Z.leb_spec 0 (h mod (2 * half))), (Z.leb_spec half (h mod half)); lia.
Qed.

(** ** Buckets *)

Lemma bucket_set_bucket t i l j :
  0 <= i < Z.of_nat (length (array t)) -> 0 <= j ->
  bucket (set_bucket t i l) j = if j =? i then l else bucket t j.
Proof.
  intros Hi Hj. unfold bucket, set_bucket; cbn. destruct (Z.eqb_spec j i) as [->|Hne].
  - rewrite list_lookup_insert_eq //. lia.
  - rewrite list_lookup_insert_ne //. lia.
Qed.

Lemma concat_insert {A} (a : list (list A)) i l :
  (i < length a)%nat ->
  concat (<[i := l]> a) ++ default [] (a !! i) ≡ₚ l ++ concat a.
Proof.
  intros Hi. destruct (lookup_lt_is_Some_2 a i Hi) as [old Ho]. rewrite Ho /=.
  rewrite insert_take_drop // -{3}(take_drop_middle a i old Ho) !concat_app !concat_cons.
  solve_Permutation.
Qed.

Lemma entries_set_bucket t i l :
  0 <= i < Z.of_nat (length (array t)) ->
  entries (set_bucket t i l) ++ bucket t i ≡ₚ l ++ entries t.
Proof. intros Hi. apply concat_insert. lia. Qed.

Lemma elem_of_entries t n :
  n ∈ entries t <-> exists i, 0 <= i /\ n ∈ bucket t i.
Proof.
  unfold entries, bucket. rewrite list_elem_of_In in_concat. split.
  - intros (l & Hl & Hn). apply list_elem_of_In, list_elem_of_lookup in Hl as [i Hi].
    exists (Z.of_nat i). split; [lia|]. rewrite Nat2Z.id Hi. by apply list_elem_of_In.
  - intros (i & _ & Hn). destruct (array t !! Z.to_nat i) as [l|] eqn:Hl; [|by apply elem_of_nil in Hn].
    exists l. split; [|by apply list_elem_of_In]. apply list_elem_of_In. by eapply list_elem_of_lookup_2.
Qed.

(** What the structural operations may change: the tables agree on where
    everything hashes, and hold the same entries. *)
Record same_table t t' : Prop := {
  same_wf : table_wf t';
  same_entries : entries t' ≡ₚ entries t;
  same_use : use t' = use t;
}.

Lemma same_table_trans t1 t2 t3 : same_table t1 t2 -> same_table t2 t3 -> same_table t1 t3.
Proof. intros [? H1 ?] [? H2 ?]. split; [done|by rewrite H2|congruence]. Qed.

Lemma wf_positive t : table_wf t -> 0 < size t / 2 /\ size t = 2 * (size t / 2).
Proof. intros (half & ? & -> & ? & _)%half_facts. lia. Qed.

Lemma table_hash_range t h :
  table_wf t -> 0 <= table_hash t h < size t / 2 + split t.
Proof.
  intros Hwf. rewrite table_hash_eq //. destruct (wf_positive t Hwf) as [? _].
  pose proof (hash_of_range (size t / 2) (split t) h). destruct Hwf as [_ ? _ _]. lia.
Qed.

Lemma bucket_out t i : table_wf t -> size t / 2 + split t <= i -> bucket t i = [].
Proof.
  intros Hwf Hi. destruct (bucket t i) as [|n l] eqn:Hb; [done|].
  destruct (wf_positive t Hwf) as [? _]. pose proof Hwf as [_ ? _ Hbk].
  assert (i = table_hash t (raw n)) by (apply Hbk; [rewrite Hb; apply elem_of_cons; auto|lia]).
  pose proof (table_hash_range t (raw n) Hwf). lia.
Qed.

(** Building [table_wf] for a table that has the same entries. *)
Lemma same_table_intro t t' :
  table_wf t -> size t' = size t -> 0 <= split t' <= size t / 2 -> use t' = use t ->
  length (array t') = length (array t) -> entries t' ≡ₚ entries t ->
  (forall i n, n ∈ bucket t' i -> 0 <= i -> i = hash_of (size t / 2) (split t') (raw n)) ->
  same_table t t'.
Proof.
  intros Hwf Hsz Hsp Hus Hla He Hbk. split; [|done|done].
  pose proof Hwf as [Hk Hs Ha Hb]. split; [by rewrite Hsz|by rewrite Hsz|by rewrite Hsz Hla|].
  intros i n Hn Hi. rewrite (Hbk i n Hn Hi). destruct (half_facts t Hwf) as (half & Hs2 & Hh & Hp & _).
  rewrite (table_hash_half t' half); [by rewrite Hsz|done|by rewrite Hh].
Qed.

Lemma remerge_loop_same iter t : table_wf t -> same_table t (remerge_loop iter t).
Proof.
  revert t. induction iter as [|iter IH]; intros t Hwf; cbn [remerge_loop].
  { by split. }
  destruct (Z.ltb_spec 0 (split t)) as [Hsp|]; [|by split].
  destruct (wf_positive t Hwf) as [Hp Hsz]. pose proof Hwf as [_ Hs Ha Hb].
  cbn [split size set_split]. set (half := size t / 2) in *.
  change (bucket (set_split t (split t - 1))) with (bucket t).
  assert (forall i n, n ∈ bucket t i -> 0 <= i -> i = hash_of half (split t) (raw n)) as Hbk.
  { intros i n Hn Hi. rewrite -table_hash_eq //. by apply Hb. }
  assert (forall n, hash_of half (split t - 1) (raw n) =
    if hash_of half (split t) (raw n) =? split t - 1 + half then split t - 1
    else hash_of half (split t) (raw n)) as Hm.
  { intros n. rewrite hash_of_merge; [done|lia|]. by replace (split t - 1 + 1) with (split t) by lia. }
  destruct (bucket t (split t - 1 + half)) as [|u us] eqn:Hup.
  - assert (same_table t (set_split t (split t - 1))) as H1.
    { apply same_table_intro; cbn; [done|done|lia|done|done|done|]. intros i n Hn Hi. fold half.
      rewrite Hm -(Hbk i n Hn Hi). destruct (Z.eqb_spec i (split t - 1 + half)) as [->|]; [|done].
      change (n ∈ bucket t (split t - 1 + half)) in Hn. rewrite Hup in Hn. by apply elem_of_nil in Hn. }
    eapply same_table_trans; [exact H1|]. apply IH, H1.
  - set (t1 := set_bucket (set_split t (split t - 1)) (split t - 1) (bucket t (split t - 1) ++ u :: us)).
    apply same_table_intro; cbn; [done|done|lia|done|by rewrite !length_insert| |].
    + pose proof (entries_set_bucket t1 (split t - 1 + half) []) as H1.
      pose proof (entries_set_bucket (set_split t (split t - 1)) (split t - 1)
        (bucket t (split t - 1) ++ u :: us)) as H2. fold t1 in H2.
      unfold t1 in H1 at 3. rewrite bucket_set_bucket in H1; cbn; [lia|lia|].
      destruct (Z.eqb_spec (split t - 1 + half) (split t - 1)); [lia|].
      change (bucket (set_split t (split t - 1))) with (bucket t) in *. rewrite Hup in H1.
      change (entries (set_split t (split t - 1))) with (entries t) in *.
      cbn in H1, H2. rewrite length_insert in H1.
      apply (Permutation_app_inv_r (u :: us)). rewrite H1; [lia|].
      apply (Permutation_app_inv_r (bucket t (split t - 1))). rewrite H2; [lia|]. solve_Permutation.
    + intros i n Hn Hi. fold half. rewrite Hm.
      rewrite bucket_set_bucket in Hn; [cbn; rewrite length_insert; lia|done|].
      destruct (Z.eqb_spec i (split t - 1 + half)); [by apply elem_of_nil in Hn|].
      unfold t1 in Hn. rewrite bucket_set_bucket in Hn; [cbn; lia|done|].
      change (bucket (set_split t (split t - 1))) with (bucket t) in *.
      destruct (Z.eqb_spec i (split t - 1)) as [->|].
      * apply elem_of_app in Hn as [Hn|Hn].
        -- rewrite -(Hbk _ n Hn Hi). destruct (Z.eqb_spec (split t - 1) (split t - 1 + half)); [lia|done].
        -- rewrite -Hup in Hn. rewrite -(Hbk _ n Hn); [lia|]. by rewrite Z.eqb_refl.
      * rewrite -(Hbk _ n Hn Hi). destruct (Z.eqb_spec i (split t - 1 + half)); [lia|done].
Qed.

Lemma concat_nils {A} (l : list (list A)) : (forall x, x ∈ l -> x = []) -> concat l = [].
Proof.
  induction l as [|x l IH]; intros H; [done|]. cbn. rewrite (H x); [apply elem_of_cons; auto|].
  apply IH. intros y Hy. apply H, elem_of_cons. auto.
Qed.

(** The buckets from [k] on hold nothing. *)
Lemma drop_empty t k :
  table_wf t -> size t / 2 + split t <= k -> concat (drop (Z.to_nat k) (array t)) = [].
Proof.
  intros Hwf Hk. apply concat_nils. intros x Hx. apply list_elem_of_lookup in Hx as [i Hi].
  rewrite lookup_drop in Hi.
  assert (bucket t (k + Z.of_nat i) = []) as Hb by (apply bucket_out; [done|lia]).
  unfold bucket in Hb. destruct (wf_positive t Hwf). pose proof Hwf as [_ ? _ _].
  replace (Z.to_nat (k + Z.of_nat i)) with (Z.to_nat k + i)%nat in Hb by lia.
  by rewrite Hi in Hb.
Qed.

Lemma bucket_take t k a u sz sp i :
  array t = a -> 0 <= i ->
  bucket (mkTable (take (Z.to_nat k) a) u sz sp) i = if i <? k then bucket t i else [].
Proof.
  intros <- Hi. unfold bucket; cbn. destruct (Z.ltb_spec i k).
  - rewrite lookup_take_lt //. lia.
  - rewrite lookup_take_ge //. lia.
Qed.

Lemma node_table_reduce_same ok t :
  table_wf t -> split t = 0 -> same_table t (node_table_reduce ok t).
Proof.
  intros Hwf Hsp. unfold node_table_reduce.
  destruct (Z.ltb_spec (size t / 2) NODE_TABLE_MIN_SIZE); [by split|].
  destruct (half_facts t Hwf) as (half & Hs & Hh & Hp & Hk). rewrite Hh in H |- *.
  pose proof Hwf as [_ _ Ha Hb]. destruct (Hk H) as (k & Hk0 & Hhalf). clear Hk.
  assert (concat (drop (Z.to_nat half) (array t)) = []) as Hdrop by (apply drop_empty; [done|lia]).
  set (t' := mkTable _ _ _ _).
  assert (forall i n, n ∈ bucket t' i -> 0 <= i -> n ∈ bucket t i) as Hsub.
  { intros i n Hn Hi. unfold t' in Hn. destruct ok; [|done].
    rewrite (bucket_take t) in Hn; [done..|]. destruct (i <? half); [done|by apply elem_of_nil in Hn]. }
  assert (entries t' ≡ₚ entries t) as He.
  { unfold t', entries. destruct ok; cbn; [|done].
    rewrite -{2}(take_drop (Z.to_nat half) (array t)) concat_app Hdrop app_nil_r //. }
  assert (half = 2 * (half / 2)) as Hh2.
  { apply Z.div_exact; [lia|]. rewrite Hhalf /NODE_TABLE_MIN_SIZE.
    replace (8192 * 2 ^ k) with (4096 * 2 ^ k * 2) by lia. apply Z.mod_mul. lia. }
  split; [|done|done]. split; cbn.
  - eauto.
  - lia.
  - destruct ok; [rewrite length_take|]; lia.
  - intros i n Hn Hi. rewrite (Hb i n (Hsub i n Hn Hi) Hi) table_hash_eq // Hh Hsp.
    rewrite (table_hash_half t' (half / 2)); cbn; [done|lia|].
    rewrite -hash_of_double; [lia|]. by rewrite -Hh2.
Qed.

Lemma remerge_same ok t : table_wf t -> same_table t (remerge ok t).
Proof.
  intros Hwf. unfold remerge. destruct (Z.eqb_spec (split t) 0).
  - pose proof (node_table_reduce_same ok t Hwf e) as H1.
    eapply same_table_trans; [exact H1|]. apply remerge_loop_same, H1.
  - by apply remerge_loop_same.
Qed.

Lemma node_table_resize_same ok t :
  table_wf t -> split t = size t / 2 -> same_table t (snd (node_table_resize ok t)).
Proof.
  intros Hwf Hsp. unfold node_table_resize. destruct ok; cbn [snd]; [|by split].
  destruct (half_facts t Hwf) as (half & Hs & Hh & Hp & Hk).
  pose proof Hwf as [(k & Hk0 & Hsz) _ Ha Hb].
  assert (concat (drop (Z.to_nat (size t)) (array t)) = []) as Hdrop by (apply drop_empty; [done|lia]).
  set (t' := mkTable _ _ _ _).
  assert (forall i, 0 <= i -> bucket t' i = if i <? size t then bucket t i else []) as Hbk.
  { intros i Hi. unfold t', bucket; cbn. destruct (Z.ltb_spec i (size t)).
    - rewrite lookup_app_l ?length_take; [lia|]. rewrite lookup_take_lt //. lia.
    - rewrite lookup_app_r ?length_take; [lia|].
      destruct (_ !! _) as [l|] eqn:Hl; [|done]. by apply lookup_replicate in Hl as [-> _]. }
  assert (entries t' ≡ₚ entries t) as He.
  { unfold t', entries; cbn. rewrite concat_app (concat_nils (replicate _ _)).
    - intros x [-> _]%elem_of_replicate. done.
    - rewrite app_nil_r -{2}(take_drop (Z.to_nat (size t)) (array t)) concat_app Hdrop app_nil_r //. }
  split; [|done|done]. split; cbn.
  - exists (k + 1). split; [lia|]. rewrite Hsz Z.pow_add_r; lia.
  - rewrite Z.div_mul; lia.
  - rewrite length_app length_take length_replicate. lia.
  - intros i n Hn Hi. rewrite Hbk in Hn; [done|]. destruct (i <? size t); [|by apply elem_of_nil in Hn].
    rewrite (Hb i n Hn Hi) table_hash_eq // Hh Hsp Hh.
    rewrite (table_hash_half t' (size t)); cbn; [lia|lia|]. by rewrite Hs hash_of_double.
Qed.

(** ** Splitting a bucket *)

(** The loop of [rehash]: [chain] is distributed over the bucket [hash] (after
    [kept]) and the other buckets. *)
Lemma rehash_chain_spec chain : forall t hash kept,
  0 <= hash < Z.of_nat (length (array t)) ->
  (forall n, n ∈ chain -> 0 <= table_hash t (raw n) < Z.of_nat (length (array t))) ->
  let t' := rehash_chain t hash chain kept in
  size t' = size t /\ split t' = split t /\ use t' = use t /\
  length (array t') = length (array t) /\
  entries t' ++ bucket t hash ≡ₚ kept ++ chain ++ entries t /\
  (forall i n, 0 <= i -> n ∈ bucket t' i ->
     i = hash /\ n ∈ kept \/ i <> hash /\ n ∈ bucket t i \/
     n ∈ chain /\ i = table_hash t (raw n)).
Proof.
  induction chain as [|m chain IH]; intros t hash kept Hh Hc; cbn [rehash_chain].
  { split_and!; cbn; try done; [by rewrite length_insert|by apply entries_set_bucket|].
    intros i n Hi. rewrite bucket_set_bucket //. destruct (Z.eqb_spec i hash); auto. }
  assert (0 <= table_hash t (raw m) < Z.of_nat (length (array t))) as Hm
    by (apply Hc, elem_of_cons; auto).
  destruct (Z.eqb_spec (table_hash t (raw m)) hash) as [He|Hne]; cbn [negb].
  - destruct (IH t hash (kept ++ [m])) as (H1 & H2 & H3 & H4 & H5 & H6).
    { done. }
    { intros n Hn. apply Hc, elem_of_cons. auto. }
    split_and!; try done.
    + rewrite H5. rewrite -app_assoc. done.
    + intros i n Hi Hn. destruct (H6 i n Hi Hn) as [[-> Hk]|[?|[??]]]; [|by auto|].
      * apply elem_of_app in Hk as [?|Hk]; [by auto|]. apply list_elem_of_singleton in Hk as ->.
        right; right. split; [apply elem_of_cons; auto|done].
      * right; right. split; [apply elem_of_cons; auto|done].
  - set (j := table_hash t (raw m)) in *.
    destruct (IH (set_bucket t j (m :: bucket t j)) hash kept) as (H1 & H2 & H3 & H4 & H5 & H6).
    { cbn. by rewrite length_insert. }
    { cbn. rewrite length_insert. intros n Hn. apply Hc, elem_of_cons. auto. }
    cbn in H4. rewrite length_insert in H4. split_and!; try done.
    + rewrite bucket_set_bucket in H5; [done|lia|].
      destruct (Z.eqb_spec hash j); [lia|]. rewrite H5.
      pose proof (entries_set_bucket t j (m :: bucket t j) Hm) as Hset.
      apply (Permutation_app_inv_r (bucket t j)). rewrite -!app_assoc Hset. solve_Permutation.
    + intros i n Hi Hn. destruct (H6 i n Hi Hn) as [?|[[Hih Hb]|[??]]]; [by auto| |].
      * rewrite bucket_set_bucket // in Hb. destruct (Z.eqb_spec i j) as [->|]; [|by auto].
        apply elem_of_cons in Hb as [->|Hb]; [|by auto].
        right; right. split; [apply elem_of_cons; auto|done].
      * right; right. split; [apply elem_of_cons; auto|done].
Qed.

Lemma rehash_same ok t : table_wf t -> same_table t (rehash ok t).
Proof.
  intros Hwf. unfold rehash. destruct (Z.eqb_spec (split t) (size t / 2)); [by split|].
  destruct (wf_positive t Hwf) as [Hp Hsz]. pose proof Hwf as [_ Hs Ha Hb].
  set (half := size t / 2) in *. set (t1 := set_split t (split t + 1)).
  change (bucket t1 (split t)) with (bucket t (split t)).
  assert (forall n, table_hash t1 (raw n) = hash_of half (split t + 1) (raw n)) as Ht1.
  { intros n'. by apply table_hash_half. }
  assert (forall i n, n ∈ bucket t i -> 0 <= i -> i = hash_of half (split t) (raw n)) as Hbk.
  { intros i n' Hn Hi. rewrite -table_hash_eq //. by apply Hb. }
  destruct (rehash_chain_spec (bucket t (split t)) t1 (split t) []) as (H1 & H2 & H3 & H4 & H5 & H6).
  { cbn. lia. }
  { intros m Hm. rewrite Ht1. pose proof (hash_of_range half (split t + 1) (raw m) Hp). cbn. lia. }
  set (t2 := rehash_chain _ _ _ _) in *.
  assert (same_table t t2) as Hsame.
  { apply same_table_intro; [done|done|rewrite H2; cbn; fold half; lia|done|done| |].
    - cbn in H5. change (bucket t1 (split t)) with (bucket t (split t)) in H5.
      apply (Permutation_app_inv_r (bucket t (split t))). rewrite H5.
      change (entries t1) with (entries t). apply Permutation_app_comm.
    - intros i m Hm Hi. fold half. rewrite H2. cbn.
      destruct (H6 i m Hi Hm) as [[_ Hk]|[[Hne Hk]|[Hk ->]]]; [by apply elem_of_nil in Hk| |by rewrite Ht1].
      change (m ∈ bucket t i) in Hk. rewrite (Hbk i m Hk Hi). symmetry.
      apply hash_of_split; [lia|lia|]. by rewrite -(Hbk i m Hk Hi). }
  destruct (Z.eqb_spec (split t2) (size t2 / 2)); [|done].
  eapply same_table_trans; [exact Hsame|]. apply node_table_resize_same; [apply Hsame|done].
Qed.

(** ** Insertion, removal, search *)

Lemma table_wf_set_bucket t i l :
  table_wf t -> 0 <= i < Z.of_nat (length (array t)) ->
  (forall n, n ∈ l -> i = table_hash t (raw n)) ->
  table_wf (set_bucket t i l).
Proof.
  intros [Hk Hs Ha Hb] Hi Hl. split; cbn; [done|done|by rewrite length_insert|].
  intros j n Hn Hj. change (n ∈ bucket (set_bucket t i l) j) in Hn.
  rewrite bucket_set_bucket // in Hn. destruct (Z.eqb_spec j i) as [->|]; [by apply Hl|by apply Hb].
Qed.

Lemma table_wf_set_use t u : table_wf t -> table_wf (set_use t u).
Proof. by intros [? ? ? ?]. Qed.

Lemma table_hash_index t h : table_wf t -> 0 <= table_hash t h < Z.of_nat (length (array t)).
Proof.
  intros Hwf. pose proof (table_hash_range t h Hwf). destruct (wf_positive t Hwf).
  destruct Hwf as [_ ? ? _]. lia.
Qed.

Lemma table_insert_spec ok t n :
  table_wf t ->
  table_wf (table_insert ok t n) /\ entries (table_insert ok t n) ≡ₚ n :: entries t /\
  use (table_insert ok t n) = u64 (use t + 1).
Proof.
  intros Hwf. unfold table_insert. pose proof (table_hash_index t (raw n) Hwf) as Hi.
  set (i := table_hash t (raw n)) in *.
  assert (entries (set_bucket t i (n :: bucket t i)) ≡ₚ n :: entries t) as He.
  { apply (Permutation_app_inv_r (bucket t i)). rewrite entries_set_bucket //. solve_Permutation. }
  assert (table_wf (set_use (set_bucket t i (n :: bucket t i)) (u64 (use t + 1)))) as H1.
  { apply table_wf_set_use, table_wf_set_bucket; [done|done|].
    intros m [->|Hm]%elem_of_cons; [done|]. apply (wf_bucket _ Hwf); [done|lia]. }
  destruct (_ <=? _); [|by split_and!].
  destruct (rehash_same ok _ H1) as [? He2 ?]. split_and!; [done| |done]. rewrite He2. exact He.
Qed.

Lemma unlink_spec n chain :
  (n ∈ chain -> exists c, unlink n chain = Some c /\ chain ≡ₚ n :: c) /\
  (n ∉ chain -> unlink n chain = None).
Proof.
  induction chain as [|m chain [IH1 IH2]]; cbn.
  { split; [by intros ?%elem_of_nil|done]. }
  rewrite elem_of_cons. destruct (Z.eqb_spec m n) as [->|Hne].
  { split; [by eauto|]. intros H. destruct H. by left. }
  split.
  - intros [?|Hin]; [done|]. destruct (IH1 Hin) as (c & -> & Hc). exists (m :: c).
    split; [done|]. rewrite Hc. apply Permutation_swap.
  - intros H. rewrite IH2; [tauto|]. done.
Qed.

Lemma table_unlink_spec t n :
  table_wf t ->
  (n ∈ entries t -> exists t', table_unlink t (raw n) n = Some t' /\
     table_wf t' /\ entries t ≡ₚ n :: entries t' /\ use t' = use t) /\
  (n ∉ entries t -> table_unlink t (raw n) n = None).
Proof.
  intros Hwf. unfold table_unlink. pose proof (table_hash_index t (raw n) Hwf) as Hi.
  assert (n ∈ entries t <-> n ∈ bucket t (table_hash t (raw n))) as Hin.
  { rewrite elem_of_entries. split; [|intros; eexists; split; [apply Hi|done]].
    intros (j & Hj & Hn). by rewrite -(wf_bucket _ Hwf j n Hn Hj). }
  set (i := table_hash t (raw n)) in *. rewrite Hin.
  destruct (unlink_spec n (bucket t i)) as [Hyes Hno]. split; [|intros H; by rewrite (Hno H)].
  intros (c & -> & Hc)%Hyes. eexists. split; [done|]. split_and!; [| |done].
  - apply table_wf_set_bucket; [done|done|].
    intros m Hm. apply (wf_bucket _ Hwf); [|lia]. rewrite Hc. apply elem_of_cons. auto.
  - pose proof (entries_set_bucket t i c Hi) as H.
    apply (Permutation_app_inv_l c). rewrite -H Hc. solve_Permutation.
Qed.

Lemma table_dec_spec ok t :
  table_wf t ->
  table_wf (table_dec ok t) /\ entries (table_dec ok t) ≡ₚ entries t /\
  use (table_dec ok t) = u64 (use t - 1).
Proof.
  intros Hwf. unfold table_dec. pose proof (table_wf_set_use t (u64 (use t - 1)) Hwf) as H1.
  destruct (_ <? _); [|by split_and!]. by destruct (remerge_same ok _ H1) as [? He2 ?].
Qed.

Lemma table_find_spec t h p :
  table_wf t -> (forall n, n ∈ entries t -> p n = true -> raw n = h) ->
  match table_find t h p with
  | Some n => n ∈ entries t /\ p n = true
  | None => forall n, n ∈ entries t -> p n = false
  end.
Proof.
  intros Hwf Hp. unfold table_find. pose proof (table_hash_index t h Hwf).
  destruct (List.find _ _) as [n|] eqn:Hf.
  - apply List.find_some in Hf as [Hn ?]. split; [|done]. apply elem_of_entries.
    exists (table_hash t h). split; [lia|]. by apply list_elem_of_In.
  - intros n Hn. destruct (p n) eqn:Hpn; [|done].
    pose proof Hn as (j & Hj & Hb)%elem_of_entries.
    pose proof (wf_bucket _ Hwf j n Hb Hj) as Hjh. rewrite (Hp n Hn Hpn) in Hjh. rewrite Hjh in Hb.
    rewrite -(List.find_none _ _ Hf n) //. by apply list_elem_of_In.
Qed.
End table.

(** The hash of an entry only matters for the entries stored. *)
Lemma table_wf_ext raw raw' t :
  (forall n, n ∈ entries t -> raw n = raw' n) -> table_wf raw t -> table_wf raw' t.
Proof.
  intros H [? ? ? Hb]. split; [done..|]. intros i n Hn Hi. rewrite -H; [|by apply Hb].
  apply elem_of_entries. eauto.
Qed.

(** [node_table_init] *)
Definition node_table_init : node_table :=
  mkTable (replicate (Z.to_nat NODE_TABLE_MIN_SIZE) []) 0 NODE_TABLE_MIN_SIZE 0.

Lemma node_table_init_entries : entries node_table_init = [].
Proof. apply concat_nils. intros x [-> _]%elem_of_replicate. done. Qed.

Lemma node_table_init_wf raw : table_wf raw node_table_init.
Proof.
  split.
  - exists 0. done.
  - done.
  - cbn [array node_table_init]. rewrite length_replicate. done.
  - intros i n Hn Hi. exfalso. assert (n ∈ entries node_table_init) as H.
    { apply elem_of_entries. eauto. }
    rewrite node_table_init_entries in H. by apply elem_of_nil in H.
Qed.

(** ** The abstract specification: a set *)

(** What a client of a table does to it; the booleans are the outcomes of the
    [realloc] the operation may call. *)
Inductive table_op := Insert (n : Z) (ok : bool) | Remove (n : Z) (ok : bool).

Definition table_step (raw : Z -> Z) (t : node_table) (o : table_op) : option node_table :=
  match o with
  | Insert n ok => Some (table_insert raw ok t n)
  | Remove n ok => table_dec ok <$> table_unlink t (raw n) n
  end.

Definition table_run (raw : Z -> Z) (t : node_table) (ops : list table_op) : option node_table :=
  foldl (fun ot o => t ← ot; table_step raw t o) (Some t) ops.

Definition set_step (s : gset Z) (o : table_op) : gset Z :=
  match o with Insert n _ => {[n]} ∪ s | Remove n _ => s ∖ {[n]} end.

(** Nodes are inserted once and removed only when they are in the table. *)
Fixpoint valid_ops (s : gset Z) (ops : list table_op) : Prop :=
  match ops with
  | [] => True
  | o :: ops =>
    match o with Insert n _ => n ∉ s | Remove n _ => n ∈ s end /\ valid_ops (set_step s o) ops
  end.

Record refines (raw : Z -> Z) (t : node_table) (s : gset Z) : Prop := {
  ref_wf : table_wf raw t;
  ref_nodup : NoDup (entries t);
  ref_set : forall n, n ∈ entries t <-> n ∈ s;
}.

Lemma table_step_refines raw t s o :
  refines raw t s -> match o with Insert n _ => n ∉ s | Remove n _ => n ∈ s end ->
  exists t', table_step raw t o = Some t' /\ refines raw t' (set_step s o).
Proof.
  intros [Hwf Hnd Hset] Ho. destruct o as [n ok|n ok]; cbn [table_step set_step].
  - eexists. split; [done|]. destruct (table_insert_spec raw ok t n Hwf) as (H1 & H2 & _).
    split; [done| |].
    + rewrite H2. apply list.NoDup_cons. by rewrite Hset.
    + intros m. rewrite H2 elem_of_cons Hset. set_solver.
  - destruct (table_unlink_spec raw t n Hwf) as [Hy _].
    destruct Hy as (t1 & -> & Hwf1 & He1 & _); [by apply Hset|].
    eexists. split; [done|]. destruct (table_dec_spec raw ok t1 Hwf1) as (H1 & H2 & _).
    rewrite He1 in Hnd. apply list.NoDup_cons in Hnd as [Hn Hnd]. split; [done|by rewrite H2|].
    intros m. rewrite H2. specialize (Hset m). rewrite He1 elem_of_cons in Hset.
    destruct (decide (m = n)) as [->|]; set_solver.
Qed.

Lemma table_run_refines raw ops : forall t s,
  refines raw t s -> valid_ops s ops ->
  exists t', table_run raw t ops = Some t' /\ refines raw t' (foldl set_step s ops).
Proof.
  induction ops as [|o ops IH]; intros t s Hr Hv; [by exists t|].
  destruct Hv as [Ho Hv]. destruct (table_step_refines raw t s o Hr Ho) as (t1 & H1 & Hr1).
  destruct (IH t1 _ Hr1 Hv) as (t2 & H2 & Hr2). exists t2. split; [|done].
  unfold table_run. cbn [foldl mbind option_bind]. rewrite H1. exact H2.
Qed.

(** C12: linear hashing implements a set.  Starting from the empty table, every
    sequence of insertions and removals, whatever [realloc]s fail along the way,
    runs to the end (no removal misses its entry), the table holds exactly the
    set the sequence denotes, each entry once and in the bucket its hash selects,
    and a chain search for a property that determines the hash finds an entry
    iff one is in the set. *)
Theorem table_refines_set raw ops :
  valid_ops ∅ ops ->
  let s := foldl set_step ∅ ops in
  exists t, table_run raw node_table_init ops = Some t /\ refines raw t s /\
    forall h p, (forall n, n ∈ s -> p n = true -> raw n = h) ->
      match table_find t h p with
      | Some n => n ∈ s /\ p n = true
      | None => forall n, n ∈ s -> p n = false
      end.
Proof.
  intros Hv s. destruct (table_run_refines raw ops node_table_init ∅) as (t & Hrun & Href); [|done|].
  { split; [apply node_table_init_wf|rewrite node_table_init_entries; constructor|].
    rewrite node_table_init_entries. set_solver. }
  exists t. split_and!; [done|done|]. intros h p Hp. destruct Href as [Hwf _ Hset]. fold s in Hset.
  pose proof (table_find_spec raw t h p Hwf (fun n Hn => Hp n (proj1 (Hset n) Hn))) as Hf.
  destruct (table_find t h p) as [n|].
  - by rewrite -Hset.
  - intros n Hn. by apply Hf, Hset.
Qed.

Lemma table_refines_set_witness :
  exists t, table_run id_raw node_table_init [Insert 1 true; Insert 5 true; Remove 1 false] = Some t /\
    refines id_raw t (foldl set_step ∅ [Insert 1 true; Insert 5 true; Remove 1 false]) /\
    forall h p, (forall n, n ∈ foldl set_step ∅ [Insert 1 true; Insert 5 true; Remove 1 false] ->
                   p n = true -> id_raw n = h) ->
      match table_find t h p with
      | Some n => n ∈ foldl set_step ∅ [Insert 1 true; Insert 5 true; Remove 1 false] /\ p n = true
      | None => forall n, n ∈ foldl set_step ∅ [Insert 1 true; Insert 5 true; Remove 1 false] -> p n = false
      end.
Proof.
  apply (table_refines_set id_raw [Insert 1 true; Insert 5 true; Remove 1 false]).
  cbn. split_and!; set_solver.
Defined.
