(* ===== verification/Node.v ===== *)
(** * Nodes: reference counting and the name tree ([lib/fuse.c])

    The store of nodes behind the high-level API: [find_node], [forget_node],
    [unref_node]/[delete_node]/[unhash_name], [rename_node], [exchange_node],
    [remove_node] and the cleaning of remembered nodes.  A pointer to a node is
    modelled by the node's id: ids of live nodes are distinct, because [next_id]
    only returns one that [get_node_nocheck] does not find.  Every access through
    a pointer aborts when the node has been freed.  All operations run under
    [f->lock]. *)
From S2P Require Import Prelude Locks NodeTable.

Definition FUSE_ROOT_ID : Z := 1.
Definition FUSE_UNKNOWN_INO : Z := 4294967295.

(** [struct node]; [name_next] and [id_next] are the chains of the tables, times
    are in nanoseconds, [forget_time] is the field of [struct node_lru]. *)
Record node := mkNode {
  generation : Z;
  refctr : Z;
  parent : option Z;
  name : option cstring;
  nlookup : Z;
  open_count : Z;
  stat_updated : Z;
  mtime : Z;
  st_size : Z;
  locks : list lock;
  is_hidden : bool;
  cache_valid : bool;
  treelock : Z;
  forget_time : Z;
}.

Definition set_generation (x : node) (v : Z) : node :=
  mkNode v (refctr x) (parent x) (name x) (nlookup x) (open_count x) (stat_updated x) (mtime x) (st_size x) (locks x) (is_hidden x) (cache_valid x) (treelock x) (forget_time x).
Definition set_refctr (x : node) (v : Z) : node :=
  mkNode (generation x) v (parent x) (name x) (nlookup x) (open_count x) (stat_updated x) (mtime x) (st_size x) (locks x) (is_hidden x) (cache_valid x) (treelock x) (forget_time x).
Definition set_parent (x : node) (v : option Z) : node :=
  mkNode (generation x) (refctr x) v (name x) (nlookup x) (open_count x) (stat_updated x) (mtime x) (st_size x) (locks x) (is_hidden x) (cache_valid x) (treelock x) (forget_time x).
Definition set_name (x : node) (v : option cstring) : node :=
  mkNode (generation x) (refctr x) (parent x) v (nlookup x) (open_count x) (stat_updated x) (mtime x) (st_size x) (locks x) (is_hidden x) (cache_valid x) (treelock x) (forget_time x).
Definition set_nlookup (x : node) (v : Z) : node :=
  mkNode (generation x) (refctr x) (parent x) (name x) v (open_count x) (stat_updated x) (mtime x) (st_size x) (locks x) (is_hidden x) (cache_valid x) (treelock x) (forget_time x).
Definition set_open_count (x : node) (v : Z) : node :=
  mkNode (generation x) (refctr x) (parent x) (name x) (nlookup x) v (stat_updated x) (mtime x) (st_size x) (locks x) (is_hidden x) (cache_valid x) (treelock x) (forget_time x).
Definition set_stat_updated (x : node) (v : Z) : node :=
  mkNode (generation x) (refctr x) (parent x) (name x) (nlookup x) (open_count x) v (mtime x) (st_size x) (locks x) (is_hidden x) (cache_valid x) (treelock x) (forget_time x).
Definition set_mtime (x : node) (v : Z) : node :=
  mkNode (generation x) (refctr x) (parent x) (name x) (nlookup x) (open_count x) (stat_updated x) v (st_size x) (locks x) (is_hidden x) (cache_valid x) (treelock x) (forget_time x).
Definition set_st_size (x : node) (v : Z) : node :=
  mkNode (generation x) (refctr x) (parent x) (name x) (nlookup x) (open_count x) (stat_updated x) (mtime x) v (locks x) (is_hidden x) (cache_valid x) (treelock x) (forget_time x).
Definition set_locks (x : node) (v : list lock) : node :=
  mkNode (generation x) (refctr x) (parent x) (name x) (nlookup x) (open_count x) (stat_updated x) (mtime x) (st_size x) v (is_hidden x) (cache_valid x) (treelock x) (forget_time x).
Definition set_is_hidden (x : node) (v : bool) : node :=
  mkNode (generation x) (refctr x) (parent x) (name x) (nlookup x) (open_count x) (stat_updated x) (mtime x) (st_size x) (locks x) v (cache_valid x) (treelock x) (forget_time x).
Definition set_cache_valid (x : node) (v : bool) : node :=
  mkNode (generation x) (refctr x) (parent x) (name x) (nlookup x) (open_count x) (stat_updated x) (mtime x) (st_size x) (locks x) (is_hidden x) v (treelock x) (forget_time x).
Definition set_treelock (x : node) (v : Z) : node :=
  mkNode (generation x) (refctr x) (parent x) (name x) (nlookup x) (open_count x) (stat_updated x) (mtime x) (st_size x) (locks x) (is_hidden x) (cache_valid x) v (forget_time x).
Definition set_forget_time (x : node) (v : Z) : node :=
  mkNode (generation x) (refctr x) (parent x) (name x) (nlookup x) (open_count x) (stat_updated x) (mtime x) (st_size x) (locks x) (is_hidden x) (cache_valid x) (treelock x) v.

(** [calloc]ed memory. *)
Definition node_zero : node :=
  mkNode 0 0 None None 0 0 0 0 0 [] false false 0 0.

(** [struct fuse], the fields the node store uses.  [nodes] is the memory of the
    live nodes; [tick] counts the calls of the environment (allocator, clock). *)
Record fuse := mkFuse {
  name_table : node_table;
  id_table : node_table;
  lru_table : list Z;
  ctr : Z;
  f_generation : Z;
  hidectr : Z;
  nodes : gmap Z node;
  tick : nat;
}.

Definition set_name_table (x : fuse) (v : node_table) : fuse :=
  mkFuse v (id_table x) (lru_table x) (ctr x) (f_generation x) (hidectr x) (nodes x) (tick x).
Definition set_id_table (x : fuse) (v : node_table) : fuse :=
  mkFuse (name_table x) v (lru_table x) (ctr x) (f_generation x) (hidectr x) (nodes x) (tick x).
Definition set_lru_table (x : fuse) (v : list Z) : fuse :=
  mkFuse (name_table x) (id_table x) v (ctr x) (f_generation x) (hidectr x) (nodes x) (tick x).
Definition set_ctr (x : fuse) (v : Z) : fuse :=
  mkFuse (name_table x) (id_table x) (lru_table x) v (f_generation x) (hidectr x) (nodes x) (tick x).
Definition set_f_generation (x : fuse) (v : Z) : fuse :=
  mkFuse (name_table x) (id_table x) (lru_table x) (ctr x) v (hidectr x) (nodes x) (tick x).
Definition set_hidectr (x : fuse) (v : Z) : fuse :=
  mkFuse (name_table x) (id_table x) (lru_table x) (ctr x) (f_generation x) v (nodes x) (tick x).
Definition set_nodes (x : fuse) (v : gmap Z node) : fuse :=
  mkFuse (name_table x) (id_table x) (lru_table x) (ctr x) (f_generation x) (hidectr x) v (tick x).
Definition set_tick (x : fuse) (v : nat) : fuse :=
  mkFuse (name_table x) (id_table x) (lru_table x) (ctr x) (f_generation x) (hidectr x) (nodes x) v.

(** The unreduced hash of a node in the name table. *)
Definition node_raw (ns : gmap Z node) (n : Z) : Z :=
  match ns !! n with
  | Some nd => match parent nd, name nd with
               | Some p, Some nm => name_raw p nm
               | _, _ => 0
               end
  | None => 0
  end.

Section ops.
(** The environment: whether the [i]-th allocation succeeds, and what the clock
    shows at the [i]-th reading. *)
Context (alloc_ok : nat -> bool) (clock : nat -> Z).
(** [f->conf.remember]: seconds, -1 for ever, 0 for off. *)
Context (remember : Z).

Definition lru_enabled : bool := 0 <? remember.

Definition alloc : M fuse bool := fun f => Ok (alloc_ok (tick f), set_tick f (S (tick f))).
Definition curr_time : M fuse Z := fun f => Ok (clock (tick f), set_tick f (S (tick f))).

(** Reading and writing through a node pointer. *)
Definition deref (n : Z) : M fuse node := fun f =>
  match nodes f !! n with Some nd => Ok (nd, f) | None => Abort end.
Definition store (n : Z) (nd : node) : M fuse unit :=
  modify (fun f => set_nodes f (<[n := nd]> (nodes f))).
Definition update (n : Z) (g : node -> node) : M fuse unit :=
  nd ← deref n; store n (g nd).

Definition get_node_nocheck (f : fuse) (nodeid : Z) : option Z :=
  table_find (id_table f) (id_raw nodeid) (fun n => n =? nodeid).

(** Aborts when there is no such node. *)
Definition get_node (nodeid : Z) : M fuse Z := fun f =>
  match get_node_nocheck f nodeid with Some n => Ok (n, f) | None => Abort end.

Definition is_named (f : fuse) (p : Z) (nm : cstring) (n : Z) : bool :=
  match nodes f !! n with
  | Some nd => bool_decide (parent nd = Some p) && bool_decide (name nd = Some nm)
  | None => false
  end.

Definition lookup_node (f : fuse) (p : Z) (nm : cstring) : option Z :=
  table_find (name_table f) (name_raw p nm) (is_named f p nm).

(** [list_del] and [init_list_head]: the element leaves the list it is in. *)
Definition remove_node_lru (n : Z) : M fuse unit :=
  modify (fun f => set_lru_table f (filter (fun m => m <> n) (lru_table f))).

Definition node_set_forget_time (n : Z) : M fuse unit :=
  modify (fun f => set_lru_table f (filter (fun m => m <> n) (lru_table f) ++ [n]));;
  now ← curr_time;
  update n (fun nd => set_forget_time nd now).

Definition free_node (n : Z) : M fuse unit :=
  modify (fun f => set_nodes f (delete n (nodes f))).

Definition unhash_id (n : Z) : M fuse unit :=
  ok ← alloc;
  f ← get;
  match table_unlink (id_table f) (id_raw n) n with
  | None => mret tt
  | Some t => put (set_id_table f (table_dec ok t))
  end.

Definition hash_id (n : Z) : M fuse unit :=
  ok ← alloc;
  modify (fun f => set_id_table f (table_insert id_raw ok (id_table f) n)).

(** [unhash_name], with [unref_node] as a parameter: the two are recursive
    through [delete_node]. *)
Definition unhash_name_with (unref_node : Z -> M fuse unit) (n : Z) : M fuse unit :=
  nd ← deref n;
  match name nd with
  | None => mret tt
  | Some nm =>
    match parent nd with
    | None => abort
    | Some p =>
      _ ← deref p;
      f ← get;
      match table_unlink (name_table f) (name_raw p nm) n with
      | None => abort
      | Some t =>
        put (set_name_table f t);;
        unref_node p;;
        update n (fun nd => set_parent (set_name nd None) None);;
        ok ← alloc;
        modify (fun f => set_name_table f (table_dec ok (name_table f)))
      end
    end
  end.

Definition delete_node_with (unref_node : Z -> M fuse unit) (n : Z) : M fuse unit :=
  nd ← deref n;
  assert (treelock nd =? 0);;
  unhash_name_with unref_node n;;
  (if lru_enabled then remove_node_lru n else mret tt);;
  unhash_id n;;
  free_node n.

(** The recursion goes up the tree: the fuel bounds the depth. *)
Fixpoint unref_node_fuel (fuel : nat) (n : Z) : M fuse unit :=
  match fuel with
  | O => diverge
  | S fuel =>
    nd ← deref n;
    assert (0 <? refctr nd);;
    store n (set_refctr nd (refctr nd - 1));;
    if refctr nd - 1 =? 0 then delete_node_with (unref_node_fuel fuel) n else mret tt
  end.

(** A path in the tree has at most as many nodes as there are. *)
Definition unref_node (n : Z) : M fuse unit :=
  f ← get; unref_node_fuel (base.size (nodes f)) n.
Definition delete_node (n : Z) : M fuse unit :=
  f ← get; delete_node_with (unref_node_fuel (base.size (nodes f))) n.
Definition unhash_name (n : Z) : M fuse unit :=
  f ← get; unhash_name_with (unref_node_fuel (base.size (nodes f))) n.

Definition hash_name (n parentid : Z) (nm : cstring) : M fuse Z :=
  p ← get_node parentid;
  ok ← (if strlen nm <? 32 then mret true else alloc);
  if negb ok then update n (fun nd => set_name nd None);; mret (-1)
  else
    update n (fun nd => set_name nd (Some nm));;
    update p (fun pd => set_refctr pd (refctr pd + 1));;
    update n (fun nd => set_parent nd (Some p));;
    ok ← alloc;
    modify (fun f => set_name_table f (table_insert (node_raw (nodes f)) ok (name_table f) n));;
    mret 0.

(** [next_id]: the loop ends because some id is free; the fuel is one more than
    the number of ids that are not. *)
Fixpoint next_id_loop (fuel : nat) : M fuse Z :=
  match fuel with
  | O => diverge
  | S fuel =>
    modify (fun f => set_ctr f (Z.land (u64 (ctr f + 1)) 4294967295));;
    modify (fun f => if ctr f =? 0 then set_f_generation f (u32 (f_generation f + 1)) else f);;
    f ← get;
    if (ctr f =? 0) || (ctr f =? FUSE_UNKNOWN_INO) ||
       bool_decide (get_node_nocheck f (ctr f) <> None)
    then next_id_loop fuel
    else mret (ctr f)
  end.

Definition next_id : M fuse Z := f ← get; next_id_loop (base.size (nodes f) + 3).

Definition inc_nlookup (n : Z) : M fuse unit :=
  update n (fun nd =>
    let nd := if nlookup nd =? 0 then set_refctr nd (refctr nd + 1) else nd in
    set_nlookup nd (u64 (nlookup nd + 1))).

(** [find_node(f, parent, name)]; a [NULL] name asks for the node itself. *)
Definition find_node (p : Z) (nm : option cstring) : M fuse (option Z) :=
  found ← (match nm with
           | None => n ← get_node p; mret (Some n)
           | Some nm => f ← get; mret (lookup_node f p nm)
           end);
  match found with
  | None =>
    ok ← alloc;
    if negb ok then mret None
    else
      n ← next_id;
      f ← get;
      store n (set_generation node_zero (f_generation f));;
      (if truth remember then inc_nlookup n else mret tt);;
      r ← hash_name n p (default [] nm);
      if r =? -1 then free_node n;; mret None
      else
        hash_id n;;
        inc_nlookup n;;
        mret (Some n)
  | Some n =>
    nd ← deref n;
    (if lru_enabled && (nlookup nd =? 1) then remove_node_lru n else mret tt);;
    inc_nlookup n;;
    mret (Some n)
  end.

(** [strtok_r(path, "/")], token by token. *)
Fixpoint path_tokens (acc s : cstring) : list cstring :=
  match s with
  | [] => if bool_decide (acc = []) then [] else [acc]
  | c :: s =>
    if ceq c "/"%char then
      (if bool_decide (acc = []) then path_tokens [] s else acc :: path_tokens [] s)
    else path_tokens (acc ++ [c]) s
  end.

Fixpoint lookup_tokens (f : fuse) (ino : Z) (toks : list cstring) : Z * Z :=
  match toks with
  | [] => (0, ino)
  | t :: toks =>
    match lookup_node f ino t with
    | None => (- ENOENT, ino)
    | Some n => lookup_tokens f n toks
    end
  end.

(** [lookup_path_in_cache]: the error code and [*inop]. *)
Definition lookup_path_in_cache (path : cstring) : M fuse (Z * option Z) :=
  ok ← alloc;
  if negb ok then mret (- ENOMEM, None)
  else
    f ← get;
    let '(err, ino) := lookup_tokens f FUSE_ROOT_ID (path_tokens [] path) in
    mret (err, if err =? 0 then Some ino else None).

(** [forget_node] once the node is not locked or not about to go: the wait for
    the tree lock is the precondition under which [pthread_cond_wait] returns. *)
Definition forget_node (nodeid count : Z) : M fuse unit :=
  if nodeid =? FUSE_ROOT_ID then mret tt
  else
    n ← get_node nodeid;
    nd ← deref n;
    if (nlookup nd =? count) && truth (treelock nd) then diverge
    else
      assert (count <=? nlookup nd);;
      update n (fun nd => set_nlookup nd (nlookup nd - count));;
      if nlookup nd - count =? 0 then unref_node n
      else if lru_enabled && (nlookup nd - count =? 1) then node_set_forget_time n
      else mret tt.

Definition unlink_node (n : Z) : M fuse unit :=
  (if truth remember then
     nd ← deref n;
     assert (1 <? nlookup nd);;
     store n (set_nlookup nd (nlookup nd - 1))
   else mret tt);;
  unhash_name n.

Definition remove_node (dir : Z) (nm : cstring) : M fuse unit :=
  f ← get;
  match lookup_node f dir nm with
  | Some n => unlink_node n
  | None => mret tt
  end.

Definition rename_node (olddir : Z) (oldname : cstring) (newdir : Z) (newname : cstring)
    (hide : bool) : M fuse Z :=
  f ← get;
  let found := lookup_node f olddir oldname in
  let newnode := lookup_node f newdir newname in
  match found with
  | None => mret 0
  | Some n =>
    if bool_decide (newnode <> None) && hide then mret (- EBUSY)
    else
      (match newnode with Some m => unlink_node m | None => mret tt end);;
      unhash_name n;;
      r ← hash_name n newdir newname;
      if r =? -1 then mret (- ENOMEM)
      else
        (if hide then update n (fun nd => set_is_hidden nd true) else mret tt);;
        mret 0
  end.

Definition exchange_node (olddir : Z) (oldname : cstring) (newdir : Z) (newname : cstring)
  : M fuse Z :=
  f ← get;
  let oldnode := lookup_node f olddir oldname in
  let newnode := lookup_node f newdir newname in
  (match oldnode with Some n => unhash_name n | None => mret tt end);;
  (match newnode with Some n => unhash_name n | None => mret tt end);;
  r ← (match oldnode with Some n => hash_name n newdir newname | None => mret 0 end);
  if r =? -1 then mret (- ENOMEM)
  else
    r ← (match newnode with Some n => hash_name n olddir oldname | None => mret 0 end);
    if r =? -1 then mret (- ENOMEM) else mret 0.

Definition clean_delay : Z :=
  let sleep_time := Z.quot remember 10 in
  if 3600 <? sleep_time then 3600
  else if sleep_time <? 60 then 60 else sleep_time.

(** The loop of [fuse_clean_cache] over the nodes that were on the LRU list when
    it was entered, oldest first. *)
Fixpoint clean_loop (now : Z) (l : list Z) : M fuse unit :=
  match l with
  | [] => mret tt
  | n :: l =>
    nd ← deref n;
    if now - forget_time nd <=? remember * 1000000000 then mret tt
    else
      assert (nlookup nd =? 1);;
      if 1 <? refctr nd then clean_loop now l
      else
        store n (set_nlookup nd 0);;
        unhash_name n;;
        unref_node n;;
        clean_loop now l
  end.

Definition fuse_clean_cache : M fuse Z :=
  now ← curr_time;
  f ← get;
  clean_loop now (lru_table f);;
  mret clean_delay.

(** The node store [_fuse_new_31] sets up: empty tables and the root. *)
Definition new_root : M fuse unit :=
  store FUSE_ROOT_ID (set_name node_zero (Some (lit "/")));;
  inc_nlookup FUSE_ROOT_ID;;
  hash_id FUSE_ROOT_ID.

Definition fuse_empty : fuse := mkFuse node_table_init node_table_init [] 0 0 0 ∅ 0.

(** [is_open] and the open count. *)
Definition is_open (f : fuse) (dir : Z) (nm : cstring) : bool :=
  match lookup_node f dir nm with
  | Some n => match nodes f !! n with Some nd => 0 <? open_count nd | None => false end
  | None => false
  end.

(** [update_stat], with the modification time in nanoseconds. *)
Definition update_stat (n st_mtime st_sz : Z) : M fuse unit :=
  update n (fun nd =>
    let nd := if cache_valid nd && (negb (st_mtime =? mtime nd) || negb (st_sz =? st_size nd))
              then set_cache_valid nd false else nd in
    set_st_size (set_mtime nd st_mtime) st_sz);;
  now ← curr_time;
  update n (fun nd => set_stat_updated nd now).
End ops.

(** ** The invariant of the node store *)

Definition TREELOCK_WRITE : Z := -1.

(** Some request holds a path through the node. *)
Definition read_locked (nd : node) : Prop := treelock nd <> 0 /\ treelock nd <> TREELOCK_WRITE.

(** The children of [p] that count: [X] are nodes taken out of the tree whose
    [parent] field has not been cleared yet. *)
Definition kids (ns : gmap Z node) (X : gset Z) (p : Z) : gset Z :=
  dom (filter (fun kv => parent kv.2 = Some p /\ kv.1 ∉ X) ns).

Section inv.
Context (remember : Z).
(** The depth of a node: parents are less deep than their children. *)
Context (rank : Z -> nat).

(** [X] are the detached nodes (see [kids]), [P] the nodes being created or
    about to be freed, and [e] is the node that still holds the reference of a
    detached child.  Between operations all three are empty. *)
Record inv (X P : gset Z) (e : option Z) (f : fuse) : Prop := {
  inv_id : exists S, refines id_raw (id_table f) S /\ S ⊆ dom (nodes f) /\ dom (nodes f) ∖ P ⊆ S;
  inv_name : table_wf (node_raw (nodes f)) (name_table f);
  inv_nodup : NoDup (entries (name_table f));
  inv_names : forall n, n ∈ entries (name_table f) <->
    (n ∉ X /\ exists nd, nodes f !! n = Some nd /\ is_Some (parent nd));
  inv_fields : forall n nd, nodes f !! n = Some nd ->
    if n =? FUSE_ROOT_ID then parent nd = None
    else (is_Some (parent nd) <-> is_Some (name nd));
  inv_parent : forall n nd p, nodes f !! n = Some nd -> n ∉ X -> parent nd = Some p ->
    p ∈ dom (nodes f) /\ (rank p < rank n)%nat;
  inv_uniq : forall n m nd md, nodes f !! n = Some nd -> nodes f !! m = Some md ->
    n ∉ X -> m ∉ X -> is_Some (parent nd) -> parent nd = parent md -> name nd = name md -> n = m;
  inv_ref : forall n nd, nodes f !! n = Some nd ->
    0 <= nlookup nd <= SIZE_MAX /\
    refctr nd = int_of_bool (0 <? nlookup nd) + Z.of_nat (base.size (kids (nodes f) X n)) +
                int_of_bool (bool_decide (e = Some n));
  inv_pos : forall n nd, nodes f !! n = Some nd -> n ∉ P -> 0 < refctr nd;
  inv_root : FUSE_ROOT_ID ∉ X /\
    exists rd, nodes f !! FUSE_ROOT_ID = Some rd /\ 0 < nlookup rd;
  inv_lru_nodup : NoDup (lru_table f);
  inv_lru : forall n, n ∈ lru_table f -> 0 < remember /\
    exists nd, nodes f !! n = Some nd /\ (n ∉ P -> nlookup nd = 1);
  inv_lock : forall n nd, nodes f !! n = Some nd -> treelock nd <> 0 ->
    0 < nlookup nd \/
    exists k kd, k ∈ kids (nodes f) X n /\ nodes f !! k = Some kd /\ read_locked kd;
}.

Lemma elem_of_kids ns X p k :
  k ∈ kids ns X p <-> (exists kd, ns !! k = Some kd /\ parent kd = Some p /\ k ∉ X).
Proof.
  unfold kids. rewrite elem_of_dom. split.
  - intros [kd Hk]. apply map_lookup_filter_Some in Hk as (? & ? & ?). eauto.
  - intros (kd & ? & ? & ?). exists kd. by apply map_lookup_filter_Some.
Qed.

Lemma kids_ext ns ns' X X' p :
  (forall k, (exists kd, ns !! k = Some kd /\ parent kd = Some p /\ k ∉ X) <->
             (exists kd, ns' !! k = Some kd /\ parent kd = Some p /\ k ∉ X')) ->
  kids ns X p = kids ns' X' p.
Proof. intros H. apply set_eq. intros k. by rewrite !elem_of_kids. Qed.

(** Writing a node without changing its place in the tree. *)
Lemma kids_insert ns X p n nd nd' :
  ns !! n = Some nd -> parent nd' = parent nd -> kids (<[n := nd']> ns) X p = kids ns X p.
Proof.
  intros Hn Hp. apply kids_ext. intros k. destruct (decide (k = n)) as [->|Hne].
  - rewrite lookup_insert_eq. split; intros (kd & Hk & ? & ?); simplify_eq.
    + exists nd. split_and!; congruence.
    + exists nd'. split_and!; congruence.
  - by rewrite lookup_insert_ne.
Qed.

Lemma kids_detach ns X n nd p :
  ns !! n = Some nd -> n ∉ X -> parent nd = Some p ->
  base.size (kids ns X p) = S (base.size (kids ns ({[n]} ∪ X) p)).
Proof.
  intros Hn HX Hp. replace (kids ns X p) with ({[n]} ∪ kids ns ({[n]} ∪ X) p).
  { rewrite size_union; [|by rewrite size_singleton].
    intros k Hk%elem_of_singleton (kd & _ & _ & Hk2)%elem_of_kids. set_solver. }
  apply set_eq. intros k. rewrite elem_of_union elem_of_singleton !elem_of_kids.
  destruct (decide (k = n)) as [->|Hne].
  - split; [|by auto]. intros _. exists nd. split_and!; done.
  - split.
    + intros [?|(kd & ? & ? & ?)]; [done|]. exists kd. split_and!; [done..|set_solver].
    + intros (kd & ? & ? & ?). right. exists kd. split_and!; [done..|set_solver].
Qed.

Lemma kids_detach_ne ns X n nd q :
  ns !! n = Some nd -> parent nd <> Some q -> kids ns ({[n]} ∪ X) q = kids ns X q.
Proof.
  intros Hn Hp. apply kids_ext. intros k. split; intros (kd & Hk & Hq & HX); exists kd.
  - split_and!; [done..|set_solver].
  - split_and!; [done..|]. assert (k <> n) by congruence. set_solver.
Qed.

Lemma node_raw_insert ns n nd nd' m :
  ns !! n = Some nd -> parent nd' = parent nd -> name nd' = name nd ->
  node_raw (<[n := nd']> ns) m = node_raw ns m.
Proof.
  intros Hn Hp Hnm. unfold node_raw. destruct (decide (m = n)) as [->|Hne].
  - by rewrite lookup_insert_eq Hn Hp Hnm.
  - by rewrite lookup_insert_ne.
Qed.

(** Writing a node at its place: counters, locks and flags may change as long as
    the reference count still adds up. *)
Lemma inv_write X P P' e e' f n nd nd' :
  inv X P e f -> nodes f !! n = Some nd ->
  parent nd' = parent nd -> name nd' = name nd ->
  0 <= nlookup nd' <= SIZE_MAX ->
  refctr nd' = int_of_bool (0 <? nlookup nd') + Z.of_nat (base.size (kids (nodes f) X n)) +
               int_of_bool (bool_decide (e' = Some n)) ->
  (forall m, m <> n -> (e = Some m <-> e' = Some m)) ->
  (n ∉ P' -> 0 < refctr nd' /\ (n ∉ P \/ n ∈ entries (id_table f))) -> (forall m, m <> n -> m ∉ P' -> m ∉ P) ->
  (n ∈ lru_table f -> n ∉ P' -> nlookup nd' = 1) ->
  (n = FUSE_ROOT_ID -> 0 < nlookup nd') ->
  (read_locked nd -> read_locked nd') ->
  (treelock nd' <> 0 -> 0 < nlookup nd' \/
     exists k kd, k ∈ kids (nodes f) X n /\ nodes f !! k = Some kd /\ read_locked kd) ->
  inv X P' e' (set_nodes f (<[n := nd']> (nodes f))).
Proof.
  intros Hinv Hn Hpar Hname Hnl Href He HP HPm Hlru Hroot Hrl Hlock.
  assert (forall q, kids (<[n := nd']> (nodes f)) X q = kids (nodes f) X q) as Hk
    by (intros q; by eapply kids_insert).
  assert (dom (<[n := nd']> (nodes f)) = dom (nodes f)) as Hd
    by (rewrite dom_insert_L; apply elem_of_dom_2 in Hn; set_solver).
  destruct Hinv. split; cbn [id_table name_table lru_table nodes set_nodes]; rewrite ?Hd; try done.
  - destruct inv_id0 as (S & HS & ? & HSP). exists S. split_and!; [done..|].
    intros m [Hm HmP]%elem_of_difference. destruct (decide (m = n)) as [->|Hne].
    + destruct (HP HmP) as [_ [?|Hin]]; [set_solver|]. by apply (ref_set _ _ _ HS).
    + apply HSP, elem_of_difference. auto.
  - eapply table_wf_ext; [|done]. intros m _. symmetry. by eapply node_raw_insert.
  - intros m. rewrite inv_names0. destruct (decide (m = n)) as [->|Hne].
    + rewrite lookup_insert_eq Hn. split; (intros (? & ? & [= <-] & ?); split; [done|eexists; split; [done|congruence]]).
    + by rewrite lookup_insert_ne.
  - intros m md. destruct (decide (m = n)) as [->|Hne]; [|rewrite lookup_insert_ne //; apply inv_fields0].
    rewrite lookup_insert_eq. intros [= <-]. rewrite Hpar Hname. by apply inv_fields0.
  - intros m md p. destruct (decide (m = n)) as [->|Hne]; [|rewrite lookup_insert_ne //; apply inv_parent0].
    rewrite lookup_insert_eq. intros [= <-]. rewrite Hpar. by apply inv_parent0.
  - intros m1 m2 d1 d2 H1 H2 HX1 HX2 His Hp Hnm.
    assert (forall m d, <[n := nd']> (nodes f) !! m = Some d ->
      exists d0, nodes f !! m = Some d0 /\ parent d0 = parent d /\ name d0 = name d) as Hold.
    { intros m d. destruct (decide (m = n)) as [->|Hne]; [|rewrite lookup_insert_ne //; eauto].
      rewrite lookup_insert_eq. intros [= <-]. eauto. }
    destruct (Hold _ _ H1) as (d1' & ? & ? & ?), (Hold _ _ H2) as (d2' & ? & ? & ?).
    eapply (inv_uniq0 m1 m2 d1' d2'); try done; congruence.
  - intros m md. rewrite Hk. destruct (decide (m = n)) as [->|Hne].
    + rewrite lookup_insert_eq. intros [= <-]. done.
    + rewrite lookup_insert_ne //. intros Hm. destruct (inv_ref0 m md Hm) as [? ->]. split; [done|].
      do 2 f_equal. by apply bool_decide_ext, He.
  - intros m md. destruct (decide (m = n)) as [->|Hne].
    + rewrite lookup_insert_eq. intros [= <-] ?. by apply HP.
    + rewrite lookup_insert_ne //. intros ? ?. eapply inv_pos0; eauto.
  - split; [apply inv_root0|]. destruct (decide (FUSE_ROOT_ID = n)) as [<-|Hne].
    + rewrite lookup_insert_eq. eauto.
    + rewrite lookup_insert_ne //. apply inv_root0.
  - intros m Hm. destruct (inv_lru0 m Hm) as (? & md & ? & ?). split; [done|].
    destruct (decide (m = n)) as [->|Hne]; [rewrite lookup_insert_eq; eauto|].
    rewrite lookup_insert_ne //. eauto.
  - assert (forall k kd, nodes f !! k = Some kd -> read_locked kd ->
      exists kd', <[n := nd']> (nodes f) !! k = Some kd' /\ read_locked kd') as Hread.
    { intros k kd Hkd ?. destruct (decide (k = n)) as [->|Hne].
      - rewrite lookup_insert_eq. exists nd'. split; [done|]. apply Hrl. congruence.
      - rewrite lookup_insert_ne //. eauto. }
    intros m md Hm Htl. rewrite Hk.
    assert (0 < nlookup md \/ exists k kd, k ∈ kids (nodes f) X m /\ nodes f !! k = Some kd /\ read_locked kd)
      as [?|(k & kd & Hkm & Hkd & Hrk)].
    { destruct (decide (m = n)) as [->|Hne].
      - rewrite lookup_insert_eq in Hm. injection Hm as <-. auto.
      - rewrite lookup_insert_ne // in Hm. by eapply inv_lock0. }
    + by left.
    + right. destruct (Hread k kd Hkd Hrk) as (kd' & ? & ?). eauto.
Qed.

(** Taking a node out of the name table: it no longer counts as a child, but its
    parent still holds the reference. *)
Lemma inv_detach X P f n nd p t :
  inv X P None f -> nodes f !! n = Some nd -> n ∉ X -> n <> FUSE_ROOT_ID -> parent nd = Some p ->
  ~ read_locked nd ->
  table_wf (node_raw (nodes f)) t -> entries (name_table f) ≡ₚ n :: entries t ->
  inv ({[n]} ∪ X) P (Some p) (set_name_table f t).
Proof.
  intros Hinv Hn HX Hroot Hp Hrl Ht He. destruct Hinv.
  rewrite He in inv_nodup0. apply list.NoDup_cons in inv_nodup0 as [Hnt Hnd].
  split; cbn [id_table name_table lru_table nodes set_name_table]; try done.
  - intros m. specialize (inv_names0 m). rewrite He elem_of_cons in inv_names0.
    destruct (decide (m = n)) as [->|Hne]; set_solver.
  - intros m md q Hm Hmx. apply inv_parent0; [done|set_solver].
  - intros m1 m2 d1 d2 H1 H2 HX1 HX2. apply (inv_uniq0 m1 m2 d1 d2); [done|done|set_solver|set_solver].
  - intros m md Hm. destruct (inv_ref0 m md Hm) as [? ->]. split; [done|].
    destruct (decide (m = p)) as [->|Hne].
    + rewrite (kids_detach _ X n nd p) // (bool_decide_true (Some p = Some p)) // bool_decide_false //.
      cbn. lia.
    + rewrite (kids_detach_ne _ X n nd m) //; [congruence|].
      do 2 f_equal. apply bool_decide_ext. naive_solver.
  - split; [set_solver|apply inv_root0].
  - intros m md Hm Htl. destruct (inv_lock0 m md Hm Htl) as [?|(k & kd & Hk & Hkd & Hrk)]; [by left|].
    right. exists k, kd. split_and!; [|done..]. apply elem_of_kids in Hk as (kd' & ? & ? & ?).
    apply elem_of_kids. exists kd'. split_and!; [done..|].
    assert (k <> n) by (intros ->; congruence). set_solver.
Qed.

(** Clearing [name] and [parent] of a detached node puts it back among the
    nodes that count, now without a place in the tree. *)
Lemma inv_clear X P e f n nd :
  inv ({[n]} ∪ X) P e f -> n ∉ X -> n <> FUSE_ROOT_ID -> nodes f !! n = Some nd ->
  inv X P e (set_nodes f (<[n := set_parent (set_name nd None) None]> (nodes f))).
Proof.
  intros Hinv HX Hroot Hn. set (nd' := set_parent (set_name nd None) None).
  assert (forall q, kids (<[n := nd']> (nodes f)) X q = kids (nodes f) ({[n]} ∪ X) q) as Hk.
  { intros q. apply kids_ext. intros k. destruct (decide (k = n)) as [->|Hne].
    - rewrite lookup_insert_eq. split; [|set_solver]. by intros (kd & [= <-] & ? & _).
    - rewrite lookup_insert_ne //. set_solver. }
  assert (dom (<[n := nd']> (nodes f)) = dom (nodes f)) as Hd
    by (rewrite dom_insert_L; apply elem_of_dom_2 in Hn; set_solver).
  destruct Hinv. split; cbn [id_table name_table lru_table nodes set_nodes]; rewrite ?Hd; try done.
  - eapply table_wf_ext; [|done]. intros m [Hm _]%inv_names0. unfold node_raw.
    rewrite lookup_insert_ne //. set_solver.
  - intros m. rewrite inv_names0. destruct (decide (m = n)) as [->|Hne].
    + rewrite lookup_insert_eq. split; [set_solver|]. intros (_ & md & [= <-] & [? [=]]).
    + rewrite lookup_insert_ne //. set_solver.
  - intros m md. destruct (decide (m = n)) as [->|Hne].
    + rewrite lookup_insert_eq. intros [= <-]. apply Z.eqb_neq in Hroot as ->. cbn. by split; intros [? [=]].
    + rewrite lookup_insert_ne //. apply inv_fields0.
  - intros m md q. destruct (decide (m = n)) as [->|Hne].
    + rewrite lookup_insert_eq. by intros [= <-].
    + rewrite lookup_insert_ne //. intros ? ?. apply inv_parent0; [done|set_solver].
  - intros m1 m2 d1 d2 H1 H2 HX1 HX2 His Hpar Hnm.
    assert (forall m d, <[n := nd']> (nodes f) !! m = Some d -> is_Some (parent d) -> m <> n) as Hne.
    { intros m d Hm [? Hd'] ->. rewrite lookup_insert_eq in Hm. by simplify_eq. }
    assert (m1 <> n) by eauto. assert (m2 <> n) by (eapply Hne; [done|by rewrite -Hpar]).
    rewrite lookup_insert_ne // in H1. rewrite lookup_insert_ne // in H2.
    apply (inv_uniq0 m1 m2 d1 d2); try done; set_solver.
  - intros m md. rewrite Hk. destruct (decide (m = n)) as [->|Hne].
    + rewrite lookup_insert_eq. intros [= <-]. by apply (inv_ref0 n nd).
    + rewrite lookup_insert_ne //. apply inv_ref0.
  - intros m md. destruct (decide (m = n)) as [->|Hne].
    + rewrite lookup_insert_eq. intros [= <-]. by apply (inv_pos0 n nd).
    + rewrite lookup_insert_ne //. apply inv_pos0.
  - rewrite lookup_insert_ne //. set_solver.
  - intros m Hm. destruct (inv_lru0 m Hm) as (? & md & Hmd & ?). split; [done|].
    destruct (decide (m = n)) as [->|Hne].
    + rewrite lookup_insert_eq. simplify_eq. eauto.
    + rewrite lookup_insert_ne //. eauto.
  - intros m md Hm Htl. rewrite Hk.
    assert (exists md0, nodes f !! m = Some md0 /\ nlookup md0 = nlookup md /\ treelock md0 = treelock md)
      as (md0 & Hm0 & Hnl0 & Htl0).
    { destruct (decide (m = n)) as [->|Hne].
      - rewrite lookup_insert_eq in Hm. injection Hm as <-. eauto.
      - rewrite lookup_insert_ne // in Hm. eauto. }
    destruct (inv_lock0 m md0 Hm0) as [?|(k & kd & Hkm & Hkd & ?)]; [congruence|left; lia|].
    right. exists k, kd. split_and!; [done| |done]. rewrite lookup_insert_ne //.
    intros <-. apply elem_of_kids in Hkm as (? & _ & _ & ?). set_solver.
Qed.

(** Changes of the name table that keep its entries. *)
Lemma inv_name_table X P e f t :
  inv X P e f -> table_wf (node_raw (nodes f)) t -> entries t ≡ₚ entries (name_table f) ->
  inv X P e (set_name_table f t).
Proof.
  intros [] Ht He. split; cbn [id_table name_table lru_table nodes set_name_table]; try done.
  - by rewrite He.
  - intros n. by rewrite He.
Qed.

Lemma inv_lru_remove X P e f n :
  inv X P e f -> inv X P e (set_lru_table f (filter (fun m => m <> n) (lru_table f))).
Proof.
  intros []. split; cbn [id_table name_table lru_table nodes set_lru_table]; try done.
  - by apply list.NoDup_filter.
  - intros m [_ Hm]%list_elem_of_filter. by apply inv_lru0.
Qed.

Lemma inv_tick X P e f k : inv X P e f -> inv X P e (set_tick f k).
Proof. by intros []. Qed.

(** Freeing a node that nothing refers to. *)
Lemma inv_free X P f n nd t :
  inv X ({[n]} ∪ P) None f -> nodes f !! n = Some nd -> parent nd = None -> refctr nd = 0 ->
  n ∉ lru_table f -> n ∉ P ->
  (exists S, refines id_raw t S /\ S ⊆ dom (nodes f) ∖ {[n]} /\ dom (nodes f) ∖ {[n]} ∖ P ⊆ S) ->
  inv X P None (set_nodes (set_id_table f t) (delete n (nodes f))).
Proof.
  intros Hinv Hn Hpar Href Hlru HP Ht.
  assert (kids (nodes f) X n = ∅ /\ nlookup nd = 0) as [Hkids Hnl].
  { destruct (inv_ref _ _ _ _ Hinv n nd Hn) as [? Hr]. rewrite Href bool_decide_false // in Hr.
    destruct (Z.ltb_spec 0 (nlookup nd)); cbn in Hr; [lia|].
    split; [|lia]. apply leibniz_equiv, size_empty_inv. lia. }
  assert (forall q, kids (delete n (nodes f)) X q = kids (nodes f) X q) as Hk.
  { intros q. apply kids_ext. intros k. destruct (decide (k = n)) as [->|Hne].
    - rewrite lookup_delete_eq. split; intros (kd & ? & ? & _); congruence.
    - by rewrite lookup_delete_ne. }
  assert (forall m md, delete n (nodes f) !! m = Some md -> m <> n /\ nodes f !! m = Some md) as Hdel.
  { intros m md Hm. by apply lookup_delete_Some in Hm as [? ?]. }
  destruct Hinv. split; cbn [id_table name_table lru_table nodes set_nodes set_id_table]; try done.
  - by rewrite dom_delete_L.
  - eapply table_wf_ext; [|done]. intros m (_ & md & Hm & His)%inv_names0. unfold node_raw.
    rewrite lookup_delete_ne //. intros ->. destruct His. congruence.
  - intros m. rewrite inv_names0. destruct (decide (m = n)) as [->|Hne].
    + rewrite lookup_delete_eq Hn. split; intros (_ & md & ? & His); [|done].
      simplify_eq. rewrite Hpar in His. by destruct His.
    + by rewrite lookup_delete_ne.
  - intros m md [_ Hm]%Hdel. by apply inv_fields0.
  - intros m md p [Hne Hm]%Hdel HmX Hp. destruct (inv_parent0 m md p Hm HmX Hp) as [Hdp ?].
    split; [|done]. rewrite dom_delete_L. assert (p <> n); [|set_solver]. intros ->.
    assert (m ∈ kids (nodes f) X n) by (apply elem_of_kids; eauto). set_solver.
  - intros m1 m2 d1 d2 [_ H1]%Hdel [_ H2]%Hdel. by apply inv_uniq0.
  - intros m md [_ Hm]%Hdel. rewrite Hk. by apply inv_ref0.
  - intros m md [? Hm]%Hdel ?. eapply inv_pos0; [done|set_solver].
  - destruct inv_root0 as (? & rd & Hrd & ?). split; [done|]. exists rd. split; [|done].
    rewrite lookup_delete_ne //. intros ->. simplify_eq. lia.
  - intros m Hm. destruct (inv_lru0 m Hm) as (? & md & Hmd & ?). split; [done|]. exists md.
    assert (m <> n) by (intros ->; done). split; [by rewrite lookup_delete_ne|]. set_solver.
  - intros m md [Hne Hm]%Hdel Htl. rewrite Hk.
    destruct (inv_lock0 m md Hm Htl) as [?|(k & kd & Hkm & Hkd & ?)]; [by left|].
    right. exists k, kd. split_and!; [done| |done]. rewrite lookup_delete_ne //.
    intros <-. apply elem_of_kids in Hkm as (? & ? & ? & _). congruence.
Qed.

(** ** Dropping references *)

(** What dropping a reference to [p] leaves alone: nodes deeper than [p], every
    node the kernel knows, and all fields but the counters. *)
Record frame (p : Z) (f f' : fuse) : Prop := {
  fr_sub : forall m md', nodes f' !! m = Some md' ->
    exists md, nodes f !! m = Some md /\ md' = set_refctr md (refctr md');
  fr_keep : forall m md, nodes f !! m = Some md -> 0 < nlookup md -> is_Some (nodes f' !! m);
  fr_rank : forall m, (rank p < rank m)%nat -> nodes f' !! m = nodes f !! m;
  fr_ctr : ctr f' = ctr f /\ f_generation f' = f_generation f /\ hidectr f' = hidectr f;
  fr_lru : forall m, m ∈ lru_table f' -> m ∈ lru_table f;
}.

(** The same for an operation that also rewrites [n]. *)
Record frame_but (n : Z) (f f' : fuse) : Prop := {
  fb_sub : forall m md', m <> n -> nodes f' !! m = Some md' ->
    exists md, nodes f !! m = Some md /\ md' = set_refctr md (refctr md');
  fb_keep : forall m md, nodes f !! m = Some md -> 0 < nlookup md -> is_Some (nodes f' !! m);
  fb_rank : forall m, (rank n < rank m)%nat -> nodes f' !! m = nodes f !! m;
  fb_ctr : ctr f' = ctr f /\ f_generation f' = f_generation f /\ hidectr f' = hidectr f;
  fb_lru : forall m, m ∈ lru_table f' -> m ∈ lru_table f;
}.

Lemma set_refctr_id nd : set_refctr nd (refctr nd) = nd.
Proof. by destruct nd. Qed.

Lemma frame_trans p f1 f2 f3 : frame p f1 f2 -> frame p f2 f3 -> frame p f1 f3.
Proof.
  intros [S1 K1 R1 C1 L1] [S2 K2 R2 C2 L2]. split.
  - intros m md3 H3. destruct (S2 _ _ H3) as (md2 & H2 & E2). destruct (S1 _ _ H2) as (md1 & H1 & E1).
    exists md1. split; [done|]. rewrite E2 E1. by destruct md1.
  - intros m md H1 Hn. destruct (K1 m md H1 Hn) as [md2 H2]. apply (K2 m md2 H2).
    destruct (S1 _ _ H2) as (md1 & ? & ->). by simplify_eq.
  - intros m Hm. rewrite R2 // R1 //.
  - destruct C1 as (?&?&?), C2 as (?&?&?). split_and!; congruence.
  - auto.
Qed.

Section unref.
Context (alloc_ok : nat -> bool).

Abbreviation unref_fuel := (unref_node_fuel alloc_ok remember).

Definition unref_ok (fuel : nat) : Prop := forall X P p f,
  inv X P (Some p) f -> p ∈ dom (nodes f) -> p ∉ X -> P ⊆ X -> X ⊆ dom (nodes f) ->
  (forall x, x ∈ X -> (rank p < rank x)%nat) ->
  (base.size (nodes f) <= base.size X + fuel)%nat ->
  wp (unref_fuel fuel p) (fun _ f' => inv X P None f' /\ frame p f f') f.

Lemma wp_deref n nd (Q : node -> fuse -> Prop) f :
  nodes f !! n = Some nd -> Q nd f -> wp (deref n) Q f.
Proof. intros Hn HQ. unfold wp, deref. by rewrite Hn. Qed.

Lemma wp_update n nd g (Q : unit -> fuse -> Prop) f :
  nodes f !! n = Some nd -> Q tt (set_nodes f (<[n := g nd]> (nodes f))) -> wp (update n g) Q f.
Proof. intros Hn HQ. unfold update. apply wp_bind. eapply wp_deref; [done|]. by apply wp_modify. Qed.

Lemma wp_alloc (Q : bool -> fuse -> Prop) f :
  Q (alloc_ok (tick f)) (set_tick f (S (tick f))) -> wp (alloc alloc_ok) Q f.
Proof. done. Qed.

Lemma unhash_core fuel X P n nd f :
  unref_ok fuel ->
  inv X P None f -> nodes f !! n = Some nd -> n ∉ X -> n <> FUSE_ROOT_ID -> ~ read_locked nd ->
  X ⊆ dom (nodes f) -> (forall x, x ∈ X -> (rank n < rank x)%nat) -> P ⊆ {[n]} ∪ X ->
  (base.size (nodes f) <= S (base.size X) + fuel)%nat ->
  wp (unhash_name_with alloc_ok (unref_fuel fuel) n) (fun _ f' =>
    inv X P None f' /\ nodes f' !! n = Some (set_parent (set_name nd None) None) /\
    frame_but n f f') f.
Proof.
  intros IH Hinv Hn HX Hroot Hrl HXd HXr HP Hsz. unfold unhash_name_with.
  pose proof (inv_fields _ _ _ _ Hinv n nd Hn) as Hfld. rewrite (proj2 (Z.eqb_neq _ _) Hroot) in Hfld.
  apply wp_bind. eapply wp_deref; [done|].
  destruct (name nd) as [nm|] eqn:Hnm.
  2: { assert (parent nd = None) as Hpn.
       { destruct (parent nd) eqn:?; [|done]. destruct Hfld as [Hf _]. destruct (Hf ltac:(eauto)); done. }
       apply wp_ret. split_and!; [done| |].
       - rewrite Hn. destruct nd; cbn in *; by simplify_eq.
       - split; [|by eauto|done|done|done]. intros m md' _ Hm. exists md'. by rewrite set_refctr_id. }
  destruct (parent nd) as [p|] eqn:Hp; [|destruct Hfld as [_ Hf]; destruct (Hf ltac:(eauto)); done].
  destruct (inv_parent _ _ _ _ Hinv n nd p Hn HX Hp) as [Hpd Hpr].
  apply elem_of_dom in Hpd as [pd Hpd]. apply wp_bind. eapply wp_deref; [done|].
  apply wp_bind, wp_get.
  assert (name_raw p nm = node_raw (nodes f) n) as -> by (unfold node_raw; by rewrite Hn Hp Hnm).
  destruct (table_unlink_spec (node_raw (nodes f)) (name_table f) n (inv_name _ _ _ _ Hinv)) as [Hu _].
  destruct Hu as (t & -> & Ht & He & _).
  { apply (inv_names _ _ _ _ Hinv). split; [done|]. exists nd. split; [done|by rewrite Hp]. }
  apply wp_bind, wp_put. apply wp_bind.
  eapply wp_mono; [apply (IH ({[n]} ∪ X) P p)|].
  - by eapply inv_detach.
  - by apply elem_of_dom_2 in Hpd.
  - intros [->%elem_of_singleton|Hx]%elem_of_union; [lia|]. specialize (HXr p Hx). lia.
  - done.
  - apply elem_of_dom_2 in Hn. cbn. set_solver.
  - intros x [->%elem_of_singleton|Hx]%elem_of_union; [done|]. specialize (HXr x Hx). lia.
  - cbn. rewrite size_union; [set_solver|]. rewrite size_singleton. lia.
  - intros _ f1 [Hinv1 Hfr1].
    assert (nodes f1 !! n = Some nd) as Hn1 by (rewrite (fr_rank _ _ _ Hfr1 n Hpr); done).
    apply wp_bind. eapply wp_update; [done|]. apply wp_bind, wp_alloc, wp_modify.
    set (f2 := set_nodes f1 _).
    assert (inv X P None f2) as Hinv2 by by apply inv_clear.
    destruct (table_dec_spec (node_raw (nodes f2)) (alloc_ok (tick f2)) (name_table f2)
      (inv_name _ _ _ _ Hinv2)) as (Hd1 & Hd2 & _).
    split_and!.
    + apply (inv_name_table X P None (set_tick f2 (S (tick f2)))); [by apply inv_tick|done|done].
    + cbn. by rewrite lookup_insert_eq.
    + destruct Hfr1 as [Hs Hk Hr Hc Hl]. split; cbn.
      * intros m md' Hm. rewrite lookup_insert_ne //. apply Hs.
      * intros m md Hm Hl0. destruct (decide (m = n)) as [->|]; [by rewrite lookup_insert_eq|].
        rewrite lookup_insert_ne //. by eapply Hk.
      * intros m Hm. rewrite lookup_insert_ne; [intros ->; lia|]. apply Hr. lia.
      * done.
      * done.
Qed.

(** The end of [delete_node]: the node has no name, nothing refers to it. *)
Lemma delete_tail X P n nd f :
  inv X ({[n]} ∪ P) None f -> nodes f !! n = Some nd -> parent nd = None -> refctr nd = 0 -> n ∉ P ->
  wp ((if lru_enabled remember then remove_node_lru n else mret tt);;
      unhash_id alloc_ok n;; free_node n) (fun _ f' =>
    inv X P None f' /\ nodes f' = delete n (nodes f) /\
    (ctr f' = ctr f /\ f_generation f' = f_generation f /\ hidectr f' = hidectr f) /\
    (forall m, m ∈ lru_table f' -> m ∈ lru_table f)) f.
Proof.
  intros Hinv Hn Hpar Href HP. apply wp_bind.
  apply wp_mono with (P := fun _ f1 => inv X ({[n]} ∪ P) None f1 /\ n ∉ lru_table f1 /\
    nodes f1 = nodes f /\ id_table f1 = id_table f /\
    (ctr f1 = ctr f /\ f_generation f1 = f_generation f /\ hidectr f1 = hidectr f) /\
    (forall m, m ∈ lru_table f1 -> m ∈ lru_table f)).
  { unfold lru_enabled. destruct (Z.ltb_spec 0 remember).
    - apply wp_modify. split_and!; try done; [by apply inv_lru_remove| |]; cbn.
      + by intros [? _]%list_elem_of_filter.
      + by intros m [_ ?]%list_elem_of_filter.
    - apply wp_ret. split_and!; try done. intros Hl. destruct (inv_lru _ _ _ _ Hinv n Hl). lia. }
  intros _ f1 (Hinv1 & Hnl & Hns & Hid & Hc & Hl). apply wp_bind. unfold unhash_id.
  apply wp_bind, wp_alloc. apply wp_bind, wp_get. cbn [id_table set_tick]. rewrite Hid.
  destruct (inv_id _ _ _ _ Hinv) as (S & HS & HS1 & HS2).
  set (t' := match table_unlink (id_table f) (id_raw n) n with
             | Some t => table_dec (alloc_ok (tick f1)) t | None => id_table f end).
  assert (refines id_raw t' (S ∖ {[n]})) as Ht'.
  { unfold t'. destruct (table_unlink_spec id_raw (id_table f) n (ref_wf _ _ _ HS)) as [_ Hno].
    destruct (decide (n ∈ S)) as [HnS|HnS].
    - destruct (table_step_refines id_raw (id_table f) S (Remove n (alloc_ok (tick f1))) HS HnS)
        as (t & Ht & Hr). cbn [table_step] in Ht.
      destruct (table_unlink (id_table f) (id_raw n) n); [|done]. by injection Ht as ->.
    - rewrite Hno; [by rewrite (ref_set _ _ _ HS)|]. by replace (S ∖ {[n]}) with S by set_solver. }
  assert (inv X P None (set_nodes (set_id_table (set_tick f1 (Datatypes.S (tick f1))) t') (delete n (nodes f1)))) as Hfree.
  { apply (inv_free X P (set_tick f1 (Datatypes.S (tick f1))) n nd t'); cbn; try done.
    - by apply inv_tick.
    - by rewrite Hns.
    - rewrite Hns. exists (S ∖ {[n]}). split_and!; [done|set_solver|set_solver]. }
  unfold t' in Hfree. apply wp_mono with (P := fun _ f2 =>
    f2 = set_id_table (set_tick f1 (Datatypes.S (tick f1))) t').
  { unfold t'. destruct (table_unlink (id_table f) (id_raw n) n) as [t|].
    - by apply wp_put.
    - apply wp_ret. rewrite -Hid. by destruct f1. }
  intros _ f2 ->. apply wp_modify. split; [done|]. split; [cbn; by rewrite Hns|done].
Qed.

(** The last reference to [p] is dropped: [p] and then, possibly, its ancestors
    are deleted. *)
Lemma delete_core fuel X P p pd f :
  unref_ok fuel ->
  inv X ({[p]} ∪ P) None f -> nodes f !! p = Some pd -> refctr pd = 0 ->
  p ∉ X -> P ⊆ X -> X ⊆ dom (nodes f) -> (forall x, x ∈ X -> (rank p < rank x)%nat) ->
  (base.size (nodes f) <= base.size X + S fuel)%nat ->
  wp (delete_node_with alloc_ok remember (unref_fuel fuel) p)
     (fun _ f' => inv X P None f' /\ frame p f f') f.
Proof.
  intros IH Hinv Hp Href HX HPX HXd HXr Hsz. unfold delete_node_with.
  apply wp_bind. eapply wp_deref; [done|].
  destruct (inv_ref _ _ _ _ Hinv p pd Hp) as [Hnn Hr]. rewrite Href bool_decide_false // in Hr.
  assert (nlookup pd = 0 /\ kids (nodes f) X p = ∅) as [Hnl Hk].
  { destruct (Z.ltb_spec 0 (nlookup pd)); cbn in Hr; [lia|]. split; [lia|].
    apply leibniz_equiv, size_empty_inv. lia. }
  assert (treelock pd = 0) as Htl.
  { destruct (decide (treelock pd = 0)) as [|Hne]; [done|].
    destruct (inv_lock _ _ _ _ Hinv p pd Hp Hne) as [?|(k & kd & Hkk & _)]; [lia|set_solver]. }
  assert (p <> FUSE_ROOT_ID) as Hroot.
  { intros ->. destruct (inv_root _ _ _ _ Hinv) as (_ & rd & ? & ?). simplify_eq. lia. }
  apply wp_bind, wp_assert; [by rewrite Htl|]. apply wp_bind.
  eapply wp_mono; [eapply (unhash_core fuel X ({[p]} ∪ P) p pd)|]; try done.
  - unfold read_locked. rewrite Htl. tauto.
  - set_solver.
  - lia.
  - intros _ f1 (Hinv1 & Hp1 & Hfb).
    eapply wp_mono; [eapply (delete_tail X P p); [done|done|done|done|set_solver]|].
    intros _ f2 (Hinv2 & Hns & Hc & Hl). split; [done|].
    destruct Hfb as [Hs Hkeep Hrk Hc1 Hl1]. split; rewrite ?Hns.
    + intros m md' [? Hm]%lookup_delete_Some. by eapply Hs.
    + intros m md Hm Hpos. assert (m <> p) by (intros ->; simplify_eq; lia).
      rewrite lookup_delete_ne //. by eapply Hkeep.
    + intros m Hm. rewrite lookup_delete_ne; [intros ->; lia|]. by apply Hrk.
    + destruct Hc as (-> & -> & ->). done.
    + auto.
Qed.

Lemma unref_spec fuel : unref_ok fuel.
Proof.
  induction fuel as [|fuel IH]; intros X P p f Hinv Hpd HX HPX HXd HXr Hsz.
  { exfalso. assert (base.size ({[p]} ∪ X) <= base.size (dom (nodes f)))%nat
      by (apply subseteq_size; set_solver).
    rewrite size_union in H; [set_solver|]. rewrite size_singleton size_dom in H. lia. }
  apply elem_of_dom in Hpd as [pd Hp]. cbn [unref_node_fuel].
  destruct (inv_ref _ _ _ _ Hinv p pd Hp) as [Hnn Hr]. rewrite bool_decide_true // in Hr. cbn in Hr.
  apply wp_bind. eapply wp_deref; [done|].
  assert (0 < refctr pd) by (unfold int_of_bool in Hr; destruct (0 <? nlookup pd); lia).
  apply wp_bind, wp_assert; [by apply Z.ltb_lt|]. apply wp_bind, wp_modify.
  set (pd' := set_refctr pd (refctr pd - 1)). set (f1 := set_nodes f _).
  assert (p ∉ P) as HpP by set_solver.
  assert (forall P', (forall m, m ∈ P -> m ∈ P') -> (p ∉ P' -> 0 < refctr pd - 1) -> inv X P' None f1) as Hinv1.
  { intros P' HPP HP'. eapply inv_write; try done; cbn.
    - rewrite Hr. unfold int_of_bool. rewrite bool_decide_false //. destruct (0 <? nlookup pd); lia.
    - intros m Hm. split; [|done]. intros [= ->]. done.
    - auto.
    - intros m Hm HmP HmP'. apply HmP. auto.
    - intros Hl _. destruct (inv_lru _ _ _ _ Hinv p Hl) as (_ & md & ? & Hone). simplify_eq. apply Hone. auto.
    - intros ->. destruct (inv_root _ _ _ _ Hinv) as (_ & rd & ? & ?). by simplify_eq.
    - by apply (inv_lock _ _ _ _ Hinv). }
  assert (frame p f f1) as Hfr1.
  { split; cbn; try done.
    - intros m md'. destruct (decide (m = p)) as [->|Hne].
      + rewrite lookup_insert_eq. intros [= <-]. by exists pd.
      + rewrite lookup_insert_ne //. intros ?. exists md'. by rewrite set_refctr_id.
    - intros m md Hm _. destruct (decide (m = p)) as [->|Hne]; [by rewrite lookup_insert_eq|].
      rewrite lookup_insert_ne //; eauto.
    - intros m Hm. rewrite lookup_insert_ne //. intros ->. lia. }
  destruct (Z.eqb_spec (refctr pd - 1) 0) as [Hz|Hnz].
  - eapply wp_mono; [apply (delete_core fuel X P p pd' f1); try done|].
    + apply Hinv1; [set_solver|]. cbn; set_solver.
    + cbn. by rewrite lookup_insert_eq.
    + cbn. rewrite dom_insert_L. set_solver.
    + cbn. by rewrite map_size_insert_Some.
    + intros _ f2 [? Hfr2]. split; [done|]. by eapply frame_trans.
  - apply wp_ret. split; [|done]. apply Hinv1; [done|lia].
Qed.
End unref.
End inv.
