(* ===== verification/NodeOps.v ===== *)
(** * Operations on the node store ([lib/fuse.c]): correctness

    Lookup, creation, forgetting, renaming and removal of nodes keep the node
    store consistent: the two hash tables index exactly the live nodes, every
    reference count is the number of references, no node is freed while it is
    referred to and none is kept without a reference. *)
From S2P Require Import Prelude Locks NodeTable Node.

(** What holds whenever [f->lock] is free. *)
Definition consistent (remember : Z) (f : fuse) : Prop :=
  exists rank, inv remember rank ∅ ∅ None f.

(** The fields a change of one name leaves alone. *)
(** The fields of a node that the operations on names and counters leave alone. *)
Definition soft (nd : node) :=
  (open_count nd, stat_updated nd, mtime nd, st_size nd, locks nd, is_hidden nd, cache_valid nd, treelock nd).

Definition same_env (f f' : fuse) : Prop :=
  id_table f' = id_table f /\ lru_table f' = lru_table f /\ ctr f' = ctr f /\
  f_generation f' = f_generation f /\ hidectr f' = hidectr f.

Section ops.
Context (alloc_ok : nat -> bool) (remember : Z).
Implicit Types (rank : Z -> nat) (f : fuse) (n m p : Z) (nm : cstring).

Abbreviation inv := (inv remember).

(** ** Search *)

(** [n] is the child [nm] of [p]. *)
Definition named f p nm n : Prop :=
  exists nd, nodes f !! n = Some nd /\ parent nd = Some p /\ name nd = Some nm.

Lemma is_named_true f p nm n : is_named f p nm n = true <-> named f p nm n.
Proof.
  unfold is_named, named. destruct (nodes f !! n) as [nd|] eqn:Hn.
  - rewrite andb_true_iff !bool_decide_eq_true. naive_solver.
  - naive_solver.
Qed.

Lemma lookup_node_spec rank P e f p nm n :
  inv rank ∅ P e f -> lookup_node f p nm = Some n <-> named f p nm n.
Proof.
  intros Hinv. unfold lookup_node.
  pose proof (table_find_spec (node_raw (nodes f)) (name_table f) (name_raw p nm) (is_named f p nm)
    (inv_name _ _ _ _ _ _ Hinv)) as Hfind.
  destruct (table_find _ _ _) as [m|].
  - destruct Hfind as [Hm Hnm].
    { intros k _ (kd & Hk & Hp & Hkn)%is_named_true. unfold node_raw. by rewrite Hk Hp Hkn. }
    apply is_named_true in Hnm. split; [by intros [= <-]|].
    intros (nd & Hn & Hp & Hnn). destruct Hnm as (md & Hmd & Hmp & Hmn). f_equal.
    apply (inv_uniq _ _ _ _ _ _ Hinv m n md nd); [done|done|set_solver|set_solver|..]; congruence || eauto.
  - split; [done|]. intros Hnm. exfalso.
    assert (is_named f p nm n = false) as Hf.
    { apply Hfind.
      - intros k _ (kd & Hk & Hp & Hkn)%is_named_true. unfold node_raw. by rewrite Hk Hp Hkn.
      - apply (inv_names _ _ _ _ _ _ Hinv). split; [set_solver|].
        destruct Hnm as (nd & ? & Hp & _). exists nd. rewrite Hp. eauto. }
    apply not_true_iff_false in Hf. by apply Hf, is_named_true.
Qed.

Lemma lookup_node_None rank P e f p nm :
  inv rank ∅ P e f -> lookup_node f p nm = None <-> (forall n, ~ named f p nm n).
Proof.
  intros Hinv. destruct (lookup_node f p nm) as [m|] eqn:Hl.
  - split; [done|]. intros H. by apply (lookup_node_spec _ _ _ _ _ _ _ Hinv), H in Hl.
  - split; [|done]. intros _ n Hn%(lookup_node_spec _ _ _ _ _ _ _ Hinv). congruence.
Qed.

Lemma get_node_nocheck_spec f S n :
  refines id_raw (id_table f) S ->
  get_node_nocheck f n = if bool_decide (n ∈ S) then Some n else None.
Proof.
  intros HS. unfold get_node_nocheck.
  pose proof (table_find_spec id_raw (id_table f) (id_raw n) (fun m => m =? n) (ref_wf _ _ _ HS)) as Hf.
  destruct (table_find _ _ _) as [m|].
  - destruct Hf as [Hm Heq]; [by intros k _ ->%Z.eqb_eq|]. apply Z.eqb_eq in Heq as ->.
    rewrite bool_decide_true //. by apply (ref_set _ _ _ HS).
  - rewrite bool_decide_false //. intros Hn%(ref_set _ _ _ HS).
    assert ((n =? n) = false) as Hnn by (apply Hf; [by intros k _ ->%Z.eqb_eq|done]).
    by rewrite Z.eqb_refl in Hnn.
Qed.

Lemma get_node_wp rank P e f n nd (Q : Z -> fuse -> Prop) :
  inv rank ∅ P e f -> nodes f !! n = Some nd -> n ∉ P -> Q n f -> wp (get_node n) Q f.
Proof.
  intros Hinv Hn HP HQ. destruct (inv_id _ _ _ _ _ _ Hinv) as (S & HS & _ & HSP).
  unfold wp, get_node. rewrite (get_node_nocheck_spec f S n HS) bool_decide_true //.
  apply HSP. apply elem_of_dom_2 in Hn. set_solver.
Qed.

(** Any depth function will do. *)
Lemma inv_rank_change rank rank' X P e f :
  inv rank X P e f ->
  (forall n nd p, nodes f !! n = Some nd -> n ∉ X -> parent nd = Some p -> (rank' p < rank' n)%nat) ->
  inv rank' X P e f.
Proof.
  intros [] Hr. split; try done. intros n nd p Hn HX Hp. split; [by eapply inv_parent|by eapply Hr].
Qed.

(** ** Giving a node a place in the tree *)

(** The nodes after [hash_name(n, p, nm)]. *)
Definition attach (ns : gmap Z node) n (nd : node) p (pd : node) nm : gmap Z node :=
  <[n := set_parent (set_name nd (Some nm)) (Some p)]> (<[p := set_refctr pd (refctr pd + 1)]> ns).

Lemma lookup_attach ns n nd p pd nm m :
  attach ns n nd p pd nm !! m =
  if m =? n then Some (set_parent (set_name nd (Some nm)) (Some p))
  else if m =? p then Some (set_refctr pd (refctr pd + 1)) else ns !! m.
Proof.
  unfold attach. destruct (Z.eqb_spec m n) as [->|]; [by rewrite lookup_insert_eq|].
  rewrite lookup_insert_ne //. destruct (Z.eqb_spec m p) as [->|]; [by rewrite lookup_insert_eq|].
  by rewrite lookup_insert_ne.
Qed.

(** What the nodes of [attach] were before. *)
Lemma attach_old ns n nd p pd nm m md :
  ns !! n = Some nd -> ns !! p = Some pd -> n <> p ->
  attach ns n nd p pd nm !! m = Some md ->
  exists md0, ns !! m = Some md0 /\ nlookup md = nlookup md0 /\ treelock md = treelock md0 /\
    (m <> n -> parent md = parent md0 /\ name md = name md0) /\
    (m = n -> parent md = Some p /\ name md = Some nm) /\
    refctr md = refctr md0 + int_of_bool (m =? p).
Proof.
  intros Hn Hp Hne. rewrite lookup_attach. destruct (Z.eqb_spec m n) as [->|Hmn].
  - intros [= <-]. exists nd. rewrite (proj2 (Z.eqb_neq n p) Hne). cbn. split_and!; try done. lia.
  - destruct (Z.eqb_spec m p) as [->|Hmp].
    + intros [= <-]. exists pd. by split_and!.
    + intros Hm. exists md. cbn. split_and!; try done. lia.
Qed.

Lemma kids_attach ns n nd p pd nm q :
  ns !! n = Some nd -> ns !! p = Some pd -> n <> p -> parent nd = None ->
  kids (attach ns n nd p pd nm) ∅ q = if q =? p then {[n]} ∪ kids ns ∅ q else kids ns ∅ q.
Proof.
  intros Hn Hp Hne Hpar.
  assert (forall k, k ∈ kids (attach ns n nd p pd nm) ∅ q <-> (k = n /\ q = p) \/ k ∈ kids ns ∅ q) as Hk.
  { intros k. rewrite !elem_of_kids. split.
    - intros (kd & Hk & Hkp & _). destruct (attach_old _ _ _ _ _ _ _ _ Hn Hp Hne Hk)
        as (k0 & Hk0 & _ & _ & Ha & Hb & _).
      destruct (decide (k = n)) as [->|Hkn].
      + left. destruct Hb as [Hb _]; [done|]. split; [done|congruence].
      + right. exists k0. destruct (Ha Hkn) as [? _]. split_and!; [done|congruence|set_solver].
    - intros [[-> ->]|(kd & Hk & Hkp & _)].
      + eexists. rewrite lookup_attach Z.eqb_refl. split_and!; [done..|set_solver].
      + rewrite lookup_attach. destruct (Z.eqb_spec k n) as [->|]; [congruence|].
        destruct (Z.eqb_spec k p) as [->|].
        * eexists. split_and!; [done| |set_solver]. cbn. congruence.
        * exists kd. split_and!; [done..|set_solver]. }
  apply set_eq. intros k. rewrite Hk. destruct (Z.eqb_spec q p); set_solver.
Qed.

Lemma inv_attach rank P f n nd p pd nm t :
  inv rank ∅ P None f -> nodes f !! n = Some nd -> parent nd = None -> n <> FUSE_ROOT_ID ->
  nodes f !! p = Some pd -> (rank p < rank n)%nat -> (forall m, ~ named f p nm m) ->
  let ns := attach (nodes f) n nd p pd nm in
  table_wf (node_raw ns) t -> entries t ≡ₚ n :: entries (name_table f) ->
  inv rank ∅ P None (set_name_table (set_nodes f ns) t).
Proof.
  intros Hinv Hn Hpar Hroot Hp Hrank Huniq ns Ht He. assert (n <> p) as Hne by (intros ->; lia).
  assert (forall m md, ns !! m = Some md -> _) as Hold by (intros m md; by apply (attach_old (nodes f) n nd p pd nm)).
  pose proof (fun q => kids_attach (nodes f) n nd p pd nm q Hn Hp Hne Hpar) as Hk. fold ns in Hk.
  assert (dom ns = dom (nodes f)) as Hd.
  { unfold ns, attach. rewrite !dom_insert_L. apply elem_of_dom_2 in Hn, Hp. set_solver. }
  assert (n ∉ kids (nodes f) ∅ p) as Hnk by (intros (kd & ? & ? & _)%elem_of_kids; congruence).
  destruct Hinv. split; cbn [id_table name_table lru_table nodes set_nodes set_name_table]; rewrite ?Hd; try done.
  - rewrite He. apply list.NoDup_cons. split; [|done]. intros (_ & nd0 & ? & His)%inv_names.
    simplify_eq. rewrite Hpar in His. by destruct His.
  - intros m. rewrite He elem_of_cons inv_names. unfold ns. rewrite lookup_attach. split.
    + intros [->|(? & md & Hm & His)].
      * rewrite Z.eqb_refl. split; [set_solver|]. eexists. by split.
      * split; [done|]. destruct (Z.eqb_spec m n) as [->|]; [eexists; by split|].
        destruct (Z.eqb_spec m p) as [->|]; [eexists; split; [done|]; cbn; congruence|eauto].
    + intros (? & md & Hm & His). destruct (Z.eqb_spec m n) as [->|]; [by left|right].
      split; [done|]. destruct (Z.eqb_spec m p) as [->|]; [|eauto]. simplify_eq. eauto.
  - intros m md Hm. destruct (Hold m md Hm) as (md0 & Hm0 & _ & _ & Ha & Hb & _).
    destruct (decide (m = n)) as [->|Hmn].
    + destruct Hb as [-> ->]; [done|]. rewrite (proj2 (Z.eqb_neq _ _) Hroot). split; eauto.
    + destruct (Ha Hmn) as [-> ->]. by apply inv_fields.
  - intros m md q Hm HX Hq. destruct (Hold m md Hm) as (md0 & Hm0 & _ & _ & Ha & Hb & _).
    destruct (decide (m = n)) as [->|Hmn].
    + destruct Hb as [Hb _]; [done|]. assert (q = p) as -> by congruence. split; [|done].
      by apply elem_of_dom_2 in Hp.
    + destruct (Ha Hmn) as [Hq0 _]. apply (inv_parent m md0 q Hm0 HX). congruence.
  - intros m1 m2 d1 d2 H1 H2 _ _ His Hpp Hnn.
    destruct (Hold _ _ H1) as (e1 & E1 & _ & _ & A1 & B1 & _), (Hold _ _ H2) as (e2 & E2 & _ & _ & A2 & B2 & _).
    destruct (decide (m1 = n)) as [->|N1], (decide (m2 = n)) as [->|N2]; [done| | |].
    + destruct (B1 eq_refl) as [? ?], (A2 N2) as [? ?]. destruct (Huniq m2). exists e2. split_and!; congruence.
    + destruct (B2 eq_refl) as [? ?], (A1 N1) as [? ?]. destruct (Huniq m1). exists e1. split_and!; congruence.
    + destruct (A1 N1) as [? ?], (A2 N2) as [? ?].
      apply (inv_uniq m1 m2 e1 e2); [done|done|set_solver|set_solver|congruence..].
  - intros m md Hm. destruct (Hold m md Hm) as (md0 & Hm0 & -> & _ & _ & _ & ->).
    destruct (inv_ref m md0 Hm0) as [? ->]. split; [done|]. rewrite Hk.
    destruct (Z.eqb_spec m p) as [->|]; cbn; [|lia].
    rewrite size_union; [set_solver|]. rewrite size_singleton. lia.
  - intros m md Hm HP. destruct (Hold m md Hm) as (md0 & Hm0 & _ & _ & _ & _ & ->).
    specialize (inv_pos m md0 Hm0 HP). unfold int_of_bool. destruct (m =? p); lia.
  - destruct inv_root as (? & rd & Hrd & ?). split; [done|]. unfold ns. rewrite lookup_attach.
    destruct (Z.eqb_spec FUSE_ROOT_ID n); [congruence|]. destruct (Z.eqb_spec FUSE_ROOT_ID p); [|eauto].
    simplify_eq. eexists. by split.
  - intros m Hm. destruct (inv_lru m Hm) as (? & md & Hmd & Hone). split; [done|].
    unfold ns. rewrite lookup_attach. destruct (Z.eqb_spec m n) as [->|].
    { simplify_eq. eexists. by split. }
    destruct (Z.eqb_spec m p) as [->|]; [|eauto]. simplify_eq. eexists. by split.
  - intros m md Hm Htl. destruct (Hold m md Hm) as (md0 & Hm0 & Hnl & Htl0 & _). rewrite Hnl.
    rewrite Htl0 in Htl. destruct (inv_lock m md0 Hm0 Htl) as [?|(k & kd & Hkm & Hkd & Hrk)]; [by left|].
    right. assert (exists kd', ns !! k = Some kd' /\ treelock kd' = treelock kd) as (kd' & ? & Hkt).
    { unfold ns. rewrite lookup_attach. destruct (Z.eqb_spec k n) as [->|]; [simplify_eq; eexists; by split|].
      destruct (Z.eqb_spec k p) as [->|]; [simplify_eq; eexists; by split|eauto]. }
    exists k, kd'. split_and!; [|done|]. { rewrite Hk. destruct (m =? p); set_solver. }
    unfold read_locked in *. by rewrite Hkt.
Qed.

Lemma set_name_None nd : name nd = None -> set_name nd None = nd.
Proof. destruct nd; cbn. by intros ->. Qed.

(** The last allocation has failed. *)
Definition last_alloc_failed (f : fuse) : Prop := exists k, tick f = S k /\ alloc_ok k = false.

Lemma hash_name_wp rank P f n nd p pd nm :
  inv rank ∅ P None f -> nodes f !! n = Some nd -> parent nd = None -> name nd = None ->
  n <> FUSE_ROOT_ID -> nodes f !! p = Some pd -> p ∉ P -> (rank p < rank n)%nat ->
  (forall m, ~ named f p nm m) ->
  wp (hash_name alloc_ok n p nm) (fun r f' =>
    inv rank ∅ P None f' /\ same_env f f' /\
    (r = -1 /\ 32 <= strlen nm /\ nodes f' = nodes f /\ name_table f' = name_table f /\ last_alloc_failed f' \/
     r = 0 /\ nodes f' = attach (nodes f) n nd p pd nm)) f.
Proof.
  intros Hinv Hn Hpar Hnm Hroot Hp HP Hrank Hu. unfold hash_name. apply wp_bind.
  eapply get_node_wp; [done..|]. apply wp_bind.
  apply wp_mono with (P := fun ok f1 => (exists k, f1 = set_tick f k) /\ (ok = false -> 32 <= strlen nm /\ last_alloc_failed f1)).
  { destruct (Z.ltb_spec (strlen nm) 32).
    - apply wp_ret. split; [|done]. exists (tick f). by destruct f.
    - apply wp_alloc. split; [by eexists|]. intros Hok. split; [lia|]. by exists (tick f). }
  intros ok f1 [[k ->] Hlen]. destruct ok; cbn [negb].
  2: { destruct (Hlen eq_refl) as [??]. apply wp_bind. eapply wp_update; [done|]. rewrite set_name_None //. cbn.
       rewrite insert_id //. apply wp_ret. split_and!; [by destruct Hinv|by destruct f|].
       left. split_and!; auto. }
  assert (n <> p) as Hne by (intros ->; lia).
  apply wp_bind. eapply wp_update; [done|]. apply wp_bind.
  eapply wp_update; [cbn; rewrite lookup_insert_ne //|]. apply wp_bind.
  eapply wp_update; [cbn; rewrite lookup_insert_ne //; by rewrite lookup_insert_eq|].
  apply wp_bind, wp_alloc. apply wp_bind, wp_modify, wp_ret. cbn [nodes name_table set_nodes set_tick].
  rewrite (insert_insert_ne _ p n) // insert_insert_eq.
  match goal with |- context [table_insert (node_raw ?x)] =>
    change x with (attach (nodes f) n nd p pd nm) end.
  assert (table_wf (node_raw (attach (nodes f) n nd p pd nm)) (name_table f)) as Hwf.
  { eapply table_wf_ext; [|apply (inv_name _ _ _ _ _ _ Hinv)].
    intros m (_ & md & Hm & His)%(inv_names _ _ _ _ _ _ Hinv). unfold node_raw. rewrite lookup_attach.
    destruct (Z.eqb_spec m n) as [->|]; [simplify_eq; rewrite Hpar in His; by destruct His|].
    destruct (Z.eqb_spec m p) as [->|]; [|done]. by rewrite Hp. }
  edestruct (table_insert_spec _ (alloc_ok k) _ n Hwf) as (H1 & H2 & _).
  split_and!; try done; [|by right].
  match goal with |- Node.inv _ _ _ _ _ ?F => change F with
    (set_name_table (set_nodes (set_tick f (S k)) (attach (nodes f) n nd p pd nm))
      (table_insert (node_raw (attach (nodes f) n nd p pd nm)) (alloc_ok k) (name_table f) n)) end.
  by apply (inv_attach rank P (set_tick f (S k))); [apply inv_tick|..].
Qed.

(** ** Lookup counts *)

Lemma inc_nlookup_wp rank P P' f n nd :
  inv rank ∅ P None f -> nodes f !! n = Some nd -> nlookup nd < SIZE_MAX ->
  n ∉ lru_table f -> n ∈ entries (id_table f) \/ n ∉ P -> (forall m, m <> n -> m ∈ P -> m ∈ P') ->
  exists nd', nlookup nd' = nlookup nd + 1 /\ parent nd' = parent nd /\ name nd' = name nd /\
    generation nd' = generation nd /\ soft nd' = soft nd /\
  wp (inc_nlookup n) (fun _ f' => inv rank ∅ P' None f' /\
    f' = set_nodes f (<[n := nd']> (nodes f))) f.
Proof.
  intros Hinv Hn Hmax Hlru Hid HPP. destruct (inv_ref _ _ _ _ _ _ Hinv n nd Hn) as [Hnn Hr].
  set (nd' := set_nlookup (if nlookup nd =? 0 then set_refctr nd (refctr nd + 1) else nd)
                          (u64 (nlookup nd + 1))).
  assert (u64 (nlookup nd + 1) = nlookup nd + 1) as Hu.
  { apply wrap_small. unfold SIZE_MAX in *. lia. }
  assert (nlookup nd' = nlookup nd + 1) as Hn' by exact Hu.
  assert (treelock nd' = treelock nd) as Htl by (unfold nd'; by destruct (nlookup nd =? 0)).
  assert (refctr nd' = 1 + Z.of_nat (base.size (kids (nodes f) ∅ n))) as Href.
  { unfold nd'. rewrite bool_decide_false // in Hr. unfold int_of_bool in Hr.
    destruct (Z.eqb_spec (nlookup nd) 0); cbn; destruct (Z.ltb_spec 0 (nlookup nd)); lia. }
  exists nd'. split_and!; try done; try (unfold nd'; by destruct (nlookup nd =? 0)).
  unfold inc_nlookup. eapply wp_update; [done|]. fold nd'.
  match goal with |- context [<[n := ?x]> (nodes f)] =>
    assert (x = nd') as -> by (unfold nd'; by destruct (nlookup nd =? 0)) end.
  split; [|done]. eapply inv_write; try done; rewrite ?Hn'; try lia.
  - unfold nd'; by destruct (nlookup nd =? 0).
  - unfold nd'; by destruct (nlookup nd =? 0).
  - rewrite Href bool_decide_false //. destruct (Z.ltb_spec 0 (nlookup nd + 1)); [cbn; lia|lia].
  - intros _. split; [lia|tauto].
  - intros m Hm HmP HmP2. apply HmP. auto.
  - unfold read_locked. by rewrite Htl.
Qed.

(** ** New ids *)

Definition id_space : Z := 4294967296.

(** The position of the counter in the sequence of (generation, id) pairs. *)
Definition id_clock f : Z := f_generation f * id_space + ctr f.

Definition id_taken f (x : Z) : Prop := x = 0 \/ x = FUSE_UNKNOWN_INO \/ x ∈ dom (nodes f).

Lemma succ_id c : 0 <= c < id_space -> Z.land (u64 (c + 1)) 4294967295 = (c + 1) mod id_space.
Proof.
  intros Hc. unfold id_space in *. rewrite wrap_small; [lia|].
  change 4294967295 with (Z.ones 32). by rewrite Z.land_ones.
Qed.

(** The counters are 32-bit. *)
Definition counters_ok f : Prop := 0 <= ctr f < id_space /\ 0 <= f_generation f < id_space.

(** One turn of the loop: the pair (generation, counter) is incremented as one
    64-bit number. *)
Definition id_step f : fuse :=
  let f := set_ctr f (Z.land (u64 (ctr f + 1)) 4294967295) in
  if ctr f =? 0 then set_f_generation f (u32 (f_generation f + 1)) else f.

Lemma id_step_clock f :
  counters_ok f ->
  counters_ok (id_step f) /\ ctr (id_step f) = (ctr f + 1) mod id_space /\
  id_clock (id_step f) = (id_clock f + 1) mod (id_space * id_space).
Proof.
  intros [Hc Hg]. unfold id_step. rewrite succ_id //. cbn [ctr set_ctr].
  destruct (decide (ctr f = id_space - 1)) as [He|He].
  - assert ((ctr f + 1) mod id_space = 0) as -> by by rewrite He. cbn.
    assert (0 <= u32 (f_generation f + 1) < id_space) by by apply Z.mod_pos_bound.
    split; [done|]. split; [done|]. unfold id_clock; cbn [ctr f_generation set_f_generation set_ctr].
    rewrite He Z.add_0_r.
    replace (f_generation f * id_space + (id_space - 1) + 1) with ((f_generation f + 1) * id_space) by lia.
    by rewrite Z.mul_mod_distr_r.
  - assert ((ctr f + 1) mod id_space = ctr f + 1) as -> by (apply Z.mod_small; lia).
    destruct (Z.eqb_spec (ctr f + 1) 0); [lia|]. split; [split; cbn; lia|]. split; [done|].
    unfold id_clock; cbn [ctr f_generation set_ctr]. rewrite Z.mod_small; unfold id_space in *; lia.
Qed.

Lemma id_step_eq f : exists g, id_step f = set_f_generation (set_ctr f (ctr (id_step f))) g.
Proof.
  unfold id_step. cbn [ctr set_ctr]. destruct (_ =? 0); [by eexists|].
  exists (f_generation f). by destruct f.
Qed.

Lemma inv_counters rank X P e f c g :
  inv rank X P e f -> inv rank X P e (set_f_generation (set_ctr f c) g).
Proof. by intros []. Qed.

Lemma id_clock_add f f1 f2 k :
  id_clock f1 = (id_clock f + 1) mod (id_space * id_space) ->
  id_clock f2 = (id_clock f1 + k) mod (id_space * id_space) ->
  id_clock f2 = (id_clock f + (k + 1)) mod (id_space * id_space).
Proof.
  intros H1 ->. rewrite H1 Z.add_mod_idemp_l; [done|]. f_equal. lia.
Qed.

Lemma next_id_loop_wp rank fuel : forall f,
  inv rank ∅ ∅ None f -> counters_ok f ->
  (exists i, (i < fuel)%nat /\ ~ id_taken f ((ctr f + 1 + Z.of_nat i) mod id_space)) ->
  wp (next_id_loop fuel) (fun n f' => ~ id_taken f n /\ ctr f' = n /\ counters_ok f' /\
    (exists g, f' = set_f_generation (set_ctr f n) g) /\
    (exists k, 1 <= k <= Z.of_nat fuel /\
       id_clock f' = (id_clock f + k) mod (id_space * id_space))) f.
Proof.
  induction fuel as [|fuel IH]; intros f Hinv Hc (i & Hi & Hfree); [lia|].
  cbn [next_id_loop]. apply wp_bind, wp_modify. apply wp_bind, wp_modify. apply wp_bind, wp_get.
  match goal with |- wp (if (ctr ?x =? 0) || _ || _ then _ else _) _ _ =>
    change x with (id_step f) end.
  destruct (id_step_clock f Hc) as (Hc1 & Hctr & Hclk). destruct (id_step_eq f) as [g Hg].
  assert (nodes (id_step f) = nodes f) as Hns by by rewrite Hg.
  assert (inv rank ∅ ∅ None (id_step f)) as Hinv1 by (rewrite Hg; by apply inv_counters).
  destruct (_ || _ || _) eqn:Htest.
  - destruct i as [|i].
    { exfalso. apply Hfree. rewrite Z.add_0_r -Hctr. unfold id_taken.
      apply orb_true_iff in Htest as [Ht|Ht].
      - apply orb_true_iff in Ht as [Ht|Ht]; apply Z.eqb_eq in Ht; auto.
      - right; right. apply bool_decide_eq_true in Ht.
        destruct (inv_id _ _ _ _ _ _ Hinv1) as (S & HS & Hsub & _).
        rewrite (get_node_nocheck_spec _ S _ HS) in Ht. case_bool_decide; [|done].
        rewrite -Hns. by apply Hsub. }
    eapply wp_mono; [apply (IH (id_step f)); [done|done|]|].
    + exists i. split; [lia|]. unfold id_taken in *. rewrite Hns Hctr.
      intros H. apply Hfree. revert H. rewrite -(Z.add_assoc _ 1) Z.add_mod_idemp_l; [done|].
      replace (ctr f + 1 + Z.of_nat (S i)) with (ctr f + 1 + (1 + Z.of_nat i)) by lia. done.
    + intros n f' (Hnt & Hcf & Hok & [g' Hf'] & k & Hk & Hclk'). unfold id_taken in *. rewrite Hns in Hnt.
      split_and!; [done..| |].
      * exists g'. rewrite Hf' Hg. done.
      * exists (k + 1). split; [lia|]. by eapply id_clock_add.
  - apply wp_ret. apply orb_false_iff in Htest as [Ht Ht3]. apply orb_false_iff in Ht as [Ht1 Ht2].
    apply Z.eqb_neq in Ht1, Ht2. apply bool_decide_eq_false in Ht3. split_and!; [|done|done|by exists g|].
    + intros [?|[?|Hin]]; [done|done|]. apply Ht3.
      destruct (inv_id _ _ _ _ _ _ Hinv1) as (S & HS & _ & Hsub).
      rewrite (get_node_nocheck_spec _ S _ HS) bool_decide_true //. apply Hsub. rewrite Hns. set_solver.
    + exists 1. split; [lia|done].
Qed.

(** Among [size + 3] consecutive ids one is free. *)
Lemma free_id_exists f :
  Z.of_nat (base.size (nodes f)) + 3 <= id_space ->
  exists i, (i < base.size (nodes f) + 3)%nat /\ ~ id_taken f ((ctr f + 1 + Z.of_nat i) mod id_space).
Proof.
  intros Hsz. set (k := (base.size (nodes f) + 3)%nat).
  set (cand := (fun i => (ctr f + 1 + Z.of_nat i) mod id_space) <$> seq 0 k).
  set (bad := {[0; FUSE_UNKNOWN_INO]} ∪ dom (nodes f) : gset Z).
  destruct (decide (Exists (fun i => (ctr f + 1 + Z.of_nat i) mod id_space ∉ bad) (seq 0 k))) as [He|Hne].
  { apply Exists_exists in He as (i & Hin & Hi). apply list_elem_of_In, elem_of_seq in Hin.
    exists i. split; [lia|]. unfold id_taken, bad in *. set_solver. }
  exfalso. assert (NoDup cand) as Hnd.
  { apply NoDup_fmap_2_strong; [|apply NoDup_seq]. intros x y Hx%elem_of_seq Hy%elem_of_seq Hxy.
    assert (Z.of_nat x - Z.of_nat y = 0); [|lia].
    assert ((Z.of_nat x - Z.of_nat y) mod id_space = 0) as Hm.
    { replace (Z.of_nat x - Z.of_nat y) with ((ctr f + 1 + Z.of_nat x) - (ctr f + 1 + Z.of_nat y)) by lia.
      rewrite Zminus_mod Hxy Z.sub_diag. done. }
    apply Z.mod_divide in Hm as [q Hq]; [|done]. unfold id_space in *. lia. }
  assert (list_to_set cand ⊆ bad) as Hsub.
  { intros x (i & -> & Hi)%elem_of_list_to_set%list_elem_of_fmap. apply dec_stable. intros Hx.
    apply Hne, Exists_exists. exists i. split; [by apply list_elem_of_In|done]. }
  apply subseteq_size in Hsub. rewrite size_list_to_set // length_fmap length_seq in Hsub.
  assert (base.size bad <= base.size (nodes f) + 2)%nat; [|lia].
  unfold bad. rewrite -size_dom.
  rewrite size_union_alt.
  assert (base.size ({[0; FUSE_UNKNOWN_INO]} : gset Z) = 2%nat) as -> by done.
  pose proof (subseteq_size (dom (nodes f) ∖ {[0; FUSE_UNKNOWN_INO]}) (dom (nodes f)) ltac:(set_solver)). lia.
Qed.

Lemma next_id_wp rank f :
  inv rank ∅ ∅ None f -> counters_ok f -> Z.of_nat (base.size (nodes f)) + 3 <= id_space ->
  wp next_id (fun n f' => ~ id_taken f n /\ ctr f' = n /\ counters_ok f' /\
    (exists g, f' = set_f_generation (set_ctr f n) g) /\
    (exists k, 1 <= k <= Z.of_nat (base.size (nodes f)) + 3 /\
       id_clock f' = (id_clock f + k) mod (id_space * id_space))) f.
Proof.
  intros Hinv Hc Hsz. unfold next_id. apply wp_bind, wp_get.
  eapply wp_mono; [by eapply next_id_loop_wp, free_id_exists|].
  intros n f' (? & ? & ? & ? & k & ? & ?). split_and!; try done. exists k. split; [lia|done].
Qed.

(** ** Creation *)

Lemma inv_new rank f n p nd :
  inv rank ∅ ∅ None f -> n ∉ dom (nodes f) -> parent nd = None -> name nd = None -> treelock nd = 0 ->
  0 <= nlookup nd <= SIZE_MAX -> refctr nd = int_of_bool (0 <? nlookup nd) ->
  inv (fun m => if m =? n then S (rank p) else rank m) ∅ {[n]} None
      (set_nodes f (<[n := nd]> (nodes f))).
Proof.
  intros Hinv Hn Hpar Hname Htl Hnl Href.
  assert (n <> FUSE_ROOT_ID) as Hroot.
  { intros ->. destruct (inv_root _ _ _ _ _ _ Hinv) as (_ & rd & Hrd & _). by apply elem_of_dom_2 in Hrd. }
  assert (forall m md q, nodes f !! m = Some md -> parent md = Some q -> q <> n) as Hnp.
  { intros m md q Hm Hq ->. destruct (inv_parent _ _ _ _ _ _ Hinv m md n Hm) as [? _]; [set_solver|done|done]. }
  assert (forall q, kids (<[n := nd]> (nodes f)) ∅ q = kids (nodes f) ∅ q) as Hk.
  { intros q. apply kids_ext. intros k. destruct (decide (k = n)) as [->|].
    - rewrite lookup_insert_eq. split.
      + intros (kd & [= <-] & ? & _). congruence.
      + intros (kd & Hkd%elem_of_dom_2 & _). done.
    - by rewrite lookup_insert_ne. }
  assert (kids (nodes f) ∅ n = ∅) as Hkn.
  { apply set_eq. intros k. rewrite elem_of_kids. split; [|set_solver].
    intros (kd & Hkd & Hq & _). by destruct (Hnp k kd n Hkd Hq). }
  assert (forall m md, nodes f !! m = Some md -> m <> n) as Hmn by (intros m md Hm ->; by apply elem_of_dom_2 in Hm).
  destruct Hinv. split; cbn [id_table name_table lru_table nodes set_nodes]; try done.
  - destruct inv_id as (S & ? & ? & ?). exists S. rewrite dom_insert_L. split_and!; [done|set_solver|set_solver].
  - eapply table_wf_ext; [|done]. intros m (_ & md & Hm & _)%inv_names. unfold node_raw.
    rewrite lookup_insert_ne //. apply not_eq_sym. eauto.
  - intros m. rewrite inv_names. destruct (decide (m = n)) as [->|]; [|by rewrite lookup_insert_ne].
    rewrite lookup_insert_eq. split; intros (? & md & Hm & His).
    + by destruct (Hmn n md Hm).
    + simplify_eq. rewrite Hpar in His. by destruct His.
  - intros m md. destruct (decide (m = n)) as [->|]; [|rewrite lookup_insert_ne //; apply inv_fields].
    rewrite lookup_insert_eq. intros [= <-]. rewrite (proj2 (Z.eqb_neq _ _) Hroot) Hpar Hname. by split; intros [? [=]].
  - intros m md q. destruct (decide (m = n)) as [->|Hne]; [rewrite lookup_insert_eq; intros [= <-]; congruence|].
    rewrite lookup_insert_ne //. intros Hm HX Hq. destruct (inv_parent m md q Hm HX Hq).
    rewrite (proj2 (Z.eqb_neq m n)) // (proj2 (Z.eqb_neq q n)); [by eauto|]. rewrite dom_insert_L. set_solver.
  - intros m1 m2 d1 d2 H1 H2 ? ? His Hpp Hnn.
    assert (m1 <> n) by (intros ->; rewrite lookup_insert_eq in H1; simplify_eq; rewrite Hpar in His; by destruct His).
    assert (m2 <> n) by (intros ->; rewrite lookup_insert_eq in H2; simplify_eq; rewrite Hpp Hpar in His; by destruct His).
    rewrite lookup_insert_ne // in H1. rewrite lookup_insert_ne // in H2. by apply (inv_uniq m1 m2 d1 d2).
  - intros m md. rewrite Hk. destruct (decide (m = n)) as [->|].
    + rewrite lookup_insert_eq. intros [= <-]. split; [done|]. by rewrite Hkn size_empty Href !Z.add_0_r.
    + rewrite lookup_insert_ne //. apply inv_ref.
  - intros m md. destruct (decide (m = n)) as [->|]; [set_solver|].
    rewrite lookup_insert_ne //. intros ? _. eapply inv_pos; [done|set_solver].
  - split; [apply inv_root|]. rewrite lookup_insert_ne //. apply inv_root.
  - intros m Hm. destruct (inv_lru m Hm) as (? & md & Hmd & ?). split; [done|].
    exists md. rewrite lookup_insert_ne; [apply not_eq_sym; eauto|]. split; [done|]. set_solver.
  - intros m md. destruct (decide (m = n)) as [->|]; [rewrite lookup_insert_eq; intros [= <-]; by rewrite Htl|].
    rewrite lookup_insert_ne //. intros Hm Hmt. rewrite Hk.
    destruct (inv_lock m md Hm Hmt) as [?|(k & kd & ? & Hkd & ?)]; [by left|right].
    exists k, kd. rewrite lookup_insert_ne; [apply not_eq_sym; eauto|done].
Qed.

Lemma inv_hash_id rank P e f n ok :
  inv rank ∅ P e f -> n ∈ dom (nodes f) -> n ∉ entries (id_table f) ->
  inv rank ∅ P e (set_id_table f (table_insert id_raw ok (id_table f) n)) /\
  n ∈ entries (table_insert id_raw ok (id_table f) n).
Proof.
  intros Hinv Hn Hnid. destruct (inv_id _ _ _ _ _ _ Hinv) as (S & HS & HS1 & HS2).
  assert (n ∉ S) as HnS by by rewrite -(ref_set _ _ _ HS).
  destruct (table_step_refines id_raw (id_table f) S (Insert n ok) HS HnS) as (t & [= <-] & Hr).
  split; [|apply (ref_set _ _ _ Hr); cbn; set_solver].
  destruct Hinv. split; try done. cbn. exists ({[n]} ∪ S). split_and!; [done|set_solver|set_solver].
Qed.

(** ** [find_node] *)

(** The part of [find_node] for a node that exists. *)
Definition find_old n : M fuse (option Z) :=
  nd ← deref n;
  (if lru_enabled remember && (nlookup nd =? 1) then remove_node_lru n else mret tt);;
  inc_nlookup n;;
  mret (Some n).

Lemma find_old_wp rank f n nd :
  inv rank ∅ ∅ None f -> nodes f !! n = Some nd -> nlookup nd < SIZE_MAX ->
  wp (find_old n) (fun r f' => r = Some n /\ inv rank ∅ ∅ None f' /\
    (exists nd', nodes f' = <[n := nd']> (nodes f) /\ nlookup nd' = nlookup nd + 1 /\
       parent nd' = parent nd /\ name nd' = name nd /\ soft nd' = soft nd) /\
    ctr f' = ctr f /\ f_generation f' = f_generation f) f.
Proof.
  intros Hinv Hn Hmax. unfold find_old. apply wp_bind. eapply wp_deref; [done|]. apply wp_bind.
  apply wp_mono with (P := fun _ f1 => inv rank ∅ ∅ None f1 /\ n ∉ lru_table f1 /\ nodes f1 = nodes f /\
    ctr f1 = ctr f /\ f_generation f1 = f_generation f).
  { destruct (lru_enabled remember && (nlookup nd =? 1)) eqn:Ht.
    - apply wp_modify. split_and!; try done; [by apply inv_lru_remove|]. cbn.
      by intros [? _]%list_elem_of_filter.
    - apply wp_ret. split_and!; try done. intros Hl.
      destruct (inv_lru _ _ _ _ _ _ Hinv n Hl) as (Hr & nd0 & ? & Hone). simplify_eq.
      rewrite Hone in Ht; [set_solver|]. unfold lru_enabled in Ht. apply andb_false_iff in Ht as [?%Z.ltb_ge|?]; [lia|done]. }
  intros _ f1 (Hinv1 & Hl & Hns & Hc & Hg). rewrite -Hns in Hn.
  destruct (inc_nlookup_wp rank ∅ ∅ f1 n nd) as (nd' & H1 & H2 & H3 & _ & H5 & Hwp); try done; [right; set_solver|].
  apply wp_bind. eapply wp_mono; [exact Hwp|]. intros _ f2 [Hinv2 ->]. apply wp_ret.
  split_and!; [done|done| |done|done]. exists nd'. cbn. by rewrite Hns.
Qed.

(** The part of [find_node] that creates the node, after its allocation. *)
Definition find_new p nm : M fuse (option Z) :=
  n ← next_id;
  f ← get;
  store n (set_generation node_zero (f_generation f));;
  (if truth remember then inc_nlookup n else mret tt);;
  r ← hash_name alloc_ok n p nm;
  if r =? -1 then free_node n;; mret None
  else hash_id alloc_ok n;; inc_nlookup n;; mret (Some n).

(** What a creation reports about the new node. *)
Record created f f' p nm n : Prop := {
  cr_fresh : n ∉ dom (nodes f) /\ n <> 0 /\ n <> FUSE_UNKNOWN_INO;
  cr_named : named f' p nm n;
  cr_node : exists nd, nodes f' !! n = Some nd /\ generation nd = f_generation f' /\ ctr f' = n /\
    nlookup nd = 1 + int_of_bool (truth remember) /\ soft nd = soft node_zero;
  cr_clock : exists k, 1 <= k <= Z.of_nat (base.size (nodes f)) + 3 /\
    id_clock f' = (id_clock f + k) mod (id_space * id_space);
  cr_parent : forall pd, nodes f !! p = Some pd -> nodes f' !! p = Some (set_refctr pd (refctr pd + 1));
  cr_others : forall m, m <> n -> m <> p -> nodes f' !! m = nodes f !! m;
}.

(** The first reference of a node created while nodes are remembered. *)
Definition first_node (g : Z) : node :=
  let nd := set_generation node_zero g in
  if truth remember then set_nlookup (set_refctr nd 1) 1 else nd.

Lemma find_new_start g f n :
  wp (if truth remember then inc_nlookup n else mret tt)
     (fun _ f' => f' = set_nodes f (<[n := first_node g]> (nodes f)))
     (set_nodes f (<[n := set_generation node_zero g]> (nodes f))).
Proof.
  unfold first_node. destruct (truth remember); [|by apply wp_ret].
  unfold inc_nlookup. eapply wp_update; [cbn; by rewrite lookup_insert_eq|]. cbn.
  by rewrite insert_insert_eq.
Qed.

Lemma find_new_wp rank f p nm :
  inv rank ∅ ∅ None f -> p ∈ dom (nodes f) -> counters_ok f ->
  Z.of_nat (base.size (nodes f)) + 3 <= id_space -> (forall m, ~ named f p nm m) ->
  wp (find_new p nm) (fun r f' => consistent remember f' /\ counters_ok f' /\
    match r with
    | Some n => created f f' p nm n
    | None => nodes f' = nodes f /\ 32 <= strlen nm
    end) f.
Proof.
  intros Hinv [pd Hp]%elem_of_dom Hc Hsz Hu. unfold find_new.
  apply wp_bind. eapply wp_mono; [by apply (next_id_wp rank)|].
  intros n f1 (Hnt & Hctr & Hc1 & [g ->] & Hclk). cbn in Hctr.
  assert (n ∉ dom (nodes f) /\ n <> 0 /\ n <> FUSE_UNKNOWN_INO) as Hfresh by (unfold id_taken in Hnt; tauto).
  set (f1 := set_f_generation (set_ctr f n) g) in *.
  assert (inv rank ∅ ∅ None f1) as Hinv1 by by apply inv_counters.
  apply wp_bind, wp_get. cbn [f_generation f1 set_f_generation].
  set (nd := first_node g). set (f2 := set_nodes f1 (<[n := nd]> (nodes f1))).
  assert (parent nd = None /\ name nd = None /\ generation nd = g /\
    nlookup nd = int_of_bool (truth remember)) as (Hnp & Hnn & Hng & Hnl)
    by (unfold nd, first_node; by destruct (truth remember)).
  set (rank' := fun m => if m =? n then S (rank p) else rank m).
  assert (inv rank' ∅ {[n]} None f2) as Hinv2.
  { apply inv_new; [done|apply (proj1 Hfresh)|done|done|..].
    - unfold nd, first_node; by destruct (truth remember).
    - rewrite Hnl. unfold SIZE_MAX. destruct (truth remember); cbn; lia.
    - unfold nd, first_node; by destruct (truth remember). }
  assert (n <> p) as Hnep by (intros ->; destruct Hfresh as [Hf _]; apply Hf; by apply elem_of_dom_2 in Hp).
  assert (n <> FUSE_ROOT_ID) as Hnr.
  { intros ->. destruct (inv_root _ _ _ _ _ _ Hinv) as (_ & rd & Hrd & _).
    apply elem_of_dom_2 in Hrd. by apply (proj1 Hfresh). }
  assert (nodes f2 !! p = Some pd) as Hp2 by (cbn; rewrite lookup_insert_ne //).
  apply wp_bind, wp_modify. apply wp_bind. eapply wp_mono; [apply (find_new_start g f1 n)|].
  intros _ f2' ->. fold nd f2. apply wp_bind.
  eapply wp_mono; [apply (hash_name_wp rank' {[n]} f2 n nd p pd nm)|]; try done.
  { cbn. by rewrite lookup_insert_eq. }
  { set_solver. }
  { unfold rank'. rewrite Z.eqb_refl (proj2 (Z.eqb_neq p n)) //. lia. }
  { intros m (md & Hm & Hmp & Hmn). cbn in Hm. destruct (decide (m = n)) as [->|].
    - rewrite lookup_insert_eq in Hm. injection Hm as <-. congruence.
    - rewrite lookup_insert_ne // in Hm. apply (Hu m). exists md. done. }
  intros r f3 (Hinv3 & (Hid & Hlru & Hct & Hgen & _) & Hcase).
  destruct Hcase as [(-> & Hlen & Hns & Hnt3 & _)|(-> & Hns)]; cbn [Z.eqb].
  - (* strdup failed: the node is freed again *)
    apply wp_bind, wp_modify, wp_ret. rewrite Hns. cbn [nodes f2 set_nodes].
    rewrite delete_insert_id; [by apply not_elem_of_dom, (proj1 Hfresh)|].
    split_and!; [|by unfold counters_ok in *; cbn; rewrite Hct Hgen|done|done].
    exists rank. destruct Hinv1. split; cbn; rewrite ?Hid ?Hlru ?Hnt3; done.
  - apply wp_bind. unfold hash_id. apply wp_bind, wp_alloc. apply wp_modify.
    set (f4 := set_id_table _ _).
    assert (n ∉ entries (id_table f3)) as Hnid.
    { rewrite Hid. destruct (inv_id _ _ _ _ _ _ Hinv) as (S & HS & HS1 & _).
      change (n ∉ entries (id_table f)). rewrite (ref_set _ _ _ HS). intros ?. by apply (proj1 Hfresh), HS1. }
    assert (nodes f3 !! n = Some (set_parent (set_name nd (Some nm)) (Some p))) as Hn3.
    { by rewrite Hns lookup_attach Z.eqb_refl. }
    destruct (inv_hash_id rank' {[n]} None (set_tick f3 (S (tick f3))) n (alloc_ok (tick f3)))
      as [Hinv4 Hin4]; [by apply inv_tick|by apply elem_of_dom_2 in Hn3|done|].
    assert (n ∉ lru_table f4) as Hnl4.
    { cbn. rewrite Hlru. intros Hl. destruct (inv_lru _ _ _ _ _ _ Hinv n Hl) as (_ & md & Hmd & _).
      apply elem_of_dom_2 in Hmd. by apply (proj1 Hfresh). }
    destruct (inc_nlookup_wp rank' {[n]} ∅ f4 n (set_parent (set_name nd (Some nm)) (Some p)))
      as (nd' & E1 & E2 & E3 & E4 & E5 & Hwp); [done|done| |done|by left|set_solver|].
    { cbn. rewrite Hnl. unfold SIZE_MAX. destruct (truth remember); cbn; lia. }
    apply wp_bind. eapply wp_mono; [exact Hwp|]. intros _ f5 [Hinv5 ->]. apply wp_ret.
    split_and!; [by eexists|by unfold counters_ok in *; cbn; rewrite Hct Hgen|].
    split; cbn.
    + done.
    + exists nd'. cbn. rewrite lookup_insert_eq E2 E3. done.
    + exists nd'. rewrite lookup_insert_eq Hct Hgen E4 E1 E5. cbn in *. split_and!; try done; [lia|].
      unfold nd, first_node. by destruct (truth remember).
    + destruct Hclk as (k & ? & Hclk). exists k. split; [done|].
      unfold id_clock in *. cbn in *. rewrite Hct Hgen. done.
    + intros pd' Hpd'. rewrite lookup_insert_ne // Hns lookup_attach Z.eqb_refl (proj2 (Z.eqb_neq p n)) //. congruence.
    + intros m Hm Hmp. rewrite lookup_insert_ne // Hns lookup_attach.
      rewrite (proj2 (Z.eqb_neq m n)) // (proj2 (Z.eqb_neq m p)) // /= lookup_insert_ne //.
Qed.

Definition nlookups_ok f : Prop := forall n nd, nodes f !! n = Some nd -> nlookup nd < SIZE_MAX.

(** What [find_node(p, nm)] reports. *)
Definition find_post f p nm (r : option Z) f' : Prop :=
  match r with
  | Some n =>
    match lookup_node f p nm with
    | Some m => n = m /\ exists nd nd', nodes f !! n = Some nd /\ nodes f' = <[n := nd']> (nodes f) /\
        nlookup nd' = nlookup nd + 1 /\ parent nd' = parent nd /\ name nd' = name nd /\ soft nd' = soft nd
    | None => created f f' p nm n
    end
  | None => lookup_node f p nm = None /\ nodes f' = nodes f
  end.

Lemma find_node_wp f p nm :
  consistent remember f -> p ∈ dom (nodes f) -> counters_ok f -> nlookups_ok f ->
  Z.of_nat (base.size (nodes f)) + 3 <= id_space ->
  wp (find_node alloc_ok remember p (Some nm)) (fun r f' =>
    consistent remember f' /\ counters_ok f' /\ find_post f p nm r f') f.
Proof.
  intros [rank Hinv] Hp Hc Hmax Hsz. unfold find_node, find_post. apply wp_bind, wp_bind, wp_get, wp_ret.
  destruct (lookup_node f p nm) as [n|] eqn:Hl.
  - pose proof Hl as (nd & Hn & _)%(lookup_node_spec _ _ _ _ _ _ _ Hinv).
    eapply wp_mono; [by apply (find_old_wp rank f n nd); [..|by eapply Hmax]|].
    intros r f' (-> & Hinv' & (nd' & Hns & ? & ? & ? & ?) & Hct & Hg). split; [by exists rank|]. split.
    + unfold counters_ok in *. by rewrite Hct Hg.
    + split; [done|]. exists nd, nd'. done.
  - apply wp_bind, wp_alloc. destruct (alloc_ok (tick f)); cbn [negb].
    + eapply wp_mono; [apply (find_new_wp rank (set_tick f (S (tick f))) p nm)|]; try done.
      * by apply inv_tick.
      * by apply (lookup_node_None _ _ _ _ _ _ Hinv).
      * intros r f' (? & ? & Hr). split; [done|]. split; [done|]. destruct r as [n|]; [|tauto].
        destruct Hr. by split.
    + apply wp_ret. split_and!; try done. exists rank. by apply inv_tick.
Qed.

(** ** Removing names *)

Lemma unhash_name_wp rank f n nd :
  inv rank ∅ ∅ None f -> nodes f !! n = Some nd -> n <> FUSE_ROOT_ID -> ~ read_locked nd ->
  wp (unhash_name alloc_ok remember n) (fun _ f' =>
    inv rank ∅ ∅ None f' /\ nodes f' !! n = Some (set_parent (set_name nd None) None) /\
    frame_but rank n f f') f.
Proof.
  intros Hinv Hn Hr Hl. unfold unhash_name. apply wp_bind, wp_get.
  apply (unhash_core remember rank alloc_ok _ ∅ ∅ n nd f);
    [apply unref_spec|done|done|set_solver|done|done|set_solver..|lia].
Qed.

Lemma unref_node_wp rank f p :
  inv rank ∅ ∅ (Some p) f -> p ∈ dom (nodes f) ->
  wp (unref_node alloc_ok remember p) (fun _ f' => inv rank ∅ ∅ None f' /\ frame rank p f f') f.
Proof.
  intros Hinv Hp. unfold unref_node. apply wp_bind, wp_get.
  apply (unref_spec remember rank alloc_ok _ ∅ ∅ p f); [done|done|set_solver..|lia].
Qed.

Lemma unlink_node_wp rank f n nd :
  inv rank ∅ ∅ None f -> nodes f !! n = Some nd -> n <> FUSE_ROOT_ID -> ~ read_locked nd ->
  (remember <> 0 -> 1 < nlookup nd) ->
  wp (unlink_node alloc_ok remember n) (fun _ f' =>
    inv rank ∅ ∅ None f' /\
    (exists nd', nodes f' !! n = Some nd' /\ parent nd' = None /\ name nd' = None /\
       nlookup nd' = nlookup nd - int_of_bool (truth remember) /\ soft nd' = soft nd) /\
    (ctr f' = ctr f /\ f_generation f' = f_generation f) /\
    (forall m md', m <> n -> nodes f' !! m = Some md' ->
       exists md, nodes f !! m = Some md /\ md' = set_refctr md (refctr md')) /\
    (forall m md, nodes f !! m = Some md -> 0 < nlookup md -> is_Some (nodes f' !! m))) f.
Proof.
  intros Hinv Hn Hroot Hrl Hrem. unfold unlink_node. apply wp_bind.
  set (nd1 := if truth remember then set_nlookup nd (nlookup nd - 1) else nd).
  apply wp_mono with (P := fun _ f1 => f1 = set_nodes f (<[n := nd1]> (nodes f))).
  { unfold nd1, truth in *. destruct (Z.eqb_spec remember 0); cbn [negb].
    - apply wp_ret. rewrite insert_id //. by destruct f.
    - apply wp_bind. eapply wp_deref; [done|]. apply wp_bind, wp_assert; [by apply Z.ltb_lt, Hrem|].
      by apply wp_modify. }
  intros _ f1 ->. set (f1 := set_nodes f _).
  destruct (inv_ref _ _ _ _ _ _ Hinv n nd Hn) as [Hnn Hr].
  assert (nlookup nd1 = nlookup nd - int_of_bool (truth remember)) as Hnl1.
  { unfold nd1. destruct (truth remember); cbn; lia. }
  assert (treelock nd1 = treelock nd /\ refctr nd1 = refctr nd /\ parent nd1 = parent nd /\ name nd1 = name nd)
    as (Htl1 & Hr1 & Hp1 & Hm1) by (unfold nd1; by destruct (truth remember)).
  assert (0 < nlookup nd -> 0 < nlookup nd1) as Hpos.
  { intros ?. rewrite Hnl1. unfold truth, int_of_bool in *. destruct (Z.eqb_spec remember 0); cbn; [lia|].
    specialize (Hrem ltac:(done)). lia. }
  assert (inv rank ∅ ∅ None f1) as Hinv1.
  { assert (0 <= nlookup nd1 <= SIZE_MAX) as Hrng.
    { rewrite Hnl1. unfold truth, int_of_bool in *. destruct (Z.eqb_spec remember 0); cbn; [lia|].
      specialize (Hrem ltac:(done)). lia. }
    eapply inv_write; try done.
    - assert (nlookup nd1 <= nlookup nd) by (rewrite Hnl1; destruct (truth remember); cbn; lia).
      assert ((0 <? nlookup nd1) = (0 <? nlookup nd)) as ->; [|by rewrite Hr1 Hr].
      destruct (Z.ltb_spec 0 (nlookup nd)), (Z.ltb_spec 0 (nlookup nd1)); [done|lia|lia|done].
    - intros _. split; [|left; set_solver]. rewrite Hr1. by apply (inv_pos _ _ _ _ _ _ Hinv n nd Hn).
    - intros Hl _. destruct (inv_lru _ _ _ _ _ _ Hinv n Hl) as (Hrem0 & nd0 & ? & Hone). simplify_eq.
      rewrite Hone in Hrem; [set_solver|]. specialize (Hrem ltac:(lia)). lia.
    - rewrite Htl1. intros Ht. destruct (inv_lock _ _ _ _ _ _ Hinv n nd Hn Ht); auto. }
  assert (nodes f1 !! n = Some nd1) as Hn1 by (cbn; by rewrite lookup_insert_eq).
  eapply wp_mono; [apply (unhash_name_wp rank f1 n nd1); [done..|]|].
  { unfold read_locked in *. by rewrite Htl1. }
  intros _ f2 (Hinv2 & Hn2 & [Hs Hk _ (? & ? & _) _]). split_and!; [done| |done|done| |].
  - eexists. split_and!; [done|done|done|done|]. cbn. unfold nd1. by destruct (truth remember).
  - intros m md' Hm Hmd. destruct (Hs m md' Hm Hmd) as (md & Hmd0 & ?). exists md.
    cbn in Hmd0. rewrite lookup_insert_ne // in Hmd0.
  - intros m md Hm Hmp. destruct (decide (m = n)) as [->|].
    + by rewrite Hn2.
    + apply (Hk m md); [|done]. cbn. by rewrite lookup_insert_ne.
Qed.

(** ** [forget_node] *)

(** The nodes after a [forget] that leaves lookups. *)
Lemma inv_forget_some rank f n nd nd' :
  inv rank ∅ ∅ None f -> nodes f !! n = Some nd -> n ∉ lru_table f \/ nlookup nd' = 1 ->
  0 < nlookup nd' <= nlookup nd -> parent nd' = parent nd -> name nd' = name nd ->
  refctr nd' = refctr nd -> treelock nd' = treelock nd ->
  inv rank ∅ ∅ None (set_nodes f (<[n := nd']> (nodes f))).
Proof.
  intros Hinv Hn Hl Hnl Hp Hnm Hr Ht. destruct (inv_ref _ _ _ _ _ _ Hinv n nd Hn) as [Hnn Href].
  eapply inv_write; try done.
  - lia.
  - rewrite Hr Href. do 2 f_equal. destruct (Z.ltb_spec 0 (nlookup nd)), (Z.ltb_spec 0 (nlookup nd')); cbn; lia.
  - intros _. split; [|left; set_solver]. rewrite Hr. by apply (inv_pos _ _ _ _ _ _ Hinv n nd Hn).
  - intros ? _. by destruct Hl.
  - lia.
  - unfold read_locked. by rewrite Ht.
  - left. lia.
Qed.

Lemma inv_lru_add rank f n nd :
  inv rank ∅ ∅ None f -> 0 < remember -> nodes f !! n = Some nd -> nlookup nd = 1 ->
  inv rank ∅ ∅ None (set_lru_table f (filter (fun m => m <> n) (lru_table f) ++ [n])).
Proof.
  intros [] Hr Hn Hone. split; cbn [id_table name_table lru_table nodes set_lru_table]; try done.
  - apply list.NoDup_app. split_and!.
    + by apply list.NoDup_filter.
    + intros x [? _]%list_elem_of_filter Hx. apply list_elem_of_singleton in Hx. done.
    + apply list.NoDup_singleton.
  - intros m [Hm|Hm]%elem_of_app.
    + apply list_elem_of_filter in Hm as [_ Hm]. by apply inv_lru.
    + apply list_elem_of_singleton in Hm as ->. split; [done|]. eauto.
Qed.

(** Nodes may have gone, and of the others only counters have changed: the
    lookups of [n] by [d]. *)
Record only_counts f f' n d : Prop := {
  oc_nodes : forall m md', nodes f' !! m = Some md' -> exists md, nodes f !! m = Some md /\
    parent md' = parent md /\ name md' = name md /\ soft md' = soft md /\
    nlookup md' = nlookup md - (if m =? n then d else 0);
  oc_ctr : ctr f' = ctr f /\ f_generation f' = f_generation f;
}.

Lemma only_counts_frame rank f f' n nd d :
  nodes f !! n = Some nd -> frame rank n (set_nodes f (<[n := set_nlookup nd (nlookup nd - d)]> (nodes f))) f' ->
  only_counts f f' n d.
Proof.
  intros Hn [Hs _ _ (? & ? & _) _]. split; [|done]. intros m md' Hm. destruct (Hs m md' Hm) as (md & Hmd & ->).
  cbn in Hmd. destruct (Z.eqb_spec m n) as [->|Hne].
  - rewrite lookup_insert_eq in Hmd. injection Hmd as <-. exists nd. done.
  - rewrite lookup_insert_ne // in Hmd. exists md. cbn. split_and!; try done. lia.
Qed.

Lemma only_counts_write f f' n nd nd' d :
  nodes f !! n = Some nd -> nodes f' = <[n := nd']> (nodes f) -> ctr f' = ctr f /\ f_generation f' = f_generation f ->
  parent nd' = parent nd -> name nd' = name nd -> soft nd' = soft nd -> nlookup nd' = nlookup nd - d ->
  only_counts f f' n d.
Proof.
  intros Hn Hns Hc ? ? ? ?. split; [|done]. intros m md' Hm. rewrite Hns in Hm. destruct (Z.eqb_spec m n) as [->|Hne].
  - rewrite lookup_insert_eq in Hm. injection Hm as <-. by exists nd.
  - rewrite lookup_insert_ne // in Hm. exists md'. split_and!; try done. lia.
Qed.

Lemma forget_node_wp (clock : nat -> Z) rank f n nd count :
  inv rank ∅ ∅ None f -> nodes f !! n = Some nd -> n <> FUSE_ROOT_ID ->
  0 < count <= nlookup nd ->
  (nlookup nd = count -> treelock nd = 0 /\ n ∉ lru_table f) ->
  wp (forget_node alloc_ok clock remember n count) (fun _ f' =>
    inv rank ∅ ∅ None f' /\
    (forall m md, m <> n -> nodes f !! m = Some md -> 0 < nlookup md -> is_Some (nodes f' !! m)) /\
    (count < nlookup nd -> exists nd', nodes f' !! n = Some nd' /\ nlookup nd' = nlookup nd - count) /\
    (count = nlookup nd -> kids (nodes f) ∅ n = ∅ -> nodes f' !! n = None) /\
    only_counts f f' n count) f.
Proof.
  intros Hinv Hn Hroot Hcnt Hlast. unfold forget_node. rewrite (proj2 (Z.eqb_neq _ _) Hroot).
  destruct (inv_ref _ _ _ _ _ _ Hinv n nd Hn) as [Hnn Href].
  apply wp_bind. eapply get_node_wp; [done|done|set_solver|]. apply wp_bind. eapply wp_deref; [done|].
  assert ((nlookup nd =? count) && truth (treelock nd) = false) as ->.
  { destruct (Z.eqb_spec (nlookup nd) count); [|done]. by destruct (Hlast ltac:(done)) as [-> _]. }
  apply wp_bind, wp_assert; [apply Z.leb_le; lia|]. apply wp_bind. eapply wp_update; [done|].
  set (nd1 := set_nlookup nd (nlookup nd - count)). set (f1 := set_nodes f _).
  assert (nodes f1 !! n = Some nd1) as Hn1 by (cbn; by rewrite lookup_insert_eq).
  assert (forall m md, m <> n -> nodes f !! m = Some md -> nodes f1 !! m = Some md) as Ho
    by (intros m md Hm Hmd; cbn; by rewrite lookup_insert_ne).
  destruct (Z.eqb_spec (nlookup nd - count) 0) as [Hz|Hnz].
  - destruct (Hlast ltac:(lia)) as [Htl Hlru].
    assert (inv rank ∅ ∅ (Some n) f1) as Hinv1.
    { eapply inv_write; try done; cbn; rewrite ?Hz.
      - unfold SIZE_MAX. lia.
      - rewrite Href. destruct (Z.ltb_spec 0 (nlookup nd)); [|lia].
        rewrite (bool_decide_true (Some n = Some n)) // bool_decide_false //. cbn. lia.
      - intros m Hm. split; [done|]. by intros [= ->].
      - intros _. split; [|left; set_solver]. by apply (inv_pos _ _ _ _ _ _ Hinv n nd Hn). }
    eapply wp_mono; [apply (unref_node_wp rank f1 n Hinv1); by apply elem_of_dom_2 in Hn1|].
    intros _ f2 [Hinv2 Hfr]. pose proof Hfr as [Hs Hk _ _ _]. split_and!; [done| |lia| |by eapply only_counts_frame].
    + intros m md Hm Hmd Hpos. eapply Hk; [|done]. by apply Ho.
    + intros _ Hkids. destruct (nodes f2 !! n) as [nd2|] eqn:Hn2; [|done]. exfalso.
      destruct (Hs n nd2 Hn2) as (nd1' & Hn1' & E). rewrite Hn1 in Hn1'. injection Hn1' as <-.
      pose proof (inv_pos _ _ _ _ _ _ Hinv2 n nd2 Hn2 ltac:(set_solver)) as Hpos2.
      destruct (inv_ref _ _ _ _ _ _ Hinv2 n nd2 Hn2) as [_ Hr2].
      rewrite E in Hr2. cbn in Hr2. rewrite Hz bool_decide_false // in Hr2. cbn in Hr2.
      assert (kids (nodes f2) ∅ n = ∅) as Hk2.
      { apply set_eq. intros k. split; [|set_solver]. intros (kd & Hkd & Hkp & _)%elem_of_kids.
        destruct (Hs k kd Hkd) as (kd1 & Hkd1 & Ek).
        assert (k ∈ kids (nodes f) ∅ n); [|set_solver]. apply elem_of_kids.
        destruct (decide (k = n)) as [->|Hkn].
        - exists nd. split_and!; [done| |set_solver]. rewrite Hn1 in Hkd1. injection Hkd1 as <-.
          rewrite Ek in Hkp. done.
        - exists kd1. cbn in Hkd1. rewrite lookup_insert_ne // in Hkd1. split_and!; [done| |set_solver].
          rewrite Ek in Hkp. done. }
      rewrite Hk2 size_empty in Hr2. lia.
  - assert (n ∉ lru_table f) as Hnl.
    { intros Hl. destruct (inv_lru _ _ _ _ _ _ Hinv n Hl) as (_ & nd0 & ? & Hone). simplify_eq.
      assert (nlookup nd = 1) by (apply Hone; set_solver). lia. }
    assert (inv rank ∅ ∅ None f1) as Hinv1 by (eapply inv_forget_some; try done; [by left|cbn; lia]).
    destruct (lru_enabled remember && (nlookup nd - count =? 1)) eqn:Hlru.
    + apply andb_true_iff in Hlru as [Hr%Z.ltb_lt Hone%Z.eqb_eq].
      unfold node_set_forget_time. apply wp_bind, wp_modify. apply wp_bind. unfold curr_time, wp at 1.
      eapply wp_update; [cbn; by rewrite lookup_insert_eq|]. cbn.
      pose proof (inv_lru_add rank f1 n nd1 Hinv1 Hr Hn1 Hone) as Hinv2.
      split_and!.
      * apply (inv_tick _ _ _ _ _ _ (S (tick f))) in Hinv2.
        eapply (inv_forget_some rank _ n nd1 (set_forget_time nd1 (clock (tick f))) Hinv2); try done;
          [by right|cbn; lia].
      * intros m md Hm Hmd _. rewrite lookup_insert_ne // lookup_insert_ne //; eauto.
      * intros _. rewrite lookup_insert_eq. eauto.
      * lia.
      * eapply only_counts_write; [done|cbn; by rewrite insert_insert_eq|done..].
    + apply wp_ret. split_and!; [done| |eauto|lia|by eapply only_counts_write]. intros m md Hm Hmd _. rewrite (Ho m md Hm Hmd). eauto.
Qed.

(** ** [rename_node] *)

(** [m] is [n] or lies under it. *)
Inductive below f n : Z -> Prop :=
  | below_self : below f n n
  | below_step m md q : nodes f !! m = Some md -> parent md = Some q -> below f n q -> below f n m.

Fixpoint belowb (fuel : nat) (ns : gmap Z node) n m : bool :=
  (m =? n) ||
  match fuel with
  | O => false
  | S fuel =>
    match ns !! m with
    | Some md => match parent md with Some q => belowb fuel ns n q | None => false end
    | None => false
    end
  end.

Lemma belowb_sound fuel f n m : belowb fuel (nodes f) n m = true -> below f n m.
Proof.
  revert m. induction fuel as [|fuel IH]; intros m; cbn [belowb]; destruct (Z.eqb_spec m n) as [->|];
    cbn [orb]; try done; try (intros _; constructor).
  destruct (nodes f !! m) as [md|] eqn:Hm; [|done]. destruct (parent md) as [q|] eqn:Hq; [|done].
  intros ?%IH. by econstructor.
Qed.

Lemma belowb_complete rank f n m :
  inv rank ∅ ∅ None f -> below f n m -> forall fuel, (rank m <= fuel)%nat -> belowb fuel (nodes f) n m = true.
Proof.
  intros Hinv. induction 1 as [|m md q Hm Hq _ IH]; intros fuel Hf.
  - destruct fuel; cbn [belowb]; by rewrite Z.eqb_refl.
  - destruct (inv_parent _ _ _ _ _ _ Hinv m md q Hm ltac:(set_solver) Hq) as [_ ?].
    destruct fuel as [|fuel]; [lia|]. cbn [belowb]. rewrite Hm Hq IH; [lia|]. apply orb_true_r.
Qed.

(** The depths once the tree under [n] hangs below [d]. *)
Definition moved_rank rank f n d m : nat :=
  if belowb (rank m) (nodes f) n m then (rank m + S (rank d))%nat else rank m.

Lemma moved_rank_parent rank f n d m md q :
  inv rank ∅ ∅ None f -> nodes f !! m = Some md -> parent md = Some q ->
  (moved_rank rank f n d q < moved_rank rank f n d m)%nat.
Proof.
  intros Hinv Hm Hq. destruct (inv_parent _ _ _ _ _ _ Hinv m md q Hm ltac:(set_solver) Hq) as [_ ?].
  unfold moved_rank. destruct (belowb (rank q) (nodes f) n q) eqn:Hbq.
  - rewrite (belowb_complete rank f n m Hinv) //; [|lia]. eapply below_step; [done..|].
    by eapply belowb_sound.
  - destruct (belowb (rank m) _ _ _); lia.
Qed.

Lemma moved_rank_target rank f n d :
  inv rank ∅ ∅ None f -> ~ below f n d -> (moved_rank rank f n d d < moved_rank rank f n d n)%nat.
Proof.
  intros Hinv Hb. unfold moved_rank. rewrite (belowb_complete rank f n n Hinv); [constructor|lia|].
  destruct (belowb (rank d) _ _ _) eqn:Hd; [|lia]. by apply belowb_sound in Hd.
Qed.

(** What an operation on names leaves of the other nodes. *)
Definition kept f f' (touched : gset Z) : Prop :=
  (forall m md', m ∉ touched -> nodes f' !! m = Some md' ->
     exists md, nodes f !! m = Some md /\ parent md' = parent md /\ name md' = name md /\
       nlookup md' = nlookup md /\ treelock md' = treelock md) /\
  (forall m md, nodes f !! m = Some md -> 0 < nlookup md -> is_Some (nodes f' !! m)).

(** Nodes of [T] may lose their place or get one under a name of [nms]; nothing
    else changes but reference counts, and no known node is lost. *)
Record moved (T : gset Z) (nms : list cstring) f f' : Prop := {
  mv_nodes : forall m md', nodes f' !! m = Some md' -> exists md, nodes f !! m = Some md /\
    (treelock md' = treelock md /\ open_count md' = open_count md /\ locks md' = locks md) /\
    (remember = 0 -> nlookup md' = nlookup md) /\
    (name md' = name md \/ name md' = None \/ exists nm, nm ∈ nms /\ name md' = Some nm) /\
    (m ∉ T -> parent md' = parent md /\ name md' = name md /\ nlookup md' = nlookup md);
  mv_keep : forall m md, nodes f !! m = Some md -> 0 < nlookup md ->
    exists md', nodes f' !! m = Some md' /\ 0 < nlookup md';
  mv_ctr : ctr f' = ctr f /\ f_generation f' = f_generation f;
}.

#[export] Instance moved_preorder T nms : PreOrder (moved T nms).
Proof.
  split.
  - intros f. split; [|eauto|done]. intros m md Hm. exists md. by split_and!; auto.
  - intros f1 f2 f3 [N1 K1 [C1 G1]] [N2 K2 [C2 G2]]. split; [| |split; congruence].
    + intros m md3 H3. destruct (N2 m md3 H3) as (md2 & H2 & (E1 & E2 & E3) & L2 & M2 & P2).
      destruct (N1 m md2 H2) as (md1 & H1 & (F1 & F2 & F3) & L1 & M1 & P1). exists md1. split_and!; [congruence..| | |].
      * intros Hr. by rewrite L2 // L1.
      * destruct M2 as [->|[->|?]]; auto.
      * intros HT. destruct (P1 HT) as (? & ? & ?), (P2 HT) as (? & ? & ?). split_and!; congruence.
    + intros m md Hm Hp. destruct (K1 m md Hm Hp) as (md2 & H2 & Hp2). by apply (K2 m md2).
Qed.

Lemma moved_kept T nms f f' : moved T nms f f' -> kept f f' T.
Proof.
  intros [N K _]. split.
  - intros m md' HT Hm. destruct (N m md' Hm) as (md & ? & (? & _) & _ & _ & P). destruct (P HT) as (? & ? & ?). by exists md.
  - intros m md Hm Hp. destruct (K m md Hm Hp) as (md' & ? & _). eauto.
Qed.

Lemma moved_unlink T nms rank f k kd :
  inv rank ∅ ∅ None f -> nodes f !! k = Some kd -> k <> FUSE_ROOT_ID -> ~ read_locked kd -> (remember <> 0 -> 1 < nlookup kd) -> k ∈ T ->
  wp (unlink_node alloc_ok remember k) (fun _ f' => inv rank ∅ ∅ None f' /\
    (forall kd', nodes f' !! k = Some kd' -> parent kd' = None) /\ moved T nms f f') f.
Proof.
  intros Hinv Hk Hr Hl Hrem HkT. eapply wp_mono; [by apply (unlink_node_wp rank f k kd)|].
  intros [] f' (Hinv' & (kd' & Hk' & Hp' & Hn' & Hnl & Hs) & Hctr & Hoth & Hkeep). split_and!; [done|by intros ? ?; simplify_eq|].
  unfold soft in Hs. injection Hs as ? ? ? ? ? ? ? ?. split; [| |done].
  - intros m md' Hm. destruct (decide (m = k)) as [->|Hne].
    + assert (md' = kd') as -> by congruence. exists kd. split_and!; try done; [|auto].
      intros E. rewrite Hnl E. cbn. lia.
    + destruct (Hoth m md' Hne Hm) as (md & ? & ->). exists md. by split_and!; auto.
  - intros m md Hm Hp. destruct (decide (m = k)) as [->|Hne].
    + exists kd'. split; [done|]. assert (md = kd) as -> by congruence. rewrite Hnl. unfold truth, int_of_bool.
      destruct (Z.eqb_spec remember 0); cbn; [lia|]. specialize (Hrem ltac:(done)). lia.
    + destruct (Hkeep m md Hm Hp) as [md' Hm']. exists md'. split; [done|]. destruct (Hoth m md' Hne Hm') as (md0 & ? & ->). by simplify_eq.
Qed.

Lemma moved_unhash T nms rank f n nd :
  inv rank ∅ ∅ None f -> nodes f !! n = Some nd -> n <> FUSE_ROOT_ID -> ~ read_locked nd -> n ∈ T ->
  wp (unhash_name alloc_ok remember n) (fun _ f' => inv rank ∅ ∅ None f' /\
    nodes f' !! n = Some (set_parent (set_name nd None) None) /\ moved T nms f f' /\
    (forall m md', m <> n -> nodes f' !! m = Some md' -> exists md, nodes f !! m = Some md /\ md' = set_refctr md (refctr md'))) f.
Proof.
  intros Hinv Hn Hr Hl HnT. eapply wp_mono; [by apply (unhash_name_wp rank f n nd)|].
  intros [] f' (Hinv' & Hn' & [Hs Hk _ (? & ? & _) _]). split_and!; [done..| |done]. split; [| |done].
  - intros m md' Hm. destruct (decide (m = n)) as [->|Hne].
    + simplify_eq. exists nd. by split_and!; auto.
    + destruct (Hs m md' Hne Hm) as (md & ? & ->). exists md. by split_and!; auto.
  - intros m md Hm Hp. destruct (decide (m = n)) as [->|Hne].
    + simplify_eq. by eexists.
    + destruct (Hk m md Hm Hp) as [md' Hm']. exists md'. split; [done|]. destruct (Hs m md' Hne Hm') as (md0 & ? & ->). by simplify_eq.
Qed.

Lemma moved_attach T nms f f' n nd p pd nm :
  nodes f !! n = Some nd -> nodes f !! p = Some pd -> n <> p -> same_env f f' -> nodes f' = attach (nodes f) n nd p pd nm ->
  n ∈ T -> nm ∈ nms -> moved T nms f f'.
Proof.
  intros Hn Hp Hne (_ & _ & ? & ? & _) Hns HnT Hnm. split; [| |done]; rewrite Hns; setoid_rewrite lookup_attach; intros m md.
  - destruct (Z.eqb_spec m n) as [->|]; [intros [= <-]; exists nd; split_and!; try done; eauto|].
    destruct (Z.eqb_spec m p) as [->|]; [intros [= <-]; exists pd; by split_and!; auto|]. intros Hm. exists md. by split_and!; auto.
  - intros Hm Hpos. destruct (Z.eqb_spec m n) as [->|]; [simplify_eq; by eexists|].
    destruct (Z.eqb_spec m p) as [->|]; [simplify_eq; by eexists|]. eauto.
Qed.

Lemma moved_same_nodes T nms f f' : nodes f' = nodes f -> ctr f' = ctr f -> f_generation f' = f_generation f -> moved T nms f f'.
Proof. intros E C G. split; [rewrite E..|done]; intros m md Hm; [exists md; by split_and!; auto|eauto]. Qed.

Lemma moved_write T nms f n nd nd' : nodes f !! n = Some nd -> treelock nd' = treelock nd -> open_count nd' = open_count nd ->
  locks nd' = locks nd -> nlookup nd' = nlookup nd -> name nd' = name nd -> parent nd' = parent nd ->
  moved T nms f (set_nodes f (<[n := nd']> (nodes f))).
Proof.
  intros Hn E1 E2 E3 E4 E5 E6. split; [| |done]; intros m md; cbn; (destruct (decide (m = n)) as [->|]; [rewrite lookup_insert_eq|rewrite lookup_insert_ne //]).
  - intros [= <-]. exists nd. split_and!; auto.
  - intros Hm. exists md. by split_and!; auto.
  - intros Hm Hp. simplify_eq. exists nd'. split; [done|]. lia.
  - eauto.
Qed.

(** The first half of [rename_node]: the target, if any, and the source lose
    their names. *)
Lemma rename_detach nms rank f n nd (tgt : option Z) :
  inv rank ∅ ∅ None f -> nodes f !! n = Some nd -> n <> FUSE_ROOT_ID -> 0 < nlookup nd -> ~ read_locked nd ->
  (forall k, tgt = Some k -> exists kd, nodes f !! k = Some kd /\ k <> FUSE_ROOT_ID /\ k <> n /\
     ~ read_locked kd /\ (remember <> 0 -> 1 < nlookup kd)) ->
  wp ((match tgt with Some k => unlink_node alloc_ok remember k | None => mret tt end);;
      unhash_name alloc_ok remember n) (fun _ f' =>
    inv rank ∅ ∅ None f' /\
    (exists nd', nodes f' !! n = Some nd' /\ parent nd' = None /\ name nd' = None) /\
    (forall k, tgt = Some k -> forall kd', nodes f' !! k = Some kd' -> parent kd' = None) /\
    moved ({[n]} ∪ match tgt with Some k => {[k]} | None => ∅ end) nms f f') f.
Proof.
  intros Hinv Hn Hroot Hpos Hrl Hm. set (T := {[n]} ∪ _ : gset Z). apply wp_bind.
  apply wp_mono with (P := fun _ f1 => inv rank ∅ ∅ None f1 /\
    (forall k, tgt = Some k -> forall kd', nodes f1 !! k = Some kd' -> parent kd' = None) /\ moved T nms f f1).
  { destruct tgt as [k|]; [|by apply wp_ret].
    destruct (Hm k eq_refl) as (kd & Hk & Hkr & Hkn & Hkl & Hkrem).
    eapply wp_mono; [apply (moved_unlink T nms rank f k kd); [done..|set_solver]|].
    intros _ f1 (Hinv1 & Hk1 & Hmv). split_and!; [done|by intros ? [= <-]|done]. }
  intros _ f1 (Hinv1 & Hk1 & Hmv1). destruct (mv_keep _ _ _ _ Hmv1 n nd Hn Hpos) as (nd1 & Hn1 & _).
  assert (treelock nd1 = treelock nd) as Htl1 by (destruct (mv_nodes _ _ _ _ Hmv1 n nd1 Hn1) as (? & ? & (? & _) & _); congruence).
  eapply wp_mono; [apply (moved_unhash T nms rank f1 n nd1); [done|done|done| |set_solver]|].
  { unfold read_locked in *. by rewrite Htl1. }
  intros _ f2 (Hinv2 & Hn2 & Hmv2 & Hoth). split_and!; [done|by eexists| |by etransitivity].
  intros k Hk kd' Hkd. destruct (Hm k Hk) as (_ & _ & _ & Hkn & _).
  destruct (Hoth k kd' Hkn Hkd) as (kd1 & Hkd1 & ->). cbn. by eapply Hk1.
Qed.

(** What the kernel guarantees of a rename: it has looked up the directories and
    the source, it never moves a directory into itself, and the write locks
    exclude readers of the two nodes. *)
Record rename_pre f olddir (oldname : cstring) newdir (newname : cstring) : Prop := {
  rp_newdir : exists dd, nodes f !! newdir = Some dd /\ 0 < nlookup dd;
  rp_differ : olddir <> newdir \/ oldname <> newname;
  rp_source : forall n nd, named f olddir oldname n -> nodes f !! n = Some nd ->
    0 < nlookup nd /\ ~ read_locked nd /\ ~ below f n newdir;
  rp_target : forall k kd, named f newdir newname k -> nodes f !! k = Some kd ->
    ~ read_locked kd /\ (remember <> 0 -> 1 < nlookup kd);
}.

(** The names after a successful rename of [n]. *)
Record renamed f f' n olddir oldname newdir newname : Prop := {
  rn_new : lookup_node f' newdir newname = Some n;
  rn_old : lookup_node f' olddir oldname = None;
  rn_sub : forall d nm x, x <> n -> lookup_node f' d nm = Some x -> lookup_node f d nm = Some x;
  rn_keep : forall d nm x xd, x <> n -> (d <> newdir \/ nm <> newname) ->
    lookup_node f d nm = Some x -> nodes f !! x = Some xd -> 0 < nlookup xd ->
    lookup_node f' d nm = Some x;
}.

(** The names when there is no memory for the new one: the source has lost its name
    and the target is gone. *)
Record unnamed f f' n olddir (oldname : cstring) newdir (newname : cstring) : Prop := {
  un_node : is_Some (nodes f' !! n);
  un_new : lookup_node f' newdir newname = None;
  un_old : lookup_node f' olddir oldname = None;
  un_sub : forall d nm x, lookup_node f' d nm = Some x -> x <> n /\ lookup_node f d nm = Some x;
  un_keep : forall d nm x xd, x <> n -> (d <> newdir \/ nm <> newname) ->
    lookup_node f d nm = Some x -> nodes f !! x = Some xd -> 0 < nlookup xd ->
    lookup_node f' d nm = Some x;
}.

Lemma named_not_root rank P e f p nm n : inv rank ∅ P e f -> named f p nm n -> n <> FUSE_ROOT_ID.
Proof.
  intros Hinv (nd & Hn & Hp & _) ->. pose proof (inv_fields _ _ _ _ _ _ Hinv _ nd Hn) as Hf.
  rewrite Z.eqb_refl in Hf. congruence.
Qed.

(** The names between the two halves of the rename. *)
Lemma rename_unnamed rank rank' f f2 f3 n nd olddir oldname newdir newname (T : gset Z) :
  inv rank ∅ ∅ None f -> inv rank' ∅ ∅ None f3 -> n ∈ T -> named f olddir oldname n -> nodes f !! n = Some nd -> 0 < nlookup nd ->
  (forall k, k ∈ T -> k <> n -> named f newdir newname k) -> (forall k, named f newdir newname k -> k ∈ T) -> kept f f2 T ->
  (forall x xd, nodes f2 !! x = Some xd -> is_Some (parent xd) -> x ∉ T) -> nodes f3 = nodes f2 ->
  unnamed f f3 n olddir oldname newdir newname.
Proof.
  intros Hinv Hinv3 HnT Hold Hn Hpos HT HT' [Hs2 Hk2] Hatt Hns.
  assert (forall d k x, named f3 d k x -> x ∉ T /\ named f d k x) as H3f.
  { intros d k x (xd & Hx & Hxp & Hxn). rewrite Hns in Hx. assert (x ∉ T) as HxT by (eapply Hatt; [done|by rewrite Hxp]).
    split; [done|]. destruct (Hs2 x xd HxT Hx) as (x0 & ? & E1 & E2 & _). exists x0. split_and!; congruence. }
  split.
  - rewrite Hns. by eapply Hk2.
  - apply (lookup_node_None _ _ _ _ _ _ Hinv3). intros x [HxT Hx]%H3f. by apply HxT, HT'.
  - apply (lookup_node_None _ _ _ _ _ _ Hinv3). intros x [HxT Hx]%H3f.
    apply (lookup_node_spec _ _ _ _ _ _ _ Hinv) in Hx, Hold. congruence.
  - intros d nm x Hx%(lookup_node_spec _ _ _ _ _ _ _ Hinv3)%H3f. destruct Hx as [HxT Hx].
    split; [by intros ->|]. by apply (lookup_node_spec _ _ _ _ _ _ _ Hinv).
  - intros d nm x xd Hxn Hdn Hx%(lookup_node_spec _ _ _ _ _ _ _ Hinv) Hxd Hp.
    apply (lookup_node_spec _ _ _ _ _ _ _ Hinv3). assert (x ∉ T) as HxT.
    { intros HxT. destruct (HT x HxT Hxn) as (x1 & ? & ? & ?), Hx as (x2 & ? & ? & ?). simplify_eq. destruct Hdn; congruence. }
    destruct (Hk2 x xd Hxd Hp) as [xd2 Hxd2]. destruct (Hs2 x xd2 HxT Hxd2) as (x0 & ? & E1 & E2 & _).
    destruct Hx as (x1 & ? & ? & ?). simplify_eq. exists xd2. rewrite Hns. split_and!; congruence.
Qed.

(** Reading the names off the nodes of [f4], which are those of [attach] on what
    the detaching half of the rename left. *)
Lemma rename_names rank rank' f f2 f3 f4 n nd2 newdir dd2 newname olddir oldname (T : gset Z) :
  inv rank ∅ ∅ None f -> inv rank' ∅ ∅ None f4 -> n ∈ T -> named f olddir oldname n ->
  (forall k, k ∈ T -> k <> n -> named f newdir newname k) ->
  nodes f2 !! n = Some nd2 -> parent nd2 = None ->
  nodes f2 !! newdir = Some dd2 -> n <> newdir -> kept f f2 T ->
  (forall x xd, nodes f2 !! x = Some xd -> is_Some (parent xd) -> x ∉ T) ->
  nodes f3 = attach (nodes f2) n nd2 newdir dd2 newname ->
  (olddir <> newdir \/ oldname <> newname) ->
  (forall d k x, named f4 d k x <-> named f3 d k x) ->
  renamed f f4 n olddir oldname newdir newname.
Proof.
  intros Hinv Hinv4 HnT Hold HT Hn2 Hp2 Hd2 Hne [Hs2 Hk2] Hatt Hns Hdiff Hsame.
  assert (forall d k x, x <> n -> named f3 d k x <-> named f2 d k x) as H32.
  { intros d k x Hx. unfold named. rewrite Hns. setoid_rewrite lookup_attach.
    rewrite (proj2 (Z.eqb_neq x n)) //. destruct (Z.eqb_spec x newdir) as [->|]; [|done].
    rewrite Hd2. naive_solver. }
  assert (forall d k x, named f2 d k x -> x ∉ T /\ named f d k x) as H2f.
  { intros d k x (xd & Hx & Hxp & Hxn). assert (x ∉ T) as HxT by (eapply Hatt; [done|by rewrite Hxp]).
    split; [done|]. destruct (Hs2 x xd HxT Hx) as (x0 & ? & E1 & E2 & _). exists x0. split_and!; congruence. }
  assert (named f3 newdir newname n) as Hnew.
  { unfold named. rewrite Hns lookup_attach Z.eqb_refl. by eexists. }
  assert (forall d k, named f3 d k n -> d = newdir /\ k = newname) as Honly.
  { intros d k (xd & Hx & Hxp & Hxn). rewrite Hns lookup_attach Z.eqb_refl in Hx. naive_solver. }
  split.
  - apply (lookup_node_spec _ _ _ _ _ _ _ Hinv4). by apply Hsame.
  - apply (lookup_node_None _ _ _ _ _ _ Hinv4). intros x Hx%Hsame.
    destruct (decide (x = n)) as [->|Hxn]; [destruct (Honly _ _ Hx); destruct Hdiff; congruence|].
    apply H32, H2f in Hx as [_ Hx]; [|done]. apply Hxn.
    apply (lookup_node_spec _ _ _ _ _ _ _ Hinv) in Hx, Hold. congruence.
  - intros d nm x Hxn Hx%(lookup_node_spec _ _ _ _ _ _ _ Hinv4)%Hsame.
    apply (lookup_node_spec _ _ _ _ _ _ _ Hinv). by apply H32, H2f in Hx as [_ ?].
  - intros d nm x xd Hxn Hdn Hx%(lookup_node_spec _ _ _ _ _ _ _ Hinv) Hxd Hpos.
    apply (lookup_node_spec _ _ _ _ _ _ _ Hinv4), Hsame, H32; [done|].
    assert (x ∉ T) as HxT.
    { intros HxT. destruct (HT x HxT Hxn) as (x1 & ? & ? & ?), Hx as (x2 & ? & ? & ?). simplify_eq.
      destruct Hdn; congruence. }
    destruct (Hk2 x xd Hxd Hpos) as [xd2 Hxd2]. destruct (Hs2 x xd2 HxT Hxd2) as (x0 & ? & E1 & E2 & _).
    destruct Hx as (x1 & ? & ? & ?). simplify_eq. exists xd2. split_and!; congruence.
Qed.

Lemma rename_node_wp f olddir oldname newdir newname hide n :
  consistent remember f -> rename_pre f olddir oldname newdir newname ->
  lookup_node f olddir oldname = Some n ->
  wp (rename_node alloc_ok remember olddir oldname newdir newname hide) (fun r f' =>
    (consistent remember f' /\
    (r = 0 /\ (hide = true -> lookup_node f newdir newname = None) /\ renamed f f' n olddir oldname newdir newname /\
       (hide = true -> exists nd, nodes f' !! n = Some nd /\ is_hidden nd = true) \/
     r = - EBUSY /\ hide = true /\ lookup_node f newdir newname <> None /\ f' = f \/
     r = - ENOMEM /\ (hide = true -> lookup_node f newdir newname = None) /\
       32 <= strlen newname /\ last_alloc_failed f' /\ unnamed f f' n olddir oldname newdir newname)) /\
    moved ({[n]} ∪ match lookup_node f newdir newname with Some k => {[k]} | None => ∅ end) [newname] f f') f.
Proof.
  intros [rank Hinv] [Hnd Hdiff Hsrc Htgt] Hl. unfold rename_node. apply wp_bind, wp_get. rewrite Hl.
  pose proof Hl as Hnamed%(lookup_node_spec _ _ _ _ _ _ _ Hinv).
  pose proof Hnamed as (nd & Hn & Hnp & Hnn). destruct (Hsrc n nd Hnamed Hn) as (Hpos & Hrl & Hbelow).
  set (tgt := lookup_node f newdir newname).
  destruct (bool_decide (tgt <> None) && hide) eqn:Hh.
  { apply andb_true_iff in Hh as [Ht%bool_decide_eq_true ->]. apply wp_ret. split; [|reflexivity]. split; [by exists rank|].
    right; left. done. }
  apply wp_assoc, wp_bind.
  eapply wp_mono; [apply (rename_detach [newname] rank f n nd tgt); try done; [by eapply named_not_root|]|].
  { intros k Hk%(lookup_node_spec _ _ _ _ _ _ _ Hinv). pose proof Hk as (kd & Hkd & Hkp & Hkn).
    destruct (Htgt k kd Hk Hkd) as [??]. exists kd. split_and!; try done; [by eapply named_not_root|].
    intros ->. simplify_eq. destruct Hdiff; congruence. }
  intros _ f2 (Hinv2 & (nd2 & Hn2 & Hp2 & Hm2) & Hk2 & Hmv2). pose proof (moved_kept _ _ _ _ Hmv2) as [Hs2 Hkeep2].
  set (T := {[n]} ∪ match tgt with Some k => {[k]} | None => ∅ end : gset Z) in *.
  assert (forall x xd, nodes f2 !! x = Some xd -> is_Some (parent xd) ->
    x ∉ T /\ exists x0, nodes f !! x = Some x0 /\ parent xd = parent x0 /\ name xd = name x0) as Hattached.
  { intros x xd Hx His. assert (x ∉ T) as HxT.
    { intros [Hxn|Hxk]%elem_of_union.
      - apply elem_of_singleton in Hxn as ->. simplify_eq. rewrite Hp2 in His. by destruct His.
      - destruct tgt as [k|]; [|set_solver]. apply elem_of_singleton in Hxk as ->.
        rewrite (Hk2 k eq_refl xd Hx) in His. by destruct His. }
    split; [done|]. destruct (Hs2 x xd HxT Hx) as (x0 & ? & ? & ? & _). by exists x0. }
  destruct Hnd as (dd & Hdd & Hddpos). destruct (Hkeep2 newdir dd Hdd Hddpos) as [dd2 Hdd2].
  assert (forall x, ~ named f2 newdir newname x) as Hu.
  { intros x (xd & Hx & Hxp & Hxn). destruct (Hattached x xd Hx) as (HxT & x0 & Hx0 & E1 & E2); [by rewrite Hxp|].
    assert (tgt = Some x) as Ht.
    { apply (lookup_node_spec _ _ _ _ _ _ _ Hinv). exists x0. split_and!; congruence. }
    unfold T in HxT. rewrite Ht in HxT. set_solver. }
  set (rank' := moved_rank rank f n newdir).
  assert (inv rank' ∅ ∅ None f2) as Hinv2'.
  { eapply inv_rank_change; [exact Hinv2|]. intros x xd q Hx _ Hq.
    destruct (Hattached x xd Hx) as (_ & x0 & Hx0 & E1 & _); [by rewrite Hq|].
    eapply moved_rank_parent; [done|done|congruence]. }
  assert (n <> FUSE_ROOT_ID) as Hroot by by apply (named_not_root _ _ _ _ _ _ _ Hinv Hnamed).
  apply wp_bind. eapply wp_mono; [apply (hash_name_wp rank' ∅ f2 n nd2 newdir dd2 newname);
    [done..|set_solver|by apply moved_rank_target|done]|].
  assert (hide = true -> tgt = None) as Hht.
  { intros ->. rewrite andb_true_r in Hh. apply bool_decide_eq_false in Hh. destruct tgt; [|done]. by destruct Hh. }
  assert (forall k, k ∈ T -> k <> n -> named f newdir newname k) as HTn.
  { intros k [->%elem_of_singleton|Hk]%elem_of_union Hkn; [done|]. unfold tgt in Hk.
    destruct (lookup_node f newdir newname) as [k'|] eqn:Hlk; [|set_solver].
    apply elem_of_singleton in Hk as ->. by apply (lookup_node_spec _ _ _ _ _ _ _ Hinv). }
  intros r f3 (Hinv3 & Henv & [(-> & Hlen & Hns & _ & Hfail)|(-> & Hns)]); cbn [Z.eqb].
  { apply wp_ret. split; [split; [by exists rank'|]; right; right; split_and!; try done|].
    - eapply (rename_unnamed rank rank' f f2 f3 n nd _ _ _ _ T); try done; [unfold T; set_solver| |].
      + intros k Hk%(lookup_node_spec _ _ _ _ _ _ _ Hinv). unfold T, tgt. rewrite Hk. set_solver.
      + intros x xd Hx His. by apply (Hattached x xd).
    - etransitivity; [exact Hmv2|].
      destruct Henv as (_ & _ & ? & ? & _). by apply moved_same_nodes. }
  assert (moved T [newname] f f3) as Hmv3.
  { etransitivity; [exact Hmv2|]. eapply (moved_attach T [newname] f2 f3 n nd2 newdir dd2); try done; [|unfold T; set_solver|set_solver].
    intros ->. apply Hbelow. constructor. }
  assert (forall f4, inv rank' ∅ ∅ None f4 -> (forall d k x, named f4 d k x <-> named f3 d k x) ->
    renamed f f4 n olddir oldname newdir newname) as Hren.
  { intros f4 Hinv4 Hsame. eapply (rename_names rank rank' f f2 f3 f4 n nd2 newdir dd2 newname _ _ T);
      try done.
    - unfold T. set_solver.
    - intros ->. apply Hbelow. constructor.
    - intros x xd Hx His. by apply (Hattached x xd). }
  destruct hide.
  - assert (nodes f3 !! n = Some (set_parent (set_name nd2 (Some newname)) (Some newdir))) as Hn3.
    { by rewrite Hns lookup_attach Z.eqb_refl. }
    apply wp_bind. eapply wp_update; [done|]. apply wp_ret.
    destruct (inv_ref _ _ _ _ _ _ Hinv3 n _ Hn3) as [? ?].
    assert (inv rank' ∅ ∅ None (set_nodes f3 (<[n := set_is_hidden
      (set_parent (set_name nd2 (Some newname)) (Some newdir)) true]> (nodes f3)))) as Hinv4.
    { eapply inv_write; try done.
      - intros _. split; [|left; set_solver]. by apply (inv_pos _ _ _ _ _ _ Hinv3 n _ Hn3).
      - intros Hl3 _. destruct (inv_lru _ _ _ _ _ _ Hinv3 n Hl3) as (_ & x & Hx & Hone). simplify_eq.
        apply Hone. set_solver.
      - by apply (inv_lock _ _ _ _ _ _ Hinv3 n _ Hn3). }
    split; [|etransitivity; [exact Hmv3|by eapply moved_write]]. split; [by eexists|]. left. split_and!; [done|done| |].
    + apply Hren; [done|]. intros d k x. unfold named. cbn. destruct (decide (x = n)) as [->|].
      * rewrite lookup_insert_eq Hn3. naive_solver.
      * by rewrite lookup_insert_ne.
    + intros _. cbn. rewrite lookup_insert_eq. eauto.
  - apply wp_bind, wp_ret, wp_ret. split; [|done]. split; [by eexists|]. left. split_and!; [done|done|by apply Hren|done].
Qed.

(** ** [exchange_node] *)

(** What the kernel guarantees of an exchange: both entries and directories are
    known, neither entry lies above the directory the other one moves from, and
    the write locks exclude readers. *)
Record exchange_pre f d1 nm1 d2 nm2 n1 n2 : Prop := {
  xp_entries : named f d1 nm1 n1 /\ named f d2 nm2 n2 /\ n1 <> n2;
  xp_dirs : forall d, d = d1 \/ d = d2 -> exists dd, nodes f !! d = Some dd /\ 0 < nlookup dd;
  xp_nodes : forall n nd, n = n1 \/ n = n2 -> nodes f !! n = Some nd -> 0 < nlookup nd /\ ~ read_locked nd;
  xp_acyclic : ~ below f n1 d2 /\ ~ below f n2 d1;
}.

Lemma below_rank rank f n m : inv rank ∅ ∅ None f -> below f n m -> (rank n <= rank m)%nat.
Proof.
  intros Hinv. induction 1 as [|m md q Hm Hq _ IH]; [done|].
  destruct (inv_parent _ _ _ _ _ _ Hinv m md q Hm ltac:(set_solver) Hq). lia.
Qed.

(** Both entries lose their names. *)
Lemma exchange_detach rank f d1 nm1 d2 nm2 n1 n2 :
  inv rank ∅ ∅ None f -> exchange_pre f d1 nm1 d2 nm2 n1 n2 ->
  wp (unhash_name alloc_ok remember n1;; unhash_name alloc_ok remember n2) (fun _ f' =>
    inv rank ∅ ∅ None f' /\ moved {[n1; n2]} [nm1; nm2] f f' /\
    (forall n, n = n1 \/ n = n2 -> exists nd, nodes f' !! n = Some nd /\ parent nd = None /\ name nd = None)) f.
Proof.
  intros Hinv [(Hx1 & Hx2 & Hne) _ Hxn _].
  pose proof (named_not_root _ _ _ _ _ _ _ Hinv Hx1) as Hr1. pose proof (named_not_root _ _ _ _ _ _ _ Hinv Hx2) as Hr2.
  destruct Hx1 as (nd1 & Hn1 & _), Hx2 as (nd2 & Hn2 & _).
  destruct (Hxn n1 nd1 ltac:(auto) Hn1) as [Hp1 Hl1], (Hxn n2 nd2 ltac:(auto) Hn2) as [Hp2 Hl2].
  apply wp_bind. eapply wp_mono; [apply (moved_unhash {[n1; n2]} [nm1; nm2] rank f n1 nd1); [done..|set_solver]|].
  intros [] f1 (Hinv1 & Hn1' & Hmv1 & Hoth1). destruct (mv_keep _ _ _ _ Hmv1 n2 nd2 Hn2 Hp2) as (nd2' & Hn2' & _).
  destruct (Hoth1 n2 nd2' ltac:(done) Hn2') as (x & Hx & E). assert (x = nd2) as -> by congruence.
  eapply wp_mono; [apply (moved_unhash {[n1; n2]} [nm1; nm2] rank f1 n2 nd2'); [done..| |set_solver]|].
  { unfold read_locked in *. by rewrite E. }
  intros [] f2 (Hinv2 & Hn2'' & Hmv2 & Hoth2). split_and!; [done|by etransitivity|].
  intros n [->| ->]; [|by eexists]. destruct (mv_keep _ _ _ _ Hmv1 n1 nd1 Hn1) as (y & Hy & Hyp); [done|].
  destruct (mv_keep _ _ _ _ Hmv2 n1 y Hy Hyp) as (z & Hz & _). exists z. split; [done|].
  destruct (Hoth2 n1 z Hne Hz) as (y' & Hy' & ->). assert (y' = set_parent (set_name nd1 None) None) as -> by congruence. done.
Qed.

Lemma exchange_node_wp f d1 nm1 d2 nm2 n1 n2 :
  consistent remember f -> exchange_pre f d1 nm1 d2 nm2 n1 n2 ->
  wp (exchange_node alloc_ok remember d1 nm1 d2 nm2) (fun r f' =>
    consistent remember f' /\ moved {[n1; n2]} [nm1; nm2] f f' /\
    (r = 0 /\ lookup_node f' d2 nm2 = Some n1 /\ lookup_node f' d1 nm1 = Some n2 \/ r = - ENOMEM)) f.
Proof.
  intros [rank Hinv] Hpre. pose proof Hpre as [(Hx1 & Hx2 & Hne) Hdirs Hxn [Hb1 Hb2]]. unfold exchange_node.
  pose proof (named_not_root _ _ _ _ _ _ _ Hinv Hx1) as Hr1. pose proof (named_not_root _ _ _ _ _ _ _ Hinv Hx2) as Hr2.
  pose proof (proj2 (lookup_node_spec _ _ _ _ _ _ _ Hinv) Hx1) as Hl1. pose proof (proj2 (lookup_node_spec _ _ _ _ _ _ _ Hinv) Hx2) as Hl2.
  apply wp_bind, wp_get. rewrite Hl1 Hl2. apply wp_assoc, wp_bind. eapply wp_mono; [by apply (exchange_detach rank f d1 nm1 d2 nm2)|].
  intros [] f2 (Hinv2 & Hmv2 & Hbare). set (T := {[n1; n2]} : gset Z) in *.
  assert (forall x xd, nodes f2 !! x = Some xd -> is_Some (parent xd) -> x ∉ T /\
    exists x0, nodes f !! x = Some x0 /\ parent xd = parent x0 /\ name xd = name x0) as Hatt.
  { intros x xd Hx His. assert (x ∉ T) as HxT.
    { intros HxT. destruct (Hbare x) as (xd' & Hx' & Hp' & _); [unfold T in HxT; set_solver|].
      assert (xd' = xd) as -> by congruence. rewrite Hp' in His. by destruct His. }
    split; [done|]. destruct (mv_nodes _ _ _ _ Hmv2 x xd Hx) as (x0 & ? & _ & _ & _ & P). destruct (P HxT) as (? & ? & _). by exists x0. }
  assert (forall d nm x, named f2 d nm x -> x ∉ T /\ named f d nm x) as Hnm2.
  { intros d nm x (xd & Hx & Hxp & Hxm). destruct (Hatt x xd Hx) as (? & x0 & ? & ? & ?); [by rewrite Hxp|].
    split; [done|]. exists x0. split_and!; congruence. }
  assert (forall d nm x y, named f d nm x -> named f d nm y -> x = y) as Huniq.
  { intros d nm x y Hx%(lookup_node_spec _ _ _ _ _ _ _ Hinv) Hy%(lookup_node_spec _ _ _ _ _ _ _ Hinv). congruence. }
  set (rank1 := moved_rank rank f n1 d2).
  assert (inv rank1 ∅ ∅ None f2) as Hinv2'.
  { eapply inv_rank_change; [exact Hinv2|]. intros x xd q Hx _ Hq. destruct (Hatt x xd Hx) as (_ & x0 & Hx0 & E1 & _); [by rewrite Hq|].
    eapply moved_rank_parent; [done|done|congruence]. }
  assert (forall g, moved T [nm1; nm2] f g -> forall d, d = d1 \/ d = d2 -> exists dd, nodes g !! d = Some dd) as Hdir.
  { intros g Hg d Hd. destruct (Hdirs d Hd) as (dd & Hdd & Hpos). destruct (mv_keep _ _ _ _ Hg d dd Hdd Hpos) as (dd' & ? & _). eauto. }
  destruct (Hbare n1) as (nd1 & Hn1 & Hp1 & Hm1); [auto|]. destruct (Hdir f2 Hmv2 d2) as [dd2 Hdd2]; [auto|].
  apply wp_bind. eapply wp_mono; [apply (hash_name_wp rank1 ∅ f2 n1 nd1 d2 dd2 nm2); [done..|set_solver|by apply moved_rank_target|]|].
  { intros x (HxT & Hx)%Hnm2. assert (x = n2) as -> by by eapply Huniq. unfold T in HxT. set_solver. }
  intros r f3 (Hinv3 & Henv3 & [(-> & _ & Hns & _)|(-> & Hns)]); cbn [Z.eqb].
  { apply wp_ret. split_and!; [by exists rank1| |by right]. etransitivity; [exact Hmv2|].
    destruct Henv3 as (_ & _ & ? & ? & _). by apply moved_same_nodes. }
  assert (n1 <> d2) as Hnd2 by (intros ->; apply Hb1; constructor).
  assert (moved T [nm1; nm2] f f3) as Hmv3.
  { etransitivity; [exact Hmv2|]. eapply (moved_attach T [nm1; nm2] f2 f3 n1 nd1 d2 dd2 nm2); try done; unfold T; set_solver. }
  (* the second entry *)
  assert (forall d nm x, named f3 d nm x -> x = n1 /\ d = d2 /\ nm = nm2 \/ x <> n1 /\ named f2 d nm x) as Hnm3.
  { intros d nm x (xd & Hx & Hxp & Hxm). rewrite Hns lookup_attach in Hx. destruct (Z.eqb_spec x n1) as [->|Hxn1].
    - injection Hx as <-. cbn in *. left. split_and!; congruence.
    - right. split; [done|]. destruct (Z.eqb_spec x d2) as [->|]; [injection Hx as <-; by exists dd2|by exists xd]. }
  assert (exists nd2, nodes f3 !! n2 = Some nd2 /\ parent nd2 = None /\ name nd2 = None) as (nd2 & Hn2 & Hp2 & Hm2).
  { rewrite Hns. setoid_rewrite lookup_attach. destruct (Z.eqb_spec n2 n1) as [?|_]; [congruence|].
    destruct (Hbare n2) as (xd & Hx & ? & ?); [auto|]. destruct (Z.eqb_spec n2 d2) as [->|]; [|eauto].
    assert (xd = dd2) as -> by congruence. eauto. }
  assert (forall m, below f3 n2 m -> below f n2 m \/ below f n1 m) as Hbel.
  { induction 1 as [|m md q Hm Hq _ IH]; [left; constructor|]. destruct (decide (m = n1)) as [->|Hmn1]; [right; constructor|].
    assert (exists x0, nodes f !! m = Some x0 /\ parent x0 = Some q) as (x0 & ? & ?).
    { rewrite Hns lookup_attach (proj2 (Z.eqb_neq _ _) Hmn1) in Hm. destruct (Z.eqb_spec m d2) as [->|].
      - injection Hm as <-. cbn in Hq. destruct (Hatt d2 dd2 Hdd2) as (_ & x0 & ? & ? & _); [by rewrite Hq|]. exists x0. split; congruence.
      - destruct (Hatt m md Hm) as (_ & x0 & ? & ? & _); [by rewrite Hq|]. exists x0. split; congruence. }
    destruct IH; [left|right]; by econstructor. }
  assert (~ below f3 n2 d1) as Hb3.
  { intros [?|Hb]%Hbel; [done|]. apply (below_rank rank) in Hb; [|done]. destruct Hx1 as (x & Hx & Hxp & _).
    destruct (inv_parent _ _ _ _ _ _ Hinv n1 x d1 Hx ltac:(set_solver) Hxp). lia. }
  set (rank2 := moved_rank rank1 f3 n2 d1). destruct (Hdir f3 Hmv3 d1) as [dd1 Hdd1]; [auto|].
  assert (inv rank2 ∅ ∅ None f3) as Hinv3'.
  { eapply inv_rank_change; [exact Hinv3|]. intros x xd q Hx _ Hq. by eapply moved_rank_parent. }
  apply wp_bind. eapply wp_mono; [apply (hash_name_wp rank2 ∅ f3 n2 nd2 d1 dd1 nm1); [done..|set_solver|by apply moved_rank_target|]|].
  { intros x [(-> & -> & ->)|(Hxn1 & Hx)]%Hnm3; [apply Hne; by eapply Huniq|]. apply Hnm2 in Hx as [_ Hx]. apply Hxn1. by eapply Huniq. }
  intros r f4 (Hinv4 & Henv4 & [(-> & _ & Hns4 & _)|(-> & Hns4)]); cbn [Z.eqb]; apply wp_ret.
  { split_and!; [by exists rank2| |by right]. etransitivity; [exact Hmv3|]. destruct Henv4 as (_ & _ & ? & ? & _). by apply moved_same_nodes. }
  assert (n2 <> d1) as Hnd1 by (intros ->; apply Hb2; constructor).
  split_and!; [by exists rank2| |].
  - etransitivity; [exact Hmv3|]. eapply (moved_attach T [nm1; nm2] f3 f4 n2 nd2 d1 dd1 nm1); try done; unfold T; set_solver.
  - left. split; [done|]. rewrite !(lookup_node_spec _ _ _ _ _ _ _ Hinv4). unfold named. rewrite Hns4. setoid_rewrite lookup_attach. split.
    + rewrite (proj2 (Z.eqb_neq _ _) Hne). destruct (Z.eqb_spec n1 d1) as [->|].
      * exfalso. destruct Hx1 as (x & Hx & Hxp & _). destruct (inv_parent _ _ _ _ _ _ Hinv d1 x d1 Hx ltac:(set_solver) Hxp). lia.
      * rewrite Hns lookup_attach Z.eqb_refl. by eexists.
    + rewrite Z.eqb_refl. by eexists.
Qed.
End ops.

(** ** The initial store *)

Definition root_node : node := set_nlookup (set_refctr (set_name node_zero (Some (lit "/"))) 1) 1.

(** The store right after [_fuse_new_31] has made the root. *)
Definition fuse_init (ok : bool) : fuse :=
  mkFuse node_table_init (table_insert id_raw ok node_table_init FUSE_ROOT_ID) [] 0 0 0
         {[FUSE_ROOT_ID := root_node]} 1.

Lemma new_root_run alloc_ok :
  new_root alloc_ok fuse_empty = Ok (tt, fuse_init (alloc_ok 0%nat)).
Proof. reflexivity. Qed.

Lemma fuse_init_consistent remember ok : consistent remember (fuse_init ok).
Proof.
  exists (fun _ => O).
  assert (forall n nd, nodes (fuse_init ok) !! n = Some nd -> n = FUSE_ROOT_ID /\ nd = root_node) as Hone.
  { intros n nd Hn. cbn in Hn. by apply lookup_singleton_Some in Hn as [<- <-]. }
  assert (forall q, kids (nodes (fuse_init ok)) ∅ q = ∅) as Hk.
  { intros q. apply set_eq. intros k. split; [|set_solver].
    intros (kd & [_ ->]%Hone & ? & _)%elem_of_kids. done. }
  split; cbn [id_table name_table lru_table fuse_init].
  - destruct (table_step_refines id_raw node_table_init ∅ (Insert FUSE_ROOT_ID ok)) as (t & [= <-] & Ht).
    + split; [apply node_table_init_wf|rewrite node_table_init_entries; constructor|].
      rewrite node_table_init_entries. set_solver.
    + set_solver.
    + exists ({[FUSE_ROOT_ID]} ∪ ∅). split_and!; [done| |]; cbn; rewrite dom_singleton_L; set_solver.
  - apply node_table_init_wf.
  - rewrite node_table_init_entries. constructor.
  - intros n. rewrite node_table_init_entries. split; [set_solver|].
    intros (_ & nd & [_ ->]%Hone & [? [=]]).
  - by intros n nd [-> ->]%Hone.
  - by intros n nd p [_ ->]%Hone.
  - by intros n m nd md [-> _]%Hone [-> _]%Hone.
  - intros n nd [-> ->]%Hone. rewrite Hk. done.
  - by intros n nd [-> ->]%Hone.
  - split; [set_solver|]. exists root_node. done.
  - constructor.
  - set_solver.
  - by intros n nd [-> ->]%Hone.
Qed.

(** ** Theorems *)


Lemma fuse_init_nlookups ok : nlookups_ok (fuse_init ok).
Proof. intros n nd Hn. cbn in Hn. by apply lookup_singleton_Some in Hn as [_ <-]. Qed.


(** The store after looking up [/a]. *)
Definition sample_fuse : fuse :=
  match find_node (fun _ => true) 0 FUSE_ROOT_ID (Some (lit "a")) (fuse_init true) with
  | Ok (_, f) => f
  | _ => fuse_init true
  end.

Lemma sample_fuse_consistent : consistent 0 sample_fuse.
Proof.
  unfold sample_fuse. destruct (find_node _ _ _ _ _) as [[r f']| |] eqn:Hr;
    [|apply fuse_init_consistent..].
  assert (wp (find_node (fun _ => true) 0 FUSE_ROOT_ID (Some (lit "a"))) (fun _ f' => consistent 0 f')
    (fuse_init true)) as Hwp.
  { eapply wp_mono; [apply (find_node_wp (fun _ => true) 0 (fuse_init true) FUSE_ROOT_ID (lit "a"))
                      |by intros ? ? (? & _)].
    - apply fuse_init_consistent.
    - cbn. set_solver.
    - unfold counters_ok, id_space. cbn. lia.
    - apply fuse_init_nlookups.
    - vm_compute. discriminate. }
  unfold wp in Hwp. by rewrite Hr in Hwp.
Qed.

Definition sample_node : node :=
  set_parent (set_name (set_nlookup (set_refctr node_zero 1) 1) (Some (lit "a"))) (Some FUSE_ROOT_ID).

Lemma sample_fuse_nodes :
  nodes sample_fuse = {[FUSE_ROOT_ID := set_refctr root_node 2; 2 := sample_node]}.
Proof. vm_compute. reflexivity. Qed.

#[local] Opaque sample_fuse.

Lemma sample_fuse_node : nodes sample_fuse !! 2 = Some sample_node.
Proof. by rewrite sample_fuse_nodes. Qed.

(** C11: [forget_node] keeps the node store consistent, never aborts and the
    recursive release of parents terminates.  A node with lookups left stays;
    a node without lookups and children is freed; nodes the kernel still knows
    are never freed. *)
Theorem forget_node_correct alloc_ok clock remember f n nd count :
  consistent remember f -> nodes f !! n = Some nd -> n <> FUSE_ROOT_ID -> 0 < count <= nlookup nd ->
  (nlookup nd = count -> treelock nd = 0 /\ n ∉ lru_table f) ->
  exists f', forget_node alloc_ok clock remember n count f = Ok (tt, f') /\ consistent remember f' /\
    (forall m md, m <> n -> nodes f !! m = Some md -> 0 < nlookup md -> is_Some (nodes f' !! m)) /\
    (count < nlookup nd -> exists nd', nodes f' !! n = Some nd' /\ nlookup nd' = nlookup nd - count) /\
    (count = nlookup nd -> kids (nodes f) ∅ n = ∅ -> nodes f' !! n = None).
Proof.
  intros [rank Hinv] Hn Hr Hc Hl.
  destruct (wp_Ok _ _ _ (forget_node_wp alloc_ok remember clock rank f n nd count Hinv Hn Hr Hc Hl))
    as ([] & f' & Hrun & Hinv' & H1 & H2 & H3 & _). exists f'. split; [done|]. split; [by exists rank|auto].
Qed.

Lemma forget_node_correct_witness :
  exists f', forget_node (fun _ => true) (fun _ => 0) 0 2 1 sample_fuse = Ok (tt, f') /\ consistent 0 f' /\
    (forall m md, m <> 2 -> nodes sample_fuse !! m = Some md -> 0 < nlookup md -> is_Some (nodes f' !! m)) /\
    (1 < 1 -> exists nd', nodes f' !! 2 = Some nd' /\ nlookup nd' = 1 - 1) /\
    (1 = 1 -> kids (nodes sample_fuse) ∅ 2 = ∅ -> nodes f' !! 2 = None).
Proof.
  apply (forget_node_correct (fun _ => true) (fun _ => 0) 0 sample_fuse 2 sample_node 1).
  - apply sample_fuse_consistent.
  - apply sample_fuse_node.
  - discriminate.
  - cbn. lia.
  - intros _. split; [reflexivity|]. apply (bool_decide_eq_true _). vm_compute. reflexivity.
Defined.

(** C6: [rename_node] under the kernel's guarantees and the write locks never
    aborts and keeps the store consistent and the tree acyclic.  A hiding rename
    whose target exists, and no other one, fails with [EBUSY] and changes nothing.
    On success the new name denotes the moved node, the old name nothing, no other
    name denotes a different node than before and no name of a node the kernel knows
    is lost; a hidden node is marked.  [ENOMEM] comes only from a failed allocation
    for a long name; then the node is still there without a name, the target has lost
    its name, and the other names are as before.  In every case no node but the moved
    one and the target changes its place, its name or its lookup count, and no node
    the kernel knows is freed. *)
Theorem rename_node_correct alloc_ok remember f olddir oldname newdir newname hide n :
  consistent remember f -> rename_pre remember f olddir oldname newdir newname ->
  lookup_node f olddir oldname = Some n ->
  exists r f', rename_node alloc_ok remember olddir oldname newdir newname hide f = Ok (r, f') /\
    consistent remember f' /\
    moved remember ({[n]} ∪ match lookup_node f newdir newname with Some k => {[k]} | None => ∅ end) [newname] f f' /\
    (r = 0 /\ (hide = true -> lookup_node f newdir newname = None) /\ renamed f f' n olddir oldname newdir newname /\
       (hide = true -> exists nd, nodes f' !! n = Some nd /\ is_hidden nd = true) \/
     r = - EBUSY /\ hide = true /\ lookup_node f newdir newname <> None /\ f' = f \/
     r = - ENOMEM /\ (hide = true -> lookup_node f newdir newname = None) /\
       32 <= strlen newname /\ last_alloc_failed alloc_ok f' /\ unnamed f f' n olddir oldname newdir newname).
Proof. intros. apply wp_Ok. eapply wp_mono; [by apply rename_node_wp|]. by intros r f' [[? ?] ?]. Qed.

Lemma sample_rename_pre : rename_pre 0 sample_fuse FUSE_ROOT_ID (lit "a") FUSE_ROOT_ID (lit "b").
Proof.
  assert (forall n nd, nodes sample_fuse !! n = Some nd ->
    (n = FUSE_ROOT_ID /\ nd = set_refctr root_node 2) \/ (n = 2 /\ nd = sample_node)) as Hns.
  { rewrite sample_fuse_nodes. intros n nd. rewrite lookup_insert_Some lookup_singleton_Some. naive_solver. }
  split.
  - exists (set_refctr root_node 2). by rewrite sample_fuse_nodes.
  - right. discriminate.
  - intros n nd (nd0 & Hn0 & Hp & Hnm) Hn. assert (nd0 = nd) as -> by congruence.
    destruct (Hns n nd Hn) as [[-> ->]|[-> ->]]; [done|].
    split_and!; [reflexivity|intros [Ht _]; by apply Ht|].
    intros Hb. inversion Hb as [|m md q Hm Hq _]; subst.
    destruct (Hns _ _ Hm) as [[_ ->]|[Hq2 _]]; [discriminate Hq|discriminate Hq2].
  - intros k kd (kd0 & Hk0 & Hp & Hnm) Hk. assert (kd0 = kd) as -> by congruence. by destruct (Hns k kd Hk) as [[-> ->]|[-> ->]].
Qed.

Lemma rename_node_correct_witness :
  exists r f', rename_node (fun _ => true) 0 FUSE_ROOT_ID (lit "a") FUSE_ROOT_ID (lit "b") false sample_fuse
      = Ok (r, f') /\ consistent 0 f' /\
    moved 0 ({[2]} ∪ match lookup_node sample_fuse FUSE_ROOT_ID (lit "b") with Some k => {[k]} | None => ∅ end) [lit "b"] sample_fuse f' /\
    (r = 0 /\ (false = true -> lookup_node sample_fuse FUSE_ROOT_ID (lit "b") = None) /\
       renamed sample_fuse f' 2 FUSE_ROOT_ID (lit "a") FUSE_ROOT_ID (lit "b") /\
       (false = true -> exists nd, nodes f' !! 2 = Some nd /\ is_hidden nd = true) \/
     r = - EBUSY /\ false = true /\ lookup_node sample_fuse FUSE_ROOT_ID (lit "b") <> None /\ f' = sample_fuse \/
     r = - ENOMEM /\ (false = true -> lookup_node sample_fuse FUSE_ROOT_ID (lit "b") = None) /\
       32 <= strlen (lit "b") /\ last_alloc_failed (fun _ => true) f' /\
       unnamed sample_fuse f' 2 FUSE_ROOT_ID (lit "a") FUSE_ROOT_ID (lit "b")).
Proof.
  apply (rename_node_correct (fun _ => true) 0 sample_fuse FUSE_ROOT_ID (lit "a") FUSE_ROOT_ID (lit "b") false 2).
  - apply sample_fuse_consistent.
  - apply sample_rename_pre.
  - vm_compute. reflexivity.
Defined.

(** no leak and no premature free.  In a consistent store every node is in
    the id table, and its reference count is exactly the number of its children
    plus one if the kernel has looked it up, and positive. *)
Theorem consistent_references remember f n nd :
  consistent remember f -> nodes f !! n = Some nd ->
  get_node_nocheck f n = Some n /\
  refctr nd = int_of_bool (0 <? nlookup nd) + Z.of_nat (base.size (kids (nodes f) ∅ n)) /\
  0 < refctr nd.
Proof.
  intros [rank Hinv] Hn. destruct (inv_ref _ _ _ _ _ _ Hinv n nd Hn) as [_ Hr].
  rewrite bool_decide_false // in Hr. cbn in Hr. split_and!; [|lia|].
  - destruct (inv_id _ _ _ _ _ _ Hinv) as (S & HS & _ & Hsub).
    rewrite (get_node_nocheck_spec f S n HS) bool_decide_true //. apply Hsub.
    apply elem_of_dom_2 in Hn. set_solver.
  - by apply (inv_pos _ _ _ _ _ _ Hinv n nd Hn).
Qed.

Lemma consistent_references_witness :
  get_node_nocheck sample_fuse 2 = Some 2 /\
  refctr sample_node = int_of_bool (0 <? nlookup sample_node) +
    Z.of_nat (base.size (kids (nodes sample_fuse) ∅ 2)) /\
  0 < refctr sample_node.
Proof.
  apply (consistent_references 0 sample_fuse 2 sample_node).
  - apply sample_fuse_consistent.
  - apply sample_fuse_node.
Defined.

(** ** Remembered nodes *)

(** The kernel looks [/a] up twice and unlinks it; it then gives one of its two
    lookups back, and the cache is cleaned after the [remember] time. *)
Definition unlinked_remembered : M fuse Z :=
  r1 ← find_node (fun _ => true) 10 FUSE_ROOT_ID (Some (lit "a"));
  r2 ← find_node (fun _ => true) 10 FUSE_ROOT_ID (Some (lit "a"));
  remove_node (fun _ => true) 10 FUSE_ROOT_ID (lit "a");;
  forget_node (fun _ => true) (fun i => Z.of_nat i * 1000000000000) 10 2 1;;
  fuse_clean_cache (fun _ => true) (fun i => Z.of_nat i * 1000000000000) 10.

Definition unlinked_remembered_ok : bool :=
  match unlinked_remembered (fuse_init true) with
  | Ok (r, f) =>
    (r =? 60) && bool_decide (nodes f !! 2 = None) &&
    match forget_node (fun _ => true) (fun _ => 0) 10 2 1 f with Abort => true | _ => false end
  | _ => false
  end.

Lemma unlinked_remembered_check : unlinked_remembered_ok = true.
Proof. vm_compute. reflexivity. Qed.

(** with [-o remember] an unlinked node is freed while the kernel still holds
    a lookup of it: [unlink_node] gives up the reference that keeps remembered
    nodes, but [forget_node] still puts the node on the LRU list when one lookup
    is left, and [fuse_clean_cache] frees it.  The kernel's next message about
    the node finds nothing and [get_node] aborts the process. *)
Theorem remembered_unlinked_node_is_freed :
  exists f, unlinked_remembered (fuse_init true) = Ok (60, f) /\ nodes f !! 2 = None /\
    forget_node (fun _ => true) (fun _ => 0) 10 2 1 f = Abort.
Proof.
  pose proof unlinked_remembered_check as H. unfold unlinked_remembered_ok in H.
  destruct (unlinked_remembered (fuse_init true)) as [[r f]| |]; [|discriminate H..].
  exists f. apply andb_true_iff in H as [H H3]. apply andb_true_iff in H as [H1 H2].
  apply Z.eqb_eq in H1 as ->. apply bool_decide_eq_true in H2.
  destruct (forget_node _ _ _ _ _ f); [discriminate H3|auto|discriminate H3].
Qed.
