(* ===== verification/TreeLock.v ===== *)
(** * Paths and the tree lock ([lib/fuse.c])

    Before the high-level library calls the file system it builds the path of a
    node and read-locks every node on it ([try_get_path]); operations that remove
    or rename an entry also write-lock the entry itself.  This file models the
    path buffer ([add_name]), the locks ([try_get_path], [try_get_path2],
    [unlock_path]) and the queue of waiters, and shows that the path is the
    path of the node, that readers and the writer of a node exclude each other
    under every interleaving, and that no unlock fails an assertion. *)
From S2P Require Import Prelude Locks NodeTable Node NodeOps.

Definition TREELOCK_WAIT_OFFSET : Z := INT_MIN.

(** ** The path buffer *)

(** [char *buf], [unsigned bufsize] and the offset of [char *s] in [buf]. *)
Record pathbuf := mkBuf {
  pb_buf : list ascii;
  pb_size : Z;
  pb_s : Z;
}.

(** [add_name]: [Some None] when [realloc] fails, [None] when the size loop does
    not end. *)
Definition add_name (realloc_ok : bool) (pb : pathbuf) (name : cstring)
  : option (option pathbuf) :=
  let len := strlen name in
  let finish buf bufsize s :=
    let s := s - len in
    let buf := blit buf s name in
    let s := s - 1 in
    let buf := blit buf s ["/"%char] in
    Some (Some (mkBuf buf bufsize s)) in
  if pb_s pb - len <=? 0 then
    let pathlen := u32 (pb_size pb - pb_s pb) in
    match grow 32 (pb_size pb) (pathlen + len + 1) with
    | None => None
    | Some newbufsize =>
      if negb realloc_ok then Some None
      else
        let newbuf := resize (Z.to_nat newbufsize) NUL (pb_buf pb) in
        let s := newbufsize - pathlen in
        let moved := take (Z.to_nat pathlen) (drop (Z.to_nat (pb_size pb - pathlen)) newbuf) in
        finish (blit newbuf s moved) newbufsize s
    end
  else finish (pb_buf pb) (pb_size pb) (pb_s pb).

(** [malloc(256)] with the terminator written at its end. *)
Definition new_buf : pathbuf := mkBuf (replicate 256 NUL) 256 255.

(** What the caller gets: [memmove(buf, s, ...)], or ["/"]. *)
Definition buf_path (pb : pathbuf) : cstring :=
  if ceq (nth (Z.to_nat (pb_s pb)) (pb_buf pb) NUL) NUL then lit "/"
  else c_str (drop (Z.to_nat (pb_s pb)) (pb_buf pb)).

(** ** Locking *)

Section ops.
Context (alloc_ok : nat -> bool).

Definition set_lock (n v : Z) : M fuse unit := update n (fun nd => set_treelock nd v).

(** The loop of [unlock_path] from [n] up to [end] or the root. *)
Fixpoint unlock_loop (fuel : nat) (n : Z) (end_ : option Z) : M fuse unit :=
  match fuel with
  | O => diverge
  | S fuel =>
    if bool_decide (Some n = end_) || (n =? FUSE_ROOT_ID) then mret tt
    else
      nd ← deref n;
      assert (negb (treelock nd =? 0));;
      assert (negb (treelock nd =? TREELOCK_WAIT_OFFSET));;
      assert (negb (treelock nd =? TREELOCK_WRITE));;
      set_lock n (if treelock nd - 1 =? TREELOCK_WAIT_OFFSET then 0 else treelock nd - 1);;
      match parent nd with
      | Some p => unlock_loop fuel p end_
      | None => abort
      end
  end.

Definition unlock_path (nodeid : Z) (wnode end_ : option Z) : M fuse unit :=
  (match wnode with
   | Some w =>
     wd ← deref w;
     assert (treelock wd =? TREELOCK_WRITE);;
     set_lock w 0
   | None => mret tt
   end);;
  n ← get_node nodeid;
  f ← get;
  unlock_loop (S (base.size (nodes f))) n end_.

(** The result of [try_get_path]: the error, [*path] and [*wnodep]. *)
Definition path_result : Type := Z * option cstring * option Z.

Definition fail_unlock (need_lock : bool) (err nodeid : Z) (wnode : option Z) (n : Z)
  : M fuse path_result :=
  (if need_lock then unlock_path nodeid wnode (Some n) else mret tt);;
  mret (err, None, None).

(** The [for] loop of [try_get_path]. *)
Fixpoint climb (fuel : nat) (nodeid : Z) (wnode : option Z) (need_lock : bool)
    (n : Z) (pb : pathbuf) : M fuse path_result :=
  match fuel with
  | O => diverge
  | S fuel =>
    if n =? FUSE_ROOT_ID then mret (0, Some (buf_path pb), wnode)
    else
      nd ← deref n;
      match name nd, parent nd with
      | Some nm, Some p =>
        ok ← alloc alloc_ok;
        match add_name ok pb nm with
        | None => diverge
        | Some None => fail_unlock need_lock (- ENOMEM) nodeid wnode n
        | Some (Some pb) =>
          if need_lock then
            if treelock nd <? 0 then fail_unlock need_lock (- EAGAIN) nodeid wnode n
            else
              set_lock n (treelock nd + 1);;
              climb fuel nodeid wnode need_lock p pb
          else climb fuel nodeid wnode need_lock p pb
        end
      | _, _ => fail_unlock need_lock (- ESTALE) nodeid wnode n
      end
  end.

(** [try_get_path(f, nodeid, name, path, wnodep, need_lock)]; [want_w] says
    whether [wnodep] is not [NULL]. *)
Definition try_get_path (nodeid : Z) (nm : option cstring) (want_w need_lock : bool)
  : M fuse path_result :=
  ok ← alloc alloc_ok;
  if negb ok then mret (- ENOMEM, None, None)
  else
    ok ← alloc alloc_ok;
    match (match nm with None => Some (Some new_buf) | Some s => add_name ok new_buf s end) with
    | None => diverge
    | Some None => mret (- ENOMEM, None, None)
    | Some (Some pb) =>
      r ← (if want_w then
             assert need_lock;;
             f ← get;
             match lookup_node f nodeid (default [] nm) with
             | Some w =>
               wd ← deref w;
               if negb (treelock wd =? 0) then
                 (if 0 <? treelock wd
                  then set_lock w (treelock wd + TREELOCK_WAIT_OFFSET) else mret tt);;
                 mret None
               else set_lock w TREELOCK_WRITE;; mret (Some (Some w))
             | None => mret (Some None)
             end
           else mret (Some None));
      match r with
      | None => mret (- EAGAIN, None, None)
      | Some wnode =>
        n ← get_node nodeid;
        f ← get;
        climb (S (base.size (nodes f))) nodeid wnode need_lock n pb
      end
    end.

(** [try_get_path2]; the [FIXME] of the source about deadlocks stands. *)
Definition try_get_path2 (nodeid1 : Z) (name1 : option cstring) (nodeid2 : Z)
    (name2 : option cstring) (w1 w2 : bool)
  : M fuse (Z * option (cstring * cstring) * option Z * option Z) :=
  r ← try_get_path nodeid1 name1 w1 true;
  let '(err, path1, wnode1) := r in
  if truth err then mret (err, None, None, None)
  else
    r ← try_get_path nodeid2 name2 w2 true;
    let '(err, path2, wnode2) := r in
    if truth err then
      unlock_path nodeid1 wnode1 None;;
      mret (err, None, None, None)
    else
      match path1, path2 with
      | Some p1, Some p2 => mret (0, Some (p1, p2), wnode1, wnode2)
      | _, _ => abort
      end.

(** ** The queue of waiters *)

(** What a waiter gets when it is served: [*path1], [*wnode1], [*path2], [*wnode2]. *)
Definition path_pair : Type := (option cstring * option Z) * (option cstring * option Z).

(** [struct lock_queue_element]: what is waited for, and the outcome.  The
    address of the element is the key [qe_key]. *)
Record queue_element := mkQe {
  qe_key : Z;
  qe_nodeid1 : Z;
  qe_name1 : option cstring;
  qe_path1 : bool;               (** [path1 != NULL]: waits for a path *)
  qe_wnode1 : bool;              (** [wnode1 != NULL] *)
  qe_second : option (Z * option cstring * bool);  (** [path2 != NULL] *)
  qe_out : path_pair;
  qe_err : Z;
  qe_done : bool;
  qe_signalled : bool;           (** [pthread_cond_signal] was called *)
}.

Definition qe_finish (qe : queue_element) (err : Z) (out : path_pair) : queue_element :=
  mkQe (qe_key qe) (qe_nodeid1 qe) (qe_name1 qe) (qe_path1 qe) (qe_wnode1 qe) (qe_second qe)
       out err true true.
Definition qe_signal (qe : queue_element) : queue_element :=
  mkQe (qe_key qe) (qe_nodeid1 qe) (qe_name1 qe) (qe_path1 qe) (qe_wnode1 qe) (qe_second qe)
       (qe_out qe) (qe_err qe) (qe_done qe) true.

Definition queue_element_wakeup (qe : queue_element) : M fuse queue_element :=
  if negb (qe_path1 qe) then
    n ← get_node (qe_nodeid1 qe);
    nd ← deref n;
    mret (if treelock nd =? 0 then qe_signal qe else qe)
  else if qe_done qe then mret qe
  else
    r ← (match qe_second qe with
         | None =>
           r ← try_get_path (qe_nodeid1 qe) (qe_name1 qe) (qe_wnode1 qe) true;
           let '(err, path, w) := r in mret (err, ((path, w), (None, None)))
         | Some (nodeid2, name2, w2) =>
           r ← try_get_path2 (qe_nodeid1 qe) (qe_name1 qe) nodeid2 name2 (qe_wnode1 qe) w2;
           let '(err, paths, wn1, wn2) := r in
           mret (err, ((fst <$> paths, wn1), (snd <$> paths, wn2)))
         end);
    let '(err, out) := r in
    if err =? - EAGAIN then mret qe else mret (qe_finish qe err out).

(** [wake_up_queued]: the elements in queue order. *)
Fixpoint wake_up_queued (lockq : list queue_element) : M fuse (list queue_element) :=
  match lockq with
  | [] => mret []
  | qe :: rest =>
    qe ← queue_element_wakeup qe;
    rest ← wake_up_queued rest;
    mret (qe :: rest)
  end.

(** [queue_path]: append, not done.  [dequeue_path] takes the element out again,
    which [wait_path] does once the element is done. *)
Definition queue_path (lockq : list queue_element) (qe : queue_element) : list queue_element :=
  lockq ++ [mkQe (qe_key qe) (qe_nodeid1 qe) (qe_name1 qe) (qe_path1 qe) (qe_wnode1 qe)
                 (qe_second qe) (qe_out qe) (qe_err qe) false (qe_signalled qe)].

Fixpoint dequeue_path (lockq : list queue_element) (key : Z) : list queue_element :=
  match lockq with
  | [] => []
  | qe :: rest => if qe_key qe =? key then rest else qe :: dequeue_path rest key
  end.

(** The second half of [wait_path]: the thread runs again, and goes back to sleep
    ([None]) unless its element is done. *)
Definition wait_path_wake (lockq : list queue_element) (qe : queue_element)
  : option (Z * path_pair * list queue_element) :=
  if qe_done qe then Some (qe_err qe, qe_out qe, dequeue_path lockq (qe_key qe)) else None.

(** [free_path_wrlock] and [free_path2]: release, then let the waiters try. *)
Definition free_path_wrlock (lockq : list queue_element) (nodeid : Z) (wnode : option Z)
  : M fuse (list queue_element) :=
  unlock_path nodeid wnode None;;
  wake_up_queued lockq.

Definition free_path (lockq : list queue_element) (nodeid : Z) (path : option cstring)
  : M fuse (list queue_element) :=
  match path with Some _ => free_path_wrlock lockq nodeid None | None => mret lockq end.

Definition free_path2 (lockq : list queue_element) (nodeid1 nodeid2 : Z) (wnode1 wnode2 : option Z)
  : M fuse (list queue_element) :=
  unlock_path nodeid1 wnode1 None;;
  unlock_path nodeid2 wnode2 None;;
  wake_up_queued lockq.

(** [get_path_common]: a result, or the element with which the thread waits. *)
Definition get_path_common (key nodeid : Z) (nm : option cstring) (want_w : bool)
  : M fuse (path_result + queue_element) :=
  r ← try_get_path nodeid nm want_w true;
  mret (if fst (fst r) =? - EAGAIN then inr (mkQe key nodeid nm true want_w None ((None, None), (None, None)) 0 false false)
        else inl r).

Definition get_path (key nodeid : Z) := get_path_common key nodeid None false.
Definition get_path_name (key nodeid : Z) (nm : cstring) := get_path_common key nodeid (Some nm) false.
Definition get_path_wrlock (key nodeid : Z) (nm : cstring) := get_path_common key nodeid (Some nm) true.

(** [get_path_nullok]: a node without a path is no error. *)
Definition get_path_nullok (nullpath_ok : bool) (key nodeid : Z) : M fuse (path_result + queue_element) :=
  if nullpath_ok then mret (inl (0, None, None))
  else
    r ← get_path_common key nodeid None false;
    mret (match r with
          | inl (err, path, w) => inl (if err =? - ESTALE then 0 else err, path, w)
          | inr qe => inr qe
          end).

Definition get_path2 (key nodeid1 : Z) (name1 : option cstring) (nodeid2 : Z) (name2 : option cstring)
    (w1 w2 : bool)
  : M fuse ((Z * option (cstring * cstring) * option Z * option Z) + queue_element) :=
  r ← try_get_path2 nodeid1 name1 nodeid2 name2 w1 w2;
  mret (if fst (fst (fst r)) =? - EAGAIN
        then inr (mkQe key nodeid1 name1 true w1 (Some (nodeid2, name2, w2))
                      ((None, None), (None, None)) 0 false false)
        else inl r).
End ops.

(** ** The path buffer: lemmas *)

(** The bytes from [s] on are the string [str] and its terminator. *)
Record buf_rep (pb : pathbuf) (str : cstring) : Prop := {
  br_size : Z.of_nat (length (pb_buf pb)) = pb_size pb;
  br_s : 0 <= pb_s pb;
  br_max : 256 <= pb_size pb < 4294967296;
  br_str : drop (Z.to_nat (pb_s pb)) (pb_buf pb) = str ++ [NUL];
}.

Lemma buf_rep_len pb str : buf_rep pb str -> pb_size pb - pb_s pb = strlen str + 1.
Proof.
  intros [Hs Hp _ Hd]. apply (f_equal length) in Hd. rewrite length_drop length_app /= in Hd.
  unfold strlen. lia.
Qed.

(** The tail of [add_name] once there is room. *)
Lemma finish_rep buf bufsize s str name :
  Z.of_nat (length buf) = bufsize -> 256 <= bufsize < 4294967296 -> strlen name + 1 <= s ->
  drop (Z.to_nat s) buf = str ++ [NUL] -> (Z.to_nat s <= length buf)%nat ->
  let buf1 := blit buf (s - strlen name) name in
  buf_rep (mkBuf (blit buf1 (s - strlen name - 1) ["/"%char]) bufsize (s - strlen name - 1))
          ("/"%char :: name ++ str).
Proof.
  intros Hb Hsz Hs Hd Hle buf1. unfold strlen in *.
  destruct (blit_before buf (s - Z.of_nat (length name)) name (str ++ [NUL])) as [H1 H2].
  { lia. }
  { rewrite -Hd. f_equal. lia. }
  { lia. }
  fold buf1 in H1, H2.
  destruct (blit_before buf1 (s - Z.of_nat (length name) - 1) ["/"%char] (name ++ str ++ [NUL])) as [H3 H4].
  { lia. }
  { rewrite -H1. f_equal. cbn. lia. }
  { cbn. lia. }
  split; cbn.
  - rewrite H4 H2. done.
  - lia.
  - done.
  - rewrite H3 /= -app_assoc. done.
Qed.

Lemma add_name_spec ok pb str name :
  buf_rep pb str -> strlen str + strlen name + 2 <= 4294967295 ->
  (add_name ok pb name = Some None /\ ok = false) \/
  exists pb', add_name ok pb name = Some (Some pb') /\ buf_rep pb' ("/"%char :: name ++ str).
Proof.
  intros Hrep Hlen. pose proof (buf_rep_len pb str Hrep) as Hl. destruct Hrep as [Hs Hp Hmax Hd].
  assert (0 <= strlen str /\ 0 <= strlen name) as [Hn1 Hn2] by (unfold strlen; lia).
  unfold add_name. destruct (Z.leb_spec (pb_s pb - strlen name) 0).
  2: { right. eexists. split; [done|]. apply (finish_rep _ _ (pb_s pb)); try done; [lia|]. lia. }
  assert (u32 (pb_size pb - pb_s pb) = strlen str + 1) as Hpl.
  { rewrite wrap_small; [lia|]. lia. }
  rewrite Hpl.
  destruct (grow_spec 32 (pb_size pb) (strlen str + 1 + strlen name + 1)) as (nb & -> & Hnb1 & Hnb2);
    [lia|lia|cbn; lia|].
  destruct ok; cbn [negb]; [|by left]. right. eexists. split; [done|].
  set (newbuf := resize (Z.to_nat nb) NUL (pb_buf pb)).
  assert (length newbuf = Z.to_nat nb) as Hlnb by apply length_resize.
  assert (take (Z.to_nat (strlen str + 1)) (drop (Z.to_nat (pb_size pb - (strlen str + 1))) newbuf)
    = str ++ [NUL]) as ->.
  { unfold newbuf. rewrite resize_spec (take_ge (pb_buf pb)); [lia|].
    replace (Z.to_nat (pb_size pb - (strlen str + 1))) with (Z.to_nat (pb_s pb)) by lia.
    rewrite drop_app_le; [lia|]. rewrite Hd take_app_length' //.
    rewrite length_app /=. unfold strlen. lia. }
  destruct (blit_before newbuf (nb - (strlen str + 1)) (str ++ [NUL]) []) as [H1 H2].
  { lia. }
  { apply drop_ge. rewrite Hlnb length_app /=. unfold strlen. lia. }
  { rewrite Hlnb length_app /=. unfold strlen in *. lia. }
  rewrite app_nil_r in H1. by apply (finish_rep _ _ (nb - (strlen str + 1))); try lia.
Qed.

(** ** The meaning of the [treelock] field *)

(** [r] readers and [w] writers: a plain count, a count with the mark of a
    waiting writer, or the writer. *)
Definition lock_ok (v : Z) (r w : nat) : Prop :=
  (w = 0%nat /\ (v = Z.of_nat r \/ (0 < r)%nat /\ v = Z.of_nat r + TREELOCK_WAIT_OFFSET)) \/
  (w = 1%nat /\ r = 0%nat /\ v = TREELOCK_WRITE).


(** [R] lists the nodes of all paths held (a node once per path), [W] the
    write-locked nodes. *)
Definition lock_inv (f : fuse) (R W : list Z) : Prop :=
  Z.of_nat (length R) < INT_MAX /\
  forall n nd, nodes f !! n = Some nd -> lock_ok (treelock nd) (count R n) (count W n).

(** Only lock words differ. *)
Record same_tree (f f' : fuse) : Prop := {
  st_nodes : forall n, (fun nd => set_treelock nd 0) <$> nodes f' !! n =
                       (fun nd => set_treelock nd 0) <$> nodes f !! n;
  st_id : id_table f' = id_table f;
  st_name : name_table f' = name_table f;
  st_lru : lru_table f' = lru_table f;
  st_ctr : ctr f' = ctr f /\ f_generation f' = f_generation f /\ hidectr f' = hidectr f;
}.

Lemma same_tree_refl f : same_tree f f.
Proof. by split. Qed.

Lemma same_tree_trans f1 f2 f3 : same_tree f1 f2 -> same_tree f2 f3 -> same_tree f1 f3.
Proof.
  intros [N1 I1 M1 L1 (?&?&?)] [N2 I2 M2 L2 (?&?&?)].
  split; [intros n; by rewrite N2|congruence..|split_and!; congruence].
Qed.

Lemma same_tree_lookup f f' n nd :
  same_tree f f' -> nodes f !! n = Some nd ->
  exists nd', nodes f' !! n = Some nd' /\ parent nd' = parent nd /\ name nd' = name nd.
Proof.
  intros Hst Hn. pose proof (st_nodes _ _ Hst n) as H. rewrite Hn in H.
  destruct (nodes f' !! n) as [nd'|]; [|done]. exists nd'. cbn in H. by injection H.
Qed.

Lemma same_tree_sym f f' : same_tree f f' -> same_tree f' f.
Proof. intros [N I M L (?&?&?)]. by split. Qed.

Lemma same_tree_tick f k : same_tree f (set_tick f k).
Proof. by split. Qed.

Lemma same_tree_lock f n nd v :
  nodes f !! n = Some nd -> same_tree f (set_nodes f (<[n := set_treelock nd v]> (nodes f))).
Proof.
  intros Hn. split; try done. intros m. cbn. destruct (decide (m = n)) as [->|].
  - by rewrite lookup_insert_eq Hn.
  - by rewrite lookup_insert_ne.
Qed.

Lemma same_tree_size f f' : same_tree f f' -> base.size (nodes f') = base.size (nodes f).
Proof.
  intros Hst. rewrite -!size_dom. f_equal. apply set_eq. intros n. rewrite !elem_of_dom.
  pose proof (st_nodes _ _ Hst n) as H. destruct (nodes f !! n), (nodes f' !! n); cbn in H; try done;
    by split; intros [? ?].
Qed.

(** The four moves of a lock word. *)
Lemma lock_ok_read v r w :
  lock_ok v r w -> 0 <= v -> Z.of_nat r < INT_MAX -> lock_ok (v + 1) (S r) w.
Proof.
  unfold lock_ok, TREELOCK_WAIT_OFFSET, TREELOCK_WRITE, INT_MIN, INT_MAX.
  intros [(-> & [->|[? ->]])|(-> & -> & ->)] Hv Hr; lia.
Qed.

Lemma lock_ok_unread v r w :
  lock_ok v (S r) w -> Z.of_nat (S r) < INT_MAX ->
  v <> 0 /\ v <> TREELOCK_WAIT_OFFSET /\ v <> TREELOCK_WRITE /\
  lock_ok (if v - 1 =? TREELOCK_WAIT_OFFSET then 0 else v - 1) r w.
Proof.
  unfold lock_ok, TREELOCK_WAIT_OFFSET, TREELOCK_WRITE, INT_MIN, INT_MAX.
  intros Hl Hr. destruct (Z.eqb_spec (v - 1) (-2147483648)); lia.
Qed.

Lemma lock_ok_write r w :
  lock_ok 0 r w -> Z.of_nat r < INT_MAX -> lock_ok TREELOCK_WRITE r (S w).
Proof. unfold lock_ok, TREELOCK_WAIT_OFFSET, TREELOCK_WRITE, INT_MIN, INT_MAX. lia. Qed.

Lemma lock_ok_unwrite v r w : lock_ok v r (S w) -> v = TREELOCK_WRITE /\ lock_ok 0 r w.
Proof. unfold lock_ok, TREELOCK_WAIT_OFFSET, TREELOCK_WRITE, INT_MIN. lia. Qed.

Lemma lock_ok_wait v r w :
  lock_ok v r w -> 0 < v -> Z.of_nat r < INT_MAX -> lock_ok (v + TREELOCK_WAIT_OFFSET) r w.
Proof. unfold lock_ok, TREELOCK_WAIT_OFFSET, TREELOCK_WRITE, INT_MIN, INT_MAX. lia. Qed.

Lemma count_le (l : list Z) n : (count l n <= length l)%nat.
Proof. apply count_occ_bound. Qed.

(** Writing one lock word. *)
Lemma lock_inv_set f R W R' W' n nd v :
  lock_inv f R W -> nodes f !! n = Some nd -> Z.of_nat (length R') < INT_MAX ->
  lock_ok v (count R' n) (count W' n) ->
  (forall m, m <> n -> count R' m = count R m /\ count W' m = count W m) ->
  lock_inv (set_nodes f (<[n := set_treelock nd v]> (nodes f))) R' W'.
Proof.
  intros [_ Hinv] Hn Hl Hv Hothers. split; [done|]. intros m md. cbn.
  destruct (decide (m = n)) as [->|Hne].
  - rewrite lookup_insert_eq. by intros [= <-].
  - rewrite lookup_insert_ne //. intros Hm. destruct (Hothers m Hne) as [-> ->]. by apply Hinv.
Qed.

(** ** Segments of a path *)

(** [l] are the nodes met when following [parent] from [n] until [e]. *)
Inductive seg (ns : gmap Z node) : Z -> list Z -> Z -> Prop :=
  | seg_nil n : seg ns n [] n
  | seg_cons n nd p l e :
      n <> FUSE_ROOT_ID -> ns !! n = Some nd -> parent nd = Some p -> seg ns p l e ->
      seg ns n (n :: l) e.

Lemma seg_snoc ns n l e nd p :
  seg ns n l e -> e <> FUSE_ROOT_ID -> ns !! e = Some nd -> parent nd = Some p ->
  seg ns n (l ++ [e]) p.
Proof.
  induction 1; intros; cbn.
  - econstructor; [done..|constructor].
  - econstructor; [done..|auto].
Qed.

Lemma seg_same f f' n l e : same_tree f f' -> seg (nodes f) n l e -> seg (nodes f') n l e.
Proof.
  intros Hst. induction 1 as [|n nd p l e Hr Hn Hp _ IH]; [constructor|].
  destruct (same_tree_lookup f f' n nd Hst Hn) as (nd' & ? & ? & _).
  apply (seg_cons _ n nd' p); [done|done|congruence|done].
Qed.

Definition ranked (rank : Z -> nat) (ns : gmap Z node) : Prop :=
  forall n nd p, ns !! n = Some nd -> parent nd = Some p -> (rank p < rank n)%nat.

Lemma same_tree_ranked rank f f' : same_tree f f' -> ranked rank (nodes f) -> ranked rank (nodes f').
Proof.
  intros Hst Hr n nd p Hn Hp.
  destruct (same_tree_lookup f' f n nd (same_tree_sym _ _ Hst) Hn) as (nd0 & Hn0 & Hp0 & _).
  eapply Hr; [done|congruence].
Qed.

Lemma seg_le rank ns n l e : ranked rank ns -> seg ns n l e -> (rank e <= rank n)%nat.
Proof.
  intros Hr. induction 1 as [|n nd p l e _ Hn Hp _ IH]; [done|]. pose proof (Hr n nd p Hn Hp). lia.
Qed.

Lemma seg_ranked rank ns n l e x :
  ranked rank ns -> seg ns n l e -> x ∈ l -> (rank e < rank x <= rank n)%nat.
Proof.
  intros Hr. induction 1 as [|n nd p l e _ Hn Hp Hs IH]; [by intros ?%elem_of_nil|].
  pose proof (Hr n nd p Hn Hp). pose proof (seg_le rank ns p l e Hr Hs).
  intros [->|Hx]%elem_of_cons; [lia|]. specialize (IH Hx). lia.
Qed.

Lemma seg_NoDup rank ns n l e : ranked rank ns -> seg ns n l e -> NoDup l.
Proof.
  intros Hr. induction 1 as [|n nd p l e _ Hn Hp Hs IH]; [constructor|].
  apply list.NoDup_cons. split; [|done]. intros Hin.
  pose proof (seg_ranked rank ns p l e n Hr Hs Hin). pose proof (Hr n nd p Hn Hp). lia.
Qed.

Lemma seg_dom ns n l e : seg ns n l e -> forall x, x ∈ l -> x ∈ dom ns.
Proof.
  induction 1 as [|n nd p l e _ Hn _ _ IH]; intros x; [by intros ?%elem_of_nil|].
  intros [->|?]%elem_of_cons; [by apply elem_of_dom_2 in Hn|auto].
Qed.

(** A path is no longer than the number of nodes: the loops have fuel enough. *)
Lemma seg_length rank ns n l e :
  ranked rank ns -> seg ns n l e -> (length l <= base.size ns)%nat.
Proof.
  intros Hr Hs. rewrite -(size_list_to_set (C := gset Z) l (seg_NoDup rank ns n l e Hr Hs)) -size_dom.
  apply subseteq_size. intros x Hx%elem_of_list_to_set. by eapply seg_dom.
Qed.

(** ** Unlocking *)

Lemma count_cons (a : Z) l n : count (a :: l) n = if a =? n then S (count l n) else count l n.
Proof. cbn. destruct (Z.eq_dec a n) as [->|]; [by rewrite Z.eqb_refl|]. by rewrite (proj2 (Z.eqb_neq a n)). Qed.

Lemma wp_set_lock n nd v (Q : unit -> fuse -> Prop) f :
  nodes f !! n = Some nd -> Q tt (set_nodes f (<[n := set_treelock nd v]> (nodes f))) ->
  wp (set_lock n v) Q f.
Proof. intros. by eapply (wp_update n nd (fun nd => set_treelock nd v)). Qed.

Lemma unlock_loop_spec rank l : forall fuel f m e end_ R W,
  ranked rank (nodes f) -> seg (nodes f) m l e ->
  (end_ = Some e \/ end_ = None /\ e = FUSE_ROOT_ID) ->
  lock_inv f (l ++ R) W -> (length l < fuel)%nat ->
  wp (unlock_loop fuel m end_) (fun _ f' => lock_inv f' R W /\ same_tree f f') f.
Proof.
  induction l as [|a l IH]; intros fuel f m e end_ R W Hr Hs He Hinv Hf;
    (destruct fuel as [|fuel]; [cbn in Hf; lia|]); cbn [unlock_loop].
  - inversion Hs; subst. assert (bool_decide (Some e = end_) || (e =? FUSE_ROOT_ID) = true) as ->.
    { destruct He as [->|[-> ->]]; [by rewrite bool_decide_true|by rewrite Z.eqb_refl orb_true_r]. }
    apply wp_ret. split; [done|apply same_tree_refl].
  - inversion Hs as [|? nd p ? ? Hroot Hn Hp Hs']; subst.
    assert (a <> e) as Hae.
    { intros ->. pose proof (seg_ranked rank _ _ _ _ e Hr Hs ltac:(apply elem_of_cons; auto)). lia. }
    assert (bool_decide (Some a = end_) || (a =? FUSE_ROOT_ID) = false) as ->.
    { rewrite (proj2 (Z.eqb_neq _ _) Hroot) orb_false_r. apply bool_decide_eq_false.
      destruct He as [->|[-> _]]; congruence. }
    destruct Hinv as [Hlen Hinv]. pose proof (Hinv a nd Hn) as Hok.
    cbn [app] in Hok, Hlen. rewrite count_cons Z.eqb_refl in Hok.
    pose proof (count_le (l ++ R) a). cbn in Hlen.
    destruct (lock_ok_unread _ _ _ Hok) as (H1 & H2 & H3 & Hok'); [lia|].
    apply wp_bind. eapply wp_deref; [done|].
    apply wp_bind, wp_assert; [by apply negb_true_iff, Z.eqb_neq|].
    apply wp_bind, wp_assert; [by apply negb_true_iff, Z.eqb_neq|].
    apply wp_bind, wp_assert; [by apply negb_true_iff, Z.eqb_neq|].
    apply wp_bind. eapply wp_set_lock; [done|]. rewrite Hp.
    set (f1 := set_nodes f _).
    assert (same_tree f f1) as Hst by by apply same_tree_lock.
    eapply wp_mono; [apply (IH fuel f1 p e end_ R W)|].
    + by eapply same_tree_ranked.
    + by eapply seg_same.
    + done.
    + eapply (lock_inv_set f ((a :: l) ++ R) W); [by split|done|lia|done|].
      intros x Hx. cbn [app]. rewrite count_cons (proj2 (Z.eqb_neq a x)) //; congruence.
    + cbn in Hf. lia.
    + intros _ f2 [? ?]. split; [done|]. by eapply same_tree_trans.
Qed.

(** ** Locking a path *)

Definition name_of (ns : gmap Z node) (n : Z) : cstring :=
  match ns !! n with Some nd => default [] (name nd) | None => [] end.

(** The string built while climbing over [l], starting from [suf]. *)
Definition path_of (ns : gmap Z node) (l : list Z) (suf : cstring) : cstring :=
  foldl (fun acc n => "/"%char :: name_of ns n ++ acc) suf l.

(** What the last component adds: nothing, or ["/" ++ name]. *)
Definition suffix (nm : option cstring) : cstring :=
  match nm with Some s => "/"%char :: s | None => [] end.

Definition show_path (s : cstring) : cstring :=
  match s with [] => lit "/" | _ => s end.

(** The names are C strings and no path needs more than 32 bits. *)
Record paths_ok (ns : gmap Z node) (nodeid : Z) (suf : cstring) : Prop := {
  po_suf : nul_free suf;
  po_names : forall n, nul_free (name_of ns n);
  po_len : forall l n, seg ns nodeid l n -> strlen (path_of ns l suf) + 1 <= 4294967295;
}.

Lemma path_of_nul_free ns l suf :
  nul_free suf -> (forall n, nul_free (name_of ns n)) -> nul_free (path_of ns l suf).
Proof.
  intros Hs Hn. revert suf Hs. induction l as [|n l IH]; intros suf Hs; [done|]. apply IH.
  apply nul_free_cons. split; [done|]. by apply nul_free_app.
Qed.

Lemma path_of_snoc ns l n suf : path_of ns (l ++ [n]) suf = "/"%char :: name_of ns n ++ path_of ns l suf.
Proof. unfold path_of. by rewrite foldl_app. Qed.

Lemma buf_path_rep pb str : buf_rep pb str -> nul_free str -> buf_path pb = show_path str.
Proof.
  intros [_ _ _ Hd] Hnf. unfold buf_path.
  assert (nth (Z.to_nat (pb_s pb)) (pb_buf pb) NUL = nth 0 (str ++ [NUL]) NUL) as ->.
  { rewrite -Hd. symmetry. rewrite !nth_lookup lookup_drop Nat.add_0_r. done. }
  rewrite Hd. destruct str as [|c str]; cbn [app nth]; [done|].
  pose proof Hnf as [Hc _]%nul_free_cons. rewrite (proj2 (ceq_false c NUL) Hc).
  cbn [show_path]. rewrite app_comm_cons c_str_app_NUL. by apply c_str_id.
Qed.

Lemma new_buf_rep : buf_rep new_buf [].
Proof. by split. Qed.

Section lock.
Context (alloc_ok : nat -> bool) (remember : Z) (rank : Z -> nat).
(** The store when the operation starts. *)
Context (f0 : fuse).
Hypothesis Hinv0 : inv remember rank ∅ ∅ None f0.

Lemma ranked0 : ranked rank (nodes f0).
Proof.
  intros n nd p Hn Hp. by destruct (inv_parent _ _ _ _ _ _ Hinv0 n nd p Hn ltac:(set_solver) Hp).
Qed.

Lemma get_node_same f n (Q : Z -> fuse -> Prop) :
  same_tree f0 f -> n ∈ dom (nodes f0) -> Q n f -> wp (get_node n) Q f.
Proof.
  intros Hst Hn HQ. destruct (inv_id _ _ _ _ _ _ Hinv0) as (S & HS & _ & Hsub).
  unfold wp, get_node. rewrite -(st_id _ _ Hst) in HS.
  rewrite (get_node_nocheck_spec f S n HS) bool_decide_true //. apply Hsub. set_solver.
Qed.

Definition wlist (wnode : option Z) : list Z := match wnode with Some w => [w] | None => [] end.

Lemma unlock_path_wp f nodeid l e wnode end_ R W :
  same_tree f0 f -> nodeid ∈ dom (nodes f0) -> seg (nodes f0) nodeid l e ->
  (end_ = Some e \/ end_ = None /\ e = FUSE_ROOT_ID) ->
  (forall w, wnode = Some w -> w ∈ dom (nodes f0)) ->
  lock_inv f (l ++ R) (wlist wnode ++ W) ->
  wp (unlock_path nodeid wnode end_) (fun _ f' => lock_inv f' R W /\ same_tree f0 f') f.
Proof.
  intros Hst Hid Hseg Hend Hw Hinv. unfold unlock_path. apply wp_bind.
  apply wp_mono with (P := fun _ f1 => same_tree f0 f1 /\ lock_inv f1 (l ++ R) W).
  { destruct wnode as [w|]; [|by apply wp_ret].
    destruct (proj1 (elem_of_dom _ _) (Hw w eq_refl)) as [wd0 Hwd0].
    destruct (same_tree_lookup _ _ _ _ Hst Hwd0) as (wd & Hwd & _).
    destruct Hinv as [Hlen Hinv]. pose proof (Hinv w wd Hwd) as Hok.
    cbn [wlist app] in Hok. rewrite (count_cons w W w) Z.eqb_refl in Hok.
    destruct (lock_ok_unwrite _ _ _ Hok) as [Hv Hok'].
    apply wp_bind. eapply wp_deref; [done|]. apply wp_bind, wp_assert; [by apply Z.eqb_eq|].
    eapply wp_set_lock; [done|]. split; [eapply same_tree_trans; [exact Hst|by apply same_tree_lock]|].
    eapply (lock_inv_set f (l ++ R) (wlist (Some w) ++ W)); [by split|done|done|done|].
    intros m Hm. cbn [wlist app]. rewrite (count_cons w W m) (proj2 (Z.eqb_neq w m)) //; congruence. }
  intros _ f1 [Hst1 Hinv1]. apply wp_bind. eapply get_node_same; [done|done|].
  apply wp_bind, wp_get.
  eapply wp_mono; [apply (unlock_loop_spec rank l _ f1 nodeid e end_ R W)|].
  - eapply same_tree_ranked; [done|apply ranked0].
  - by eapply seg_same.
  - done.
  - done.
  - rewrite (same_tree_size _ _ Hst1). pose proof (seg_length rank _ _ _ _ ranked0 Hseg). lia.
  - intros _ f2 [? ?]. split; [done|]. by eapply same_tree_trans.
Qed.

(** Why [try_get_path] fails: an allocation failed; a node on the way to the root
    is locked for writing or waited for, or the entry to be write-locked is in
    use; or a node on the way has been unlinked. *)
Definition fail_reason (Pw : Z -> Prop) (nodeid err : Z) : Prop :=
  (err = - ENOMEM /\ exists k, alloc_ok k = false) \/
  (err = - EAGAIN /\ exists n nd, nodes f0 !! n = Some nd /\
     ((exists l, seg (nodes f0) nodeid l n) /\ treelock nd < 0 \/ Pw n /\ treelock nd <> 0)) \/
  (err = - ESTALE /\ exists l n nd, seg (nodes f0) nodeid l n /\ n <> FUSE_ROOT_ID /\
     nodes f0 !! n = Some nd /\ (name nd = None \/ parent nd = None)).

(** No node but [w] has become write-locked or waited for. *)
Definition unmarked (f f' : fuse) (w : option Z) : Prop :=
  forall m md md0, nodes f' !! m = Some md -> nodes f !! m = Some md0 -> treelock md < 0 ->
    treelock md0 < 0 \/ w = Some m.

(** What [try_get_path] reports; the write-locked node satisfies [Pw]. *)
Definition get_path_post (Pw : Z -> Prop) nodeid (suf : cstring) (R W : list Z)
    (r : path_result) (f' : fuse) : Prop :=
  let '(err, path, w) := r in
  same_tree f0 f' /\
  (err = 0 /\ (forall x, w = Some x -> Pw x) /\ unmarked f0 f' w /\
     (exists l, seg (nodes f0) nodeid l FUSE_ROOT_ID /\
        path = Some (show_path (path_of (nodes f0) l suf)) /\ lock_inv f' (l ++ R) (wlist w ++ W)) \/
   fail_reason Pw nodeid err /\ path = None /\ w = None /\ lock_inv f' R W).

Lemma fail_unlock_wp Pw f nodeid pre n wnode err suf R W :
  same_tree f0 f -> nodeid ∈ dom (nodes f0) -> seg (nodes f0) nodeid pre n ->
  (forall w, wnode = Some w -> w ∈ dom (nodes f0)) ->
  lock_inv f (pre ++ R) (wlist wnode ++ W) ->
  fail_reason Pw nodeid err ->
  wp (fail_unlock true err nodeid wnode n) (get_path_post Pw nodeid suf R W) f.
Proof.
  intros. unfold fail_unlock. apply wp_bind.
  eapply wp_mono; [by eapply (unlock_path_wp f nodeid pre n); eauto|].
  intros _ f' [? ?]. apply wp_ret. split; [done|]. right. auto.
Qed.

Lemma climb_wp (Pw : Z -> Prop) nodeid wnode suf R W :
  nodeid ∈ dom (nodes f0) -> paths_ok (nodes f0) nodeid suf ->
  (forall w, wnode = Some w -> Pw w) ->
  (forall w, Pw w -> exists wd, nodes f0 !! w = Some wd /\ parent wd = Some nodeid) ->
  Z.of_nat (length R) + Z.of_nat (base.size (nodes f0)) < INT_MAX ->
  forall fuel f pre n pb, same_tree f0 f -> n ∈ dom (nodes f0) -> seg (nodes f0) nodeid pre n ->
  lock_inv f (pre ++ R) (wlist wnode ++ W) -> buf_rep pb (path_of (nodes f0) pre suf) ->
  (base.size (nodes f0) < fuel + length pre)%nat ->
  (forall m md md0, nodes f !! m = Some md -> nodes f0 !! m = Some md0 -> treelock md < 0 ->
     treelock md0 < 0 \/ wnode = Some m) ->
  wp (climb alloc_ok fuel nodeid wnode true n pb) (get_path_post Pw nodeid suf R W) f.
Proof.
  intros Hid [Hsuf Hnames Hlen] HPw Hdomw Hmax.
  assert (forall w, wnode = Some w -> w ∈ dom (nodes f0)) as Hw.
  { intros w Hw. destruct (Hdomw w (HPw w Hw)) as (wd & Hwd & _). by apply elem_of_dom_2 in Hwd. }
  induction fuel as [|fuel IH]; intros f pre n pb Hst Hn Hseg Hinv Hpb Hf Hneg.
  { pose proof (seg_length rank _ _ _ _ ranked0 Hseg). lia. }
  cbn [climb]. destruct (Z.eqb_spec n FUSE_ROOT_ID) as [->|Hroot].
  { apply wp_ret. split; [done|]. left. split_and!; [done|done|done|]. exists pre. split_and!; [done| |done].
    rewrite (buf_path_rep pb _ Hpb) //. by apply path_of_nul_free. }
  apply elem_of_dom in Hn as [nd0 Hn0]. destruct (same_tree_lookup _ _ _ _ Hst Hn0) as (nd & Hnd & Hpar & Hname).
  apply wp_bind. eapply wp_deref; [done|].
  destruct (name nd) as [nm|] eqn:Hnm.
  2: { eapply fail_unlock_wp; eauto. right. right. split; [done|]. exists pre, n, nd0. auto. }
  destruct (parent nd) as [p|] eqn:Hp.
  2: { eapply fail_unlock_wp; eauto. right. right. split; [done|]. exists pre, n, nd0. auto. }
  apply wp_bind, wp_alloc.
  set (f1 := set_tick f (S (tick f))). assert (same_tree f0 f1) as Hst1 by (eapply same_tree_trans; [done|apply same_tree_tick]).
  assert (name_of (nodes f0) n = nm) as Hnmo by (unfold name_of; rewrite Hn0 -Hname; done).
  symmetry in Hpar. assert (seg (nodes f0) nodeid (pre ++ [n]) p) as Hseg' by by eapply seg_snoc.
  pose proof (Hlen _ _ Hseg') as Hl. rewrite path_of_snoc Hnmo in Hl.
  destruct (add_name_spec (alloc_ok (tick f)) pb (path_of (nodes f0) pre suf) nm Hpb)
    as [[-> Hfail]|(pb' & -> & Hpb')].
  { unfold strlen in *. cbn in Hl. rewrite length_app in Hl. lia. }
  { eapply fail_unlock_wp; eauto. left. eauto. }
  destruct (Z.ltb_spec (treelock nd) 0) as [Hlt|Hge].
  { eapply fail_unlock_wp; eauto. right. left. split; [done|]. exists n, nd0. split; [done|]. left.
    split; [by exists pre|]. destruct (Hneg n nd nd0 Hnd Hn0 Hlt) as [?|Hwn]; [done|]. exfalso.
    destruct (Hdomw n (HPw n Hwn)) as (wd & Hwd & Hwp). pose proof (ranked0 n wd nodeid Hwd Hwp).
    pose proof (seg_le rank _ _ _ _ ranked0 Hseg). lia. }
  apply wp_bind. eapply (wp_set_lock n nd); [done|].
  destruct (inv_parent _ _ _ _ _ _ Hinv0 n nd0 p Hn0 ltac:(set_solver) Hpar) as [Hpd _].
  pose proof (seg_length rank _ _ _ _ ranked0 Hseg') as Hlen'. rewrite length_app /= in Hlen'.
  assert (forall m, count ((pre ++ [n]) ++ R) m = if n =? m then S (count (pre ++ R) m) else count (pre ++ R) m) as Hcnt.
  { intros m. rewrite -app_assoc !count_occ_app /=. destruct (Z.eq_dec n m) as [->|].
    - rewrite Z.eqb_refl. lia.
    - rewrite (proj2 (Z.eqb_neq n m)) //. }
  apply (IH _ (pre ++ [n]) p pb').
  - eapply same_tree_trans; [exact Hst1|]. by apply (same_tree_lock f1).
  - done.
  - done.
  - destruct Hinv as [Hlr Hinv]. eapply (lock_inv_set f1 (pre ++ R) (wlist wnode ++ W)); [by split|done| | |].
    + rewrite !length_app /=. lia.
    + rewrite Hcnt Z.eqb_refl. apply lock_ok_read; [by apply Hinv|done|].
      pose proof (count_le (pre ++ R) n). lia.
    + intros m Hm. rewrite Hcnt (proj2 (Z.eqb_neq n m)) //; congruence.
  - by rewrite path_of_snoc Hnmo.
  - rewrite length_app /=. lia.
  - intros m md md0. cbn. destruct (decide (m = n)) as [->|Hmn].
    + rewrite lookup_insert_eq. intros [= <-] _. cbn. lia.
    + rewrite lookup_insert_ne //. apply Hneg.
Qed.

(** The write lock on the last component. *)
Lemma try_wlock_wp f nodeid nm R W :
  same_tree f0 f -> nodes f = nodes f0 -> lock_inv f R W ->
  wp (assert true;;
      f ← get;
      match lookup_node f nodeid nm with
      | Some w =>
        wd ← deref w;
        if negb (treelock wd =? 0) then
          (if 0 <? treelock wd
           then set_lock w (treelock wd + TREELOCK_WAIT_OFFSET) else mret tt);;
          mret None
        else set_lock w TREELOCK_WRITE;; mret (Some (Some w))
      | None => mret (Some None)
      end) (fun r f' => same_tree f0 f' /\
        match r with
        | None => lock_inv f' R W /\ exists w wd, lookup_node f0 nodeid nm = Some w /\
            nodes f0 !! w = Some wd /\ treelock wd <> 0
        | Some wnode => (forall w, wnode = Some w -> lookup_node f0 nodeid nm = Some w) /\
            lock_inv f' R (wlist wnode ++ W) /\
            (forall m md md0, nodes f' !! m = Some md -> nodes f0 !! m = Some md0 -> treelock md < 0 ->
               treelock md0 < 0 \/ wnode = Some m)
        end) f.
Proof.
  intros Hst Hns Hinv. apply wp_bind, wp_assert; [done|]. apply wp_bind, wp_get.
  assert (lookup_node f nodeid nm = lookup_node f0 nodeid nm) as ->.
  { unfold lookup_node, is_named. by rewrite Hns (st_name _ _ Hst). }
  destruct (lookup_node f0 nodeid nm) as [w|] eqn:Hl.
  2: { apply wp_ret. rewrite Hns. split_and!; [done|done|done|]. intros. simplify_eq. by left. }
  pose proof Hl as (wd & Hwd & _)%(lookup_node_spec _ _ _ _ _ _ _ _ Hinv0).
  pose proof Hwd as Hwd0. rewrite -Hns in Hwd.
  destruct Hinv as [Hlen Hinv]. pose proof (Hinv w wd Hwd) as Hok. pose proof (count_le R w).
  apply wp_bind. eapply wp_deref; [done|]. destruct (Z.eqb_spec (treelock wd) 0) as [Hz|Hz]; cbn [negb].
  - apply wp_bind. eapply (wp_set_lock w wd); [done|]. apply wp_ret.
    split; [eapply same_tree_trans; [exact Hst|by apply same_tree_lock]|].
    split; [intros x [= <-]; done|]. split.
    { eapply (lock_inv_set f R W); [by split|done|done| |].
      + cbn [wlist app]. rewrite (count_cons w W w) Z.eqb_refl. apply lock_ok_write; [by rewrite -Hz|lia].
      + intros m Hm. cbn [wlist app]. rewrite (count_cons w W m) (proj2 (Z.eqb_neq w m)) //; congruence. }
    intros m md md0. cbn. destruct (decide (m = w)) as [->|Hmw]; [by right|].
    rewrite lookup_insert_ne // Hns. intros. simplify_eq. by left.
  - apply wp_bind. destruct (Z.ltb_spec 0 (treelock wd)).
    + eapply (wp_set_lock w wd); [done|]. apply wp_ret.
      split; [eapply same_tree_trans; [exact Hst|by apply same_tree_lock]|].
      split; [|by exists w, wd].
      eapply (lock_inv_set f R W); [by split|done|done| |done]. apply lock_ok_wait; [done..|lia].
    + apply wp_ret, wp_ret. split; [done|]. split; [by split|by exists w, wd].
Qed.

(** The buffer with the last component. *)
Lemma first_buf nodeid nm ok :
  paths_ok (nodes f0) nodeid (suffix nm) ->
  let r := match nm with None => Some (Some new_buf) | Some s => add_name ok new_buf s end in
  r = Some None /\ ok = false \/
  exists pb, r = Some (Some pb) /\ buf_rep pb (path_of (nodes f0) [] (suffix nm)).
Proof.
  intros Hpo. destruct nm as [s|]; cbn zeta; [|right; exists new_buf; split; [done|apply new_buf_rep]].
  destruct (add_name_spec ok new_buf [] s new_buf_rep) as [[-> ?]|(pb & -> & Hpb)]; [|by left|].
  - pose proof (po_len _ _ _ Hpo [] nodeid ltac:(constructor)) as Hl. unfold strlen in *. cbn in *. lia.
  - right. exists pb. rewrite app_nil_r in Hpb. done.
Qed.

Lemma try_get_path_wp nodeid nm want_w R W :
  nodeid ∈ dom (nodes f0) -> paths_ok (nodes f0) nodeid (suffix nm) -> lock_inv f0 R W ->
  Z.of_nat (length R) + Z.of_nat (base.size (nodes f0)) < INT_MAX ->
  wp (try_get_path alloc_ok nodeid nm want_w true)
     (get_path_post (fun w => want_w = true /\ lookup_node f0 nodeid (default [] nm) = Some w)
        nodeid (suffix nm) R W) f0.
Proof.
  intros Hid Hpo Hinv Hmax. unfold try_get_path. apply wp_bind, wp_alloc.
  destruct (alloc_ok (tick f0)) eqn:Hok; cbn [negb].
  2: { apply wp_ret. split; [apply same_tree_tick|]. right. split; [left; eauto|auto]. }
  apply wp_bind, wp_alloc. set (f2 := set_tick (set_tick f0 _) _).
  assert (same_tree f0 f2) as Hst2 by by split.
  destruct (first_buf nodeid nm (alloc_ok (tick (set_tick f0 (S (tick f0))))) Hpo) as [[-> Hfail]|(pb & -> & Hpb)].
  { apply wp_ret. split; [done|]. right. split; [left; eauto|auto]. }
  apply wp_bind.
  apply wp_mono with (P := fun r f' => same_tree f0 f' /\
    match r with
    | None => lock_inv f' R W /\ exists w wd, want_w = true /\ lookup_node f0 nodeid (default [] nm) = Some w /\
        nodes f0 !! w = Some wd /\ treelock wd <> 0
    | Some wnode => (forall w, wnode = Some w -> want_w = true /\ lookup_node f0 nodeid (default [] nm) = Some w) /\
        lock_inv f' R (wlist wnode ++ W) /\
        (forall m md md0, nodes f' !! m = Some md -> nodes f0 !! m = Some md0 -> treelock md < 0 ->
           treelock md0 < 0 \/ wnode = Some m)
    end).
  { destruct want_w.
    - eapply wp_mono; [by apply (try_wlock_wp f2 nodeid (default [] nm) R W)|].
      intros [wnode|] f3 [? Hr]; (split; [done|]).
      + destruct Hr as (Hw & ? & ?). split_and!; [|done|done]. auto.
      + destruct Hr as (? & w & wd & ? & ? & ?). split; [done|]. exists w, wd. auto.
    - apply wp_ret. split_and!; [done|done|done|]. intros m md md0 Hm Hm0. cbn in Hm. simplify_eq. by left. }
  intros [wnode|] f3 [Hst3 Hr].
  - destruct Hr as (Hw & Hinv3 & Hneg). apply wp_bind. eapply (get_node_same f3 nodeid); [done|done|].
    apply wp_bind, wp_get.
    apply (climb_wp (fun w => want_w = true /\ lookup_node f0 nodeid (default [] nm) = Some w)
             nodeid wnode (suffix nm) R W) with (pre := []); try done; [|constructor|].
    + intros w [_ (wd & ? & ? & _)%(lookup_node_spec _ _ _ _ _ _ _ _ Hinv0)]. eauto.
    + rewrite (same_tree_size _ _ Hst3). cbn. lia.
  - destruct Hr as (? & w & wd & Hl & Hlk & Hwd & Hne). apply wp_ret. split; [done|]. right.
    split; [|auto]. right. left. split; [done|]. exists w, wd. auto.
Qed.

(** Reading a path without locking it changes nothing. *)
Lemma climb_free_wp nodeid suf :
  nodeid ∈ dom (nodes f0) -> paths_ok (nodes f0) nodeid suf ->
  forall fuel j pre n pb, n ∈ dom (nodes f0) -> seg (nodes f0) nodeid pre n ->
  buf_rep pb (path_of (nodes f0) pre suf) -> (base.size (nodes f0) < fuel + length pre)%nat ->
  wp (climb alloc_ok fuel nodeid None false n pb) (fun r f' =>
    (exists j', f' = set_tick f0 j') /\ (r.1.1 = 0 -> is_Some r.1.2)) (set_tick f0 j).
Proof.
  intros Hid [Hsuf Hnames Hlen]. induction fuel as [|fuel IH]; intros j pre n pb Hn Hseg Hpb Hf.
  { pose proof (seg_length rank _ _ _ _ ranked0 Hseg). lia. }
  cbn [climb]. destruct (Z.eqb_spec n FUSE_ROOT_ID) as [->|Hroot].
  { apply wp_ret. split; [by eexists|]. by eexists. }
  apply elem_of_dom in Hn as [nd Hn]. apply wp_bind. eapply wp_deref; [done|].
  assert (forall err, err <> 0 -> wp (fail_unlock false err nodeid None n) (fun r f' =>
    (exists j', f' = set_tick f0 j') /\ (r.1.1 = 0 -> is_Some r.1.2)) (set_tick f0 j)) as Hfail.
  { intros err He. apply wp_bind, wp_ret, wp_ret. split; [by eexists|]. done. }
  destruct (name nd) as [nm|] eqn:Hnm; [|by apply Hfail]. destruct (parent nd) as [p|] eqn:Hp; [|by apply Hfail].
  apply wp_bind, wp_alloc. cbn [tick set_tick].
  assert (name_of (nodes f0) n = nm) as Hnmo by (unfold name_of; by rewrite Hn Hnm).
  assert (seg (nodes f0) nodeid (pre ++ [n]) p) as Hseg' by by eapply seg_snoc.
  pose proof (Hlen _ _ Hseg') as Hl. rewrite path_of_snoc Hnmo in Hl.
  destruct (add_name_spec (alloc_ok j) pb (path_of (nodes f0) pre suf) nm Hpb) as [[-> _]|(pb' & -> & Hpb')].
  { unfold strlen in *. cbn in Hl. rewrite length_app in Hl. lia. }
  { apply wp_bind, wp_ret, wp_ret. split; [by eexists|]. done. }
  destruct (inv_parent _ _ _ _ _ _ Hinv0 n nd p Hn ltac:(set_solver) Hp) as [Hpd _].
  apply (IH (S j) (pre ++ [n]) p pb'); [done|done|by rewrite path_of_snoc Hnmo|]. rewrite length_app /=. lia.
Qed.

Lemma peek_path_wp nodeid nm : nodeid ∈ dom (nodes f0) -> paths_ok (nodes f0) nodeid (suffix nm) ->
  wp (try_get_path alloc_ok nodeid nm false false) (fun r f' =>
    (exists j, f' = set_tick f0 j) /\ (r.1.1 = 0 -> is_Some r.1.2)) f0.
Proof.
  intros Hid Hpo. unfold try_get_path. apply wp_bind, wp_alloc. destruct (alloc_ok (tick f0)); cbn [negb].
  2: { apply wp_ret. split; [by eexists|done]. }
  apply wp_bind, wp_alloc.
  destruct (first_buf nodeid nm (alloc_ok (tick (set_tick f0 (S (tick f0))))) Hpo) as [[-> _]|(pb & -> & Hpb)].
  { apply wp_ret. split; [by eexists|done]. }
  apply wp_bind, wp_ret, wp_bind. eapply (get_node_same _ nodeid); [by split|done|]. apply wp_bind, wp_get.
  apply (climb_free_wp nodeid (suffix nm) Hid Hpo) with (pre := []); [done|constructor|done|cbn; lia].
Qed.
End lock.

(** The write-locked node of a successful call is the entry, if there is one. *)
Lemma climb_wnode alloc_ok fuel nodeid wnode need_lock n pb f path w f' :
  climb alloc_ok fuel nodeid wnode need_lock n pb f = Ok ((0, path, w), f') -> w = wnode.
Proof.
  revert n pb f. induction fuel as [|fuel IH]; intros n pb f; cbn [climb]; [done|].
  assert (forall err g, err <> 0 -> fail_unlock need_lock err nodeid wnode n g <> Ok ((0, path, w), f')) as Hfail.
  { intros err g He. unfold fail_unlock, mbind, M_bind. destruct need_lock.
    - destruct (unlock_path nodeid wnode (Some n) g) as [[u g']| |]; [|done..]. intros E. injection E. congruence.
    - intros E. injection E. congruence. }
  destruct (n =? FUSE_ROOT_ID); [by intros [= _ <- _]|]. unfold mbind at 1, M_bind at 1, deref.
  destruct (nodes f !! n) as [nd|]; [|done]. destruct (name nd) as [nm|]; [|by intros ?%Hfail]. destruct (parent nd) as [p|]; [|by intros ?%Hfail].
  unfold mbind at 1, M_bind at 1, alloc. destruct (add_name _ pb nm) as [[pb'|]|]; [|by intros ?%Hfail|done].
  destruct need_lock; [|apply IH]. destruct (treelock nd <? 0); [by intros ?%Hfail|].
  unfold mbind at 1, M_bind at 1. destruct (set_lock _ _ _) as [[u g]| |]; [apply IH|done..].
Qed.

Lemma try_get_path_wnode alloc_ok nodeid nm need_lock f path w f' :
  try_get_path alloc_ok nodeid nm true need_lock f = Ok ((0, path, w), f') -> w = lookup_node f nodeid (default [] nm).
Proof.
  unfold try_get_path. unfold mbind at 1, M_bind at 1, alloc at 1. destruct (alloc_ok (tick f)); cbn [negb]; [|done].
  unfold mbind at 1, M_bind at 1, alloc at 1. cbn beta iota.
  set (f1 := set_tick f _). set (f2 := set_tick f1 _). assert (lookup_node f2 nodeid (default [] nm) = lookup_node f nodeid (default [] nm)) as E2 by done.
  destruct (match nm with None => Some (Some new_buf) | Some s => _ end) as [[pb|]|]; [|done|done].
  unfold mbind at 1, M_bind at 1. unfold mbind at 1, M_bind at 1, assert. destruct need_lock; [|done]. cbn beta iota.
  unfold mbind at 1, M_bind at 1, get at 1. cbn beta iota. rewrite E2.
  assert (forall wnode g, (n ← get_node nodeid; f ← get; climb alloc_ok (S (base.size (nodes f))) nodeid wnode true n pb) g = Ok ((0, path, w), f') ->
    w = wnode) as Hclimb.
  { intros wnode g. unfold mbind at 1, M_bind at 1. destruct (get_node nodeid g) as [[n g']| |]; [|done..].
    unfold mbind, M_bind, get. apply climb_wnode. }
  destruct (lookup_node f nodeid (default [] nm)) as [x|]; [|apply Hclimb].
  unfold mbind at 1, M_bind at 1, deref. destruct (nodes f2 !! x) as [xd|]; [|done].
  destruct (negb (treelock xd =? 0)).
  - unfold mbind at 1, M_bind at 1. unfold mbind at 1, M_bind at 1. destruct (0 <? treelock xd); [|done].
    destruct (set_lock _ _ _) as [[u g]| |]; done.
  - unfold mbind at 1, M_bind at 1. destruct (set_lock _ _ _) as [[u g]| |]; [|done..]. apply Hclimb.
Qed.

(** Releasing locks allocates nothing. *)
Lemma set_lock_tick n v g u g' : set_lock n v g = Ok (u, g') -> tick g' = tick g.
Proof. unfold set_lock, update, mbind, M_bind, deref, store, modify. destruct (nodes g !! n); [|done]. by intros [= _ <-]. Qed.

Lemma unlock_loop_tick fuel : forall n end_ g u g', unlock_loop fuel n end_ g = Ok (u, g') -> tick g' = tick g.
Proof.
  induction fuel as [|fuel IH]; intros n end_ g u g'; cbn [unlock_loop]; [done|]. destruct (_ || _); [by intros [= _ <-]|].
  unfold mbind at 1, M_bind at 1, deref. destruct (nodes g !! n) as [nd|]; [|done].
  do 3 (unfold mbind at 1, M_bind at 1, assert at 1; destruct (negb _); [|done]).
  unfold mbind at 1, M_bind at 1. destruct (set_lock _ _ _) as [[v g1]| |] eqn:Hs; [|done..]. apply set_lock_tick in Hs as <-.
  destruct (parent nd); [apply IH|done].
Qed.

Lemma unlock_path_tick nodeid wnode end_ g u g' : unlock_path nodeid wnode end_ g = Ok (u, g') -> tick g' = tick g.
Proof.
  unfold unlock_path. unfold mbind at 1, M_bind at 1.
  assert (forall g1, tick g1 = tick g -> (n ← get_node nodeid; f ← get; unlock_loop (S (base.size (nodes f))) n end_) g1 = Ok (u, g') ->
    tick g' = tick g) as Hrest.
  { intros g1 <-. unfold mbind at 1, M_bind at 1, get_node. destruct (get_node_nocheck g1 nodeid) as [n|]; [|done].
    unfold mbind, M_bind, get. apply unlock_loop_tick. }
  destruct wnode as [w|]; [|by apply Hrest]. unfold mbind at 1, M_bind at 1, deref. destruct (nodes g !! w) as [wd|]; [|done].
  unfold mbind at 1, M_bind at 1, assert. destruct (_ =? _); [|done]. destruct (set_lock w 0 g) as [[v g1]| |] eqn:Hs; [|done..].
  apply Hrest. by eapply set_lock_tick.
Qed.

(** [-ENOMEM] means that the last allocation, one of this call's, has failed. *)
Definition call_alloc_failed (alloc_ok : nat -> bool) (f f' : fuse) : Prop :=
  exists k, (tick f <= k)%nat /\ tick f' = S k /\ alloc_ok k = false.

Lemma add_name_enomem ok pb nm : add_name ok pb nm = Some None -> ok = false.
Proof. unfold add_name. destruct (_ <=? 0); [|done]. destruct (grow _ _ _); [|done]. by destruct ok. Qed.

Lemma fail_unlock_tick need_lock err nodeid wnode n g r g' : fail_unlock need_lock err nodeid wnode n g = Ok (r, g') ->
  r = (err, None, None) /\ tick g' = tick g.
Proof.
  unfold fail_unlock, mbind, M_bind. destruct need_lock; [|by intros [= <- <-]].
  destruct (unlock_path nodeid wnode (Some n) g) as [[u g1]| |] eqn:Hu; [|done..]. intros [= <- <-]. split; [done|]. by eapply unlock_path_tick.
Qed.

Lemma climb_enomem alloc_ok fuel nodeid wnode need_lock f0 : forall n pb f path w f', (tick f0 <= tick f)%nat ->
  climb alloc_ok fuel nodeid wnode need_lock n pb f = Ok ((- ENOMEM, path, w), f') -> call_alloc_failed alloc_ok f0 f'.
Proof.
  induction fuel as [|fuel IH]; intros n pb f path w f' Hle; cbn [climb]; [done|]. destruct (n =? FUSE_ROOT_ID); [done|].
  unfold mbind at 1, M_bind at 1, deref. destruct (nodes f !! n) as [nd|]; [|done].
  destruct (name nd) as [nm|]; [|by intros [? _]%fail_unlock_tick]. destruct (parent nd) as [p|]; [|by intros [? _]%fail_unlock_tick].
  unfold mbind at 1, M_bind at 1, alloc. destruct (add_name _ pb nm) as [[pb'|]|] eqn:Ha; [| |done].
  - destruct need_lock; [|apply IH; cbn; lia]. destruct (treelock nd <? 0); [by intros [? _]%fail_unlock_tick|].
    unfold mbind at 1, M_bind at 1. destruct (set_lock _ _ _) as [[u g]| |] eqn:Hs; [|done..]. apply set_lock_tick in Hs.
    apply IH. rewrite Hs. cbn. lia.
  - intros [_ Ht]%fail_unlock_tick. exists (tick f). split_and!; [done|by rewrite Ht|by eapply add_name_enomem].
Qed.

Lemma try_get_path_enomem alloc_ok nodeid nm want_w need_lock f path w f' :
  try_get_path alloc_ok nodeid nm want_w need_lock f = Ok ((- ENOMEM, path, w), f') -> call_alloc_failed alloc_ok f f'.
Proof.
  unfold try_get_path. unfold mbind at 1, M_bind at 1, alloc at 1. destruct (alloc_ok (tick f)) eqn:H1; cbn [negb].
  2: { intros [= _ _ <-]. exists (tick f). split_and!; done. }
  unfold mbind at 1, M_bind at 1, alloc at 1. cbn beta iota. set (f1 := set_tick f _). set (f2 := set_tick f1 _).
  destruct (match nm with None => Some (Some new_buf) | Some s => _ end) as [[pb|]|] eqn:Hpb; [| |done].
  2: { destruct nm as [x|]; [|done]. apply add_name_enomem in Hpb. intros [= _ _ <-]. exists (tick f1). split_and!; [cbn; lia|done|done]. }
  assert (forall wnode g, tick g = tick f2 -> (n ← get_node nodeid; f ← get; climb alloc_ok (S (base.size (nodes f))) nodeid wnode need_lock n pb) g
    = Ok ((- ENOMEM, path, w), f') -> call_alloc_failed alloc_ok f f') as Hclimb.
  { intros wnode g Hg. unfold mbind at 1, M_bind at 1. unfold get_node. destruct (get_node_nocheck g nodeid) as [n|]; [|done].
    unfold mbind, M_bind, get. apply climb_enomem. rewrite Hg. cbn. lia. }
  destruct want_w; [|by apply Hclimb].
  unfold mbind at 1, M_bind at 1. unfold mbind at 1, M_bind at 1, assert. destruct need_lock; [|done]. cbn beta iota.
  unfold mbind at 1, M_bind at 1, get at 1. cbn beta iota. destruct (lookup_node f2 nodeid (default [] nm)) as [x|]; [|by apply Hclimb].
  unfold mbind at 1, M_bind at 1, deref. destruct (nodes f2 !! x) as [xd|]; [|done]. destruct (negb (treelock xd =? 0)).
  - unfold mbind at 1, M_bind at 1. unfold mbind at 1, M_bind at 1. destruct (0 <? treelock xd); [|done].
    destruct (set_lock _ _ _) as [[u g]| |]; done.
  - unfold mbind at 1, M_bind at 1. destruct (set_lock _ _ _) as [[u g]| |] eqn:Hs; [|done..]. apply Hclimb. by eapply set_lock_tick.
Qed.

(** ** Interleavings *)

(** A path that a request holds: where it starts, the nodes it read-locks and
    the node it write-locks. *)
Record hold := mkHold { h_nodeid : Z; h_path : list Z; h_wnode : option Z }.

Definition readers (holds : list hold) : list Z := holds ≫= h_path.
Definition writers (holds : list hold) : list Z := holds ≫= (fun h => wlist (h_wnode h)).

(** The kernel has looked the node up. *)
Definition known (f : fuse) (n : Z) : Prop :=
  exists nd, nodes f !! n = Some nd /\ 0 < nlookup nd.

(** The state of the lock protocol: the node store and the paths held. *)
Record lock_state (remember : Z) (f : fuse) (holds : list hold) : Prop := {
  ls_consistent : consistent remember f;
  ls_inv : lock_inv f (readers holds) (writers holds);
  ls_holds : forall h, h ∈ holds -> known f (h_nodeid h) /\
    seg (nodes f) (h_nodeid h) (h_path h) FUSE_ROOT_ID /\
    (forall w, h_wnode h = Some w -> known f w);
}.

(** The limits under which a path is asked for: the nodes are known to the
    kernel, and neither paths nor counters reach 32 bits. *)
Record request_ok (f : fuse) (holds : list hold) (nodeid : Z) (nm : option cstring) (want_w : bool) : Prop := {
  rq_known : known f nodeid;
  rq_last : want_w = true -> forall w, lookup_node f nodeid (default [] nm) = Some w -> known f w;
  rq_paths : paths_ok (nodes f) nodeid (suffix nm);
  rq_max : Z.of_nat (length (readers holds)) + Z.of_nat (base.size (nodes f)) < INT_MAX;
}.

(** What the other operations may do while paths are held: anything that leaves
    the lock words and the place of every read-locked node in the tree alone, and
    keeps the nodes that the requests name.  A write-locked node may be moved. *)
Record respects (f f' : fuse) (holds : list hold) : Prop := {
  rs_words : forall n nd', nodes f' !! n = Some nd' ->
    match nodes f !! n with Some nd => treelock nd' = treelock nd | None => treelock nd' = 0 end;
  rs_readers : forall n nd, n ∈ readers holds -> nodes f !! n = Some nd ->
    exists nd', nodes f' !! n = Some nd' /\ parent nd' = parent nd;
  rs_known : forall h n, h ∈ holds -> n = h_nodeid h \/ h_wnode h = Some n -> known f n -> known f' n;
}.

(** What can happen to the locks: a request gets its path or fails to (and then
    waits or gives up), a request releases its path, or another operation runs. *)
Inductive lock_step (alloc_ok : nat -> bool) (remember : Z) : fuse * list hold -> fuse * list hold -> Prop :=
  | step_lock f holds nodeid nm want_w path w l f' :
      request_ok f holds nodeid nm want_w ->
      try_get_path alloc_ok nodeid nm want_w true f = Ok ((0, Some path, w), f') ->
      seg (nodes f) nodeid l FUSE_ROOT_ID ->
      lock_step alloc_ok remember (f, holds) (f', mkHold nodeid l w :: holds)
  | step_fail f holds nodeid nm want_w err w f' :
      request_ok f holds nodeid nm want_w ->
      try_get_path alloc_ok nodeid nm want_w true f = Ok ((err, None, w), f') ->
      lock_step alloc_ok remember (f, holds) (f', holds)
  | step_unlock f holds1 h holds2 f' :
      unlock_path (h_nodeid h) (h_wnode h) None f = Ok (tt, f') ->
      lock_step alloc_ok remember (f, holds1 ++ h :: holds2) (f', holds1 ++ holds2)
  | step_other f holds f' :
      consistent remember f' -> respects f f' holds ->
      lock_step alloc_ok remember (f, holds) (f', holds).

(** [try_get_path] and [unlock_path] keep the store consistent. *)
Lemma same_tree_nodes f f' n nd' :
  same_tree f f' -> nodes f' !! n = Some nd' ->
  exists nd, nodes f !! n = Some nd /\ set_treelock nd' 0 = set_treelock nd 0.
Proof.
  intros Hst Hn. pose proof (st_nodes _ _ Hst n) as H. rewrite Hn in H. cbn in H.
  destruct (nodes f !! n) as [nd|]; [|done]. exists nd. split; [done|]. by apply (inj Some) in H.
Qed.

(** What the invariant of the store is about: the tree, the names and the
    counters; the other fields of a node may differ. *)
Definition shape (nd : node) : option Z * option cstring * Z * Z := (parent nd, name nd, nlookup nd, refctr nd).

Record same_shape (f f' : fuse) : Prop := {
  ss_nodes : forall n, shape <$> nodes f' !! n = shape <$> nodes f !! n;
  ss_id : id_table f' = id_table f;
  ss_name : name_table f' = name_table f;
  ss_lru : lru_table f' = lru_table f;
}.

Lemma same_shape_refl f : same_shape f f.
Proof. by split. Qed.

Lemma same_shape_sym f f' : same_shape f f' -> same_shape f' f.
Proof. intros []. by split. Qed.

Lemma same_shape_trans f1 f2 f3 : same_shape f1 f2 -> same_shape f2 f3 -> same_shape f1 f3.
Proof. intros [N1 I1 M1 L1] [N2 I2 M2 L2]. split; [intros n; by rewrite N2|congruence..]. Qed.

Lemma same_tree_shape f f' : same_tree f f' -> same_shape f f'.
Proof.
  intros [N I M L _]. split; [|done..]. intros n. specialize (N n).
  destruct (nodes f !! n), (nodes f' !! n); cbn in *; try done. injection N. unfold shape. congruence.
Qed.

Lemma same_shape_write f n nd nd' :
  nodes f !! n = Some nd -> shape nd' = shape nd -> same_shape f (set_nodes f (<[n := nd']> (nodes f))).
Proof.
  intros Hn Hs. split; try done. intros m. cbn. destruct (decide (m = n)) as [->|].
  - by rewrite lookup_insert_eq Hn /= Hs.
  - by rewrite lookup_insert_ne.
Qed.

Lemma same_shape_lookup f f' n nd :
  same_shape f f' -> nodes f !! n = Some nd -> exists nd', nodes f' !! n = Some nd' /\
    parent nd' = parent nd /\ name nd' = name nd /\ nlookup nd' = nlookup nd /\ refctr nd' = refctr nd.
Proof.
  intros Hst Hn. pose proof (ss_nodes _ _ Hst n) as H. rewrite Hn in H.
  destruct (nodes f' !! n) as [nd'|]; [|done]. exists nd'. split; [done|]. cbn in H. by injection H.
Qed.

Lemma same_shape_dom f f' : same_shape f f' -> dom (nodes f') = dom (nodes f).
Proof.
  intros Hst. apply set_eq. intros n. rewrite !elem_of_dom. pose proof (ss_nodes _ _ Hst n) as H.
  destruct (nodes f !! n), (nodes f' !! n); cbn in H; try done; by split; intros [? ?].
Qed.

Lemma same_shape_kids f f' X q : same_shape f f' -> kids (nodes f') X q = kids (nodes f) X q.
Proof.
  intros Hst. apply kids_ext. intros k. split; intros (kd & Hk & Hp & HX).
  - destruct (same_shape_lookup _ _ _ _ (same_shape_sym _ _ Hst) Hk) as (kd' & ? & ? & _).
    exists kd'. split_and!; [done|congruence|done].
  - destruct (same_shape_lookup _ _ _ _ Hst Hk) as (kd' & ? & ? & _).
    exists kd'. split_and!; [done|congruence|done].
Qed.

Lemma inv_same_shape remember rank f f' :
  same_shape f f' -> inv remember rank ∅ ∅ None f ->
  (forall n nd, nodes f' !! n = Some nd -> treelock nd <> 0 -> 0 < nlookup nd \/
     exists k kd, k ∈ kids (nodes f') ∅ n /\ nodes f' !! k = Some kd /\ read_locked kd) ->
  inv remember rank ∅ ∅ None f'.
Proof.
  intros Hst Hinv Hlock.
  pose proof (fun n nd => same_shape_lookup f' f n nd (same_shape_sym _ _ Hst)) as Hold0.
  assert (forall n nd', nodes f' !! n = Some nd' -> exists nd, nodes f !! n = Some nd /\
    parent nd' = parent nd /\ name nd' = name nd /\ nlookup nd' = nlookup nd /\ refctr nd' = refctr nd) as Hold.
  { intros n nd' Hn. destruct (Hold0 n nd' Hn) as (nd & ? & ? & ? & ? & ?). exists nd. split_and!; congruence. }
  pose proof (fun n nd => same_shape_lookup f f' n nd Hst) as Hnew.
  pose proof (fun q => same_shape_kids f f' ∅ q Hst) as Hk.
  destruct Hinv. split; rewrite ?(ss_id _ _ Hst) ?(ss_name _ _ Hst) ?(ss_lru _ _ Hst) ?(same_shape_dom _ _ Hst); try done.
  - eapply table_wf_ext; [|done]. intros n (_ & nd & Hn & _)%inv_names.
    destruct (Hnew n nd Hn) as (nd' & Hn' & E1 & E2 & _). unfold node_raw. by rewrite Hn Hn' E1 E2.
  - intros n. rewrite inv_names. split; intros (? & nd & Hn & His); (split; [done|]).
    + destruct (Hnew n nd Hn) as (nd' & Hn' & E1 & _). exists nd'. split; [done|congruence].
    + destruct (Hold n nd Hn) as (nd' & Hn' & E1 & _). exists nd'. split; [done|congruence].
  - intros n nd Hn. destruct (Hold n nd Hn) as (nd0 & Hn0 & -> & -> & _). by apply inv_fields.
  - intros n nd q Hn HX Hq. destruct (Hold n nd Hn) as (nd0 & Hn0 & E1 & _).
    apply (inv_parent n nd0); congruence.
  - intros n m nd md Hn Hm HX1 HX2 His Hp Hnm.
    destruct (Hold n nd Hn) as (nd0 & Hn0 & E1 & E2 & _), (Hold m md Hm) as (md0 & Hm0 & E3 & E4 & _).
    apply (inv_uniq n m nd0 md0); congruence.
  - intros n nd Hn. destruct (Hold n nd Hn) as (nd0 & Hn0 & _ & _ & -> & ->). rewrite Hk. by apply inv_ref.
  - intros n nd Hn HP. destruct (Hold n nd Hn) as (nd0 & Hn0 & _ & _ & _ & ->). by eapply inv_pos.
  - destruct inv_root as (? & rd & Hrd & ?). split; [done|]. destruct (Hnew _ rd Hrd) as (rd' & ? & _ & _ & E & _).
    exists rd'. rewrite E. done.
  - intros n Hn. destruct (inv_lru n Hn) as (? & nd & Hnd & ?). split; [done|].
    destruct (Hnew n nd Hnd) as (nd' & ? & _ & _ & E & _). exists nd'. rewrite E. done.
Qed.

(** A non-zero lock word belongs to a holder. *)
Lemma lock_ok_held v r w : lock_ok v r w -> v <> 0 -> (0 < r)%nat \/ (0 < w)%nat.
Proof. unfold lock_ok. lia. Qed.

Lemma lock_ok_read_locked nd r w :
  lock_ok (treelock nd) r w -> (0 < r)%nat -> Z.of_nat r < INT_MAX -> read_locked nd.
Proof. unfold lock_ok, read_locked, TREELOCK_WAIT_OFFSET, TREELOCK_WRITE, INT_MIN, INT_MAX. lia. Qed.

Lemma elem_of_readers holds n : n ∈ readers holds <-> exists h, h ∈ holds /\ n ∈ h_path h.
Proof. unfold readers. rewrite list_elem_of_bind. naive_solver. Qed.

Lemma elem_of_writers holds n : n ∈ writers holds <-> exists h, h ∈ holds /\ h_wnode h = Some n.
Proof.
  unfold writers. rewrite list_elem_of_bind. split.
  - intros (h & Hn & Hh). exists h. split; [done|]. destruct (h_wnode h) as [w|]; cbn in Hn; set_solver.
  - intros (h & Hh & Hn). exists h. split; [|done]. rewrite Hn. cbn. set_solver.
Qed.

(** A node on a path is its start or the parent of another node on it. *)
Lemma seg_pred ns n l e x :
  seg ns n l e -> x ∈ l -> x = n \/ exists k kd, k ∈ l /\ ns !! k = Some kd /\ parent kd = Some x.
Proof.
  induction 1 as [|n nd p l e _ Hn Hp _ IH]; [by intros ?%elem_of_nil|].
  intros [->|Hx]%elem_of_cons; [by left|]. right. destruct (IH Hx) as [->|(k & kd & Hk & ? & ?)].
  - exists n, nd. split_and!; [apply elem_of_cons; auto|done..].
  - exists k, kd. split_and!; [apply elem_of_cons; auto|done..].
Qed.

(** The holders explain every lock word: what [inv_lock] asks for. *)
Lemma holders_protect f holds :
  lock_inv f (readers holds) (writers holds) ->
  (forall h, h ∈ holds -> known f (h_nodeid h) /\
    seg (nodes f) (h_nodeid h) (h_path h) FUSE_ROOT_ID /\ (forall w, h_wnode h = Some w -> known f w)) ->
  forall n nd, nodes f !! n = Some nd -> treelock nd <> 0 -> 0 < nlookup nd \/
    exists k kd, k ∈ kids (nodes f) ∅ n /\ nodes f !! k = Some kd /\ read_locked kd.
Proof.
  intros [Hlen Hinv] Hh n nd Hn Htl.
  assert (known f n -> 0 < nlookup nd) as Hk by (intros (nd' & ? & ?); by simplify_eq).
  destruct (lock_ok_held _ _ _ (Hinv n nd Hn) Htl) as [H|H]; apply count_pos in H.
  - apply elem_of_readers in H as (h & Hin & Hp). destruct (Hh h Hin) as (Hst & Hseg & _).
    destruct (seg_pred _ _ _ _ n Hseg Hp) as [->|(k & kd & Hkl & Hkd & Hpk)]; [left; auto|]. right.
    exists k, kd. split_and!; [|done|].
    + apply elem_of_kids. exists kd. split_and!; [done..|set_solver].
    + assert (0 < count (readers holds) k)%nat as Hc by (apply count_pos, elem_of_readers; eauto).
      pose proof (count_le (readers holds) k). eapply lock_ok_read_locked; [by apply Hinv|done|lia].
  - apply elem_of_writers in H as (h & Hin & Hp). destruct (Hh h Hin) as (_ & _ & Hw). left. auto.
Qed.

Lemma known_same f f' n : same_shape f f' -> known f n -> known f' n.
Proof.
  intros Hst (nd & Hn & Hp). destruct (same_shape_lookup _ _ _ _ Hst Hn) as (nd' & Hn' & _ & _ & E & _).
  exists nd'. by rewrite E.
Qed.

Lemma seg_shape f f' n l e : same_shape f f' -> seg (nodes f) n l e -> seg (nodes f') n l e.
Proof.
  intros Hst. induction 1 as [|n nd p l e Hr Hn Hp _ IH]; [constructor|].
  destruct (same_shape_lookup _ _ _ _ Hst Hn) as (nd' & Hn' & E & _). apply (seg_cons _ n nd' p); [done|done|congruence|done].
Qed.

Lemma known_dom f n : known f n -> n ∈ dom (nodes f).
Proof. intros (nd & Hn & _). by apply elem_of_dom_2 in Hn. Qed.

(** A change that keeps the tree, with lock words that the holders explain. *)
Lemma lock_state_same remember f f' holds holds' :
  lock_state remember f holds -> same_shape f f' ->
  lock_inv f' (readers holds') (writers holds') ->
  (forall h, h ∈ holds' -> h ∈ holds \/ known f (h_nodeid h) /\
    seg (nodes f) (h_nodeid h) (h_path h) FUSE_ROOT_ID /\ (forall w, h_wnode h = Some w -> known f w)) ->
  lock_state remember f' holds'.
Proof.
  intros [[rank Hc] _ Hh] Hst Hinv Hnew.
  assert (forall h, h ∈ holds' -> known f' (h_nodeid h) /\
    seg (nodes f') (h_nodeid h) (h_path h) FUSE_ROOT_ID /\ (forall w, h_wnode h = Some w -> known f' w)) as Hh'.
  { intros h Hin. assert (known f (h_nodeid h) /\ seg (nodes f) (h_nodeid h) (h_path h) FUSE_ROOT_ID /\
      (forall w, h_wnode h = Some w -> known f w)) as (? & ? & ?) by (destruct (Hnew h Hin); auto).
    split_and!; [by eapply known_same|by eapply seg_shape|]. intros w Hw. eapply known_same; eauto. }
  split; [|done|done]. exists rank. eapply inv_same_shape; [done|done|]. by apply holders_protect with holds'.
Qed.

Lemma lock_inv_perm f R W R' W' :
  lock_inv f R W -> R ≡ₚ R' -> W ≡ₚ W' -> lock_inv f R' W'.
Proof.
  intros [Hl Hinv] HR HW. split; [by rewrite -HR|]. intros n nd Hn.
  pose proof (Hinv n nd Hn) as Hok.
  rewrite -(proj1 (Permutation_count_occ Z.eq_dec R R') HR n) -(proj1 (Permutation_count_occ Z.eq_dec W W') HW n).
  done.
Qed.

(** Requests see the tree only. *)
Lemma name_of_shape f f' n : same_shape f f' -> name_of (nodes f') n = name_of (nodes f) n.
Proof.
  intros Hst. unfold name_of. pose proof (ss_nodes _ _ Hst n) as H.
  destruct (nodes f !! n), (nodes f' !! n); cbn in H; try done. injection H. congruence.
Qed.

Lemma path_of_shape f f' l suf : same_shape f f' -> path_of (nodes f') l suf = path_of (nodes f) l suf.
Proof.
  intros Hst. unfold path_of. revert suf. induction l as [|n l IH]; intros suf; [done|]. cbn.
  by rewrite (name_of_shape _ _ _ Hst) IH.
Qed.

Lemma lookup_node_shape f f' p nm : same_shape f f' -> lookup_node f' p nm = lookup_node f p nm.
Proof.
  intros Hst. unfold lookup_node, table_find. rewrite (ss_name _ _ Hst).
  assert (forall n, is_named f' p nm n = is_named f p nm n) as Hn.
  { intros n. unfold is_named. pose proof (ss_nodes _ _ Hst n) as H.
    destruct (nodes f !! n), (nodes f' !! n); cbn in H; try done. injection H as E1 E2 _ _. by rewrite E1 E2. }
  induction (bucket _ _) as [|x l IH]; [done|]. cbn. by rewrite Hn IH.
Qed.

Lemma same_shape_size f f' : same_shape f f' -> base.size (nodes f') = base.size (nodes f).
Proof. intros Hst. by rewrite -!size_dom (same_shape_dom _ _ Hst). Qed.

Lemma request_ok_shape f f' holds nodeid nm want_w :
  same_shape f f' -> request_ok f holds nodeid nm want_w -> request_ok f' holds nodeid nm want_w.
Proof.
  intros Hst [Hk Hl [Hs Hn Hlen] Hm]. split.
  - by eapply known_same.
  - intros Hw w. rewrite (lookup_node_shape _ _ _ _ Hst). intros ?. eapply known_same; eauto.
  - split; [done| |].
    + intros n. rewrite (name_of_shape _ _ _ Hst). auto.
    + intros l n Hseg. rewrite (path_of_shape _ _ _ _ Hst). eapply Hlen, seg_shape; [|done]. by apply same_shape_sym.
  - by rewrite (same_shape_size _ _ Hst).
Qed.

(** Writing other fields of the nodes keeps the protocol state. *)
Lemma lock_state_shape remember f f' holds :
  lock_state remember f holds -> same_shape f f' ->
  (forall n, treelock <$> nodes f' !! n = treelock <$> nodes f !! n) -> lock_state remember f' holds.
Proof.
  intros Hls Hst Ht. eapply lock_state_same; [done|done| |by left].
  destruct (ls_inv _ _ _ Hls) as [Hlen Hinv]. split; [done|]. intros n nd Hn. specialize (Ht n).
  rewrite Hn in Ht. destruct (nodes f !! n) as [nd0|] eqn:Hn0; [|done]. cbn in Ht. injection Ht as ->. eauto.
Qed.

Lemma seg_det ns n l l' : seg ns n l FUSE_ROOT_ID -> seg ns n l' FUSE_ROOT_ID -> l = l'.
Proof.
  intros H. remember FUSE_ROOT_ID as e eqn:He. revert l'. induction H as [|n nd p l e Hr Hn Hp _ IH]; intros l' H'.
  - inversion H'; [done|]. congruence.
  - inversion H' as [|? nd' p' l'' ? ? Hn' Hp' Hs']; subst; [done|].
    f_equal. apply IH; [done|]. congruence.
Qed.

(** ** The steps *)

Lemma try_step alloc_ok remember f holds nodeid nm want_w :
  lock_state remember f holds -> request_ok f holds nodeid nm want_w ->
  wp (try_get_path alloc_ok nodeid nm want_w true)
     (get_path_post alloc_ok f (fun w => want_w = true /\ lookup_node f nodeid (default [] nm) = Some w) nodeid (suffix nm)
        (readers holds) (writers holds)) f.
Proof.
  intros [[rank Hc] Hinv _] [Hk Hl Hp Hm].
  eapply (try_get_path_wp alloc_ok remember rank f Hc nodeid nm want_w); eauto using known_dom.
Qed.

Lemma unlock_step remember f holds1 h holds2 :
  lock_state remember f (holds1 ++ h :: holds2) ->
  wp (unlock_path (h_nodeid h) (h_wnode h) None) (fun _ f' => lock_state remember f' (holds1 ++ holds2) /\ same_tree f f') f.
Proof.
  intros Hls. pose proof Hls as [[rank Hc] Hinv Hh].
  destruct (Hh h) as (Hk & Hseg & Hw); [set_solver|].
  eapply wp_mono; [eapply (unlock_path_wp remember rank f Hc f (h_nodeid h) (h_path h) FUSE_ROOT_ID (h_wnode h)
    None (readers (holds1 ++ holds2)) (writers (holds1 ++ holds2)))|]; eauto using known_dom, same_tree_refl.
  - eapply lock_inv_perm; [done|..]; unfold readers, writers; rewrite !bind_app bind_cons; solve_Permutation.
  - intros _ f' [Hinv' Hst]. split; [|done]. eapply lock_state_same; [done|by apply same_tree_shape|done|].
    intros h' Hin. left. set_solver.
Qed.

Lemma respects_step remember f f' holds :
  lock_state remember f holds -> consistent remember f' -> respects f f' holds ->
  lock_state remember f' holds.
Proof.
  intros [_ [Hlen Hinv] Hh] Hc [Hwords Hread Hknown].
  split; [done|split; [done|]|].
  - intros n nd' Hn'. pose proof (Hwords n nd' Hn') as Hv. destruct (nodes f !! n) as [nd|] eqn:Hn.
    + rewrite Hv. by apply Hinv.
    + rewrite Hv. apply not_elem_of_dom in Hn. left.
      assert (n ∉ readers holds /\ n ∉ writers holds) as [Hr Hw].
      { rewrite elem_of_readers elem_of_writers. split; intros (h & Hin & Hx); destruct (Hh h Hin) as (? & Hs & Hw).
        - by apply Hn, (seg_dom _ _ _ _ Hs).
        - apply Hn, known_dom. auto. }
      rewrite -count_pos in Hr. rewrite -count_pos in Hw. lia.
  - intros h Hin. destruct (Hh h Hin) as (Hk & Hs & Hw). split_and!; [by eapply Hknown; eauto| |].
    + assert (forall x, x ∈ h_path h -> x ∈ readers holds) as Hsub by (intros; apply elem_of_readers; eauto).
      revert Hs Hsub. generalize (h_nodeid h) (h_path h). clear -Hread. induction 1 as [|n nd p l e Hr Hn Hp _ IH];
        intros Hsub; [constructor|].
      destruct (Hread n nd) as (nd' & ? & ?); [apply Hsub; set_solver|done|].
      apply (seg_cons _ n nd' p); [done|done|congruence|]. apply IH. set_solver.
    + intros w Hww. eapply Hknown; eauto.
Qed.

(** [try_get_path] as a step of the protocol. *)
Lemma try_lock_wp alloc_ok remember f holds nodeid nm want_w :
  lock_state remember f holds -> request_ok f holds nodeid nm want_w ->
  wp (try_get_path alloc_ok nodeid nm want_w true) (fun r f' =>
    let '(err, path, w) := r in
    same_tree f f' /\
    (err = 0 /\ unmarked f f' w /\
       (forall x, w = Some x -> want_w = true /\ lookup_node f nodeid (default [] nm) = Some x) /\ (exists l, seg (nodes f) nodeid l FUSE_ROOT_ID /\
        path = Some (show_path (path_of (nodes f) l (suffix nm))) /\
        lock_state remember f' (mkHold nodeid l w :: holds)) \/
     fail_reason alloc_ok f (fun w => want_w = true /\ lookup_node f nodeid (default [] nm) = Some w) nodeid err /\
       path = None /\ w = None /\ lock_state remember f' holds)) f.
Proof.
  intros Hls Hrq. eapply wp_mono; [by apply (try_step alloc_ok remember f holds nodeid nm want_w)|].
  intros [[err path] w] f' [Hst Hpost]. split; [done|].
  destruct Hpost as [(-> & Hw & Hu & l & Hs & -> & Hinv)|(Hr & -> & -> & Hinv)]; [left|right].
  - split_and!; [done|done|done|]. exists l. split_and!; [done|done|].
    eapply lock_state_same; [done|by apply same_tree_shape|done|]. intros h [->|Hin]%elem_of_cons; [right|by left].
    split; [apply (rq_known _ _ _ _ _ Hrq)|]. split; [done|]. intros x [? ?]%Hw. by eapply rq_last.
  - split_and!; [done|done|done|]. eapply lock_state_same; [done|by apply same_tree_shape|done|]. by left.
Qed.

Lemma lock_step_preserves alloc_ok remember f holds f' holds' :
  lock_step alloc_ok remember (f, holds) (f', holds') ->
  lock_state remember f holds -> lock_state remember f' holds'.
Proof.
  intros Hstep Hls. inversion Hstep as [? hs nodeid nm want_w path w l ? Hrq Hrun Hseg|? hs nodeid nm want_w err w ? Hrq Hrun
                 |? holds1 h holds2 ? Hrun|? ? ? Hc Hrs]; subst.
  - pose proof (try_lock_wp alloc_ok remember f _ nodeid nm want_w Hls Hrq) as Hwp. unfold wp in Hwp. rewrite Hrun in Hwp.
    destruct Hwp as (_ & [(_ & _ & _ & l' & Hs' & _ & ?)|(_ & ? & _)]); [|done]. by rewrite (seg_det _ _ _ _ Hseg Hs').
  - pose proof (try_lock_wp alloc_ok remember f _ nodeid nm want_w Hls Hrq) as Hwp. unfold wp in Hwp. rewrite Hrun in Hwp.
    destruct Hwp as (_ & [(_ & _ & _ & l' & _ & ? & _)|(_ & _ & _ & ?)]); done.
  - pose proof (unlock_step remember f holds1 h holds2 Hls) as Hwp. unfold wp in Hwp. rewrite Hrun in Hwp. by destruct Hwp.
  - by eapply respects_step.
Qed.

Lemma no_locks_state remember f :
  consistent remember f -> (forall n nd, nodes f !! n = Some nd -> treelock nd = 0) -> lock_state remember f [].
Proof.
  intros Hc Hz. split; [done| |by intros h ?%elem_of_nil]. split; [done|]. intros n nd Hn. left. rewrite (Hz n nd Hn). auto.
Qed.

Lemma lock_reachable alloc_ok remember s s' :
  rtc (lock_step alloc_ok remember) s s' -> lock_state remember s.1 s.2 -> lock_state remember s'.1 s'.2.
Proof.
  induction 1 as [s|[f1 h1] [f2 h2] s3 Hstep _ IH]; [done|]. intros Hls. by eapply IH, lock_step_preserves.
Qed.

Lemma lock_state_exclusive remember f holds :
  lock_state remember f holds ->
  NoDup (writers holds) /\ forall n, n ∈ writers holds -> n ∉ readers holds.
Proof.
  intros [_ [_ Hinv] Hh].
  assert (forall n, n ∈ writers holds -> count (writers holds) n = 1%nat /\ count (readers holds) n = 0%nat) as H.
  { intros n Hn. pose proof Hn as (h & Hin & Hw)%elem_of_writers. destruct (Hh h Hin) as (_ & _ & Hk).
    destruct (Hk n Hw) as (nd & Hnd & _). apply count_pos in Hn. pose proof (Hinv n nd Hnd) as Hok.
    unfold lock_ok in Hok. lia. }
  split.
  - apply NoDup_ListNoDup, (NoDup_count_occ Z.eq_dec). intros n. destruct (decide (n ∈ writers holds)) as [Hn|Hn].
    + destruct (H n Hn). lia.
    + rewrite -count_pos in Hn. lia.
  - intros n Hn Hr. destruct (H n Hn). apply count_pos in Hr. lia.
Qed.

(** C5: in every interleaving of path requests, releases and other operations
    that leave the locked paths alone, started from a consistent tree without
    locks: the tree stays consistent, a write-locked node has one writer and no
    reader, every holder of a path can release it without failing an assertion
    or looping, and every further request returns. *)
Theorem tree_lock_safe alloc_ok remember f0 f holds :
  consistent remember f0 -> (forall n nd, nodes f0 !! n = Some nd -> treelock nd = 0) ->
  rtc (lock_step alloc_ok remember) (f0, []) (f, holds) ->
  consistent remember f /\
  NoDup (writers holds) /\ (forall n, n ∈ writers holds -> n ∉ readers holds) /\
  (forall h, h ∈ holds -> exists f', unlock_path (h_nodeid h) (h_wnode h) None f = Ok (tt, f')) /\
  (forall nodeid nm want_w, request_ok f holds nodeid nm want_w ->
     exists err path w f', try_get_path alloc_ok nodeid nm want_w true f = Ok ((err, path, w), f')).
Proof.
  intros Hc Hz Hsteps. pose proof (lock_reachable _ _ _ _ Hsteps (no_locks_state _ _ Hc Hz)) as Hls. cbn in Hls.
  destruct (lock_state_exclusive _ _ _ Hls) as [Hnd Hex].
  split; [apply (ls_consistent _ _ _ Hls)|]. split_and!; [done|done| |].
  - intros h (h1 & h2 & ->)%list_elem_of_split. destruct (wp_Ok _ _ _ (unlock_step _ _ _ _ _ Hls)) as ([] & f' & ? & _).
    eauto.
  - intros nodeid nm want_w Hrq.
    destruct (wp_Ok _ _ _ (try_step alloc_ok _ _ _ nodeid nm want_w Hls Hrq)) as ([[err path] w] & f' & ? & _). eauto 6.
Qed.

Lemma hold_write_locked remember f holds h x : lock_state remember f holds -> h ∈ holds -> h_wnode h = Some x ->
  exists xd, nodes f !! x = Some xd /\ treelock xd = TREELOCK_WRITE.
Proof.
  intros [_ [_ Hinv] Hh] Hin Hx. destruct (Hh h Hin) as (_ & _ & Hk). destruct (Hk x Hx) as (xd & Hxd & _). exists xd. split; [done|].
  pose proof (Hinv x xd Hxd) as Hok. assert (x ∈ writers holds) as Hw by (apply elem_of_writers; eauto). apply count_pos in Hw.
  unfold lock_ok in Hok. destruct Hok as [[? _]|(_ & _ & ?)]; [lia|done].
Qed.

(** Why [try_get_path] has failed: the last allocation, one of this call's, has
    failed; a node on the way to the root is locked for writing or waited for, or the
    entry that was to be write-locked is in use; or a node on the way to the root has
    been unlinked. *)
Definition path_refused (alloc_ok : nat -> bool) (f f' : fuse) (nodeid : Z) (entry : option Z) (err : Z) : Prop :=
  (err = - ENOMEM /\ call_alloc_failed alloc_ok f f') \/
  (err = - EAGAIN /\ exists n nd, nodes f !! n = Some nd /\
     ((exists l, seg (nodes f) nodeid l n) /\ treelock nd < 0 \/ entry = Some n /\ treelock nd <> 0)) \/
  (err = - ESTALE /\ exists l n nd, seg (nodes f) nodeid l n /\ n <> FUSE_ROOT_ID /\
     nodes f !! n = Some nd /\ (name nd = None \/ parent nd = None)).

(** C18: [try_get_path] returns.  On success it returns the names from the root to
    the node joined with slashes (then the last component), every node of the
    path has one reader more, and the entry is write-locked exactly if that was asked
    for and it exists.  On failure nothing is locked, and the error says why:
    [-ENOMEM] an allocation of this call failed, [-EAGAIN] a node on the path is
    write-locked or waited for or the entry to be write-locked is in use, [-ESTALE] a
    node on the way to the root has been unlinked. *)
Theorem try_get_path_correct alloc_ok remember f holds nodeid nm want_w :
  lock_state remember f holds -> request_ok f holds nodeid nm want_w ->
  let entry := if want_w : bool then lookup_node f nodeid (default [] nm) else None in
  exists err path w f', try_get_path alloc_ok nodeid nm want_w true f = Ok ((err, path, w), f') /\
    same_tree f f' /\
    (err = 0 /\ w = entry /\ (forall x, w = Some x -> exists xd, nodes f' !! x = Some xd /\ treelock xd = TREELOCK_WRITE) /\
      (exists l, seg (nodes f) nodeid l FUSE_ROOT_ID /\
        path = Some (show_path (path_of (nodes f) l (suffix nm))) /\
        lock_state remember f' (mkHold nodeid l w :: holds)) \/
     path_refused alloc_ok f f' nodeid entry err /\ path = None /\ w = None /\ lock_state remember f' holds).
Proof.
  intros Hls Hrq entry.
  destruct (wp_Ok _ _ _ (try_lock_wp alloc_ok _ _ _ nodeid nm want_w Hls Hrq)) as ([[err path] w] & f' & Hrun & Hst & Hpost).
  exists err, path, w, f'. split; [done|]. split; [done|]. destruct Hpost as [(-> & _ & Hw & l & Hs & -> & Hl)|(Hr & -> & -> & Hl)].
  - left. assert (w = entry) as Hwe.
    { unfold entry. destruct want_w; [by eapply try_get_path_wnode|]. destruct w as [x|]; [|done]. by destruct (Hw x eq_refl). }
    split_and!; [done|done| |by exists l]. intros x Hx. by apply (hold_write_locked _ _ _ (mkHold nodeid l w) x Hl); [left|].
  - right. split_and!; [|done|done|done]. destruct Hr as [[-> _]|[(-> & n & nd & Hn & Hx)|?]].
    + left. split; [done|]. by eapply try_get_path_enomem.
    + right. left. split; [done|]. exists n, nd. split; [done|]. destruct Hx as [?|[[-> ?] ?]]; [by left|right]. done.
    + by right; right.
Qed.

(** ** Witnesses *)

#[local] Opaque sample_fuse.

Lemma sample_fuse_lookup n nd :
  nodes sample_fuse !! n = Some nd -> n = FUSE_ROOT_ID /\ nd = set_refctr root_node 2 \/ n = 2 /\ nd = sample_node.
Proof. rewrite sample_fuse_nodes lookup_insert_Some lookup_singleton_Some. naive_solver. Qed.

Lemma sample_fuse_unlocked n nd : nodes sample_fuse !! n = Some nd -> treelock nd = 0.
Proof. by intros [[-> ->]|[-> ->]]%sample_fuse_lookup. Qed.

Lemma sample_lock_state : lock_state 0 sample_fuse [].
Proof. apply no_locks_state; [apply sample_fuse_consistent|apply sample_fuse_unlocked]. Qed.

Lemma sample_seg l e : seg (nodes sample_fuse) 2 l e -> l = [] \/ l = [2].
Proof.
  inversion 1 as [|? nd p l' ? _ Hn Hp Hs]; subst; [by left|]. right.
  rewrite sample_fuse_node in Hn. injection Hn as <-. injection Hp as <-.
  inversion Hs as [|? ? ? ? ? Hr]; subst; [reflexivity|by destruct Hr].
Qed.

Lemma sample_request : request_ok sample_fuse [] 2 None false.
Proof.
  assert (forall n, name_of (nodes sample_fuse) n = [] \/ name_of (nodes sample_fuse) n = lit "/" \/
    name_of (nodes sample_fuse) n = lit "a") as Hname.
  { intros n. unfold name_of. destruct (nodes sample_fuse !! n) as [nd|] eqn:Hn; [|by left].
    apply sample_fuse_lookup in Hn as [[-> ->]|[-> ->]]; cbn; auto. }
  split.
  - exists sample_node. split; [apply sample_fuse_node|reflexivity].
  - intros Hx. discriminate Hx.
  - split.
    + cbn. intros H%elem_of_nil. done.
    + intros n. destruct (Hname n) as [H|[H|H]]; rewrite H; apply (bool_decide_eq_false (NUL ∈ _)); reflexivity.
    + intros l n Hs. destruct (sample_seg l n Hs) as [Hl|Hl]; rewrite Hl; unfold strlen; cbn; [discriminate|].
      destruct (Hname 2) as [H|[H|H]]; rewrite H; discriminate.
  - rewrite sample_fuse_nodes. vm_compute. reflexivity.
Qed.

Lemma sample_path : seg (nodes sample_fuse) 2 [2] FUSE_ROOT_ID.
Proof. eapply seg_cons; [discriminate|apply sample_fuse_node|reflexivity|constructor]. Qed.

(** Running the request on the sample store. *)
Lemma sample_lock_step : exists f',
  rtc (lock_step (fun _ => true) 0) (sample_fuse, []) (f', [mkHold 2 [2] None]) /\
  try_get_path (fun _ => true) 2 None false true sample_fuse = Ok ((0, Some (lit "/a"), None), f').
Proof.
  assert (exists f', try_get_path (fun _ => true) 2 None false true sample_fuse = Ok ((0, Some (lit "/a"), None), f'))
    as Hrun by (eexists; vm_compute; reflexivity).
  destruct Hrun as [f' Hrun].
  exists f'. split; [|done]. apply rtc_once. eapply step_lock; [apply sample_request|exact Hrun|apply sample_path].
Qed.

Lemma tree_lock_safe_witness : exists f',
  consistent 0 f' /\ (exists f2, unlock_path 2 None None f' = Ok (tt, f2)).
Proof.
  destruct sample_lock_step as (f' & Hsteps & _). exists f'.
  destruct (tree_lock_safe (fun _ => true) 0 sample_fuse f' [mkHold 2 [2] None] sample_fuse_consistent
    sample_fuse_unlocked Hsteps) as (Hc & _ & _ & Hu & _).
  split; [exact Hc|]. apply (Hu (mkHold 2 [2] None)). apply elem_of_cons. by left.
Defined.

Lemma try_get_path_correct_witness : exists err path w f',
  try_get_path (fun _ => true) 2 None false true sample_fuse = Ok ((err, path, w), f') /\
  same_tree sample_fuse f'.
Proof.
  destruct (try_get_path_correct (fun _ => true) 0 sample_fuse [] 2 None false sample_lock_state sample_request)
    as (err & path & w & f' & Hrun & Hst & _).
  exists err, path, w, f'. split; [exact Hrun|exact Hst].
Defined.
