(* ===== verification/Buffer.v ===== *)
(** * Data buffers ([lib/buffer.c])

    [fuse_buf_copy] moves data between two vectors of buffers, each a piece of
    memory or a file descriptor.  Memory is a function from addresses to bytes;
    the system calls are an interface ([Syscalls]) with the documented POSIX
    behaviour as laws.  The theorems: sizes add up with saturation, every copy
    terminates without failing an assertion and reports at most the room there
    is, copies between memory vectors move exactly the bytes that fit, and
    descriptors get a prefix of the source bytes. *)
From S2P Require Import Prelude.

(** ** The system calls *)

(** [-1] with [errno], or the value. *)
Inductive sysret (A : Type) : Type :=
  | SysErr (errno : Z)
  | SysRet (a : A).
Arguments SysErr {A} _.
Arguments SysRet {A} _.

(** The kernel: its state and the calls the buffers use. *)
Class Syscalls (K : Type) := {
  sys_write : Z -> list Z -> K -> sysret Z * K;
  sys_pwrite : Z -> list Z -> Z -> K -> sysret Z * K;
  sys_read : Z -> Z -> K -> sysret (list Z) * K;
  sys_pread : Z -> Z -> Z -> K -> sysret (list Z) * K;
  (** [splice(fd_in, off_in, fd_out, off_out, len, flags)] *)
  sys_splice : Z -> option Z -> Z -> option Z -> Z -> Z -> K -> sysret Z * K;
}.

(** What POSIX and Linux promise: [errno] is positive and no call transfers more
    than it was asked for. *)
Class SyscallLaws (K : Type) `{Syscalls K} : Prop := {
  sys_write_le fd bs k : match (sys_write fd bs k).1 with
    | SysErr e => 0 < e | SysRet n => 0 <= n <= Z.of_nat (length bs) end;
  sys_pwrite_le fd bs pos k : match (sys_pwrite fd bs pos k).1 with
    | SysErr e => 0 < e | SysRet n => 0 <= n <= Z.of_nat (length bs) end;
  sys_read_le fd len k : 0 <= len -> match (sys_read fd len k).1 with
    | SysErr e => 0 < e | SysRet bs => Z.of_nat (length bs) <= len end;
  sys_pread_le fd len pos k : 0 <= len -> match (sys_pread fd len pos k).1 with
    | SysErr e => 0 < e | SysRet bs => Z.of_nat (length bs) <= len end;
  sys_splice_le fd_in off_in fd_out off_out len flags k : 0 <= len ->
    match (sys_splice fd_in off_in fd_out off_out len flags k).1 with
    | SysErr e => 0 < e | SysRet n => 0 <= n <= len end;
}.

(** ** Buffers *)

Definition FUSE_BUF_IS_FD : Z := 2.
Definition FUSE_BUF_FD_SEEK : Z := 4.
Definition FUSE_BUF_FD_RETRY : Z := 8.

Definition FUSE_BUF_NO_SPLICE : Z := 2.
Definition FUSE_BUF_FORCE_SPLICE : Z := 4.
Definition FUSE_BUF_SPLICE_MOVE : Z := 8.
Definition FUSE_BUF_SPLICE_NONBLOCK : Z := 16.

Definition SPLICE_F_MOVE : Z := 1.
Definition SPLICE_F_NONBLOCK : Z := 2.

Record fuse_buf := mkFbuf {
  fb_size : Z;
  fb_flags : Z;
  fb_mem : Z;        (** an address *)
  fb_fd : Z;
  fb_pos : Z;
  fb_mem_size : Z;
}.

Record fuse_bufvec := mkBufvec {
  bv_count : Z;
  bv_idx : Z;
  bv_off : Z;
  bv_buf : list fuse_buf;
}.

Definition memory : Type := Z -> Z.

(** [len] bytes at [a]; [bs] stored at [a]. *)
Definition mem_read (m : memory) (a len : Z) : list Z :=
  (fun i => m (a + Z.of_nat i)) <$> seq 0 (Z.to_nat len).
Definition mem_write (m : memory) (a : Z) (bs : list Z) : memory :=
  fun x => if (a <=? x) && (x <? a + Z.of_nat (length bs)) then nth (Z.to_nat (x - a)) bs 0 else m x.

Record world (K : Type) := mkWorld { w_mem : memory; w_os : K }.
Arguments mkWorld {K} _ _.
Arguments w_mem {K} _.
Arguments w_os {K} _.

Section ops.
Context {K : Type} `{Syscalls K}.
Abbreviation MW := (M (world K)).

(** A system call that only changes the kernel. *)
Definition sys {A} (call : K -> A * K) : MW A :=
  fun w => let '(r, k) := call (w_os w) in Ok (r, mkWorld (w_mem w) k).

(** A call that reads into memory at [a]. *)
Definition sys_into (a : Z) (call : K -> sysret (list Z) * K) : MW (sysret Z) :=
  fun w => let '(r, k) := call (w_os w) in
    match r with
    | SysErr e => Ok (SysErr e, mkWorld (w_mem w) k)
    | SysRet bs => Ok (SysRet (Z.of_nat (length bs)), mkWorld (mem_write (w_mem w) a bs) k)
    end.

Fixpoint fuse_buf_size_loop (bufs : list fuse_buf) (size : Z) : Z :=
  match bufs with
  | [] => size
  | b :: bufs => if SIZE_MAX - size <=? fb_size b then SIZE_MAX
                 else fuse_buf_size_loop bufs (size + fb_size b)
  end.

Definition fuse_buf_size (bufv : fuse_bufvec) : Z :=
  fuse_buf_size_loop (take (Z.to_nat (bv_count bufv)) (bv_buf bufv)) 0.

Definition min_size (s1 s2 : Z) : Z := if s1 <? s2 then s1 else s2.

(** The loop of [fuse_buf_write]; every further round transfers a byte at least,
    so [len] rounds are enough. *)
Fixpoint fuse_buf_write_loop (fuel : nat) (dst : fuse_buf) (dst_off : Z) (src : fuse_buf)
    (src_off len copied : Z) : MW Z :=
  if len =? 0 then mret copied
  else match fuel with
  | O => diverge
  | S fuel =>
    w ← get;
    let data := mem_read (w_mem w) (fb_mem src + src_off) len in
    res ← (if has_flag (fb_flags dst) FUSE_BUF_FD_SEEK
           then sys (sys_pwrite (fb_fd dst) data (fb_pos dst + dst_off))
           else sys (sys_write (fb_fd dst) data));
    match res with
    | SysErr errno => if copied =? 0 then mret (- errno) else mret copied
    | SysRet res =>
      if res =? 0 then mret copied
      else
        let copied := copied + res in
        if negb (has_flag (fb_flags dst) FUSE_BUF_FD_RETRY) then mret copied
        else fuse_buf_write_loop fuel dst (dst_off + res) src (src_off + res) (len - res) copied
    end
  end.

Definition fuse_buf_write (dst : fuse_buf) (dst_off : Z) (src : fuse_buf) (src_off len : Z) : MW Z :=
  fuse_buf_write_loop (Z.to_nat len) dst dst_off src src_off len 0.

Fixpoint fuse_buf_read_loop (fuel : nat) (dst : fuse_buf) (dst_off : Z) (src : fuse_buf)
    (src_off len copied : Z) : MW Z :=
  if len =? 0 then mret copied
  else match fuel with
  | O => diverge
  | S fuel =>
    res ← (if has_flag (fb_flags src) FUSE_BUF_FD_SEEK
           then sys_into (fb_mem dst + dst_off) (sys_pread (fb_fd src) len (fb_pos src + src_off))
           else sys_into (fb_mem dst + dst_off) (sys_read (fb_fd src) len));
    match res with
    | SysErr errno => if copied =? 0 then mret (- errno) else mret copied
    | SysRet res =>
      if res =? 0 then mret copied
      else
        let copied := copied + res in
        if negb (has_flag (fb_flags src) FUSE_BUF_FD_RETRY) then mret copied
        else fuse_buf_read_loop fuel dst (dst_off + res) src (src_off + res) (len - res) copied
    end
  end.

Definition fuse_buf_read (dst : fuse_buf) (dst_off : Z) (src : fuse_buf) (src_off len : Z) : MW Z :=
  fuse_buf_read_loop (Z.to_nat len) dst dst_off src src_off len 0.

(** [char buf[4096]] on the stack: [stack] is its address. *)
Context (stack : Z).

Definition tmp_buf : fuse_buf := mkFbuf 4096 0 stack 0 0 0.

Fixpoint fuse_buf_fd_to_fd_loop (fuel : nat) (dst : fuse_buf) (dst_off : Z) (src : fuse_buf)
    (src_off len copied : Z) : MW Z :=
  if len =? 0 then mret copied
  else match fuel with
  | O => diverge
  | S fuel =>
    let this_len := min_size (fb_size tmp_buf) len in
    res ← fuse_buf_read tmp_buf 0 src src_off this_len;
    if res <? 0 then (if copied =? 0 then mret res else mret copied)
    else if res =? 0 then mret copied
    else
      let read_len := res in
      res ← fuse_buf_write dst dst_off tmp_buf 0 read_len;
      if res <? 0 then (if copied =? 0 then mret res else mret copied)
      else if res =? 0 then mret copied
      else
        let copied := copied + res in
        if res <? this_len then mret copied
        else fuse_buf_fd_to_fd_loop fuel dst (dst_off + res) src (src_off + res) (len - res) copied
  end.

Definition fuse_buf_fd_to_fd (dst : fuse_buf) (dst_off : Z) (src : fuse_buf) (src_off len : Z) : MW Z :=
  fuse_buf_fd_to_fd_loop (Z.to_nat len) dst dst_off src src_off len 0.

(** [splice] advances the positions it is given. *)
Fixpoint fuse_buf_splice_loop (fuel : nat) (dst : fuse_buf) (dst_off : Z) (src : fuse_buf)
    (src_off : Z) (srcpos dstpos : option Z) (len flags splice_flags copied : Z) : MW Z :=
  if len =? 0 then mret copied
  else match fuel with
  | O => diverge
  | S fuel =>
    res ← sys (sys_splice (fb_fd src) srcpos (fb_fd dst) dstpos len splice_flags);
    match res with
    | SysErr errno =>
      if negb (copied =? 0) then mret copied
      else if negb (errno =? EINVAL) || has_flag flags FUSE_BUF_FORCE_SPLICE then mret (- errno)
      else fuse_buf_fd_to_fd dst dst_off src src_off len
    | SysRet res =>
      if res =? 0 then mret copied
      else
        let copied := copied + res in
        if negb (has_flag (fb_flags src) FUSE_BUF_FD_RETRY) &&
           negb (has_flag (fb_flags dst) FUSE_BUF_FD_RETRY) then mret copied
        else fuse_buf_splice_loop fuel dst dst_off src src_off
               ((fun p => p + res) <$> srcpos) ((fun p => p + res) <$> dstpos)
               (len - res) flags splice_flags copied
    end
  end.

Definition fuse_buf_splice (dst : fuse_buf) (dst_off : Z) (src : fuse_buf) (src_off len flags : Z) : MW Z :=
  let splice_flags := if has_flag flags FUSE_BUF_SPLICE_MOVE then SPLICE_F_MOVE else 0 in
  let splice_flags := if has_flag flags FUSE_BUF_SPLICE_NONBLOCK
                      then Z.lor splice_flags SPLICE_F_NONBLOCK else splice_flags in
  let srcpos := if has_flag (fb_flags src) FUSE_BUF_FD_SEEK then Some (fb_pos src + src_off) else None in
  let dstpos := if has_flag (fb_flags dst) FUSE_BUF_FD_SEEK then Some (fb_pos dst + dst_off) else None in
  fuse_buf_splice_loop (Z.to_nat len) dst dst_off src src_off srcpos dstpos len flags splice_flags 0.

Definition fuse_buf_copy_one (dst : fuse_buf) (dst_off : Z) (src : fuse_buf) (src_off len flags : Z) : MW Z :=
  let src_is_fd := has_flag (fb_flags src) FUSE_BUF_IS_FD in
  let dst_is_fd := has_flag (fb_flags dst) FUSE_BUF_IS_FD in
  if negb src_is_fd && negb dst_is_fd then
    let dstmem := fb_mem dst + dst_off in
    let srcmem := fb_mem src + src_off in
    (if negb (dstmem =? srcmem)
     then modify (fun w => mkWorld (mem_write (w_mem w) dstmem (mem_read (w_mem w) srcmem len)) (w_os w))
     else mret tt);;
    mret len
  else if negb src_is_fd then fuse_buf_write dst dst_off src src_off len
  else if negb dst_is_fd then fuse_buf_read dst dst_off src src_off len
  else if has_flag flags FUSE_BUF_NO_SPLICE then fuse_buf_fd_to_fd dst dst_off src src_off len
  else fuse_buf_splice dst dst_off src src_off len flags.

Definition fuse_bufvec_current (bufv : fuse_bufvec) : option fuse_buf :=
  if bv_idx bufv <? bv_count bufv then bv_buf bufv !! Z.to_nat (bv_idx bufv) else None.

(** The vector afterwards, and whether there is more. *)
Definition fuse_bufvec_advance (bufv : fuse_bufvec) (len : Z) : MW (bool * fuse_bufvec) :=
  match fuse_bufvec_current bufv with
  | None => mret (false, bufv)
  | Some buf =>
    let off := u64 (bv_off bufv + len) in
    assert (off <=? fb_size buf);;
    if off =? fb_size buf then
      assert (bv_idx bufv <? bv_count bufv);;
      let idx := bv_idx bufv + 1 in
      if idx =? bv_count bufv then mret (false, mkBufvec (bv_count bufv) idx off (bv_buf bufv))
      else mret (true, mkBufvec (bv_count bufv) idx 0 (bv_buf bufv))
    else mret (true, mkBufvec (bv_count bufv) (bv_idx bufv) off (bv_buf bufv))
  end.

(** The loop of [fuse_buf_copy]: the result and both vectors. *)
Fixpoint fuse_buf_copy_loop (fuel : nat) (dstv srcv : fuse_bufvec) (flags copied : Z)
  : MW (Z * fuse_bufvec * fuse_bufvec) :=
  match fuel with
  | O => diverge
  | S fuel =>
    match fuse_bufvec_current srcv, fuse_bufvec_current dstv with
    | Some src, Some dst =>
      let src_len := fb_size src - bv_off srcv in
      let dst_len := fb_size dst - bv_off dstv in
      let len := min_size src_len dst_len in
      res ← fuse_buf_copy_one dst (bv_off dstv) src (bv_off srcv) len flags;
      if res <? 0 then mret (if copied =? 0 then res else copied, dstv, srcv)
      else
        let copied := copied + res in
        r ← fuse_bufvec_advance srcv res;
        let '(more, srcv) := r in
        if negb more then mret (copied, dstv, srcv)
        else
          r ← fuse_bufvec_advance dstv res;
          let '(more, dstv) := r in
          if negb more then mret (copied, dstv, srcv)
          else if res <? len then mret (copied, dstv, srcv)
          else fuse_buf_copy_loop fuel dstv srcv flags copied
    | _, _ => mret (copied, dstv, srcv)
    end
  end.

(** [same] is [dstv == srcv]. *)
Definition fuse_buf_copy (same : bool) (dstv srcv : fuse_bufvec) (flags : Z)
  : MW (Z * fuse_bufvec * fuse_bufvec) :=
  if same then mret (fuse_buf_size dstv, dstv, srcv)
  else fuse_buf_copy_loop (S (length (bv_buf dstv) + length (bv_buf srcv))) dstv srcv flags 0.
End ops.

(** ** Sizes *)

Definition sum_sizes (bufs : list fuse_buf) : Z := foldr (fun b acc => fb_size b + acc) 0 bufs.

Lemma sum_sizes_nonneg bufs : Forall (fun b => 0 <= fb_size b) bufs -> 0 <= sum_sizes bufs.
Proof. unfold sum_sizes. induction 1; cbn in *; lia. Qed.

Lemma fuse_buf_size_loop_spec bufs size :
  Forall (fun b => 0 <= fb_size b) bufs -> 0 <= size < SIZE_MAX ->
  fuse_buf_size_loop bufs size = Z.min SIZE_MAX (size + sum_sizes bufs).
Proof.
  intros Hb. revert size. induction Hb as [|b bufs Hb Hbs IH]; intros size Hs; cbn [fuse_buf_size_loop]; [cbn; lia|].
  change (sum_sizes (b :: bufs)) with (fb_size b + sum_sizes bufs).
  pose proof (sum_sizes_nonneg bufs Hbs). destruct (Z.leb_spec (SIZE_MAX - size) (fb_size b)); [lia|].
  rewrite IH; lia.
Qed.

(** [fuse_buf_size] is the sum of the sizes, saturated at [SIZE_MAX]: it
    never wraps around, whatever the sizes are. *)
Theorem fuse_buf_size_saturates bufv :
  Forall (fun b => 0 <= fb_size b) (bv_buf bufv) -> bv_count bufv = Z.of_nat (length (bv_buf bufv)) ->
  fuse_buf_size bufv = Z.min SIZE_MAX (sum_sizes (bv_buf bufv)).
Proof.
  intros Hb Hc. unfold fuse_buf_size. rewrite take_ge; [lia|]. by rewrite fuse_buf_size_loop_spec.
Qed.

Lemma fuse_buf_size_saturates_witness :
  fuse_buf_size (mkBufvec 2 0 0 [mkFbuf SIZE_MAX 0 0 0 0 0; mkFbuf 5 0 0 0 0 0]) =
  Z.min SIZE_MAX (sum_sizes [mkFbuf SIZE_MAX 0 0 0 0 0; mkFbuf 5 0 0 0 0 0]).
Proof.
  apply (fuse_buf_size_saturates (mkBufvec 2 0 0 [mkFbuf SIZE_MAX 0 0 0 0 0; mkFbuf 5 0 0 0 0 0])).
  - repeat constructor; cbn; unfold SIZE_MAX; lia.
  - reflexivity.
Defined.

(** ** How much is copied *)

(** What a transfer of at most [len] bytes reports, [copied] being reported so far. *)
Definition transferred (len copied r : Z) : Prop := (r < 0 /\ copied = 0) \/ copied <= r <= copied + len.

Section bounds.
Context {K : Type} `{SyscallLaws K}.
Context (stack : Z).

Lemma length_mem_read m a len : length (mem_read m a len) = Z.to_nat len.
Proof. unfold mem_read. by rewrite length_fmap length_seq. Qed.

Lemma wp_sys {A} (call : K -> A * K) (Q : A -> world K -> Prop) w :
  Q (call (w_os w)).1 (mkWorld (w_mem w) (call (w_os w)).2) -> wp (sys call) Q w.
Proof. unfold wp, sys. by destruct (call (w_os w)). Qed.

Lemma wp_sys_into a (call : K -> sysret (list Z) * K) (Q : sysret Z -> world K -> Prop) w :
  match (call (w_os w)).1 with
  | SysErr e => Q (SysErr e) (mkWorld (w_mem w) (call (w_os w)).2)
  | SysRet bs => Q (SysRet (Z.of_nat (length bs))) (mkWorld (mem_write (w_mem w) a bs) (call (w_os w)).2)
  end -> wp (sys_into a call) Q w.
Proof. unfold wp, sys_into. by destruct (call (w_os w)) as [[]]. Qed.

(** One call of [write] or [pwrite], of [read] or [pread]. *)
Lemma wp_write_call (b : bool) fd bs pos (Q : sysret Z -> world K -> Prop) w :
  (forall e w', 0 < e -> Q (SysErr e) w') ->
  (forall n w', 0 <= n <= Z.of_nat (length bs) -> Q (SysRet n) w') ->
  wp (if b then sys (sys_pwrite fd bs pos) else sys (sys_write fd bs)) Q w.
Proof.
  intros He Hn. destruct b; apply wp_sys;
    [pose proof (sys_pwrite_le fd bs pos (w_os w)) as Hl|pose proof (sys_write_le fd bs (w_os w)) as Hl];
    match type of Hl with context [match ?x with _ => _ end] => destruct x end; auto.
Qed.

Lemma wp_read_call (b : bool) a fd len pos (Q : sysret Z -> world K -> Prop) w :
  0 <= len ->
  (forall e w', 0 < e -> Q (SysErr e) w') -> (forall n w', 0 <= n <= len -> Q (SysRet n) w') ->
  wp (if b then sys_into a (sys_pread fd len pos) else sys_into a (sys_read fd len)) Q w.
Proof.
  intros Hlen He Hn. destruct b; apply wp_sys_into;
    [pose proof (sys_pread_le fd len pos (w_os w) Hlen) as Hl|pose proof (sys_read_le fd len (w_os w) Hlen) as Hl];
    match type of Hl with context [match ?x with _ => _ end] => destruct x end; auto with lia.
Qed.

Lemma fuse_buf_write_bound fuel dst src : forall dst_off src_off len copied w,
  0 <= len <= Z.of_nat fuel -> 0 <= copied ->
  wp (fuse_buf_write_loop fuel dst dst_off src src_off len copied) (fun r _ => transferred len copied r) w.
Proof.
  unfold transferred.
  induction fuel as [|fuel IH]; intros dst_off src_off len copied w Hlen Hc; cbn [fuse_buf_write_loop];
    destruct (Z.eqb_spec len 0); try (apply wp_ret; lia); try lia.
  apply wp_bind, wp_get, wp_bind, wp_write_call.
  - intros e w' He. destruct (Z.eqb_spec copied 0); apply wp_ret; lia.
  - intros n' w' Hn. rewrite length_mem_read in Hn. destruct (Z.eqb_spec n' 0); [apply wp_ret; lia|].
    destruct (has_flag _ _); cbn [negb]; [|apply wp_ret; lia].
    eapply wp_mono; [apply IH; lia|]. cbn. lia.
Qed.

Lemma fuse_buf_read_bound fuel dst src : forall dst_off src_off len copied w,
  0 <= len <= Z.of_nat fuel -> 0 <= copied ->
  wp (fuse_buf_read_loop fuel dst dst_off src src_off len copied) (fun r _ => transferred len copied r) w.
Proof.
  unfold transferred.
  induction fuel as [|fuel IH]; intros dst_off src_off len copied w Hlen Hc; cbn [fuse_buf_read_loop];
    destruct (Z.eqb_spec len 0); try (apply wp_ret; lia); try lia.
  apply wp_bind, wp_read_call; [lia|..].
  - intros e w' He. destruct (Z.eqb_spec copied 0); apply wp_ret; lia.
  - intros n' w' Hn. destruct (Z.eqb_spec n' 0); [apply wp_ret; lia|].
    destruct (has_flag _ _); cbn [negb]; [|apply wp_ret; lia].
    eapply wp_mono; [apply IH; lia|]. cbn. lia.
Qed.

Lemma fuse_buf_fd_to_fd_bound fuel dst src : forall dst_off src_off len copied w,
  0 <= len <= Z.of_nat fuel -> 0 <= copied ->
  wp (fuse_buf_fd_to_fd_loop stack fuel dst dst_off src src_off len copied)
     (fun r _ => transferred len copied r) w.
Proof.
  unfold transferred.
  induction fuel as [|fuel IH]; intros dst_off src_off len copied w Hlen Hc; cbn [fuse_buf_fd_to_fd_loop];
    destruct (Z.eqb_spec len 0); try (apply wp_ret; lia); try lia.
  assert (1 <= min_size (fb_size (tmp_buf stack)) len <= len) as Hm
    by (unfold min_size; cbn [fb_size tmp_buf]; destruct (Z.ltb_spec 4096 len); lia).
  apply wp_bind. eapply wp_mono; [apply fuse_buf_read_bound; lia|]. unfold transferred. intros r1 w1 Hr1. cbn beta.
  destruct (Z.ltb_spec r1 0); [destruct (Z.eqb_spec copied 0); apply wp_ret; lia|].
  destruct (Z.eqb_spec r1 0); [apply wp_ret; lia|].
  apply wp_bind. eapply wp_mono; [apply fuse_buf_write_bound; lia|]. unfold transferred. intros r2 w2 Hr2. cbn beta.
  destruct (Z.ltb_spec r2 0); [destruct (Z.eqb_spec copied 0); apply wp_ret; lia|].
  destruct (Z.eqb_spec r2 0); [apply wp_ret; lia|].
  destruct (Z.ltb_spec r2 (min_size (fb_size (tmp_buf stack)) len)); [apply wp_ret; lia|].
  eapply wp_mono; [apply IH; lia|]. cbn. lia.
Qed.

Lemma fuse_buf_splice_bound fuel dst src flags sflags dst_off src_off :
  forall srcpos dstpos len copied w,
  0 <= len <= Z.of_nat fuel -> 0 <= copied ->
  wp (fuse_buf_splice_loop stack fuel dst dst_off src src_off srcpos dstpos len flags sflags copied)
     (fun r _ => transferred len copied r) w.
Proof.
  unfold transferred.
  induction fuel as [|fuel IH]; intros srcpos dstpos len copied w Hlen Hc; cbn [fuse_buf_splice_loop];
    destruct (Z.eqb_spec len 0); try (apply wp_ret; lia); try lia.
  apply wp_bind, wp_sys. pose proof (sys_splice_le (fb_fd src) srcpos (fb_fd dst) dstpos len sflags (w_os w)) as Hl.
  destruct (sys_splice _ _ _ _ _ _ _).1 as [e|r]; specialize (Hl ltac:(lia)).
  - destruct (Z.eqb_spec copied 0) as [->|]; cbn [negb]; [|apply wp_ret; lia].
    destruct (_ || _); [apply wp_ret; lia|].
    eapply wp_mono; [apply fuse_buf_fd_to_fd_bound; lia|]. unfold transferred. cbn. lia.
  - destruct (Z.eqb_spec r 0); [apply wp_ret; lia|].
    destruct (_ && _); [apply wp_ret; lia|].
    eapply wp_mono; [apply IH; lia|]. cbn. lia.
Qed.

Lemma fuse_buf_copy_one_bound dst dst_off src src_off len flags w :
  0 <= len ->
  wp (fuse_buf_copy_one stack dst dst_off src src_off len flags) (fun r _ => r < 0 \/ 0 <= r <= len) w.
Proof.
  intros Hlen.
  assert (forall (m : M (world K) Z), wp m (fun r _ => transferred len 0 r) w ->
    wp m (fun r _ => r < 0 \/ 0 <= r <= len) w) as Hw.
  { intros m Hm. eapply wp_mono; [exact Hm|]. unfold transferred. cbn. lia. }
  unfold fuse_buf_copy_one. destruct (has_flag (fb_flags src) _), (has_flag (fb_flags dst) _); cbn [negb andb].
  - destruct (has_flag flags _); apply Hw; [apply fuse_buf_fd_to_fd_bound|apply fuse_buf_splice_bound]; lia.
  - apply Hw, fuse_buf_read_bound; lia.
  - apply Hw, fuse_buf_write_bound; lia.
  - apply wp_bind. destruct (_ =? _); cbn [negb]; [apply wp_ret|apply wp_modify]; apply wp_ret; lia.
Qed.
End bounds.

(** ** Vectors *)

(** The addresses of the bytes of a buffer, and of the bytes of a vector that are
    still to be copied; for descriptors only their number matters. *)
Definition range (a len : Z) : list Z := (fun i => a + Z.of_nat i) <$> seq 0 (Z.to_nat len).

Definition buf_addrs (bufs : list fuse_buf) : list Z := bufs ≫= (fun b => range (fb_mem b) (fb_size b)).

Definition addrs (bv : fuse_bufvec) : list Z :=
  match drop (Z.to_nat (bv_idx bv)) (bv_buf bv) with
  | [] => []
  | b :: bufs => range (fb_mem b + bv_off bv) (fb_size b - bv_off bv) ++ buf_addrs bufs
  end.

(** How many bytes are left. *)
Definition rem (bv : fuse_bufvec) : Z := Z.of_nat (length (addrs bv)).

Record bv_wf (bv : fuse_bufvec) : Prop := {
  bw_count : bv_count bv = Z.of_nat (length (bv_buf bv));
  bw_sizes : forall b, b ∈ bv_buf bv -> 0 <= fb_size b <= OFFSET_MAX;
  bw_idx : 0 <= bv_idx bv <= bv_count bv;
  bw_off : 0 <= bv_off bv;
  bw_cur : forall b, bv_buf bv !! Z.to_nat (bv_idx bv) = Some b -> bv_off bv <= fb_size b;
}.

Lemma length_range a len : length (range a len) = Z.to_nat len.
Proof. unfold range. by rewrite length_fmap length_seq. Qed.

Lemma range_split a len k :
  0 <= k <= len -> range a len = range a k ++ range (a + k) (len - k).
Proof.
  intros Hk. unfold range.
  replace (Z.to_nat len) with (Z.to_nat k + Z.to_nat (len - k))%nat by lia.
  rewrite seq_app fmap_app. f_equal. cbn [Nat.add]. apply list_eq. intros i.
  rewrite !list_lookup_fmap. destruct (decide (i < Z.to_nat (len - k))%nat).
  - rewrite !lookup_seq_lt //=. f_equal. lia.
  - rewrite !lookup_seq_ge //=; lia.
Qed.

Lemma range_nil a len : len <= 0 -> range a len = [].
Proof. intros. unfold range. by replace (Z.to_nat len) with 0%nat by lia. Qed.

Lemma addrs_current bv :
  bv_wf bv -> match fuse_bufvec_current bv with
  | None => addrs bv = [] /\ bv_idx bv = bv_count bv
  | Some b => b ∈ bv_buf bv /\ bv_buf bv !! Z.to_nat (bv_idx bv) = Some b /\ bv_idx bv < bv_count bv /\
      addrs bv = range (fb_mem b + bv_off bv) (fb_size b - bv_off bv) ++
                 buf_addrs (drop (S (Z.to_nat (bv_idx bv))) (bv_buf bv))
  end.
Proof.
  intros [Hc _ Hi _ _]. unfold fuse_bufvec_current, addrs. destruct (Z.ltb_spec (bv_idx bv) (bv_count bv)).
  - destruct (lookup_lt_is_Some_2 (bv_buf bv) (Z.to_nat (bv_idx bv))) as [b Hb]; [lia|]. rewrite Hb.
    split_and!; [by eapply list_elem_of_lookup_2|done|done|]. by rewrite (drop_S _ b).
  - rewrite drop_ge; [lia|]. split; [done|lia].
Qed.

Lemma buf_addrs_drop bufs i b :
  bufs !! i = Some b -> buf_addrs (drop i bufs) = range (fb_mem b) (fb_size b) ++ buf_addrs (drop (S i) bufs).
Proof. intros Hb. by rewrite (drop_S _ b i Hb). Qed.

Section advance.
Context {K : Type}.

(** [fuse_bufvec_advance] by no more than what the current buffer holds. *)
Lemma fuse_bufvec_advance_spec bv b len (w : world K) :
  bv_wf bv -> fuse_bufvec_current bv = Some b -> 0 <= len <= fb_size b - bv_off bv ->
  wp (fuse_bufvec_advance bv len) (fun r w' => w' = w /\ let '(more, bv') := r in
    bv_wf bv' /\ bv_buf bv' = bv_buf bv /\ addrs bv' = drop (Z.to_nat len) (addrs bv) /\
    (more = false -> addrs bv' = []) /\
    (len = fb_size b - bv_off bv -> bv_idx bv' = bv_idx bv + 1) /\ bv_idx bv <= bv_idx bv') w.
Proof.
  intros Hwf Hcur Hlen. pose proof (addrs_current bv Hwf) as Ha. rewrite Hcur in Ha.
  destruct Ha as (Hin & Hb & Hlt & Ha). pose proof Hwf as [Hc Hs Hi Ho Hcu]. pose proof (Hs b Hin) as Hsz.
  unfold fuse_bufvec_advance. rewrite Hcur wrap_small; [unfold OFFSET_MAX in *; lia|].
  apply wp_bind, wp_assert; [by apply Z.leb_le; lia|].
  assert (drop (Z.to_nat len) (addrs bv) = range (fb_mem b + (bv_off bv + len)) (fb_size b - (bv_off bv + len)) ++
    buf_addrs (drop (S (Z.to_nat (bv_idx bv))) (bv_buf bv))) as Hd.
  { rewrite Ha (range_split _ _ len); [lia|]. rewrite -app_assoc drop_app_length'; [by rewrite length_range|].
    do 2 f_equal; lia. }
  rewrite Hd. destruct (Z.eqb_spec (bv_off bv + len) (fb_size b)) as [He|Hne].
  - apply wp_bind, wp_assert; [by apply Z.ltb_lt|]. rewrite range_nil; [lia|]. cbn [app].
    assert (Z.to_nat (bv_idx bv + 1) = S (Z.to_nat (bv_idx bv))) as HS by lia.
    destruct (Z.eqb_spec (bv_idx bv + 1) (bv_count bv)) as [Hlast|Hmore]; apply wp_ret.
    + assert (drop (S (Z.to_nat (bv_idx bv))) (bv_buf bv) = []) as Hnil by (apply drop_ge; lia).
      split; [done|]. rewrite Hnil. unfold addrs. cbn [bv_idx bv_buf]. rewrite HS Hnil.
      split_and!; try done; [|cbn; lia].
      split; cbn; try done; try lia. intros b' Hb'. rewrite HS in Hb'. apply lookup_lt_Some in Hb'. lia.
    + split; [done|]. split_and!; try done; try (cbn; lia).
      * split; cbn; try done; try lia. intros b' Hb'. apply list_elem_of_lookup_2 in Hb'. by apply Hs.
      * unfold addrs. cbn [bv_idx bv_buf bv_off]. rewrite HS.
        destruct (drop (S (Z.to_nat (bv_idx bv))) (bv_buf bv)) as [|b' rest]; [done|].
        unfold buf_addrs. rewrite bind_cons Z.add_0_r Z.sub_0_r. done.
  - apply wp_ret. split; [done|]. split_and!; try done; try (cbn; lia).
    + split; cbn; try done; try lia. intros b' Hb'. simplify_eq. lia.
    + unfold addrs. cbn [bv_idx bv_buf bv_off]. rewrite (drop_S _ b); done.
Qed.
End advance.

(** ** Copying between vectors *)

Section copy.
Context {K : Type} `{SyscallLaws K}.
Context (stack : Z).

Lemma current_len bv b :
  bv_wf bv -> fuse_bufvec_current bv = Some b ->
  0 <= fb_size b - bv_off bv <= rem bv /\ 0 <= bv_idx bv < bv_count bv.
Proof.
  intros Hwf Hcur. pose proof (addrs_current bv Hwf) as Ha. rewrite Hcur in Ha.
  destruct Ha as (_ & Hb & Hlt & Ha). pose proof (bw_cur _ Hwf b Hb). unfold rem. rewrite Ha length_app length_range.
  pose proof (bw_idx _ Hwf). lia.
Qed.

Lemma min_size_min a b : min_size a b = Z.min a b.
Proof. unfold min_size. destruct (Z.ltb_spec a b); lia. Qed.

Definition copy_post (dstv srcv : fuse_bufvec) (copied : Z) (x : Z * fuse_bufvec * fuse_bufvec) : Prop :=
  let '(r, dstv', srcv') := x in
  bv_wf dstv' /\ bv_wf srcv' /\
  (r < 0 /\ copied = 0 \/
   copied <= r <= copied + Z.min (rem dstv) (rem srcv) /\ rem srcv' = rem srcv - (r - copied)).

Lemma fuse_buf_copy_loop_safe flags fuel : forall dstv srcv copied w,
  bv_wf dstv -> bv_wf srcv -> 0 <= copied ->
  bv_count dstv - bv_idx dstv + (bv_count srcv - bv_idx srcv) < Z.of_nat fuel ->
  wp (fuse_buf_copy_loop stack fuel dstv srcv flags copied) (fun x _ => copy_post dstv srcv copied x) w.
Proof.
  induction fuel as [|fuel IH]; intros dstv srcv copied w Hd Hs Hc Hf.
  { pose proof (bw_idx _ Hd). pose proof (bw_idx _ Hs). lia. }
  cbn [fuse_buf_copy_loop]. assert (0 <= rem dstv /\ 0 <= rem srcv) as [? ?] by (unfold rem; lia).
  destruct (fuse_bufvec_current srcv) as [src|] eqn:Hcs; [|apply wp_ret; split_and!; [done|done|right; lia]].
  destruct (fuse_bufvec_current dstv) as [dst|] eqn:Hcd; [|apply wp_ret; split_and!; [done|done|right; lia]].
  destruct (current_len _ _ Hs Hcs), (current_len _ _ Hd Hcd). cbn zeta. rewrite min_size_min.
  set (len := Z.min _ _). assert (len = fb_size src - bv_off srcv \/ len = fb_size dst - bv_off dstv) as Hor by lia.
  assert (0 <= len <= fb_size src - bv_off srcv /\ len <= fb_size dst - bv_off dstv) as [? ?] by lia.
  apply wp_bind. eapply wp_mono; [by apply fuse_buf_copy_one_bound; lia|]. intros res w1 Hres. cbn beta in *.
  destruct (Z.ltb_spec res 0).
  { apply wp_ret. split_and!; [done|done|]. destruct (Z.eqb_spec copied 0); [left|right]; lia. }
  apply wp_bind. eapply wp_mono; [eapply fuse_bufvec_advance_spec; [done|done|lia]|].
  intros [more srcv1] w2 (-> & Hs1 & Hbs1 & Ha1 & Hn1 & Hi1 & Hle1).
  assert (rem srcv1 = rem srcv - res) as Hr1 by (unfold rem; rewrite Ha1 length_drop; unfold rem in *; lia).
  assert (bv_count srcv1 = bv_count srcv /\ 0 <= rem srcv1) as [Hcc1 ?].
  { split; [|unfold rem; lia]. by rewrite (bw_count _ Hs1) (bw_count _ Hs) Hbs1. }
  destruct more; cbn [negb]; [|apply wp_ret; split_and!; [done|done|right; lia]].
  apply wp_bind. eapply wp_mono; [eapply fuse_bufvec_advance_spec; [done|done|lia]|].
  intros [more2 dstv1] w3 (-> & Hd1 & Hb1 & Ha2 & Hn2 & Hi2 & Hle2).
  assert (rem dstv1 = rem dstv - res) as Hr2 by (unfold rem; rewrite Ha2 length_drop; unfold rem in *; lia).
  destruct more2; cbn [negb]; [|apply wp_ret; split_and!; [done|done|right; lia]].
  destruct (Z.ltb_spec res len); [apply wp_ret; split_and!; [done|done|right; lia]|].
  assert (bv_count dstv1 = bv_count dstv) as Hcc2 by (rewrite (bw_count _ Hd1) (bw_count _ Hd) Hb1; done).
  eapply wp_mono; [apply IH; [done|done|lia|]|].
  - assert (res = len) as -> by lia. destruct Hor; lia.
  - intros [[r dv] sv] _ (? & ? & Hx). split_and!; [done|done|]. lia.
Qed.

(** C19: whatever the system calls return (short counts, zero, errors),
    [fuse_buf_copy] of well-formed vectors terminates without failing an
    assertion.  It returns a negative error with nothing copied, or a count that
    fits both vectors; the vectors stay well formed and the source has advanced by
    exactly that count. *)
Theorem fuse_buf_copy_safe dstv srcv flags w :
  bv_wf dstv -> bv_wf srcv ->
  exists r dstv' srcv' w', fuse_buf_copy stack false dstv srcv flags w = Ok ((r, dstv', srcv'), w') /\
    bv_wf dstv' /\ bv_wf srcv' /\
    (r < 0 \/ 0 <= r <= Z.min (rem dstv) (rem srcv) /\ rem srcv' = rem srcv - r).
Proof.
  intros Hd Hs. pose proof (bw_count _ Hd). pose proof (bw_count _ Hs). pose proof (bw_idx _ Hd). pose proof (bw_idx _ Hs).
  destruct (wp_Ok _ _ _ (fuse_buf_copy_loop_safe flags (S (length (bv_buf dstv) + length (bv_buf srcv)))
    dstv srcv 0 w Hd Hs ltac:(lia) ltac:(lia))) as ([[r dv] sv] & w' & Hrun & ? & ? & Hr).
  exists r, dv, sv, w'. split_and!; [done..|]. destruct Hr; [by left; lia|right]. lia.
Qed.

(** ** Memory to memory *)

Definition in_memory (bv : fuse_bufvec) : Prop :=
  forall b, b ∈ bv_buf bv -> has_flag (fb_flags b) FUSE_BUF_IS_FD = false.

Lemma mem_read_range m a len : mem_read m a len = m <$> range a len.
Proof. unfold mem_read, range. by rewrite -list_fmap_compose. Qed.

Lemma elem_of_range x a len : x ∈ range a len <-> a <= x < a + len.
Proof.
  unfold range. rewrite list_elem_of_fmap. setoid_rewrite elem_of_seq. split.
  - intros (i & -> & ?). lia.
  - intros ?. exists (Z.to_nat (x - a)). lia.
Qed.

(** Storing [bs] at [a]: these addresses hold [bs], the others are unchanged. *)
Lemma mem_write_range m a bs :
  mem_write m a bs <$> range a (Z.of_nat (length bs)) = bs.
Proof.
  apply list_eq. intros i. rewrite list_lookup_fmap /range Nat2Z.id list_lookup_fmap.
  destruct (decide (i < length bs)%nat) as [Hi|Hi].
  - rewrite lookup_seq_lt //=. unfold mem_write.
    rewrite (proj2 (Z.leb_le _ _)); [lia|]. rewrite (proj2 (Z.ltb_lt _ _)); [lia|]. cbn [andb].
    replace (Z.to_nat (a + Z.of_nat i - a)) with i by lia.
    destruct (lookup_lt_is_Some_2 bs i Hi) as [b Hb]. rewrite Hb. f_equal.
    by rewrite nth_lookup Hb.
  - rewrite lookup_seq_ge //=; [lia|]. rewrite lookup_ge_None_2 //. lia.
Qed.

Lemma mem_write_other m a bs x : x ∉ range a (Z.of_nat (length bs)) -> mem_write m a bs x = m x.
Proof.
  rewrite elem_of_range. intros Hx. unfold mem_write.
  destruct (Z.leb_spec a x), (Z.ltb_spec x (a + Z.of_nat (length bs))); cbn; try done. lia.
Qed.

Lemma fmap_agree (m m' : memory) (l : list Z) : (forall x, x ∈ l -> m x = m' x) -> m <$> l = m' <$> l.
Proof. intros Hx. apply list_fmap_ext. intros i x Hi. apply Hx. by eapply list_elem_of_lookup_2. Qed.

(** The bytes of [m] at [S] have been copied to [D], and nothing else changed. *)
Definition copied_to (m m' : memory) (S D : list Z) : Prop :=
  m' <$> D = m <$> S /\ forall x, x ∉ D -> m' x = m x.

(** First [S1] to [D1], then [S2] to [D2]. *)
Lemma copied_to_app m m1 m2 S1 S2 D1 D2 :
  copied_to m m1 S1 D1 -> copied_to m1 m2 S2 D2 -> NoDup (D1 ++ D2) -> (forall x, x ∈ S2 -> x ∉ D1) ->
  copied_to m m2 (S1 ++ S2) (D1 ++ D2).
Proof.
  intros [E1 F1] [E2 F2] (_ & Hdisj & _)%list.NoDup_app Hs. split.
  - rewrite !fmap_app E2 -E1. f_equal.
    + apply fmap_agree. intros x Hx. apply F2. auto.
    + apply fmap_agree. intros x Hx. apply F1. auto.
  - intros x [? ?]%not_elem_of_app. rewrite F2 // F1 //.
Qed.

Lemma copied_to_nil m : copied_to m m [] [].
Proof. done. Qed.

Lemma fuse_buf_copy_one_mem dst dst_off src src_off len flags w :
  has_flag (fb_flags src) FUSE_BUF_IS_FD = false -> has_flag (fb_flags dst) FUSE_BUF_IS_FD = false ->
  0 <= len ->
  wp (fuse_buf_copy_one stack dst dst_off src src_off len flags) (fun r w' => r = len /\
    copied_to (w_mem w) (w_mem w') (range (fb_mem src + src_off) len) (range (fb_mem dst + dst_off) len)) w.
Proof.
  intros Hs Hd Hlen. unfold fuse_buf_copy_one. rewrite Hs Hd. cbn [negb andb]. apply wp_bind.
  destruct (Z.eqb_spec (fb_mem dst + dst_off) (fb_mem src + src_off)) as [->|Hne]; cbn [negb].
  - apply wp_ret, wp_ret. split; [done|]. by split.
  - apply wp_modify, wp_ret. split; [done|]. cbn [w_mem].
    set (bs := mem_read _ _ _). assert (Z.of_nat (length bs) = len) as Hl.
    { unfold bs. rewrite length_mem_read. lia. }
    split.
    + rewrite -{1}Hl mem_write_range. apply mem_read_range.
    + intros x Hx. apply mem_write_other. by rewrite Hl.
Qed.

Lemma elem_of_drop_sub (x : Z) k l : x ∈ drop k l -> x ∈ l.
Proof. intros Hx. rewrite -(take_drop k l). apply elem_of_app. by right. Qed.

Lemma elem_of_take_sub (x : Z) k l : x ∈ take k l -> x ∈ l.
Proof. intros Hx. rewrite -(take_drop k l). apply elem_of_app. by left. Qed.

Lemma fuse_buf_copy_loop_mem flags fuel : forall dstv srcv copied w,
  bv_wf dstv -> bv_wf srcv -> in_memory dstv -> in_memory srcv -> 0 <= copied ->
  NoDup (addrs dstv) -> (forall x, x ∈ addrs srcv -> x ∉ addrs dstv) ->
  bv_count dstv - bv_idx dstv + (bv_count srcv - bv_idx srcv) < Z.of_nat fuel ->
  wp (fuse_buf_copy_loop stack fuel dstv srcv flags copied) (fun x w' =>
    let n := Z.min (rem dstv) (rem srcv) in
    x.1.1 = copied + n /\
    copied_to (w_mem w) (w_mem w') (take (Z.to_nat n) (addrs srcv)) (take (Z.to_nat n) (addrs dstv))) w.
Proof.
  induction fuel as [|fuel IH]; intros dstv srcv copied w Hd Hs Hmd Hms Hc Hnd Hdis Hf.
  { pose proof (bw_idx _ Hd). pose proof (bw_idx _ Hs). lia. }
  cbn [fuse_buf_copy_loop]. pose proof (addrs_current srcv Hs) as Has. pose proof (addrs_current dstv Hd) as Had.
  destruct (fuse_bufvec_current srcv) as [src|] eqn:Hcs.
  2: { apply wp_ret. destruct Has as [Has _]. unfold rem. rewrite Has. cbn. rewrite Z.min_r; [lia|].
       rewrite take_nil take_0. split; [lia|done]. }
  destruct (fuse_bufvec_current dstv) as [dst|] eqn:Hcd.
  2: { apply wp_ret. destruct Had as [Had _]. unfold rem. rewrite Had. cbn. rewrite Z.min_l; [lia|].
       rewrite take_nil take_0. split; [lia|done]. }
  destruct (current_len _ _ Hs Hcs), (current_len _ _ Hd Hcd). cbn zeta. rewrite min_size_min.
  destruct Has as (Hins & _ & _ & Has), Had as (Hind & _ & _ & Had).
  set (len := Z.min _ _). assert (len = fb_size src - bv_off srcv \/ len = fb_size dst - bv_off dstv) as Hor by lia.
  assert (0 <= len <= fb_size src - bv_off srcv /\ len <= fb_size dst - bv_off dstv) as [? ?] by lia.
  assert (take (Z.to_nat len) (addrs srcv) = range (fb_mem src + bv_off srcv) len) as Hts.
  { rewrite Has (range_split _ _ len) // -app_assoc take_app_length' //. by rewrite length_range. }
  assert (take (Z.to_nat len) (addrs dstv) = range (fb_mem dst + bv_off dstv) len) as Htd.
  { rewrite Had (range_split _ _ len); [lia|]. rewrite -app_assoc take_app_length' //. by rewrite length_range. }
  apply wp_bind. eapply wp_mono; [by apply fuse_buf_copy_one_mem; [apply Hms|apply Hmd|lia]|].
  intros res w1 [-> Hcopy]. rewrite -Hts -Htd in Hcopy.
  rewrite (proj2 (Z.ltb_ge len 0)); [lia|].
  assert (forall n, Z.to_nat len <= n -> forall l : list Z, take n l = take (Z.to_nat len) l ++ take (n - Z.to_nat len) (drop (Z.to_nat len) l))%nat as Hsplit.
  { intros n' Hn l. rewrite -{1}(take_drop (Z.to_nat len) l). rewrite take_app take_take length_take.
    rewrite Nat.min_r; [lia|]. destruct (decide (Z.to_nat len <= length l)%nat) as [Hl|Hl].
    - by rewrite Nat.min_l.
    - rewrite !drop_ge ?take_nil //; lia. }
  apply wp_bind. eapply wp_mono; [eapply fuse_bufvec_advance_spec; [done|done|lia]|].
  intros [more srcv1] w2 (-> & Hs1 & Hbs1 & Ha1 & Hn1 & Hi1 & Hle1).
  assert (rem srcv1 = rem srcv - len) as Hr1 by (unfold rem; rewrite Ha1 length_drop; unfold rem in *; lia).
  destruct more; cbn [negb].
  2: { apply wp_ret. replace (Z.min (rem dstv) (rem srcv)) with len; [done|].
       assert (rem srcv1 = 0) by (unfold rem; by rewrite (Hn1 eq_refl)). lia. }
  apply wp_bind. eapply wp_mono; [eapply fuse_bufvec_advance_spec; [done|done|lia]|].
  intros [more2 dstv1] w3 (-> & Hd1 & Hb1 & Ha2 & Hn2 & Hi2 & Hle2).
  assert (rem dstv1 = rem dstv - len) as Hr2 by (unfold rem; rewrite Ha2 length_drop; unfold rem in *; lia).
  destruct more2; cbn [negb].
  2: { apply wp_ret. replace (Z.min (rem dstv) (rem srcv)) with len; [done|].
       assert (rem dstv1 = 0) by (unfold rem; by rewrite (Hn2 eq_refl)). lia. }
  rewrite Z.ltb_irrefl.
  assert (bv_count dstv1 = bv_count dstv) as Hcc2 by (rewrite (bw_count _ Hd1) (bw_count _ Hd) Hb1; done).
  assert (bv_count srcv1 = bv_count srcv) as Hcc1 by (rewrite (bw_count _ Hs1) (bw_count _ Hs) Hbs1; done).
  eapply wp_mono; [apply IH|].
  - done.
  - done.
  - unfold in_memory. by rewrite Hb1.
  - unfold in_memory. by rewrite Hbs1.
  - lia.
  - rewrite Ha2. rewrite -(take_drop (Z.to_nat len) (addrs dstv)) in Hnd. by apply list.NoDup_app in Hnd as (_ & _ & ?).
  - intros x. rewrite Ha1 Ha2. intros Hx1 Hx2. apply (Hdis x); by eapply elem_of_drop_sub.
  - destruct Hor; lia.
  - intros [[r dv] sv] w2 [Hr Hcp]. cbn in Hr. split; [cbn; lia|].
    assert (Z.to_nat len <= Z.to_nat (Z.min (rem dstv) (rem srcv)))%nat as Hle by lia.
    assert (Z.to_nat (Z.min (rem dstv) (rem srcv)) - Z.to_nat len = Z.to_nat (Z.min (rem dstv1) (rem srcv1)))%nat as He by lia.
    rewrite !(Hsplit _ Hle) He -Ha1 -Ha2. eapply copied_to_app; [exact Hcopy|exact Hcp|..].
    + rewrite Ha2 -He -Hsplit //. apply (sublist_NoDup _ (addrs dstv)); [done|apply sublist_take].
    + intros x Hx1 Hx2. apply (Hdis x); [apply (elem_of_drop_sub x (Z.to_nat len)); rewrite -Ha1; by eapply elem_of_take_sub|by eapply elem_of_take_sub].
Qed.

(** C7: between vectors of memory whose destination bytes do not overlap each
    other or the source, [fuse_buf_copy] copies as many bytes as fit: the first
    [n] destination bytes become the first [n] source bytes, in order and across
    buffer boundaries, and no other byte of memory changes. *)
Theorem fuse_buf_copy_memory dstv srcv flags w :
  bv_wf dstv -> bv_wf srcv -> in_memory dstv -> in_memory srcv ->
  NoDup (addrs dstv) -> (forall x, x ∈ addrs srcv -> x ∉ addrs dstv) ->
  let n := Z.min (rem dstv) (rem srcv) in
  exists dstv' srcv' w', fuse_buf_copy stack false dstv srcv flags w = Ok ((n, dstv', srcv'), w') /\
    (w_mem w' <$> take (Z.to_nat n) (addrs dstv)) = (w_mem w <$> take (Z.to_nat n) (addrs srcv)) /\
    forall x, x ∉ take (Z.to_nat n) (addrs dstv) -> w_mem w' x = w_mem w x.
Proof.
  intros Hd Hs Hmd Hms Hnd Hdis n.
  pose proof (bw_count _ Hd). pose proof (bw_count _ Hs). pose proof (bw_idx _ Hd). pose proof (bw_idx _ Hs).
  destruct (wp_Ok _ _ _ (fuse_buf_copy_loop_mem flags (S (length (bv_buf dstv) + length (bv_buf srcv)))
    dstv srcv 0 w Hd Hs Hmd Hms ltac:(lia) Hnd Hdis ltac:(lia))) as ([[r dv] sv] & w' & Hrun & Hr & ? & ?).
  cbn in Hr. subst r. exists dv, sv, w'. done.
Qed.
End copy.

(** ** Streams *)

(** A kernel whose descriptors are streams: what has been written to each, and
    what is still to be read from each. *)
Class Streams (K : Type) `{Syscalls K} := {
  sent : K -> Z -> list Z;
  input : K -> Z -> list Z;
}.

(** POSIX: a successful [write] appends the bytes it counts, a successful [read]
    takes the bytes it returns off the front; a failed call does neither. *)
Class StreamLaws (K : Type) `{Streams K} : Prop := {
  sent_write fd bs k : sent (sys_write fd bs k).2 fd =
    sent k fd ++ match (sys_write fd bs k).1 with SysErr _ => [] | SysRet n => take (Z.to_nat n) bs end;
  input_write fd fd' bs k : fd' <> fd -> input (sys_write fd bs k).2 fd' = input k fd';
  input_read fd len k : input k fd =
    match (sys_read fd len k).1 with SysErr _ => [] | SysRet bs => bs end ++ input (sys_read fd len k).2 fd;
  sent_read fd fd' len k : sent (sys_read fd len k).2 fd' = sent k fd';
}.

Section streams.
Context {K : Type} `{SyscallLaws K} `{!Streams K} `{!StreamLaws K}.
Context (stack : Z).

Lemma mem_read_split m a len k :
  0 <= k <= len -> mem_read m a len = mem_read m a k ++ mem_read m (a + k) (len - k).
Proof. intros Hk. rewrite !mem_read_range (range_split a len k) // fmap_app //. Qed.

Lemma mem_read_take m a len k : 0 <= k <= len -> take (Z.to_nat k) (mem_read m a len) = mem_read m a k.
Proof. intros Hk. rewrite (mem_read_split m a len k) // take_app_length' //. by rewrite length_mem_read. Qed.

Lemma fuse_buf_write_stream fuel dst src : has_flag (fb_flags dst) FUSE_BUF_FD_SEEK = false ->
  forall dst_off src_off len copied w,
  0 <= len <= Z.of_nat fuel -> 0 <= copied ->
  wp (fuse_buf_write_loop fuel dst dst_off src src_off len copied) (fun r w' =>
    transferred len copied r /\ w_mem w' = w_mem w /\
    (forall fd, fd <> fb_fd dst -> input (w_os w') fd = input (w_os w) fd) /\
    sent (w_os w') (fb_fd dst) = sent (w_os w) (fb_fd dst) ++ mem_read (w_mem w) (fb_mem src + src_off) (r - copied)) w.
Proof.
  intros Hseek. unfold transferred.
  assert (forall r (w : world K) a s fd, r <= 0 -> sent (w_os w) fd = s -> sent (w_os w) fd = s ++ mem_read (w_mem w) a r) as Hnil.
  { intros r w a s fd Hr <-. unfold mem_read. replace (Z.to_nat r) with 0%nat by lia. by rewrite app_nil_r. }
  induction fuel as [|fuel IH]; intros dst_off src_off len copied w Hlen Hc; cbn [fuse_buf_write_loop];
    destruct (Z.eqb_spec len 0); try lia; try (apply wp_ret; split_and!; [lia|done|done|apply Hnil; [lia|done]]).
  apply wp_bind, wp_get, wp_bind. rewrite Hseek. apply wp_sys.
  set (bs := mem_read _ _ _). pose proof (sys_write_le (fb_fd dst) bs (w_os w)) as Hl.
  pose proof (sent_write (fb_fd dst) bs (w_os w)) as Hsent.
  pose proof (fun fd => input_write (fb_fd dst) fd bs (w_os w)) as Hin.
  destruct (sys_write (fb_fd dst) bs (w_os w)) as [res k]. cbn [fst snd] in *.
  assert (length bs = Z.to_nat len) as Hlb by apply length_mem_read.
  destruct res as [e|res].
  - rewrite app_nil_r in Hsent. destruct (Z.eqb_spec copied 0); apply wp_ret; (split_and!; [lia|done|done|]).
    + apply (Hnil _ (mkWorld (w_mem w) k)); [lia|done].
    + apply (Hnil _ (mkWorld (w_mem w) k)); [lia|done].
  - rewrite mem_read_take in Hsent; [lia|].
    destruct (Z.eqb_spec res 0) as [->|].
    { apply wp_ret. split_and!; [lia|done|done|]. rewrite Z.sub_diag. done. }
    destruct (has_flag (fb_flags dst) FUSE_BUF_FD_RETRY); cbn [negb].
    2: { apply wp_ret. split_and!; [lia|done|done|]. cbn [w_os w_mem]. rewrite Hsent. do 2 f_equal. lia. }
    eapply wp_mono; [apply IH; lia|]. intros r w' (Hr & Hm & Hi & Hs). cbn [w_os w_mem] in *.
    split_and!; [lia|done|intros fd Hfd; rewrite Hi // Hin //|].
    rewrite Hs Hsent -app_assoc. f_equal. rewrite (mem_read_split _ _ (r - copied) res); [lia|].
    do 2 f_equal; lia.
Qed.

Lemma fuse_buf_read_stream fuel dst src : has_flag (fb_flags src) FUSE_BUF_FD_SEEK = false ->
  forall dst_off src_off len copied w,
  0 <= len <= Z.of_nat fuel -> 0 <= copied ->
  wp (fuse_buf_read_loop fuel dst dst_off src src_off len copied) (fun r w' =>
    transferred len copied r /\ (forall fd, sent (w_os w') fd = sent (w_os w) fd) /\
    (forall x, x < fb_mem dst + dst_off -> w_mem w' x = w_mem w x) /\
    input (w_os w) (fb_fd src) =
      mem_read (w_mem w') (fb_mem dst + dst_off) (r - copied) ++ input (w_os w') (fb_fd src)) w.
Proof.
  intros Hseek. unfold transferred.
  assert (forall r m a, r <= 0 -> mem_read m a r = []) as Hnil.
  { intros r m a Hr. unfold mem_read. by replace (Z.to_nat r) with 0%nat by lia. }
  induction fuel as [|fuel IH]; intros dst_off src_off len copied w Hlen Hc; cbn [fuse_buf_read_loop];
    destruct (Z.eqb_spec len 0); try lia; try (apply wp_ret; split_and!; [lia|done|done|rewrite Hnil //; lia]).
  apply wp_bind. rewrite Hseek. apply wp_sys_into.
  pose proof (sys_read_le (fb_fd src) len (w_os w) ltac:(lia)) as Hl.
  pose proof (input_read (fb_fd src) len (w_os w)) as Hin.
  pose proof (fun fd => sent_read (fb_fd src) fd len (w_os w)) as Hs.
  destruct (sys_read (fb_fd src) len (w_os w)) as [[e|bs] k]; cbn [fst snd] in *.
  - destruct (Z.eqb_spec copied 0); apply wp_ret; (split_and!; [lia|done|done|]); rewrite Hnil //; lia.
  - set (a := fb_mem dst + dst_off) in *.
    assert (forall x, x < a -> mem_write (w_mem w) a bs x = w_mem w x) as Hlow
      by (intros x Hx; apply mem_write_other; rewrite elem_of_range; lia).
    assert (mem_read (mem_write (w_mem w) a bs) a (Z.of_nat (length bs)) = bs) as Hbs
      by (rewrite mem_read_range; apply mem_write_range).
    destruct (Z.eqb_spec (Z.of_nat (length bs)) 0) as [Hz|].
    { apply wp_ret. destruct bs; [|done]. split_and!; [lia|done|done|]. rewrite Hnil; [lia|]. done. }
    destruct (has_flag (fb_flags src) FUSE_BUF_FD_RETRY); cbn [negb].
    2: { apply wp_ret. split_and!; [lia|done|done|]. cbn [w_os w_mem].
         replace (copied + Z.of_nat (length bs) - copied) with (Z.of_nat (length bs)) by lia. by rewrite Hbs. }
    eapply wp_mono; [apply IH; lia|]. intros r w' (Hr & Hs' & Hm & Hi). cbn [w_os w_mem] in *.
    split_and!; [lia|intros fd; rewrite Hs' //|intros x Hx; rewrite Hm; [lia|auto]|].
    rewrite Hin Hi (mem_read_split (w_mem w') _ (r - copied) (Z.of_nat (length bs))); [lia|]. rewrite -app_assoc.
    f_equal.
    + rewrite -{1}Hbs !mem_read_range. apply fmap_agree. intros x Hx%elem_of_range. symmetry. apply Hm. lia.
    + do 2 f_equal; lia.
Qed.

(** The transfer through the stack buffer. *)
Lemma fuse_buf_fd_to_fd_stream fuel dst src :
  has_flag (fb_flags dst) FUSE_BUF_FD_SEEK = false -> has_flag (fb_flags src) FUSE_BUF_FD_SEEK = false ->
  fb_fd src <> fb_fd dst -> forall dst_off src_off len copied w,
  0 <= len <= Z.of_nat fuel -> 0 <= copied ->
  wp (fuse_buf_fd_to_fd_loop stack fuel dst dst_off src src_off len copied) (fun r w' =>
    transferred len copied r /\
    sent (w_os w') (fb_fd dst) = sent (w_os w) (fb_fd dst) ++ take (Z.to_nat (r - copied)) (input (w_os w) (fb_fd src))) w.
Proof.
  intros Hd Hs Hne. unfold transferred.
  assert (forall r (w w' : world K) l, r <= 0 -> sent (w_os w') (fb_fd dst) = sent (w_os w) (fb_fd dst) ->
    sent (w_os w') (fb_fd dst) = sent (w_os w) (fb_fd dst) ++ take (Z.to_nat r) l) as Hnil.
  { intros r w w' l Hr ->. replace (Z.to_nat r) with 0%nat by lia. by rewrite take_0 app_nil_r. }
  induction fuel as [|fuel IH]; intros dst_off src_off len copied w Hlen Hc; cbn [fuse_buf_fd_to_fd_loop];
    destruct (Z.eqb_spec len 0); try lia; try (apply wp_ret; split; [lia|apply Hnil; [lia|done]]).
  set (tl := min_size _ _). assert (1 <= tl <= len) as Hm
    by (unfold tl; rewrite min_size_min; cbn [fb_size tmp_buf]; lia).
  apply wp_bind. eapply wp_mono; [apply (fuse_buf_read_stream _ _ _ Hs); lia|].
  unfold transferred. intros r1 w1 (Hr1 & Hs1 & _ & Hi1). cbn beta.
  destruct (Z.ltb_spec r1 0); [destruct (Z.eqb_spec copied 0); apply wp_ret; (split; [lia|apply Hnil; [lia|auto]])|].
  destruct (Z.eqb_spec r1 0); [apply wp_ret; (split; [lia|apply Hnil; [lia|auto]])|].
  apply wp_bind. eapply wp_mono; [apply (fuse_buf_write_stream _ _ _ Hd); lia|].
  unfold transferred. intros r2 w2 (Hr2 & Hm2 & Hi2 & Hs2). cbn beta. rewrite Hs1 in Hs2.
  assert (r2 <= 0 -> sent (w_os w2) (fb_fd dst) = sent (w_os w) (fb_fd dst)) as Hz.
  { intros Hle. rewrite Hs2. unfold mem_read. replace (Z.to_nat (r2 - 0)) with 0%nat by lia. by rewrite app_nil_r. }
  destruct (Z.ltb_spec r2 0); [destruct (Z.eqb_spec copied 0); apply wp_ret; (split; [lia|apply Hnil; [lia|apply Hz; lia]])|].
  destruct (Z.eqb_spec r2 0); [apply wp_ret; (split; [lia|apply Hnil; [lia|apply Hz; lia]])|].
  cbn [fb_mem tmp_buf] in *. rewrite !Z.sub_0_r in Hs2, Hi1.
  assert (sent (w_os w2) (fb_fd dst) = sent (w_os w) (fb_fd dst) ++ take (Z.to_nat r2) (input (w_os w) (fb_fd src))) as Hs3.
  { rewrite Hs2. f_equal. rewrite Hi1 take_app_le ?mem_read_take //; [rewrite length_mem_read|]; lia. }
  destruct (Z.ltb_spec r2 tl).
  { apply wp_ret. split; [lia|]. rewrite Hs3. do 3 f_equal. lia. }
  assert (r1 = tl /\ r2 = tl) as [-> ->] by lia.
  eapply wp_mono; [apply IH; lia|]. intros r w3 [Hr Hs4]. split; [lia|].
  rewrite Hs4 Hs3 -app_assoc. f_equal. rewrite Hi2 // Hi1.
  assert (length (mem_read (w_mem w1) (stack + 0) tl) = Z.to_nat tl) as Hl by apply length_mem_read.
  rewrite take_app_length' //. rewrite (take_app_ge _ _ (Z.to_nat (r - copied))); [lia|]. rewrite Hl. do 2 f_equal. lia.
Qed.
End streams.

(** The bytes a source buffer offers from [off] on. *)
Definition source_data {K} `{Streams K} (w : world K) (src : fuse_buf) (off len : Z) : list Z :=
  if has_flag (fb_flags src) FUSE_BUF_IS_FD then input (w_os w) (fb_fd src)
  else mem_read (w_mem w) (fb_mem src + off) len.

(** copying to a stream descriptor, from memory or (without splice) from
    another stream: the call returns, and the destination has received exactly
    the first [r] bytes of the source, [r] being the count reported, and nothing
    when an error is reported, however short the single reads and writes are. *)
Theorem fuse_buf_copy_one_stream {K} `{SyscallLaws K} `{!Streams K} `{!StreamLaws K}
    stack dst dst_off src src_off len flags (w : world K) :
  has_flag (fb_flags dst) FUSE_BUF_IS_FD = true -> has_flag (fb_flags dst) FUSE_BUF_FD_SEEK = false ->
  has_flag (fb_flags src) FUSE_BUF_FD_SEEK = false -> has_flag flags FUSE_BUF_NO_SPLICE = true ->
  fb_fd src <> fb_fd dst -> 0 <= len ->
  exists r w', fuse_buf_copy_one stack dst dst_off src src_off len flags w = Ok (r, w') /\ r <= len /\
    sent (w_os w') (fb_fd dst) =
      sent (w_os w) (fb_fd dst) ++ take (Z.to_nat r) (source_data w src src_off len).
Proof.
  intros Hd Hds Hss Hns Hne Hlen. apply wp_Ok. unfold fuse_buf_copy_one, source_data. rewrite Hd Hns andb_false_r.
  destruct (has_flag (fb_flags src) FUSE_BUF_IS_FD); cbn [negb].
  - eapply wp_mono; [apply (fuse_buf_fd_to_fd_stream stack _ _ _ Hds Hss Hne); lia|].
    unfold transferred. intros r w' [Hr Hs]. rewrite Z.sub_0_r in Hs. split; [lia|done].
  - eapply wp_mono; [apply (fuse_buf_write_stream _ _ _ Hds); lia|].
    unfold transferred. intros r w' (Hr & _ & _ & Hs). rewrite Z.sub_0_r in Hs. split; [lia|]. rewrite Hs. f_equal.
    destruct (decide (0 <= r)); [rewrite mem_read_take //; lia|].
    unfold mem_read. by replace (Z.to_nat r) with 0%nat by lia.
Qed.

(** ** Witnesses *)

(** Two streams: descriptor 0 is read, every other descriptor is one sink that
    takes at most three bytes at a time; [splice] is not supported. *)
Record pipes := mkPipes { p_in : list Z; p_out : list Z }.

#[local] Instance pipes_sys : Syscalls pipes := {|
  sys_write fd bs k := (SysRet (Z.of_nat (length (take 3 bs))), mkPipes (p_in k) (p_out k ++ take 3 bs));
  sys_pwrite fd bs pos k := (SysErr EBADF, k);
  sys_read fd len k := (SysRet (take (Z.to_nat len) (p_in k)), mkPipes (drop (Z.to_nat len) (p_in k)) (p_out k));
  sys_pread fd len pos k := (SysErr EBADF, k);
  sys_splice fd_in off_in fd_out off_out len flags k := (SysErr EINVAL, k);
|}.

#[local] Instance pipes_laws : SyscallLaws pipes.
Proof.
  split; intros; cbn; try (unfold EBADF, EINVAL; lia); rewrite ?length_take; lia.
Qed.

#[local] Instance pipes_streams : Streams pipes := {| sent k _ := p_out k; input k _ := p_in k |}.

#[local] Instance pipes_stream_laws : StreamLaws pipes.
Proof.
  split; intros; cbn -[take drop]; try done.
  - by rewrite Nat2Z.id length_take -take_take firstn_all.
  - by rewrite take_drop.
Qed.

Definition sample_world : world pipes := mkWorld (fun a => a) (mkPipes [7; 8; 9; 10] []).
Definition fd_buf (fd size : Z) : fuse_buf := mkFbuf size (FUSE_BUF_IS_FD + FUSE_BUF_FD_RETRY) 0 fd 0 0.

Lemma fuse_buf_copy_one_stream_witness : exists r w',
  fuse_buf_copy_one 1000 (fd_buf 1 8) 0 (fd_buf 0 8) 0 8 FUSE_BUF_NO_SPLICE sample_world = Ok (r, w') /\ r <= 8 /\
  sent (w_os w') 1 = sent (w_os sample_world) 1 ++ take (Z.to_nat r) (source_data sample_world (fd_buf 0 8) 0 8).
Proof.
  apply (fuse_buf_copy_one_stream 1000 (fd_buf 1 8) 0 (fd_buf 0 8) 0 8 FUSE_BUF_NO_SPLICE sample_world);
    try reflexivity; discriminate.
Defined.

Definition sample_dst : fuse_bufvec := mkBufvec 2 0 1 [mkFbuf 3 0 100 0 0 0; mkFbuf 4 0 200 0 0 0].
Definition sample_src : fuse_bufvec := mkBufvec 1 0 0 [mkFbuf 5 0 300 0 0 0].

Lemma sample_dst_wf : bv_wf sample_dst.
Proof.
  split; cbn; try lia.
  - intros b Hb. rewrite !elem_of_cons elem_of_nil in Hb. destruct Hb as [->|[->|[]]]; cbn; unfold OFFSET_MAX; lia.
  - intros b [= <-]. cbn. lia.
Qed.

Lemma sample_src_wf : bv_wf sample_src.
Proof.
  split; cbn; try lia.
  - intros b Hb. rewrite !elem_of_cons elem_of_nil in Hb. destruct Hb as [->|[]]; cbn; unfold OFFSET_MAX; lia.
  - intros b [= <-]. cbn. lia.
Qed.

Lemma fuse_buf_copy_safe_witness : exists r dstv' srcv' w',
  fuse_buf_copy 1000 false sample_dst sample_src 0 sample_world = Ok ((r, dstv', srcv'), w') /\
  bv_wf dstv' /\ bv_wf srcv' /\
  (r < 0 \/ 0 <= r <= Z.min (rem sample_dst) (rem sample_src) /\ rem srcv' = rem sample_src - r).
Proof. apply (fuse_buf_copy_safe 1000 sample_dst sample_src 0 sample_world); [apply sample_dst_wf|apply sample_src_wf]. Defined.

Lemma fuse_buf_copy_memory_witness : exists dstv' srcv' w',
  fuse_buf_copy 1000 false sample_dst sample_src 0 sample_world = Ok ((5, dstv', srcv'), w') /\
  (w_mem w' <$> [101; 102; 200; 201; 202]) = [300; 301; 302; 303; 304].
Proof.
  destruct (fuse_buf_copy_memory 1000 sample_dst sample_src 0 sample_world) as (dv & sv & w' & Hrun & Hcp & _).
  - apply sample_dst_wf.
  - apply sample_src_wf.
  - intros b Hb. cbn in Hb. rewrite !elem_of_cons elem_of_nil in Hb. destruct Hb as [->|[->|[]]]; reflexivity.
  - intros b Hb. cbn in Hb. rewrite !elem_of_cons elem_of_nil in Hb. destruct Hb as [->|[]]; reflexivity.
  - apply (bool_decide_unpack _). vm_compute. exact I.
  - intros x Hx Hy. change (x ∈ [300; 301; 302; 303; 304]) in Hx.
    change (x ∈ [101; 102; 200; 201; 202; 203]) in Hy. rewrite !elem_of_cons elem_of_nil in Hx, Hy. lia.
  - exists dv, sv, w'. split; [exact Hrun|exact Hcp].
Defined.
