(* ===== verification/Wire.v ===== *)
(** * What goes over the wire ([lib/fuse_lowlevel.c], [include/fuse_kernel.h])

    The structures libfuse writes into replies: attributes, entries and directory
    entries, at their C widths and as the little-endian bytes of a 64-bit Linux
    machine.  The theorems read the bytes back the way the kernel does: a buffer
    of directory entries gives back the entries, and every entry is 8-byte
    aligned. *)
From Stdlib Require Import SpecFloat.
From S2P Require Import Prelude.

(** ** Attributes *)

(** [struct stat]: the fields libfuse reads and writes; times are seconds and
    nanoseconds. *)
Record stat := mkStat {
  sb_ino : Z;
  sb_mode : Z;
  sb_nlink : Z;
  sb_uid : Z;
  sb_gid : Z;
  sb_rdev : Z;
  sb_size : Z;
  sb_blksize : Z;
  sb_blocks : Z;
  sb_atime : Z;
  sb_mtime : Z;
  sb_ctime : Z;
  sb_atimensec : Z;
  sb_mtimensec : Z;
  sb_ctimensec : Z;
}.

(** [memset(&st, 0, sizeof(st))]. *)
Definition stat_zero : stat := mkStat 0 0 0 0 0 0 0 0 0 0 0 0 0 0 0.

Definition set_sb_ino (s : stat) (v : Z) : stat :=
  mkStat v (sb_mode s) (sb_nlink s) (sb_uid s) (sb_gid s) (sb_rdev s) (sb_size s) (sb_blksize s) (sb_blocks s)
    (sb_atime s) (sb_mtime s) (sb_ctime s) (sb_atimensec s) (sb_mtimensec s) (sb_ctimensec s).
Definition set_sb_mode (s : stat) (v : Z) : stat :=
  mkStat (sb_ino s) v (sb_nlink s) (sb_uid s) (sb_gid s) (sb_rdev s) (sb_size s) (sb_blksize s) (sb_blocks s)
    (sb_atime s) (sb_mtime s) (sb_ctime s) (sb_atimensec s) (sb_mtimensec s) (sb_ctimensec s).
Definition set_sb_uid (s : stat) (v : Z) : stat :=
  mkStat (sb_ino s) (sb_mode s) (sb_nlink s) v (sb_gid s) (sb_rdev s) (sb_size s) (sb_blksize s) (sb_blocks s)
    (sb_atime s) (sb_mtime s) (sb_ctime s) (sb_atimensec s) (sb_mtimensec s) (sb_ctimensec s).
Definition set_sb_gid (s : stat) (v : Z) : stat :=
  mkStat (sb_ino s) (sb_mode s) (sb_nlink s) (sb_uid s) v (sb_rdev s) (sb_size s) (sb_blksize s) (sb_blocks s)
    (sb_atime s) (sb_mtime s) (sb_ctime s) (sb_atimensec s) (sb_mtimensec s) (sb_ctimensec s).

Definition S_IFMT : Z := 61440.    (** [0170000] *)
Definition S_IFDIR : Z := 16384.   (** [0040000] *)
Definition S_IFREG : Z := 32768.   (** [0100000] *)

(** [struct fuse_attr]. *)
Record fuse_attr := mkAttr {
  a_ino : Z;
  a_size : Z;
  a_blocks : Z;
  a_atime : Z;
  a_mtime : Z;
  a_ctime : Z;
  a_atimensec : Z;
  a_mtimensec : Z;
  a_ctimensec : Z;
  a_mode : Z;
  a_nlink : Z;
  a_uid : Z;
  a_gid : Z;
  a_rdev : Z;
  a_blksize : Z;
  a_flags : Z;
}.

(** Assignment truncates to the field; [flags] is left as the caller zeroed it. *)
Definition convert_stat (stbuf : stat) : fuse_attr :=
  mkAttr (u64 (sb_ino stbuf)) (u64 (sb_size stbuf)) (u64 (sb_blocks stbuf))
         (u64 (sb_atime stbuf)) (u64 (sb_mtime stbuf)) (u64 (sb_ctime stbuf))
         (u32 (sb_atimensec stbuf)) (u32 (sb_mtimensec stbuf)) (u32 (sb_ctimensec stbuf))
         (u32 (sb_mode stbuf)) (u32 (sb_nlink stbuf)) (u32 (sb_uid stbuf)) (u32 (sb_gid stbuf))
         (u32 (sb_rdev stbuf)) (u32 (sb_blksize stbuf)) 0.

(** [struct fuse_setattr_in], the fields [convert_attr] uses. *)
Record fuse_setattr_in := mkSetattr {
  sa_valid : Z;
  sa_fh : Z;
  sa_size : Z;
  sa_atime : Z;
  sa_mtime : Z;
  sa_ctime : Z;
  sa_atimensec : Z;
  sa_mtimensec : Z;
  sa_ctimensec : Z;
  sa_mode : Z;
  sa_uid : Z;
  sa_gid : Z;
}.

(** [convert_attr] into a zeroed [struct stat]; [off_t] and [time_t] are signed. *)
Definition convert_attr (attr : fuse_setattr_in) : stat :=
  mkStat 0 (sa_mode attr) 0 (sa_uid attr) (sa_gid attr) 0 (swrap 64 (sa_size attr)) 0 0
         (swrap 64 (sa_atime attr)) (swrap 64 (sa_mtime attr)) (swrap 64 (sa_ctime attr))
         (sa_atimensec attr) (sa_mtimensec attr) (sa_ctimensec attr).

Definition encode_attr (a : fuse_attr) : list Z :=
  le 8 (a_ino a) ++ le 8 (a_size a) ++ le 8 (a_blocks a) ++
  le 8 (a_atime a) ++ le 8 (a_mtime a) ++ le 8 (a_ctime a) ++
  le 4 (a_atimensec a) ++ le 4 (a_mtimensec a) ++ le 4 (a_ctimensec a) ++
  le 4 (a_mode a) ++ le 4 (a_nlink a) ++ le 4 (a_uid a) ++ le 4 (a_gid a) ++
  le 4 (a_rdev a) ++ le 4 (a_blksize a) ++ le 4 (a_flags a).

(** ** Timeouts *)

(** A C [double]. *)
Definition double : Type := spec_float.
Definition f64_of_Z (z : Z) : double := binary_normalize 53 1024 z 0 false.

(** [(unsigned long) t] for [0 <= t]: truncation. *)
Definition f64_trunc (t : double) : Z :=
  match t with
  | S754_finite _ m e => if 0 <=? e then Z.pos m * 2 ^ e else Z.pos m / 2 ^ (- e)
  | _ => 0
  end.

Definition ULONG_MAX : Z := 18446744073709551615.

(** [0.999999999] and [1.0e9], the doubles nearest to them. *)
Definition f64_almost_one : double := S754_finite false 9007199245733793 (-53).
Definition f64_1e9 : double := f64_of_Z 1000000000.

Definition calc_timeout_sec (t : double) : Z :=
  if SFltb (f64_of_Z ULONG_MAX) t then ULONG_MAX
  else if SFltb t (f64_of_Z 0) then 0
  else f64_trunc t.

Definition calc_timeout_nsec (t : double) : Z :=
  let f := SFsub 53 1024 t (f64_of_Z (calc_timeout_sec t)) in
  if SFltb f (f64_of_Z 0) then 0
  else if SFleb f64_almost_one f then 999999999
  else f64_trunc (SFmul 53 1024 f f64_1e9).

(** ** Entries *)

(** [struct fuse_entry_param]. *)
Record fuse_entry_param := mkEntry {
  e_ino : Z;
  e_generation : Z;
  e_attr : stat;
  e_attr_timeout : double;
  e_entry_timeout : double;
}.

Definition entry_zero : fuse_entry_param := mkEntry 0 0 stat_zero (f64_of_Z 0) (f64_of_Z 0).

(** [struct fuse_entry_out]. *)
Record fuse_entry_out := mkEntryOut {
  eo_nodeid : Z;
  eo_generation : Z;
  eo_entry_valid : Z;
  eo_attr_valid : Z;
  eo_entry_valid_nsec : Z;
  eo_attr_valid_nsec : Z;
  eo_attr : fuse_attr;
}.

Definition fill_entry (e : fuse_entry_param) : fuse_entry_out :=
  mkEntryOut (e_ino e) (e_generation e)
             (calc_timeout_sec (e_entry_timeout e)) (calc_timeout_sec (e_attr_timeout e))
             (calc_timeout_nsec (e_entry_timeout e)) (calc_timeout_nsec (e_attr_timeout e))
             (convert_stat (e_attr e)).

Definition encode_entry_out (o : fuse_entry_out) : list Z :=
  le 8 (eo_nodeid o) ++ le 8 (eo_generation o) ++ le 8 (eo_entry_valid o) ++ le 8 (eo_attr_valid o) ++
  le 4 (eo_entry_valid_nsec o) ++ le 4 (eo_attr_valid_nsec o) ++ encode_attr (eo_attr o).

(** [struct fuse_file_info], the fields the library itself uses. *)
Record fuse_file_info := mkFi {
  fi_flags : Z;
  fi_writepage : bool;
  fi_direct_io : bool;
  fi_keep_cache : bool;
  fi_flush : bool;
  fi_nonseekable : bool;
  fi_flock_release : bool;
  fi_cache_readdir : bool;
  fi_noflush : bool;
  fi_parallel_direct_writes : bool;
  fi_fh : Z;
  fi_lock_owner : Z;
  fi_poll_events : Z;
  fi_backing_id : Z;
}.

Definition FOPEN_DIRECT_IO : Z := 1.
Definition FOPEN_KEEP_CACHE : Z := 2.
Definition FOPEN_NONSEEKABLE : Z := 4.
Definition FOPEN_CACHE_DIR : Z := 8.
Definition FOPEN_NOFLUSH : Z := 32.
Definition FOPEN_PARALLEL_DIRECT_WRITES : Z := 64.
Definition FOPEN_PASSTHROUGH : Z := 128.

(** [struct fuse_open_out]. *)
Record fuse_open_out := mkOpenOut { oo_fh : Z; oo_open_flags : Z; oo_backing_id : Z }.

Definition or_if (b : bool) (flag x : Z) : Z := if b then Z.lor x flag else x.

(** [fill_open] into a zeroed [struct fuse_open_out]. *)
Definition fill_open (f : fuse_file_info) : fuse_open_out :=
  let flags := or_if (0 <? fi_backing_id f) FOPEN_PASSTHROUGH 0 in
  let flags := or_if (fi_direct_io f) FOPEN_DIRECT_IO flags in
  let flags := or_if (fi_keep_cache f) FOPEN_KEEP_CACHE flags in
  let flags := or_if (fi_cache_readdir f) FOPEN_CACHE_DIR flags in
  let flags := or_if (fi_nonseekable f) FOPEN_NONSEEKABLE flags in
  let flags := or_if (fi_noflush f) FOPEN_NOFLUSH flags in
  let flags := or_if (fi_parallel_direct_writes f) FOPEN_PARALLEL_DIRECT_WRITES flags in
  mkOpenOut (fi_fh f) flags (if 0 <? fi_backing_id f then fi_backing_id f else 0).

Definition encode_open_out (o : fuse_open_out) : list Z :=
  le 8 (oo_fh o) ++ le 4 (oo_open_flags o) ++ le 4 (oo_backing_id o).

(** [struct statvfs] and [struct fuse_kstatfs]. *)
Record statvfs := mkStatvfs {
  f_bsize : Z; f_frsize : Z; f_blocks : Z; f_bfree : Z; f_bavail : Z; f_files : Z; f_ffree : Z; f_namemax : Z;
}.
Record fuse_kstatfs := mkKstatfs {
  k_blocks : Z; k_bfree : Z; k_bavail : Z; k_files : Z; k_ffree : Z; k_bsize : Z; k_namelen : Z; k_frsize : Z;
}.

Definition convert_statfs (stbuf : statvfs) : fuse_kstatfs :=
  mkKstatfs (f_blocks stbuf) (f_bfree stbuf) (f_bavail stbuf) (f_files stbuf) (f_ffree stbuf)
            (u32 (f_bsize stbuf)) (u32 (f_namemax stbuf)) (u32 (f_frsize stbuf)).

Definition encode_kstatfs (k : fuse_kstatfs) : list Z :=
  le 8 (k_blocks k) ++ le 8 (k_bfree k) ++ le 8 (k_bavail k) ++ le 8 (k_files k) ++ le 8 (k_ffree k) ++
  le 4 (k_bsize k) ++ le 4 (k_namelen k) ++ le 4 (k_frsize k) ++ le 4 0 ++ (replicate 6 0 ≫= le 4).

(** ** Directory entries *)

Definition FUSE_NAME_OFFSET : Z := 24.
Definition FUSE_NAME_OFFSET_DIRENTPLUS : Z := 152.

Definition FUSE_REC_ALIGN (x : Z) : Z := Z.land (x + 8 - 1) (Z.lnot (8 - 1)).
Definition FUSE_DIRENT_ALIGN : Z -> Z := FUSE_REC_ALIGN.

(** The bytes of a [struct fuse_dirent] with its name and padding. *)
Definition encode_dirent (ino off type : Z) (name : cstring) (pad : Z) : list Z :=
  le 8 ino ++ le 8 off ++ le 4 (strlen name) ++ le 4 type ++ bytes_of name ++ replicate (Z.to_nat pad) 0.

(** The length of the entry, and the bytes stored at [buf] (none when [buf] is
    [NULL] or too small). *)
Definition fuse_add_direntry (buf : bool) (bufsize : Z) (name : cstring) (stbuf : stat) (off : Z)
  : Z * list Z :=
  let namelen := strlen name in
  let entlen := FUSE_NAME_OFFSET + namelen in
  let entlen_padded := FUSE_DIRENT_ALIGN entlen in
  if negb buf || (bufsize <? entlen_padded) then (entlen_padded, [])
  else (entlen_padded,
        encode_dirent (sb_ino stbuf) off (Z.shiftr (Z.land (sb_mode stbuf) S_IFMT) 12) name
                      (entlen_padded - entlen)).

Definition fuse_add_direntry_plus (buf : bool) (bufsize : Z) (name : cstring) (e : fuse_entry_param) (off : Z)
  : Z * list Z :=
  let namelen := strlen name in
  let entlen := FUSE_NAME_OFFSET_DIRENTPLUS + namelen in
  let entlen_padded := FUSE_DIRENT_ALIGN entlen in
  if negb buf || (bufsize <? entlen_padded) then (entlen_padded, [])
  else (entlen_padded,
        encode_entry_out (fill_entry e) ++
        encode_dirent (sb_ino (e_attr e)) off (Z.shiftr (Z.land (sb_mode (e_attr e)) S_IFMT) 12) name
                      (entlen_padded - entlen)).

(** ** Reading the entries back *)

(** A directory entry as the kernel reads it. *)
Record dirent := mkDirent { d_ino : Z; d_off : Z; d_type : Z; d_name : cstring }.

(** Little-endian field of [n] bytes at [at_]. *)
Definition field (bs : list Z) (at_ n : nat) : Z := unle (take n (drop at_ bs)).

(** The entries of a buffer of [struct fuse_dirent]s: each takes
    [FUSE_DIRENT_SIZE] bytes; a cut-off entry is not read. *)
Fixpoint parse_dirents (fuel : nat) (bs : list Z) : list dirent :=
  match fuel with
  | O => []
  | S fuel =>
    if Z.of_nat (length bs) <? FUSE_NAME_OFFSET then []
    else
      let namelen := field bs 16 4 in
      let reclen := FUSE_DIRENT_ALIGN (FUSE_NAME_OFFSET + namelen) in
      if Z.of_nat (length bs) <? reclen then []
      else mkDirent (field bs 0 8) (field bs 8 8) (field bs 20 4)
             (of_bytes (take (Z.to_nat namelen) (drop 24 bs)))
           :: parse_dirents fuel (drop (Z.to_nat reclen) bs)
  end.

(** ** Lengths and alignment *)

Lemma FUSE_REC_ALIGN_eq x : FUSE_REC_ALIGN x = 8 * ((x + 7) / 8).
Proof.
  unfold FUSE_REC_ALIGN. replace (x + 8 - 1) with (x + 7) by lia. rewrite -Z.ldiff_land.
  change (8 - 1) with (Z.ones 3). rewrite Z.ldiff_ones_r; [lia|]. rewrite Z.shiftl_mul_pow2; [lia|]. rewrite Z.shiftr_div_pow2; [lia|].
  change (2 ^ 3) with 8. lia.
Qed.

Lemma FUSE_REC_ALIGN_bounds x : x <= FUSE_REC_ALIGN x < x + 8.
Proof. rewrite FUSE_REC_ALIGN_eq. pose proof (Z.div_mod (x + 7) 8). pose proof (Z.mod_pos_bound (x + 7) 8). lia. Qed.

Lemma length_bytes_of s : length (bytes_of s) = length s.
Proof. apply length_fmap. Qed.

Lemma length_encode_dirent ino off type name pad :
  0 <= pad -> Z.of_nat (length (encode_dirent ino off type name pad)) = FUSE_NAME_OFFSET + strlen name + pad.
Proof.
  intros. unfold encode_dirent. rewrite !length_app !length_le length_bytes_of length_replicate.
  unfold strlen, FUSE_NAME_OFFSET. lia.
Qed.

Lemma length_encode_attr a : length (encode_attr a) = 88%nat.
Proof. unfold encode_attr. by rewrite !length_app !length_le. Qed.

Lemma length_encode_entry_out o : length (encode_entry_out o) = 128%nat.
Proof. unfold encode_entry_out. by rewrite !length_app !length_le. Qed.

(** What [fuse_add_direntry] stores is as long as it says. *)
Lemma fuse_add_direntry_length buf bufsize name st off :
  let '(n, bs) := fuse_add_direntry buf bufsize name st off in
  n = FUSE_DIRENT_ALIGN (FUSE_NAME_OFFSET + strlen name) /\
  (if buf && (n <=? bufsize) then Z.of_nat (length bs) = n else bs = []).
Proof.
  unfold fuse_add_direntry. pose proof (FUSE_REC_ALIGN_bounds (FUSE_NAME_OFFSET + strlen name)).
  unfold FUSE_DIRENT_ALIGN. destruct buf; cbn [negb orb andb]; [|done].
  destruct (Z.ltb_spec bufsize (FUSE_REC_ALIGN (FUSE_NAME_OFFSET + strlen name))) as [Hlt|Hge]; (split; [done|]).
  - by rewrite (proj2 (Z.leb_gt _ _)).
  - rewrite (proj2 (Z.leb_le _ _)) // length_encode_dirent; lia.
Qed.

Lemma fuse_add_direntry_plus_length buf bufsize name e off :
  let '(n, bs) := fuse_add_direntry_plus buf bufsize name e off in
  n = FUSE_DIRENT_ALIGN (FUSE_NAME_OFFSET_DIRENTPLUS + strlen name) /\
  (if buf && (n <=? bufsize) then Z.of_nat (length bs) = n else bs = []).
Proof.
  unfold fuse_add_direntry_plus. pose proof (FUSE_REC_ALIGN_bounds (FUSE_NAME_OFFSET_DIRENTPLUS + strlen name)).
  unfold FUSE_DIRENT_ALIGN. destruct buf; cbn [negb orb andb]; [|done].
  destruct (Z.ltb_spec bufsize (FUSE_REC_ALIGN (FUSE_NAME_OFFSET_DIRENTPLUS + strlen name))) as [Hlt|Hge]; (split; [done|]).
  - by rewrite (proj2 (Z.leb_gt _ _)).
  - rewrite (proj2 (Z.leb_le _ _)) // length_app Nat2Z.inj_add length_encode_dirent; [lia|].
    rewrite length_encode_entry_out. unfold FUSE_NAME_OFFSET_DIRENTPLUS, FUSE_NAME_OFFSET in *. lia.
Qed.

(** ** Round trip *)

(** The field that [l] bytes precede. *)
Lemma field_at bs l n v rest :
  bs = l ++ le n v ++ rest -> field bs (length l) n = wrap (8 * Z.of_nat n) v.
Proof.
  intros ->. unfold field, wrap. rewrite drop_app_length take_app_length' ?length_le // unle_le.
  by rewrite Z.pow_mul_r; [lia|lia|].
Qed.

(** The entry in front of a buffer is what is read first. *)
Lemma parse_encode fuel ino off type name rest :
  strlen name < 2 ^ 32 -> 
  let entlen := FUSE_NAME_OFFSET + strlen name in
  parse_dirents (S fuel) (encode_dirent ino off type name (FUSE_DIRENT_ALIGN entlen - entlen) ++ rest) =
  mkDirent (u64 ino) (u64 off) (u32 type) name :: parse_dirents fuel rest.
Proof.
  intros Hname entlen. pose proof (FUSE_REC_ALIGN_bounds entlen) as Hal.
  assert (0 <= strlen name) as Hpos by (unfold strlen; lia).
  set (e := encode_dirent _ _ _ _ _).
  assert (Z.of_nat (length e) = FUSE_DIRENT_ALIGN entlen) as Hle.
  { unfold e. rewrite length_encode_dirent; unfold FUSE_DIRENT_ALIGN in *; lia. }
  set (bs := e ++ rest).
  assert (bs = le 8 ino ++ le 8 off ++ le 4 (strlen name) ++ le 4 type ++ bytes_of name ++
    replicate (Z.to_nat (FUSE_DIRENT_ALIGN entlen - entlen)) 0 ++ rest) as Hbs.
  { unfold bs, e, encode_dirent. by rewrite -!app_assoc. }
  cbn [parse_dirents]. fold bs.
  assert (field bs 0 8 = u64 ino) as -> by apply (field_at bs [] 8 ino _ Hbs).
  assert (field bs 8 8 = u64 off) as -> by apply (field_at bs (le 8 ino) 8 off _ Hbs).
  assert (field bs 16 4 = strlen name) as Hnl.
  { rewrite -(wrap_small 32 (strlen name)); [lia|]. eapply (field_at bs (le 8 ino ++ le 8 off) 4 (strlen name)).
    by rewrite Hbs -app_assoc. }
  assert (field bs 20 4 = u32 type) as ->.
  { eapply (field_at bs (le 8 ino ++ le 8 off ++ le 4 (strlen name)) 4 type). by rewrite Hbs -!app_assoc. }
  assert (take (Z.to_nat (strlen name)) (drop 24 bs) = bytes_of name) as Hn.
  { rewrite Hbs. change 24%nat with (length (le 8 ino ++ le 8 off ++ le 4 (strlen name) ++ le 4 type)).
    replace (le 8 ino ++ le 8 off ++ le 4 (strlen name) ++ le 4 type ++ bytes_of name ++
      replicate (Z.to_nat (FUSE_DIRENT_ALIGN entlen - entlen)) 0 ++ rest)
      with ((le 8 ino ++ le 8 off ++ le 4 (strlen name) ++ le 4 type) ++ bytes_of name ++
      replicate (Z.to_nat (FUSE_DIRENT_ALIGN entlen - entlen)) 0 ++ rest) by by rewrite -!app_assoc.
    rewrite drop_app_length take_app_length' // length_bytes_of. unfold strlen. lia. }
  rewrite Hnl Hn of_bytes_of -/entlen -Hle Nat2Z.id.
  rewrite (proj2 (Z.ltb_ge (Z.of_nat (length bs)) FUSE_NAME_OFFSET));
    [unfold bs; rewrite length_app; unfold FUSE_DIRENT_ALIGN in *; unfold entlen in *; lia|].
  rewrite (proj2 (Z.ltb_ge (Z.of_nat (length bs)) (Z.of_nat (length e)))); [unfold bs; rewrite length_app; lia|].
  unfold bs. by rewrite drop_app_length.
Qed.

(** One entry as the file system gives it. *)
Definition entry_bytes (x : cstring * stat * Z) : list Z :=
  let '(name, st, off) := x in (fuse_add_direntry true SIZE_MAX name st off).2.

(** What the kernel sees of it. *)
Definition entry_view (x : cstring * stat * Z) : dirent :=
  let '(name, st, off) := x in
  mkDirent (u64 (sb_ino st)) (u64 off) (Z.shiftr (Z.land (sb_mode st) S_IFMT) 12) name.

Lemma dirent_type_small m : 0 <= Z.shiftr (Z.land m S_IFMT) 12 < 2 ^ 32.
Proof.
  rewrite Z.shiftr_land. change (Z.shiftr S_IFMT 12) with (Z.ones 4). rewrite Z.land_ones; [lia|].
  pose proof (Z.mod_pos_bound (Z.shiftr m 12) (2 ^ 4)). lia.
Qed.

Lemma entry_bytes_eq name st off :
  strlen name < 2 ^ 32 ->
  let entlen := FUSE_NAME_OFFSET + strlen name in
  entry_bytes (name, st, off) =
    encode_dirent (sb_ino st) off (Z.shiftr (Z.land (sb_mode st) S_IFMT) 12) name (FUSE_DIRENT_ALIGN entlen - entlen).
Proof.
  intros Hn entlen. unfold entry_bytes, fuse_add_direntry. cbn [negb orb].
  rewrite (proj2 (Z.ltb_ge _ _)) //. unfold FUSE_DIRENT_ALIGN.
  pose proof (FUSE_REC_ALIGN_bounds (FUSE_NAME_OFFSET + strlen name)). unfold FUSE_NAME_OFFSET, SIZE_MAX in *. lia.
Qed.

Lemma parse_entry fuel x rest :
  strlen x.1.1 < 2 ^ 32 ->
  parse_dirents (S fuel) (entry_bytes x ++ rest) = entry_view x :: parse_dirents fuel rest.
Proof.
  destruct x as [[name st] off]. intros Hn. cbn [fst] in Hn. rewrite entry_bytes_eq // parse_encode //.
  unfold entry_view. by rewrite (wrap_small 32); [apply dirent_type_small|].
Qed.

Lemma parse_dirents_nil fuel : parse_dirents fuel [] = [].
Proof. by destruct fuel. Qed.

(** directory entries survive the wire: a buffer filled by
    [fuse_add_direntry] is read back, record by record, as the same names,
    inode numbers, offsets and types in the same order. *)
Theorem direntry_roundtrip (entries : list (cstring * stat * Z)) :
  Forall (fun x => strlen x.1.1 < 2 ^ 32) entries ->
  parse_dirents (length entries) (entries ≫= entry_bytes) = entry_view <$> entries.
Proof.
  induction 1 as [|x entries Hx _ IH]; [done|]. cbn [length]. rewrite bind_cons parse_entry //.
  rewrite IH. done.
Qed.

Lemma direntry_roundtrip_witness :
  parse_dirents 2 ([(lit "a", set_sb_mode stat_zero S_IFDIR, 1); (lit "bc", stat_zero, 2)] ≫= entry_bytes) =
  [mkDirent 0 1 4 (lit "a"); mkDirent 0 2 0 (lit "bc")].
Proof.
  apply (direntry_roundtrip [(lit "a", set_sb_mode stat_zero S_IFDIR, 1); (lit "bc", stat_zero, 2)]).
  repeat constructor.
Defined.

(** The timeouts of the default configuration. *)
Example timeout_1_5 : calc_timeout_sec (S754_finite false 6755399441055744 (-52)) = 1 /\
  calc_timeout_nsec (S754_finite false 6755399441055744 (-52)) = 500000000.
Proof. split; reflexivity. Qed.
