(* ===== verification/Dir.v ===== *)
(** * Reading directories ([lib/fuse.c])

    An open directory has a handle ([struct fuse_dh]).  A file system either
    passes offsets to the filler, which then fills the reply buffer directly, or
    passes none, and the library keeps the whole listing and serves every
    [READDIR] request from it, numbering the entries.  The theorems: the bytes of
    a reply are the records of the longest run of entries that fits, and reading
    on from the offset of the last entry gets every entry once, in order. *)
From S2P Require Import Prelude Locks NodeTable Node NodeOps TreeLock Wire.

(** ** Configuration and lookups *)

(** [struct fuse_config]: the fields the library itself reads. *)
Record fuse_config := mkConf {
  c_set_gid : bool; c_gid : Z;
  c_set_uid : bool; c_uid : Z;
  c_set_mode : bool; c_umask : Z; c_fmask : Z; c_dmask : Z;
  c_entry_timeout : double; c_negative_timeout : double; c_attr_timeout : double;
  c_remember : Z;
  c_hard_remove : bool; c_use_ino : bool; c_readdir_ino : bool;
  c_direct_io : bool; c_kernel_cache : bool; c_auto_cache : bool;
  c_no_rofd_flush : bool; c_parallel_direct_writes : bool;
  c_nullpath_ok : bool;
}.

Definition S_ISDIR (mode : Z) : bool := Z.land mode S_IFMT =? S_IFDIR.

(** [(mode & S_IFMT) | (0777 & ~mask)]. *)
Definition masked_mode (mode mask : Z) : Z :=
  Z.lor (Z.land mode S_IFMT) (Z.land 511 (Z.lnot mask)).

Definition set_stat (conf : fuse_config) (nodeid : Z) (stbuf : stat) : stat :=
  let stbuf := if negb (c_use_ino conf) then set_sb_ino stbuf nodeid else stbuf in
  let stbuf :=
    if c_set_mode conf then
      if truth (c_dmask conf) && S_ISDIR (sb_mode stbuf)
      then set_sb_mode stbuf (masked_mode (sb_mode stbuf) (c_dmask conf))
      else if truth (c_fmask conf)
      then set_sb_mode stbuf (masked_mode (sb_mode stbuf) (c_fmask conf))
      else set_sb_mode stbuf (masked_mode (sb_mode stbuf) (c_umask conf))
    else stbuf in
  let stbuf := if c_set_uid conf then set_sb_uid stbuf (c_uid conf) else stbuf in
  if c_set_gid conf then set_sb_gid stbuf (c_gid conf) else stbuf.

(** The modification time in nanoseconds, as the node keeps it. *)
Definition stat_mtime (st : stat) : Z := sb_mtime st * 1000000000 + sb_mtimensec st.

Definition FUSE_UNKNOWN_INO : Z := 4294967295.
Definition FUSE_FILL_DIR_PLUS : Z := 2.
Definition FUSE_READDIR_PLUS : Z := 1.

(** ** The directory handle *)

Record direntry := mkDe { de_stat : stat; de_flags : Z; de_name : cstring }.

(** [struct fuse_dh]; the entries from [first] on are a list, [last] is its end.
    The bytes of [contents] are there once [size] is not 0. *)
Record fuse_dh := mkDh {
  dh_contents : list Z;
  dh_first : list direntry;
  dh_len : Z;
  dh_size : Z;
  dh_needlen : Z;
  dh_filled : bool;
  dh_fh : Z;
  dh_error : Z;
  dh_nodeid : Z;
}.

(** [fuse_lib_opendir]'s initialisation. *)
Definition dh_new (nodeid : Z) : fuse_dh := mkDh [] [] 0 0 0 false 0 0 nodeid.

Definition set_dh_contents (d : fuse_dh) c s := mkDh c (dh_first d) (dh_len d) s (dh_needlen d) (dh_filled d) (dh_fh d) (dh_error d) (dh_nodeid d).
Definition set_dh_first (d : fuse_dh) v := mkDh (dh_contents d) v (dh_len d) (dh_size d) (dh_needlen d) (dh_filled d) (dh_fh d) (dh_error d) (dh_nodeid d).
Definition set_dh_len (d : fuse_dh) v := mkDh (dh_contents d) (dh_first d) v (dh_size d) (dh_needlen d) (dh_filled d) (dh_fh d) (dh_error d) (dh_nodeid d).
Definition set_dh_needlen (d : fuse_dh) v := mkDh (dh_contents d) (dh_first d) (dh_len d) (dh_size d) v (dh_filled d) (dh_fh d) (dh_error d) (dh_nodeid d).
Definition set_dh_filled (d : fuse_dh) v := mkDh (dh_contents d) (dh_first d) (dh_len d) (dh_size d) (dh_needlen d) v (dh_fh d) (dh_error d) (dh_nodeid d).
Definition set_dh_error (d : fuse_dh) v := mkDh (dh_contents d) (dh_first d) (dh_len d) (dh_size d) (dh_needlen d) (dh_filled d) (dh_fh d) v (dh_nodeid d).

(** A request on a directory works on the handle and on the file system. *)
Record dirst := mkDirst { ds_fuse : fuse; ds_dh : fuse_dh }.

Definition lift {A} (m : M fuse A) : M dirst A := fun s =>
  match m (ds_fuse s) with
  | Ok (a, f) => Ok (a, mkDirst f (ds_dh s))
  | Abort => Abort
  | Diverge => Diverge
  end.
Definition dh_get : M dirst fuse_dh := gets ds_dh.
Definition dh_set (g : fuse_dh -> fuse_dh) : M dirst unit :=
  modify (fun s => mkDirst (ds_fuse s) (g (ds_dh s))).

Section ops.
Context (alloc_ok : nat -> bool) (clock : nat -> Z) (conf : fuse_config).

(** [do_lookup]; a [NULL] name asks for the node itself. *)
Definition do_lookup (nodeid : Z) (name : option cstring) (e : fuse_entry_param) : M fuse (Z * fuse_entry_param) :=
  node ← find_node alloc_ok (c_remember conf) nodeid name;
  match node with
  | None => mret (- ENOMEM, e)
  | Some n =>
    nd ← deref n;
    (if c_auto_cache conf
     then update_stat clock n (stat_mtime (e_attr e)) (sb_size (e_attr e)) else mret tt);;
    mret (0, mkEntry n (generation nd) (set_stat conf n (e_attr e))
               (c_attr_timeout conf) (c_entry_timeout conf))
  end.

Definition extend_contents (minsize : Z) : M dirst Z :=
  dh ← dh_get;
  if dh_size dh <? minsize then
    match grow 32 (if dh_size dh =? 0 then 1024 else dh_size dh) minsize with
    | None => diverge
    | Some newsize =>
      ok ← lift (alloc alloc_ok);
      if negb ok then
        dh_set (fun d => set_dh_error d (- ENOMEM));;
        mret (-1)
      else
        dh_set (fun d => set_dh_contents d (resize (Z.to_nat newsize) 0 (dh_contents d)) newsize);;
        mret 0
    end
  else mret 0.

(** Two allocations, [malloc] and [strdup]; a failure of either leaves the list. *)
Definition fuse_add_direntry_to_dh (name : cstring) (st : stat) (flags : Z) : M dirst Z :=
  ok ← lift (alloc alloc_ok);
  if negb ok then dh_set (fun d => set_dh_error d (- ENOMEM));; mret (-1)
  else
    ok ← lift (alloc alloc_ok);
    if negb ok then dh_set (fun d => set_dh_error d (- ENOMEM));; mret (-1)
    else
      dh_set (fun d => set_dh_first d (dh_first d ++ [mkDe st flags name]));;
      mret 0.

Definition lookup_nodeid (f : fuse) (parent : Z) (name : cstring) : Z :=
  match lookup_node f parent name with Some n => n | None => FUSE_UNKNOWN_INO end.

(** [dh->error = err; return 1;] *)
Definition fill_error (err : Z) : M dirst Z :=
  dh_set (fun d => set_dh_error d err);; mret 1.

(** Store the entry that [add] formats behind the others, if it fits. *)
Definition add_to_contents (add : bool -> Z -> Z * list Z) : M dirst Z :=
  dh ← dh_get;
  let '(thislen, bytes) := add (negb (dh_size dh =? 0)) (u32 (dh_needlen dh - dh_len dh)) in
  dh_set (fun d => set_dh_contents d (blit (dh_contents d) (dh_len d) bytes) (dh_size d));;
  let newlen := u64 (dh_len dh + thislen) in
  if dh_needlen dh <? newlen then mret 1
  else dh_set (fun d => set_dh_len d newlen);; mret 0.

Definition fill_dir (name : cstring) (statp : option stat) (off flags : Z) : M dirst Z :=
  if negb (Z.land flags (Z.lnot FUSE_FILL_DIR_PLUS) =? 0) then fill_error (- EIO)
  else
    let stbuf := match statp with
                 | Some st => st
                 | None => set_sb_ino stat_zero FUSE_UNKNOWN_INO
                 end in
    s ← get;
    let stbuf :=
      if negb (c_use_ino conf) then
        set_sb_ino stbuf
          (if c_readdir_ino conf then lookup_nodeid (ds_fuse s) (dh_nodeid (ds_dh s)) name
           else FUSE_UNKNOWN_INO)
      else stbuf in
    if truth off then
      if dh_filled (ds_dh s) then fill_error (- EIO)
      else if negb (bool_decide (dh_first (ds_dh s) = [])) then fill_error (- EIO)
      else
        r ← extend_contents (dh_needlen (ds_dh s));
        if r =? -1 then mret 1
        else add_to_contents (fun buf bufsize => fuse_add_direntry buf bufsize name stbuf off)
    else
      dh_set (fun d => set_dh_filled d true);;
      r ← fuse_add_direntry_to_dh name stbuf flags;
      if r =? -1 then mret 1 else mret 0.

Definition is_dot_or_dotdot (name : cstring) : bool :=
  ceq (char_at name 0) "."%char &&
  (ceq (char_at name 1) NUL || (ceq (char_at name 1) "."%char && ceq (char_at name 2) NUL)).

Definition fill_dir_plus (name : cstring) (statp : option stat) (off flags : Z) : M dirst Z :=
  if negb (Z.land flags (Z.lnot FUSE_FILL_DIR_PLUS) =? 0) then fill_error (- EIO)
  else
    s ← get;
    let ino := dh_nodeid (ds_dh s) in
    let plus := has_flag flags FUSE_FILL_DIR_PLUS in
    let attr :=
      match statp, plus with
      | Some st, true => st
      | _, _ =>
        let attr := set_sb_ino stat_zero FUSE_UNKNOWN_INO in
        let attr := match statp with
                    | Some st =>
                      let attr := set_sb_mode attr (sb_mode st) in
                      if c_use_ino conf then set_sb_ino attr (sb_ino st) else attr
                    | None => attr
                    end in
        if negb (c_use_ino conf) && c_readdir_ino conf
        then set_sb_ino attr (lookup_nodeid (ds_fuse s) ino name) else attr
      end in
    let e := mkEntry 0 0 attr (f64_of_Z 0) (f64_of_Z 0) in
    if truth off then
      if dh_filled (ds_dh s) then fill_error (- EIO)
      else if negb (bool_decide (dh_first (ds_dh s) = [])) then fill_error (- EIO)
      else
        r ← extend_contents (dh_needlen (ds_dh s));
        if r =? -1 then mret 1
        else
          r ← (if bool_decide (is_Some statp) && plus && negb (is_dot_or_dotdot name)
               then lift (do_lookup ino (Some name) e) else mret (0, e));
          let '(res, e) := r in
          if truth res then fill_error res
          else add_to_contents (fun buf bufsize => fuse_add_direntry_plus buf bufsize name e off)
    else
      dh_set (fun d => set_dh_filled d true);;
      r ← fuse_add_direntry_to_dh name attr flags;
      if r =? -1 then mret 1 else mret 0.

(** The file system's [readdir], which calls the filler it is given. *)
Definition filler : Type := cstring -> option stat -> Z -> Z -> M dirst Z.
Context (fs_readdir : filler -> Z -> Z -> M dirst Z).
(** Taking and releasing the path of the directory. *)
Context (dir_path : Z -> M fuse (Z * option cstring)) (dir_free_path : Z -> option cstring -> M fuse unit).

Definition readdir_fill (ino size off flags : Z) : M dirst Z :=
  r ← lift (dir_path ino);
  let '(err, path) := r in
  if truth err then mret err
  else
    let fill := if has_flag flags FUSE_READDIR_PLUS then fill_dir_plus else fill_dir in
    dh_set (fun d => set_dh_filled (set_dh_needlen (set_dh_error (set_dh_len (set_dh_first d []) 0) 0)
                                      (u32 size)) false);;
    err ← fs_readdir fill off flags;
    dh ← dh_get;
    let err := if truth err then err else dh_error dh in
    (if truth err then dh_set (fun d => set_dh_filled d false) else mret tt);;
    lift (dir_free_path ino path);;
    mret err.

(** The [while (de)] loop of [readdir_fill_from_list]. *)
Fixpoint fill_loop (de : list direntry) (pos flags : Z) : M dirst Z :=
  match de with
  | [] => mret 0
  | d :: rest =>
    dh ← dh_get;
    let rem := u32 (dh_needlen dh - dh_len dh) in
    let buf := negb (dh_size dh =? 0) in
    let pos := pos + 1 in
    r ← (if has_flag flags FUSE_READDIR_PLUS then
           let e := mkEntry 0 0 (de_stat d) (f64_of_Z 0) (f64_of_Z 0) in
           r ← (if has_flag (de_flags d) FUSE_FILL_DIR_PLUS && negb (is_dot_or_dotdot (de_name d))
                then lift (do_lookup (dh_nodeid dh) (Some (de_name d)) e) else mret (0, e));
           let '(res, e) := r in
           if truth res then dh_set (fun d => set_dh_error d res);; mret None
           else mret (Some (fuse_add_direntry_plus buf rem (de_name d) e pos))
         else mret (Some (fuse_add_direntry buf rem (de_name d) (de_stat d) pos)));
    match r with
    | None => mret 1
    | Some (thislen, bytes) =>
      dh_set (fun d => set_dh_contents d (blit (dh_contents d) (dh_len d) bytes) (dh_size d));;
      let newlen := u32 (dh_len dh + u32 thislen) in
      if dh_needlen dh <? newlen then mret 0
      else
        dh_set (fun d => set_dh_len d newlen);;
        fill_loop rest pos flags
    end
  end.

Definition readdir_fill_from_list (off flags : Z) : M dirst Z :=
  dh ← dh_get;
  dh_set (fun d => set_dh_len d 0);;
  r ← extend_contents (dh_needlen dh);
  if r =? -1 then dh ← dh_get; mret (dh_error dh)
  else
    let skipped := Z.max 0 (Z.min off (Z.of_nat (length (dh_first dh)))) in
    fill_loop (drop (Z.to_nat skipped) (dh_first dh)) skipped flags.

(** What the request is answered with. *)
Inductive dir_reply :=
  | Reply_err (err : Z)
  | Reply_buf (bytes : list Z).

Definition fuse_readdir_common (ino size off flags : Z) : M dirst dir_reply :=
  (if negb (truth off) then dh_set (fun d => set_dh_filled d false) else mret tt);;
  dh ← dh_get;
  err ← (if negb (dh_filled dh) then readdir_fill ino size off flags else mret 0);
  if truth err then mret (Reply_err err)
  else
    dh ← dh_get;
    err ← (if dh_filled dh then
             dh_set (fun d => set_dh_needlen d (u32 size));;
             readdir_fill_from_list off flags
           else mret 0);
    if truth err then mret (Reply_err err)
    else
      dh ← dh_get;
      mret (Reply_buf (take (Z.to_nat (dh_len dh)) (dh_contents dh))).
End ops.

(** ** The buffer of the handle *)

Record contents_ok (d : fuse_dh) : Prop := {
  co_length : Z.of_nat (length (dh_contents d)) = dh_size d;
  co_size : dh_size d < 4294967296;
}.

Lemma wp_lift_alloc alloc_ok (Q : bool -> dirst -> Prop) s :
  Q (alloc_ok (tick (ds_fuse s))) (mkDirst (set_tick (ds_fuse s) (S (tick (ds_fuse s)))) (ds_dh s)) ->
  wp (lift (alloc alloc_ok)) Q s.
Proof. done. Qed.

Lemma wp_dh_get (Q : fuse_dh -> dirst -> Prop) s : Q (ds_dh s) s -> wp dh_get Q s.
Proof. done. Qed.

Lemma wp_dh_set g (Q : unit -> dirst -> Prop) s : Q tt (mkDirst (ds_fuse s) (g (ds_dh s))) -> wp (dh_set g) Q s.
Proof. done. Qed.

(** [extend_contents]: room for [minsize] bytes with the old ones kept, or
    [-ENOMEM]. *)
Lemma extend_contents_wp alloc_ok minsize s :
  contents_ok (ds_dh s) -> minsize <= UINT_MAX ->
  wp (extend_contents alloc_ok minsize) (fun r s' =>
    (exists k, ds_fuse s' = set_tick (ds_fuse s) k) /\
    (r = 0 /\ (exists c n, ds_dh s' = set_dh_contents (ds_dh s) c n /\ contents_ok (ds_dh s') /\ minsize <= n /\
        dh_size (ds_dh s) <= n /\ take (length (dh_contents (ds_dh s))) c = dh_contents (ds_dh s)) \/
     r = -1 /\ (exists k, alloc_ok k = false) /\ ds_dh s' = set_dh_error (ds_dh s) (- ENOMEM))) s.
Proof.
  intros [Hl Hs] Hmin. unfold extend_contents. apply wp_bind, wp_dh_get.
  assert (forall f, set_tick f (tick f) = f) as Htick by by intros [].
  destruct (Z.ltb_spec (dh_size (ds_dh s)) minsize).
  2: { apply wp_ret. split; [exists (tick (ds_fuse s)); by rewrite Htick|]. left. split; [done|].
       exists (dh_contents (ds_dh s)), (dh_size (ds_dh s)). rewrite take_ge //. split_and!; try done; try lia.
       by destruct (ds_dh s). }
  destruct (grow_spec 32 (if dh_size (ds_dh s) =? 0 then 1024 else dh_size (ds_dh s)) minsize) as (n & -> & Hn1 & Hn2).
  { destruct (Z.eqb_spec (dh_size (ds_dh s)) 0); lia. }
  { unfold UINT_MAX in Hmin. lia. }
  { destruct (Z.eqb_spec (dh_size (ds_dh s)) 0); cbn; lia. }
  apply wp_bind, wp_lift_alloc. destruct (alloc_ok (tick (ds_fuse s))) eqn:Hok; cbn [negb].
  - apply wp_bind, wp_dh_set, wp_ret. cbn. split; [by eexists|]. left. split; [done|].
    assert (dh_size (ds_dh s) <= n) by (destruct (Z.eqb_spec (dh_size (ds_dh s)) 0); lia).
    eexists _, n. split; [done|]. split_and!; [|lia|done|].
    + split; cbn; [rewrite length_resize|]; lia.
    + rewrite resize_spec (take_ge (dh_contents (ds_dh s))); [lia|]. by rewrite take_app_length.
  - apply wp_bind, wp_dh_set, wp_ret. cbn. split; [by eexists|]. right. eauto.
Qed.

(** ** What fits *)

(** The longest run of entries with at most [room] bytes, numbered from
    [pos + 1]. *)
Fixpoint fit (room pos : Z) (des : list direntry) : list (cstring * stat * Z) :=
  match des with
  | [] => []
  | d :: des =>
    let n := FUSE_DIRENT_ALIGN (FUSE_NAME_OFFSET + strlen (de_name d)) in
    if room <? n then [] else (de_name d, de_stat d, pos + 1) :: fit (room - n) (pos + 1) des
  end.

(** Entries whose sizes, added to a full buffer, stay within 32 bits. *)
Definition names_ok (needlen : Z) (des : list direntry) : Prop :=
  Forall (fun d => needlen + FUSE_DIRENT_ALIGN (FUSE_NAME_OFFSET + strlen (de_name d)) <= UINT_MAX) des.

Lemma add_direntry_fits buf bufsize name st off :
  FUSE_DIRENT_ALIGN (FUSE_NAME_OFFSET + strlen name) <= bufsize -> bufsize <= UINT_MAX ->
  fuse_add_direntry true bufsize name st off =
    (FUSE_DIRENT_ALIGN (FUSE_NAME_OFFSET + strlen name), entry_bytes (name, st, off)) /\
  (buf = true -> fuse_add_direntry buf bufsize name st off = fuse_add_direntry true bufsize name st off).
Proof.
  intros H1 H2. split; [|by intros ->]. unfold entry_bytes, fuse_add_direntry. cbn [negb orb].
  rewrite !(proj2 (Z.ltb_ge _ _)) //. unfold UINT_MAX, SIZE_MAX in *. lia.
Qed.

Lemma add_direntry_full buf bufsize name st off :
  bufsize < FUSE_DIRENT_ALIGN (FUSE_NAME_OFFSET + strlen name) ->
  fuse_add_direntry buf bufsize name st off = (FUSE_DIRENT_ALIGN (FUSE_NAME_OFFSET + strlen name), []).
Proof. intros H. unfold fuse_add_direntry. by rewrite (proj2 (Z.ltb_lt _ _)) // orb_true_r. Qed.

Lemma entry_size_pos name : 24 <= FUSE_DIRENT_ALIGN (FUSE_NAME_OFFSET + strlen name).
Proof. pose proof (FUSE_REC_ALIGN_bounds (FUSE_NAME_OFFSET + strlen name)). unfold FUSE_DIRENT_ALIGN, FUSE_NAME_OFFSET, strlen in *. lia. Qed.

Lemma length_entry_bytes name st off :
  FUSE_DIRENT_ALIGN (FUSE_NAME_OFFSET + strlen name) <= SIZE_MAX ->
  Z.of_nat (length (entry_bytes (name, st, off))) = FUSE_DIRENT_ALIGN (FUSE_NAME_OFFSET + strlen name).
Proof.
  intros Hle. pose proof (fuse_add_direntry_length true SIZE_MAX name st off) as H. unfold entry_bytes.
  destruct (fuse_add_direntry true SIZE_MAX name st off) as [n bs]. destruct H as [-> H].
  by rewrite (proj2 (Z.leb_le _ _)) // in H.
Qed.

Section list_mode.
Context (alloc_ok : nat -> bool) (clock : nat -> Z) (conf : fuse_config).

Lemma fill_loop_wp flags des : forall pos s acc,
  has_flag flags FUSE_READDIR_PLUS = false ->
  contents_ok (ds_dh s) -> 0 <= dh_len (ds_dh s) <= dh_needlen (ds_dh s) -> dh_needlen (ds_dh s) <= dh_size (ds_dh s) ->
  names_ok (dh_needlen (ds_dh s)) des -> take (Z.to_nat (dh_len (ds_dh s))) (dh_contents (ds_dh s)) = acc ->
  wp (fill_loop alloc_ok clock conf des pos flags) (fun r s' => r = 0 /\ ds_fuse s' = ds_fuse s /\
    exists c l, ds_dh s' = set_dh_len (set_dh_contents (ds_dh s) c (dh_size (ds_dh s))) l /\ contents_ok (ds_dh s') /\
    take (Z.to_nat l) c = acc ++ (fit (dh_needlen (ds_dh s) - dh_len (ds_dh s)) pos des ≫= entry_bytes)) s.
Proof.
  induction des as [|d des IH]; intros pos s acc Hfl Hco Hlen Hsz Hn Hacc; cbn [fill_loop fit].
  - apply wp_ret. split_and!; [done|done|]. exists (dh_contents (ds_dh s)), (dh_len (ds_dh s)).
    rewrite app_nil_r. split_and!; [by destruct (ds_dh s)|done|done].
  - apply List.Forall_cons_iff in Hn as [Hd Hn]. rewrite Hfl.
    apply wp_bind, wp_dh_get. cbn zeta. rewrite (wrap_small 32 (_ - _)).
    { pose proof (co_size _ Hco). lia. }
    pose proof (entry_size_pos (de_name d)). pose proof (co_size _ Hco).
    set (n := FUSE_DIRENT_ALIGN _) in *. unfold UINT_MAX in Hd.
    apply wp_bind, wp_ret. destruct (Z.ltb_spec (dh_needlen (ds_dh s) - dh_len (ds_dh s)) n) as [Hfull|Hfit].
    + rewrite add_direntry_full //. fold n. apply wp_bind, wp_dh_set. cbn [ds_dh ds_fuse].
      rewrite (wrap_small 32 n); [lia|]. rewrite wrap_small; [lia|]. rewrite (proj2 (Z.ltb_lt _ _)); [lia|].
      apply wp_ret. split_and!; [done|done|]. exists (dh_contents (ds_dh s)), (dh_len (ds_dh s)).
      rewrite blit_nil app_nil_r. split_and!; [by destruct (ds_dh s)|by destruct (ds_dh s), Hco; split|done].
    + destruct (add_direntry_fits (negb (dh_size (ds_dh s) =? 0)) (dh_needlen (ds_dh s) - dh_len (ds_dh s))
        (de_name d) (de_stat d) (pos + 1)) as [Hadd Hbuf]; [done|unfold UINT_MAX; lia|]. rewrite Hbuf.
      { apply negb_true_iff, Z.eqb_neq. lia. }
      rewrite Hadd. fold n.
      assert (Z.of_nat (length (entry_bytes (de_name d, de_stat d, pos + 1))) = n) as Hbl
        by (apply length_entry_bytes; fold n; unfold SIZE_MAX; lia).
      destruct (take_blit (dh_contents (ds_dh s)) (dh_len (ds_dh s)) (entry_bytes (de_name d, de_stat d, pos + 1)))
        as [Htk Htl]; [lia|rewrite Hbl (co_length _ Hco); lia|]. rewrite Hbl in Htk.
      apply wp_bind, wp_dh_set. cbn [ds_dh ds_fuse].
      rewrite (wrap_small 32 n); [lia|]. rewrite wrap_small; [lia|]. rewrite (proj2 (Z.ltb_ge _ _)); [lia|].
      apply wp_bind, wp_dh_set. cbn [ds_dh ds_fuse].
      eapply wp_mono; [apply (IH (pos + 1) _ (acc ++ entry_bytes (de_name d, de_stat d, pos + 1)));
        cbn [ds_dh ds_fuse dh_len dh_contents dh_size dh_needlen set_dh_len set_dh_contents]; try done; try lia|].
      * destruct Hco. split; cbn [dh_size dh_contents]; [rewrite Htl|]; done.
      * by rewrite Htk Hacc.
      * intros r s' (-> & Hf & c & l & Hdh & Hco' & Htake). cbn in Hf, Hdh, Htake, Hco'.
        split_and!; [done|done|]. exists c, l. split_and!; [done|done|].
        rewrite Htake bind_cons -app_assoc. do 3 f_equal.
        replace (dh_needlen (ds_dh s) - (dh_len (ds_dh s) + n)) with (dh_needlen (ds_dh s) - dh_len (ds_dh s) - n) by lia.
        done.
Qed.

(** The listing kept in the handle, and its buffer in order. *)
Record has_list (s : dirst) (all : list direntry) : Prop := {
  hl_contents : contents_ok (ds_dh s);
  hl_filled : dh_filled (ds_dh s) = true;
  hl_first : dh_first (ds_dh s) = all;
}.

(** [readdir_fill_from_list]: the entries behind the first [off] that fit. *)
Lemma readdir_fill_from_list_wp off flags s all :
  has_flag flags FUSE_READDIR_PLUS = false -> has_list s all -> 0 <= off ->
  0 <= dh_needlen (ds_dh s) <= UINT_MAX -> names_ok (dh_needlen (ds_dh s)) all ->
  wp (readdir_fill_from_list alloc_ok clock conf off flags) (fun r s' =>
    (exists k, ds_fuse s' = set_tick (ds_fuse s) k) /\
    dh_nodeid (ds_dh s') = dh_nodeid (ds_dh s) /\ has_list s' all /\
    (r = 0 /\ take (Z.to_nat (dh_len (ds_dh s'))) (dh_contents (ds_dh s')) =
       (fit (dh_needlen (ds_dh s)) off (drop (Z.to_nat off) all) ≫= entry_bytes) \/
     r = - ENOMEM /\ exists k, alloc_ok k = false)) s.
Proof.
  intros Hfl [Hco Hfill Hall] Hoff Hneed Hnames. unfold readdir_fill_from_list.
  apply wp_bind, wp_dh_get, wp_bind, wp_dh_set, wp_bind.
  eapply wp_mono; [apply extend_contents_wp; [by destruct Hco; split|lia]|]. cbn [ds_dh ds_fuse].
  intros r s1 [[k Hk] [(-> & c & n & Hdh & Hco1 & Hn1 & Hn2 & Hc)|(-> & Hfail & Hdh)]].
  2: { cbn. apply wp_ret. split; [by eexists|]. rewrite Hdh. cbn. split; [done|]. split; [|by right].
       split; rewrite Hdh; cbn; try done. by destruct Hco; split. }
  cbn [Z.eqb]. rewrite Hall.
  eapply wp_mono; [apply (fill_loop_wp flags _ _ s1 []); rewrite ?Hdh; try done; cbn; try lia|].
  - by rewrite -Hdh.
  - by apply Forall_drop.
  - intros r s2 (-> & Hf & c2 & l & Hdh2 & Hco2 & Htake). rewrite Hf Hk. split; [by eexists|].
    assert (has_list s2 all) as Hl2 by (split; [done|rewrite Hdh2 Hdh; done..]).
    rewrite Hdh2 Hdh. cbn. split; [done|]. split; [done|]. left. split; [done|]. rewrite Htake Hdh. cbn. rewrite Z.sub_0_r. 
    destruct (decide (off <= Z.of_nat (length all))) as [Hle|Hgt].
    + by replace (Z.max 0 (Z.min off (Z.of_nat (length all)))) with off by lia.
    + rewrite !drop_ge //; lia.
Qed.
End list_mode.

(** ** Scanning a directory *)

(** The entries with their offsets. *)
Fixpoint number (pos : Z) (des : list direntry) : list (cstring * stat * Z) :=
  match des with
  | [] => []
  | d :: des => (de_name d, de_stat d, pos + 1) :: number (pos + 1) des
  end.

Lemma length_number pos des : length (number pos des) = length des.
Proof. revert pos. induction des as [|d des IH]; intros pos; cbn; [done|]. by rewrite IH. Qed.

Lemma drop_number k pos des : drop k (number pos des) = number (pos + Z.of_nat k) (drop k des).
Proof.
  revert pos des. induction k as [|k IH]; intros pos des; [by rewrite !drop_0 Z.add_0_r|].
  destruct des as [|d des]; [done|]. cbn [number drop]. rewrite IH. f_equal. lia.
Qed.

(** What fits is a prefix; its last entry carries the offset to go on from. *)
Lemma fit_prefix room pos des :
  exists k, (k <= length des)%nat /\ fit room pos des = take k (number pos des) /\
    (forall d rest, des = d :: rest -> FUSE_DIRENT_ALIGN (FUSE_NAME_OFFSET + strlen (de_name d)) <= room -> (0 < k)%nat).
Proof.
  revert room pos. induction des as [|d des IH]; intros room pos; cbn [fit number].
  - exists 0%nat. split_and!; [done|done|by intros].
  - destruct (Z.ltb_spec room (FUSE_DIRENT_ALIGN (FUSE_NAME_OFFSET + strlen (de_name d)))) as [Hlt|Hge].
    + exists 0%nat. split_and!; [lia|done|]. intros d' rest [= -> ->]. lia.
    + destruct (IH (room - FUSE_DIRENT_ALIGN (FUSE_NAME_OFFSET + strlen (de_name d))) (pos + 1)) as (k & Hk & -> & _).
      exists (S k). split_and!; [cbn; lia|done|lia].
Qed.

Lemma last_take_number k pos des : (0 < k <= length des)%nat ->
  exists x, list.last (take k (number pos des)) = Some x /\ x.2 = pos + Z.of_nat k.
Proof.
  revert pos des. induction k as [|k IH]; intros pos des Hk; [lia|].
  destruct des as [|d des]; [cbn in Hk; lia|]. cbn [number take]. destruct (decide (k = 0%nat)) as [->|Hk0].
  - cbn. eexists. split; [done|]. cbn. lia.
  - cbn in Hk. destruct (IH (pos + 1) des) as (x & Hx & Hx2); [lia|]. exists x. split.
    + rewrite last_cons Hx. done.
    + rewrite Hx2. lia.
Qed.

Lemma parse_fit entries :
  Forall (fun x => strlen x.1.1 < 2 ^ 32) entries -> forall fuel, (length entries <= fuel)%nat ->
  parse_dirents fuel (entries ≫= entry_bytes) = entry_view <$> entries.
Proof.
  induction 1 as [|x entries Hx _ IH]; intros fuel Hf; [apply parse_dirents_nil|].
  destruct fuel as [|fuel]; [cbn in Hf; lia|]. rewrite bind_cons parse_entry // IH; [cbn in Hf; lia|done].
Qed.

(** Enough bytes for as many records. *)
Lemma length_entries entries :
  (length entries <= length (entries ≫= entry_bytes))%nat \/ exists x, x ∈ entries /\ 2 ^ 32 <= strlen x.1.1.
Proof.
  induction entries as [|x entries IH]; [by left|]. destruct (decide (2 ^ 32 <= strlen x.1.1)) as [Hl|Hl].
  { right. exists x. split; [apply elem_of_cons; by left|done]. }
  destruct IH as [IH|(y & ? & ?)]; [|right; exists y; split; [apply elem_of_cons; by right|done]].
  left. destruct x as [[name st] off]. rewrite bind_cons length_app. cbn [length].
  assert (24 <= Z.of_nat (length (entry_bytes (name, st, off)))).
  { rewrite length_entry_bytes; [|apply entry_size_pos].
    pose proof (FUSE_REC_ALIGN_bounds (FUSE_NAME_OFFSET + strlen name)). cbn in Hl.
    unfold FUSE_DIRENT_ALIGN, FUSE_NAME_OFFSET, SIZE_MAX in *. lia. }
  lia.
Qed.

(** A file system that passes no offsets: it calls the filler for each entry
    until it is told to stop. *)
Fixpoint fs_list (calls : list (cstring * option stat)) (fill : filler) (off flags : Z) : M dirst Z :=
  match calls with
  | [] => mret 0
  | (name, st) :: calls =>
    r ← fill name st 0 0;
    if truth r then mret 0 else fs_list calls fill off flags
  end.

(** The attributes [fill_dir] keeps for an entry. *)
Definition listed (conf : fuse_config) (f : fuse) (nodeid : Z) (c : cstring * option stat) : direntry :=
  let '(name, statp) := c in
  let st := match statp with Some st => st | None => set_sb_ino stat_zero FUSE_UNKNOWN_INO end in
  mkDe (if negb (c_use_ino conf)
        then set_sb_ino st (if c_readdir_ino conf then lookup_nodeid f nodeid name else FUSE_UNKNOWN_INO)
        else st) 0 name.

Lemma lookup_nodeid_tick f k p nm : lookup_nodeid (set_tick f k) p nm = lookup_nodeid f p nm.
Proof. done. Qed.

(** One call of the filler without offset. *)
Lemma fill_dir_list_wp conf name statp s (Q : Z -> dirst -> Prop) :
  (forall k, Q 0 (mkDirst (set_tick (ds_fuse s) k)
     (set_dh_first (set_dh_filled (ds_dh s) true)
        (dh_first (ds_dh s) ++ [listed conf (ds_fuse s) (dh_nodeid (ds_dh s)) (name, statp)])))) ->
  wp (fill_dir (fun _ => true) conf name statp 0 0) Q s.
Proof. intros HQ. apply HQ. Qed.

Lemma fs_list_wp conf calls : forall s off flags,
  wp (fs_list calls (fill_dir (fun _ => true) conf) off flags) (fun r s' => r = 0 /\
    (exists k, ds_fuse s' = set_tick (ds_fuse s) k) /\
    ds_dh s' = set_dh_filled (set_dh_first (ds_dh s)
      (dh_first (ds_dh s) ++ (listed conf (ds_fuse s) (dh_nodeid (ds_dh s)) <$> calls)))
      (if bool_decide (calls = []) then dh_filled (ds_dh s) else true)) s.
Proof.
  induction calls as [|[name st] calls IH]; intros s off flags; cbn [fs_list].
  - apply wp_ret. split; [done|]. split; [exists (tick (ds_fuse s)); by destruct (ds_fuse s)|].
    cbn. rewrite app_nil_r. by destruct (ds_dh s).
  - apply wp_bind, fill_dir_list_wp. intros k. cbn [truth negb Z.eqb]. eapply wp_mono; [apply IH|].
    cbn [ds_dh ds_fuse]. intros r s' (-> & [k' Hk] & Hdh). split; [done|]. split; [exists k'; by rewrite Hk|].
    rewrite Hdh. cbn. rewrite -app_assoc. by case_bool_decide.
Qed.

Section scan.
Context (clock : nat -> Z) (conf : fuse_config) (calls : list (cstring * option stat)).
Context (dir_path : Z -> M fuse (Z * option cstring)) (dir_free_path : Z -> option cstring -> M fuse unit) (ino size : Z).

Definition readdir_request (off : Z) : M dirst dir_reply :=
  fuse_readdir_common (fun _ => true) clock conf (fs_list calls) dir_path dir_free_path ino size off 0.

(** Reading the directory the way [getdents] callers do: go on from the offset
    of the last entry until a reply is empty. *)
Fixpoint scan (fuel : nat) (off : Z) : M dirst (option (list dirent)) :=
  match fuel with
  | O => diverge
  | S fuel =>
    r ← readdir_request off;
    match r with
    | Reply_err _ => mret None
    | Reply_buf bs =>
      let ents := parse_dirents (length bs) bs in
      match list.last ents with
      | None => mret (Some [])
      | Some d => rest ← scan fuel (d_off d); mret (app ents <$> rest)
      end
    end
  end.

(** The states of the file system in which the path of the directory can be
    taken; taking it does not rename the entries. *)
Context (I : fuse -> Prop).
Hypothesis I_tick : forall f k, I f -> I (set_tick f k).
Hypothesis path_ok : forall f, I f -> exists path f', dir_path ino f = Ok ((0, path), f') /\ I f' /\
  forall nm, lookup_nodeid f' ino nm = lookup_nodeid f ino nm.
Hypothesis free_path_ok : forall f path, I f -> exists f', dir_free_path ino path f = Ok (tt, f') /\ I f'.

Hypothesis Hsize : 0 <= size <= UINT_MAX.
Hypothesis Hcount : Z.of_nat (length calls) < 2 ^ 63.
Hypothesis Hnames : Forall (fun c : cstring * option stat =>
  FUSE_DIRENT_ALIGN (FUSE_NAME_OFFSET + strlen c.1) <= size /\
  size + FUSE_DIRENT_ALIGN (FUSE_NAME_OFFSET + strlen c.1) <= UINT_MAX) calls.

Lemma wp_lift {A} (m : M fuse A) (Q : A -> dirst -> Prop) s a f :
  m (ds_fuse s) = Ok (a, f) -> Q a (mkDirst f (ds_dh s)) -> wp (lift m) Q s.
Proof. unfold wp, lift. by intros ->. Qed.

(** Serving from the list. *)
Lemma serve_wp off s all :
  has_list s all -> 0 <= off -> names_ok size all ->
  wp (dh ← dh_get;
      err ← (if dh_filled dh then
               dh_set (fun d => set_dh_needlen d (u32 size));;
               readdir_fill_from_list (fun _ => true) clock conf off 0
             else mret 0);
      if truth err then mret (Reply_err err)
      else dh ← dh_get; mret (Reply_buf (take (Z.to_nat (dh_len dh)) (dh_contents dh))))
     (fun r s' => r = Reply_buf (fit size off (drop (Z.to_nat off) all) ≫= entry_bytes) /\
        has_list s' all /\ exists k, ds_fuse s' = set_tick (ds_fuse s) k) s.
Proof.
  intros Hl Hoff Hn. apply wp_bind, wp_dh_get. rewrite (hl_filled _ _ Hl).
  apply wp_bind, wp_bind, wp_dh_set. rewrite wrap_small; [unfold UINT_MAX in Hsize; lia|].
  eapply wp_mono; [apply (readdir_fill_from_list_wp _ _ _ off 0 _ all); try done|].
  { destruct Hl as [[? ?] ? ?]. by split. }
  cbn [ds_dh ds_fuse]. intros r s' (Hk & _ & Hl' & [(-> & Htake)|(_ & [? ?])]); [|done].
  cbn [truth negb Z.eqb]. apply wp_bind, wp_dh_get, wp_ret. rewrite Htake. done.
Qed.

Definition all_entries (f : fuse) : list direntry := listed conf f ino <$> calls.

Lemma all_names_ok f : names_ok size (all_entries f).
Proof. unfold names_ok, all_entries. apply Forall_fmap. 
  eapply Forall_impl; [|exact Hnames]. by intros [nm st] [_ ?].
Qed.

Lemma request_later off s f :
  has_list s (all_entries f) -> 0 < off ->
  wp (readdir_request off) (fun r s' =>
    r = Reply_buf (fit size off (drop (Z.to_nat off) (all_entries f)) ≫= entry_bytes) /\
    has_list s' (all_entries f)) s.
Proof.
  intros Hl Hoff. unfold readdir_request, fuse_readdir_common.
  assert (truth off = true) as -> by (unfold truth; apply negb_true_iff, Z.eqb_neq; lia). cbn [negb].
  apply wp_bind, wp_ret, wp_bind, wp_dh_get. rewrite (hl_filled _ _ Hl). cbn [negb].
  apply wp_bind, wp_ret. cbn [truth negb Z.eqb].
  eapply wp_mono; [apply (serve_wp off s (all_entries f)); [done|lia|apply all_names_ok]|]. naive_solver.
Qed.

Lemma listed_ext f f' c : (forall nm, lookup_nodeid f' ino nm = lookup_nodeid f ino nm) ->
  listed conf f' ino c = listed conf f ino c.
Proof. intros H. destruct c as [nm st]. unfold listed. by rewrite H. Qed.

Lemma request_first s :
  contents_ok (ds_dh s) -> dh_nodeid (ds_dh s) = ino -> I (ds_fuse s) ->
  wp (readdir_request 0) (fun r s' =>
    r = Reply_buf (fit size 0 (all_entries (ds_fuse s)) ≫= entry_bytes) /\
    (calls <> [] -> has_list s' (all_entries (ds_fuse s)))) s.
Proof.
  intros Hco Hid HI. unfold readdir_request, fuse_readdir_common. cbn [truth negb Z.eqb].
  apply wp_bind, wp_dh_set, wp_bind, wp_dh_get. cbn [ds_dh ds_fuse dh_filled set_dh_filled negb].
  apply wp_bind. unfold readdir_fill.
  destruct (path_ok _ HI) as (path & f1 & Hp & HI1 & Hnm).
  apply wp_bind. eapply wp_lift; [exact Hp|]. cbn [truth negb Z.eqb ds_dh ds_fuse].
  apply wp_bind, wp_dh_set, wp_bind. eapply wp_mono; [apply fs_list_wp|]. cbn [ds_dh ds_fuse].
  intros r s1 (-> & [k Hk] & Hdh). apply wp_bind, wp_dh_get. rewrite Hdh. cbn [truth negb Z.eqb dh_error set_dh_filled
    set_dh_first set_dh_needlen set_dh_error set_dh_len].
  apply wp_bind, wp_ret. destruct (free_path_ok (ds_fuse s1) path) as (f2 & Hf2 & _); [rewrite Hk; auto|].
  apply wp_bind. eapply wp_lift; [exact Hf2|]. apply wp_ret. cbn [truth negb Z.eqb].
  rewrite Hdh /= Hid. 
  assert (listed conf f1 ino <$> calls = all_entries (ds_fuse s)) as ->
    by (apply list_fmap_ext; intros i c _; by apply listed_ext).
  destruct (decide (calls = [])) as [Hc|Hc].
  - rewrite bool_decide_true //. apply wp_bind, wp_dh_get. apply wp_bind, wp_ret. cbn [truth negb Z.eqb].
    apply wp_bind, wp_dh_get, wp_ret. split; [|done]. unfold all_entries. by rewrite Hc.
  - eapply wp_mono; [apply (serve_wp 0 _ (all_entries (ds_fuse s))); [|done|apply all_names_ok]|].
    + destruct Hco. split; cbn; [split; done|by rewrite bool_decide_false|done].
    + cbn beta. rewrite drop_0. naive_solver.
Qed.

Lemma fit_nonempty_entry f pos : (Z.to_nat pos < length calls)%nat -> 0 <= pos ->
  exists k, (0 < k <= length (drop (Z.to_nat pos) (all_entries f)))%nat /\
    fit size pos (drop (Z.to_nat pos) (all_entries f)) = take k (number pos (drop (Z.to_nat pos) (all_entries f))).
Proof.
  intros Hpos H0. destruct (fit_prefix size pos (drop (Z.to_nat pos) (all_entries f))) as (k & Hk & Hf & Hp).
  exists k. split; [|done]. split; [|done]. destruct (lookup_lt_is_Some_2 calls (Z.to_nat pos) Hpos) as [c Hc].
  eapply Hp; [eapply drop_S; unfold all_entries; rewrite list_lookup_fmap Hc; done|].
  destruct c as [nm st]. destruct (proj1 (List.Forall_forall _ _) Hnames (nm, st)) as [Hle _]; [|exact Hle].
  by eapply list_elem_of_In, list_elem_of_lookup_2.
Qed.

Lemma all_entries_short f k pos :
  Forall (fun x : cstring * stat * Z => strlen x.1.1 < 2 ^ 32) (take k (number pos (drop (Z.to_nat pos) (all_entries f)))).
Proof.
  apply Forall_take. assert (forall des q, names_ok size des ->
    Forall (fun x : cstring * stat * Z => strlen x.1.1 < 2 ^ 32) (number q des)) as H.
  { induction des as [|d des IH]; intros q [Hd Hn]%List.Forall_cons_iff || intros q _; constructor; auto.
    cbn. pose proof (FUSE_REC_ALIGN_bounds (FUSE_NAME_OFFSET + strlen (de_name d))).
    unfold FUSE_DIRENT_ALIGN, FUSE_NAME_OFFSET, UINT_MAX in *. lia. }
  apply H. apply Forall_drop, all_names_ok.
Qed.

(** Reading on from an answer. *)
Lemma scan_step fuel s f pos k bs (Q : option (list dirent) -> dirst -> Prop) :
  let des := drop (Z.to_nat pos) (all_entries f) in
  0 <= pos -> (k <= length des)%nat -> bs = (take k (number pos des) ≫= entry_bytes) ->
  (k = 0%nat -> Q (Some []) s) ->
  ((0 < k)%nat -> wp (scan fuel (pos + Z.of_nat k))
     (fun rest => Q (app (entry_view <$> take k (number pos des)) <$> rest)) s) ->
  wp (let ents := parse_dirents (length bs) bs in
      match list.last ents with
      | None => mret (Some [])
      | Some d => rest ← scan fuel (d_off d); mret (app ents <$> rest)
      end) Q s.
Proof.
  intros des Hpos Hk -> H0 H1. set (es := take k (number pos des)).
  assert (Forall (fun x : cstring * stat * Z => strlen x.1.1 < 2 ^ 32) es) as Hshort by apply all_entries_short.
  rewrite parse_fit //.
  { destruct (length_entries es) as [?|(x & Hx & Hlen)]; [done|].
    pose proof (proj1 (List.Forall_forall _ _) Hshort x (proj1 (list_elem_of_In _ _) Hx)). cbn beta in *. lia. }
  destruct (decide (k = 0%nat)) as [->|Hk0]; [by apply H0|].
  destruct (last_take_number k pos des) as (x & Hx & Hx2); [lia|]. fold es in Hx. cbn zeta. rewrite fmap_last Hx. cbn [fmap option_fmap option_map].
  assert (d_off (entry_view x) = pos + Z.of_nat k) as ->.
  { destruct x as [[nm st] off]. cbn in Hx2 |- *. rewrite Hx2 wrap_small //.
    assert (length des <= length calls)%nat by (unfold des, all_entries; rewrite length_drop length_fmap; lia).
    assert (pos <= Z.of_nat (length calls)) by (unfold des, all_entries in *; rewrite length_drop length_fmap in Hk; lia).
    lia. }
  apply wp_bind. eapply wp_mono; [apply H1; lia|]. intros rest s' HQ. by apply wp_ret.
Qed.

Lemma scan_later f : forall fuel pos s,
  has_list s (all_entries f) -> 0 < pos <= Z.of_nat (length calls) ->
  (length calls < fuel + Z.to_nat pos)%nat ->
  wp (scan fuel pos) (fun r _ => r = Some (entry_view <$> number pos (drop (Z.to_nat pos) (all_entries f)))) s.
Proof.
  induction fuel as [|fuel IH]; intros pos s Hl Hpos Hf; [lia|]. cbn [scan].
  apply wp_bind. eapply wp_mono; [apply (request_later pos s f Hl); lia|]. intros r s1 [-> Hl1]. cbn beta iota.
  set (des := drop (Z.to_nat pos) (all_entries f)) in *.
  assert (length des = length calls - Z.to_nat pos)%nat as Hdes by (unfold des, all_entries; by rewrite length_drop length_fmap).
  destruct (decide (Z.to_nat pos < length calls)%nat) as [Hlt|Hge].
  - destruct (fit_nonempty_entry f pos Hlt ltac:(lia)) as (k & Hk & Hfit). fold des in Hfit, Hk. rewrite Hfit.
    apply (scan_step fuel s1 f pos k); [lia|fold des; lia|done|lia|]. fold des. intros _.
    eapply wp_mono; [apply IH; [done|lia|lia]|]. intros r s2 ->. cbn. f_equal.
    rewrite -fmap_app. f_equal. rewrite -{2}(take_drop k (number pos des)) drop_number. f_equal. f_equal.
    unfold des. rewrite drop_drop. f_equal. lia.
  - assert (des = []) as -> by (apply length_zero_iff_nil; lia). by apply wp_ret.
Qed.

Lemma scan_wp s :
  contents_ok (ds_dh s) -> dh_nodeid (ds_dh s) = ino -> I (ds_fuse s) ->
  wp (scan (S (length calls)) 0) (fun r _ => r = Some (entry_view <$> number 0 (all_entries (ds_fuse s)))) s.
Proof.
  intros Hco Hid HI. cbn [scan]. apply wp_bind. eapply wp_mono; [by apply request_first|].
  intros r s1 [-> Hl]. cbn beta iota. set (f := ds_fuse s) in *.
  destruct (decide (calls = [])) as [Hc|Hc].
  { unfold all_entries. rewrite Hc. by apply wp_ret. }
  assert (0 < length calls)%nat as Hlen by (destruct calls; [done|cbn; lia]).
  destruct (fit_nonempty_entry f 0 ltac:(lia) ltac:(lia)) as (k & Hk & Hfit). rewrite /= drop_0 in Hfit, Hk. rewrite Hfit.
  assert (length (all_entries f) = length calls) as Hal by by rewrite length_fmap.
  apply (scan_step (length calls) s1 f 0 k); rewrite /= ?drop_0; [lia|lia|done|lia|]. intros _.
  eapply wp_mono; [apply (scan_later f); [auto|lia|lia]|]. intros r s2 ->. cbn. f_equal.
  rewrite -fmap_app. f_equal. rewrite -{2}(take_drop k (number 0 (all_entries f))) drop_number. repeat f_equal; lia.
Qed.
End scan.

(** C13: a directory of a file system that passes no offsets is read completely by
    plain READDIR requests (no READDIRPLUS) when no allocation fails:
    asking for [size] bytes from offset 0 and going on from the offset of the last
    entry returns every entry exactly once and in order, with offsets 1, 2, 3, ...,
    however the entries are cut into replies, and the scan ends with an empty
    reply.  Every entry fits into [size] bytes, the listing is the same throughout, and
    [I] holds in the states in which the path of the directory can be taken. *)
Theorem readdir_scan_complete clock conf calls dir_path dir_free_path ino size (I : fuse -> Prop) s :
  (forall f k, I f -> I (set_tick f k)) ->
  (forall f, I f -> exists path f', dir_path ino f = Ok ((0, path), f') /\ I f' /\
     forall nm, lookup_nodeid f' ino nm = lookup_nodeid f ino nm) ->
  (forall f path, I f -> exists f', dir_free_path ino path f = Ok (tt, f') /\ I f') ->
  0 <= size <= UINT_MAX -> Z.of_nat (length calls) < 2 ^ 63 ->
  Forall (fun c : cstring * option stat =>
    FUSE_DIRENT_ALIGN (FUSE_NAME_OFFSET + strlen c.1) <= size /\
    size + FUSE_DIRENT_ALIGN (FUSE_NAME_OFFSET + strlen c.1) <= UINT_MAX) calls ->
  contents_ok (ds_dh s) -> dh_nodeid (ds_dh s) = ino -> I (ds_fuse s) ->
  exists s', scan clock conf calls dir_path dir_free_path ino size (S (length calls)) 0 s =
    Ok (Some (entry_view <$> number 0 (listed conf (ds_fuse s) ino <$> calls)), s').
Proof.
  intros Ht Hp Hf Hs Hc Hn Hco Hid HI.
  destruct (wp_Ok _ _ _ (scan_wp clock conf calls dir_path dir_free_path ino size I Ht Hp Hf Hs Hc Hn s Hco Hid HI))
    as (r & s' & Hrun & ->). by exists s'.
Qed.

Definition sample_dir_path : Z -> M fuse (Z * option cstring) := fun _ => mret (0, None).
Definition sample_dir_free_path : Z -> option cstring -> M fuse unit := fun _ _ => mret tt.

Definition sample_conf : fuse_config :=
  mkConf false 0 false 0 false 0 0 0 (f64_of_Z 1) (f64_of_Z 0) (f64_of_Z 1) 0
         false false true false false false false false false.

Lemma readdir_scan_complete_witness : exists s',
  scan (fun _ => 0) sample_conf [(lit "a", None); (lit "b", None); (lit "c", None)]
    sample_dir_path sample_dir_free_path FUSE_ROOT_ID 64 4 0 (mkDirst sample_fuse (dh_new FUSE_ROOT_ID)) =
  Ok (Some [mkDirent 2 1 0 (lit "a"); mkDirent FUSE_UNKNOWN_INO 2 0 (lit "b"); mkDirent FUSE_UNKNOWN_INO 3 0 (lit "c")], s').
Proof.
  destruct (readdir_scan_complete (fun _ => 0) sample_conf [(lit "a", None); (lit "b", None); (lit "c", None)]
    sample_dir_path sample_dir_free_path FUSE_ROOT_ID 64 (fun _ => True) (mkDirst sample_fuse (dh_new FUSE_ROOT_ID)))
    as [s' Hs].
  - auto.
  - intros f _. exists None, f. split; [reflexivity|split; [exact I|reflexivity]].
  - intros f path _. exists f. split; [reflexivity|exact I].
  - unfold UINT_MAX. lia.
  - vm_compute. reflexivity.
  - repeat constructor; vm_compute; discriminate.
  - split; vm_compute; reflexivity.
  - reflexivity.
  - exact I.
  - exists s'. rewrite Hs. do 2 f_equal.
Defined.

(** ** Two defects of READDIRPLUS *)

(** A file system that gives attributes with every entry. *)
Fixpoint fs_list_plus (names : list cstring) (fill : filler) (off flags : Z) : M dirst Z :=
  match names with
  | [] => mret 0
  | name :: names =>
    r ← fill name (Some stat_zero) 0 FUSE_FILL_DIR_PLUS;
    if truth r then mret 0 else fs_list_plus names fill off flags
  end.

Definition readdirplus_run (alloc_ok : nat -> bool) (size : Z) : outcome (dir_reply * dirst) :=
  fuse_readdir_common alloc_ok (fun _ => 0) sample_conf (fs_list_plus [lit "a"; lit "b"])
    sample_dir_path sample_dir_free_path FUSE_ROOT_ID size 0 FUSE_READDIR_PLUS
    (mkDirst (fuse_init true) (dh_new FUSE_ROOT_ID)).

(** The reply, and the lookup count the library has for an entry. *)
Definition readdirplus_view (alloc_ok : nat -> bool) (size : Z) (name : cstring)
  : option (dir_reply * option Z) :=
  match readdirplus_run alloc_ok size with
  | Ok (r, s) =>
    Some (r, n ← lookup_node (ds_fuse s) FUSE_ROOT_ID name; nd ← nodes (ds_fuse s) !! n; Some (nlookup nd))
  | _ => None
  end.

(** an entry that does not fit the READDIRPLUS reply has been looked up all
    the same: with room for one of two entries, the reply holds only the first,
    yet the library counts a lookup of the second that the kernel never learns
    of and so never forgets. *)
Theorem readdirplus_leaks_lookup :
  exists bytes, readdirplus_view (fun _ => true) 200 (lit "b") = Some (Reply_buf bytes, Some 1) /\
    length bytes = 160%nat.
Proof. eexists. split; vm_compute; reflexivity. Qed.

(** when the lookup of an entry fails for want of memory, the READDIRPLUS
    request is answered with [1] and not with [-ENOMEM]. *)
Theorem readdirplus_lookup_error_lost :
  (fun x => x.1) <$> readdirplus_view (fun k => Nat.ltb k 6) 200 (lit "b") = Some (Reply_err 1).
Proof. vm_compute. reflexivity. Qed.
