(* ===== verification/Request.v ===== *)
(** * Requests and replies ([lib/fuse_lowlevel.c])

    The session keeps the requests it has received and not yet answered: those
    the file system works on ([se->list]) and interrupts that arrived before
    their request ([se->interrupts]).  This file models the request structure
    with its reference count, the lists, and every function that answers a
    request. *)
From S2P Require Import Prelude Wire.

(** ** State *)

Record fuse_ctx := mkCtx { ctx_uid : Z; ctx_gid : Z; ctx_pid : Z; ctx_umask : Z }.

(** [struct fuse_req].  The union is its first eight bytes: [u.i.unique] of an
    interrupt request, [u.ni.func] (0 for [NULL]) of any other. *)
Record fuse_req := mkReq {
  rq_unique : Z;
  rq_ref_cnt : Z;
  rq_ctx : fuse_ctx;
  rq_ch : bool;            (** holds a reference to a channel *)
  rq_interrupted : bool;
  rq_u : Z;
}.

Definition set_ref_cnt (r : fuse_req) v := mkReq (rq_unique r) v (rq_ctx r) (rq_ch r) (rq_interrupted r) (rq_u r).
Definition set_ctx (r : fuse_req) v := mkReq (rq_unique r) (rq_ref_cnt r) v (rq_ch r) (rq_interrupted r) (rq_u r).
Definition set_ch (r : fuse_req) v := mkReq (rq_unique r) (rq_ref_cnt r) (rq_ctx r) v (rq_interrupted r) (rq_u r).
Definition set_interrupted (r : fuse_req) v := mkReq (rq_unique r) (rq_ref_cnt r) (rq_ctx r) (rq_ch r) v (rq_u r).
Definition set_u (r : fuse_req) v := mkReq (rq_unique r) (rq_ref_cnt r) (rq_ctx r) (rq_ch r) (rq_interrupted r) v.

(** A message written to the device: the request it answers (none for a
    notification), [struct fuse_out_header] and the payload. *)
Record out_msg := mkMsg {
  om_req : option Z;
  om_unique : Z;
  om_error : Z;
  om_data : list Z;
}.

(** [struct fuse_conn_info]: what INIT negotiates. *)
Record fuse_conn_info := mkConn {
  ci_proto_major : Z;
  ci_proto_minor : Z;
  ci_max_write : Z;
  ci_max_read : Z;
  ci_max_readahead : Z;
  ci_capable : Z;
  ci_want : Z;
  ci_max_background : Z;
  ci_congestion_threshold : Z;
  ci_time_gran : Z;
  ci_max_backing_stack_depth : Z;
  ci_no_interrupt : bool;
  ci_capable_ext : Z;
  ci_want_ext : Z;
}.
Definition set_ci_proto_major (c : fuse_conn_info) v :=
  mkConn v (ci_proto_minor c) (ci_max_write c) (ci_max_read c) (ci_max_readahead c) (ci_capable c) (ci_want c) (ci_max_background c) (ci_congestion_threshold c) (ci_time_gran c) (ci_max_backing_stack_depth c) (ci_no_interrupt c) (ci_capable_ext c) (ci_want_ext c).
Definition set_ci_proto_minor (c : fuse_conn_info) v :=
  mkConn (ci_proto_major c) v (ci_max_write c) (ci_max_read c) (ci_max_readahead c) (ci_capable c) (ci_want c) (ci_max_background c) (ci_congestion_threshold c) (ci_time_gran c) (ci_max_backing_stack_depth c) (ci_no_interrupt c) (ci_capable_ext c) (ci_want_ext c).
Definition set_ci_max_write (c : fuse_conn_info) v :=
  mkConn (ci_proto_major c) (ci_proto_minor c) v (ci_max_read c) (ci_max_readahead c) (ci_capable c) (ci_want c) (ci_max_background c) (ci_congestion_threshold c) (ci_time_gran c) (ci_max_backing_stack_depth c) (ci_no_interrupt c) (ci_capable_ext c) (ci_want_ext c).
Definition set_ci_max_read (c : fuse_conn_info) v :=
  mkConn (ci_proto_major c) (ci_proto_minor c) (ci_max_write c) v (ci_max_readahead c) (ci_capable c) (ci_want c) (ci_max_background c) (ci_congestion_threshold c) (ci_time_gran c) (ci_max_backing_stack_depth c) (ci_no_interrupt c) (ci_capable_ext c) (ci_want_ext c).
Definition set_ci_max_readahead (c : fuse_conn_info) v :=
  mkConn (ci_proto_major c) (ci_proto_minor c) (ci_max_write c) (ci_max_read c) v (ci_capable c) (ci_want c) (ci_max_background c) (ci_congestion_threshold c) (ci_time_gran c) (ci_max_backing_stack_depth c) (ci_no_interrupt c) (ci_capable_ext c) (ci_want_ext c).
Definition set_ci_capable (c : fuse_conn_info) v :=
  mkConn (ci_proto_major c) (ci_proto_minor c) (ci_max_write c) (ci_max_read c) (ci_max_readahead c) v (ci_want c) (ci_max_background c) (ci_congestion_threshold c) (ci_time_gran c) (ci_max_backing_stack_depth c) (ci_no_interrupt c) (ci_capable_ext c) (ci_want_ext c).
Definition set_ci_want (c : fuse_conn_info) v :=
  mkConn (ci_proto_major c) (ci_proto_minor c) (ci_max_write c) (ci_max_read c) (ci_max_readahead c) (ci_capable c) v (ci_max_background c) (ci_congestion_threshold c) (ci_time_gran c) (ci_max_backing_stack_depth c) (ci_no_interrupt c) (ci_capable_ext c) (ci_want_ext c).
Definition set_ci_max_background (c : fuse_conn_info) v :=
  mkConn (ci_proto_major c) (ci_proto_minor c) (ci_max_write c) (ci_max_read c) (ci_max_readahead c) (ci_capable c) (ci_want c) v (ci_congestion_threshold c) (ci_time_gran c) (ci_max_backing_stack_depth c) (ci_no_interrupt c) (ci_capable_ext c) (ci_want_ext c).
Definition set_ci_congestion_threshold (c : fuse_conn_info) v :=
  mkConn (ci_proto_major c) (ci_proto_minor c) (ci_max_write c) (ci_max_read c) (ci_max_readahead c) (ci_capable c) (ci_want c) (ci_max_background c) v (ci_time_gran c) (ci_max_backing_stack_depth c) (ci_no_interrupt c) (ci_capable_ext c) (ci_want_ext c).
Definition set_ci_time_gran (c : fuse_conn_info) v :=
  mkConn (ci_proto_major c) (ci_proto_minor c) (ci_max_write c) (ci_max_read c) (ci_max_readahead c) (ci_capable c) (ci_want c) (ci_max_background c) (ci_congestion_threshold c) v (ci_max_backing_stack_depth c) (ci_no_interrupt c) (ci_capable_ext c) (ci_want_ext c).
Definition set_ci_max_backing_stack_depth (c : fuse_conn_info) v :=
  mkConn (ci_proto_major c) (ci_proto_minor c) (ci_max_write c) (ci_max_read c) (ci_max_readahead c) (ci_capable c) (ci_want c) (ci_max_background c) (ci_congestion_threshold c) (ci_time_gran c) v (ci_no_interrupt c) (ci_capable_ext c) (ci_want_ext c).
Definition set_ci_no_interrupt (c : fuse_conn_info) v :=
  mkConn (ci_proto_major c) (ci_proto_minor c) (ci_max_write c) (ci_max_read c) (ci_max_readahead c) (ci_capable c) (ci_want c) (ci_max_background c) (ci_congestion_threshold c) (ci_time_gran c) (ci_max_backing_stack_depth c) v (ci_capable_ext c) (ci_want_ext c).
Definition set_ci_capable_ext (c : fuse_conn_info) v :=
  mkConn (ci_proto_major c) (ci_proto_minor c) (ci_max_write c) (ci_max_read c) (ci_max_readahead c) (ci_capable c) (ci_want c) (ci_max_background c) (ci_congestion_threshold c) (ci_time_gran c) (ci_max_backing_stack_depth c) (ci_no_interrupt c) v (ci_want_ext c).
Definition set_ci_want_ext (c : fuse_conn_info) v :=
  mkConn (ci_proto_major c) (ci_proto_minor c) (ci_max_write c) (ci_max_read c) (ci_max_readahead c) (ci_capable c) (ci_want c) (ci_max_background c) (ci_congestion_threshold c) (ci_time_gran c) (ci_max_backing_stack_depth c) (ci_no_interrupt c) (ci_capable_ext c) v.

(** The session; [C] are the calls to the file system's operations. *)
Record session (C : Type) := mkSession {
  se_reqs : gmap Z fuse_req;   (** the requests in memory, by address *)
  se_next : Z;   (** the next address *)
  se_list : list Z;
  se_interrupts : list Z;
  se_got_init : bool;
  se_got_destroy : bool;
  se_conn : fuse_conn_info;
  se_bufsize : Z;
  se_error : Z;
  se_exited : bool;
  se_buf_reallocable : bool;
  se_conn_want : Z;   (** the wanted flags libfuse set itself, *)
  se_conn_want_ext : Z;   (** and the 64-bit ones *)
  se_notify : list Z;   (** the uniques of [notify_list] *)
  se_notify_ctr : Z;
  se_out : list out_msg;   (** what has been written, oldest first *)
  se_calls : list (Z * C);   (** what the file system was asked to do *)
  se_held : list Z;   (** requests the file system has to answer *)
  se_tick : nat;
}.
Arguments mkSession {C} _ _ _ _ _ _ _ _ _ _ _ _ _ _ _ _ _ _ _.
Arguments se_reqs {C} _.
Arguments se_next {C} _.
Arguments se_list {C} _.
Arguments se_interrupts {C} _.
Arguments se_got_init {C} _.
Arguments se_got_destroy {C} _.
Arguments se_conn {C} _.
Arguments se_bufsize {C} _.
Arguments se_error {C} _.
Arguments se_exited {C} _.
Arguments se_buf_reallocable {C} _.
Arguments se_conn_want {C} _.
Arguments se_conn_want_ext {C} _.
Arguments se_notify {C} _.
Arguments se_notify_ctr {C} _.
Arguments se_out {C} _.
Arguments se_calls {C} _.
Arguments se_held {C} _.
Arguments se_tick {C} _.

Section setters.
Context {C : Type}.
Definition set_reqs (s : session C) v :=
  mkSession v (se_next s) (se_list s) (se_interrupts s) (se_got_init s) (se_got_destroy s) (se_conn s) (se_bufsize s) (se_error s) (se_exited s) (se_buf_reallocable s) (se_conn_want s) (se_conn_want_ext s) (se_notify s) (se_notify_ctr s) (se_out s) (se_calls s) (se_held s) (se_tick s).
Definition set_next (s : session C) v :=
  mkSession (se_reqs s) v (se_list s) (se_interrupts s) (se_got_init s) (se_got_destroy s) (se_conn s) (se_bufsize s) (se_error s) (se_exited s) (se_buf_reallocable s) (se_conn_want s) (se_conn_want_ext s) (se_notify s) (se_notify_ctr s) (se_out s) (se_calls s) (se_held s) (se_tick s).
Definition set_list (s : session C) v :=
  mkSession (se_reqs s) (se_next s) v (se_interrupts s) (se_got_init s) (se_got_destroy s) (se_conn s) (se_bufsize s) (se_error s) (se_exited s) (se_buf_reallocable s) (se_conn_want s) (se_conn_want_ext s) (se_notify s) (se_notify_ctr s) (se_out s) (se_calls s) (se_held s) (se_tick s).
Definition set_interrupts (s : session C) v :=
  mkSession (se_reqs s) (se_next s) (se_list s) v (se_got_init s) (se_got_destroy s) (se_conn s) (se_bufsize s) (se_error s) (se_exited s) (se_buf_reallocable s) (se_conn_want s) (se_conn_want_ext s) (se_notify s) (se_notify_ctr s) (se_out s) (se_calls s) (se_held s) (se_tick s).
Definition set_got_init (s : session C) v :=
  mkSession (se_reqs s) (se_next s) (se_list s) (se_interrupts s) v (se_got_destroy s) (se_conn s) (se_bufsize s) (se_error s) (se_exited s) (se_buf_reallocable s) (se_conn_want s) (se_conn_want_ext s) (se_notify s) (se_notify_ctr s) (se_out s) (se_calls s) (se_held s) (se_tick s).
Definition set_got_destroy (s : session C) v :=
  mkSession (se_reqs s) (se_next s) (se_list s) (se_interrupts s) (se_got_init s) v (se_conn s) (se_bufsize s) (se_error s) (se_exited s) (se_buf_reallocable s) (se_conn_want s) (se_conn_want_ext s) (se_notify s) (se_notify_ctr s) (se_out s) (se_calls s) (se_held s) (se_tick s).
Definition set_conn (s : session C) v :=
  mkSession (se_reqs s) (se_next s) (se_list s) (se_interrupts s) (se_got_init s) (se_got_destroy s) v (se_bufsize s) (se_error s) (se_exited s) (se_buf_reallocable s) (se_conn_want s) (se_conn_want_ext s) (se_notify s) (se_notify_ctr s) (se_out s) (se_calls s) (se_held s) (se_tick s).
Definition set_bufsize (s : session C) v :=
  mkSession (se_reqs s) (se_next s) (se_list s) (se_interrupts s) (se_got_init s) (se_got_destroy s) (se_conn s) v (se_error s) (se_exited s) (se_buf_reallocable s) (se_conn_want s) (se_conn_want_ext s) (se_notify s) (se_notify_ctr s) (se_out s) (se_calls s) (se_held s) (se_tick s).
Definition set_se_error (s : session C) v :=
  mkSession (se_reqs s) (se_next s) (se_list s) (se_interrupts s) (se_got_init s) (se_got_destroy s) (se_conn s) (se_bufsize s) v (se_exited s) (se_buf_reallocable s) (se_conn_want s) (se_conn_want_ext s) (se_notify s) (se_notify_ctr s) (se_out s) (se_calls s) (se_held s) (se_tick s).
Definition set_exited (s : session C) v :=
  mkSession (se_reqs s) (se_next s) (se_list s) (se_interrupts s) (se_got_init s) (se_got_destroy s) (se_conn s) (se_bufsize s) (se_error s) v (se_buf_reallocable s) (se_conn_want s) (se_conn_want_ext s) (se_notify s) (se_notify_ctr s) (se_out s) (se_calls s) (se_held s) (se_tick s).
Definition set_buf_reallocable (s : session C) v :=
  mkSession (se_reqs s) (se_next s) (se_list s) (se_interrupts s) (se_got_init s) (se_got_destroy s) (se_conn s) (se_bufsize s) (se_error s) (se_exited s) v (se_conn_want s) (se_conn_want_ext s) (se_notify s) (se_notify_ctr s) (se_out s) (se_calls s) (se_held s) (se_tick s).
Definition set_conn_want (s : session C) v :=
  mkSession (se_reqs s) (se_next s) (se_list s) (se_interrupts s) (se_got_init s) (se_got_destroy s) (se_conn s) (se_bufsize s) (se_error s) (se_exited s) (se_buf_reallocable s) v (se_conn_want_ext s) (se_notify s) (se_notify_ctr s) (se_out s) (se_calls s) (se_held s) (se_tick s).
Definition set_conn_want_ext (s : session C) v :=
  mkSession (se_reqs s) (se_next s) (se_list s) (se_interrupts s) (se_got_init s) (se_got_destroy s) (se_conn s) (se_bufsize s) (se_error s) (se_exited s) (se_buf_reallocable s) (se_conn_want s) v (se_notify s) (se_notify_ctr s) (se_out s) (se_calls s) (se_held s) (se_tick s).
Definition set_notify (s : session C) v :=
  mkSession (se_reqs s) (se_next s) (se_list s) (se_interrupts s) (se_got_init s) (se_got_destroy s) (se_conn s) (se_bufsize s) (se_error s) (se_exited s) (se_buf_reallocable s) (se_conn_want s) (se_conn_want_ext s) v (se_notify_ctr s) (se_out s) (se_calls s) (se_held s) (se_tick s).
Definition set_notify_ctr (s : session C) v :=
  mkSession (se_reqs s) (se_next s) (se_list s) (se_interrupts s) (se_got_init s) (se_got_destroy s) (se_conn s) (se_bufsize s) (se_error s) (se_exited s) (se_buf_reallocable s) (se_conn_want s) (se_conn_want_ext s) (se_notify s) v (se_out s) (se_calls s) (se_held s) (se_tick s).
Definition set_out (s : session C) v :=
  mkSession (se_reqs s) (se_next s) (se_list s) (se_interrupts s) (se_got_init s) (se_got_destroy s) (se_conn s) (se_bufsize s) (se_error s) (se_exited s) (se_buf_reallocable s) (se_conn_want s) (se_conn_want_ext s) (se_notify s) (se_notify_ctr s) v (se_calls s) (se_held s) (se_tick s).
Definition set_calls (s : session C) (v : list (Z * C)) :=
  mkSession (se_reqs s) (se_next s) (se_list s) (se_interrupts s) (se_got_init s) (se_got_destroy s) (se_conn s) (se_bufsize s) (se_error s) (se_exited s) (se_buf_reallocable s) (se_conn_want s) (se_conn_want_ext s) (se_notify s) (se_notify_ctr s) (se_out s) v (se_held s) (se_tick s).
Definition set_held (s : session C) v :=
  mkSession (se_reqs s) (se_next s) (se_list s) (se_interrupts s) (se_got_init s) (se_got_destroy s) (se_conn s) (se_bufsize s) (se_error s) (se_exited s) (se_buf_reallocable s) (se_conn_want s) (se_conn_want_ext s) (se_notify s) (se_notify_ctr s) (se_out s) (se_calls s) v (se_tick s).
Definition set_se_tick (s : session C) v :=
  mkSession (se_reqs s) (se_next s) (se_list s) (se_interrupts s) (se_got_init s) (se_got_destroy s) (se_conn s) (se_bufsize s) (se_error s) (se_exited s) (se_buf_reallocable s) (se_conn_want s) (se_conn_want_ext s) (se_notify s) (se_notify_ctr s) (se_out s) (se_calls s) (se_held s) v.
End setters.

Section ops.
Context {C : Type}.
Abbreviation MS := (M (session C)).
(** The environment: whether the [i]-th allocation succeeds, what the [i]-th
    [writev] on the device fails with (0 for success), and which negative error
    numbers have a name ([strerrordesc_np]). *)
Context (alloc_ok : nat -> bool) (send_errno : nat -> Z) (known_errno : Z -> bool).

Definition se_alloc : MS bool :=
  fun s => Ok (alloc_ok (se_tick s), set_se_tick s (S (se_tick s))).

(** Reading and writing a request through its pointer. *)
Definition req_get (r : Z) : MS fuse_req :=
  fun s => match se_reqs s !! r with Some q => Ok (q, s) | None => Abort end.
Definition req_set (r : Z) (g : fuse_req -> fuse_req) : MS unit :=
  fun s => match se_reqs s !! r with
           | Some q => Ok (tt, set_reqs s (<[r := g q]> (se_reqs s)))
           | None => Abort
           end.

(** [list_del_req]: the request leaves the list it is linked into. *)
Definition list_del_req (r : Z) : MS unit :=
  modify (fun s => set_interrupts (set_list s (filter (fun x => x <> r) (se_list s)))
                                  (filter (fun x => x <> r) (se_interrupts s))).

(** [list_add_req(req, &se->list)] and [list_add_req(req, &se->interrupts)]: at
    the end. *)
Definition list_add_req (r : Z) : MS unit := modify (fun s => set_list s (se_list s ++ [r])).
Definition list_add_interrupt (r : Z) : MS unit :=
  modify (fun s => set_interrupts s (se_interrupts s ++ [r])).

Definition destroy_req (r : Z) : MS unit :=
  q ← req_get r;
  assert (negb (rq_ch q));;
  modify (fun s => set_reqs s (delete r (se_reqs s))).

Definition fuse_free_req (r : Z) : MS unit :=
  s ← get;
  (if ci_no_interrupt (se_conn s) then
     req_set r (fun q => set_ch (set_ref_cnt q (rq_ref_cnt q - 1)) false)
   else
     req_set r (fun q => set_u q 0);;
     list_del_req r;;
     req_set r (fun q => set_ch (set_ref_cnt q (rq_ref_cnt q - 1)) false));;
  q ← req_get r;
  if rq_ref_cnt q =? 0 then destroy_req r else mret tt.

Definition fuse_ll_alloc_req : MS (option Z) :=
  ok ← se_alloc;
  if negb ok then mret None
  else
    s ← get;
    let r := se_next s in
    put (set_next (set_reqs s (<[r := mkReq 0 1 (mkCtx 0 0 0 0) false false 0]> (se_reqs s))) (r + 1));;
    mret (Some r).

(** [fuse_send_msg]: 0, or the negated [errno] of [writev]. *)
Definition fuse_send_msg (msg : out_msg) : MS Z :=
  fun s => Ok (- send_errno (se_tick s),
               set_se_tick (set_out s (se_out s ++ [msg])) (S (se_tick s))).

(** An error that is positive or has no name becomes [-ERANGE]. *)
Definition checked_error (error : Z) : Z :=
  if (negb (known_errno (error * -1)) && negb (error =? 0)) || (0 <? error) then - ERANGE else error.

Definition fuse_send_reply_iov_nofree (r error : Z) (data : list Z) : MS Z :=
  q ← req_get r;
  fuse_send_msg (mkMsg (Some r) (rq_unique q) (checked_error error) data).

Definition send_reply_iov (r error : Z) (data : list Z) : MS Z :=
  res ← fuse_send_reply_iov_nofree r error data;
  fuse_free_req r;;
  mret res.

Definition send_reply (r error : Z) (arg : list Z) : MS Z := send_reply_iov r error arg.
Definition send_reply_ok (r : Z) (arg : list Z) : MS Z := send_reply r 0 arg.
Definition fuse_reply_err (r err : Z) : MS Z := send_reply r (- err) [].
Definition fuse_reply_none (r : Z) : MS unit := fuse_free_req r.

Definition fuse_reply_iov (r : Z) (iov : list (list Z)) : MS Z :=
  ok ← se_alloc;
  if negb ok then fuse_reply_err r ENOMEM
  else send_reply_iov r 0 (concat iov).

Definition FUSE_COMPAT_ENTRY_OUT_SIZE : Z := 120.
Definition FUSE_COMPAT_ATTR_OUT_SIZE : Z := 96.
Definition FUSE_COMPAT_STATFS_SIZE : Z := 48.

Definition fuse_reply_entry (r : Z) (e : fuse_entry_param) : MS Z :=
  s ← get;
  let size := if ci_proto_minor (se_conn s) <? 9 then FUSE_COMPAT_ENTRY_OUT_SIZE else 128 in
  if (e_ino e =? 0) && (ci_proto_minor (se_conn s) <? 4) then fuse_reply_err r ENOENT
  else send_reply_ok r (take (Z.to_nat size) (encode_entry_out (fill_entry e))).

(** The open part overwrites the tail of a 128-byte entry when the protocol has
    the shorter one. *)
Definition fuse_reply_create (r : Z) (e : fuse_entry_param) (f : fuse_file_info) : MS Z :=
  s ← get;
  let entrysize := if ci_proto_minor (se_conn s) <? 9 then FUSE_COMPAT_ENTRY_OUT_SIZE else 128 in
  let oarg := encode_open_out (fill_open f) in
  send_reply_ok r (take (Z.to_nat entrysize) (encode_entry_out (fill_entry e)) ++ oarg).

(** [struct fuse_attr_out]. *)
Definition fuse_reply_attr (r : Z) (attr : stat) (attr_timeout : double) : MS Z :=
  s ← get;
  let size := if ci_proto_minor (se_conn s) <? 9 then FUSE_COMPAT_ATTR_OUT_SIZE else 104 in
  send_reply_ok r (take (Z.to_nat size)
    (le 8 (calc_timeout_sec attr_timeout) ++ le 4 (calc_timeout_nsec attr_timeout) ++ le 4 0 ++
     encode_attr (convert_stat attr))).

Definition fuse_reply_readlink (r : Z) (linkname : cstring) : MS Z := send_reply_ok r (bytes_of linkname).

Definition fuse_reply_open (r : Z) (f : fuse_file_info) : MS Z :=
  send_reply_ok r (encode_open_out (fill_open f)).

Definition fuse_reply_write (r count : Z) : MS Z := send_reply_ok r (le 4 (u32 count) ++ le 4 0).
Definition fuse_reply_buf (r : Z) (buf : list Z) : MS Z := send_reply_ok r buf.

Definition fuse_reply_statfs (r : Z) (stbuf : statvfs) : MS Z :=
  s ← get;
  let size := if ci_proto_minor (se_conn s) <? 4 then FUSE_COMPAT_STATFS_SIZE else 80 in
  send_reply_ok r (take (Z.to_nat size) (encode_kstatfs (convert_statfs stbuf))).

Definition fuse_reply_xattr (r count : Z) : MS Z := send_reply_ok r (le 4 (u32 count) ++ le 4 0).

Definition F_RDLCK : Z := 0.
Definition F_WRLCK : Z := 1.
Definition F_UNLCK : Z := 2.

(** [struct flock]: type, start, length, pid. *)
Definition fuse_reply_lock (r l_type l_start l_len l_pid : Z) : MS Z :=
  let start := if l_type =? F_UNLCK then 0 else l_start in
  let end_ := if l_type =? F_UNLCK then 0
              else if l_len =? 0 then OFFSET_MAX else l_start + l_len - 1 in
  send_reply_ok r (le 8 start ++ le 8 end_ ++ le 4 l_type ++ le 4 l_pid).

Definition fuse_reply_bmap (r idx : Z) : MS Z := send_reply_ok r (le 8 idx).

Definition FUSE_IOCTL_RETRY : Z := 4.

(** [struct fuse_ioctl_out]. *)
Definition ioctl_out (result flags in_iovs out_iovs : Z) : list Z :=
  le 4 result ++ le 4 flags ++ le 4 in_iovs ++ le 4 out_iovs.

(** An iovec as base and length; on a 64-bit machine [struct iovec] and
    [struct fuse_ioctl_iovec] have the same layout. *)
Definition iov_bytes (iov : list (Z * Z)) : list Z := iov ≫= (fun '(base, len) => le 8 base ++ le 8 len).

Definition fuse_ioctl_iovec_copy (iov : list (Z * Z)) : MS (option (list Z)) :=
  ok ← se_alloc;
  mret (if ok then Some (iov_bytes iov) else None).

Definition fuse_reply_ioctl_retry (r : Z) (in_iov out_iov : list (Z * Z)) : MS Z :=
  s ← get;
  let arg := ioctl_out 0 FUSE_IOCTL_RETRY (Z.of_nat (length in_iov)) (Z.of_nat (length out_iov)) in
  if ci_proto_minor (se_conn s) <? 16 then send_reply_iov r 0 (arg ++ iov_bytes in_iov ++ iov_bytes out_iov)
  else
    i ← (match in_iov with [] => mret (Some []) | _ => fuse_ioctl_iovec_copy in_iov end);
    match i with
    | None => fuse_reply_err r ENOMEM
    | Some i =>
      o ← (match out_iov with [] => mret (Some []) | _ => fuse_ioctl_iovec_copy out_iov end);
      match o with
      | None => fuse_reply_err r ENOMEM
      | Some o => send_reply_iov r 0 (arg ++ i ++ o)
      end
    end.

Definition fuse_reply_ioctl (r result : Z) (buf : list Z) : MS Z :=
  send_reply_iov r 0 (ioctl_out result 0 0 0 ++ buf).

Definition fuse_reply_ioctl_iov (r result : Z) (iov : list (list Z)) : MS Z :=
  ok ← se_alloc;
  if negb ok then fuse_reply_err r ENOMEM
  else send_reply_iov r 0 (ioctl_out result 0 0 0 ++ concat iov).

Definition fuse_reply_poll (r revents : Z) : MS Z := send_reply_ok r (le 4 revents ++ le 4 0).
Definition fuse_reply_lseek (r off : Z) : MS Z := send_reply_ok r (le 8 off).

(** Handing a request to the file system. *)
Definition call_op (r : Z) (c : C) : MS unit :=
  modify (fun s => set_held (set_calls s (se_calls s ++ [(r, c)])) (se_held s ++ [r])).

(** Telling it something that needs no answer. *)
Definition log_op (r : Z) (c : C) : MS unit :=
  modify (fun s => set_calls s (se_calls s ++ [(r, c)])).
End ops.
