(* ===== verification/Handlers.v ===== *)
(** * Decoding requests ([lib/fuse_lowlevel.c], the [do_*] functions)

    One definition per request type: it reads the arguments out of the bytes that
    follow the header, at the offsets of the structures of
    [include/fuse_kernel.h], and calls the file system's operation, or answers by
    itself when the operation is missing. *)
From S2P Require Import Prelude Wire Request.

(** The operations of [struct fuse_lowlevel_ops]. *)
Inductive ll_op :=
  | op_destroy | op_lookup | op_forget | op_getattr | op_setattr | op_readlink | op_mknod | op_mkdir
  | op_unlink | op_rmdir | op_symlink | op_rename | op_link | op_open | op_read | op_write
  | op_flush | op_release | op_fsync | op_opendir | op_readdir | op_releasedir | op_fsyncdir
  | op_statfs | op_setxattr | op_getxattr | op_listxattr | op_removexattr | op_access
  | op_create | op_getlk | op_setlk | op_bmap | op_ioctl | op_poll | op_write_buf
  | op_retrieve_reply | op_forget_multi | op_flock | op_fallocate | op_readdirplus
  | op_copy_file_range | op_lseek | op_tmpfile.

(** A call of an operation with its arguments. *)
Inductive ll_call :=
  | Call_lookup (parent : Z) (name : cstring)
  | Call_forget (ino nlookup : Z)
  | Call_forget_multi (forgets : list (Z * Z))
  | Call_getattr (ino : Z) (fi : option fuse_file_info)
  | Call_setattr (ino : Z) (attr : stat) (valid : Z) (fi : option fuse_file_info)
  | Call_access (ino mask : Z)
  | Call_readlink (ino : Z)
  | Call_mknod (parent : Z) (name : cstring) (mode rdev : Z)
  | Call_mkdir (parent : Z) (name : cstring) (mode : Z)
  | Call_unlink (parent : Z) (name : cstring)
  | Call_rmdir (parent : Z) (name : cstring)
  | Call_symlink (link : cstring) (parent : Z) (name : cstring)
  | Call_rename (parent : Z) (name : cstring) (newparent : Z) (newname : cstring) (flags : Z)
  | Call_link (ino newparent : Z) (newname : cstring)
  | Call_tmpfile (parent mode : Z) (fi : fuse_file_info)
  | Call_create (parent : Z) (name : cstring) (mode : Z) (fi : fuse_file_info)
  | Call_open (ino : Z) (fi : fuse_file_info)
  | Call_read (ino size off : Z) (fi : fuse_file_info)
  | Call_write (ino : Z) (buf : list Z) (size off : Z) (fi : fuse_file_info)
  | Call_write_buf (ino : Z) (size off : Z) (fi : fuse_file_info)
  | Call_flush (ino : Z) (fi : fuse_file_info)
  | Call_release (ino : Z) (fi : fuse_file_info)
  | Call_fsync (ino datasync : Z) (fi : fuse_file_info)
  | Call_opendir (ino : Z) (fi : fuse_file_info)
  | Call_readdir (ino size off : Z) (fi : fuse_file_info)
  | Call_readdirplus (ino size off : Z) (fi : fuse_file_info)
  | Call_releasedir (ino : Z) (fi : fuse_file_info)
  | Call_fsyncdir (ino datasync : Z) (fi : fuse_file_info)
  | Call_statfs (ino : Z)
  | Call_setxattr (ino : Z) (name : cstring) (value : list Z) (size flags : Z)
  | Call_getxattr (ino : Z) (name : cstring) (size : Z)
  | Call_listxattr (ino size : Z)
  | Call_removexattr (ino : Z) (name : cstring)
  | Call_getlk (ino : Z) (fi : fuse_file_info) (l_type l_start l_len l_pid : Z)
  | Call_setlk (ino : Z) (fi : fuse_file_info) (l_type l_start l_len l_pid sleep : Z)
  | Call_flock (ino : Z) (fi : fuse_file_info) (op : Z)
  | Call_bmap (ino blocksize idx : Z)
  | Call_ioctl (ino cmd arg : Z) (fi : fuse_file_info) (flags : Z) (in_buf : list Z) (in_size out_size : Z)
  | Call_poll (ino : Z) (fi : fuse_file_info) (kh : option Z)
  | Call_fallocate (ino mode off len : Z) (fi : fuse_file_info)
  | Call_copy_file_range (ino_in off_in : Z) (fi_in : fuse_file_info) (ino_out off_out : Z)
      (fi_out : fuse_file_info) (len flags : Z)
  | Call_lseek (ino off whence : Z) (fi : fuse_file_info)
  | Call_retrieve_reply (ino off size : Z)
  | Call_destroy
  | Call_interrupt (func : Z).

(** [memset(&fi, 0, sizeof(fi))] and the assignments that follow it. *)
Definition fi_zero : fuse_file_info :=
  mkFi 0 false false false false false false false false false 0 0 0 0.
Definition set_fi_flags (f : fuse_file_info) v := mkFi v (fi_writepage f) (fi_direct_io f) (fi_keep_cache f) (fi_flush f) (fi_nonseekable f) (fi_flock_release f) (fi_cache_readdir f) (fi_noflush f) (fi_parallel_direct_writes f) (fi_fh f) (fi_lock_owner f) (fi_poll_events f) (fi_backing_id f).
Definition set_fi_writepage (f : fuse_file_info) v := mkFi (fi_flags f) v (fi_direct_io f) (fi_keep_cache f) (fi_flush f) (fi_nonseekable f) (fi_flock_release f) (fi_cache_readdir f) (fi_noflush f) (fi_parallel_direct_writes f) (fi_fh f) (fi_lock_owner f) (fi_poll_events f) (fi_backing_id f).
Definition set_fi_flush (f : fuse_file_info) v := mkFi (fi_flags f) (fi_writepage f) (fi_direct_io f) (fi_keep_cache f) v (fi_nonseekable f) (fi_flock_release f) (fi_cache_readdir f) (fi_noflush f) (fi_parallel_direct_writes f) (fi_fh f) (fi_lock_owner f) (fi_poll_events f) (fi_backing_id f).
Definition set_fi_flock_release (f : fuse_file_info) v := mkFi (fi_flags f) (fi_writepage f) (fi_direct_io f) (fi_keep_cache f) (fi_flush f) (fi_nonseekable f) v (fi_cache_readdir f) (fi_noflush f) (fi_parallel_direct_writes f) (fi_fh f) (fi_lock_owner f) (fi_poll_events f) (fi_backing_id f).
Definition set_fi_fh (f : fuse_file_info) v := mkFi (fi_flags f) (fi_writepage f) (fi_direct_io f) (fi_keep_cache f) (fi_flush f) (fi_nonseekable f) (fi_flock_release f) (fi_cache_readdir f) (fi_noflush f) (fi_parallel_direct_writes f) v (fi_lock_owner f) (fi_poll_events f) (fi_backing_id f).
Definition set_fi_lock_owner (f : fuse_file_info) v := mkFi (fi_flags f) (fi_writepage f) (fi_direct_io f) (fi_keep_cache f) (fi_flush f) (fi_nonseekable f) (fi_flock_release f) (fi_cache_readdir f) (fi_noflush f) (fi_parallel_direct_writes f) (fi_fh f) v (fi_poll_events f) (fi_backing_id f).
Definition set_fi_poll_events (f : fuse_file_info) v := mkFi (fi_flags f) (fi_writepage f) (fi_direct_io f) (fi_keep_cache f) (fi_flush f) (fi_nonseekable f) (fi_flock_release f) (fi_cache_readdir f) (fi_noflush f) (fi_parallel_direct_writes f) (fi_fh f) (fi_lock_owner f) v (fi_backing_id f).

(** Fields of the argument structure at a byte offset. *)
Definition u32_at (inarg : list Z) (off : nat) : Z := field inarg off 4.
Definition u64_at (inarg : list Z) (off : nat) : Z := field inarg off 8.
Definition s32_at (inarg : list Z) (off : nat) : Z := swrap 32 (field inarg off 4).
Definition s64_at (inarg : list Z) (off : nat) : Z := swrap 64 (field inarg off 8).

(** The C string at an offset, and the offset behind its terminator. *)
Definition str_at (inarg : list Z) (off : nat) : cstring := c_str (of_bytes (drop off inarg)).
Definition after_str (inarg : list Z) (off : nat) : nat := (off + length (str_at inarg off) + 1)%nat.

Definition FUSE_GETATTR_FH : Z := 1.
Definition FATTR_FH : Z := 64.
Definition FUSE_WRITE_CACHE : Z := 1.
Definition FUSE_RELEASE_FLUSH : Z := 1.
Definition FUSE_RELEASE_FLOCK_UNLOCK : Z := 2.
Definition FUSE_LK_FLOCK : Z := 1.
Definition FUSE_POLL_SCHEDULE_NOTIFY : Z := 1.
Definition FUSE_IOCTL_DIR : Z := 16.
(** [FUSE_SET_ATTR_MODE | ... | FUSE_SET_ATTR_CTIME], bits 0-5, 7, 8, 10, 11, 12. *)
Definition FUSE_SET_ATTR_ALL : Z := 1 + 2 + 4 + 8 + 16 + 32 + 128 + 256 + 1024 + 2048 + 4096.
Definition FUSE_CAP_IOCTL_DIR : Z := 2 ^ 11.
Definition FUSE_CAP_NO_OPEN_SUPPORT : Z := 2 ^ 17.
Definition FUSE_CAP_NO_OPENDIR_SUPPORT : Z := 2 ^ 24.
Definition FUSE_CAP_SETXATTR_EXT : Z := 2 ^ 27.
Definition LOCK_SH : Z := 1.
Definition LOCK_EX : Z := 2.
Definition LOCK_NB : Z := 4.
Definition LOCK_UN : Z := 8.

Section handlers.
Abbreviation MS := (M (session ll_call)).
Context (alloc_ok : nat -> bool) (send_errno : nat -> Z) (known_errno : Z -> bool).
(** Which operations the file system has. *)
Context (has_op : ll_op -> bool).

Definition reply_err (r err : Z) : MS unit := fuse_reply_err send_errno known_errno r err;; mret tt.
Definition reply_open (r : Z) (fi : fuse_file_info) : MS unit := fuse_reply_open send_errno known_errno r fi;; mret tt.

(** [if (op.x) op.x(...); else fuse_reply_err(req, ENOSYS);] *)
Definition op_or_enosys (r : Z) (o : ll_op) (c : ll_call) : MS unit :=
  if has_op o then call_op r c else reply_err r ENOSYS.

Definition do_lookup (r nodeid : Z) (inarg : list Z) : MS unit :=
  op_or_enosys r op_lookup (Call_lookup nodeid (str_at inarg 0)).

Definition do_forget (r nodeid : Z) (inarg : list Z) : MS unit :=
  if has_op op_forget then call_op r (Call_forget nodeid (u64_at inarg 0)) else fuse_reply_none r.

(** [struct fuse_forget_one] number [i]. *)
Definition forget_one (inarg : list Z) (i : nat) : Z * Z :=
  (u64_at inarg (8 + 16 * i), u64_at inarg (8 + 16 * i + 8)).

(** The loop of [do_batch_forget]: each node is forgotten with a request of its
    own. *)
Fixpoint batch_forget_loop (r : Z) (inarg : list Z) (count i : nat) : MS unit :=
  match count with
  | O => mret tt
  | S count =>
    d ← fuse_ll_alloc_req alloc_ok;
    match d with
    | None => mret tt
    | Some d =>
      q ← req_get r;
      req_set d (fun x => mkReq (rq_unique q) (rq_ref_cnt x) (rq_ctx q) false (rq_interrupted x) (rq_u x));;
      let '(nodeid, nlookup) := forget_one inarg i in
      call_op d (Call_forget nodeid nlookup);;
      batch_forget_loop r inarg count (S i)
    end
  end.

Definition do_batch_forget (r nodeid : Z) (inarg : list Z) : MS unit :=
  let count := Z.to_nat (u32_at inarg 0) in
  if has_op op_forget_multi then
    call_op r (Call_forget_multi (forget_one inarg <$> seq 0 count))
  else if has_op op_forget then
    batch_forget_loop r inarg count 0;;
    fuse_reply_none r
  else fuse_reply_none r.

Definition do_getattr (r nodeid : Z) (inarg : list Z) : MS unit :=
  s ← get;
  let fip :=
    if (9 <=? ci_proto_minor (se_conn s)) && has_flag (u32_at inarg 0) FUSE_GETATTR_FH
    then Some (set_fi_fh fi_zero (u64_at inarg 8)) else None in
  op_or_enosys r op_getattr (Call_getattr nodeid fip).

Definition setattr_in (inarg : list Z) : fuse_setattr_in :=
  mkSetattr (u32_at inarg 0) (u64_at inarg 8) (u64_at inarg 16) (u64_at inarg 32) (u64_at inarg 40)
            (u64_at inarg 48) (u32_at inarg 56) (u32_at inarg 60) (u32_at inarg 64)
            (u32_at inarg 68) (u32_at inarg 76) (u32_at inarg 80).

Definition do_setattr (r nodeid : Z) (inarg : list Z) : MS unit :=
  if has_op op_setattr then
    let arg := setattr_in inarg in
    let stbuf := convert_attr arg in
    let fi := if has_flag (sa_valid arg) FATTR_FH then Some (set_fi_fh fi_zero (sa_fh arg)) else None in
    let valid := if has_flag (sa_valid arg) FATTR_FH
                 then Z.land (sa_valid arg) (Z.lnot FATTR_FH) else sa_valid arg in
    call_op r (Call_setattr nodeid stbuf (Z.land valid FUSE_SET_ATTR_ALL) fi)
  else reply_err r ENOSYS.

Definition do_access (r nodeid : Z) (inarg : list Z) : MS unit :=
  op_or_enosys r op_access (Call_access nodeid (u32_at inarg 0)).

Definition do_readlink (r nodeid : Z) (inarg : list Z) : MS unit :=
  op_or_enosys r op_readlink (Call_readlink nodeid).

Definition set_umask (r umask : Z) : MS unit :=
  req_set r (fun q => set_ctx q (mkCtx (ctx_uid (rq_ctx q)) (ctx_gid (rq_ctx q)) (ctx_pid (rq_ctx q)) umask)).

Definition FUSE_COMPAT_MKNOD_IN_SIZE : nat := 8.

Definition do_mknod (r nodeid : Z) (inarg : list Z) : MS unit :=
  s ← get;
  name ← (if 12 <=? ci_proto_minor (se_conn s) then set_umask r (u32_at inarg 8);; mret (str_at inarg 16)
          else mret (str_at inarg FUSE_COMPAT_MKNOD_IN_SIZE));
  op_or_enosys r op_mknod (Call_mknod nodeid name (u32_at inarg 0) (u32_at inarg 4)).

Definition do_mkdir (r nodeid : Z) (inarg : list Z) : MS unit :=
  s ← get;
  (if 12 <=? ci_proto_minor (se_conn s) then set_umask r (u32_at inarg 4) else mret tt);;
  op_or_enosys r op_mkdir (Call_mkdir nodeid (str_at inarg 8) (u32_at inarg 0)).

Definition do_unlink (r nodeid : Z) (inarg : list Z) : MS unit :=
  op_or_enosys r op_unlink (Call_unlink nodeid (str_at inarg 0)).

Definition do_rmdir (r nodeid : Z) (inarg : list Z) : MS unit :=
  op_or_enosys r op_rmdir (Call_rmdir nodeid (str_at inarg 0)).

Definition do_symlink (r nodeid : Z) (inarg : list Z) : MS unit :=
  op_or_enosys r op_symlink
    (Call_symlink (str_at inarg (after_str inarg 0)) nodeid (str_at inarg 0)).

Definition do_rename (r nodeid : Z) (inarg : list Z) : MS unit :=
  op_or_enosys r op_rename
    (Call_rename nodeid (str_at inarg 8) (u64_at inarg 0) (str_at inarg (after_str inarg 8)) 0).

Definition do_rename2 (r nodeid : Z) (inarg : list Z) : MS unit :=
  op_or_enosys r op_rename
    (Call_rename nodeid (str_at inarg 16) (u64_at inarg 0) (str_at inarg (after_str inarg 16)) (u32_at inarg 8)).

Definition do_link (r nodeid : Z) (inarg : list Z) : MS unit :=
  op_or_enosys r op_link (Call_link (u64_at inarg 0) nodeid (str_at inarg 8)).

Definition do_tmpfile (r nodeid : Z) (inarg : list Z) : MS unit :=
  if has_op op_tmpfile then
    s ← get;
    (if 12 <=? ci_proto_minor (se_conn s) then set_umask r (u32_at inarg 8) else mret tt);;
    call_op r (Call_tmpfile nodeid (u32_at inarg 4) (set_fi_flags fi_zero (s32_at inarg 0)))
  else reply_err r ENOSYS.

Definition do_create (r nodeid : Z) (inarg : list Z) : MS unit :=
  if has_op op_create then
    s ← get;
    name ← (if 12 <=? ci_proto_minor (se_conn s) then set_umask r (u32_at inarg 8);; mret (str_at inarg 16)
            else mret (str_at inarg 8));
    call_op r (Call_create nodeid name (u32_at inarg 4) (set_fi_flags fi_zero (s32_at inarg 0)))
  else reply_err r ENOSYS.

Definition do_open (r nodeid : Z) (inarg : list Z) : MS unit :=
  s ← get;
  let fi := set_fi_flags fi_zero (s32_at inarg 0) in
  if has_op op_open then call_op r (Call_open nodeid fi)
  else if has_flag (ci_want_ext (se_conn s)) FUSE_CAP_NO_OPEN_SUPPORT then reply_err r ENOSYS
  else reply_open r fi.

Definition do_read (r nodeid : Z) (inarg : list Z) : MS unit :=
  if has_op op_read then
    s ← get;
    let fi := set_fi_fh fi_zero (u64_at inarg 0) in
    let fi := if 9 <=? ci_proto_minor (se_conn s)
              then set_fi_flags (set_fi_lock_owner fi (u64_at inarg 24)) (s32_at inarg 32) else fi in
    call_op r (Call_read nodeid (u32_at inarg 16) (s64_at inarg 8) fi)
  else reply_err r ENOSYS.

Definition FUSE_COMPAT_WRITE_IN_SIZE : nat := 24.
(** [sizeof(struct fuse_write_in)], [sizeof(struct fuse_in_header)]. *)
Definition write_in_size : nat := 40.
Definition in_header_size : nat := 40.

Definition write_fi (s : session ll_call) (inarg : list Z) : fuse_file_info :=
  let fi := set_fi_fh fi_zero (u64_at inarg 0) in
  let fi := set_fi_writepage fi (has_flag (u32_at inarg 20) FUSE_WRITE_CACHE) in
  if ci_proto_minor (se_conn s) <? 9 then fi
  else set_fi_flags (set_fi_lock_owner fi (u64_at inarg 24)) (s32_at inarg 32).

Definition do_write (r nodeid : Z) (inarg : list Z) : MS unit :=
  s ← get;
  let param := drop (if ci_proto_minor (se_conn s) <? 9 then FUSE_COMPAT_WRITE_IN_SIZE else write_in_size) inarg in
  op_or_enosys r op_write (Call_write nodeid param (u32_at inarg 16) (s64_at inarg 8) (write_fi s inarg)).

(** [bufsize] is the size of the whole message; the size arithmetic is unsigned. *)
Definition do_write_buf (r nodeid : Z) (inarg : list Z) (bufsize : Z) (is_fd : bool) : MS unit :=
  s ← get;
  (if ci_proto_minor (se_conn s) <? 9 then assert (negb is_fd) else mret tt);;
  let header := Z.of_nat (in_header_size +
                  (if ci_proto_minor (se_conn s) <? 9 then FUSE_COMPAT_WRITE_IN_SIZE else write_in_size)) in
  if u64 (bufsize - header) <? u32_at inarg 16 then reply_err r EIO
  else call_op r (Call_write_buf nodeid (u32_at inarg 16) (s64_at inarg 8) (write_fi s inarg)).

Definition do_flush (r nodeid : Z) (inarg : list Z) : MS unit :=
  s ← get;
  let fi := set_fi_flush (set_fi_fh fi_zero (u64_at inarg 0)) true in
  let fi := if 7 <=? ci_proto_minor (se_conn s) then set_fi_lock_owner fi (u64_at inarg 16) else fi in
  op_or_enosys r op_flush (Call_flush nodeid fi).

Definition do_release (r nodeid : Z) (inarg : list Z) : MS unit :=
  s ← get;
  let fi := set_fi_fh (set_fi_flags fi_zero (s32_at inarg 8)) (u64_at inarg 0) in
  let fi := if 8 <=? ci_proto_minor (se_conn s)
            then set_fi_lock_owner (set_fi_flush fi (has_flag (u32_at inarg 12) FUSE_RELEASE_FLUSH))
                                   (u64_at inarg 16) else fi in
  let fi := if has_flag (u32_at inarg 12) FUSE_RELEASE_FLOCK_UNLOCK
            then set_fi_lock_owner (set_fi_flock_release fi true) (u64_at inarg 16) else fi in
  if has_op op_release then call_op r (Call_release nodeid fi) else reply_err r 0.

Definition do_fsync (r nodeid : Z) (inarg : list Z) : MS unit :=
  op_or_enosys r op_fsync
    (Call_fsync nodeid (Z.land (u32_at inarg 8) 1) (set_fi_fh fi_zero (u64_at inarg 0))).

Definition do_opendir (r nodeid : Z) (inarg : list Z) : MS unit :=
  s ← get;
  let fi := set_fi_flags fi_zero (s32_at inarg 0) in
  if has_op op_opendir then call_op r (Call_opendir nodeid fi)
  else if has_flag (ci_want_ext (se_conn s)) FUSE_CAP_NO_OPENDIR_SUPPORT then reply_err r ENOSYS
  else reply_open r fi.

Definition do_readdir (r nodeid : Z) (inarg : list Z) : MS unit :=
  op_or_enosys r op_readdir
    (Call_readdir nodeid (u32_at inarg 16) (s64_at inarg 8) (set_fi_fh fi_zero (u64_at inarg 0))).

Definition do_readdirplus (r nodeid : Z) (inarg : list Z) : MS unit :=
  op_or_enosys r op_readdirplus
    (Call_readdirplus nodeid (u32_at inarg 16) (s64_at inarg 8) (set_fi_fh fi_zero (u64_at inarg 0))).

Definition do_releasedir (r nodeid : Z) (inarg : list Z) : MS unit :=
  let fi := set_fi_fh (set_fi_flags fi_zero (s32_at inarg 8)) (u64_at inarg 0) in
  if has_op op_releasedir then call_op r (Call_releasedir nodeid fi) else reply_err r 0.

Definition do_fsyncdir (r nodeid : Z) (inarg : list Z) : MS unit :=
  op_or_enosys r op_fsyncdir
    (Call_fsyncdir nodeid (Z.land (u32_at inarg 8) 1) (set_fi_fh fi_zero (u64_at inarg 0))).

Definition do_statfs (r nodeid : Z) (inarg : list Z) : MS unit :=
  if has_op op_statfs then call_op r (Call_statfs nodeid)
  else fuse_reply_statfs send_errno known_errno r (mkStatvfs 512 0 0 0 0 0 0 255);; mret tt.

Definition FUSE_COMPAT_SETXATTR_IN_SIZE : nat := 8.

Definition do_setxattr (r nodeid : Z) (inarg : list Z) : MS unit :=
  s ← get;
  let name_at := if has_flag (ci_want_ext (se_conn s)) FUSE_CAP_SETXATTR_EXT then 16%nat
                 else FUSE_COMPAT_SETXATTR_IN_SIZE in
  op_or_enosys r op_setxattr
    (Call_setxattr nodeid (str_at inarg name_at) (drop (after_str inarg name_at) inarg)
                   (u32_at inarg 0) (s32_at inarg 4)).

Definition do_getxattr (r nodeid : Z) (inarg : list Z) : MS unit :=
  op_or_enosys r op_getxattr (Call_getxattr nodeid (str_at inarg 8) (u32_at inarg 0)).

Definition do_listxattr (r nodeid : Z) (inarg : list Z) : MS unit :=
  op_or_enosys r op_listxattr (Call_listxattr nodeid (u32_at inarg 0)).

Definition do_removexattr (r nodeid : Z) (inarg : list Z) : MS unit :=
  op_or_enosys r op_removexattr (Call_removexattr nodeid (str_at inarg 0)).

(** [struct fuse_file_lock] to [struct flock]: type, start, length, pid.  The
    length is computed in 64 bits. *)
Definition convert_fuse_file_lock (start end_ type pid : Z) : Z * Z * Z * Z :=
  (swrap 16 type, swrap 64 start,
   if end_ =? OFFSET_MAX then 0 else swrap 64 (end_ - start + 1), swrap 32 pid).

Definition lk_flock (inarg : list Z) : Z * Z * Z * Z :=
  convert_fuse_file_lock (u64_at inarg 16) (u64_at inarg 24) (u32_at inarg 32) (u32_at inarg 36).

Definition lk_fi (inarg : list Z) : fuse_file_info :=
  set_fi_lock_owner (set_fi_fh fi_zero (u64_at inarg 0)) (u64_at inarg 8).

Definition do_getlk (r nodeid : Z) (inarg : list Z) : MS unit :=
  let '(l_type, l_start, l_len, l_pid) := lk_flock inarg in
  op_or_enosys r op_getlk (Call_getlk nodeid (lk_fi inarg) l_type l_start l_len l_pid).

Definition do_setlk_common (r nodeid : Z) (inarg : list Z) (sleep : bool) : MS unit :=
  if has_flag (u32_at inarg 40) FUSE_LK_FLOCK then
    let type := u32_at inarg 32 in
    let op := if type =? F_RDLCK then LOCK_SH
              else if type =? F_WRLCK then LOCK_EX
              else if type =? F_UNLCK then LOCK_UN else 0 in
    let op := if sleep then op else Z.lor op LOCK_NB in
    op_or_enosys r op_flock (Call_flock nodeid (lk_fi inarg) op)
  else
    let '(l_type, l_start, l_len, l_pid) := lk_flock inarg in
    op_or_enosys r op_setlk
      (Call_setlk nodeid (lk_fi inarg) l_type l_start l_len l_pid (int_of_bool sleep)).

Definition do_setlk (r nodeid : Z) (inarg : list Z) : MS unit := do_setlk_common r nodeid inarg false.
Definition do_setlkw (r nodeid : Z) (inarg : list Z) : MS unit := do_setlk_common r nodeid inarg true.

Definition do_bmap (r nodeid : Z) (inarg : list Z) : MS unit :=
  op_or_enosys r op_bmap (Call_bmap nodeid (u32_at inarg 8) (u64_at inarg 0)).

(** Pointers are 8 bytes: [ioctl_64bit] is never set. *)
Definition do_ioctl (r nodeid : Z) (inarg : list Z) : MS unit :=
  s ← get;
  let flags := u32_at inarg 8 in
  let in_size := u32_at inarg 24 in
  let in_buf := if in_size =? 0 then [] else drop 32 inarg in
  if has_flag flags FUSE_IOCTL_DIR && negb (has_flag (ci_want_ext (se_conn s)) FUSE_CAP_IOCTL_DIR)
  then reply_err r ENOTTY
  else
    op_or_enosys r op_ioctl
      (Call_ioctl nodeid (u32_at inarg 12) (u64_at inarg 16) (set_fi_fh fi_zero (u64_at inarg 0))
                  flags in_buf in_size (u32_at inarg 28)).

Definition do_poll (r nodeid : Z) (inarg : list Z) : MS unit :=
  let fi := set_fi_poll_events (set_fi_fh fi_zero (u64_at inarg 0)) (u32_at inarg 20) in
  if has_op op_poll then
    if has_flag (u32_at inarg 16) FUSE_POLL_SCHEDULE_NOTIFY then
      ok ← se_alloc alloc_ok;
      if ok then call_op r (Call_poll nodeid fi (Some (u64_at inarg 8))) else reply_err r ENOMEM
    else call_op r (Call_poll nodeid fi None)
  else reply_err r ENOSYS.

Definition do_fallocate (r nodeid : Z) (inarg : list Z) : MS unit :=
  op_or_enosys r op_fallocate
    (Call_fallocate nodeid (s32_at inarg 24) (s64_at inarg 8) (s64_at inarg 16)
                    (set_fi_fh fi_zero (u64_at inarg 0))).

Definition do_copy_file_range (r nodeid : Z) (inarg : list Z) : MS unit :=
  op_or_enosys r op_copy_file_range
    (Call_copy_file_range nodeid (s64_at inarg 8) (set_fi_fh fi_zero (u64_at inarg 0))
       (u64_at inarg 16) (s64_at inarg 32) (set_fi_fh fi_zero (u64_at inarg 24))
       (u64_at inarg 40) (s32_at inarg 48)).

Definition do_lseek (r nodeid : Z) (inarg : list Z) : MS unit :=
  op_or_enosys r op_lseek
    (Call_lseek nodeid (s64_at inarg 8) (s32_at inarg 16) (set_fi_fh fi_zero (u64_at inarg 0))).

(** The mount point is forgotten, the file system told; the session expects a new
    INIT. *)
Definition do_destroy (r nodeid : Z) (inarg : list Z) : MS unit :=
  modify (fun s => set_got_init (set_got_destroy s true) false);;
  (if has_op op_destroy then log_op r Call_destroy else mret tt);;
  send_reply_ok send_errno known_errno r [];; mret tt.
End handlers.
