(* ===== verification/Init.v ===== *)
(** * INIT: negotiating the connection ([lib/fuse_lowlevel.c], [lib/helper.c])

    The first request of a session.  The kernel offers capabilities, libfuse
    enables its defaults among them, the file system's [init] changes the wish
    list, and the answer tells the kernel what is enabled and how large requests
    may be.  [do_init] is the handler the session's dispatch table calls. *)
From S2P Require Import Prelude Wire Request Handlers.

(** ** Flags *)

(** [FUSE_CAP_*] of [fuse_common.h]; four more are in [Handlers]. *)
Definition FUSE_CAP_ASYNC_READ : Z := 2 ^ 0.
Definition FUSE_CAP_POSIX_LOCKS : Z := 2 ^ 1.
Definition FUSE_CAP_ATOMIC_O_TRUNC : Z := 2 ^ 3.
Definition FUSE_CAP_EXPORT_SUPPORT : Z := 2 ^ 4.
Definition FUSE_CAP_DONT_MASK : Z := 2 ^ 6.
Definition FUSE_CAP_SPLICE_WRITE : Z := 2 ^ 7.
Definition FUSE_CAP_SPLICE_MOVE : Z := 2 ^ 8.
Definition FUSE_CAP_SPLICE_READ : Z := 2 ^ 9.
Definition FUSE_CAP_FLOCK_LOCKS : Z := 2 ^ 10.
Definition FUSE_CAP_AUTO_INVAL_DATA : Z := 2 ^ 12.
Definition FUSE_CAP_READDIRPLUS : Z := 2 ^ 13.
Definition FUSE_CAP_READDIRPLUS_AUTO : Z := 2 ^ 14.
Definition FUSE_CAP_ASYNC_DIO : Z := 2 ^ 15.
Definition FUSE_CAP_WRITEBACK_CACHE : Z := 2 ^ 16.
Definition FUSE_CAP_PARALLEL_DIROPS : Z := 2 ^ 18.
Definition FUSE_CAP_POSIX_ACL : Z := 2 ^ 19.
Definition FUSE_CAP_HANDLE_KILLPRIV : Z := 2 ^ 20.
Definition FUSE_CAP_HANDLE_KILLPRIV_V2 : Z := 2 ^ 21.
Definition FUSE_CAP_CACHE_SYMLINKS : Z := 2 ^ 23.
Definition FUSE_CAP_EXPLICIT_INVAL_DATA : Z := 2 ^ 25.
Definition FUSE_CAP_EXPIRE_ONLY : Z := 2 ^ 26.
Definition FUSE_CAP_DIRECT_IO_ALLOW_MMAP : Z := 2 ^ 28.
Definition FUSE_CAP_PASSTHROUGH : Z := 2 ^ 29.
Definition FUSE_CAP_NO_EXPORT_SUPPORT : Z := 2 ^ 30.

(** The flags of the INIT request and reply, [fuse_kernel.h]. *)
Definition FUSE_ASYNC_READ : Z := 2 ^ 0.
Definition FUSE_POSIX_LOCKS : Z := 2 ^ 1.
Definition FUSE_ATOMIC_O_TRUNC : Z := 2 ^ 3.
Definition FUSE_EXPORT_SUPPORT : Z := 2 ^ 4.
Definition FUSE_BIG_WRITES : Z := 2 ^ 5.
Definition FUSE_DONT_MASK : Z := 2 ^ 6.
Definition FUSE_FLOCK_LOCKS : Z := 2 ^ 10.
Definition FUSE_AUTO_INVAL_DATA : Z := 2 ^ 12.
Definition FUSE_DO_READDIRPLUS : Z := 2 ^ 13.
Definition FUSE_READDIRPLUS_AUTO : Z := 2 ^ 14.
Definition FUSE_ASYNC_DIO : Z := 2 ^ 15.
Definition FUSE_WRITEBACK_CACHE : Z := 2 ^ 16.
Definition FUSE_NO_OPEN_SUPPORT : Z := 2 ^ 17.
Definition FUSE_PARALLEL_DIROPS : Z := 2 ^ 18.
Definition FUSE_HANDLE_KILLPRIV : Z := 2 ^ 19.
Definition FUSE_POSIX_ACL : Z := 2 ^ 20.
Definition FUSE_MAX_PAGES : Z := 2 ^ 22.
Definition FUSE_CACHE_SYMLINKS : Z := 2 ^ 23.
Definition FUSE_NO_OPENDIR_SUPPORT : Z := 2 ^ 24.
Definition FUSE_EXPLICIT_INVAL_DATA : Z := 2 ^ 25.
Definition FUSE_HANDLE_KILLPRIV_V2 : Z := 2 ^ 28.
Definition FUSE_SETXATTR_EXT : Z := 2 ^ 29.
Definition FUSE_INIT_EXT : Z := 2 ^ 30.
Definition FUSE_HAS_EXPIRE_ONLY : Z := 2 ^ 35.
Definition FUSE_DIRECT_IO_ALLOW_MMAP : Z := 2 ^ 36.
Definition FUSE_PASSTHROUGH : Z := 2 ^ 37.
Definition FUSE_NO_EXPORT_SUPPORT : Z := 2 ^ 38.

Definition FUSE_KERNEL_VERSION : Z := 7.
Definition FUSE_KERNEL_MINOR_VERSION : Z := 40.
Definition FUSE_COMPAT_INIT_OUT_SIZE : Z := 8.
Definition FUSE_COMPAT_22_INIT_OUT_SIZE : Z := 24.
Definition FUSE_MIN_READ_BUFFER : Z := 8192.
Definition FUSE_BUFFER_HEADER_SIZE : Z := 4096.
Definition FUSE_DEFAULT_MAX_PAGES_LIMIT : Z := 256.
Definition FUSE_DEFAULT_MAX_PAGES_PER_REQ : Z := 32.

(** ** The wish list *)

Definition fuse_lower_32_bits (nr : Z) : Z := u32 (Z.land nr 4294967295).
Definition fuse_higher_32_bits (nr : Z) : Z := Z.land nr (u64 (Z.lnot 4294967295)).

(** The part of the session the feature functions reach from [conn]: the
    connection and the two fields [container_of] gives them. *)
Record nego := mkNego { ng_conn : fuse_conn_info; ng_want : Z; ng_want_ext : Z }.

Definition nego_of {C} (s : session C) : nego := mkNego (se_conn s) (se_conn_want s) (se_conn_want_ext s).
Definition set_nego {C} (s : session C) (n : nego) : session C :=
  set_conn_want_ext (set_conn_want (set_conn s (ng_conn n)) (ng_want n)) (ng_want_ext n).

Definition want_flags_valid (capable want : Z) : bool := Z.land want (u64 (Z.lnot capable)) =? 0.

Definition fuse_convert_to_conn_want_ext (n : nego) : Z * nego :=
  let conn := ng_conn n in
  if negb (ci_want conn =? ng_want n) && negb (fuse_lower_32_bits (ci_want_ext conn) =? ci_want conn)
  then
    if negb (ci_want_ext conn =? ng_want_ext n) then (- EINVAL, n)
    else
      let conn := set_ci_want_ext conn (Z.lor (fuse_higher_32_bits (ci_want_ext conn)) (ci_want conn)) in
      (0, mkNego (set_ci_want conn (fuse_lower_32_bits (ci_want_ext conn))) (ng_want n) (ng_want_ext n))
  else (0, mkNego (set_ci_want conn (fuse_lower_32_bits (ci_want_ext conn))) (ng_want n) (ng_want_ext n)).

Definition fuse_set_feature_flag (flag : Z) (n : nego) : bool * nego :=
  let conn := ng_conn n in
  if has_flag (ci_capable_ext conn) flag then
    (true, mkNego (set_ci_want (set_ci_want_ext conn (Z.lor (ci_want_ext conn) flag))
                               (u32 (Z.lor (ci_want conn) flag)))
                  (u32 (Z.lor (ng_want n) flag)) (Z.lor (ng_want_ext n) flag))
  else (false, n).

Definition fuse_unset_feature_flag (flag : Z) (n : nego) : nego :=
  let conn := ng_conn n in
  let keep x := Z.land x (u64 (Z.lnot flag)) in
  mkNego (set_ci_want (set_ci_want_ext conn (keep (ci_want_ext conn))) (u32 (keep (ci_want conn))))
         (u32 (keep (ng_want n))) (keep (ng_want_ext n)).

Definition fuse_get_feature_flag (flag : Z) (conn : fuse_conn_info) : bool :=
  has_flag (ci_capable_ext conn) flag.

(** ** The request and its answer *)

(** [struct fuse_init_in]. *)
Record fuse_init_in := mkInitIn { ii_major : Z; ii_minor : Z; ii_max_readahead : Z; ii_flags : Z; ii_flags2 : Z }.

Definition decode_init_in (inarg : list Z) : fuse_init_in :=
  mkInitIn (u32_at inarg 0) (u32_at inarg 4) (u32_at inarg 8) (u32_at inarg 12) (u32_at inarg 16).

(** [struct fuse_init_out] without its unused words. *)
Record fuse_init_out := mkInitOut {
  io_major : Z;
  io_minor : Z;
  io_max_readahead : Z;
  io_flags : Z;
  io_max_background : Z;
  io_congestion_threshold : Z;
  io_max_write : Z;
  io_time_gran : Z;
  io_max_pages : Z;
  io_map_alignment : Z;
  io_flags2 : Z;
  io_max_stack_depth : Z;
}.

Definition encode_init_out (o : fuse_init_out) : list Z :=
  le 4 (io_major o) ++ le 4 (io_minor o) ++ le 4 (io_max_readahead o) ++ le 4 (io_flags o) ++
  le 2 (io_max_background o) ++ le 2 (io_congestion_threshold o) ++ le 4 (io_max_write o) ++
  le 4 (io_time_gran o) ++ le 2 (io_max_pages o) ++ le 2 (io_map_alignment o) ++ le 4 (io_flags2 o) ++
  le 4 (io_max_stack_depth o) ++ replicate 24 0.

(** The answer to a kernel that is newer than the protocol: the version only. *)
Definition init_out_version : fuse_init_out :=
  mkInitOut FUSE_KERNEL_VERSION FUSE_KERNEL_MINOR_VERSION 0 0 0 0 0 0 0 0 0 0.

(** [if (flags & x) acc |= y], for the pairs of a table in turn. *)
Definition flag_ifs (flags : Z) (table : list (Z * Z)) (acc : Z) : Z :=
  foldl (fun acc '(x, y) => or_if (has_flag flags x) y acc) acc table.

(** The offers that become capabilities one by one, before and after the test of
    [FUSE_MAX_PAGES]. *)
Definition offer_table : list (Z * Z) :=
  [(FUSE_ASYNC_READ, FUSE_CAP_ASYNC_READ);
   (FUSE_POSIX_LOCKS, FUSE_CAP_POSIX_LOCKS);
   (FUSE_ATOMIC_O_TRUNC, FUSE_CAP_ATOMIC_O_TRUNC);
   (FUSE_EXPORT_SUPPORT, FUSE_CAP_EXPORT_SUPPORT);
   (FUSE_DONT_MASK, FUSE_CAP_DONT_MASK);
   (FUSE_FLOCK_LOCKS, FUSE_CAP_FLOCK_LOCKS);
   (FUSE_AUTO_INVAL_DATA, FUSE_CAP_AUTO_INVAL_DATA);
   (FUSE_DO_READDIRPLUS, FUSE_CAP_READDIRPLUS);
   (FUSE_READDIRPLUS_AUTO, FUSE_CAP_READDIRPLUS_AUTO);
   (FUSE_ASYNC_DIO, FUSE_CAP_ASYNC_DIO);
   (FUSE_WRITEBACK_CACHE, FUSE_CAP_WRITEBACK_CACHE);
   (FUSE_NO_OPEN_SUPPORT, FUSE_CAP_NO_OPEN_SUPPORT);
   (FUSE_PARALLEL_DIROPS, FUSE_CAP_PARALLEL_DIROPS);
   (FUSE_POSIX_ACL, FUSE_CAP_POSIX_ACL);
   (FUSE_HANDLE_KILLPRIV, FUSE_CAP_HANDLE_KILLPRIV);
   (FUSE_HANDLE_KILLPRIV_V2, FUSE_CAP_HANDLE_KILLPRIV_V2);
   (FUSE_CACHE_SYMLINKS, FUSE_CAP_CACHE_SYMLINKS);
   (FUSE_NO_OPENDIR_SUPPORT, FUSE_CAP_NO_OPENDIR_SUPPORT);
   (FUSE_EXPLICIT_INVAL_DATA, FUSE_CAP_EXPLICIT_INVAL_DATA);
   (FUSE_SETXATTR_EXT, FUSE_CAP_SETXATTR_EXT);
   (FUSE_DIRECT_IO_ALLOW_MMAP, FUSE_CAP_DIRECT_IO_ALLOW_MMAP)].
Definition offer_table_ext : list (Z * Z) :=
  [(FUSE_PASSTHROUGH, FUSE_CAP_PASSTHROUGH);
   (FUSE_NO_EXPORT_SUPPORT, FUSE_CAP_NO_EXPORT_SUPPORT)].

(** The wishes that become flags of the answer. *)
Definition answer_table : list (Z * Z) :=
  [(FUSE_CAP_ASYNC_READ, FUSE_ASYNC_READ);
   (FUSE_CAP_POSIX_LOCKS, FUSE_POSIX_LOCKS);
   (FUSE_CAP_ATOMIC_O_TRUNC, FUSE_ATOMIC_O_TRUNC);
   (FUSE_CAP_EXPORT_SUPPORT, FUSE_EXPORT_SUPPORT);
   (FUSE_CAP_DONT_MASK, FUSE_DONT_MASK);
   (FUSE_CAP_FLOCK_LOCKS, FUSE_FLOCK_LOCKS);
   (FUSE_CAP_AUTO_INVAL_DATA, FUSE_AUTO_INVAL_DATA);
   (FUSE_CAP_READDIRPLUS, FUSE_DO_READDIRPLUS);
   (FUSE_CAP_READDIRPLUS_AUTO, FUSE_READDIRPLUS_AUTO);
   (FUSE_CAP_ASYNC_DIO, FUSE_ASYNC_DIO);
   (FUSE_CAP_WRITEBACK_CACHE, FUSE_WRITEBACK_CACHE);
   (FUSE_CAP_PARALLEL_DIROPS, FUSE_PARALLEL_DIROPS);
   (FUSE_CAP_POSIX_ACL, FUSE_POSIX_ACL);
   (FUSE_CAP_HANDLE_KILLPRIV, FUSE_HANDLE_KILLPRIV);
   (FUSE_CAP_HANDLE_KILLPRIV_V2, FUSE_HANDLE_KILLPRIV_V2);
   (FUSE_CAP_CACHE_SYMLINKS, FUSE_CACHE_SYMLINKS);
   (FUSE_CAP_EXPLICIT_INVAL_DATA, FUSE_EXPLICIT_INVAL_DATA);
   (FUSE_CAP_SETXATTR_EXT, FUSE_SETXATTR_EXT);
   (FUSE_CAP_DIRECT_IO_ALLOW_MMAP, FUSE_DIRECT_IO_ALLOW_MMAP);
   (FUSE_CAP_PASSTHROUGH, FUSE_PASSTHROUGH);
   (FUSE_CAP_NO_EXPORT_SUPPORT, FUSE_NO_EXPORT_SUPPORT)].

(** ** [do_init] *)

Section init.
Abbreviation MS := (M (session ll_call)).
Context (send_errno : nat -> Z) (known_errno : Z -> bool).
Context (has_op : ll_op -> bool).
(** [se->op.init], if the file system has it. *)
Context (op_init : option (nego -> nego)).
(** [getpagesize()], and the [max_read] mount option. *)
Context (pagesize max_read_mo : Z).
(** [se->io == NULL || se->io->splice_send != NULL], and for [splice_receive]. *)
Context (splice_send splice_receive : bool).

(** [inargflags]. *)
Definition init_inargflags (arg : fuse_init_in) : Z :=
  if 6 <=? ii_minor arg then
    if has_flag (ii_flags arg) FUSE_INIT_EXT
    then Z.lor (ii_flags arg) (u64 (Z.shiftl (ii_flags2 arg) 32))
    else ii_flags arg
  else 0.

(** [se->conn.capable_ext] before the defaults are chosen. *)
Definition init_capable (arg : fuse_init_in) : Z :=
  let inargflags := init_inargflags arg in
  let capable :=
    if 6 <=? ii_minor arg then
      let c := flag_ifs inargflags offer_table 0 in
      let c := or_if ((38 <=? ii_minor arg) || has_flag inargflags FUSE_HAS_EXPIRE_ONLY) FUSE_CAP_EXPIRE_ONLY c in
      flag_ifs inargflags offer_table_ext c
    else 0 in
  let capable :=
    if 14 <=? ii_minor arg then
      or_if splice_receive FUSE_CAP_SPLICE_READ
        (or_if splice_send (Z.lor FUSE_CAP_SPLICE_WRITE FUSE_CAP_SPLICE_MOVE) capable)
    else capable in
  or_if (18 <=? ii_minor arg) FUSE_CAP_IOCTL_DIR capable.

(** The local [bufsize] and [buf_reallocable] after the test of
    [FUSE_MAX_PAGES]. *)
Definition init_bufsize (arg : fuse_init_in) (bufsize : Z) (buf_reallocable : bool) : Z * bool :=
  if (6 <=? ii_minor arg) && negb (has_flag (init_inargflags arg) FUSE_MAX_PAGES) then
    let max_bufsize := FUSE_DEFAULT_MAX_PAGES_PER_REQ * pagesize + FUSE_BUFFER_HEADER_SIZE in
    (if max_bufsize <? bufsize then max_bufsize else bufsize, false)
  else (bufsize, buf_reallocable).

(** [LL_SET_DEFAULT]. *)
Definition ll_set_default (cond : bool) (cap : Z) (n : nego) : nego :=
  if cond then snd (fuse_set_feature_flag cap n) else n.

Definition init_defaults (n : nego) : nego :=
  let n := ll_set_default true FUSE_CAP_ASYNC_READ n in
  let n := ll_set_default true FUSE_CAP_AUTO_INVAL_DATA n in
  let n := ll_set_default true FUSE_CAP_ASYNC_DIO n in
  let n := ll_set_default true FUSE_CAP_IOCTL_DIR n in
  let n := ll_set_default true FUSE_CAP_ATOMIC_O_TRUNC n in
  let n := ll_set_default (has_op op_write_buf) FUSE_CAP_SPLICE_READ n in
  let n := ll_set_default (has_op op_getlk && has_op op_setlk) FUSE_CAP_POSIX_LOCKS n in
  let n := ll_set_default (has_op op_flock) FUSE_CAP_FLOCK_LOCKS n in
  let n := ll_set_default (has_op op_readdirplus) FUSE_CAP_READDIRPLUS n in
  ll_set_default (has_op op_readdirplus && has_op op_readdir) FUSE_CAP_READDIRPLUS_AUTO n.

(** The connection as the request describes it. *)
Definition init_offer (arg : fuse_init_in) (conn : fuse_conn_info) : fuse_conn_info :=
  let conn := set_ci_max_readahead conn
    (if 6 <=? ii_minor arg
     then if ii_max_readahead arg <? ci_max_readahead conn then ii_max_readahead arg else ci_max_readahead conn
     else 0) in
  set_ci_capable_ext conn (init_capable arg).

(** The file system's turn. *)
Definition init_callback (n : nego) : nego :=
  match op_init with
  | Some init =>
      let conn := set_ci_capable (ng_conn n) (fuse_lower_32_bits (ci_capable_ext (ng_conn n))) in
      snd (fuse_convert_to_conn_want_ext (init (mkNego conn (ng_want n) (ng_want_ext n))))
  | None => n
  end.

(** From the version check to the file system's [init]. *)
Definition init_negotiate (arg : fuse_init_in) (n : nego) : nego :=
  let n := init_defaults (mkNego (init_offer arg (ng_conn n)) (ng_want n) (ng_want_ext n)) in
  init_callback (mkNego (set_ci_time_gran (ng_conn n) 1) (ng_want n) (ng_want_ext n)).

(** [se->conn.max_write] from the size of the buffer. *)
Definition init_max_write (bufsize : Z) (buf_reallocable : bool) (max_write : Z) : Z :=
  let bufsize := if bufsize <? FUSE_MIN_READ_BUFFER then FUSE_MIN_READ_BUFFER else bufsize in
  let bufsize := if buf_reallocable then UINT_MAX else bufsize in
  u32 (Z.min max_write (u64 (bufsize - FUSE_BUFFER_HEADER_SIZE))).

(** [outargflags]. *)
Definition init_outargflags (arg : fuse_init_in) (want : Z) : Z :=
  let flags := or_if (has_flag (ii_flags arg) FUSE_MAX_PAGES) FUSE_MAX_PAGES 0 in
  let flags := Z.lor flags FUSE_BIG_WRITES in
  let flags := flag_ifs want answer_table flags in
  or_if (has_flag (init_inargflags arg) FUSE_INIT_EXT) FUSE_INIT_EXT flags.

(** The limits on background requests, from protocol 7.13 on. *)
Definition init_background (conn : fuse_conn_info) : fuse_conn_info :=
  if 13 <=? ci_proto_minor conn then
    let conn := if 2 ^ 16 <=? ci_max_background conn then set_ci_max_background conn (2 ^ 16 - 1) else conn in
    let conn := if ci_max_background conn <? ci_congestion_threshold conn
                then set_ci_congestion_threshold conn (ci_max_background conn) else conn in
    if ci_congestion_threshold conn =? 0
    then set_ci_congestion_threshold conn (u32 (ci_max_background conn * 3) / 4) else conn
  else conn.

(** The answer, once the limits are settled. *)
Definition init_out (arg : fuse_init_in) (conn : fuse_conn_info) : fuse_init_out :=
  let outargflags := init_outargflags arg (ci_want_ext conn) in
  mkInitOut FUSE_KERNEL_VERSION FUSE_KERNEL_MINOR_VERSION (ci_max_readahead conn) (u32 outargflags)
    (if 13 <=? ci_proto_minor conn then u16 (ci_max_background conn) else 0)
    (if 13 <=? ci_proto_minor conn then u16 (ci_congestion_threshold conn) else 0)
    (ci_max_write conn)
    (if 23 <=? ci_proto_minor conn then ci_time_gran conn else 0)
    (if has_flag (ii_flags arg) FUSE_MAX_PAGES then u16 (u32 (ci_max_write conn - 1) / pagesize + 1) else 0)
    0
    (if has_flag (init_inargflags arg) FUSE_INIT_EXT then u32 (Z.shiftr outargflags 32) else 0)
    (if has_flag (ci_want_ext conn) FUSE_CAP_PASSTHROUGH then u32 (ci_max_backing_stack_depth conn + 1) else 0).

Definition init_outargsize (arg : fuse_init_in) : Z :=
  if ii_minor arg <? 5 then FUSE_COMPAT_INIT_OUT_SIZE
  else if ii_minor arg <? 23 then FUSE_COMPAT_22_INIT_OUT_SIZE
  else 64.

(** [fuse_session_exit]. *)
Definition fuse_session_exit : MS unit := modify (fun s => set_exited s true).

(** The error paths after [init]: the request is refused and the session ends. *)
Definition init_fail (r : Z) : MS unit :=
  Handlers.reply_err send_errno known_errno r EPROTO;;
  modify (fun s => set_se_error s (- EPROTO));;
  fuse_session_exit.

Definition do_init (r nodeid : Z) (inarg : list Z) : MS unit :=
  let arg := decode_init_in inarg in
  s ← get;
  let '(bufsize, buf_reallocable) := (se_bufsize s, se_buf_reallocable s) in
  let conn := set_ci_proto_minor (set_ci_proto_major (se_conn s) (ii_major arg)) (ii_minor arg) in
  put (set_conn s (set_ci_want_ext (set_ci_capable_ext conn 0) 0));;
  if ii_major arg <? 7 then Handlers.reply_err send_errno known_errno r EPROTO
  else if 7 <? ii_major arg then
    send_reply_ok send_errno known_errno r (encode_init_out init_out_version);; mret tt
  else
    let '(bufsize, buf_reallocable) := init_bufsize arg bufsize buf_reallocable in
    modify (fun s => set_got_init (set_nego s (init_negotiate arg (nego_of s))) true);;
    s ← get;
    let conn := se_conn s in
    if negb (want_flags_valid (ci_capable_ext conn) (ci_want_ext conn)) then init_fail r
    else if negb (ci_max_read conn =? max_read_mo) then init_fail r
    else
      let conn := set_ci_max_write conn (init_max_write bufsize buf_reallocable (ci_max_write conn)) in
      let bufsize := u32 (ci_max_write conn + FUSE_BUFFER_HEADER_SIZE) in
      let conn := init_background conn in
      put (set_bufsize (set_conn s conn) bufsize);;
      send_reply_ok send_errno known_errno r
        (take (Z.to_nat (init_outargsize arg)) (encode_init_out (init_out arg conn)));;
      mret tt.
End init.

(** ** A new session *)

(** [fuse_session_new_versioned]: the fields INIT starts from. *)
Definition session_new_conn (pagesize : Z) : fuse_conn_info :=
  mkConn 0 0 (u32 (FUSE_DEFAULT_MAX_PAGES_LIMIT * pagesize)) 0 UINT_MAX 0 0 0 0 0 0 false 0 0.
Definition session_new_bufsize (pagesize : Z) : Z :=
  u32 (ci_max_write (session_new_conn pagesize) + FUSE_BUFFER_HEADER_SIZE).

(** ** What file systems do in [init] *)

(** [struct fuse_conn_info_opts] of [lib/helper.c]. *)
Record fuse_conn_info_opts := mkConnOpts {
  co_atomic_o_trunc : bool;
  co_no_remote_posix_lock : bool;
  co_no_remote_flock : bool;
  co_splice_write : bool;
  co_splice_move : bool;
  co_splice_read : bool;
  co_no_splice_write : bool;
  co_no_splice_move : bool;
  co_no_splice_read : bool;
  co_auto_inval_data : bool;
  co_no_auto_inval_data : bool;
  co_no_readdirplus : bool;
  co_no_readdirplus_auto : bool;
  co_async_dio : bool;
  co_no_async_dio : bool;
  co_writeback_cache : bool;
  co_no_writeback_cache : bool;
  co_async_read : bool;
  co_sync_read : bool;
  co_max_write : Z;
  co_max_readahead : Z;
  co_max_background : Z;
  co_congestion_threshold : Z;
  co_time_gran : Z;
  co_set_max_write : bool;
  co_set_max_readahead : bool;
  co_set_max_background : bool;
  co_set_congestion_threshold : bool;
  co_set_time_gran : bool;
}.

Definition ll_enable (cond : bool) (cap : Z) (n : nego) : nego :=
  if cond then snd (fuse_set_feature_flag cap n) else n.
Definition ll_disable (cond : bool) (cap : Z) (n : nego) : nego :=
  if cond then fuse_unset_feature_flag cap n else n.

Definition fuse_apply_conn_info_opts (opts : fuse_conn_info_opts) (n : nego) : nego :=
  let c := ng_conn n in
  let c := if co_set_max_write opts then set_ci_max_write c (co_max_write opts) else c in
  let c := if co_set_max_background opts then set_ci_max_background c (co_max_background opts) else c in
  let c := if co_set_congestion_threshold opts
           then set_ci_congestion_threshold c (co_congestion_threshold opts) else c in
  let c := if co_set_time_gran opts then set_ci_time_gran c (co_time_gran opts) else c in
  let c := if co_set_max_readahead opts then set_ci_max_readahead c (co_max_readahead opts) else c in
  let n := mkNego c (ng_want n) (ng_want_ext n) in
  let n := ll_enable (co_splice_read opts) FUSE_CAP_SPLICE_READ n in
  let n := ll_disable (co_no_splice_read opts) FUSE_CAP_SPLICE_READ n in
  let n := ll_enable (co_splice_write opts) FUSE_CAP_SPLICE_WRITE n in
  let n := ll_disable (co_no_splice_write opts) FUSE_CAP_SPLICE_WRITE n in
  let n := ll_enable (co_splice_move opts) FUSE_CAP_SPLICE_MOVE n in
  let n := ll_disable (co_no_splice_move opts) FUSE_CAP_SPLICE_MOVE n in
  let n := ll_enable (co_auto_inval_data opts) FUSE_CAP_AUTO_INVAL_DATA n in
  let n := ll_disable (co_no_auto_inval_data opts) FUSE_CAP_AUTO_INVAL_DATA n in
  let n := ll_disable (co_no_readdirplus opts) FUSE_CAP_READDIRPLUS n in
  let n := ll_disable (co_no_readdirplus_auto opts) FUSE_CAP_READDIRPLUS_AUTO n in
  let n := ll_enable (co_async_dio opts) FUSE_CAP_ASYNC_DIO n in
  let n := ll_disable (co_no_async_dio opts) FUSE_CAP_ASYNC_DIO n in
  let n := ll_enable (co_writeback_cache opts) FUSE_CAP_WRITEBACK_CACHE n in
  let n := ll_disable (co_no_writeback_cache opts) FUSE_CAP_WRITEBACK_CACHE n in
  let n := ll_enable (co_async_read opts) FUSE_CAP_ASYNC_READ n in
  let n := ll_disable (co_sync_read opts) FUSE_CAP_ASYNC_READ n in
  let n := ll_disable (co_no_remote_posix_lock opts) FUSE_CAP_POSIX_LOCKS n in
  ll_disable (co_no_remote_flock opts) FUSE_CAP_FLOCK_LOCKS n.

(** [fuse_fs_init] and [fuse_lib_init] of [lib/fuse.c]: the [init] of the
    high-level library, around the [init] of the path-based file system.  The
    arguments are which of [write_buf], [lock] and [flock] it has, and
    [conf.intr]. *)
Definition fuse_fs_init (write_buf lock flock : bool) (init : option (nego -> nego)) (n : nego) : nego :=
  let n := ll_disable (negb write_buf) FUSE_CAP_SPLICE_READ n in
  let n := ll_disable (negb lock) FUSE_CAP_POSIX_LOCKS n in
  let n := ll_disable (negb flock) FUSE_CAP_FLOCK_LOCKS n in
  match init with Some g => g n | None => n end.

Definition fuse_lib_init (write_buf lock flock : bool) (init : option (nego -> nego)) (intr : bool)
    (n : nego) : nego :=
  let n := snd (fuse_set_feature_flag FUSE_CAP_EXPORT_SUPPORT n) in
  let n := fuse_fs_init write_buf lock flock init n in
  if intr then n else mkNego (set_ci_no_interrupt (ng_conn n) true) (ng_want n) (ng_want_ext n).

