(* ===== verification/Session.v ===== *)
(** * The life of a request ([lib/fuse_lowlevel.c])

    A message from the kernel becomes a request, passes the checks of
    [fuse_session_process_buf_internal] and is dispatched; interrupts find their
    request or wait for it.  The theorems follow requests through every
    interleaving of arriving messages, answers of the file system and interrupt
    handlers: nothing fails an assertion or touches freed memory, no request is
    answered twice, and no request is lost. *)
From S2P Require Import Prelude Wire Request Handlers.

Definition FUSE_LOOKUP : Z := 1.
Definition FUSE_FORGET : Z := 2.
Definition FUSE_GETATTR : Z := 3.
Definition FUSE_SETATTR : Z := 4.
Definition FUSE_READLINK : Z := 5.
Definition FUSE_SYMLINK : Z := 6.
Definition FUSE_MKNOD : Z := 8.
Definition FUSE_MKDIR : Z := 9.
Definition FUSE_UNLINK : Z := 10.
Definition FUSE_RMDIR : Z := 11.
Definition FUSE_RENAME : Z := 12.
Definition FUSE_LINK : Z := 13.
Definition FUSE_OPEN : Z := 14.
Definition FUSE_READ : Z := 15.
Definition FUSE_WRITE : Z := 16.
Definition FUSE_STATFS : Z := 17.
Definition FUSE_RELEASE : Z := 18.
Definition FUSE_FSYNC : Z := 20.
Definition FUSE_SETXATTR : Z := 21.
Definition FUSE_GETXATTR : Z := 22.
Definition FUSE_LISTXATTR : Z := 23.
Definition FUSE_REMOVEXATTR : Z := 24.
Definition FUSE_FLUSH : Z := 25.
Definition FUSE_INIT : Z := 26.
Definition FUSE_OPENDIR : Z := 27.
Definition FUSE_READDIR : Z := 28.
Definition FUSE_RELEASEDIR : Z := 29.
Definition FUSE_FSYNCDIR : Z := 30.
Definition FUSE_GETLK : Z := 31.
Definition FUSE_SETLK : Z := 32.
Definition FUSE_SETLKW : Z := 33.
Definition FUSE_ACCESS : Z := 34.
Definition FUSE_CREATE : Z := 35.
Definition FUSE_INTERRUPT : Z := 36.
Definition FUSE_BMAP : Z := 37.
Definition FUSE_DESTROY : Z := 38.
Definition FUSE_IOCTL : Z := 39.
Definition FUSE_POLL : Z := 40.
Definition FUSE_NOTIFY_REPLY : Z := 41.
Definition FUSE_BATCH_FORGET : Z := 42.
Definition FUSE_FALLOCATE : Z := 43.
Definition FUSE_READDIRPLUS : Z := 44.
Definition FUSE_RENAME2 : Z := 45.
Definition FUSE_LSEEK : Z := 46.
Definition FUSE_COPY_FILE_RANGE : Z := 47.
Definition FUSE_TMPFILE : Z := 51.
Definition CUSE_INIT : Z := 4096.

(** A message from the kernel: [struct fuse_in_header], the bytes behind it, and
    how it arrived. *)
Record in_msg := mkIn {
  im_opcode : Z;
  im_unique : Z;
  im_nodeid : Z;
  im_uid : Z;
  im_gid : Z;
  im_pid : Z;
  im_arg : list Z;
  im_size : Z;         (** [buf->size] *)
  im_is_fd : bool;     (** spliced: the data is still in a pipe *)
  im_copy1 : Z;        (** what copying the header, *)
  im_copy2 : Z;        (** and the rest, out of the pipe returns *)
}.

Section session.
Abbreviation MS := (M (session ll_call)).
Context (alloc_ok : nat -> bool) (send_errno : nat -> Z) (known_errno : Z -> bool).
Context (has_op : ll_op -> bool).
(** [se->deny_others], [se->owner], [se->cuse_data != NULL]. *)
Context (deny_others : bool) (owner : Z) (cuse : bool).
(** The handlers of INIT and CUSE_INIT. *)
Context (do_init cuse_lowlevel_init : Z -> Z -> list Z -> MS unit).

Abbreviation reply_err := (Handlers.reply_err send_errno known_errno).

(** ** Interrupts *)

(** The first request of [l] with property [p]; every pointer on the way is
    followed. *)
Fixpoint find_req (p : fuse_req -> bool) (l : list Z) : MS (option Z) :=
  match l with
  | [] => mret None
  | r :: l => q ← req_get r; if p q then mret (Some r) else find_req p l
  end.

(** The first half of [find_interrupted], under the session lock: the request to
    interrupt gets another reference.  The lock is dropped before the second
    half, so other threads run in between. *)
Definition interrupt_begin (unique : Z) : MS (option Z) :=
  s ← get;
  c ← find_req (fun q => rq_unique q =? unique) (se_list s);
  match c with
  | Some curr => req_set curr (fun q => set_ref_cnt q (rq_ref_cnt q + 1));; mret (Some curr)
  | None => mret None
  end.

(** The second half: mark it, call the interrupt function, drop the reference. *)
Definition interrupt_end (curr : Z) : MS unit :=
  req_set curr (fun q => set_interrupted q true);;
  q ← req_get curr;
  (if truth (rq_u q) then log_op curr (Call_interrupt (rq_u q)) else mret tt);;
  req_set curr (fun q => set_ref_cnt q (rq_ref_cnt q - 1));;
  q ← req_get curr;
  if rq_ref_cnt q =? 0 then destroy_req curr else mret tt.

(** [fuse_chan_put(req->ch); req->ch = NULL; destroy_req(req);] *)
Definition drop_interrupt (r : Z) : MS unit :=
  req_set r (fun q => set_ch q false);; destroy_req r.

(** [do_interrupt] up to the point where [find_interrupted] drops the lock: the
    request that is being interrupted, if there is one.  Otherwise the interrupt
    is dropped when one for the same request waits already, and waits itself when
    not. *)
Definition do_interrupt_start (r : Z) (inarg : list Z) : MS (option Z) :=
  let unique := u64_at inarg 0 in
  req_set r (fun q => set_u q unique);;
  c ← interrupt_begin unique;
  match c with
  | Some curr => mret (Some curr)
  | None =>
    s ← get;
    w ← find_req (fun c => rq_u c =? unique) (se_interrupts s);
    match w with
    | Some _ => drop_interrupt r;; mret None
    | None => list_add_interrupt r;; mret None
    end
  end.

Definition do_interrupt_finish (r curr : Z) : MS unit :=
  interrupt_end curr;; drop_interrupt r.

Definition do_interrupt (r nodeid : Z) (inarg : list Z) : MS unit :=
  c ← do_interrupt_start r inarg;
  match c with
  | Some curr => do_interrupt_finish r curr
  | None => mret tt
  end.

(** A new request: was it interrupted before it came?  If not, the oldest waiting
    interrupt is handed back, to be answered with [EAGAIN]. *)
Definition check_interrupt (r : Z) : MS (option Z) :=
  q ← req_get r;
  s ← get;
  c ← find_req (fun c => rq_u c =? rq_unique q) (se_interrupts s);
  match c with
  | Some curr =>
    req_set r (fun q => set_interrupted q true);;
    list_del_req curr;;
    drop_interrupt curr;;
    mret None
  | None =>
    match se_interrupts s with
    | curr :: _ => list_del_req curr;; mret (Some curr)
    | [] => mret None
    end
  end.

(** ** Replies to notifications *)

Definition FUSE_NOTIFY_RETRIEVE_IN_SIZE : Z := 40.

(** [fuse_ll_retrieve_reply]. *)
Definition fuse_ll_retrieve_reply (r nodeid : Z) (inarg : list Z) (bufsize : Z) : MS unit :=
  let size := u64 (bufsize - (Z.of_nat in_header_size + FUSE_NOTIFY_RETRIEVE_IN_SIZE)) in
  if size <? u32_at inarg 16 then fuse_reply_none r
  else if has_op op_retrieve_reply
  then call_op r (Call_retrieve_reply nodeid (s64_at inarg 8) (u32_at inarg 16))
  else fuse_reply_none r.

(** The notification the reply belongs to leaves the list; a reply that belongs
    to none is dropped. *)
Definition do_notify_reply (r nodeid : Z) (inarg : list Z) (bufsize : Z) : MS unit :=
  q ← req_get r;
  s ← get;
  if bool_decide (rq_unique q ∈ se_notify s) then
    modify (fun s => set_notify s (remove_first (rq_unique q) (se_notify s)));;
    fuse_ll_retrieve_reply r nodeid inarg bufsize
  else mret tt.

(** ** Notifications *)

Definition FUSE_NOTIFY_POLL : Z := 1.
Definition FUSE_NOTIFY_INVAL_INODE : Z := 2.
Definition FUSE_NOTIFY_INVAL_ENTRY : Z := 3.
Definition FUSE_NOTIFY_RETRIEVE : Z := 5.
Definition FUSE_NOTIFY_DELETE : Z := 6.
Definition FUSE_EXPIRE_ONLY : Z := 1.
Definition FUSE_LL_EXPIRE_ONLY : Z := 1.

Definition send_notify_iov (notify_code : Z) (data : list Z) : MS Z :=
  s ← get;
  if negb (se_got_init s) then mret (- ENOTCONN)
  else fuse_send_msg send_errno (mkMsg None 0 notify_code data).

Definition fuse_lowlevel_notify_poll (kh : option Z) : MS Z :=
  match kh with
  | Some kh => send_notify_iov FUSE_NOTIFY_POLL (le 8 kh)
  | None => mret 0
  end.

Definition fuse_lowlevel_notify_inval_inode (ino off len : Z) : MS Z :=
  s ← get;
  if ci_proto_minor (se_conn s) <? 12 then mret (- ENOSYS)
  else send_notify_iov FUSE_NOTIFY_INVAL_INODE (le 8 ino ++ le 8 off ++ le 8 len).

Definition fuse_lowlevel_notify_entry (parent : Z) (name : cstring) (flags : Z) : MS Z :=
  s ← get;
  if ci_proto_minor (se_conn s) <? 12 then mret (- ENOSYS)
  else
    send_notify_iov FUSE_NOTIFY_INVAL_ENTRY
      (le 8 parent ++ le 4 (strlen name) ++
       le 4 (if has_flag flags FUSE_LL_EXPIRE_ONLY then FUSE_EXPIRE_ONLY else 0) ++ bytes_of name ++ [0]).

Definition fuse_lowlevel_notify_delete (parent child : Z) (name : cstring) : MS Z :=
  s ← get;
  if ci_proto_minor (se_conn s) <? 18 then mret (- ENOSYS)
  else
    send_notify_iov FUSE_NOTIFY_DELETE
      (le 8 parent ++ le 8 child ++ le 4 (strlen name) ++ le 4 0 ++ bytes_of name ++ [0]).

(** [fuse_lowlevel_notify_retrieve]: the notification is listed while it is on
    its way and taken off again when it could not be sent. *)
Definition fuse_lowlevel_notify_retrieve (ino size offset : Z) : MS Z :=
  s ← get;
  if ci_proto_minor (se_conn s) <? 15 then mret (- ENOSYS)
  else
    ok ← se_alloc alloc_ok;
    if negb ok then mret (- ENOMEM)
    else
      s ← get;
      let unique := se_notify_ctr s in
      put (set_notify (set_notify_ctr s (u64 (unique + 1))) (se_notify s ++ [unique]));;
      err ← send_notify_iov FUSE_NOTIFY_RETRIEVE
              (le 8 unique ++ le 8 ino ++ le 8 offset ++ le 4 size ++ le 4 0);
      (if truth err
       then modify (fun s => set_notify s (remove_first unique (se_notify s))) else mret tt);;
      mret err.

(** ** Dispatch *)

(** [fuse_ll_ops[opcode].func]. *)
Definition fuse_ll_ops (opcode : Z) : option (Z -> Z -> list Z -> MS unit) :=
  if opcode =? FUSE_LOOKUP then Some (do_lookup send_errno known_errno has_op)
  else if opcode =? FUSE_FORGET then Some (do_forget has_op)
  else if opcode =? FUSE_GETATTR then Some (do_getattr send_errno known_errno has_op)
  else if opcode =? FUSE_SETATTR then Some (do_setattr send_errno known_errno has_op)
  else if opcode =? FUSE_READLINK then Some (do_readlink send_errno known_errno has_op)
  else if opcode =? FUSE_SYMLINK then Some (do_symlink send_errno known_errno has_op)
  else if opcode =? FUSE_MKNOD then Some (do_mknod send_errno known_errno has_op)
  else if opcode =? FUSE_MKDIR then Some (do_mkdir send_errno known_errno has_op)
  else if opcode =? FUSE_UNLINK then Some (do_unlink send_errno known_errno has_op)
  else if opcode =? FUSE_RMDIR then Some (do_rmdir send_errno known_errno has_op)
  else if opcode =? FUSE_RENAME then Some (do_rename send_errno known_errno has_op)
  else if opcode =? FUSE_LINK then Some (do_link send_errno known_errno has_op)
  else if opcode =? FUSE_OPEN then Some (do_open send_errno known_errno has_op)
  else if opcode =? FUSE_READ then Some (do_read send_errno known_errno has_op)
  else if opcode =? FUSE_WRITE then Some (do_write send_errno known_errno has_op)
  else if opcode =? FUSE_STATFS then Some (do_statfs send_errno known_errno has_op)
  else if opcode =? FUSE_RELEASE then Some (do_release send_errno known_errno has_op)
  else if opcode =? FUSE_FSYNC then Some (do_fsync send_errno known_errno has_op)
  else if opcode =? FUSE_SETXATTR then Some (do_setxattr send_errno known_errno has_op)
  else if opcode =? FUSE_GETXATTR then Some (do_getxattr send_errno known_errno has_op)
  else if opcode =? FUSE_LISTXATTR then Some (do_listxattr send_errno known_errno has_op)
  else if opcode =? FUSE_REMOVEXATTR then Some (do_removexattr send_errno known_errno has_op)
  else if opcode =? FUSE_FLUSH then Some (do_flush send_errno known_errno has_op)
  else if opcode =? FUSE_INIT then Some do_init
  else if opcode =? FUSE_OPENDIR then Some (do_opendir send_errno known_errno has_op)
  else if opcode =? FUSE_READDIR then Some (do_readdir send_errno known_errno has_op)
  else if opcode =? FUSE_RELEASEDIR then Some (do_releasedir send_errno known_errno has_op)
  else if opcode =? FUSE_FSYNCDIR then Some (do_fsyncdir send_errno known_errno has_op)
  else if opcode =? FUSE_GETLK then Some (do_getlk send_errno known_errno has_op)
  else if opcode =? FUSE_SETLK then Some (do_setlk send_errno known_errno has_op)
  else if opcode =? FUSE_SETLKW then Some (do_setlkw send_errno known_errno has_op)
  else if opcode =? FUSE_ACCESS then Some (do_access send_errno known_errno has_op)
  else if opcode =? FUSE_CREATE then Some (do_create send_errno known_errno has_op)
  else if opcode =? FUSE_TMPFILE then Some (do_tmpfile send_errno known_errno has_op)
  else if opcode =? FUSE_INTERRUPT then Some do_interrupt
  else if opcode =? FUSE_BMAP then Some (do_bmap send_errno known_errno has_op)
  else if opcode =? FUSE_IOCTL then Some (do_ioctl send_errno known_errno has_op)
  else if opcode =? FUSE_POLL then Some (do_poll alloc_ok send_errno known_errno has_op)
  else if opcode =? FUSE_FALLOCATE then Some (do_fallocate send_errno known_errno has_op)
  else if opcode =? FUSE_DESTROY then Some (do_destroy send_errno known_errno has_op)
  else if opcode =? FUSE_NOTIFY_REPLY then Some (fun _ _ _ => abort)
  else if opcode =? FUSE_BATCH_FORGET then Some (do_batch_forget alloc_ok has_op)
  else if opcode =? FUSE_READDIRPLUS then Some (do_readdirplus send_errno known_errno has_op)
  else if opcode =? FUSE_RENAME2 then Some (do_rename2 send_errno known_errno has_op)
  else if opcode =? FUSE_COPY_FILE_RANGE then Some (do_copy_file_range send_errno known_errno has_op)
  else if opcode =? FUSE_LSEEK then Some (do_lseek send_errno known_errno has_op)
  else if opcode =? CUSE_INIT then Some cuse_lowlevel_init
  else None.

(** The operations that users other than the owner and root may have. *)
Definition allowed_to_all (opcode : Z) : bool :=
  (opcode =? FUSE_INIT) || (opcode =? FUSE_READ) || (opcode =? FUSE_WRITE) || (opcode =? FUSE_FSYNC) ||
  (opcode =? FUSE_RELEASE) || (opcode =? FUSE_READDIR) || (opcode =? FUSE_FSYNCDIR) ||
  (opcode =? FUSE_RELEASEDIR) || (opcode =? FUSE_NOTIFY_REPLY) || (opcode =? FUSE_READDIRPLUS).

(** The checks of [fuse_session_process_buf_internal]: the error, if any. *)
Definition check_request (s : session ll_call) (im : in_msg) : option Z :=
  let opcode := im_opcode im in
  if negb (se_got_init s) && negb (opcode =? (if cuse then CUSE_INIT else FUSE_INIT)) then Some EIO
  else if se_got_init s && ((opcode =? FUSE_INIT) || (opcode =? CUSE_INIT)) then Some EIO
  else if deny_others && negb (im_uid im =? owner) && negb (im_uid im =? 0) && negb (allowed_to_all opcode)
  then Some EACCES
  else if bool_decide (fuse_ll_ops opcode = None) then Some ENOSYS
  else if ci_no_interrupt (se_conn s) && (opcode =? FUSE_INTERRUPT) then Some ENOSYS
  else None.

(** [sizeof(struct fuse_in_header) + sizeof(struct fuse_write_in)]. *)
Definition write_header_size : Z := 80.

(** [fuse_session_process_buf_internal] until the handler is called: the request
    to be dispatched, if the message got that far. *)
Definition process_prepare (im : in_msg) (ch : bool) : MS (option Z) :=
  hdr ← (if im_is_fd im then
           ok ← se_alloc alloc_ok;
           mret (ok && (0 <=? im_copy1 im))
         else mret true);
  if negb hdr then mret None
  else
    req ← fuse_ll_alloc_req alloc_ok;
    match req with
    | None =>
      fuse_send_msg send_errno (mkMsg None (im_unique im) (- ENOMEM) []);; mret None
    | Some r =>
      req_set r (fun q => mkReq (im_unique im) (rq_ref_cnt q) (mkCtx (im_uid im) (im_gid im) (im_pid im) 0)
                                ch (rq_interrupted q) (rq_u q));;
      s ← get;
      match check_request s im with
      | Some err => reply_err r err;; mret None
      | None =>
        (if negb (ci_no_interrupt (se_conn s)) && negb (im_opcode im =? FUSE_INTERRUPT) then
           intr ← check_interrupt r;
           list_add_req r;;
           match intr with
           | Some i => reply_err i EAGAIN
           | None => mret tt
           end
         else mret tt);;
        if im_is_fd im && (write_header_size <? im_size im) &&
           (negb (im_opcode im =? FUSE_WRITE) || negb (has_op op_write_buf)) &&
           negb (im_opcode im =? FUSE_NOTIFY_REPLY)
        then
          ok ← se_alloc alloc_ok;
          if negb ok then reply_err r ENOMEM;; mret None
          else if im_copy2 im <? 0 then reply_err r (- im_copy2 im);; mret None
          else mret (Some r)
        else mret (Some r)
      end
    end.

(** The call of the handler. *)
Definition process_dispatch (r : Z) (im : in_msg) : MS unit :=
  if (im_opcode im =? FUSE_WRITE) && has_op op_write_buf
  then do_write_buf send_errno known_errno r (im_nodeid im) (im_arg im) (im_size im) (im_is_fd im)
  else if im_opcode im =? FUSE_NOTIFY_REPLY
  then do_notify_reply r (im_nodeid im) (im_arg im) (im_size im)
  else match fuse_ll_ops (im_opcode im) with
       | Some f => f r (im_nodeid im) (im_arg im)
       | None => abort
       end.

Definition fuse_session_process_buf_internal (im : in_msg) (ch : bool) : MS unit :=
  r ← process_prepare im ch;
  match r with
  | Some r => process_dispatch r im
  | None => mret tt
  end.

(** [fuse_req_interrupt_func]. *)
Definition fuse_req_interrupt_func (r func : Z) : MS unit :=
  req_set r (fun q => set_u q func);;
  q ← req_get r;
  if rq_interrupted q && truth func then log_op r (Call_interrupt func) else mret tt.
End session.
