(* ===== verification/SessionSafe.v ===== *)
(** * Requests under concurrency

    The invariant of the request table and its proof for every handler, then the
    step relation of a session served by several threads. *)
From S2P Require Import Prelude Wire Request Handlers Session.


(** ** Who owns a request *)

(** [owned]: requests a thread has prepared and not dispatched yet, with their
    messages.  [busy]: interrupt requests whose handler is between its two
    halves, with the request being interrupted. *)
Section inv.
Abbreviation St := (session ll_call).

(** Every request has one owner: a thread, the file system, or the list of
    waiting interrupts. *)
Definition live (s : St) (owned : list (Z * in_msg)) (busy : list (Z * Z)) : list Z :=
  owned.*1 ++ se_held s ++ se_interrupts s ++ busy.*1.

Definition answered (s : St) : list Z := omap om_req (se_out s).

Definition is_interrupt (im : in_msg) : bool := im_opcode im =? FUSE_INTERRUPT.

Record score (s : St) (owned : list (Z * in_msg)) (busy : list (Z * Z)) : Prop := {
  si_mode : ci_no_interrupt (se_conn s) = false;
  si_nodup : NoDup (live s owned busy);
  si_dom : forall r, is_Some (se_reqs s !! r) <-> r ∈ live s owned busy \/ r ∈ busy.*2;
  si_ref : forall r q, se_reqs s !! r = Some q ->
    rq_ref_cnt q = int_of_bool (bool_decide (r ∈ live s owned busy)) + Z.of_nat (count (busy.*2) r);
  si_ch : forall r q, se_reqs s !! r = Some q -> r ∉ live s owned busy -> rq_ch q = false;
  si_list : forall r, r ∈ se_list s -> r ∈ se_held s \/ exists im, (r, im) ∈ owned /\ is_interrupt im = false;
  si_busy : forall r, r ∈ busy.*2 -> r ∉ se_interrupts s /\ r ∉ busy.*1 /\
    forall im, (r, im) ∈ owned -> is_interrupt im = false;
  si_next : forall r, r ∈ live s owned busy \/ r ∈ busy.*2 -> r < se_next s;
}.

(** No request is answered twice, and none that still has an owner is answered. *)
Definition sout (s : St) (owned : list (Z * in_msg)) (busy : list (Z * Z)) : Prop :=
  NoDup (answered s) /\ forall r, r ∈ answered s -> r ∉ live s owned busy /\ r < se_next s.

Definition sinv (s : St) (owned : list (Z * in_msg)) (busy : list (Z * Z)) : Prop :=
  score s owned busy /\ sout s owned busy.

(** The order of the threads does not matter. *)
Lemma sinv_perm s owned owned' busy busy' :
  owned ≡ₚ owned' -> busy ≡ₚ busy' -> sinv s owned busy -> sinv s owned' busy'.
Proof.
  intros Ho Hb [[Hm Hnd Hdom Href Hch Hli Hbu Hne] Hou].
  assert (live s owned busy ≡ₚ live s owned' busy') as Hl by (unfold live; by rewrite Ho Hb).
  assert (forall r, r ∈ live s owned busy <-> r ∈ live s owned' busy') as HL by (intros r; by rewrite Hl).
  assert (busy.*2 ≡ₚ busy'.*2) as H2 by by rewrite Hb.
  assert (forall r, r ∈ busy.*2 <-> r ∈ busy'.*2) as HB by (intros r; by rewrite H2).
  assert (forall r, r ∈ busy.*1 <-> r ∈ busy'.*1) as HB1 by (intros r; by rewrite Hb).
  assert (forall x, x ∈ owned <-> x ∈ owned') as HO by (intros x; by rewrite Ho).
  split; [split; try done|].
  - by rewrite -Hl.
  - intros r. rewrite Hdom HL HB. done.
  - intros r q Hr. rewrite (Href r q Hr) (bool_decide_ext _ _ (HL r)).
    by rewrite (proj1 (Permutation_count_occ Z.eq_dec _ _) H2 r).
  - intros r q Hr Hn. apply (Hch r q Hr). by rewrite HL.
  - intros r Hr. destruct (Hli r Hr) as [?|(im & ? & ?)]; [by left|right]. exists im. by rewrite -HO.
  - intros r Hr. rewrite -HB in Hr. destruct (Hbu r Hr) as (? & ? & Him). split_and!; [done|by rewrite -HB1|].
    intros im. rewrite -HO. auto.
  - intros r. rewrite -HL -HB. auto.
  - destruct Hou as [? Hx]. split; [done|]. intros r Hr. rewrite -HL. auto.
Qed.

(** Changes that leave the request table alone. *)
Lemma sinv_frame (s s' : St) owned busy :
  se_reqs s' = se_reqs s -> se_next s' = se_next s -> se_list s' = se_list s ->
  se_interrupts s' = se_interrupts s -> ci_no_interrupt (se_conn s') = ci_no_interrupt (se_conn s) -> se_held s' = se_held s ->
  score s owned busy -> score s' owned busy /\ (answered s' = answered s -> sout s owned busy -> sout s' owned busy).
Proof.
  intros E1 E2 E3 E4 E5 E6 [Hm Hnd Hdom Href Hch Hli Hbu Hne].
  assert (live s' owned busy = live s owned busy) as El by by rewrite /live E6 E4.
  split; [split; rewrite ?El ?E1 ?E2 ?E3 ?E4 ?E5 ?E6; done|]. intros E7. unfold sout. by rewrite El E7 E2.
Qed.

(** Writing the fields of a request that no list depends on. *)
Lemma sinv_req_set s owned busy r (g : fuse_req -> fuse_req) (Q : unit -> St -> Prop) :
  sinv s owned busy -> r ∈ live s owned busy -> (forall q, rq_ref_cnt (g q) = rq_ref_cnt q) ->
  (forall s', sinv s' owned busy -> se_list s' = se_list s -> se_interrupts s' = se_interrupts s ->
     se_held s' = se_held s -> Q tt s') ->
  wp (req_set r g) Q s.
Proof.
  intros Hinv Hr Hg HQ. pose proof Hinv as [[Hm Hnd Hdom Href Hch Hli Hbu Hne] Hou].
  destruct (proj2 (Hdom r) (or_introl Hr)) as [q Hq]. unfold wp, req_set. rewrite Hq. apply HQ; [|done..].
  split; [split; try done|done].
  - intros x. cbn. rewrite -Hdom. destruct (decide (x = r)) as [->|Hne'].
    + rewrite lookup_insert_eq Hq. naive_solver.
    + by rewrite lookup_insert_ne.
  - intros x qx. cbn. destruct (decide (x = r)) as [->|Hne'].
    + rewrite lookup_insert_eq. intros [= <-]. rewrite Hg. by apply Href.
    + rewrite lookup_insert_ne //. apply Href.
  - intros x qx. cbn. destruct (decide (x = r)) as [->|Hne'].
    + rewrite lookup_insert_eq. intros [= <-] Hn. by destruct Hn.
    + rewrite lookup_insert_ne //. apply Hch.
Qed.

Lemma wp_req_get s r q (Q : fuse_req -> St -> Prop) : se_reqs s !! r = Some q -> Q q s -> wp (req_get r) Q s.
Proof. intros Hr HQ. unfold wp, req_get. by rewrite Hr. Qed.

Lemma owned_live s owned busy r im : (r, im) ∈ owned -> r ∈ live s owned busy.
Proof. intros H. unfold live. rewrite elem_of_app. left. rewrite list_elem_of_fmap. by exists (r, im). Qed.

Lemma elem_of_del (r x : Z) (l : list Z) : x ∈ filter (fun y => y <> r) l <-> x ∈ l /\ x <> r.
Proof. rewrite list_elem_of_filter. naive_solver. Qed.

Lemma filter_notin (r : Z) (l : list Z) : r ∉ l -> filter (fun y => y <> r) l = l.
Proof.
  intros H. induction l as [|x l IH]; [done|]. apply not_elem_of_cons in H as [? ?].
  rewrite filter_cons_True; [congruence|]. by rewrite IH.
Qed.

(** ** Freeing a request *)

(** A request that a thread owns and frees: it leaves every list, and its memory
    goes unless an interrupt handler still has it. *)
Lemma fuse_free_req_core s r im owned busy (Q : unit -> St -> Prop) :
  score s ((r, im) :: owned) busy ->
  (forall s', score s' owned busy -> se_out s' = se_out s -> se_next s' = se_next s ->
     live s' owned busy = live s owned busy -> Q tt s') ->
  wp (fuse_free_req r) Q s.
Proof.
  intros Hinv HQ. pose proof Hinv as [Hm Hnd Hdom Href Hch Hli Hbu Hne].
  assert (r ∈ live s ((r, im) :: owned) busy) as Hlive by (eapply owned_live; apply elem_of_cons; by left).
  assert (live s ((r, im) :: owned) busy = r :: live s owned busy) as Hle by done.
  rewrite Hle in Hnd. apply list.NoDup_cons in Hnd as [Hnr Hnd].
  assert (r ∉ se_interrupts s) as Hni by (intros Hx; apply Hnr; unfold live; set_solver).
  destruct (proj2 (Hdom r) (or_introl Hlive)) as [q Hq].
  pose proof (Href r q Hq) as Hrq. rewrite bool_decide_true // in Hrq. cbn in Hrq.
  unfold fuse_free_req. apply wp_bind, wp_get. rewrite Hm. apply wp_bind, wp_bind.
  unfold wp at 1, req_set at 1. rewrite Hq. apply wp_bind, wp_modify. cbn [se_list se_interrupts set_list set_interrupts set_reqs].
  unfold wp at 1, req_set at 1. cbn [se_reqs set_list set_interrupts set_reqs]. rewrite lookup_insert_eq.
  rewrite insert_insert_eq. cbn [rq_ref_cnt set_u]. set (q' := set_ch _ _).
  apply wp_bind. eapply wp_req_get; [apply lookup_insert_eq|]. cbn [rq_ref_cnt set_ch set_ref_cnt set_u q'].
  set (s1 := set_reqs _ _).
  assert (forall reqs, (forall x, x <> r -> reqs !! x = se_reqs s !! x) ->
    (match reqs !! r with Some q1 => rq_ref_cnt q1 = Z.of_nat (count (busy.*2) r) /\ rq_ch q1 = false /\ r ∈ busy.*2
                        | None => r ∉ busy.*2 end) ->
    score (set_reqs s1 reqs) owned busy /\ live (set_reqs s1 reqs) owned busy = live s owned busy) as Hfin.
  { intros reqs Hother Hr. split; [|unfold live; cbn [se_held se_interrupts set_reqs set_list set_interrupts s1]; by rewrite filter_notin].
    split; try done.
    - cbn. unfold live. cbn [se_held se_interrupts set_reqs set_list set_interrupts s1]. by rewrite filter_notin.
    - intros x. unfold live. cbn [se_reqs se_held se_interrupts set_reqs set_list set_interrupts s1]. rewrite filter_notin //.
      fold (live s owned busy). destruct (decide (x = r)) as [->|Hx].
      + destruct (reqs !! r); split; [intros _; right; apply Hr|by eauto|by intros []|]. intros [?|?]; done.
      + rewrite Hother // Hdom Hle elem_of_cons. naive_solver.
    - intros x qx. unfold live. cbn [se_reqs se_held se_interrupts set_reqs set_list set_interrupts s1]. rewrite filter_notin //.
      fold (live s owned busy). destruct (decide (x = r)) as [->|Hx].
      + intros Hx. rewrite Hx in Hr. destruct Hr as (-> & _). by rewrite bool_decide_false.
      + rewrite Hother //. intros Hqx. rewrite (Href x qx Hqx). do 2 f_equal. apply bool_decide_ext.
        rewrite Hle elem_of_cons. naive_solver.
    - intros x qx. unfold live. cbn [se_reqs se_held se_interrupts set_reqs set_list set_interrupts s1]. rewrite filter_notin //.
      fold (live s owned busy). destruct (decide (x = r)) as [->|Hx].
      + intros Hx _. rewrite Hx in Hr. by destruct Hr as (_ & -> & _).
      + rewrite Hother //. intros Hqx Hn. apply (Hch x qx Hqx). rewrite Hle elem_of_cons. naive_solver.
    - intros x. cbn [se_list se_held set_reqs set_list set_interrupts s1]. rewrite elem_of_del. intros [Hx Hxr].
      destruct (Hli x Hx) as [?|(imx & Hin & ?)]; [by left|right]. exists imx. split; [|done].
      apply elem_of_cons in Hin as [[= -> ->]|?]; [done|done].
    - intros x Hx. cbn [se_interrupts set_reqs set_list set_interrupts s1]. rewrite filter_notin //.
      destruct (Hbu x Hx) as (? & ? & Him). split_and!; [done..|]. intros imx Hin. apply Him, elem_of_cons. by right.
    - intros x. unfold live. cbn [se_next se_held se_interrupts set_reqs set_list set_interrupts s1].
      rewrite filter_notin //. fold (live s owned busy). intros Hx. apply Hne. rewrite Hle elem_of_cons. naive_solver. }
  destruct (Z.eqb_spec (rq_ref_cnt q - 1) 0) as [Hz|Hnz].
  - unfold destroy_req. apply wp_bind. eapply wp_req_get; [apply lookup_insert_eq|]. apply wp_bind, wp_assert; [done|].
    apply wp_modify. destruct (Hfin (delete r (se_reqs s1))); [..|by apply HQ].
    + intros x Hx. rewrite lookup_delete_ne // lookup_insert_ne //.
    + rewrite lookup_delete_eq. rewrite -count_pos. lia.
  - apply wp_ret. destruct (Hfin (se_reqs s1)); [..|by apply HQ].
    + intros x Hx. rewrite lookup_insert_ne //.
    + unfold s1. cbn [se_reqs set_reqs]. rewrite lookup_insert_eq. cbn. split_and!; [lia|done|]. apply count_pos. lia.
Qed.

(** ** Answering and handing over *)

(** A computation of the thread that owns [r] after which it owns [r] no more,
    the others being untouched. *)
Definition handles {A} (r : Z) (m : M St A) : Prop :=
  forall s im owned busy, is_interrupt im = false -> sinv s ((r, im) :: owned) busy ->
  wp m (fun _ s' => sinv s' owned busy) s.

(** What the session asks of an INIT handler: like every other handler it
    consumes the request it is given. *)
Class InitHandler (do_init : Z -> Z -> list Z -> M St unit) : Prop :=
  init_handles : forall r nodeid inarg, handles r (do_init r nodeid inarg).

Lemma owned_fresh s r im owned busy : score s ((r, im) :: owned) busy -> r ∉ live s owned busy.
Proof. intros H. apply si_nodup in H. change (live s _ busy) with (r :: live s owned busy) in H. by apply list.NoDup_cons in H as [? _]. Qed.

Lemma owned_head_live s r im owned busy : r ∈ live s ((r, im) :: owned) busy.
Proof. apply elem_of_cons. by left. Qed.

Lemma fuse_free_req_wp s r im owned busy :
  sinv s ((r, im) :: owned) busy -> wp (fuse_free_req r) (fun _ s' => sinv s' owned busy) s.
Proof.
  intros [Hc [Hnd Hout]]. eapply fuse_free_req_core; [done|]. intros s' Hc' Ho Hn Hl. split; [done|].
  unfold sout, answered. rewrite Ho Hl Hn. fold (answered s). split; [done|]. intros x Hx. destruct (Hout x Hx) as [Hx1 ?].
  split; [|done]. intros Hx2. apply Hx1. apply elem_of_cons. by right.
Qed.

Lemma send_reply_iov_wp send_errno known_errno s r im owned busy error data :
  sinv s ((r, im) :: owned) busy ->
  wp (send_reply_iov send_errno known_errno r error data) (fun _ s' => sinv s' owned busy) s.
Proof.
  intros [Hc [Hnd Hout]]. unfold send_reply_iov, fuse_send_reply_iov_nofree.
  destruct (proj2 (si_dom _ _ _ Hc r) (or_introl (owned_head_live s r im owned busy))) as [q Hq].
  apply wp_bind, wp_bind. eapply wp_req_get; [done|]. unfold wp at 1, fuse_send_msg.
  set (s1 := set_se_tick _ _). destruct (sinv_frame s s1 ((r, im) :: owned) busy) as [Hc1 _]; try done.
  apply wp_bind. eapply fuse_free_req_core; [done|]. intros s' Hc' Ho Hn Hl. apply wp_ret. split; [done|].
  unfold sout, answered. rewrite Ho Hl Hn. cbn [se_out se_next set_se_tick set_out s1]. rewrite omap_app. cbn [omap list_omap om_req].
  fold (answered s). change (live s1 owned busy) with (live s owned busy).
  assert (r ∉ answered s) as Hna by (intros Hx; destruct (Hout r Hx) as [[] _]; apply owned_head_live).
  split.
  - apply list.NoDup_app. split_and!; [done| |apply NoDup_singleton]. intros x Hx ->%list_elem_of_singleton. done.
  - intros x [Hx| ->%list_elem_of_singleton]%elem_of_app.
    + destruct (Hout x Hx) as [Hx1 ?]. split; [|done]. intros Hx2. apply Hx1. apply elem_of_cons. by right.
    + split; [by eapply owned_fresh|]. apply (si_next _ _ _ Hc). left. apply owned_head_live.
Qed.

Lemma call_op_wp s r im owned busy c :
  is_interrupt im = false -> sinv s ((r, im) :: owned) busy ->
  wp (call_op r c) (fun _ s' => sinv s' owned busy) s.
Proof.
  intros Him [[Hm Hnd Hdom Href Hch Hli Hbu Hne] Hout]. unfold call_op. apply wp_modify. set (s' := set_held _ _).
  assert (live s ((r, im) :: owned) busy ≡ₚ live s' owned busy) as Hl.
  { unfold live, s'. cbn. solve_Permutation. }
  assert (forall x, x ∈ live s' owned busy <-> x ∈ live s ((r, im) :: owned) busy) as HL by (intros x; by rewrite Hl).
  split; [split; try done|].
  - by rewrite -Hl.
  - intros x. rewrite HL. apply Hdom.
  - intros x q Hx. rewrite (bool_decide_ext _ _ (HL x)). by apply Href.
  - intros x q Hx. rewrite HL. by apply Hch.
  - intros x Hx. unfold s'. cbn [se_held set_held]. rewrite elem_of_app list_elem_of_singleton.
    destruct (Hli x Hx) as [?|(imx & Hin & ?)]; [auto|]. apply elem_of_cons in Hin as [[= -> ->]|?]; [auto|]. right. eauto.
  - intros x Hx. destruct (Hbu x Hx) as (? & ? & Hi). split_and!; [done..|]. intros imx Hin. apply Hi, elem_of_cons. by right.
  - intros x. rewrite HL. apply Hne.
  - destruct Hout as [? Hout]. split; [done|]. intros x Hx. rewrite HL. by apply Hout.
Qed.

Lemma log_op_wp s owned busy r c : sinv s owned busy -> wp (log_op r c) (fun _ s' => sinv s' owned busy) s.
Proof.
  intros [Hc Ho]. apply wp_modify. destruct (sinv_frame s (set_calls s (se_calls s ++ [(r, c)])) owned busy) as [? Hs]; done.
Qed.

(** ** The handlers *)

Section handlers.
Context (alloc_ok : nat -> bool) (send_errno : nat -> Z) (known_errno : Z -> bool) (has_op : ll_op -> bool).

Lemma handles_bind {A} r (m : M St A) : handles r m -> handles r (m;; mret tt).
Proof. intros H s im owned busy Hi Hs. apply wp_bind. eapply wp_mono; [exact (H s im owned busy Hi Hs)|]. intros a s' Hs'. by apply wp_ret. Qed.

Lemma handles_call r c : handles r (call_op r c).
Proof. intros s im owned busy Hi Hs. by eapply call_op_wp. Qed.

Lemma handles_send r e d : handles r (send_reply_iov send_errno known_errno r e d).
Proof. intros s im owned busy Hi Hs. by eapply send_reply_iov_wp. Qed.

Lemma handles_err r e : handles r (Handlers.reply_err send_errno known_errno r e).
Proof. apply handles_bind, handles_send. Qed.

Lemma handles_open r fi : handles r (Handlers.reply_open send_errno known_errno r fi).
Proof. apply handles_bind, handles_send. Qed.

Lemma handles_none r : handles r (fuse_reply_none r : M St unit).
Proof. intros s im owned busy Hi Hs. by eapply fuse_free_req_wp. Qed.

Lemma handles_if {A} r (b : bool) (m1 m2 : M St A) : handles r m1 -> handles r m2 -> handles r (if b then m1 else m2).
Proof. by destruct b. Qed.

Lemma handles_get {A} r (m : St -> M St A) : (forall s, handles r (m s)) -> handles r (s ← get; m s).
Proof. intros H s im owned busy Hi Hs. apply wp_bind, wp_get. by eapply H. Qed.

Lemma handles_op r o c : handles r (op_or_enosys send_errno known_errno has_op r o c).
Proof. apply handles_if; [apply handles_call|apply handles_err]. Qed.

Lemma handles_alloc {A} r (m : bool -> M St A) : (forall b, handles r (m b)) -> handles r (ok ← se_alloc alloc_ok; m ok).
Proof.
  intros H s im owned busy Hi [Hc Ho]. apply wp_bind. unfold wp at 1, se_alloc.
  destruct (sinv_frame s (set_se_tick s (S (se_tick s))) ((r, im) :: owned) busy) as [Hc' Hs']; try done.
  eapply H; [done|]. split; [done|]. by apply Hs'.
Qed.

Lemma handles_umask {A} r u (m : M St A) : handles r m -> handles r (set_umask r u;; m).
Proof.
  intros H s im owned busy Hi Hs. apply wp_bind. eapply sinv_req_set; [done|apply owned_head_live|done|].
  intros s' Hs' _ _ _. by eapply H.
Qed.

Lemma handles_ret {A B} r (a : A) (m : A -> M St B) : handles r (m a) -> handles r (mret a ≫= m).
Proof. done. Qed.

Lemma handles_assoc {A B} r (m : M St unit) (a : A) (k : A -> M St B) :
  handles r (m;; k a) -> handles r ((m;; mret a) ≫= k).
Proof. intros H s im owned busy Hi Hs. pose proof (H s im owned busy Hi Hs) as Hw. revert Hw. unfold wp, mbind, M_bind, mret, M_ret. by destruct (m s) as [[u s']| |]. Qed.

(** The shape of a handler: reads, then one answer or one call. *)
Ltac handles_step :=
  lazymatch goal with
  | |- handles _ (call_op _ _) => apply handles_call
  | |- handles _ (Handlers.reply_err _ _ _ _) => apply handles_err
  | |- handles _ (Handlers.reply_open _ _ _ _) => apply handles_open
  | |- handles _ (fuse_reply_none _) => apply handles_none
  | |- handles _ (op_or_enosys _ _ _ _ _ _) => apply handles_op
  | |- handles _ (if ?b then _ else _) => destruct b
  | |- handles _ (get ≫= _) => apply handles_get; intros ?; cbn beta zeta
  | |- handles _ (se_alloc _ ≫= _) => apply handles_alloc; intros []; cbn beta iota
  | |- handles _ (set_umask _ _ ≫= _) => apply handles_umask
  | |- handles _ (mret _ ≫= _) => apply handles_ret; cbn beta
  | |- handles _ ((_ ≫= (fun _ => mret _)) ≫= _) => apply handles_assoc; cbn beta
  | |- handles _ ((if ?b then _ else _) ≫= _) => destruct b
  end.
Ltac solve_handles := cbn zeta; repeat handles_step.

(** A new request, owned by the thread that allocated it. *)
Lemma alloc_req_wp s owned busy im (Q : option Z -> St -> Prop) :
  sinv s owned busy ->
  (forall s', sinv s' owned busy -> Q None s') ->
  (forall r s', sinv s' ((r, im) :: owned) busy -> se_interrupts s' = se_interrupts s -> r ∉ se_list s' -> Q (Some r) s') ->
  wp (fuse_ll_alloc_req alloc_ok) Q s.
Proof using Type.
  clear send_errno known_errno has_op.
  intros [Hc Ho] HN HS. unfold fuse_ll_alloc_req. apply wp_bind. unfold wp at 1, se_alloc.
  set (s1 := set_se_tick s _). destruct (sinv_frame s s1 owned busy) as [Hc1 Ho1]; try done.
  destruct (alloc_ok (se_tick s)); cbn [negb]; [|apply wp_ret, HN; split; [done|by apply Ho1]].
  apply wp_bind, wp_get, wp_bind, wp_put, wp_ret.
  set (r := se_next s1). destruct Hc as [Hm Hnd Hdom Href Hch Hli Hbu Hne], Ho as [Hnd2 Ho].
  assert (r ∉ live s owned busy /\ r ∉ busy.*2) as [Hr1 Hr2].
  { split; intros Hx; assert (r < se_next s) by (apply Hne; auto); unfold r, s1 in *; cbn in *; lia. }
  assert (forall x, x ∈ live s ((r, im) :: owned) busy <-> x = r \/ x ∈ live s owned busy) as HL by (intros x; apply elem_of_cons).
  apply HS; [|done|].
  - split; [split|split]; cbn [se_conn se_reqs se_list se_interrupts se_next se_out se_held set_next set_reqs s1 set_se_tick]; try done.
    + apply list.NoDup_cons. done.
    + intros x. change (live _ ((r, im) :: owned) busy) with (live s ((r, im) :: owned) busy). rewrite HL.
      destruct (decide (x = r)) as [->|Hx]; [rewrite lookup_insert_eq; naive_solver|]. rewrite lookup_insert_ne // Hdom. naive_solver.
    + intros x q. change (live _ ((r, im) :: owned) busy) with (live s ((r, im) :: owned) busy).
      destruct (decide (x = r)) as [->|Hx].
      * rewrite lookup_insert_eq. intros [= <-]. rewrite bool_decide_true; [apply HL; by left|]. by rewrite count_zero.
      * rewrite lookup_insert_ne //. intros Hq. rewrite (Href x q Hq). do 2 f_equal. apply bool_decide_ext. rewrite HL. naive_solver.
    + intros x q. change (live _ ((r, im) :: owned) busy) with (live s ((r, im) :: owned) busy).
      destruct (decide (x = r)) as [->|Hx]; [rewrite HL; naive_solver|]. rewrite lookup_insert_ne // HL. intros Hq Hn. apply (Hch x q Hq). naive_solver.
    + intros x Hx. destruct (Hli x Hx) as [?|(imx & ? & ?)]; [by left|right]. exists imx. split; [apply elem_of_cons; by right|done].
    + intros x Hx. destruct (Hbu x Hx) as (? & ? & Hi). split_and!; [done..|]. intros imx [[= -> ->]|Hin]%elem_of_cons; [done|eauto].
    + intros x. change (live _ ((r, im) :: owned) busy) with (live s ((r, im) :: owned) busy). rewrite HL.
      intros [[->|Hx]|Hx]; [unfold r; lia|..]; (assert (x < se_next s) by (apply Hne; auto)); unfold r, s1; cbn; lia.
    + intros x Hx. destruct (Ho x Hx) as [? Hlt]. change (live _ ((r, im) :: owned) busy) with (live s ((r, im) :: owned) busy). rewrite HL.
      split; [|unfold r, s1; cbn; lia]. intros [->|?]; [|done]. unfold r, s1 in Hlt. cbn in Hlt. lia.
  - cbn. intros Hx. destruct (Hli r Hx) as [Hh|(imx & Hin & _)]; apply Hr1.
    + unfold live. rewrite !elem_of_app. auto.
    + by eapply owned_live.
Qed.

Lemma batch_forget_wp r inarg n : forall i s im owned busy,
  sinv s ((r, im) :: owned) busy ->
  wp (batch_forget_loop alloc_ok r inarg n i) (fun _ s' => sinv s' ((r, im) :: owned) busy) s.
Proof.
  induction n as [|n IH]; intros i s im owned busy Hs; cbn [batch_forget_loop]; [by apply wp_ret|].
  set (dm := mkIn 0 0 0 0 0 0 [] 0 false 0 0).
  apply wp_bind. eapply (alloc_req_wp s _ busy dm); [done|intros s' Hs'; by apply wp_ret|].
  intros d s1 Hs1 _ _. cbn beta iota.
  destruct (proj2 (si_dom _ _ _ (proj1 Hs1) r)) as [q Hq]; [left; apply elem_of_cons; right; apply elem_of_cons; by left|].
  apply wp_bind. eapply wp_req_get; [done|]. apply wp_bind.
  eapply sinv_req_set; [exact Hs1|apply owned_head_live|done|]. intros s2 Hs2 _ _ _. destruct (forget_one inarg i).
  apply wp_bind. eapply wp_mono; [eapply (call_op_wp s2 d dm); done|]. intros [] s3 Hs3. by apply IH.
Qed.

Lemma handles_batch_forget r nodeid inarg : handles r (do_batch_forget alloc_ok has_op r nodeid inarg).
Proof.
  unfold do_batch_forget. cbn zeta. handles_step; [handles_step|]. handles_step; [|handles_step].
  intros s im owned busy Hi Hs. apply wp_bind.
  eapply wp_mono; [apply (batch_forget_wp r inarg _ _ _ im owned busy Hs)|].
  intros [] s' Hs'. by eapply fuse_free_req_wp.
Qed.

Lemma handles_setlk r nodeid inarg sleep : handles r (do_setlk_common send_errno known_errno has_op r nodeid inarg sleep).
Proof. unfold do_setlk_common. destruct (lk_flock inarg) as [[[? ?] ?] ?]. solve_handles. Qed.

Lemma handles_destroy r nodeid inarg : handles r (do_destroy send_errno known_errno has_op r nodeid inarg).
Proof.
  intros s im owned busy Hi [Hc Ho]. unfold do_destroy. apply wp_bind, wp_modify.
  set (s1 := set_got_init _ _). destruct (sinv_frame s s1 ((r, im) :: owned) busy) as [Hc1 Ho1]; try done.
  assert (sinv s1 ((r, im) :: owned) busy) as Hs1 by (split; [done|by apply Ho1]).
  apply wp_bind. apply wp_mono with (P := fun _ s' => sinv s' ((r, im) :: owned) busy).
  { destruct (has_op op_destroy); [by apply log_op_wp|by apply wp_ret]. }
  intros [] s2 Hs2. exact (handles_bind _ _ (handles_send _ _ _) _ _ _ _ Hi Hs2).
Qed.

Lemma handles_ops opcode f r nodeid inarg do_init cuse_init :
  fuse_ll_ops alloc_ok send_errno known_errno has_op do_init cuse_init opcode = Some f ->
  (opcode = FUSE_INIT -> InitHandler do_init) -> (opcode = CUSE_INIT -> InitHandler cuse_init) ->
  opcode <> FUSE_INTERRUPT -> opcode <> FUSE_NOTIFY_REPLY ->
  handles r (f r nodeid inarg).
Proof.
  intros Hf H1 H2 H3 H4. unfold fuse_ll_ops in Hf.
  repeat (match type of Hf with (if ?a =? ?b then _ else _) = _ => destruct (Z.eqb_spec a b) end;
    [first [done|injection Hf as <-]|]); [..|discriminate].
  all: try solve [by apply H1|by apply H2].
  all: try solve [unfold do_lookup, do_forget, do_getattr, do_setattr, do_readlink, do_symlink, do_mknod, do_mkdir, do_unlink,
    do_rmdir, do_rename, do_link, do_open, do_read, do_write, do_statfs, do_release, do_fsync, do_setxattr, do_getxattr,
    do_listxattr, do_removexattr, do_flush, do_opendir, do_readdir, do_releasedir, do_fsyncdir, do_access,
    do_create, do_tmpfile, do_bmap, do_ioctl, do_poll, do_fallocate, do_readdirplus, do_rename2, do_copy_file_range,
    do_lseek; solve_handles].
  - (* STATFS *)
    unfold do_statfs. handles_step; [handles_step|]. apply handles_bind. unfold fuse_reply_statfs. handles_step. apply handles_send.
  - (* GETLK *)
    unfold do_getlk. destruct (lk_flock inarg) as [[[? ?] ?] ?]. handles_step.
  - apply handles_setlk.
  - apply handles_setlk.
  - apply handles_destroy.
  - apply handles_batch_forget.
Qed.
End handlers.

(** ** Interrupts *)

(** The message of an interrupt. *)
Definition intr_msg : in_msg := mkIn FUSE_INTERRUPT 0 0 0 0 0 [] 0 false 0 0.

(** The owners are separate. *)
Lemma score_sep s owned busy : score s owned busy ->
  NoDup (owned.*1) /\
  (forall x, x ∈ owned.*1 -> x ∉ se_held s /\ x ∉ se_interrupts s /\ x ∉ busy.*1) /\
  (forall x, x ∈ se_held s -> x ∉ se_interrupts s /\ x ∉ busy.*1) /\
  (forall x, x ∈ se_interrupts s -> x ∉ busy.*1).
Proof.
  intros H. apply si_nodup in H. unfold live in H.
  apply list.NoDup_app in H as (? & H1 & H). apply list.NoDup_app in H as (_ & H2 & H). apply list.NoDup_app in H as (_ & H3 & _).
  split_and!; [done|..].
  - intros x Hx. specialize (H1 x Hx). rewrite !elem_of_app in H1. naive_solver.
  - intros x Hx. specialize (H2 x Hx). rewrite !elem_of_app in H2. naive_solver.
  - done.
Qed.

(** A thread owns a request once, so its message is determined. *)
Lemma owned_unique (owned : list (Z * in_msg)) r im im' :
  NoDup (owned.*1) -> (r, im) ∈ owned -> (r, im') ∈ owned -> im = im'.
Proof.
  induction owned as [|[x imx] owned IH]; [by intros _ ?%elem_of_nil|]. cbn. intros [Hx Hnd]%list.NoDup_cons.
  assert (forall y i, (y, i) ∈ owned -> y ∈ owned.*1) as Hin by (intros y i ?; rewrite list_elem_of_fmap; by exists (y, i)).
  intros [H1|H1]%elem_of_cons [H2|H2]%elem_of_cons; simplify_eq; [done|..|by eapply IH].
  - by apply Hin in H2.
  - by apply Hin in H1.
Qed.

Lemma list_dom s owned busy r : score s owned busy -> r ∈ se_list s \/ r ∈ se_interrupts s -> is_Some (se_reqs s !! r).
Proof.
  intros Hc Hr. apply (si_dom _ _ _ Hc). left. unfold live. rewrite !elem_of_app. destruct Hr as [Hr|Hr]; [|auto].
  destruct (si_list _ _ _ Hc r Hr) as [?|(im & Hin & _)]; [auto|]. left. rewrite list_elem_of_fmap. by exists (r, im).
Qed.

Lemma find_req_wp p l s (Q : option Z -> St -> Prop) :
  (forall r, r ∈ l -> is_Some (se_reqs s !! r)) ->
  (forall r, (match r with Some x => x ∈ l | None => True end) -> Q r s) -> wp (find_req p l) Q s.
Proof.
  intros Hl HQ. revert HQ. induction l as [|r l IH]; intros HQ; cbn [find_req]; [apply wp_ret; by apply HQ|].
  destruct (Hl r) as [q Hq]; [apply elem_of_cons; by left|]. apply wp_bind. eapply wp_req_get; [done|].
  destruct (p q); [apply wp_ret, HQ, elem_of_cons; by left|]. apply IH.
  - intros x Hx. apply Hl, elem_of_cons. by right.
  - intros [x|] Hx; apply HQ; [apply elem_of_cons; by right|done].
Qed.

(** Freeing an interrupt request. *)
Lemma drop_interrupt_wp s r im owned busy :
  is_interrupt im = true -> sinv s ((r, im) :: owned) busy ->
  wp (drop_interrupt r) (fun _ s' => sinv s' owned busy) s.
Proof.
  intros Him [Hc Ho]. pose proof (owned_fresh _ _ _ _ _ Hc) as Hfr.
  destruct (proj2 (si_dom _ _ _ Hc r) (or_introl (owned_head_live s r im owned busy))) as [q Hq].
  destruct Hc as [Hm Hnd Hdom Href Hch Hli Hbu Hne], Ho as [Hnd2 Ho].
  assert (r ∉ busy.*2) as Hb.
  { intros Hx. destruct (Hbu r Hx) as (_ & _ & Hi). rewrite (Hi im) in Him; [apply elem_of_cons; by left|done]. }
  assert (r ∉ se_list s) as Hl.
  { intros Hx. destruct (Hli r Hx) as [Hh|(imx & Hin & Hi)].
    - apply Hfr. unfold live. rewrite !elem_of_app. auto.
    - apply elem_of_cons in Hin as [[= ->]|Hin]; [congruence|]. apply Hfr. by eapply owned_live. }
  assert (forall x, x ∈ live s ((r, im) :: owned) busy <-> x = r \/ x ∈ live s owned busy) as HL by (intros x; apply elem_of_cons).
  unfold drop_interrupt. apply wp_bind. unfold wp at 1, req_set. rewrite Hq. unfold destroy_req. apply wp_bind.
  eapply wp_req_get; [apply lookup_insert_eq|]. apply wp_bind, wp_assert; [done|]. apply wp_modify.
  set (s' := set_reqs _ _). assert (se_reqs s' !! r = None) as Hr0 by apply lookup_delete_eq.
  assert (forall x, x <> r -> se_reqs s' !! x = se_reqs s !! x) as Hreqs.
  { intros x Hx. unfold s'. cbn. by rewrite lookup_delete_ne // lookup_insert_ne. }
  change (live s' owned busy) with (live s owned busy) in *.
  split; [split; try done|split; [done|]].
  - by apply list.NoDup_cons in Hnd as [_ ?].
  - intros x. change (live s' owned busy) with (live s owned busy). destruct (decide (x = r)) as [->|Hx].
    + rewrite Hr0. split; [by intros []|]. intros [?|?]; done.
    + rewrite Hreqs // Hdom HL. naive_solver.
  - intros x qx. change (live s' owned busy) with (live s owned busy). destruct (decide (x = r)) as [->|Hx]; [by rewrite Hr0|]. rewrite Hreqs //.
    intros Hqx. rewrite (Href x qx Hqx). do 2 f_equal. apply bool_decide_ext. rewrite HL. naive_solver.
  - intros x qx. change (live s' owned busy) with (live s owned busy). destruct (decide (x = r)) as [->|Hx]; [by rewrite Hr0|]. rewrite Hreqs //.
    intros Hqx Hn. apply (Hch x qx Hqx). rewrite HL. naive_solver.
  - intros x Hx. destruct (Hli x Hx) as [?|(imx & Hin & ?)]; [by left|right]. exists imx. split; [|done].
    apply elem_of_cons in Hin as [[= -> ->]|?]; [by destruct Hl|done].
  - intros x Hx. destruct (Hbu x Hx) as (? & ? & Hi). split_and!; [done..|]. intros imx Hin. apply Hi, elem_of_cons. by right.
  - intros x Hx. change (live s' owned busy) with (live s owned busy) in Hx. apply Hne. rewrite HL. naive_solver.
  - intros x Hx. destruct (Ho x Hx) as [Hx1 ?]. split; [|done]. intros Hx2. apply Hx1, HL. by right.
Qed.

(** A waiting interrupt is taken off its list by a thread. *)
Lemma take_interrupt_wp s curr owned busy (Q : unit -> St -> Prop) :
  sinv s owned busy -> curr ∈ se_interrupts s ->
  (forall s', sinv s' ((curr, intr_msg) :: owned) busy -> Q tt s') -> wp (list_del_req curr) Q s.
Proof.
  intros [Hc Ho] Hin HQ. pose proof (score_sep _ _ _ Hc) as (_ & Hs1 & Hs2 & Hs3). apply wp_modify, HQ.
  pose proof Hc as [Hm Hnd Hdom Href Hch Hli Hbu Hne].
  assert (curr ∉ se_list s) as Hl.
  { intros Hx. destruct (Hli curr Hx) as [Hh|(im & Ho' & _)]; [by destruct (Hs2 _ Hh)|].
    destruct (Hs1 curr) as (_ & ? & _); [rewrite list_elem_of_fmap; by exists (curr, im)|done]. }
  set (s' := set_interrupts _ _).
  assert (NoDup (se_interrupts s)) as Hndi.
  { unfold live in Hnd. apply list.NoDup_app in Hnd as (_ & _ & Hx). apply list.NoDup_app in Hx as (_ & _ & Hx).
    by apply list.NoDup_app in Hx as (? & _). }
  assert (se_interrupts s ≡ₚ curr :: filter (fun y => y <> curr) (se_interrupts s)) as Hp.
  { clear -Hin Hndi. induction (se_interrupts s) as [|x l IH]; [by apply elem_of_nil in Hin|].
    apply list.NoDup_cons in Hndi as [Hx Hndi]. destruct (decide (x = curr)) as [->|Hne].
    - rewrite filter_cons_False; [by intros []|]. by rewrite filter_notin.
    - apply elem_of_cons in Hin as [->|Hin]; [done|]. rewrite filter_cons_True // {1}IH //. constructor. }
  assert (live s owned busy ≡ₚ live s' ((curr, intr_msg) :: owned) busy) as HP.
  { unfold live, s'. cbn [se_held se_interrupts set_interrupts set_list fmap list_fmap fst]. rewrite {1}Hp. solve_Permutation. }
  assert (forall x, x ∈ live s' ((curr, intr_msg) :: owned) busy <-> x ∈ live s owned busy) as HL by (intros x; by rewrite HP).
  split; [split; try done|].
  - by rewrite -HP.
  - intros x. rewrite HL. apply Hdom.
  - intros x q Hq. rewrite (bool_decide_ext _ _ (HL x)). by apply Href.
  - intros x q Hq. rewrite HL. by apply Hch.
  - intros x. unfold s'. cbn [se_list se_held set_interrupts set_list]. rewrite filter_notin //. intros Hx.
    destruct (Hli x Hx) as [?|(im & ? & ?)]; [by left|right]. exists im. split; [apply elem_of_cons; by right|done].
  - intros x Hx. destruct (Hbu x Hx) as (Hx1 & ? & Hi). split_and!; [|done|].
    + unfold s'. cbn [se_interrupts set_interrupts]. rewrite elem_of_del. naive_solver.
    + intros im [[= -> ->]|Hin']%elem_of_cons; [done|eauto].
  - intros x. rewrite HL. apply Hne.
  - destruct Ho as [? Ho]. split; [done|]. intros x Hx. rewrite HL. by apply Ho.
Qed.

(** The first half of an interrupt that finds its request: the request it found
    cannot go away before the second half. *)
Lemma interrupt_ref_wp s r im curr owned busy (Q : unit -> St -> Prop) :
  is_interrupt im = true -> sinv s ((r, im) :: owned) busy -> curr ∈ se_list s ->
  (forall s', sinv s' owned ((r, curr) :: busy) -> Q tt s') ->
  wp (req_set curr (fun q => set_ref_cnt q (rq_ref_cnt q + 1))) Q s.
Proof.
  intros Him [Hc Ho] Hcl HQ. pose proof (score_sep _ _ _ Hc) as (Hn1 & Hs1 & Hs2 & Hs3).
  destruct (list_dom _ _ _ curr Hc (or_introl Hcl)) as [q Hq].
  pose proof Hc as [Hm Hnd Hdom Href Hch Hli Hbu Hne].
  assert ((curr ∈ se_held s \/ exists imc, (curr, imc) ∈ (r, im) :: owned /\ is_interrupt imc = false)) as Hcur by by apply Hli.
  assert (curr <> r /\ curr ∉ se_interrupts s /\ curr ∉ busy.*1 /\
    forall imx, (curr, imx) ∈ owned -> is_interrupt imx = false) as (Hcr & Hci & Hcb & Hco).
  { destruct Hcur as [Hh|(imc & Hin & Hi)].
    - destruct (Hs2 _ Hh) as [? ?]. split_and!; [|done|done|].
      + intros ->. destruct (Hs1 r) as (? & _); [apply elem_of_cons; by left|done].
      + intros imx Hx. destruct (Hs1 curr) as (? & _); [cbn; apply elem_of_cons; right; rewrite list_elem_of_fmap; by exists (curr, imx)|done].
    - destruct (Hs1 curr) as (_ & ? & ?); [rewrite list_elem_of_fmap; by exists (curr, imc)|]. split_and!; [|done|done|].
      + intros ->. rewrite (owned_unique _ r im imc Hn1) in Him; [apply elem_of_cons; by left|done|congruence].
      + intros imx Hx. rewrite (owned_unique _ curr imx imc Hn1); [apply elem_of_cons; by right|done|done]. }
  assert (curr ∈ live s ((r, im) :: owned) busy) as Hcl2.
  { destruct Hcur as [Hh|(imc & Hin & _)]; [unfold live; rewrite !elem_of_app; auto|by eapply owned_live]. }
  assert (r ∉ busy.*2) as Hrb.
  { intros Hx. destruct (Hbu r Hx) as (_ & _ & Hi). rewrite (Hi im) in Him; [apply elem_of_cons; by left|done]. }
  unfold wp, req_set. rewrite Hq. apply HQ. set (s' := set_reqs _ _).
  assert (live s ((r, im) :: owned) busy ≡ₚ live s' owned ((r, curr) :: busy)) as HP.
  { unfold live, s'. cbn [se_held se_interrupts set_reqs fmap list_fmap fst]. solve_Permutation. }
  assert (forall x, x ∈ live s' owned ((r, curr) :: busy) <-> x ∈ live s ((r, im) :: owned) busy) as HL by (intros x; by rewrite HP).
  split; [split; try done|].
  - by rewrite -HP.
  - intros x. rewrite HL. cbn [fmap list_fmap snd]. rewrite elem_of_cons. unfold s'. cbn [se_reqs set_reqs].
    destruct (decide (x = curr)) as [->|Hx].
    + rewrite lookup_insert_eq. naive_solver.
    + rewrite lookup_insert_ne // Hdom. naive_solver.
  - intros x qx. rewrite (bool_decide_ext _ _ (HL x)). cbn [fmap list_fmap snd]. unfold s'. cbn [se_reqs set_reqs].
    destruct (decide (x = curr)) as [->|Hx].
    + rewrite lookup_insert_eq. intros [= <-]. cbn [rq_ref_cnt set_ref_cnt]. rewrite (Href _ q Hq) count_occ_cons_eq //. lia.
    + rewrite lookup_insert_ne // count_occ_cons_neq; [congruence|]. apply Href.
  - intros x qx. rewrite HL. unfold s'. cbn [se_reqs set_reqs]. destruct (decide (x = curr)) as [->|Hx].
    + by intros _ [].
    + rewrite lookup_insert_ne //. apply Hch.
  - intros x Hx. destruct (Hli x Hx) as [?|(imx & Hin & ?)]; [by left|right]. exists imx. split; [|done].
    apply elem_of_cons in Hin as [Hin|?]; [|done]. simplify_eq. congruence.
  - intros x. cbn [fmap list_fmap fst snd]. intros [->|Hx]%elem_of_cons.
    + split_and!; [done| |done]. apply not_elem_of_cons. done.
    + destruct (Hbu x Hx) as (? & ? & Hi). split_and!; [done| |].
      * apply not_elem_of_cons. split; [|done]. intros ->. done.
      * intros imx Hin. apply Hi, elem_of_cons. by right.
  - intros x. rewrite HL. cbn [fmap list_fmap snd]. rewrite elem_of_cons.
    intros [?|[->|?]]; apply Hne; auto.
  - destruct Ho as [? Ho]. split; [done|]. intros x Hx. rewrite HL. by apply Ho.
Qed.

(** Replacing the request structure at [curr], which a handler has a reference to. *)
Lemma interrupt_end_wp s r curr owned busy :
  sinv s owned ((r, curr) :: busy) ->
  wp (interrupt_end curr) (fun _ s' => sinv s' ((r, intr_msg) :: owned) busy) s.
Proof.
  intros [Hc Ho]. pose proof Hc as [Hm Hnd Hdom Href Hch Hli Hbu Hne].
  cbn [fmap list_fmap fst snd] in *.
  destruct (proj2 (Hdom curr)) as [q Hq]; [right; apply elem_of_cons; by left|].
  pose proof (Href curr q Hq) as Hrq. rewrite count_occ_cons_eq // in Hrq.
  unfold interrupt_end. apply wp_bind. unfold wp at 1, req_set. rewrite Hq.
  apply wp_bind. eapply wp_req_get; [apply lookup_insert_eq|]. cbn [rq_u set_interrupted]. apply wp_bind.
  set (s1 := set_reqs s _).
  apply wp_mono with (P := fun _ s2 => exists l, s2 = set_calls s1 l).
  { destruct (truth _); [apply wp_modify; by eexists|apply wp_ret]. exists (se_calls s1). by destruct s1. }
  intros [] s2 [l ->]. apply wp_bind. unfold wp at 1, req_set. cbn [se_reqs set_calls s1 set_reqs]. rewrite lookup_insert_eq.
  rewrite insert_insert_eq. cbn [rq_ref_cnt set_interrupted]. apply wp_bind. eapply wp_req_get; [apply lookup_insert_eq|].
  cbn [rq_ref_cnt set_ref_cnt]. set (s3 := set_reqs _ _).
  assert (live s owned ((r, curr) :: busy) ≡ₚ live s3 ((r, intr_msg) :: owned) busy) as HP.
  { unfold live, s3. cbn [se_held se_interrupts set_reqs set_calls s1 fmap list_fmap fst]. solve_Permutation. }
  assert (forall x, x ∈ live s3 ((r, intr_msg) :: owned) busy <-> x ∈ live s owned ((r, curr) :: busy)) as HL by (intros x; by rewrite HP).
  assert (forall reqs, (forall x, x <> curr -> reqs !! x = se_reqs s !! x) ->
    (match reqs !! curr with
     | Some q1 => rq_ref_cnt q1 = rq_ref_cnt q - 1 /\ rq_ch q1 = rq_ch q /\ rq_ref_cnt q1 <> 0
     | None => rq_ref_cnt q - 1 = 0 end) -> sinv (set_reqs s3 reqs) ((r, intr_msg) :: owned) busy) as Hfin.
  { intros reqs Hother Hcr. change (live (set_reqs s3 reqs) ((r, intr_msg) :: owned) busy) with (live s3 ((r, intr_msg) :: owned) busy).
    assert (is_Some (reqs !! curr) <-> curr ∈ live s owned ((r, curr) :: busy) \/ curr ∈ busy.*2) as Hdc.
    { rewrite -(count_pos (busy.*2)). destruct (reqs !! curr) as [q1|].
      - destruct Hcr as (He & _ & Hnz). split; [intros _|by eauto]. destruct (decide (curr ∈ live s owned ((r, curr) :: busy))) as [|Hn]; [by left|].
        right. rewrite bool_decide_false // in Hrq. cbn in Hrq. lia.
      - split; [by intros []|]. intros [Hx|Hx]; exfalso.
        + rewrite bool_decide_true // in Hrq. cbn in Hrq. lia.
        + pose proof (bool_decide_reflect (curr ∈ live s owned ((r, curr) :: busy))) as Hr'. destruct (bool_decide _) in Hrq; cbn in Hrq; lia. }
    split; [split; try done|].
    - change (live (set_reqs s3 reqs) ((r, intr_msg) :: owned) busy) with (live s3 ((r, intr_msg) :: owned) busy). by rewrite -HP.
    - intros x. change (live (set_reqs s3 reqs) ((r, intr_msg) :: owned) busy) with (live s3 ((r, intr_msg) :: owned) busy). rewrite HL.
      cbn [se_reqs set_reqs]. destruct (decide (x = curr)) as [->|Hx]; [done|]. rewrite Hother // Hdom elem_of_cons. naive_solver.
    - intros x qx. change (live (set_reqs s3 reqs) ((r, intr_msg) :: owned) busy) with (live s3 ((r, intr_msg) :: owned) busy).
      rewrite (bool_decide_ext _ _ (HL x)). cbn [se_reqs set_reqs]. destruct (decide (x = curr)) as [->|Hx].
      + intros Hqx. rewrite Hqx in Hcr. lia.
      + rewrite Hother //. intros Hqx. rewrite (Href x qx Hqx) count_occ_cons_neq //; congruence.
    - intros x qx. change (live (set_reqs s3 reqs) ((r, intr_msg) :: owned) busy) with (live s3 ((r, intr_msg) :: owned) busy). rewrite HL.
      cbn [se_reqs set_reqs]. destruct (decide (x = curr)) as [->|Hx].
      + intros Hqx Hn. rewrite Hqx in Hcr. destruct Hcr as (_ & -> & _). by apply (Hch curr q).
      + rewrite Hother //. apply Hch.
    - intros x Hx. destruct (Hli x Hx) as [?|(imx & Hin & ?)]; [by left|right]. exists imx. split; [apply elem_of_cons; by right|done].
    - intros x Hx. destruct (Hbu x) as (? & Hnb & Hi); [apply elem_of_cons; by right|]. apply not_elem_of_cons in Hnb as [? ?].
      split_and!; [done..|]. intros imx [Hin|Hin]%elem_of_cons; [simplify_eq|eauto].
    - intros x. change (live (set_reqs s3 reqs) ((r, intr_msg) :: owned) busy) with (live s3 ((r, intr_msg) :: owned) busy). rewrite HL.
      intros Hx. apply Hne. rewrite elem_of_cons. naive_solver.
    - destruct Ho as [? Ho]. split; [done|]. intros x Hx.
      change (live (set_reqs s3 reqs) ((r, intr_msg) :: owned) busy) with (live s3 ((r, intr_msg) :: owned) busy). rewrite HL. by apply Ho. }
  destruct (Z.eqb_spec (rq_ref_cnt q - 1) 0) as [Hz|Hnz].
  - unfold destroy_req. apply wp_bind. eapply wp_req_get; [apply lookup_insert_eq|]. cbn [rq_ch set_ref_cnt set_interrupted].
    rewrite (Hch curr q Hq). { intros Hx. rewrite bool_decide_true // in Hrq. cbn in Hrq. lia. }
    apply wp_bind, wp_assert; [done|]. apply wp_modify. apply (Hfin (delete curr (se_reqs s3))).
    + intros x Hx. rewrite lookup_delete_ne // lookup_insert_ne //.
    + by rewrite lookup_delete_eq.
  - apply wp_ret. apply (Hfin (se_reqs s3)).
    + intros x Hx. rewrite lookup_insert_ne //.
    + unfold s3. cbn [se_reqs set_reqs]. by rewrite lookup_insert_eq.
Qed.

(** Linking a request the thread owns into one of the lists. *)
Lemma add_interrupt_wp s r im owned busy :
  is_interrupt im = true -> sinv s ((r, im) :: owned) busy ->
  wp (list_add_interrupt r) (fun _ s' => sinv s' owned busy) s.
Proof.
  intros Him [Hc Ho]. pose proof Hc as [Hm Hnd Hdom Href Hch Hli Hbu Hne]. pose proof (score_sep _ _ _ Hc) as (Hn1 & Hs1 & _).
  apply wp_modify. set (s' := set_interrupts _ _).
  assert (live s ((r, im) :: owned) busy ≡ₚ live s' owned busy) as HP.
  { unfold live, s'. cbn [se_held se_interrupts set_interrupts fmap list_fmap fst]. solve_Permutation. }
  assert (forall x, x ∈ live s' owned busy <-> x ∈ live s ((r, im) :: owned) busy) as HL by (intros x; by rewrite HP).
  split; [split; try done|].
  - by rewrite -HP.
  - intros x. rewrite HL. apply Hdom.
  - intros x q Hq. rewrite (bool_decide_ext _ _ (HL x)). by apply Href.
  - intros x q Hq. rewrite HL. by apply Hch.
  - intros x Hx. destruct (Hli x Hx) as [?|(imx & Hin & ?)]; [by left|right]. exists imx. split; [|done].
    apply elem_of_cons in Hin as [Hin|?]; [|done]. simplify_eq. congruence.
  - intros x Hx. destruct (Hbu x Hx) as (? & ? & Hi). split_and!; [|done|].
    + unfold s'. cbn [se_interrupts set_interrupts]. rewrite elem_of_app list_elem_of_singleton. intros [?| ->]; [done|].
      rewrite (Hi im) in Him; [apply elem_of_cons; by left|done].
    + intros imx Hin. apply Hi, elem_of_cons. by right.
  - intros x. rewrite HL. apply Hne.
  - destruct Ho as [? Ho]. split; [done|]. intros x Hx. rewrite HL. by apply Ho.
Qed.

Lemma add_req_wp s r im owned busy :
  is_interrupt im = false -> sinv s ((r, im) :: owned) busy ->
  wp (list_add_req r) (fun _ s' => sinv s' ((r, im) :: owned) busy) s.
Proof.
  intros Him [[Hm Hnd Hdom Href Hch Hli Hbu Hne] Ho]. apply wp_modify. split; [split; try done|done].
  intros x. cbn. rewrite elem_of_app list_elem_of_singleton. intros [Hx| ->]; [by apply Hli|].
  right. exists im. split; [apply elem_of_cons; by left|done].
Qed.

(** Moving the second of the requests a thread owns to the front. *)
Lemma sinv_swap s x y owned busy : sinv s (x :: y :: owned) busy -> sinv s (y :: x :: owned) busy.
Proof. apply sinv_perm; [constructor|done]. Qed.

Lemma do_interrupt_start_wp s r im inarg owned busy :
  is_interrupt im = true -> sinv s ((r, im) :: owned) busy ->
  wp (do_interrupt_start r inarg) (fun c s' =>
    match c with Some curr => sinv s' owned ((r, curr) :: busy) | None => sinv s' owned busy end) s.
Proof.
  intros Him Hs. unfold do_interrupt_start. cbn zeta. apply wp_bind.
  eapply sinv_req_set; [done|apply owned_head_live|done|]. intros s1 Hs1 _ _ _.
  apply wp_bind. unfold interrupt_begin. apply wp_bind, wp_get, wp_bind.
  apply find_req_wp; [intros x Hx; eapply list_dom; [apply Hs1|by left]|]. intros [curr|] Hcur.
  - apply wp_bind. eapply interrupt_ref_wp; [exact Him|done|done|]. intros s2 Hs2. apply wp_ret, wp_ret. done.
  - apply wp_ret, wp_bind, wp_get, wp_bind.
    apply find_req_wp; [intros x Hx; eapply list_dom; [apply Hs1|by right]|]. intros [w|] _.
    + apply wp_bind. eapply wp_mono; [by eapply drop_interrupt_wp|]. intros [] s2 Hs2. by apply wp_ret.
    + apply wp_bind. eapply wp_mono; [by eapply add_interrupt_wp|]. intros [] s2 Hs2. by apply wp_ret.
Qed.

Lemma do_interrupt_finish_wp s r curr owned busy :
  sinv s owned ((r, curr) :: busy) -> wp (do_interrupt_finish r curr) (fun _ s' => sinv s' owned busy) s.
Proof.
  intros Hs. unfold do_interrupt_finish. apply wp_bind. eapply wp_mono; [by apply interrupt_end_wp|].
  intros [] s1 Hs1. by apply (drop_interrupt_wp s1 r intr_msg).
Qed.

Lemma check_interrupt_wp s r im owned busy :
  sinv s ((r, im) :: owned) busy ->
  wp (check_interrupt r) (fun i s' =>
    match i with
    | Some i => sinv s' ((r, im) :: (i, intr_msg) :: owned) busy
    | None => sinv s' ((r, im) :: owned) busy
    end) s.
Proof.
  intros Hs. unfold check_interrupt.
  destruct (proj2 (si_dom _ _ _ (proj1 Hs) r) (or_introl (owned_head_live s r im owned busy))) as [q Hq].
  apply wp_bind. eapply wp_req_get; [done|]. apply wp_bind, wp_get, wp_bind.
  apply find_req_wp; [intros x Hx; eapply list_dom; [apply Hs|by right]|]. intros [curr|] Hcur.
  - apply wp_bind. eapply sinv_req_set; [done|apply owned_head_live|done|]. intros s1 Hs1 _ Hi _.
    apply wp_bind. eapply take_interrupt_wp; [done|by rewrite Hi|]. intros s2 Hs2.
    apply wp_bind. eapply wp_mono; [by apply (drop_interrupt_wp s2 curr intr_msg ((r, im) :: owned) busy)|].
    intros [] s3 Hs3. by apply wp_ret.
  - destruct (se_interrupts s) as [|curr rest] eqn:Hi; [by apply wp_ret|].
    apply wp_bind. eapply take_interrupt_wp; [done|rewrite Hi; apply elem_of_cons; by left|].
    intros s2 Hs2. apply wp_ret. by apply sinv_swap.
Qed.

Section steps.
Context (alloc_ok : nat -> bool) (send_errno : nat -> Z) (known_errno : Z -> bool) (has_op : ll_op -> bool).
Context (deny_others : bool) (owner : Z) (cuse : bool).
Context (do_init cuse_lowlevel_init : Z -> Z -> list Z -> M St unit).

Abbreviation prepare := (process_prepare alloc_ok send_errno known_errno has_op deny_others owner cuse do_init cuse_lowlevel_init).
Abbreviation dispatch := (process_dispatch alloc_ok send_errno known_errno has_op do_init cuse_lowlevel_init).

Lemma reply_err_wp s r im owned busy err :
  sinv s ((r, im) :: owned) busy ->
  wp (Handlers.reply_err send_errno known_errno r err) (fun _ s' => sinv s' owned busy) s.
Proof.
  intros Hs. unfold Handlers.reply_err. apply wp_bind. eapply wp_mono; [by eapply send_reply_iov_wp|].
  intros ? s' Hs'. by apply wp_ret.
Qed.

Lemma se_alloc_wp s owned busy (Q : bool -> St -> Prop) :
  sinv s owned busy -> (forall b s', sinv s' owned busy -> Q b s') -> wp (se_alloc alloc_ok) Q s.
Proof.
  intros [Hc Ho] HQ. unfold wp, se_alloc. apply HQ.
  destruct (sinv_frame s (set_se_tick s (S (se_tick s))) owned busy) as [? Hs']; done.
Qed.

Lemma prepare_wp s im ch owned busy :
  sinv s owned busy ->
  wp (prepare im ch) (fun r s' =>
    match r with Some r => sinv s' ((r, im) :: owned) busy | None => sinv s' owned busy end) s.
Proof.
  intros Hs. unfold process_prepare. apply wp_bind.
  apply wp_mono with (P := fun _ s' => sinv s' owned busy).
  { destruct (im_is_fd im); [|by apply wp_ret]. apply wp_bind. eapply se_alloc_wp; [done|]. intros b s' Hs'. by apply wp_ret. }
  intros hdr s1 Hs1. destruct hdr; cbn [negb]; [|by apply wp_ret].
  apply wp_bind. eapply alloc_req_wp with (im := im); [exact Hs1|..].
  { intros s2 [Hc Ho]. apply wp_bind. unfold wp at 1, fuse_send_msg. apply wp_ret.
    set (s3 := set_se_tick _ _). destruct (sinv_frame s2 s3 owned busy) as [? Hf]; try done. split; [done|]. apply Hf; [|done].
    unfold answered, s3. cbn [se_out set_se_tick set_out]. rewrite omap_app. cbn. by rewrite app_nil_r. }
  intros r s2 Hs2 _ _. apply wp_bind. eapply sinv_req_set; [done|apply owned_head_live|done|]. intros s3 Hs3 _ _ _.
  apply wp_bind, wp_get. destruct (check_request _ _ _ _ _ _ _ _ _ s3 im).
  { apply wp_bind. eapply wp_mono; [by eapply reply_err_wp|]. intros [] s4 Hs4. by apply wp_ret. }
  apply wp_bind. apply wp_mono with (P := fun _ s' => sinv s' ((r, im) :: owned) busy).
  { rewrite (si_mode _ _ _ (proj1 Hs3)). cbn [negb andb]. fold (is_interrupt im).
    destruct (is_interrupt im) eqn:Him; cbn [negb]; [by apply wp_ret|].
    apply wp_bind. eapply wp_mono; [by eapply check_interrupt_wp|]. intros i s4 Hs4.
    apply wp_bind. destruct i as [i|].
    - eapply wp_mono; [by eapply add_req_wp|]. intros [] s5 Hs5.
      eapply (reply_err_wp s5 i intr_msg). by apply sinv_swap.
    - eapply wp_mono; [by eapply add_req_wp|]. intros [] s5 Hs5. by apply wp_ret. }
  intros [] s4 Hs4. destruct (_ && _); [|by apply wp_ret].
  apply wp_bind. eapply se_alloc_wp; [done|]. intros b s5 Hs5. destruct b; cbn [negb].
  - destruct (im_copy2 im <? 0); [|by apply wp_ret].
    apply wp_bind. eapply wp_mono; [by eapply reply_err_wp|]. intros [] s6 Hs6. by apply wp_ret.
  - apply wp_bind. eapply wp_mono; [by eapply reply_err_wp|]. intros [] s6 Hs6. by apply wp_ret.
Qed.

(** What a request must satisfy to be dispatched: the kernel does not splice with
    old protocols, a notification reply belongs to a notification, and the handler
    of INIT keeps its promise. *)
Record dispatchable (s : St) (r : Z) (im : in_msg) : Prop := {
  dp_known : fuse_ll_ops alloc_ok send_errno known_errno has_op do_init cuse_lowlevel_init (im_opcode im) <> None;
  dp_init : (im_opcode im = FUSE_INIT -> InitHandler do_init) /\
            (im_opcode im = CUSE_INIT -> InitHandler cuse_lowlevel_init);
  dp_splice : 9 <= ci_proto_minor (se_conn s) \/ im_is_fd im = false;
  dp_notify : im_opcode im = FUSE_NOTIFY_REPLY -> forall q, se_reqs s !! r = Some q -> rq_unique q ∈ se_notify s;
}.

Lemma dispatch_wp s r im owned busy :
  is_interrupt im = false -> sinv s ((r, im) :: owned) busy -> dispatchable s r im ->
  wp (dispatch r im) (fun _ s' => sinv s' owned busy) s.
Proof.
  intros Him Hs [Hk [Hi1 Hi2] Hsp Hno]. unfold process_dispatch.
  destruct ((im_opcode im =? FUSE_WRITE) && has_op op_write_buf).
  { unfold do_write_buf. apply wp_bind, wp_get, wp_bind.
    apply wp_mono with (P := fun _ s' => s' = s).
    { destruct (Z.ltb_spec (ci_proto_minor (se_conn s)) 9); [|by apply wp_ret]. destruct Hsp as [?|Hsp]; [lia|].
      apply wp_assert; [by rewrite Hsp|done]. }
    intros [] s1 ->. destruct (_ <? _); [by eapply reply_err_wp|by eapply call_op_wp]. }
  destruct (Z.eqb_spec (im_opcode im) FUSE_NOTIFY_REPLY) as [Hn|Hn].
  { unfold do_notify_reply.
    destruct (proj2 (si_dom _ _ _ (proj1 Hs) r) (or_introl (owned_head_live s r im owned busy))) as [q Hq].
    apply wp_bind. eapply wp_req_get; [done|]. apply wp_bind, wp_get. rewrite bool_decide_true; [by apply Hno|].
    apply wp_bind, wp_modify. set (s1 := set_notify _ _). destruct Hs as [Hc Ho].
    destruct (sinv_frame s s1 ((r, im) :: owned) busy) as [Hc1 Hf]; try done.
    assert (sinv s1 ((r, im) :: owned) busy) as Hs1 by (split; [done|by apply Hf]).
    unfold fuse_ll_retrieve_reply. cbn zeta. destruct (_ <? _); [by eapply fuse_free_req_wp|].
    destruct (has_op op_retrieve_reply); [by eapply call_op_wp|by eapply fuse_free_req_wp]. }
  destruct (fuse_ll_ops _ _ _ _ _ _ (im_opcode im)) as [f|] eqn:Hf; [|done].
  eapply (handles_ops alloc_ok send_errno known_errno has_op _ _ r _ _ _ _ Hf); [done|done| |done|exact Him|done].
  unfold is_interrupt in Him. by apply Z.eqb_neq in Him.
Qed.

(** ** A session served by threads *)

(** The state: the session, the requests between the two parts of their
    processing, the interrupts between the two parts of theirs. *)
Definition config : Type := St * list (Z * in_msg) * list (Z * Z).

(** How the file system may answer: with a message, or (to a forget) not at all.
    Every [fuse_reply_*] comes down to one of the two. *)
Inductive answer := Ans_reply (error : Z) (data : list Z) | Ans_none.

Definition give_answer (r : Z) (a : answer) : M St unit :=
  match a with
  | Ans_reply error data => send_reply_iov send_errno known_errno r error data;; mret tt
  | Ans_none => fuse_reply_none r
  end.

Inductive session_step : config -> config -> Prop :=
  | st_message s s' owned busy im ch r :
      prepare im ch s = Ok (r, s') ->
      session_step (s, owned, busy)
        (s', match r with Some r => (r, im) :: owned | None => owned end, busy)
  | st_dispatch s s' owned1 r im owned2 busy :
      is_interrupt im = false -> dispatchable s r im ->
      dispatch r im s = Ok (tt, s') ->
      session_step (s, owned1 ++ (r, im) :: owned2, busy) (s', owned1 ++ owned2, busy)
  | st_interrupt s s' owned1 r im owned2 busy c :
      is_interrupt im = true ->
      do_interrupt_start r (im_arg im) s = Ok (c, s') ->
      session_step (s, owned1 ++ (r, im) :: owned2, busy)
        (s', owned1 ++ owned2, match c with Some curr => (r, curr) :: busy | None => busy end)
  | st_interrupt_end s s' owned busy1 r curr busy2 :
      do_interrupt_finish r curr s = Ok (tt, s') ->
      session_step (s, owned, busy1 ++ (r, curr) :: busy2) (s', owned, busy1 ++ busy2)
  | st_answer s s' owned busy held1 r held2 a :
      se_held s = held1 ++ r :: held2 ->
      give_answer r a (set_held s (held1 ++ held2)) = Ok (tt, s') ->
      session_step (s, owned, busy) (s', owned, busy)
  | st_interrupt_func s s' owned busy r func :
      r ∈ se_held s -> fuse_req_interrupt_func r func s = Ok (tt, s') ->
      session_step (s, owned, busy) (s', owned, busy).

(** The file system's request in the hands of the thread that answers it. *)
Definition any_msg : in_msg := mkIn 0 0 0 0 0 0 [] 0 false 0 0.

Lemma unhold s owned busy held1 r held2 :
  sinv s owned busy -> se_held s = held1 ++ r :: held2 ->
  sinv (set_held s (held1 ++ held2)) ((r, any_msg) :: owned) busy.
Proof.
  intros [[Hm Hnd Hdom Href Hch Hli Hbu Hne] Ho] Hh. set (s' := set_held _ _).
  assert (live s owned busy ≡ₚ live s' ((r, any_msg) :: owned) busy) as HP.
  { unfold live, s'. cbn [se_held se_interrupts set_held fmap list_fmap fst]. rewrite Hh. solve_Permutation. }
  assert (forall x, x ∈ live s' ((r, any_msg) :: owned) busy <-> x ∈ live s owned busy) as HL by (intros x; by rewrite HP).
  assert (NoDup (se_held s)) as Hndh.
  { unfold live in Hnd. apply list.NoDup_app in Hnd as (_ & _ & Hx). by apply list.NoDup_app in Hx as (? & _). }
  split; [split; try done|].
  - by rewrite -HP.
  - intros x. rewrite HL. apply Hdom.
  - intros x q Hq. rewrite (bool_decide_ext _ _ (HL x)). by apply Href.
  - intros x q Hq. rewrite HL. by apply Hch.
  - intros x Hx. unfold s'. cbn [se_held set_held]. destruct (Hli x Hx) as [Hx'|(im & ? & ?)].
    + rewrite Hh !elem_of_app elem_of_cons in Hx'. destruct Hx' as [?|[->|?]]; [left; set_solver| |left; set_solver].
      right. exists any_msg. split; [apply elem_of_cons; by left|done].
    + right. exists im. split; [apply elem_of_cons; by right|done].
  - intros x Hx. destruct (Hbu x Hx) as (? & ? & Hi). split_and!; [done..|].
    intros im [Hin|Hin]%elem_of_cons; [by simplify_eq|eauto].
  - intros x. rewrite HL. apply Hne.
  - destruct Ho as [? Ho]. split; [done|]. intros x Hx. rewrite HL. by apply Ho.
Qed.

Lemma give_answer_wp s r im owned busy a :
  sinv s ((r, im) :: owned) busy -> wp (give_answer r a) (fun _ s' => sinv s' owned busy) s.
Proof.
  intros Hs. destruct a; cbn [give_answer]; [|by eapply fuse_free_req_wp].
  apply wp_bind. eapply wp_mono; [by eapply send_reply_iov_wp|]. intros ? s' Hs'. by apply wp_ret.
Qed.

Lemma interrupt_func_wp s r func owned busy :
  sinv s owned busy -> r ∈ se_held s -> wp (fuse_req_interrupt_func r func) (fun _ s' => sinv s' owned busy) s.
Proof.
  intros Hs Hr. unfold fuse_req_interrupt_func.
  assert (r ∈ live s owned busy) as Hl by (unfold live; rewrite !elem_of_app; auto).
  apply wp_bind. eapply sinv_req_set; [done|done|done|]. intros s1 Hs1 _ Hi Hh.
  destruct (proj2 (si_dom _ _ _ (proj1 Hs1) r)) as [q Hq]; [left; unfold live; rewrite !elem_of_app Hh; auto|].
  apply wp_bind. eapply wp_req_get; [done|]. destruct (_ && _); [by apply log_op_wp|by apply wp_ret].
Qed.

Lemma sinv_front s l1 x l2 busy : sinv s (l1 ++ x :: l2) busy <-> sinv s (x :: l1 ++ l2) busy.
Proof. split; apply sinv_perm; [by rewrite -Permutation_middle|done|by rewrite -Permutation_middle|done]. Qed.

Lemma sinv_front_busy s owned l1 x l2 : sinv s owned (l1 ++ x :: l2) <-> sinv s owned (x :: l1 ++ l2).
Proof. split; apply sinv_perm; [done|by rewrite -Permutation_middle|done|by rewrite -Permutation_middle]. Qed.

Lemma wp_elim {A} (m : M St A) Q s a s' : wp m Q s -> m s = Ok (a, s') -> Q a s'.
Proof. intros H Hrun. unfold wp in H. by rewrite Hrun in H. Qed.

Lemma session_step_inv s owned busy s' owned' busy' :
  session_step (s, owned, busy) (s', owned', busy') -> sinv s owned busy -> sinv s' owned' busy'.
Proof.
  intros Hstep Hs. inversion Hstep as [? ? ? ? im ch r Hrun|? ? o1 r im o2 ? Hi Hd Hrun|? ? o1 r im o2 ? c Hi Hrun|? ? ? b1 r curr b2 Hrun
    |? ? ? ? h1 r h2 a Hh Hrun|? ? ? ? r func Hr Hrun]; subst.
  - pose proof (wp_elim _ _ _ _ _ (prepare_wp s im ch owned busy' Hs) Hrun). by destruct r.
  - rewrite -> sinv_front in Hs. exact (wp_elim _ _ _ _ _ (dispatch_wp s r im _ _ Hi Hs Hd) Hrun).
  - rewrite -> sinv_front in Hs. pose proof (wp_elim _ _ _ _ _ (do_interrupt_start_wp s r im _ _ _ Hi Hs) Hrun). by destruct c.
  - rewrite -> sinv_front_busy in Hs. exact (wp_elim _ _ _ _ _ (do_interrupt_finish_wp s r curr _ _ Hs) Hrun).
  - exact (wp_elim _ _ _ _ _ (give_answer_wp _ r any_msg _ _ a (unhold _ _ _ _ _ _ Hs Hh)) Hrun).
  - exact (wp_elim _ _ _ _ _ (interrupt_func_wp s r func _ _ Hs Hr) Hrun).
Qed.

Definition cinv (c : config) : Prop := let '(s, owned, busy) := c in sinv s owned busy.

Lemma session_reachable c c' : rtc session_step c c' -> cinv c -> cinv c'.
Proof.
  induction 1 as [c|[[s1 o1] b1] [[s2 o2] b2] c3 Hstep _ IH]; [done|]. intros Hc. by eapply IH, session_step_inv.
Qed.

(** A session that has no requests. *)
Definition idle (s : St) : Prop :=
  se_reqs s = ∅ /\ se_list s = [] /\ se_interrupts s = [] /\ se_held s = [] /\ se_out s = [] /\
  ci_no_interrupt (se_conn s) = false.

Lemma idle_inv s : idle s -> sinv s [] [].
Proof.
  intros (E1 & E2 & E3 & E4 & E5 & E6).
  assert (live s [] [] = []) as Hl by (unfold live; by rewrite E3 E4).
  split; [split|split]; rewrite ?Hl ?E1 ?E2 ?E3; try done.
  - constructor.
  - intros r. rewrite lookup_empty. split; [by intros []|]. intros [?%elem_of_nil|?%elem_of_nil]; done.
  - intros r ?%elem_of_nil. done.
  - intros r ?%elem_of_nil. done.
  - intros r [?%elem_of_nil|?%elem_of_nil]; done.
  - unfold answered. rewrite E5. constructor.
  - unfold answered. rewrite E5. intros r ?%elem_of_nil. done.
Qed.

Lemma no_owner_no_request s : sinv s [] [] -> se_held s = [] -> se_interrupts s = [] -> se_reqs s = ∅.
Proof.
  intros [Hc _] Hh Hi. apply map_eq. intros r. rewrite lookup_empty. apply eq_None_not_Some. rewrite (si_dom _ _ _ Hc r).
  unfold live. rewrite Hh Hi. intros [?%elem_of_nil|?%elem_of_nil]; done.
Qed.
End steps.
End inv.

(** C2: requests are safe under every interleaving of arriving messages, answers
    of the file system and interrupt handlers, whatever allocations fail and
    whatever operations the file system has.  No request is answered twice, and
    no request the file system still has to answer has been answered; processing
    a message, dispatching, interrupting and answering never fail an assertion
    or touch freed memory; and when nobody owns a request any more, none is left
    in memory.  The sessions are those that handle interrupts ([no_interrupt] is off,
    and [init] keeps it so), and the messages exclude a NOTIFY_REPLY that matches no
    notification: it leaks its request, [unmatched_notify_reply_leaks]. *)
Theorem requests_safe alloc_ok send_errno known_errno has_op deny_others owner cuse do_init cuse_init
    s0 s owned busy :
  idle s0 ->
  rtc (session_step alloc_ok send_errno known_errno has_op deny_others owner cuse do_init cuse_init)
    (s0, [], []) (s, owned, busy) ->
  NoDup (answered s) /\ (forall r, r ∈ se_held s -> r ∉ answered s) /\
  (forall im ch, exists r s', process_prepare alloc_ok send_errno known_errno has_op deny_others owner cuse
     do_init cuse_init im ch s = Ok (r, s')) /\
  (forall r im, (r, im) ∈ owned -> is_interrupt im = false ->
     dispatchable alloc_ok send_errno known_errno has_op do_init cuse_init s r im ->
     exists s', process_dispatch alloc_ok send_errno known_errno has_op do_init cuse_init r im s = Ok (tt, s')) /\
  (forall r im, (r, im) ∈ owned -> is_interrupt im = true ->
     exists c s', do_interrupt_start r (im_arg im) s = Ok (c, s')) /\
  (forall r curr, (r, curr) ∈ busy -> exists s', do_interrupt_finish r curr s = Ok (tt, s')) /\
  (owned = [] -> busy = [] -> se_held s = [] -> se_interrupts s = [] -> se_reqs s = ∅).
Proof.
  intros Hidle Hsteps. pose proof (session_reachable _ _ _ _ _ _ _ _ _ _ _ Hsteps (idle_inv s0 Hidle)) as Hs. cbn in Hs.
  destruct (proj2 Hs) as [Hnd Hout]. split_and!.
  - done.
  - intros r Hr Ha. destruct (Hout r Ha) as [Hn _]. apply Hn. unfold live. rewrite !elem_of_app. auto.
  - intros im ch.
    destruct (wp_Ok _ _ _ (prepare_wp alloc_ok send_errno known_errno has_op deny_others owner cuse do_init cuse_init s im ch _ _ Hs))
      as (r & s' & ? & _). eauto.
  - intros r im (l1 & l2 & ->)%list_elem_of_split Hi Hd. rewrite -> sinv_front in Hs.
    destruct (wp_Ok _ _ _ (dispatch_wp alloc_ok send_errno known_errno has_op do_init cuse_init s r im _ _ Hi Hs Hd)) as ([] & s' & ? & _). eauto.
  - intros r im (l1 & l2 & ->)%list_elem_of_split Hi. rewrite -> sinv_front in Hs.
    destruct (wp_Ok _ _ _ (do_interrupt_start_wp s r im (im_arg im) _ _ Hi Hs)) as (c & s' & ? & _). eauto.
  - intros r curr (l1 & l2 & ->)%list_elem_of_split. rewrite -> sinv_front_busy in Hs.
    destruct (wp_Ok _ _ _ (do_interrupt_finish_wp s r curr _ _ Hs)) as ([] & s' & ? & _). eauto.
  - intros -> -> Hh Hi. by apply no_owner_no_request.
Qed.

(** ** A run *)

Definition session0 : session ll_call :=
  mkSession ∅ 1 [] [] true false (mkConn 7 31 1048576 0 131072 0 0 0 0 1 0 false 0 0)
    1052672 0 false true 0 0 [] 0 [] [] [] 0.

Lemma session0_idle : idle session0.
Proof. done. Qed.

(** LOOKUP of ["a"] in the root. *)
Definition lookup_msg : in_msg := mkIn FUSE_LOOKUP 7 1 1000 1000 42 (bytes_of (lit "a") ++ [0]) 42 false 0 0.

Definition no_init : Z -> Z -> list Z -> M (session ll_call) unit := fun _ _ _ => mret tt.

Definition run_message (im : in_msg) (s : session ll_call) : outcome (unit * session ll_call) :=
  fuse_session_process_buf_internal (fun _ => true) (fun _ => 0) (fun e => e <? 1000) (fun _ => true)
    false 0 false no_init no_init im true s.

(** The file system was asked to look ["a"] up. *)
Example lookup_is_called : (fun x => se_calls x.2) <$> (match run_message lookup_msg session0 with Ok x => Some x | _ => None end) =
  Some [(1, Call_lookup 1 (lit "a"))].
Proof. vm_compute. reflexivity. Qed.

Lemma requests_safe_witness : exists s owned,
  rtc (session_step (fun _ => true) (fun _ => 0) (fun e => e <? 1000) (fun _ => true) false 0 false no_init no_init)
    (session0, [], []) (s, owned, []) /\ owned = [(1, lookup_msg)] /\
  (forall r im, (r, im) ∈ owned -> is_interrupt im = false ->
     dispatchable (fun _ => true) (fun _ => 0) (fun e => e <? 1000) (fun _ => true) no_init no_init s r im ->
     exists s', process_dispatch (fun _ => true) (fun _ => 0) (fun e => e <? 1000) (fun _ => true) no_init no_init r im s = Ok (tt, s')).
Proof.
  assert (exists s, process_prepare (fun _ => true) (fun _ => 0) (fun e => e <? 1000) (fun _ => true) false 0 false no_init no_init
    lookup_msg true session0 = Ok (Some 1, s)) as Hrun by (eexists; vm_compute; reflexivity).
  destruct Hrun as [s Hrun]. exists s, [(1, lookup_msg)].
  assert (rtc (session_step (fun _ => true) (fun _ => 0) (fun e => e <? 1000) (fun _ => true) false 0 false no_init no_init)
    (session0, [], []) (s, [(1, lookup_msg)], [])) as Hsteps by (apply rtc_once, (st_message _ _ _ _ _ _ _ _ _ _ _ _ _ _ _ _ Hrun)).
  split; [exact Hsteps|]. split; [reflexivity|].
  apply (requests_safe (fun _ => true) (fun _ => 0) (fun e => e <? 1000) (fun _ => true) false 0 false no_init no_init
    session0 s [(1, lookup_msg)] [] session0_idle Hsteps).
Defined.

(** ** Interrupts reach their request *)

(** The interrupt [i] is for the request with the number [u]. *)
Definition interrupts_unique (s : session ll_call) (u i : Z) : Prop := exists qi, se_reqs s !! i = Some qi /\ rq_u qi = u.

(** [find_req] finds the first request of a list that satisfies the test. *)
Lemma find_req_first (f : fuse_req -> bool) l (s : session ll_call) : (forall x, x ∈ l -> is_Some (se_reqs s !! x)) ->
  exists x, find_req f l s = Ok (x, s) /\
    match x with
    | Some c => exists l1 l2 qc, l = l1 ++ c :: l2 /\ se_reqs s !! c = Some qc /\ f qc = true /\
        forall y qy, y ∈ l1 -> se_reqs s !! y = Some qy -> f qy = false
    | None => forall y qy, y ∈ l -> se_reqs s !! y = Some qy -> f qy = false
    end.
Proof.
  induction l as [|x l IH]; intros Hdom; cbn [find_req].
  - exists None. split; [done|]. by intros y qy ?%elem_of_nil.
  - destruct (Hdom x) as [qx Hqx]; [by left|]. unfold mbind, M_bind, req_get. rewrite Hqx. destruct (f qx) eqn:Ef.
    + exists (Some x). split; [done|]. exists [], l, qx. split_and!; try done. by intros y qy ?%elem_of_nil.
    + destruct IH as (o & -> & Ho); [intros y Hy; apply Hdom; by right|]. exists o. split; [done|]. destruct o as [c|].
      * destruct Ho as (l1 & l2 & qc & -> & Hc & Hf & Hno). exists (x :: l1), l2, qc. split_and!; try done.
        intros y qy [->|Hy]%elem_of_cons; [congruence|eauto].
      * intros y qy [->|Hy]%elem_of_cons; [congruence|eauto].
Qed.

Lemma filter_out_middle (l1 l2 : list Z) c : NoDup (l1 ++ c :: l2) -> filter (fun y => y <> c) (l1 ++ c :: l2) = l1 ++ l2.
Proof.
  intros Hnd. apply list.NoDup_app in Hnd as (_ & H1 & H2). apply list.NoDup_cons in H2 as [H2 _].
  rewrite list.filter_app filter_cons_False; [by intros []|]. rewrite !filter_notin //. intros Hc. by apply (H1 c Hc); left.
Qed.

Lemma interrupts_apart s owned busy c : score s owned busy -> c ∈ se_interrupts s ->
  NoDup (se_interrupts s) /\ c ∉ se_list s /\ c ∉ owned.*1.
Proof.
  intros Hc Hin. pose proof (score_sep _ _ _ Hc) as (_ & Hs1 & Hs2 & _). split_and!.
  - pose proof (si_nodup _ _ _ Hc) as Hnd. unfold live in Hnd. apply list.NoDup_app in Hnd as (_ & _ & Hx).
    apply list.NoDup_app in Hx as (_ & _ & Hx). by apply list.NoDup_app in Hx as (? & _).
  - intros Hx. destruct (si_list _ _ _ Hc c Hx) as [Hh|(im & Ho & _)]; [by destruct (Hs2 _ Hh)|].
    destruct (Hs1 c) as (_ & ? & _); [rewrite list_elem_of_fmap; by exists (c, im)|done].
  - intros Hx. by destruct (Hs1 c Hx) as (_ & ? & _).
Qed.

(** C23: an interrupt that arrived before its request is not lost: when the request
    comes, [check_interrupt] marks it interrupted, takes the first interrupt for it off
    the list and frees it, and returns none; the other requests and interrupts stay as
    they are.  When no interrupt waits for the request, the request is left as it is
    and the oldest interrupt, if there is one, is taken off the list and returned. *)
Theorem early_interrupt_delivered s r im owned busy q :
  sinv s ((r, im) :: owned) busy -> se_reqs s !! r = Some q ->
  exists res s', check_interrupt r s = Ok (res, s') /\
    se_list s' = se_list s /\ se_held s' = se_held s /\ se_out s' = se_out s /\
    ((exists l1 c l2, se_interrupts s = l1 ++ c :: l2 /\ interrupts_unique s (rq_unique q) c /\
        (forall x, x ∈ l1 -> ~ interrupts_unique s (rq_unique q) x) /\
        res = None /\ se_interrupts s' = l1 ++ l2 /\ se_reqs s' = delete c (<[r := set_interrupted q true]> (se_reqs s))) \/
     ((forall x, x ∈ se_interrupts s -> ~ interrupts_unique s (rq_unique q) x) /\
        res = head (se_interrupts s) /\ se_interrupts s' = tail (se_interrupts s) /\ se_reqs s' = se_reqs s)).
Proof.
  intros [Hc Ho] Hq.
  destruct (find_req_first (fun c => rq_u c =? rq_unique q) (se_interrupts s) s) as (x & Hrun & Hx).
  { intros y Hy. eapply list_dom; [exact Hc|by right]. }
  unfold check_interrupt, mbind, M_bind, req_get, get. rewrite Hq Hrun. destruct x as [c|].
  - destruct Hx as (l1 & l2 & qc & Hl & Hqc & Hu & Hno). apply Z.eqb_eq in Hu.
    destruct (interrupts_apart _ _ _ c Hc) as (Hnd & Hcl & Hco); [rewrite Hl; set_solver|].
    assert (c <> r) as Hcr by (intros ->; apply Hco; by left).
    unfold req_set, list_del_req, modify, drop_interrupt, destroy_req, req_set, mbind, M_bind, req_get, assert, mret, M_ret, modify.
    rewrite Hq. cbn [se_reqs set_reqs set_interrupts set_list]. rewrite lookup_insert_ne // Hqc.
    cbn [se_reqs set_reqs set_interrupts set_list]. rewrite lookup_insert_eq. cbn [rq_ch set_ch negb].
    eexists _, _. split; [reflexivity|]. cbn. rewrite filter_notin // Hl. rewrite Hl in Hnd. rewrite filter_out_middle //.
    split_and!; try done. left. exists l1, c, l2. split_and!; try done.
    + by exists qc.
    + intros y Hy (qy & Hqy & Huy). specialize (Hno y qy Hy Hqy). by apply Z.eqb_neq in Hno.
    + apply map_eq. intros y. destruct (decide (y = c)) as [->|]; [by rewrite !lookup_delete_eq|].
      by rewrite !lookup_delete_ne // lookup_insert_ne.
  - assert (forall y, y ∈ se_interrupts s -> ~ interrupts_unique s (rq_unique q) y) as Hno.
    { intros y Hy (qy & Hqy & Huy). specialize (Hx y qy Hy Hqy). by apply Z.eqb_neq in Hx. }
    destruct (se_interrupts s) as [|c l] eqn:Hl.
    + eexists _, _. split; [reflexivity|]. split_and!; try done. right. by rewrite Hl.
    + destruct (interrupts_apart _ _ _ c Hc) as (Hnd & Hcl & _); [rewrite Hl; by left|].
      eexists _, _. split; [reflexivity|]. cbn. rewrite filter_notin // Hl. rewrite Hl in Hnd. rewrite (filter_out_middle [] l c Hnd).
      split_and!; try done. right. done.
Qed.

(** Request 1 is an interrupt for the request with unique 7, which has just come. *)
Definition interrupted_session : session ll_call :=
  set_interrupts (set_next (set_reqs session0
    (<[1 := mkReq 5 1 (mkCtx 0 0 0 0) false false 7]> {[2 := mkReq 7 1 (mkCtx 0 0 0 0) false false 0]})) 3) [1].

Lemma interrupted_session_inv : sinv interrupted_session [(2, lookup_msg)] [].
Proof.
  assert (live interrupted_session [(2, lookup_msg)] [] = [2; 1]) as Hl by done.
  split; [split|split]; rewrite ?Hl; try done.
  - apply (bool_decide_unpack _). vm_compute. exact I.
  - intros r. cbn. rewrite !elem_of_cons !elem_of_nil. unfold is_Some. setoid_rewrite lookup_insert_Some.
    setoid_rewrite lookup_singleton_Some. naive_solver.
  - intros r q. cbn. rewrite lookup_insert_Some lookup_singleton_Some. naive_solver.
  - intros r q. cbn. rewrite lookup_insert_Some lookup_singleton_Some !not_elem_of_cons. naive_solver.
  - intros r ?%elem_of_nil. done.
  - intros r ?%elem_of_nil. done.
  - intros r. rewrite !elem_of_cons !elem_of_nil. cbn. lia.
  - constructor.
  - intros r ?%elem_of_nil. done.
Qed.

Lemma early_interrupt_delivered_witness :
  let s := interrupted_session in let q := mkReq 7 1 (mkCtx 0 0 0 0) false false 0 in
  exists res s', check_interrupt 2 s = Ok (res, s') /\
    se_list s' = se_list s /\ se_held s' = se_held s /\ se_out s' = se_out s /\
    ((exists l1 c l2, se_interrupts s = l1 ++ c :: l2 /\ interrupts_unique s 7 c /\
        (forall x, x ∈ l1 -> ~ interrupts_unique s 7 x) /\
        res = None /\ se_interrupts s' = l1 ++ l2 /\ se_reqs s' = delete c (<[2 := set_interrupted q true]> (se_reqs s))) \/
     ((forall x, x ∈ se_interrupts s -> ~ interrupts_unique s 7 x) /\
        res = head (se_interrupts s) /\ se_interrupts s' = tail (se_interrupts s) /\ se_reqs s' = se_reqs s)).
Proof.
  apply (early_interrupt_delivered interrupted_session 2 lookup_msg [] []
    (mkReq 7 1 (mkCtx 0 0 0 0) false false 0) interrupted_session_inv). reflexivity.
Defined.

(** ** Messages that are turned away *)

Section reject.
Context (alloc_ok : nat -> bool) (send_errno : nat -> Z) (known_errno : Z -> bool) (has_op : ll_op -> bool).
Context (deny_others : bool) (owner : Z) (cuse : bool).
Context (do_init cuse_init : Z -> Z -> list Z -> M (session ll_call) unit).

(** The opcodes of the protocol that have a handler. *)
Definition known_opcode (opcode : Z) : Prop :=
  1 <= opcode <= 6 \/ 8 <= opcode <= 18 \/ 20 <= opcode <= 47 \/ opcode = 51 \/ opcode = 4096.

(** INIT (26), or CUSE_INIT (4096) for a character device, comes first and only once. *)
Definition out_of_phase (s : session ll_call) (im : in_msg) : Prop :=
  if se_got_init s then im_opcode im = 26 \/ im_opcode im = 4096 else im_opcode im <> (if cuse then 4096 else 26).

(** With [allow_root] the users other than the owner and root may only go on with what
    is open: READ (15), WRITE (16), RELEASE (18), FSYNC (20), INIT (26), READDIR (28),
    RELEASEDIR (29), FSYNCDIR (30), NOTIFY_REPLY (41), READDIRPLUS (44). *)
Definition foreign_user (im : in_msg) : Prop :=
  deny_others = true /\ im_uid im <> owner /\ im_uid im <> 0 /\
  im_opcode im ∉ [15; 16; 18; 20; 26; 28; 29; 30; 41; 44].

(** The messages that must not reach the file system, and the error of each. *)
Inductive turned_away (s : session ll_call) (im : in_msg) : Z -> Prop :=
  | ta_phase : out_of_phase s im -> turned_away s im EIO
  | ta_user : ~ out_of_phase s im -> foreign_user im -> turned_away s im EACCES
  | ta_unknown : ~ out_of_phase s im -> ~ foreign_user im -> ~ known_opcode (im_opcode im) -> turned_away s im ENOSYS
  | ta_interrupt : ~ out_of_phase s im -> ~ foreign_user im -> ci_no_interrupt (se_conn s) = true -> im_opcode im = 36 ->
      turned_away s im ENOSYS.

Abbreviation check := (check_request alloc_ok send_errno known_errno has_op deny_others owner cuse do_init cuse_init).

Lemma fuse_ll_ops_known opcode :
  fuse_ll_ops alloc_ok send_errno known_errno has_op do_init cuse_init opcode = None <-> ~ known_opcode opcode.
Proof.
  unfold fuse_ll_ops, known_opcode. split.
  - intros H. repeat match type of H with
      (if opcode =? ?k then _ else _) = None => let v := eval cbv in k in change k with v in H; destruct (Z.eqb_spec opcode v); [done|]
    end. lia.
  - intros H. repeat match goal with
      |- (if opcode =? ?k then _ else _) = None => let v := eval cbv in k in change k with v; destruct (Z.eqb_spec opcode v); [lia|]
    end. done.
Qed.

Lemma allowed_to_all_iff opcode : allowed_to_all opcode = true <-> opcode ∈ [15; 16; 18; 20; 26; 28; 29; 30; 41; 44].
Proof. unfold allowed_to_all. rewrite !orb_true_iff !Z.eqb_eq !elem_of_cons elem_of_nil. tauto. Qed.

Lemma out_of_phase_iff s im :
  negb (se_got_init s) && negb (im_opcode im =? (if cuse then CUSE_INIT else FUSE_INIT)) ||
  se_got_init s && ((im_opcode im =? FUSE_INIT) || (im_opcode im =? CUSE_INIT)) = true <-> out_of_phase s im.
Proof.
  unfold out_of_phase. destruct (se_got_init s); cbn [negb andb orb].
  - by rewrite orb_true_iff !Z.eqb_eq.
  - by rewrite orb_false_r negb_true_iff Z.eqb_neq.
Qed.

Lemma foreign_user_iff im :
  deny_others && negb (im_uid im =? owner) && negb (im_uid im =? 0) && negb (allowed_to_all (im_opcode im)) = true <-> foreign_user im.
Proof.
  unfold foreign_user. rewrite !andb_true_iff !negb_true_iff !Z.eqb_neq -not_true_iff_false allowed_to_all_iff. tauto.
Qed.

(** The checks turn away exactly these messages. *)
Lemma check_request_exact s im : match check s im with
  | Some err => turned_away s im err
  | None => forall err, ~ turned_away s im err
  end.
Proof.
  pose proof (out_of_phase_iff s im) as Hph. pose proof (foreign_user_iff im) as Hfu.
  unfold check_request. set (b1 := _ && negb (_ =? _)) in *. set (b2 := se_got_init s && _) in *. set (b3 := deny_others && _ && _ && _) in *.
  destruct b1; [by apply ta_phase, Hph|]. destruct b2; [by apply ta_phase, Hph|]. cbn [orb] in Hph.
  assert (~ out_of_phase s im) as Hnp by (intros ?%Hph; done).
  destruct b3; [by apply ta_user, Hfu|]. assert (~ foreign_user im) as Hnf by (intros ?%Hfu; done).
  pose proof (fuse_ll_ops_known (im_opcode im)) as Hk. case_bool_decide as Hn; [by apply ta_unknown, Hk|].
  destruct (ci_no_interrupt (se_conn s)) eqn:Hi; cbn [andb].
  - destruct (Z.eqb_spec (im_opcode im) FUSE_INTERRUPT) as [He|He]; [by apply ta_interrupt|]. intros err Ht. destruct Ht; tauto.
  - intros err Ht. destruct Ht; [tauto..|congruence].
Qed.

Lemma turned_away_check s im err : turned_away s im err -> check s im = Some err.
Proof.
  intros Ht. pose proof (check_request_exact s im) as Hx. destruct (check s im) as [e|]; [|by destruct (Hx err)].
  f_equal. destruct Hx, Ht; try done; tauto.
Qed.

(** A new request for a message that is turned away: its answer, and no trace of it. *)
Lemma reject_run s r err (Q : option Z -> session ll_call -> Prop) q :
  known_errno err = true -> 0 < err -> r ∉ se_list s -> r ∉ se_interrupts s -> se_reqs s !! r = Some q -> rq_ref_cnt q = 1 ->
  (forall s', se_out s' = se_out s ++ [mkMsg (Some r) (rq_unique q) (- err) []] -> se_calls s' = se_calls s -> se_held s' = se_held s ->
    se_reqs s' = delete r (se_reqs s) -> se_list s' = se_list s -> se_interrupts s' = se_interrupts s -> Q None s') ->
  wp (Handlers.reply_err send_errno known_errno r err;; mret None) Q s.
Proof.
  intros Herr Hpos Hl Hi Hr Hrc HQ. assert (checked_error known_errno (- err) = - err) as Hce.
  { unfold checked_error. replace (- err * -1) with err by lia. rewrite Herr. cbn [negb andb orb].
    by rewrite (proj2 (Z.ltb_ge _ _)); [lia|]. }
  destruct (ci_no_interrupt (se_conn s)) eqn:Hni; unfold wp; repeat progress (
    unfold Handlers.reply_err, fuse_reply_err, send_reply, send_reply_iov, fuse_send_reply_iov_nofree, fuse_send_msg,
      fuse_free_req, list_del_req, destroy_req, req_get, req_set, modify, assert, get, mbind, M_bind, mret, M_ret;
    cbn -[checked_error lookup insert delete filter process_dispatch];
    rewrite ?Hr ?lookup_insert_eq ?Hni ?Hrc; change (1 - 1 =? 0) with true).
  all: apply HQ; cbn -[checked_error lookup insert delete filter]; rewrite ?Hce ?filter_notin //.
  all: apply map_eq; intros y; destruct (decide (y = r)) as [->|]; [by rewrite !lookup_delete_eq|].
  all: by rewrite !lookup_delete_ne // !lookup_insert_ne.
Qed.

(** C20: the gate of the session.  A message that must not reach the file system
    (anything but INIT before the session is initialised, a second INIT: EIO; a request
    of a user [allow_root] does not admit: EACCES; an operation without handler, or an
    interrupt when the session takes none: ENOSYS) is answered with exactly one error
    reply carrying its unique number; the file system is not called and no request stays
    behind.  This is so when the memory for the request and, for a spliced message, its
    header can be had.  No other message is turned away. *)
Theorem rejected_message_gets_one_error s im ch :
  (forall err, turned_away s im err -> known_errno err = true -> alloc_ok (se_tick s) = true ->
    (im_is_fd im = true -> 0 <= im_copy1 im /\ alloc_ok (S (se_tick s)) = true) ->
    se_next s ∉ se_list s -> se_next s ∉ se_interrupts s -> se_reqs s !! se_next s = None ->
    exists s', fuse_session_process_buf_internal alloc_ok send_errno known_errno has_op deny_others owner cuse
        do_init cuse_init im ch s = Ok (tt, s') /\
      se_out s' = se_out s ++ [mkMsg (Some (se_next s)) (im_unique im) (- err) []] /\
      se_calls s' = se_calls s /\ se_held s' = se_held s /\ se_reqs s' = se_reqs s /\
      se_list s' = se_list s /\ se_interrupts s' = se_interrupts s) /\
  ((forall err, ~ turned_away s im err) -> check s im = None).
Proof.
  split; [|intros Hno; pose proof (check_request_exact s im) as Hx; destruct (check s im) as [e|]; [by destruct (Hno e)|done]].
  intros err Ht Herr Hal Hfd Hl Hi Hr. pose proof (turned_away_check s im err Ht) as Hchk.
  assert (0 < err) as Hpos by (destruct Ht; done).
  assert (forall s2, se_got_init s2 = se_got_init s -> ci_no_interrupt (se_conn s2) = ci_no_interrupt (se_conn s) ->
    check s2 im = Some err) as Hchk2.
  { intros s2 E1 E2. rewrite -Hchk. unfold check_request. by rewrite E1 E2. }
  enough (wp (fuse_session_process_buf_internal alloc_ok send_errno known_errno has_op deny_others owner cuse
    do_init cuse_init im ch) (fun _ s' =>
      se_out s' = se_out s ++ [mkMsg (Some (se_next s)) (im_unique im) (- err) []] /\
      se_calls s' = se_calls s /\ se_held s' = se_held s /\ se_reqs s' = se_reqs s /\
      se_list s' = se_list s /\ se_interrupts s' = se_interrupts s) s) as Hwp.
  { apply wp_Ok in Hwp as ([] & s' & ? & ?). eauto. }
  unfold fuse_session_process_buf_internal, process_prepare. apply wp_bind, wp_bind.
  apply (wp_mono _ (fun hdr s1 => hdr = true /\ exists k, s1 = set_se_tick s k /\ alloc_ok k = true)).
  { destruct (im_is_fd im) eqn:Efd.
    - destruct (Hfd eq_refl) as [Hc1 Hal2]. apply wp_bind. unfold wp at 1, se_alloc. apply wp_ret. rewrite Hal (proj2 (Z.leb_le _ _) Hc1). eauto.
    - apply wp_ret. split; [done|]. exists (se_tick s). by destruct s. }
  intros ? ? (-> & k & -> & Hk). cbn [negb]. apply wp_bind. unfold fuse_ll_alloc_req. apply wp_bind. unfold wp at 1, se_alloc at 1.
  cbn [se_tick set_se_tick]. rewrite Hk. cbn [negb]. apply wp_bind, wp_get, wp_bind, wp_put, wp_ret.
  apply wp_bind. unfold wp at 1, req_set at 1. cbn [se_reqs set_next set_reqs se_next set_se_tick]. rewrite lookup_insert_eq.
  apply wp_bind, wp_get. rewrite Hchk2 //.
  eapply reject_run; cbn [se_reqs set_reqs set_next se_list se_interrupts set_se_tick];
    [done|done|done|done|by rewrite lookup_insert_eq|done|].
  intros s' Ho Hc Hh Hrq Hls Hin. apply wp_ret. split_and!; try done. rewrite Hrq.
  apply map_eq. intros y. destruct (decide (y = se_next s)) as [->|]; [by rewrite lookup_delete_eq|].
  by rewrite lookup_delete_ne // !lookup_insert_ne.
Qed.
End reject.

(** Another user's LOOKUP on a mount restricted to its owner. *)
Lemma lookup_turned_away : turned_away true 500 false session0 lookup_msg EACCES.
Proof.
  apply ta_user; [by intros [?|?]|]. split_and!; [done..|]. by apply (bool_decide_eq_false_1 _).
Qed.

Lemma rejected_message_witness : exists s',
  fuse_session_process_buf_internal (fun _ => true) (fun _ => 0) (fun e => e <? 1000) (fun _ => true) true 500 false
    no_init no_init lookup_msg true session0 = Ok (tt, s') /\
  se_out s' = [mkMsg (Some 1) 7 (- EACCES) []] /\ se_calls s' = [].
Proof.
  destruct (proj1 (rejected_message_gets_one_error (fun _ => true) (fun _ => 0) (fun e => e <? 1000) (fun _ => true) true 500 false
    no_init no_init session0 lookup_msg true) EACCES lookup_turned_away) as (s' & H1 & H2 & H3 & _); try reflexivity.
  - discriminate.
  - apply not_elem_of_nil.
  - apply not_elem_of_nil.
  - exists s'. split; [exact H1|]. split; [exact H2|exact H3].
Defined.

(** a NOTIFY_REPLY that belongs to no pending notification is neither answered
    nor freed: the request stays in memory and on the list of the session, and
    nobody owns it. *)
Theorem unmatched_notify_reply_leaks :
  exists s q, run_message (mkIn FUSE_NOTIFY_REPLY 9 1 0 0 0 (replicate 40 0) 80 false 0 0) session0 = Ok (tt, s) /\
    se_reqs s !! 1 = Some q /\ se_list s = [1] /\ se_held s = [] /\ se_interrupts s = [] /\ se_out s = [].
Proof. eexists _, _. split; [vm_compute; reflexivity|]. split_and!; vm_compute; reflexivity. Qed.
