(* ===== verification/InitSafe.v ===== *)
(** * INIT: the answer is sound

    Proofs about [Init]: what the answer may enable, how the wish list of old and
    new file systems is read, that every size fits, and that [do_init] is a
    handler the session can rely on. *)
From S2P Require Import Prelude Wire Request Handlers Init Session SessionSafe.

(** ** Bits *)

Lemma or_if_testbit b f x i : Z.testbit (or_if b f x) i = Z.testbit x i || (b && Z.testbit f i).
Proof. destruct b; cbn [or_if]; [apply Z.lor_spec|by rewrite orb_false_r]. Qed.

Lemma flag_ifs_testbit flags table acc i :
  Z.testbit (flag_ifs flags table acc) i =
  Z.testbit acc i || existsb (fun '(x, y) => has_flag flags x && Z.testbit y i) table.
Proof.
  revert acc. induction table as [|[x y] table IH]; intros acc; cbn [existsb]; [by rewrite orb_false_r|].
  unfold flag_ifs in *. cbn [foldl]. rewrite IH or_if_testbit. by rewrite orb_assoc.
Qed.

Lemma wrap_testbit w x i : 0 <= w -> 0 <= i -> Z.testbit (wrap w x) i = (i <? w) && Z.testbit x i.
Proof. intros. unfold wrap. destruct (Z.ltb_spec i w); [by rewrite Z.mod_pow2_bits_low|by rewrite Z.mod_pow2_bits_high]. Qed.

Lemma testbit_small w x i : 0 <= w -> 0 <= x < 2 ^ w -> Z.testbit x i = true -> 0 <= i < w.
Proof.
  intros Hw Hx Hi. destruct (Z.ltb_spec i 0); [by rewrite Z.testbit_neg_r in Hi|]. split; [done|].
  destruct (Z.ltb_spec i w); [done|]. rewrite -(Z.mod_small x (2 ^ w)) // Z.mod_pow2_bits_high // in Hi.
Qed.

Lemma small_testbit w x : 0 <= w -> 0 <= x -> (forall i, Z.testbit x i = true -> i < w) -> x < 2 ^ w.
Proof.
  intros Hw Hx Hb. destruct (Z.eq_dec x 0) as [->|Hn]; [by apply Z.pow_pos_nonneg|].
  destruct (Z.log2_spec x) as [_ Hl]; [lia|]. specialize (Hb (Z.log2 x) (Z.bit_log2 x ltac:(lia))).
  eapply Z.lt_le_trans; [exact Hl|]. apply Z.pow_le_mono_r; lia.
Qed.

Lemma lor_range w x y : 0 <= w -> 0 <= x < 2 ^ w -> 0 <= y < 2 ^ w -> 0 <= Z.lor x y < 2 ^ w.
Proof.
  intros Hw Hx Hy. assert (0 <= Z.lor x y) by (apply Z.lor_nonneg; lia). split; [done|].
  apply small_testbit; [done..|]. intros i Hi. rewrite Z.lor_spec in Hi. apply orb_true_iff in Hi as [Hi|Hi].
  - by apply (testbit_small w x).
  - by apply (testbit_small w y).
Qed.

Lemma land_range w x y : 0 <= w -> 0 <= x < 2 ^ w -> 0 <= Z.land x y < 2 ^ w.
Proof.
  intros Hw Hx. assert (0 <= Z.land x y) by (apply Z.land_nonneg; lia). split; [done|].
  apply small_testbit; [done..|]. intros i Hi. rewrite Z.land_spec in Hi. apply andb_true_iff in Hi as [Hi _].
  by apply (testbit_small w x).
Qed.

(** ** The answer enables what was offered and wanted *)

Lemma want_valid_bits capable want i : 0 <= want < 2 ^ 64 -> want_flags_valid capable want = true ->
  Z.testbit want i = true -> Z.testbit capable i = true.
Proof.
  intros Hw Hv Hi. destruct (testbit_small 64 want i ltac:(lia) Hw Hi) as [H0 H64].
  apply Z.eqb_eq, (f_equal (fun y => Z.testbit y i)) in Hv.
  rewrite Z.land_spec Hi wrap_testbit // Z.lnot_spec // Z.bits_0 in Hv.
  destruct (Z.ltb_spec i 64); [|lia]. by destruct (Z.testbit capable i).
Qed.

(** What the kernel offered. *)
Definition offered (arg : fuse_init_in) : Z :=
  if has_flag (ii_flags arg) FUSE_INIT_EXT then Z.lor (ii_flags arg) (Z.shiftl (ii_flags2 arg) 32) else ii_flags arg.

(** What the kernel reads from the answer. *)
Definition enabled (o : fuse_init_out) : Z := Z.lor (io_flags o) (Z.shiftl (io_flags2 o) 32).

(** Bit numbers of both tables. *)
Definition answer_bits : list (Z * Z) :=
  [(0, 0); (1, 1); (3, 3); (4, 4); (6, 6); (10, 10); (12, 12); (13, 13); (14, 14); (15, 15); (16, 16); (18, 18);
   (19, 20); (20, 19); (21, 28); (23, 23); (25, 25); (27, 29); (28, 36); (29, 37); (30, 38)].

Lemma answer_table_bits : answer_table = (fun '(c, f) => (2 ^ c, 2 ^ f)) <$> answer_bits.
Proof. reflexivity. Qed.

Definition offer_bits : list (Z * Z) :=
  [(0, 0); (1, 1); (3, 3); (4, 4); (6, 6); (10, 10); (12, 12); (13, 13); (14, 14); (15, 15); (16, 16); (17, 17); (18, 18);
   (20, 19); (19, 20); (28, 21); (23, 23); (24, 24); (25, 25); (29, 27); (36, 28)].
Definition offer_bits_ext : list (Z * Z) := [(37, 29); (38, 30)].

Lemma offer_table_bits : offer_table = (fun '(f, c) => (2 ^ f, 2 ^ c)) <$> offer_bits.
Proof. reflexivity. Qed.
Lemma offer_table_ext_bits : offer_table_ext = (fun '(f, c) => (2 ^ f, 2 ^ c)) <$> offer_bits_ext.
Proof. reflexivity. Qed.

(** A table of single bits, bit by bit. *)
Definition nonneg_bits (bits : list (Z * Z)) : bool := forallb (fun '(x, y) => (0 <=? x) && (0 <=? y)) bits.

Lemma bit_table flags bits i : nonneg_bits bits = true ->
  existsb (fun '(x, y) => has_flag flags x && Z.testbit y i) ((fun '(x, y) => (2 ^ x, 2 ^ y)) <$> bits) =
  existsb (fun '(x, y) => (y =? i) && Z.testbit flags x) bits.
Proof.
  induction bits as [|[x y] bits IH]; [done|]. cbn. intros [[Hx Hy]%andb_true_iff Hb]%andb_true_iff.
  apply Z.leb_le in Hx, Hy. rewrite IH // has_flag_pow // Z.pow2_bits_eqb //. f_equal. apply andb_comm.
Qed.

(** The capabilities that do not come from a flag of the request. *)
Definition own_caps : list Z := [7; 8; 9; 11; 26].

Lemma init_capable_testbit ss sr arg c : 0 <= c -> existsb (Z.eqb c) own_caps = false ->
  Z.testbit (init_capable ss sr arg) c =
  (6 <=? ii_minor arg) && existsb (fun '(f, y) => (y =? c) && Z.testbit (init_inargflags arg) f) (offer_bits ++ offer_bits_ext).
Proof.
  intros Hc Ho. assert (forall k, k ∈ own_caps -> Z.testbit (2 ^ k) c = false) as Hf.
  { intros k Hk. rewrite Z.pow2_bits_eqb; [revert Hk; unfold own_caps; rewrite !elem_of_cons elem_of_nil; lia|].
    destruct (Z.eqb_spec k c) as [->|]; [|done]. exfalso.
    assert (existsb (Z.eqb c) own_caps = true) as He; [|by rewrite He in Ho]. apply existsb_exists. exists c.
    rewrite Z.eqb_refl. split; [|done]. by apply list_elem_of_In. }
  assert (forall b1 b2 x, Z.testbit (or_if b1 FUSE_CAP_SPLICE_READ (or_if b2 (Z.lor FUSE_CAP_SPLICE_WRITE FUSE_CAP_SPLICE_MOVE) x)) c = Z.testbit x c) as Hs.
  { intros b1 b2 x. rewrite !or_if_testbit Z.lor_spec !Hf; [set_solver..|]. by rewrite !andb_false_r !orb_false_r. }
  unfold init_capable. cbn zeta. rewrite or_if_testbit (Hf 11); [set_solver|]. rewrite andb_false_r orb_false_r.
  transitivity (Z.testbit (if 6 <=? ii_minor arg then
      flag_ifs (init_inargflags arg) offer_table_ext (or_if ((38 <=? ii_minor arg) || has_flag (init_inargflags arg) FUSE_HAS_EXPIRE_ONLY)
        FUSE_CAP_EXPIRE_ONLY (flag_ifs (init_inargflags arg) offer_table 0)) else 0) c).
  { destruct (14 <=? ii_minor arg); [apply Hs|done]. }
  destruct (6 <=? ii_minor arg); [|apply Z.bits_0]. cbn [andb].
  rewrite flag_ifs_testbit or_if_testbit (Hf 26); [set_solver|]. rewrite flag_ifs_testbit Z.bits_0 andb_false_r orb_false_r orb_false_l.
  by rewrite offer_table_bits offer_table_ext_bits !bit_table // existsb_app.
Qed.

(** The capabilities the answer looks at are offers. *)
Lemma capable_is_offer ss sr arg :
  Forall (fun '(c, f) => Z.testbit (init_capable ss sr arg) c = Z.testbit (init_inargflags arg) f) answer_bits.
Proof.
  assert (6 <=? ii_minor arg = false -> init_inargflags arg = 0) as H0 by (unfold init_inargflags; by intros ->).
  unfold answer_bits. repeat (apply List.Forall_cons); [..|apply List.Forall_nil].
  all: (rewrite init_capable_testbit; [lia|reflexivity|]); destruct (6 <=? ii_minor arg);
    [cbn -[Z.testbit init_inargflags]; by rewrite ?orb_false_r|by rewrite H0// Z.bits_0].
Qed.

Lemma outargflags_testbit arg want i : 0 <= i ->
  Z.testbit (init_outargflags arg want) i =
  ((i =? 22) && Z.testbit (ii_flags arg) 22) || (i =? 5) ||
  existsb (fun '(c, f) => (f =? i) && Z.testbit want c) answer_bits ||
  ((i =? 30) && Z.testbit (init_inargflags arg) 30).
Proof.
  intros Hi. unfold init_outargflags. cbn zeta. rewrite or_if_testbit flag_ifs_testbit Z.lor_spec or_if_testbit Z.bits_0.
  rewrite answer_table_bits bit_table // !has_flag_pow // !Z.pow2_bits_eqb // !(Z.eqb_sym i) orb_false_l.
  by rewrite (andb_comm (Z.testbit (ii_flags arg) 22)) (andb_comm (Z.testbit (init_inargflags arg) 30)).
Qed.

Lemma enabled_testbit pagesize arg conn i : 0 <= i ->
  Z.testbit (enabled (init_out pagesize arg conn)) i =
  (if i <? 32 then true else (i <? 64) && has_flag (init_inargflags arg) FUSE_INIT_EXT) &&
  Z.testbit (init_outargflags arg (ci_want_ext conn)) i.
Proof.
  intros Hi. unfold enabled, init_out. cbn zeta. cbn [io_flags io_flags2].
  rewrite Z.lor_spec wrap_testbit // Z.shiftl_spec //. destruct (Z.ltb_spec i 32).
  - rewrite (Z.testbit_neg_r _ (i - 32)); [lia|]. by rewrite orb_false_r.
  - cbn [andb orb]. destruct (has_flag (init_inargflags arg) FUSE_INIT_EXT).
    + rewrite wrap_testbit; [lia..|]. rewrite Z.shiftr_spec; [lia|]. rewrite Z.sub_add andb_true_r.
      by rewrite (_ : (i - 32 <? 32) = (i <? 64)); [lia|].
    + by rewrite Z.bits_0 andb_false_r.
Qed.

(** The request as it is decoded: 32-bit words. *)
Definition init_in_typed (arg : fuse_init_in) : Prop :=
  (0 <= ii_major arg < 2 ^ 32 /\ 0 <= ii_minor arg < 2 ^ 32) /\ 0 <= ii_max_readahead arg < 2 ^ 32 /\
  0 <= ii_flags arg < 2 ^ 32 /\ 0 <= ii_flags2 arg < 2 ^ 32.

Lemma inargflags_offered arg i : init_in_typed arg ->
  Z.testbit (init_inargflags arg) i = true -> Z.testbit (offered arg) i = true.
Proof.
  intros (_ & _ & _ & H2). unfold init_inargflags, offered. destruct (6 <=? ii_minor arg); [|by rewrite Z.bits_0].
  rewrite wrap_small; [|done]. rewrite Z.shiftl_mul_pow2 //. lia.
Qed.

(** High flags are only offered with [FUSE_INIT_EXT]. *)
Lemma high_offer arg i : init_in_typed arg -> 32 <= i ->
  Z.testbit (init_inargflags arg) i = true -> has_flag (init_inargflags arg) FUSE_INIT_EXT = true.
Proof.
  intros (_ & _ & H1 & _) Hi. unfold init_inargflags. destruct (6 <=? ii_minor arg); [|by rewrite Z.bits_0].
  destruct (has_flag (ii_flags arg) FUSE_INIT_EXT) eqn:He.
  - intros _. unfold FUSE_INIT_EXT in *. rewrite !has_flag_pow // in He |- *. by rewrite Z.lor_spec He.
  - intros Hx. apply (testbit_small 32) in Hx; [lia|lia|done].
Qed.

Section answer.
Context (ss sr : bool) (pagesize : Z) (arg : fuse_init_in) (conn : fuse_conn_info).
Context (Harg : init_in_typed arg) (Hwant : 0 <= ci_want_ext conn < 2 ^ 64).
Context (Hcap : ci_capable_ext conn = init_capable ss sr arg).
Context (Hvalid : want_flags_valid (ci_capable_ext conn) (ci_want_ext conn) = true).

Lemma wanted_offered c f : (c, f) ∈ answer_bits -> Z.testbit (ci_want_ext conn) c = true ->
  Z.testbit (init_inargflags arg) f = true.
Proof.
  intros Hin Hc. apply (want_valid_bits _ _ _ Hwant Hvalid) in Hc. rewrite Hcap in Hc.
  pose proof (capable_is_offer ss sr arg) as Hf. rewrite List.Forall_forall in Hf.
  specialize (Hf _ (proj1 (list_elem_of_In _ _) Hin)). cbn in Hf. by rewrite -Hf.
Qed.

Lemma enabled_offered i : Z.testbit (enabled (init_out pagesize arg conn)) i = true ->
  i = 5 \/ Z.testbit (offered arg) i = true.
Proof.
  intros He. destruct (Z.ltb_spec i 0); [by rewrite Z.testbit_neg_r in He|].
  rewrite enabled_testbit // in He. apply andb_true_iff in He as [_ He]. rewrite outargflags_testbit // in He.
  apply orb_true_iff in He as [[[He|He]%orb_true_iff|He]%orb_true_iff|He].
  - apply andb_true_iff in He as [->%Z.eqb_eq He]. right. unfold offered. destruct (has_flag _ _); [|done]. by rewrite Z.lor_spec He.
  - left. by apply Z.eqb_eq.
  - right. apply existsb_exists in He as ([c f] & Hin & [->%Z.eqb_eq Hc]%andb_true_iff).
    apply inargflags_offered; [done|]. eapply wanted_offered; [by apply list_elem_of_In|done].
  - apply andb_true_iff in He as [->%Z.eqb_eq He]. right. by apply inargflags_offered.
Qed.

Lemma enabled_wanted c f : (c, f) ∈ answer_bits ->
  Z.testbit (enabled (init_out pagesize arg conn)) f = Z.testbit (ci_want_ext conn) c.
Proof.
  intros Hin.
  assert (0 <= f < 64 /\ Z.testbit (init_outargflags arg (ci_want_ext conn)) f = Z.testbit (ci_want_ext conn) c) as [Hf Ho].
  { unfold answer_bits in Hin. rewrite !elem_of_cons elem_of_nil in Hin.
    destruct_or! Hin; try done; injection Hin as -> ->; (split; [lia|]); rewrite outargflags_testbit //; cbn -[Z.testbit]; by rewrite ?orb_false_r. }
  rewrite enabled_testbit; [lia|]. rewrite Ho. destruct (Z.testbit (ci_want_ext conn) c) eqn:Hc; [|by rewrite andb_false_r].
  destruct (Z.ltb_spec f 32); [done|]. rewrite (high_offer arg f) //; [by eapply wanted_offered|].
  by destruct (Z.ltb_spec f 64); [|lia].
Qed.
End answer.

(** ** Every field keeps its width *)

Definition is_u32 (x : Z) : Prop := 0 <= x < 2 ^ 32.
Definition is_u64 (x : Z) : Prop := 0 <= x < 2 ^ 64.

Record conn_typed (c : fuse_conn_info) : Prop := {
  ct_major : is_u32 (ci_proto_major c);
  ct_minor : is_u32 (ci_proto_minor c);
  ct_max_write : is_u32 (ci_max_write c);
  ct_max_read : is_u32 (ci_max_read c);
  ct_max_readahead : is_u32 (ci_max_readahead c);
  ct_capable : is_u32 (ci_capable c);
  ct_want : is_u32 (ci_want c);
  ct_max_background : is_u32 (ci_max_background c);
  ct_congestion : is_u32 (ci_congestion_threshold c);
  ct_time_gran : is_u32 (ci_time_gran c);
  ct_depth : is_u32 (ci_max_backing_stack_depth c);
  ct_capable_ext : is_u64 (ci_capable_ext c);
  ct_want_ext : is_u64 (ci_want_ext c);
}.

Definition nego_typed (n : nego) : Prop := conn_typed (ng_conn n) /\ is_u32 (ng_want n) /\ is_u64 (ng_want_ext n).

Lemma u32_typed x : is_u32 (u32 x).
Proof. by apply wrap_range. Qed.
Lemma lor_u64 x y : is_u64 x -> is_u64 y -> is_u64 (Z.lor x y).
Proof. by apply lor_range. Qed.
Lemma land_u64 x y : is_u64 x -> is_u64 (Z.land x y).
Proof. by apply land_range. Qed.
Lemma u32_u64 x : is_u32 x -> is_u64 x.
Proof. unfold is_u32, is_u64. lia. Qed.
Lemma or_if_u64 b f x : is_u64 f -> is_u64 x -> is_u64 (or_if b f x).
Proof. destruct b; cbn; auto using lor_u64. Qed.
Lemma flag_ifs_u64 flags table acc : Forall (fun p => is_u64 p.2) table -> is_u64 acc -> is_u64 (flag_ifs flags table acc).
Proof.
  intros Ht. revert acc. induction Ht as [|[x y] table Hy _ IH]; intros acc Ha; [done|].
  unfold flag_ifs in *. cbn [foldl]. apply IH. by apply or_if_u64.
Qed.
Create HintDb typed.
#[export] Hint Resolve u32_typed lor_u64 land_u64 u32_u64 or_if_u64 : typed.

Ltac typed :=
  repeat match goal with H : nego_typed _ |- _ => destruct H as (? & ? & ?) end;
  lazymatch goal with |- nego_typed _ => split; [|split] | _ => idtac end;
  repeat match goal with H : conn_typed _ |- _ => destruct H end;
  lazymatch goal with |- conn_typed _ => split | _ => idtac end; cbn; auto with typed.

(** What [do_init] relies on in a file system's [init]: it writes values that fit
    the fields, and leaves the read-only fields alone. *)
Class FsInit (g : nego -> nego) : Prop := {
  fs_typed : forall n, nego_typed n -> nego_typed (g n);
  fs_capable : forall n, ci_capable_ext (ng_conn (g n)) = ci_capable_ext (ng_conn n);
  fs_minor : forall n, ci_proto_minor (ng_conn (g n)) = ci_proto_minor (ng_conn n);
}.

#[export] Instance fs_init_id : FsInit (fun n => n).
Proof. by split. Qed.

Lemma fs_init_comp g h : FsInit g -> FsInit h -> FsInit (fun n => h (g n)).
Proof. intros [Ht1 Hc1 Hm1] [Ht2 Hc2 Hm2]. split; [auto|..]; intros n; [by rewrite Hc2 Hc1|by rewrite Hm2 Hm1]. Qed.

#[export] Instance fs_set_feature flag : TCEq (0 <=? flag) true -> TCEq (flag <? 2 ^ 64) true ->
  FsInit (fun n => snd (fuse_set_feature_flag flag n)).
Proof.
  rewrite !TCEq_eq. intros H0%Z.leb_le H1%Z.ltb_lt. assert (is_u64 flag) by done.
  split; intros n; unfold fuse_set_feature_flag; destruct (has_flag _ _); cbn [snd]; try done. intros Hn. typed.
Qed.

#[export] Instance fs_unset_feature flag : FsInit (fuse_unset_feature_flag flag).
Proof. split; try done. intros n Hn. unfold fuse_unset_feature_flag. cbn zeta. typed. Qed.

Lemma fs_if (b : bool) g : FsInit g -> FsInit (fun n => if b then g n else n).
Proof. destruct b; [done|]. intros _. apply fs_init_id. Qed.

#[export] Instance fs_convert : FsInit (fun n => snd (fuse_convert_to_conn_want_ext n)).
Proof.
  split; intros n; unfold fuse_convert_to_conn_want_ext; cbn zeta;
    destruct (_ && _), (negb (ci_want_ext (ng_conn n) =? ng_want_ext n)); cbn [snd]; try done; intros Hn; typed.
  all: unfold fuse_lower_32_bits, fuse_higher_32_bits; auto with typed.
Qed.

(** One state of the negotiation reached from another by well-behaved steps. *)
Definition tame (n0 n : nego) : Prop :=
  (nego_typed n0 -> nego_typed n) /\ ci_capable_ext (ng_conn n) = ci_capable_ext (ng_conn n0) /\
  ci_proto_minor (ng_conn n) = ci_proto_minor (ng_conn n0).

#[export] Instance tame_preorder : PreOrder tame.
Proof. split; [by intros n|]. intros n1 n2 n3 (H1 & E1 & F1) (H2 & E2 & F2). split_and!; [auto|congruence..]. Qed.

Lemma tame_init g n0 n : FsInit g -> tame n0 n -> tame n0 (g n).
Proof. intros [Ht Hc Hm] (H & E & F). split_and!; [auto|by rewrite Hc|by rewrite Hm]. Qed.

Lemma init_of_tame g : (forall n, tame n (g n)) -> FsInit g.
Proof. intros H. split; intros n; apply H. Qed.

Lemma tame_enable b cap n0 n : is_u64 cap -> tame n0 n -> tame n0 (ll_enable b cap n).
Proof.
  intros [H0%Z.leb_le H1%Z.ltb_lt] Hn. destruct b; cbn [ll_enable]; [|done].
  apply (tame_init (fun n => snd (fuse_set_feature_flag cap n))); [|done]. apply fs_set_feature; by apply TCEq_eq.
Qed.
Lemma tame_disable b cap n0 n : tame n0 n -> tame n0 (ll_disable b cap n).
Proof. intros Hn. destruct b; cbn [ll_disable]; [|done]. apply (tame_init (fuse_unset_feature_flag cap)); [tc_solve|done]. Qed.
Lemma tame_conn n0 n c : tame n0 n -> ci_capable_ext c = ci_capable_ext (ng_conn n) -> ci_proto_minor c = ci_proto_minor (ng_conn n) ->
  (nego_typed n -> conn_typed c) -> tame n0 (mkNego c (ng_want n) (ng_want_ext n)).
Proof. intros (H & E & F) E1 F1 Hc. split_and!; cbn; [|congruence..]. intros H0. pose proof (H H0) as Hn. split; [auto|apply Hn]. Qed.

Ltac tame_chain := repeat first [apply tame_disable | apply tame_enable; [done|] | reflexivity].

(** The numbers of the connection options fit an [unsigned]. *)
Definition conn_opts_typed (o : fuse_conn_info_opts) : Prop :=
  is_u32 (co_max_write o) /\ is_u32 (co_max_readahead o) /\ is_u32 (co_max_background o) /\
  is_u32 (co_congestion_threshold o) /\ is_u32 (co_time_gran o).

(** The helper libraries offer to file systems is such an [init], *)
Lemma fs_apply_conn_info_opts opts : conn_opts_typed opts -> FsInit (fuse_apply_conn_info_opts opts).
Proof.
  intros Ho. apply init_of_tame. intros n. unfold fuse_apply_conn_info_opts. cbn zeta. tame_chain.
  destruct Ho as (? & ? & ? & ? & ?). apply tame_conn; [reflexivity|..];
  destruct (co_set_max_write opts), (co_set_max_background opts), (co_set_congestion_threshold opts), (co_set_time_gran opts),
    (co_set_max_readahead opts); try reflexivity; intros Hn; typed.
Qed.

(** and so is the one the high-level library passes to the session. *)
#[export] Instance fs_lib_init wb lk fl init intr : (forall g, init = Some g -> FsInit g) -> FsInit (fuse_lib_init wb lk fl init intr).
Proof.
  intros Hg. apply init_of_tame. intros n. unfold fuse_lib_init. cbn zeta.
  assert (forall n1, tame n n1 -> tame n (fuse_fs_init wb lk fl init n1)) as Hfs.
  { intros n1 Hn1. unfold fuse_fs_init. cbn zeta. destruct init as [g|]; [apply tame_init; [by apply Hg|]|]; tame_chain; done. }
  assert (tame n (fuse_fs_init wb lk fl init (snd (fuse_set_feature_flag FUSE_CAP_EXPORT_SUPPORT n)))) as H.
  { apply Hfs. apply (tame_enable true); [done|reflexivity]. }
  destruct intr; [done|]. apply tame_conn; [done..|]. intros Hn. typed.
Qed.

(** ** What [do_init] does *)

Abbreviation St := (session ll_call).

(** The fields of the session that answering a request does not touch. *)
Definition se_env (s : St) := (nego_of s, se_bufsize s, se_error s, se_exited s, se_got_init s, se_buf_reallocable s).

Lemma wp_req_set r g q (Q : unit -> St -> Prop) s :
  se_reqs s !! r = Some q -> Q tt (set_reqs s (<[r := g q]> (se_reqs s))) -> wp (req_set r g) Q s.
Proof. intros Hq HQ. unfold wp, req_set. by rewrite Hq. Qed.

Lemma destroy_keeps r q (s : St) (Q : unit -> St -> Prop) : se_reqs s !! r = Some q -> rq_ch q = false ->
  (forall s', se_env s' = se_env s -> se_out s' = se_out s -> Q tt s') -> wp (destroy_req r) Q s.
Proof.
  intros Hq Hch HQ. unfold destroy_req. apply wp_bind. eapply wp_req_get; [done|]. apply wp_bind, wp_assert; [by rewrite Hch|].
  apply wp_modify. by apply HQ.
Qed.

(** Any request can be freed, whatever it is linked into. *)
Lemma free_keeps r q (s : St) (Q : unit -> St -> Prop) : se_reqs s !! r = Some q ->
  (forall s', se_env s' = se_env s -> se_out s' = se_out s -> Q tt s') -> wp (fuse_free_req r) Q s.
Proof.
  intros Hq HQ. unfold fuse_free_req. apply wp_bind, wp_get, wp_bind.
  apply wp_mono with (P := fun _ s' => se_env s' = se_env s /\ se_out s' = se_out s /\
    exists q', se_reqs s' !! r = Some q' /\ rq_ch q' = false).
  - destruct (ci_no_interrupt (se_conn s)).
    + eapply wp_req_set; [done|]. split_and!; [done..|]. eexists. split; [apply lookup_insert_eq|done].
    + apply wp_bind. eapply wp_req_set; [done|]. apply wp_bind, wp_modify. eapply wp_req_set; [apply lookup_insert_eq|].
      split_and!; [done..|]. eexists. split; [apply lookup_insert_eq|done].
  - intros [] s1 (He & Ho & q1 & Hq1 & Hch). apply wp_bind. eapply wp_req_get; [done|]. destruct (_ =? _).
    + eapply destroy_keeps; [done..|]. intros s2 He2 Ho2. apply HQ; congruence.
    + apply wp_ret, HQ; congruence.
Qed.

Definition reply_msg (r : Z) (q : fuse_req) (error : Z) (data : list Z) : out_msg := mkMsg (Some r) (rq_unique q) error data.

Lemma send_keeps send_errno known_errno r q e d (s : St) (Q : Z -> St -> Prop) : se_reqs s !! r = Some q ->
  (forall res s', se_env s' = se_env s -> se_out s' = se_out s ++ [reply_msg r q (checked_error known_errno e) d] -> Q res s') ->
  wp (send_reply_iov send_errno known_errno r e d) Q s.
Proof.
  intros Hq HQ. unfold send_reply_iov, fuse_send_reply_iov_nofree. apply wp_bind, wp_bind. eapply wp_req_get; [done|].
  unfold wp at 1, fuse_send_msg. apply wp_bind. eapply free_keeps; [done|]. intros s' He Ho. by apply wp_ret, HQ.
Qed.

Section run.
Context (send_errno : nat -> Z) (known_errno : Z -> bool) (has_op : ll_op -> bool) (op_init : option (nego -> nego)).
Context (pagesize max_read_mo : Z) (ss sr : bool).

Abbreviation run_init := (do_init send_errno known_errno has_op op_init pagesize max_read_mo ss sr).

(** The connection the negotiation starts from. *)
Definition init_start (arg : fuse_init_in) (s : St) : nego :=
  nego_of (set_conn s (set_ci_want_ext (set_ci_capable_ext
    (set_ci_proto_minor (set_ci_proto_major (se_conn s) (ii_major arg)) (ii_minor arg)) 0) 0)).

(** Whether the outcome of the negotiation is accepted. *)
Definition init_accepts (conn : fuse_conn_info) : bool :=
  want_flags_valid (ci_capable_ext conn) (ci_want_ext conn) && (ci_max_read conn =? max_read_mo).

Definition init_limits (arg : fuse_init_in) (s : St) (conn : fuse_conn_info) : fuse_conn_info :=
  let '(bufsize, buf_reallocable) := init_bufsize pagesize arg (se_bufsize s) (se_buf_reallocable s) in
  init_background (set_ci_max_write conn (init_max_write bufsize buf_reallocable (ci_max_write conn))).

Lemma init_background_same conn :
  ci_want_ext (init_background conn) = ci_want_ext conn /\ ci_capable_ext (init_background conn) = ci_capable_ext conn /\
  ci_max_read (init_background conn) = ci_max_read conn /\ ci_max_write (init_background conn) = ci_max_write conn /\
  ci_proto_minor (init_background conn) = ci_proto_minor conn.
Proof. unfold init_background. repeat (case_match; cbn [ci_proto_minor]); done. Qed.

Lemma init_limits_same arg s conn :
  ci_want_ext (init_limits arg s conn) = ci_want_ext conn /\ ci_capable_ext (init_limits arg s conn) = ci_capable_ext conn /\
  ci_max_read (init_limits arg s conn) = ci_max_read conn.
Proof. unfold init_limits. destruct (init_bufsize _ _ _ _) as [b re]. by destruct (init_background_same (set_ci_max_write conn (init_max_write b re (ci_max_write conn)))) as (-> & -> & -> & _). Qed.

Lemma init_accepts_limits arg s conn : init_accepts (init_limits arg s conn) = init_accepts conn.
Proof. unfold init_accepts. by destruct (init_limits_same arg s conn) as (-> & -> & ->). Qed.

(** How a run of protocol 7 ends: refused, or answered. *)
Definition init_ends (r : Z) (q : fuse_req) (arg : fuse_init_in) (s s' : St) : Prop :=
  let n := init_negotiate has_op op_init ss sr arg (init_start arg s) in
  se_got_init s' = true /\ se_buf_reallocable s' = se_buf_reallocable s /\
  if init_accepts (ng_conn n) then
    nego_of s' = mkNego (init_limits arg s (ng_conn n)) (ng_want n) (ng_want_ext n) /\
    se_bufsize s' = u32 (ci_max_write (se_conn s') + FUSE_BUFFER_HEADER_SIZE) /\
    se_error s' = se_error s /\ se_exited s' = se_exited s /\
    se_out s' = se_out s ++ [reply_msg r q (checked_error known_errno 0)
      (take (Z.to_nat (init_outargsize arg)) (encode_init_out (init_out pagesize arg (se_conn s'))))]
  else
    nego_of s' = n /\ se_bufsize s' = se_bufsize s /\ se_error s' = - EPROTO /\ se_exited s' = true /\
    se_out s' = se_out s ++ [reply_msg r q (checked_error known_errno (- EPROTO)) []].

Lemma nego_set_nego (s : St) n : nego_of (set_nego s n) = n.
Proof. by destruct n. Qed.

Lemma init_fail_run r q (s s1 : St) : se_reqs s1 !! r = Some q -> se_out s1 = se_out s ->
  wp (init_fail send_errno known_errno r) (fun _ s' => nego_of s' = nego_of s1 /\ se_bufsize s' = se_bufsize s1 /\
    se_got_init s' = se_got_init s1 /\ se_buf_reallocable s' = se_buf_reallocable s1 /\ se_error s' = - EPROTO /\ se_exited s' = true /\
    se_out s' = se_out s ++ [reply_msg r q (checked_error known_errno (- EPROTO)) []]) s1.
Proof.
  intros Hq Ho. unfold init_fail. apply wp_bind. unfold Handlers.reply_err. apply wp_bind.
  eapply send_keeps; [done|]. intros res s2 He Ho2. apply wp_ret, wp_bind, wp_modify, wp_modify.
  injection He as Hn Hw Hwe ? ? ? ? ?. split_and!; try done; cbn.
  - unfold nego_of. cbn. by rewrite Hn Hw Hwe.
  - by rewrite Ho2 Ho.
Qed.

Lemma do_init_run r nodeid inarg (s : St) q : se_reqs s !! r = Some q -> ii_major (decode_init_in inarg) = 7 ->
  wp (run_init r nodeid inarg) (fun _ s' => init_ends r q (decode_init_in inarg) s s') s.
Proof.
  intros Hq H7. unfold do_init. set (arg := decode_init_in inarg) in *. apply wp_bind, wp_get, wp_bind, wp_put.
  rewrite H7. cbn [Z.ltb Z.compare Pos.compare Pos.compare_cont]. unfold init_ends, init_limits.
  destruct (init_bufsize pagesize arg (se_bufsize s) (se_buf_reallocable s)) as [b re] eqn:Hb.
  apply wp_bind, wp_modify, wp_bind, wp_get.
  set (n0 := nego_of (set_conn s _)). assert (n0 = init_start arg s) as -> by (unfold n0, init_start; by rewrite H7).
  set (n := init_negotiate has_op op_init ss sr arg (init_start arg s)). set (s1 := set_got_init _ true).
  assert (se_reqs s1 !! r = Some q) as Hq1 by done. assert (se_out s1 = se_out s) as Ho1 by done.
  assert (nego_of s1 = n) as Hn1 by (by destruct n). assert (se_conn s1 = ng_conn n) as Hc1 by done. rewrite Hc1.
  pose proof (init_fail_run r q s s1 Hq1 Ho1) as Hfail. unfold init_accepts.
  destruct (want_flags_valid _ _); cbn [negb andb].
  2:{ eapply wp_mono; [exact Hfail|]. intros [] s2 (E1 & E2 & E3 & E4 & E5 & E6 & E7). split_and!; try done. by rewrite E1 Hn1. }
  destruct (ci_max_read (ng_conn n) =? max_read_mo); cbn [negb].
  2:{ eapply wp_mono; [exact Hfail|]. intros [] s2 (E1 & E2 & E3 & E4 & E5 & E6 & E7). split_and!; try done. by rewrite E1 Hn1. }
  apply wp_bind, wp_put, wp_bind. eapply send_keeps; [done|]. intros res s2 He Ho2. apply wp_ret.
  injection He as Hc Hw Hwe Hbs Her Hex Hgi Hbr. split_and!; try done.
  - unfold nego_of. by rewrite Hc Hw Hwe.
  - rewrite Hbs Hc. cbn [se_conn set_conn set_bufsize].
    destruct (init_background_same (set_ci_max_write (ng_conn n) (init_max_write b re (ci_max_write (ng_conn n))))) as (_ & _ & _ & -> & _). done.
  - rewrite Ho2. by rewrite Hc.
Qed.

(** ** The negotiation keeps the types *)

Context (Hop : forall g, op_init = Some g -> FsInit g).

Lemma tame_default b cap n0 n : is_u64 cap -> tame n0 n -> tame n0 (ll_set_default b cap n).
Proof using Type. apply tame_enable. Qed.

Lemma init_defaults_tame n : tame n (init_defaults has_op n).
Proof using Type. unfold init_defaults. cbn zeta. repeat (apply tame_default; [done|]). reflexivity. Qed.

Lemma init_callback_tame n : tame n (init_callback op_init n).
Proof using Hop.
  unfold init_callback. destruct op_init as [g|]; [|reflexivity]. cbn zeta. specialize (Hop g eq_refl).
  apply (tame_init (fun n => snd (fuse_convert_to_conn_want_ext n))); [tc_solve|]. apply tame_init; [done|].
  apply tame_conn; [reflexivity|done..|]. intros Hn. unfold fuse_lower_32_bits. typed.
Qed.

Lemma init_capable_u64 arg : is_u64 (init_capable ss sr arg).
Proof using Type.
  unfold init_capable. cbn zeta. apply or_if_u64; [done|].
  assert (forall x, is_u64 x -> is_u64 (or_if sr FUSE_CAP_SPLICE_READ (or_if ss (Z.lor FUSE_CAP_SPLICE_WRITE FUSE_CAP_SPLICE_MOVE) x))) as Hs.
  { intros x Hx. apply or_if_u64; [done|]. by apply or_if_u64. }
  assert (is_u64 (if 6 <=? ii_minor arg then
      flag_ifs (init_inargflags arg) offer_table_ext (or_if ((38 <=? ii_minor arg) || has_flag (init_inargflags arg) FUSE_HAS_EXPIRE_ONLY)
        FUSE_CAP_EXPIRE_ONLY (flag_ifs (init_inargflags arg) offer_table 0)) else 0)) as H6.
  { destruct (6 <=? ii_minor arg); [|done]. apply flag_ifs_u64; [repeat (apply List.Forall_cons; [done|]); apply List.Forall_nil|].
    apply or_if_u64; [done|]. apply flag_ifs_u64; [repeat (apply List.Forall_cons; [done|]); apply List.Forall_nil|done]. }
  destruct (14 <=? ii_minor arg); [by apply Hs|done].
Qed.

Lemma init_negotiate_typed arg n : init_in_typed arg -> nego_typed n ->
  let m := init_negotiate has_op op_init ss sr arg n in
  nego_typed m /\ ci_capable_ext (ng_conn m) = init_capable ss sr arg.
Proof using Hop.
  intros (_ & Hra & _) Hn. cbn zeta. unfold init_negotiate. cbn zeta.
  set (n1 := mkNego (init_offer ss sr arg (ng_conn n)) (ng_want n) (ng_want_ext n)).
  assert (nego_typed n1) as Hn1.
  { pose proof (init_capable_u64 arg). subst n1. unfold init_offer. typed; repeat case_match; done. }
  assert (tame n1 (init_callback op_init (mkNego (set_ci_time_gran (ng_conn (init_defaults has_op n1)) 1)
    (ng_want (init_defaults has_op n1)) (ng_want_ext (init_defaults has_op n1))))) as (Ht & Hc & _).
  { etransitivity; [|apply init_callback_tame]. apply tame_conn; [apply init_defaults_tame|done..|]. intros Hd. typed; done. }
  split; [by apply Ht|by rewrite Hc].
Qed.

(** A session with fields that fit. *)
Definition sess_typed (s : St) : Prop := nego_typed (nego_of s) /\ is_u32 (se_bufsize s).

Lemma init_start_typed arg s : init_in_typed arg -> sess_typed s -> nego_typed (init_start arg s).
Proof using Type. intros ((? & ?) & _) [Hn _]. unfold init_start, nego_of in *. typed; done. Qed.
End run.

Lemma unle_range bs : Forall (fun b => 0 <= b < 256) bs -> 0 <= unle bs < 256 ^ Z.of_nat (length bs).
Proof.
  induction 1 as [|b bs Hb _ IH]; [done|]. cbn [unle length]. rewrite Nat2Z.inj_succ Z.pow_succ_r; lia.
Qed.

Lemma u32_at_range inarg off : Forall (fun b => 0 <= b < 256) inarg -> is_u32 (u32_at inarg off).
Proof.
  intros Hb. unfold u32_at, field. destruct (unle_range (take 4 (drop off inarg))) as [H0 H1]; [by apply Forall_take, Forall_drop|].
  split; [done|]. eapply Z.lt_le_trans; [exact H1|]. change (2 ^ 32) with (256 ^ 4). apply Z.pow_le_mono_r; [done|].
  rewrite length_take. lia.
Qed.

Lemma decode_typed inarg : Forall (fun b => 0 <= b < 256) inarg -> init_in_typed (decode_init_in inarg).
Proof. intros Hb. pose proof (fun off => u32_at_range inarg off Hb) as H. unfold init_in_typed, decode_init_in. cbn. split_and!; apply H. Qed.

(** ** Sizes *)

Section sizes.
Context (pagesize : Z) (Hpage : 0 < pagesize <= 2 ^ 16).

Lemma init_max_write_range b re w : is_u32 b -> is_u32 w -> 0 <= init_max_write b re w <= UINT_MAX - FUSE_BUFFER_HEADER_SIZE /\
  init_max_write b re w <= w.
Proof using Type.
  unfold is_u32, init_max_write, UINT_MAX, FUSE_BUFFER_HEADER_SIZE, FUSE_MIN_READ_BUFFER. intros Hb Hw. cbn zeta.
  set (b1 := if re then _ else _). assert (8192 <= b1 <= 4294967295) as Hb1.
  { unfold b1. destruct re; [lia|]. destruct (Z.ltb_spec b 8192); lia. }
  rewrite (wrap_small 64); [lia|]. rewrite wrap_small; lia.
Qed.

Lemma init_bufsize_range arg b re : is_u32 b -> is_u32 (fst (init_bufsize pagesize arg b re)).
Proof using Hpage.
  unfold is_u32, init_bufsize, FUSE_DEFAULT_MAX_PAGES_PER_REQ, FUSE_BUFFER_HEADER_SIZE. intros Hb.
  destruct (_ && _); [|done]. cbn zeta. cbn [fst]. destruct (Z.ltb_spec (32 * pagesize + 4096) b); lia.
Qed.

Lemma init_background_typed conn : conn_typed conn -> conn_typed (init_background conn).
Proof using Type.
  clear Hpage. intros Hc. unfold init_background. destruct (13 <=? _); [|done]. cbn zeta.
  set (c1 := if 2 ^ 16 <=? _ then _ else _). assert (conn_typed c1) as H1.
  { unfold c1. destruct (_ <=? _); [|exact Hc]. assert (is_u32 (2 ^ 16 - 1)) as H16 by (unfold is_u32; lia). revert H16.
    generalize (2 ^ 16 - 1). intros v Hv. typed. }
  clearbody c1. clear Hc. set (c2 := if ci_max_background c1 <? _ then _ else _).
  assert (conn_typed c2) as H2 by (unfold c2; destruct (_ <? _); [typed|done]).
  clearbody c2. clear H1. destruct (_ =? 0); [|done]. typed. pose proof (u32_typed (ci_max_background c2 * 3)) as [? ?]. split.
  - apply Z.div_pos; lia.
  - apply Z.div_lt_upper_bound; lia.
Qed.

(** From protocol 7.13 on both limits fit their 16 bits. *)
Lemma init_background_bounds conn : conn_typed conn -> 13 <= ci_proto_minor conn ->
  0 <= ci_congestion_threshold (init_background conn) <= ci_max_background (init_background conn) /\
  ci_max_background (init_background conn) < 2 ^ 16.
Proof using Type.
  intros Hc Hm. unfold init_background. destruct (Z.leb_spec 13 (ci_proto_minor conn)); [|lia]. cbn zeta.
  set (c1 := if 2 ^ 16 <=? _ then _ else _).
  assert (0 <= ci_max_background c1 < 2 ^ 16 /\ 0 <= ci_congestion_threshold c1) as [H1 H1'].
  { destruct (ct_max_background _ Hc), (ct_congestion _ Hc). unfold c1. destruct (Z.leb_spec (2 ^ 16) (ci_max_background conn)); cbn; lia. }
  set (c2 := if ci_max_background c1 <? _ then _ else _).
  assert (ci_max_background c2 = ci_max_background c1 /\ 0 <= ci_congestion_threshold c2 <= ci_max_background c1) as [E2 H2].
  { unfold c2. destruct (Z.ltb_spec (ci_max_background c1) (ci_congestion_threshold c1)); cbn; lia. }
  destruct (_ =? 0); cbn [ci_congestion_threshold ci_max_background set_ci_congestion_threshold]; rewrite E2; [|lia].
  rewrite wrap_small; [lia|]. split; [|lia]. split; [apply Z.div_pos; lia|]. apply Z.div_le_upper_bound; lia.
Qed.

(** [max_pages] covers [max_write] exactly when its 16 bits suffice. *)
Lemma max_pages_cover w : is_u32 w ->
  w <= u16 (u32 (w - 1) / pagesize + 1) * pagesize <-> w <= 65535 * pagesize.
Proof using Hpage.
  unfold is_u32. intros Hw. pose proof (wrap_range 16 (u32 (w - 1) / pagesize + 1) ltac:(lia)) as Hu. split; intros H; [nia|].
  destruct (Z.eq_dec w 0) as [->|Hn]; [nia|]. rewrite (wrap_small 32) in Hu |- *; [lia|].
  assert ((w - 1) / pagesize < 65535) by (apply Z.div_lt_upper_bound; lia).
  assert (0 <= (w - 1) / pagesize) by (apply Z.div_pos; lia).
  rewrite wrap_small; [lia|]. pose proof (Z.mul_succ_div_gt (w - 1) pagesize ltac:(lia)). lia.
Qed.

Lemma init_limits_typed arg (s : St) conn : is_u32 (se_bufsize s) -> conn_typed conn ->
  conn_typed (init_limits pagesize arg s conn) /\
  0 <= ci_max_write (init_limits pagesize arg s conn) <= UINT_MAX - FUSE_BUFFER_HEADER_SIZE.
Proof using Hpage.
  intros Hb Hc. unfold init_limits. pose proof (init_bufsize_range arg (se_bufsize s) (se_buf_reallocable s) Hb) as Hr.
  destruct (init_bufsize _ _ _ _) as [b re]. cbn [fst] in Hr.
  pose proof (init_max_write_range b re (ci_max_write conn) Hr (ct_max_write _ Hc)) as [Hw _].
  assert (conn_typed (set_ci_max_write conn (init_max_write b re (ci_max_write conn)))) as Hc1.
  { typed. unfold is_u32, UINT_MAX, FUSE_BUFFER_HEADER_SIZE in *. lia. }
  split; [by apply init_background_typed|].
  by destruct (init_background_same (set_ci_max_write conn (init_max_write b re (ci_max_write conn)))) as (_ & _ & _ & -> & _).
Qed.
End sizes.

(** ** The wish list of old and new file systems *)

Lemma lower_32 x : fuse_lower_32_bits x = x mod 2 ^ 32.
Proof. unfold fuse_lower_32_bits, wrap. change 4294967295 with (Z.ones 32). rewrite Z.land_ones //. by apply Z.mod_mod. Qed.

Lemma higher_testbit x i : is_u64 x -> 0 <= i -> Z.testbit (fuse_higher_32_bits x) i = Z.testbit x i && (32 <=? i).
Proof.
  intros Hx Hi. unfold fuse_higher_32_bits. rewrite Z.land_spec wrap_testbit // Z.lnot_spec //.
  change 4294967295 with (Z.ones 32). rewrite Z.testbit_ones_nonneg //.
  destruct (Z.testbit x i) eqn:Hb; [|done]. apply (testbit_small 64 x i) in Hb; [|lia|done].
  destruct (Z.ltb_spec i 64), (Z.ltb_spec i 32), (Z.leb_spec 32 i); try lia; done.
Qed.

(** The high half of one word and the other word as its low half. *)
Lemma join_words x w : is_u64 x -> is_u32 w ->
  fuse_lower_32_bits (Z.lor (fuse_higher_32_bits x) w) = w /\
  fuse_higher_32_bits (Z.lor (fuse_higher_32_bits x) w) = fuse_higher_32_bits x.
Proof.
  intros Hx Hw.
  assert (forall i, 0 <= i -> Z.testbit w i = Z.testbit w i && (i <? 32)) as Hl.
  { intros i Hi. destruct (Z.testbit w i) eqn:Hb; [|done]. apply (testbit_small 32) in Hb; [lia|lia|done]. }
  assert (is_u64 (Z.lor (fuse_higher_32_bits x) w)) as Hj by (apply lor_u64; [by apply land_u64|by apply u32_u64]).
  split; apply Z.bits_inj'; intros i Hi.
  - rewrite lower_32 (wrap_testbit 32) // Z.lor_spec higher_testbit // (Hl i) //.
    destruct (Z.testbit x i), (Z.testbit w i), (Z.ltb_spec i 32), (Z.leb_spec 32 i); try lia; done.
  - rewrite !higher_testbit // Z.lor_spec higher_testbit // (Hl i) //.
    destruct (Z.testbit x i), (Z.testbit w i), (Z.ltb_spec i 32), (Z.leb_spec 32 i); try lia; done.
Qed.

(** [fuse_convert_to_conn_want_ext] reads the wishes of a file system from the
    field it wrote.  If it wrote the 32-bit [want] and left [want_ext] as libfuse
    had set it, the low half of [want_ext] becomes [want]; otherwise [want_ext] is
    kept; in both cases the high half is kept and [want] becomes the low half, and
    a second call changes nothing, as the function's comment promises for callers
    in both layers.  It fails, and changes nothing, exactly when both fields were
    written and disagree. *)
Theorem want_conversion n : nego_typed n ->
  let conn := ng_conn n in
  let old_style := negb (ci_want conn =? ng_want n) && negb (fuse_lower_32_bits (ci_want_ext conn) =? ci_want conn) in
  let '(err, n') := fuse_convert_to_conn_want_ext n in
  if old_style && negb (ci_want_ext conn =? ng_want_ext n) then err = - EINVAL /\ n' = n
  else err = 0 /\ ci_want (ng_conn n') = fuse_lower_32_bits (ci_want_ext (ng_conn n')) /\
    fuse_lower_32_bits (ci_want_ext (ng_conn n')) = (if old_style then ci_want conn else fuse_lower_32_bits (ci_want_ext conn)) /\
    fuse_higher_32_bits (ci_want_ext (ng_conn n')) = fuse_higher_32_bits (ci_want_ext conn) /\
    fuse_convert_to_conn_want_ext n' = (0, n').
Proof.
  intros (Hc & _ & _). pose proof (join_words (ci_want_ext (ng_conn n)) (ci_want (ng_conn n)) (ct_want_ext _ Hc) (ct_want _ Hc)) as [Hlo Hhi].
  assert (forall c, ci_want c = fuse_lower_32_bits (ci_want_ext c) ->
    fuse_convert_to_conn_want_ext (mkNego c (ng_want n) (ng_want_ext n)) = (0, mkNego c (ng_want n) (ng_want_ext n))) as Hagain.
  { intros c Hw. unfold fuse_convert_to_conn_want_ext. cbn [ng_conn ng_want ng_want_ext]. rewrite -Hw Z.eqb_refl andb_false_r.
    destruct c; cbn in *. by rewrite Hw. }
  cbn zeta. unfold fuse_convert_to_conn_want_ext at 1. cbn zeta. destruct (_ && _); cbn [andb].
  - destruct (negb (_ =? ng_want_ext n)); [done|]. split_and!; [done|done|exact Hlo|exact Hhi|]. by apply Hagain.
  - split_and!; [done..|]. by apply Hagain.
Qed.

(** ** The theorems about INIT *)

Section theorems.
Context (send_errno : nat -> Z) (known_errno : Z -> bool) (has_op : ll_op -> bool) (op_init : option (nego -> nego)).
Context (pagesize max_read_mo : Z) (ss sr : bool).
Context (Hop : forall g, op_init = Some g -> FsInit g) (Hpage : 0 < pagesize <= 2 ^ 16).

Abbreviation run_init := (do_init send_errno known_errno has_op op_init pagesize max_read_mo ss sr).

(** The end of a run, in terms of the connection it leaves. *)
Lemma init_end_conn r q arg s s' : init_in_typed arg -> sess_typed s ->
  init_ends known_errno has_op op_init pagesize max_read_mo ss sr r q arg s s' ->
  nego_typed (nego_of s') /\ ci_capable_ext (se_conn s') = init_capable ss sr arg /\
  (init_accepts max_read_mo (se_conn s') = init_accepts max_read_mo (ng_conn (init_negotiate has_op op_init ss sr arg (init_start arg s)))) /\
  if init_accepts max_read_mo (se_conn s')
  then ci_max_write (se_conn s') <= UINT_MAX - FUSE_BUFFER_HEADER_SIZE /\
       exists conn, conn_typed conn /\ se_conn s' = init_background conn
  else se_bufsize s' = se_bufsize s.
Proof using Hop Hpage.
  intros Ha [Hs Hb] He. destruct (init_negotiate_typed has_op op_init ss sr Hop arg (init_start arg s) Ha) as [Hn Hcap].
  { by apply init_start_typed. }
  cbn zeta in Hn, Hcap. unfold init_ends in He. set (n := init_negotiate _ _ _ _ _ _) in *. destruct Hn as (Hc & Hw & Hwe).
  destruct He as (_ & _ & He). destruct (init_limits_typed pagesize Hpage arg s (ng_conn n) Hb Hc) as [Hlt Hlw].
  destruct (init_accepts max_read_mo (ng_conn n)) eqn:Hacc.
  - destruct He as (Hne & _). assert (se_conn s' = init_limits pagesize arg s (ng_conn n)) as Hconn by exact (f_equal ng_conn Hne).
    rewrite Hconn init_accepts_limits Hacc. split_and!; [rewrite Hne; by split_and!| |done|lia|].
    + by destruct (init_limits_same pagesize arg s (ng_conn n)) as (_ & -> & _).
    + unfold init_limits in *. pose proof (init_bufsize_range pagesize Hpage arg (se_bufsize s) (se_buf_reallocable s) Hb) as Hr.
      destruct (init_bufsize _ _ _ _) as [b re]. eexists. split; [|done]. cbn [fst] in Hr.
      pose proof (init_max_write_range b re (ci_max_write (ng_conn n)) Hr (ct_max_write _ Hc)) as [Hmw _].
      unfold UINT_MAX, FUSE_BUFFER_HEADER_SIZE in Hmw. assert (is_u32 (init_max_write b re (ci_max_write (ng_conn n)))) as Hu.
      { unfold is_u32. lia. }
      typed.
  - destruct He as (Hne & Hbs & _). assert (se_conn s' = ng_conn n) as Hconn by exact (f_equal ng_conn Hne).
    rewrite Hconn Hacc. split_and!; try done. by rewrite Hne.
Qed.

(** C22: an INIT of protocol 7 gets exactly one answer.  If [init] asked for a flag
    the kernel did not offer, or for another [max_read] than the mount option, the
    request is refused with EPROTO and the session is told to exit; otherwise the
    answer describes the connection the session then works with, in the size the
    kernel's protocol version expects.  Older protocols get EPROTO and newer ones
    only the version, and nothing is negotiated. *)
Theorem init_answered r nodeid inarg s q :
  se_reqs s !! r = Some q -> known_errno EPROTO = true ->
  let arg := decode_init_in inarg in
  exists s', run_init r nodeid inarg s = Ok (tt, s') /\
    if ii_major arg =? 7 then
      se_got_init s' = true /\
      if init_accepts max_read_mo (ng_conn (init_negotiate has_op op_init ss sr arg (init_start arg s))) then
        se_exited s' = se_exited s /\ se_error s' = se_error s /\
        se_out s' = se_out s ++ [reply_msg r q 0
          (take (Z.to_nat (init_outargsize arg)) (encode_init_out (init_out pagesize arg (se_conn s'))))]
      else
        se_exited s' = true /\ se_error s' = - EPROTO /\ se_out s' = se_out s ++ [reply_msg r q (- EPROTO) []]
    else
      se_got_init s' = se_got_init s /\ se_exited s' = se_exited s /\ se_bufsize s' = se_bufsize s /\
      se_out s' = se_out s ++ [if ii_major arg <? 7 then reply_msg r q (- EPROTO) []
                               else reply_msg r q 0 (encode_init_out init_out_version)].
Proof using Type.
  clear Hop Hpage.
  intros Hq Hk arg. assert (checked_error known_errno (- EPROTO) = - EPROTO) as Hce.
  { unfold checked_error. change (- EPROTO * -1) with EPROTO. by rewrite Hk. }
  assert (checked_error known_errno 0 = 0) as Hc0 by (unfold checked_error; by rewrite andb_false_r).
  destruct (Z.eqb_spec (ii_major arg) 7) as [H7|H7].
  - destruct (wp_Ok _ _ _ (do_init_run send_errno known_errno has_op op_init pagesize max_read_mo ss sr r nodeid inarg s q Hq H7))
      as ([] & s' & Hrun & Hgi & _ & He). exists s'. split; [exact Hrun|]. split; [exact Hgi|]. fold arg in He.
    destruct (init_accepts _ _).
    + destruct He as (_ & _ & ? & ? & Ho). rewrite Hc0 in Ho. done.
    + destruct He as (_ & _ & ? & ? & Ho). rewrite Hce in Ho. done.
  - assert (wp (run_init r nodeid inarg) (fun _ s' => se_got_init s' = se_got_init s /\ se_exited s' = se_exited s /\
      se_bufsize s' = se_bufsize s /\ se_out s' = se_out s ++ [if ii_major arg <? 7 then reply_msg r q (- EPROTO) []
                               else reply_msg r q 0 (encode_init_out init_out_version)]) s) as Hwp.
    { unfold do_init. fold arg. apply wp_bind, wp_get, wp_bind, wp_put. destruct (Z.ltb_spec (ii_major arg) 7).
      - apply wp_bind. eapply send_keeps; [done|]. intros res s' Hev Ho. apply wp_ret. rewrite Hce in Ho.
        injection Hev as ? ? ? Hbs ? ? ? ?. done.
      - destruct (Z.ltb_spec 7 (ii_major arg)); [|lia]. apply wp_bind. eapply send_keeps; [done|]. intros res s' Hev Ho.
        apply wp_ret. rewrite Hc0 in Ho. injection Hev as ? ? ? Hbs ? ? ? ?. done. }
    destruct (wp_Ok _ _ _ Hwp) as ([] & s' & Hrun & HQ). exists s'. split; [exact Hrun|exact HQ].
Qed.

(** C21: the answer to an accepted INIT enables nothing the kernel did not offer,
    [FUSE_BIG_WRITES] apart, and of the flags libfuse negotiates exactly those
    whose capability the file system wants: the two numberings of the flags
    ([FUSE_CAP_*] in the API, [FUSE_*] on the wire, 64 bits in two words) agree in
    both directions. *)
Theorem init_flags_within_offer r nodeid inarg s s' q :
  se_reqs s !! r = Some q -> Forall (fun b => 0 <= b < 256) inarg -> sess_typed s ->
  let arg := decode_init_in inarg in
  ii_major arg = 7 -> run_init r nodeid inarg s = Ok (tt, s') -> init_accepts max_read_mo (se_conn s') = true ->
  let out := init_out pagesize arg (se_conn s') in
  (forall i, Z.testbit (enabled out) i = true -> 2 ^ i = FUSE_BIG_WRITES \/ Z.testbit (offered arg) i = true) /\
  (forall cap flag, (cap, flag) ∈ answer_table -> has_flag (enabled out) flag = has_flag (ci_want_ext (se_conn s')) cap).
Proof using Hop Hpage.
  intros Hq Hin Hs arg H7 Hrun Hacc out. pose proof (decode_typed inarg Hin) as Ha. fold arg in Ha.
  pose proof (wp_elim _ _ _ _ _ (do_init_run send_errno known_errno has_op op_init pagesize max_read_mo ss sr r nodeid inarg s q Hq H7) Hrun) as He.
  destruct (init_end_conn r q arg s s' Ha Hs He) as ((Hct & _) & Hcap & _).
  pose proof (ct_want_ext _ Hct) as Hwe. cbn [ng_conn nego_of] in Hwe. apply andb_true_iff in Hacc as [Hv _]. split.
  - intros i Hi. destruct (enabled_offered ss sr pagesize arg (se_conn s') Ha Hwe Hcap Hv i Hi) as [->|?]; [by left|by right].
  - intros cap flag. rewrite answer_table_bits. intros ([c f] & [= -> ->] & Hcf)%list_elem_of_fmap.
    assert (0 <= c /\ 0 <= f) as [? ?].
    { assert (Forall (fun '(c, f) => 0 <= c /\ 0 <= f) answer_bits) as Hall by (repeat (apply List.Forall_cons; [lia|]); apply List.Forall_nil).
      rewrite List.Forall_forall in Hall. by apply (Hall _ (proj1 (list_elem_of_In _ _) Hcf)). }
    rewrite !has_flag_pow //. by apply (enabled_wanted ss sr pagesize arg (se_conn s') Ha Hwe Hcap Hv).
Qed.

(** C29: INIT leaves a session whose fields all fit their C types.  After an
    accepted one the receive buffer is exactly [max_write] plus the header, with
    no wrap-around; the background limits fit the 16 bits they are sent in, the
    congestion threshold not above the maximum; and the [max_pages] of the answer
    allow requests of [max_write] bytes exactly when at most 65535 pages are
    needed: beyond that the 16-bit field truncates it. *)
Theorem init_typed r nodeid inarg s q :
  se_reqs s !! r = Some q -> Forall (fun b => 0 <= b < 256) inarg -> sess_typed s ->
  let arg := decode_init_in inarg in
  ii_major arg = 7 ->
  exists s', run_init r nodeid inarg s = Ok (tt, s') /\ sess_typed s' /\
    let conn := se_conn s' in
    let out := init_out pagesize arg conn in
    (init_accepts max_read_mo conn = true ->
      se_bufsize s' = ci_max_write conn + FUSE_BUFFER_HEADER_SIZE /\
      (13 <= ci_proto_minor conn ->
         io_max_background out = ci_max_background conn /\ io_congestion_threshold out = ci_congestion_threshold conn /\
         ci_congestion_threshold conn <= ci_max_background conn) /\
      (has_flag (ii_flags arg) FUSE_MAX_PAGES = true ->
         (ci_max_write conn <= io_max_pages out * pagesize <-> ci_max_write conn <= 65535 * pagesize))).
Proof using Hop Hpage.
  intros Hq Hin Hs arg H7. pose proof (decode_typed inarg Hin) as Ha. fold arg in Ha.
  destruct (wp_Ok _ _ _ (do_init_run send_errno known_errno has_op op_init pagesize max_read_mo ss sr r nodeid inarg s q Hq H7))
    as ([] & s' & Hrun & He). exists s'. split; [exact Hrun|]. fold arg in He.
  destruct (init_end_conn r q arg s s' Ha Hs He) as (Ht & _ & Hacc & Hend). destruct He as (_ & _ & He). rewrite -Hacc in He.
  pose proof (proj1 Ht) as Hct. cbn [ng_conn nego_of] in Hct. destruct (ct_max_write _ Hct) as [Hw0 Hw1].
  cbn zeta. destruct (init_accepts max_read_mo (se_conn s')).
  2:{ split; [split; [exact Ht|rewrite Hend; apply Hs]|]. intros Hx. discriminate Hx. }
  destruct Hend as (Hwu & conn0 & Hc0 & Econn), He as (_ & Hbs & _). unfold UINT_MAX, FUSE_BUFFER_HEADER_SIZE in *.
  assert (se_bufsize s' = ci_max_write (se_conn s') + 4096) as Hb by (rewrite Hbs wrap_small; lia).
  split; [split; [exact Ht|unfold is_u32; lia]|]. intros _. split_and!; [exact Hb| |].
  - intros Hm. destruct (init_background_same conn0) as (_ & _ & _ & _ & Em). rewrite Econn Em in Hm.
    destruct (init_background_bounds conn0 Hc0 Hm) as [[Hg0 Hg1] Hg2]. unfold init_out. cbn [io_max_background io_congestion_threshold].
    rewrite !Econn Em. destruct (Z.leb_spec 13 (ci_proto_minor conn0)); [|lia]. rewrite !wrap_small; [lia..|]. done.
  - intros Hf. unfold init_out. cbn [io_max_pages]. rewrite Hf. by apply max_pages_cover.
Qed.

(** ** [do_init] as a handler of the session *)

Definition intr_off (n : nego) : bool := ci_no_interrupt (ng_conn n).

Lemma default_intr b cap n : intr_off (ll_set_default b cap n) = intr_off n.
Proof using Type. destruct b; [|done]. cbn. unfold fuse_set_feature_flag. by destruct (has_flag _ _). Qed.

Lemma convert_intr n : intr_off (snd (fuse_convert_to_conn_want_ext n)) = intr_off n.
Proof using Type. unfold fuse_convert_to_conn_want_ext. cbn zeta. by destruct (_ && _), (negb (ci_want_ext (ng_conn n) =? ng_want_ext n)). Qed.

Lemma negotiate_intr arg n : (forall g m, op_init = Some g -> intr_off (g m) = intr_off m) ->
  intr_off (init_negotiate has_op op_init ss sr arg n) = intr_off n.
Proof using Type.
  clear Hop Hpage. intros Hint. unfold init_negotiate, init_callback. cbn zeta.
  assert (forall m, intr_off (init_defaults has_op m) = intr_off m) as Hd by (intros m; unfold init_defaults; cbn zeta; by rewrite !default_intr).
  destruct op_init as [g|]; [|exact (Hd _)]. rewrite convert_intr (Hint g _ eq_refl). exact (Hd _).
Qed.

(** The session may call [do_init]: it consumes its request, whatever the kernel
    sends, as long as [init] leaves interrupts on. *)
Lemma do_init_handles : (forall g m, op_init = Some g -> intr_off (g m) = intr_off m) -> InitHandler run_init.
Proof using Type.
  clear Hop Hpage. intros Hint r nodeid inarg s im owned busy Hi Hs. unfold do_init.
  assert (forall s1 : St, ci_no_interrupt (se_conn s1) = ci_no_interrupt (se_conn s) -> se_reqs s1 = se_reqs s -> se_next s1 = se_next s ->
    se_list s1 = se_list s -> se_interrupts s1 = se_interrupts s -> se_held s1 = se_held s -> se_out s1 = se_out s ->
    sinv s1 ((r, im) :: owned) busy) as Hframe.
  { intros s1 E1 E2 E3 E4 E5 E6 E7. destruct Hs as [Hc Ho]. destruct (sinv_frame s s1 ((r, im) :: owned) busy) as [Hc1 Ho1]; try done.
    split; [done|]. apply Ho1; [|done]. unfold answered. by rewrite E7. }
  apply wp_bind, wp_get, wp_bind, wp_put. set (s1 := set_conn s _).
  destruct (_ <? 7); [apply handles_err with (im := im); [done|by apply Hframe]|].
  destruct (7 <? _); [apply (handles_bind _ _ (handles_send _ _ _ _ _) _ _ _ _ Hi); by apply Hframe|].
  destruct (init_bufsize _ _ _ _) as [b re]. apply wp_bind, wp_modify, wp_bind, wp_get. set (s2 := set_got_init _ true).
  assert (ci_no_interrupt (se_conn s2) = ci_no_interrupt (se_conn s)) as E2.
  { change (intr_off (init_negotiate has_op op_init ss sr (decode_init_in inarg) (nego_of s1)) = ci_no_interrupt (se_conn s)).
    rewrite negotiate_intr; done. }
  assert (wp (init_fail send_errno known_errno r) (fun _ s' => sinv s' owned busy) s2) as Hfail.
  { unfold init_fail. apply wp_bind. eapply wp_mono; [apply handles_err with (im := im); [done|by apply Hframe]|].
    intros [] s3 [Hc3 Ho3]. apply wp_bind, wp_modify, wp_modify.
    destruct (sinv_frame s3 (set_exited (set_se_error s3 (- EPROTO)) true) owned busy) as [Hc4 Ho4]; done. }
  destruct (negb (want_flags_valid _ _)); [exact Hfail|]. destruct (negb (_ =? _)); [exact Hfail|].
  apply wp_bind, wp_put. apply (handles_bind _ _ (handles_send _ _ _ _ _) _ _ _ _ Hi). apply Hframe; try done.
  etransitivity; [|exact E2]. cbn [se_conn set_conn set_bufsize]. unfold init_background. repeat (case_match; cbn [ci_no_interrupt]); done.
Qed.
End theorems.

(** ** A session's first request *)

(** The [init] of a high-level file system with locks. *)
Definition sample_init : nego -> nego := fuse_lib_init true true false None true.

#[export] Instance sample_init_ok : FsInit sample_init.
Proof. apply fs_lib_init. discriminate. Qed.

Lemma sample_op g : Some sample_init = Some g -> FsInit g.
Proof. intros [= <-]. apply sample_init_ok. Qed.

(** A new session that has received its first request, and a kernel's INIT. *)
Definition init_session : St :=
  mkSession {[1 := mkReq 5 1 (mkCtx 0 0 0 0) true false 0]} 2 [1] [] false false (session_new_conn 4096)
    (session_new_bufsize 4096) 0 false true 0 0 [] 0 [] [] [] 0.
Definition init_inarg : list Z := le 4 7 ++ le 4 40 ++ le 4 131072 ++ le 4 1946157051 ++ le 4 240 ++ replicate 44 0.

Abbreviation sample_do_init :=
  (do_init (fun _ => 0) (fun e => e <? 1000) (fun _ => true) (Some sample_init) 4096 0 true true).

Lemma init_inarg_bytes : Forall (fun b => 0 <= b < 256) init_inarg.
Proof. unfold init_inarg. rewrite !Forall_app. split_and!; try apply le_bytes. by apply Forall_replicate. Qed.

Lemma init_session_typed : sess_typed init_session.
Proof. by repeat split. Qed.

(** The session accepts [do_init] as its handler. *)
#[export] Instance sample_do_init_ok : InitHandler sample_do_init.
Proof. apply do_init_handles. intros g m [= <-]. unfold sample_init, fuse_lib_init, fuse_fs_init, fuse_set_feature_flag. cbn zeta. by destruct (has_flag _ _). Qed.

Lemma encode_init_out_length o : length (encode_init_out o) = 64%nat.
Proof. unfold encode_init_out. by rewrite !length_app !length_le length_replicate. Qed.

Lemma init_inarg_major : ii_major (decode_init_in init_inarg) =? 7 = true.
Proof. reflexivity. Qed.

Lemma init_inarg_accepted : init_accepts 0 (ng_conn (init_negotiate (fun _ => true) (Some sample_init) true true
  (decode_init_in init_inarg) (init_start (decode_init_in init_inarg) init_session))) = true.
Proof. vm_compute. reflexivity. Qed.

Lemma init_answered_witness : exists s' data, sample_do_init 1 0 init_inarg init_session = Ok (tt, s') /\
  se_out s' = [reply_msg 1 (mkReq 5 1 (mkCtx 0 0 0 0) true false 0) 0 data] /\ length data = 64%nat /\ se_got_init s' = true.
Proof.
  destruct (init_answered (fun _ => 0) (fun e => e <? 1000) (fun _ => true) (Some sample_init) 4096 0 true true
    1 0 init_inarg init_session _ eq_refl eq_refl) as (s' & Hrun & Hs').
  rewrite init_inarg_major init_inarg_accepted in Hs'. destruct Hs' as (Hg & _ & _ & Ho).
  exists s'. eexists. split_and!; [exact Hrun|exact Ho|rewrite length_take encode_init_out_length; reflexivity|exact Hg].
Defined.

Lemma sample_run_facts : exists s', sample_do_init 1 0 init_inarg init_session = Ok (tt, s') /\
  init_accepts 0 (se_conn s') = true /\ has_flag (ci_want_ext (se_conn s')) FUSE_CAP_POSIX_LOCKS = true /\
  has_flag (ci_want_ext (se_conn s')) FUSE_CAP_FLOCK_LOCKS = false.
Proof. eexists. split; [vm_compute; reflexivity|]. vm_compute. done. Qed.

Lemma init_flags_within_offer_witness : exists s', sample_do_init 1 0 init_inarg init_session = Ok (tt, s') /\
  let out := init_out 4096 (decode_init_in init_inarg) (se_conn s') in
  has_flag (enabled out) FUSE_POSIX_LOCKS = true /\ has_flag (enabled out) FUSE_FLOCK_LOCKS = false /\
  forall i, Z.testbit (enabled out) i = true -> 2 ^ i = FUSE_BIG_WRITES \/ Z.testbit (offered (decode_init_in init_inarg)) i = true.
Proof.
  destruct sample_run_facts as (s' & Hrun & Hacc & Hw1 & Hw2). exists s'. split; [exact Hrun|].
  destruct (init_flags_within_offer (fun _ => 0) (fun e => e <? 1000) (fun _ => true) (Some sample_init) 4096 0 true true
    sample_op ltac:(lia) 1 0 init_inarg init_session s' _ eq_refl init_inarg_bytes init_session_typed eq_refl Hrun Hacc) as [Hof Hwant].
  cbn zeta. split_and!; [rewrite (Hwant FUSE_CAP_POSIX_LOCKS); [|exact Hw1]|rewrite (Hwant FUSE_CAP_FLOCK_LOCKS); [|exact Hw2]|exact Hof].
  - apply list_elem_of_In. right. left. reflexivity.
  - apply list_elem_of_In. do 5 right. left. reflexivity.
Defined.

Lemma init_typed_witness : exists s', sample_do_init 1 0 init_inarg init_session = Ok (tt, s') /\ sess_typed s' /\
  se_bufsize s' = 1052672.
Proof.
  destruct (init_typed (fun _ => 0) (fun e => e <? 1000) (fun _ => true) (Some sample_init) 4096 0 true true
    sample_op ltac:(lia) 1 0 init_inarg init_session _ eq_refl init_inarg_bytes init_session_typed eq_refl) as (s' & Hrun & Ht & _).
  exists s'. split; [exact Hrun|]. split; [exact Ht|]. vm_compute in Hrun. injection Hrun as <-. reflexivity.
Defined.

(** An old file system that asks for the writeback cache in [want]. *)
Definition old_nego : nego :=
  mkNego (set_ci_want (set_ci_want_ext (session_new_conn 4096) 1) 65537) 1 1.

Lemma want_conversion_witness :
  let '(err, n') := fuse_convert_to_conn_want_ext old_nego in err = 0 /\ ci_want_ext (ng_conn n') = 65537 /\
  fuse_convert_to_conn_want_ext n' = (0, n').
Proof.
  assert (nego_typed old_nego) as Ht by by repeat split.
  pose proof (want_conversion old_nego Ht) as (He & _ & _ & _ & Ha). split; [exact He|]. split; [reflexivity|exact Ha].
Defined.
