(* ===== verification/LoopMt.v ===== *)
(** * The multithreaded session loop

    [src/lib/fuse_loop_mt.c]: the pool of worker threads that receive and process
    the requests of a session.  The code between two points where another thread
    can interfere (the critical sections of [mt->lock], a call that blocks) is one
    function of the state; [exec] runs the section a thread is at, and a schedule
    is a list of [event]s.  Then the theorems: the counters of the pool, no use of
    freed memory under any schedule, and the shutdown. *)
From S2P Require Import Prelude.

(** ** Configuration *)

Definition FUSE_LOOP_MT_V2_IDENTIFIER : Z := INT_MAX - 2.
Definition FUSE_LOOP_MT_DEF_CLONE_FD : Z := 0.
Definition FUSE_LOOP_MT_DEF_MAX_THREADS : Z := 10.
Definition FUSE_LOOP_MT_DEF_IDLE_THREADS : Z := -1.
Definition FUSE_LOOP_MT_MAX_THREADS : Z := 100 * 1000.

(** [struct fuse_loop_config]: an [int], an [int], an [int] and an [unsigned]. *)
Record fuse_loop_config := mkCfg {
  cfg_version_id : Z; cfg_clone_fd : Z; cfg_max_idle_threads : Z; cfg_max_threads : Z }.

(** [struct fuse_loop_config_v1]: an [int] and an [unsigned]. *)
Record fuse_loop_config_v1 := mkCfg1 { cfg1_clone_fd : Z; cfg1_max_idle_threads : Z }.

(** [calloc_ok]: the allocation succeeds. *)
Definition fuse_loop_cfg_create (calloc_ok : bool) : option fuse_loop_config :=
  if calloc_ok
  then Some (mkCfg FUSE_LOOP_MT_V2_IDENTIFIER FUSE_LOOP_MT_DEF_CLONE_FD
               FUSE_LOOP_MT_DEF_IDLE_THREADS FUSE_LOOP_MT_DEF_MAX_THREADS)
  else None.

Definition fuse_loop_cfg_verify (c : fuse_loop_config) : Z :=
  if negb (cfg_version_id c =? FUSE_LOOP_MT_V2_IDENTIFIER) then - EINVAL else 0.

Definition fuse_loop_cfg_set_idle_threads (value : Z) (c : fuse_loop_config) : fuse_loop_config :=
  if FUSE_LOOP_MT_MAX_THREADS <? value then c
  else mkCfg (cfg_version_id c) (cfg_clone_fd c) (swrap 32 value) (cfg_max_threads c).

Definition fuse_loop_cfg_set_max_threads (value : Z) (c : fuse_loop_config) : fuse_loop_config :=
  mkCfg (cfg_version_id c) (cfg_clone_fd c) (cfg_max_idle_threads c) value.

(** The setter takes an [unsigned], the field is an [int]. *)
Definition fuse_loop_cfg_set_clone_fd (value : Z) (c : fuse_loop_config) : fuse_loop_config :=
  mkCfg (cfg_version_id c) (swrap 32 value) (cfg_max_idle_threads c) (cfg_max_threads c).

Definition fuse_loop_cfg_convert (v1 : fuse_loop_config_v1) (c : fuse_loop_config) : fuse_loop_config :=
  fuse_loop_cfg_set_clone_fd (u32 (cfg1_clone_fd v1))
    (fuse_loop_cfg_set_idle_threads (cfg1_max_idle_threads v1) c).

(** The older entry points: [inl err] is returned at once, [inr] is the configuration
    that [fuse_session_loop_mt_312] is called with. *)
Definition fuse_session_loop_mt_32 (calloc_ok : bool) (v1 : option fuse_loop_config_v1) : Z + option fuse_loop_config :=
  match v1 with
  | None => inr None
  | Some v1 =>
      match fuse_loop_cfg_create calloc_ok with
      | None => inl ENOMEM
      | Some c => inr (Some (fuse_loop_cfg_convert v1 c))
      end
  end.

(** The configuration is not tested for NULL here. *)
Definition fuse_session_loop_mt_31 (calloc_ok : bool) (clone_fd : Z) : outcome (option fuse_loop_config) :=
  let config := fuse_loop_cfg_create calloc_ok in
  if 0 <? clone_fd then
    match config with
    | None => Abort
    | Some c => Ok (Some (fuse_loop_cfg_set_clone_fd (u32 clone_fd) c))
    end
  else Ok config.

(** The entry points of [fuse.c]; the argument of [fuse_loop_mt_32] is a pointer that
    is not tested for NULL. *)
Definition fuse_loop_mt_32 (calloc_ok : bool) (v1 : option fuse_loop_config_v1) : outcome (Z + fuse_loop_config) :=
  match fuse_loop_cfg_create calloc_ok with
  | None => Ok (inl ENOMEM)
  | Some c => match v1 with None => Abort | Some v1 => Ok (inr (fuse_loop_cfg_convert v1 c)) end
  end.
Definition fuse_loop_mt_31 (calloc_ok : bool) (clone_fd : Z) : Z + fuse_loop_config :=
  match fuse_loop_cfg_create calloc_ok with
  | None => inl ENOMEM
  | Some c => inr (fuse_loop_cfg_set_clone_fd (u32 clone_fd) c)
  end.

(** Every configuration the library makes is accepted. *)
Lemma configs_verify ok v1 n c :
  (fuse_session_loop_mt_32 ok v1 = inr (Some c) \/ fuse_session_loop_mt_31 ok n = Ok (Some c) \/
   fuse_loop_mt_32 ok v1 = Ok (inr c) \/ fuse_loop_mt_31 ok n = inr c) -> fuse_loop_cfg_verify c = 0.
Proof.
  unfold fuse_session_loop_mt_32, fuse_session_loop_mt_31, fuse_loop_mt_32, fuse_loop_mt_31, fuse_loop_cfg_convert,
    fuse_loop_cfg_set_idle_threads.
  destruct ok, v1; cbn; intros H; repeat case_match; naive_solver.
Qed.

(** ** State *)

(** Pointers to workers, channels and buffers are [Z]; [main_w] is the address of
    [mt->main], the head of the ring of workers. *)
Definition main_w : Z := 0.

Record fuse_chan := mkChan { ch_ctr : Z; ch_fd : Z }.

(** [struct fuse_worker]: [wk_mem] is [fbuf.mem].  A thread is named by the worker
    it was created with, so [thread_id] is the worker itself. *)
Record fuse_worker := mkWorker {
  wk_prev : Z; wk_next : Z; wk_mem : option Z; wk_ch : option Z }.

(** [struct fuse_mt]; the member [main] is the entry [main_w] of the workers. *)
Record fuse_mt := mkMt {
  numworker : Z; numavail : Z; finish : Z; mt_exit : bool; mt_error : Z;
  clone_fd : bool; max_idle : Z; max_threads : Z }.

(** Where a worker thread is in [fuse_do_work]: at the loop condition, in
    [fuse_session_receive_buf_internal], with a message before the first critical
    section ([is_fd]: the message is in a pipe), in
    [fuse_session_process_buf_internal], removed from the ring and about to free
    itself, before [sem_post], returned or cancelled. *)
Inductive wpc :=
  | WHead | WReceiving | WReceived (is_fd : bool) (opcode : Z)
  | WBusy (isforget : bool) | WLeaving | WPost | WDone.

#[export] Instance wpc_eq_dec : EqDecision wpc.
Proof. solve_decision. Defined.

(** [th_cancel]: a cancellation request is pending. *)
Record thread := mkThread { th_pc : wpc; th_cancel : bool }.

(** Where [fuse_session_loop_mt] is: before its first statement, at the condition
    of the waiting loop, in [sem_wait], before the cancellation of the workers, at
    the condition of the joining loop, in [pthread_join], before the epilogue,
    returned. *)
Inductive mpc :=
  | MStart | MCheck | MSem | MCancel | MJoin | MJoining (w : Z) | MFinish (err : Z)
  | MReturned (err : Z).

(** The process: [st_mt] is [None] when [mt], a local of the loop, does not exist;
    [st_refs] are the references to channels held by requests, one entry per
    reference; [st_io] is [se->io]: absent, or present with or without
    [clone_fd]. *)
Record pool := mkPool {
  st_mt : option fuse_mt;
  st_workers : gmap Z fuse_worker;
  st_chans : gmap Z fuse_chan;
  st_bufs : gset Z;
  st_fds : gset Z;
  st_refs : list Z;
  st_threads : gmap Z thread;
  st_main : mpc;
  st_exited : bool;
  st_error : Z;
  st_io : option bool;
  st_next : Z }.

Abbreviation MP := (M pool).

Definition set_mt (x : option fuse_mt) (s : pool) : pool :=
  mkPool x (st_workers s) (st_chans s) (st_bufs s) (st_fds s) (st_refs s) (st_threads s)
    (st_main s) (st_exited s) (st_error s) (st_io s) (st_next s).
Definition set_workers (x : gmap Z fuse_worker) (s : pool) : pool :=
  mkPool (st_mt s) x (st_chans s) (st_bufs s) (st_fds s) (st_refs s) (st_threads s)
    (st_main s) (st_exited s) (st_error s) (st_io s) (st_next s).
Definition set_chans (x : gmap Z fuse_chan) (s : pool) : pool :=
  mkPool (st_mt s) (st_workers s) x (st_bufs s) (st_fds s) (st_refs s) (st_threads s)
    (st_main s) (st_exited s) (st_error s) (st_io s) (st_next s).
Definition set_bufs (x : gset Z) (s : pool) : pool :=
  mkPool (st_mt s) (st_workers s) (st_chans s) x (st_fds s) (st_refs s) (st_threads s)
    (st_main s) (st_exited s) (st_error s) (st_io s) (st_next s).
Definition set_fds (x : gset Z) (s : pool) : pool :=
  mkPool (st_mt s) (st_workers s) (st_chans s) (st_bufs s) x (st_refs s) (st_threads s)
    (st_main s) (st_exited s) (st_error s) (st_io s) (st_next s).
Definition set_refs (x : list Z) (s : pool) : pool :=
  mkPool (st_mt s) (st_workers s) (st_chans s) (st_bufs s) (st_fds s) x (st_threads s)
    (st_main s) (st_exited s) (st_error s) (st_io s) (st_next s).
Definition set_threads (x : gmap Z thread) (s : pool) : pool :=
  mkPool (st_mt s) (st_workers s) (st_chans s) (st_bufs s) (st_fds s) (st_refs s) x
    (st_main s) (st_exited s) (st_error s) (st_io s) (st_next s).
Definition set_main (x : mpc) (s : pool) : pool :=
  mkPool (st_mt s) (st_workers s) (st_chans s) (st_bufs s) (st_fds s) (st_refs s) (st_threads s)
    x (st_exited s) (st_error s) (st_io s) (st_next s).
Definition set_exited (x : bool) (s : pool) : pool :=
  mkPool (st_mt s) (st_workers s) (st_chans s) (st_bufs s) (st_fds s) (st_refs s) (st_threads s)
    (st_main s) x (st_error s) (st_io s) (st_next s).
Definition set_error (x : Z) (s : pool) : pool :=
  mkPool (st_mt s) (st_workers s) (st_chans s) (st_bufs s) (st_fds s) (st_refs s) (st_threads s)
    (st_main s) (st_exited s) x (st_io s) (st_next s).
Definition set_next (x : Z) (s : pool) : pool :=
  mkPool (st_mt s) (st_workers s) (st_chans s) (st_bufs s) (st_fds s) (st_refs s) (st_threads s)
    (st_main s) (st_exited s) (st_error s) (st_io s) x.

(** ** Access through pointers *)

(** Reading a pointer to freed memory is [Abort]. *)
Definition deref {A} (o : option A) : MP A := match o with Some a => mret a | None => abort end.

Definition mt_read : MP fuse_mt := gets st_mt ≫= deref.
Definition mt_write (f : fuse_mt -> fuse_mt) : MP unit :=
  mt ← mt_read; modify (set_mt (Some (f mt))).
Definition worker_read (w : Z) : MP fuse_worker := gets (fun s => st_workers s !! w) ≫= deref.
Definition worker_write (w : Z) (f : fuse_worker -> fuse_worker) : MP unit :=
  k ← worker_read w; modify (fun s => set_workers (<[w := f k]> (st_workers s)) s).
Definition malloc : MP Z := p ← gets st_next; modify (set_next (p + 1));; mret p.

Definition mt_count (da dw : Z) (mt : fuse_mt) : fuse_mt :=
  mkMt (numworker mt + dw) (numavail mt + da) (finish mt) (mt_exit mt) (mt_error mt)
    (clone_fd mt) (max_idle mt) (max_threads mt).
Definition mt_set_finish (x : Z) (mt : fuse_mt) : fuse_mt :=
  mkMt (numworker mt) (numavail mt) x (mt_exit mt) (mt_error mt) (clone_fd mt) (max_idle mt) (max_threads mt).
Definition mt_set_exit (mt : fuse_mt) : fuse_mt :=
  mkMt (numworker mt) (numavail mt) (finish mt) true (mt_error mt) (clone_fd mt) (max_idle mt) (max_threads mt).
Definition mt_set_error (x : Z) (mt : fuse_mt) : fuse_mt :=
  mkMt (numworker mt) (numavail mt) (finish mt) (mt_exit mt) x (clone_fd mt) (max_idle mt) (max_threads mt).
Definition mt_no_clone (mt : fuse_mt) : fuse_mt :=
  mkMt (numworker mt) (numavail mt) (finish mt) (mt_exit mt) (mt_error mt) false (max_idle mt) (max_threads mt).

Definition wk_set_prev (p : Z) (k : fuse_worker) : fuse_worker := mkWorker p (wk_next k) (wk_mem k) (wk_ch k).
Definition wk_set_next (n : Z) (k : fuse_worker) : fuse_worker := mkWorker (wk_prev k) n (wk_mem k) (wk_ch k).
Definition wk_set_mem (b : option Z) (k : fuse_worker) : fuse_worker := mkWorker (wk_prev k) (wk_next k) b (wk_ch k).
Definition wk_set_ch (c : option Z) (k : fuse_worker) : fuse_worker := mkWorker (wk_prev k) (wk_next k) (wk_mem k) c.

(** ** Channels and the ring of workers *)

(** [malloc_ok]: the allocation succeeds. *)
Definition fuse_chan_new (malloc_ok : bool) (fd : Z) : MP (option Z) :=
  if malloc_ok then
    c ← malloc;
    modify (fun s => set_chans (<[c := mkChan 1 fd]> (st_chans s)) s);;
    mret (Some c)
  else mret None.

Definition fuse_chan_get (c : Z) : MP unit :=
  ch ← gets (fun s => st_chans s !! c) ≫= deref;
  assert (0 <? ch_ctr ch);;
  modify (fun s => set_chans (<[c := mkChan (ch_ctr ch + 1) (ch_fd ch)]> (st_chans s)) s).

(** [close]: of a descriptor that is not open is a bug. *)
Definition close_fd (fd : Z) : MP unit :=
  o ← gets (fun s => bool_decide (fd ∈ st_fds s));
  assert o;; modify (fun s => set_fds (st_fds s ∖ {[fd]}) s).

Definition fuse_chan_put (c : option Z) : MP unit :=
  match c with
  | None => mret tt
  | Some c =>
      ch ← gets (fun s => st_chans s !! c) ≫= deref;
      if ch_ctr ch - 1 =? 0 then
        close_fd (ch_fd ch);;
        modify (fun s => set_chans (delete c (st_chans s)) s)
      else modify (fun s => set_chans (<[c := mkChan (ch_ctr ch - 1) (ch_fd ch)]> (st_chans s)) s)
  end.

Definition list_add_worker (w next : Z) : MP unit :=
  prev ← (k ← worker_read next; mret (wk_prev k));
  worker_write w (wk_set_next next);;
  worker_write w (wk_set_prev prev);;
  worker_write prev (wk_set_next w);;
  worker_write next (wk_set_prev w).

Definition list_del_worker (w : Z) : MP unit :=
  k ← worker_read w;
  let prev := wk_prev k in
  let next := wk_next k in
  worker_write prev (wk_set_next next);;
  worker_write next (wk_set_prev prev).

(** [fuse_buf_free(&w->fbuf)]. *)
Definition fuse_buf_free (w : Z) : MP unit :=
  k ← worker_read w;
  match wk_mem k with
  | None => mret tt
  | Some b =>
      o ← gets (fun s => bool_decide (b ∈ st_bufs s));
      assert o;;
      modify (fun s => set_bufs (st_bufs s ∖ {[b]}) s);;
      worker_write w (wk_set_mem None)
  end.

(** [free(w)]. *)
Definition free_worker (w : Z) : MP unit :=
  _ ← worker_read w; modify (fun s => set_workers (delete w (st_workers s)) s).

(** ** Starting threads *)

(** What the calls of one [fuse_loop_start_thread] return: the allocations of the
    worker and of its channel, [open] and the cloning [ioctl] on the device, the
    [clone_fd] of a custom transport, [pthread_create]. *)
Record start_env := mkEnv {
  e_malloc : bool; e_open : option Z; e_ioctl : bool; e_io_clone : option Z;
  e_malloc_chan : bool; e_create : bool }.

(** A descriptor the system hands out. *)
Definition new_fd (fd : Z) : MP unit := modify (fun s => set_fds ({[fd]} ∪ st_fds s) s).

(** [pthread_create] with its signal mask and stack size; the thread starts at the
    loop condition, which touches nothing the section in progress protects. *)
Definition fuse_start_thread (e : start_env) (w : Z) : MP Z :=
  if e_create e then
    modify (fun s => set_threads (<[w := mkThread WHead false]> (st_threads s)) s);; mret 0
  else mret (-1).

(** -1 is [None]. *)
Definition fuse_clone_chan_fd_default (e : start_env) : MP (option Z) :=
  match e_open e with
  | None => mret None
  | Some clonefd =>
      new_fd clonefd;;
      if e_ioctl e then mret (Some clonefd) else (close_fd clonefd;; mret None)
  end.

Definition fuse_clone_chan (e : start_env) : MP (option Z) :=
  io ← gets st_io;
  clonefd ← match io with
            | Some true =>
                match e_io_clone e with
                | Some fd => new_fd fd;; mret (Some fd)
                | None => mret None
                end
            | Some false => mret None
            | None => fuse_clone_chan_fd_default e
            end;
  match clonefd with
  | None => mret None
  | Some fd =>
      newch ← fuse_chan_new (e_malloc_chan e) fd;
      match newch with
      | None => close_fd fd;; mret None
      | Some c => mret (Some c)
      end
  end.

Definition fuse_loop_start_thread (e : start_env) : MP Z :=
  if negb (e_malloc e) then mret (-1)
  else
    w ← malloc;
    modify (fun s => set_workers (<[w := mkWorker 0 0 None None]> (st_workers s)) s);;
    mt ← mt_read;
    (if clone_fd mt then
       ch ← fuse_clone_chan e;
       worker_write w (wk_set_ch ch);;
       match ch with
       | None => mt_write mt_no_clone
       | Some _ => mret tt
       end
     else mret tt);;
    res ← fuse_start_thread e w;
    if res =? -1 then
      k ← worker_read w;
      fuse_chan_put (wk_ch k);;
      free_worker w;;
      mret (-1)
    else
      list_add_worker w main_w;;
      mt_write (mt_count 1 1);;
      mret 0.

(** ** The sections of [fuse_do_work] *)

Definition set_pc (w : Z) (pc : wpc) : MP unit :=
  t ← gets (fun s => st_threads s !! w) ≫= deref;
  modify (fun s => set_threads (<[w := mkThread pc (th_cancel t)]> (st_threads s)) s).

(** [while (!fuse_session_exited(mt->se))]: [mt] is read. *)
Definition work_head (w : Z) : MP unit :=
  _ ← mt_read;
  x ← gets st_exited;
  set_pc w (if x then WPost else WReceiving).

(** What [fuse_session_receive_buf_internal] did: [rv_alloc], a new buffer replaced
    the old one; its result; the message it left in the buffer; whether it called
    [fuse_session_exit]. *)
Record received := mkRv { rv_alloc : bool; rv_res : Z; rv_is_fd : bool; rv_opcode : Z; rv_exit : bool }.

(** The buffer after the call. *)
Definition receive_buffer (w : Z) (r : received) : MP unit :=
  if rv_alloc r then
    b ← malloc;
    fuse_buf_free w;;
    modify (fun s => set_bufs ({[b]} ∪ st_bufs s) s);;
    worker_write w (wk_set_mem (Some b))
  else mret tt.

(** From the return of the receiving call to the critical section. *)
Definition work_received (w : Z) (r : received) : MP unit :=
  receive_buffer w r;;
  (if rv_exit r then modify (set_exited true) else mret tt);;
  let res := rv_res r in
  if res =? - EINTR then set_pc w WHead
  else if res <=? 0 then
    (if res <? 0 then
       modify (set_exited true);; mt_write (mt_set_error res)
     else mret tt);;
    set_pc w WPost
  else set_pc w (WReceived (rv_is_fd r) (rv_opcode r)).

Definition FUSE_FORGET : Z := 2.
Definition FUSE_BATCH_FORGET : Z := 42.

(** [in->opcode], read from the buffer. *)
Definition worker_opcode (w opcode : Z) : MP Z :=
  k ← worker_read w;
  b ← deref (wk_mem k);
  o ← gets (fun s => bool_decide (b ∈ st_bufs s));
  assert o;; mret opcode.

(** The first critical section; the position of the thread, which is not part of
    the C state, is updated where its own part of the section ends. *)
Definition work_begin (e : start_env) (w : Z) (is_fd : bool) (opcode : Z) : MP unit :=
  mt ← mt_read;
  if mt_exit mt then set_pc w WDone
  else
    isforget ← (if negb is_fd then
                  op ← worker_opcode w opcode;
                  mret ((op =? FUSE_FORGET) || (op =? FUSE_BATCH_FORGET))
                else mret false);
    (if negb isforget then mt_write (mt_count (-1) 0) else mret tt);;
    set_pc w (WBusy isforget);;
    mt ← mt_read;
    if (numavail mt =? 0) && (numworker mt <? max_threads mt)
    then fuse_loop_start_thread e ≫= fun _ => mret tt else mret tt.

(** The second critical section. *)
Definition work_end (w : Z) (isforget : bool) : MP unit :=
  (if negb isforget then mt_write (mt_count 1 0) else mret tt);;
  mt ← mt_read;
  if negb (max_idle mt =? -1) && (max_idle mt <? numavail mt) && (1 <? numworker mt) then
    if mt_exit mt then set_pc w WDone
    else
      list_del_worker w;;
      mt_write (mt_count (-1) (-1));;
      set_pc w WLeaving
  else set_pc w WHead.

(** [pthread_detach] and the release of what the worker owns; nothing of [mt]. *)
Definition work_leave (w : Z) : MP unit :=
  fuse_buf_free w;;
  k ← worker_read w;
  fuse_chan_put (wk_ch k);;
  free_worker w;;
  modify (fun s => set_threads (delete w (st_threads s)) s).

Definition work_post (w : Z) : MP unit :=
  mt ← mt_read;
  mt_write (mt_set_finish (finish mt + 1));;
  set_pc w WDone.

(** ** The sections of [fuse_session_loop_mt] *)

(** Up to the start of the first thread.  The configuration is verified when there
    is one and created otherwise; [calloc_ok]: that allocation succeeds. *)
Definition loop_start (cfg : option fuse_loop_config) (calloc_ok : bool) (e : start_env) : MP unit :=
  let verified := match cfg with Some c => fuse_loop_cfg_verify c | None => 0 end in
  if negb (verified =? 0) then modify (set_main (MReturned verified))
  else
    config ← deref (match cfg with Some c => Some c | None => fuse_loop_cfg_create calloc_ok end);
    modify (set_mt (Some (mkMt 0 0 0 false 0 (truth (cfg_clone_fd config))
                            (cfg_max_idle_threads config) (swrap 32 (cfg_max_threads config)))));;
    modify (fun s => set_workers (<[main_w := mkWorker main_w main_w None None]> (st_workers s)) s);;
    err ← fuse_loop_start_thread e;
    modify (set_main (if err =? 0 then MCheck else MFinish err)).

Definition loop_check : MP unit :=
  x ← gets st_exited; modify (set_main (if x then MCancel else MSem)).

(** [sem_wait] returns: with the semaphore, or interrupted by a signal. *)
Definition loop_wake (signal : bool) : MP unit :=
  (if signal then mret tt
   else mt ← mt_read; mt_write (mt_set_finish (finish mt - 1)));;
  modify (set_main MCheck).

(** [pthread_cancel]: of a thread that exists and is not detached. *)
Definition pthread_cancel (w : Z) : MP unit :=
  t ← gets (fun s => st_threads s !! w) ≫= deref;
  assert (match th_pc t with WLeaving => false | _ => true end);;
  modify (fun s => set_threads (<[w := mkThread (th_pc t) true]> (st_threads s)) s).

(** [for (w = mt.main.next; w != &mt.main; w = w->next) pthread_cancel(w->thread_id)]. *)
Fixpoint cancel_all (fuel : nat) (w : Z) : MP unit :=
  match fuel with
  | O => diverge
  | S fuel =>
      if w =? main_w then mret tt
      else pthread_cancel w;; k ← worker_read w; cancel_all fuel (wk_next k)
  end.

Definition loop_cancel : MP unit :=
  n ← gets (fun s => size (st_workers s));
  k ← worker_read main_w;
  cancel_all (S n) (wk_next k);;
  mt_write mt_set_exit;;
  modify (set_main MJoin).

Definition loop_join : MP unit :=
  mt ← mt_read;
  k ← worker_read main_w;
  modify (set_main (if wk_next k =? main_w then MFinish (mt_error mt) else MJoining (wk_next k))).

(** After [pthread_join]. *)
Definition fuse_join_worker (w : Z) : MP unit :=
  modify (fun s => set_threads (delete w (st_threads s)) s);;
  list_del_worker w;;
  fuse_buf_free w;;
  k ← worker_read w;
  fuse_chan_put (wk_ch k);;
  free_worker w;;
  modify (set_main MJoin).

(** The epilogue, [fuse_session_reset] included; the frame with [mt] is gone. *)
Definition loop_finish (err : Z) : MP unit :=
  e ← gets st_error;
  modify (set_mt None);;
  free_worker main_w;;
  modify (set_exited false);;
  modify (set_error 0);;
  modify (set_main (MReturned (if e =? 0 then err else e))).

(** ** Schedules *)

(** [EMain]: the loop runs its next section, [sem_wait] being woken by a signal
    when [signal].  The worker events are the sections above.  [ECancelled]: a
    thread with a pending cancellation acts on it inside the receiving call, the
    only place where cancellation is enabled and a cancellation point is met.
    During processing, requests take references to the channel of the worker
    ([fuse_chan_get] in [fuse_session_process_buf_internal]) and drop them when
    they are freed, by any thread ([fuse_chan_put] in [fuse_free_req]); handlers
    may call [fuse_session_exit] and set [se->error]. *)
Inductive event :=
  | EStart (cfg : option fuse_loop_config) (calloc_ok : bool) (e : start_env)
  | EMain (signal : bool)
  | EHead (w : Z) | EReceive (w : Z) (r : received) | ECancelled (w : Z)
  | EBegin (w : Z) (e : start_env) | EEnd (w : Z) | ELeave (w : Z) | EPost (w : Z)
  | ERef (w : Z) | EUnref (c : Z) | EExit | EError (err : Z).

(** The system hands out descriptors that are not open. *)
Definition env_ok (s : pool) (e : start_env) : bool :=
  match e_open e with Some fd => bool_decide (fd ∉ st_fds s) | None => true end &&
  match e_io_clone e with Some fd => bool_decide (fd ∉ st_fds s) | None => true end.

(** A message that is not in a pipe is in the buffer, and the receiving call
    returns 0 only when the session has exited. *)
Definition receive_ok (s : pool) (w : Z) (r : received) : bool :=
  implb ((0 <? rv_res r) && negb (rv_is_fd r))
    (rv_alloc r || match st_workers s !! w with Some (mkWorker _ _ (Some _) _) => true | _ => false end) &&
  implb (rv_res r =? 0) (rv_exit r || st_exited s).

Definition run {A} (m : MP A) (s : pool) : option (outcome pool) :=
  Some (match m s with Ok (_, s') => Ok s' | Abort => Abort | Diverge => Diverge end).

Definition pc_of (s : pool) (w : Z) : option wpc := th_pc <$> st_threads s !! w.

(** The result of an event; [None] when it cannot happen in this state. *)
Definition exec (ev : event) (s : pool) : option (outcome pool) :=
  match ev with
  | EStart cfg calloc_ok e =>
      match st_main s with
      | MStart => if env_ok s e then run (loop_start cfg calloc_ok e) s else None
      | _ => None
      end
  | EMain signal =>
      match st_main s with
      | MCheck => run loop_check s
      | MSem =>
          if signal || match st_mt s with Some mt => 0 <? finish mt | None => true end
          then run (loop_wake signal) s else None
      | MCancel => run loop_cancel s
      | MJoin => run loop_join s
      | MJoining w =>
          match pc_of s w with Some WDone | None => run (fuse_join_worker w) s | _ => None end
      | MFinish err => run (loop_finish err) s
      | MStart | MReturned _ => None
      end
  | EHead w => match pc_of s w with Some WHead => run (work_head w) s | _ => None end
  | EReceive w r =>
      match pc_of s w with
      | Some WReceiving => if receive_ok s w r then run (work_received w r) s else None
      | _ => None
      end
  | ECancelled w =>
      match st_threads s !! w with
      | Some (mkThread WReceiving true) => run (set_pc w WDone) s
      | _ => None
      end
  | EBegin w e =>
      match pc_of s w with
      | Some (WReceived is_fd opcode) => if env_ok s e then run (work_begin e w is_fd opcode) s else None
      | _ => None
      end
  | EEnd w => match pc_of s w with Some (WBusy isforget) => run (work_end w isforget) s | _ => None end
  | ELeave w => match pc_of s w with Some WLeaving => run (work_leave w) s | _ => None end
  | EPost w => match pc_of s w with Some WPost => run (work_post w) s | _ => None end
  | ERef w =>
      match pc_of s w with
      | Some (WBusy _) =>
          run (k ← worker_read w;
               match wk_ch k with
               | Some c => fuse_chan_get c;; modify (fun s => set_refs (c :: st_refs s) s)
               | None => mret tt
               end) s
      | _ => None
      end
  | EUnref c =>
      if bool_decide (c ∈ st_refs s)
      then run (fuse_chan_put (Some c);;
                modify (fun s => set_refs (remove_first c (st_refs s)) s)) s
      else None
  | EExit => run (modify (set_exited true)) s
  | EError err => run (modify (set_error err)) s
  end.

(** A run of several events; [None] when one of them cannot happen or fails. *)
Fixpoint run_events (evs : list event) (s : pool) : option pool :=
  match evs with
  | [] => Some s
  | ev :: evs => match exec ev s with Some (Ok s') => run_events evs s' | _ => None end
  end.

(** The state before the loop is called. *)
Definition pool_init (io : option bool) : pool :=
  mkPool None ∅ ∅ ∅ ∅ [] ∅ MStart false 0 io 1.
