(* ===== verification/LoopMtSafe.v ===== *)
(** * The worker pool under every schedule

    The invariant of the state of [LoopMt]: the ring of workers, who owns which
    channel, buffer and descriptor, the counters, and where the threads can be.
    Every event keeps it and none of them fails; after the session has exited the
    loop joins every thread and returns. *)
From S2P Require Import Prelude LoopMt.

(** ** The ring *)

Abbreviation workers := (gmap Z fuse_worker).

Definition nx (m : workers) (w : Z) : option Z := wk_next <$> m !! w.
Definition pv (m : workers) (w : Z) : option Z := wk_prev <$> m !! w.

(** The pointers run from [a] through [ws] to [z] and back. *)
Fixpoint chain (m : workers) (a : Z) (ws : list Z) (z : Z) : Prop :=
  match ws with
  | [] => nx m a = Some z /\ pv m z = Some a
  | w :: ws => nx m a = Some w /\ pv m w = Some a /\ chain m w ws z
  end.

(** The ring of [mt->main] holds [ws], each once. *)
Definition ring (m : workers) (ws : list Z) : Prop :=
  NoDup (main_w :: ws) /\ chain m main_w ws main_w.

(** What a worker owns; the ring operations do not change it. *)
Definition data (m : workers) : gmap Z (option Z * option Z) :=
  (fun k => (wk_mem k, wk_ch k)) <$> m.

Lemma chain_app m a ws1 w ws2 z :
  chain m a (ws1 ++ w :: ws2) z <-> chain m a ws1 w /\ chain m w ws2 z.
Proof. revert a. induction ws1 as [|x ws1 IH]; intros a; cbn; [tauto|]. rewrite IH. tauto. Qed.

(** The last node before the end of a chain. *)
Fixpoint final (a : Z) (ws : list Z) : Z :=
  match ws with [] => a | w :: ws => final w ws end.

Lemma final_elem a ws : final a ws ∈ a :: ws.
Proof.
  revert a. induction ws as [|w ws IH]; intros a; [cbn; set_solver|].
  cbn. set_solver.
Qed.

Lemma chain_ends m a ws z : chain m a ws z ->
  nx m (final a ws) = Some z /\ pv m z = Some (final a ws).
Proof.
  revert a. induction ws as [|w ws IH]; intros a; cbn; [done|].
  naive_solver.
Qed.

(** Every node of a chain exists. *)
Lemma chain_dom m a ws z w : chain m a ws z -> w ∈ a :: ws -> is_Some (m !! w).
Proof.
  revert a. induction ws as [|x ws IH]; intros a; cbn.
  - intros [Hn _] ->%list_elem_of_singleton. revert Hn. unfold nx. by destruct (m !! a).
  - intros (Hn & _ & Hc) [->|Hw]%elem_of_cons; [|by eapply IH].
    revert Hn. unfold nx. by destruct (m !! a).
Qed.

(** A chain whose last link is redirected to [z']. *)
Lemma chain_retarget m m' a ws z z' :
  NoDup (a :: ws) -> chain m a ws z ->
  (forall w, w ∈ a :: ws -> w <> final a ws -> nx m' w = nx m w) ->
  (forall w, w ∈ ws -> pv m' w = pv m w) ->
  nx m' (final a ws) = Some z' -> pv m' z' = Some (final a ws) ->
  chain m' a ws z'.
Proof.
  revert a. induction ws as [|w ws IH]; intros a Hnd; cbn; [done|].
  intros (Hn & Hp & Hc) Hnx Hpv Hn' Hp'.
  apply list.NoDup_cons in Hnd as [Ha Hnd]. split_and!.
  - rewrite Hnx; [set_solver| |done]. intros E. apply Ha. rewrite E. apply final_elem.
  - rewrite Hpv; set_solver.
  - apply IH; try done; intros x Hx; [intros Hne; apply Hnx|apply Hpv]; set_solver.
Qed.

(** Writes outside a chain. *)
Lemma chain_frame m m' a ws z :
  chain m a ws z ->
  (forall w, w ∈ a :: ws -> nx m' w = nx m w) ->
  (forall w, w ∈ z :: ws -> pv m' w = pv m w) ->
  chain m' a ws z.
Proof.
  revert a. induction ws as [|w ws IH]; intros a; cbn.
  - intros [? ?] Hn Hp. rewrite Hn ?Hp; set_solver.
  - intros (? & ? & ?) Hn Hp. rewrite Hn ?Hp; [set_solver..|]. split_and!; [done..|].
    apply IH; [done|set_solver..].
Qed.

Lemma data_lookup m w k : m !! w = Some k -> data m !! w = Some (wk_mem k, wk_ch k).
Proof. intros H. unfold data. by rewrite lookup_fmap H. Qed.

Lemma data_is_Some m w : is_Some (data m !! w) <-> is_Some (m !! w).
Proof. unfold data. by rewrite lookup_fmap fmap_is_Some. Qed.

(** *** Writing one pointer *)

Lemma nx_set_next m w n x : is_Some (m !! w) ->
  nx (alter (wk_set_next n) w m) x = (if decide (x = w) then Some n else nx m x)%GEN_IF.
Proof.
  intros [k Hk]. unfold nx. destruct (decide (x = w)) as [->|Hne].
  - by rewrite lookup_alter_eq Hk.
  - by rewrite lookup_alter_ne.
Qed.

Lemma pv_set_prev m w n x : is_Some (m !! w) ->
  pv (alter (wk_set_prev n) w m) x = (if decide (x = w) then Some n else pv m x)%GEN_IF.
Proof.
  intros [k Hk]. unfold pv. destruct (decide (x = w)) as [->|Hne].
  - by rewrite lookup_alter_eq Hk.
  - by rewrite lookup_alter_ne.
Qed.

(** Writing other fields. *)
Lemma nx_alter f m w x : (forall k, wk_next (f k) = wk_next k) -> nx (alter f w m) x = nx m x.
Proof.
  intros Hf. unfold nx. destruct (decide (x = w)) as [->|Hne]; [|by rewrite lookup_alter_ne].
  rewrite lookup_alter_eq. destruct (m !! w); [|done]. cbn. by rewrite Hf.
Qed.

Lemma pv_alter f m w x : (forall k, wk_prev (f k) = wk_prev k) -> pv (alter f w m) x = pv m x.
Proof.
  intros Hf. unfold pv. destruct (decide (x = w)) as [->|Hne]; [|by rewrite lookup_alter_ne].
  rewrite lookup_alter_eq. destruct (m !! w); [|done]. cbn. by rewrite Hf.
Qed.

Lemma data_alter f m w :
  (forall k, wk_mem (f k) = wk_mem k /\ wk_ch (f k) = wk_ch k) -> data (alter f w m) = data m.
Proof.
  intros Hf. apply map_eq. intros x. unfold data. rewrite !lookup_fmap.
  destruct (decide (x = w)) as [->|Hne]; [|by rewrite lookup_alter_ne].
  rewrite lookup_alter_eq. destruct (m !! w) as [k|]; [|done]. cbn. by destruct (Hf k) as [-> ->].
Qed.

Lemma alter_is_Some (f : fuse_worker -> fuse_worker) (m : workers) w x :
  is_Some (alter f w m !! x) <-> is_Some (m !! x).
Proof. destruct (decide (x = w)) as [->|Hne]; [rewrite lookup_alter_eq|rewrite lookup_alter_ne //]. by rewrite fmap_is_Some. Qed.

(** Linking [w] before [main_w], and unlinking it, on the map. *)
Definition link (w : Z) (m : workers) (prev : Z) : workers :=
  alter (wk_set_prev w) main_w (alter (wk_set_next w) prev
    (alter (wk_set_prev prev) w (alter (wk_set_next main_w) w m))).
Definition unlink (m : workers) (prev next : Z) : workers :=
  alter (wk_set_prev prev) next (alter (wk_set_next next) prev m).

Create Rewrite HintDb ring.
#[export] Hint Rewrite nx_alter pv_alter nx_set_next pv_set_prev using
  first [done | rewrite !alter_is_Some; eauto] : ring.

Ltac ring_tac := autorewrite with ring; repeat case_decide; try done; try set_solver.

Lemma ring_link m ws w : ring m ws -> w ∉ main_w :: ws -> is_Some (m !! w) ->
  ring (link w m (final main_w ws)) (ws ++ [w]).
Proof.
  intros [Hnd Hc] Hw Hs. assert (is_Some (m !! main_w)) as Hm by (eapply chain_dom; set_solver).
  assert (is_Some (m !! final main_w ws)) as Hf by (eapply chain_dom; [done|apply final_elem]).
  pose proof (final_elem main_w ws) as Hfe. unfold link. split.
  { rewrite app_comm_cons. apply list.NoDup_app. split_and!; [done|set_solver|apply NoDup_singleton]. }
  apply chain_app. split.
  - apply (chain_retarget m _ main_w ws main_w w); [done|done|..].
    + intros x Hx Hne. autorewrite with ring. rewrite !decide_False; set_solver.
    + intros x Hx. apply list.NoDup_cons in Hnd as [Hn0 _].
      autorewrite with ring. rewrite !decide_False; set_solver.
    + autorewrite with ring. by rewrite decide_True.
    + autorewrite with ring. rewrite decide_False; [set_solver|]. by rewrite decide_True.
  - cbn. autorewrite with ring. split; repeat case_decide; set_solver.
Qed.

Lemma ring_unlink m ws1 w ws2 : ring m (ws1 ++ w :: ws2) ->
  let prev := final main_w ws1 in let next := default main_w (head ws2) in
  pv m w = Some prev /\ nx m w = Some next /\ is_Some (m !! prev) /\ is_Some (m !! next) /\ ring (unlink m prev next) (ws1 ++ ws2).
Proof.
  intros [Hnd Hc] prev next. apply chain_app in Hc as Hc2. destruct Hc2 as [Hc1 Hc2].
  pose proof (chain_ends _ _ _ _ Hc1) as [He1 He2].
  assert (nx m w = Some next) as Hn by (unfold next; destruct ws2; cbn in Hc2 |- *; tauto).
  rewrite app_comm_cons in Hnd. apply list.NoDup_app in Hnd as (Hnd1 & Hdis & Hnd2).
  apply list.NoDup_cons in Hnd2 as [Hw2 Hnd2].
  pose proof (final_elem main_w ws1 : prev ∈ main_w :: ws1) as Hp.
  assert (is_Some (m !! prev)) as Hsp by (by apply (chain_dom _ _ _ _ _ Hc1 Hp)).
  assert (is_Some (m !! next)) as Hsn.
  { eapply (chain_dom _ _ _ _ next Hc). unfold next. destruct ws2; cbn; set_solver. }
  do 4 (split; [done|]). split.
  { rewrite app_comm_cons. apply list.NoDup_app. split_and!; [done|set_solver|done]. }
  unfold unlink. destruct ws2 as [|h ws2]; cbn in next.
  - rewrite app_nil_r. apply (chain_retarget m _ main_w ws1 w main_w); [done|done|..]; fold prev.
    + intros x Hx Hne. autorewrite with ring. by rewrite decide_False.
    + intros x Hx. apply list.NoDup_cons in Hnd1 as [Hn0 _]. autorewrite with ring. rewrite decide_False; set_solver.
    + by ring_tac.
    + by ring_tac.
  - apply chain_app. cbn in Hc2. destruct Hc2 as (_ & _ & Hc2). split.
    + apply (chain_retarget m _ main_w ws1 w h); [done|done|..]; fold prev.
      * intros x Hx Hne. autorewrite with ring. by rewrite decide_False.
      * intros x Hx. autorewrite with ring. rewrite decide_False; set_solver.
      * by ring_tac.
      * by ring_tac.
    + apply list.NoDup_cons in Hnd2 as [Hh Hnd2].
      assert (h <> main_w /\ main_w ∉ ws2) as [Hhm Hm2] by set_solver.
      apply (chain_frame m); [done|..]; intros x Hx; autorewrite with ring; rewrite decide_False //; set_solver.
Qed.

(** ** Pointer accesses *)

Section access.
Implicit Types (s : pool) (m : workers).

Lemma deref_wp {A} (a : A) o (Q : A -> pool -> Prop) s : o = Some a -> Q a s -> wp (deref o) Q s.
Proof. by intros ->. Qed.

Lemma worker_read_wp w k (Q : fuse_worker -> pool -> Prop) s :
  st_workers s !! w = Some k -> Q k s -> wp (worker_read w) Q s.
Proof. intros H HQ. unfold worker_read. wp_steps. by eapply deref_wp. Qed.

Lemma worker_write_wp w f (Q : unit -> pool -> Prop) s :
  is_Some (st_workers s !! w) -> Q tt (set_workers (alter f w (st_workers s)) s) ->
  wp (worker_write w f) Q s.
Proof.
  intros [k Hk] HQ. unfold worker_write. wp_steps. eapply worker_read_wp; [done|]. wp_steps.
  replace (<[w:=f k]> (st_workers s)) with (alter f w (st_workers s)); [done|].
  apply map_eq. intros x. destruct (decide (x = w)) as [->|].
  - by rewrite lookup_alter_eq Hk lookup_insert_eq.
  - by rewrite lookup_alter_ne // lookup_insert_ne.
Qed.

Lemma mt_read_wp mt (Q : fuse_mt -> pool -> Prop) s : st_mt s = Some mt -> Q mt s -> wp mt_read Q s.
Proof. intros H HQ. unfold mt_read. wp_steps. by eapply deref_wp. Qed.

Lemma mt_write_wp mt f (Q : unit -> pool -> Prop) s :
  st_mt s = Some mt -> Q tt (set_mt (Some (f mt)) s) -> wp (mt_write f) Q s.
Proof. intros H HQ. unfold mt_write. wp_steps. eapply mt_read_wp; [done|]. by wp_steps. Qed.

Lemma set_pc_wp w t pc (Q : unit -> pool -> Prop) s :
  st_threads s !! w = Some t ->
  Q tt (set_threads (<[w := mkThread pc (th_cancel t)]> (st_threads s)) s) -> wp (set_pc w pc) Q s.
Proof. intros H HQ. unfold set_pc. wp_steps. eapply deref_wp; [done|]. by wp_steps. Qed.

Lemma list_add_worker_wp w ws (Q : unit -> pool -> Prop) s :
  ring (st_workers s) ws -> is_Some (st_workers s !! w) ->
  Q tt (set_workers (link w (st_workers s) (final main_w ws)) s) ->
  wp (list_add_worker w main_w) Q s.
Proof.
  intros [Hnd Hc] Hw HQ. apply chain_ends in Hc as He. destruct He as [_ He].
  assert (is_Some (st_workers s !! main_w)) as [k Hk] by (eapply chain_dom; set_solver).
  assert (is_Some (st_workers s !! final main_w ws)) as Hf by (eapply chain_dom; [done|apply final_elem]).
  assert (wk_prev k = final main_w ws) as Ek by (unfold pv in He; rewrite Hk in He; by injection He).
  unfold list_add_worker. wp_steps. eapply worker_read_wp; [done|]. wp_steps. rewrite Ek.
  repeat (eapply worker_write_wp; [cbn; rewrite ?alter_is_Some; eauto|]; wp_steps).
  exact HQ.
Qed.

Lemma list_del_worker_wp w ws1 ws2 (Q : unit -> pool -> Prop) s :
  ring (st_workers s) (ws1 ++ w :: ws2) ->
  (forall m, data m = data (st_workers s) -> ring m (ws1 ++ ws2) -> Q tt (set_workers m s)) ->
  wp (list_del_worker w) Q s.
Proof.
  intros Hr HQ. destruct (ring_unlink _ _ _ _ Hr) as (Hp & Hn & Hsp & Hsn & Hr').
  unfold list_del_worker. destruct (st_workers s !! w) as [k|] eqn:Hk;
    [|unfold pv in Hp; by rewrite Hk in Hp].
  wp_steps. eapply worker_read_wp; [done|].
  unfold pv, nx in Hp, Hn. rewrite Hk in Hp, Hn. injection Hp as ->. injection Hn as ->.
  wp_steps. eapply worker_write_wp; [done|]. eapply worker_write_wp; [cbn; by rewrite alter_is_Some|].
  apply (HQ (unlink _ _ _)); [|done]. unfold unlink. by rewrite !data_alter.
Qed.
End access.

(** ** Who owns what *)

(** The references to a channel: that of its worker and those of requests. *)
Definition held (own : gmap Z Z) (refs : list Z) (c : Z) : Z :=
  int_of_bool (bool_decide (is_Some (own !! c))) + Z.of_nat (count refs c).

(** [own]: the worker that a channel was created for, while it holds it.  The count
    of a channel is the number of references; channels and open descriptors
    correspond, and so do buffers and their workers. *)
Record res_inv (D : gmap Z (option Z * option Z)) (chs : gmap Z fuse_chan) (bufs fds : gset Z)
    (refs : list Z) (own : gmap Z Z) (next : Z) : Prop := {
  ri_chan : forall c ch, chs !! c = Some ch ->
    ch_ctr ch = held own refs c /\ 0 < held own refs c /\ ch_fd ch ∈ fds;
  ri_own : forall c w, own !! c = Some w <-> exists b, D !! w = Some (b, Some c);
  ri_ref : forall c, 0 < held own refs c -> is_Some (chs !! c);
  ri_fd : forall fd, fd ∈ fds -> exists c ch, chs !! c = Some ch /\ ch_fd ch = fd;
  ri_fd_inj : forall c1 c2 ch1 ch2, chs !! c1 = Some ch1 -> chs !! c2 = Some ch2 ->
    ch_fd ch1 = ch_fd ch2 -> c1 = c2;
  ri_buf : forall b, b ∈ bufs <-> exists w c, D !! w = Some (Some b, c);
  ri_buf_inj : forall b w1 w2 c1 c2, D !! w1 = Some (Some b, c1) -> D !! w2 = Some (Some b, c2) -> w1 = w2;
  ri_next : main_w < next /\ (forall w, is_Some (D !! w) -> w < next) /\
    (forall c, is_Some (chs !! c) -> c < next) /\ (forall b, b ∈ bufs -> b < next);
}.

(** The resources of a state whose workers own [D]. *)
Definition res (D : gmap Z (option Z * option Z)) (s : pool) : Prop :=
  exists own, res_inv D (st_chans s) (st_bufs s) (st_fds s) (st_refs s) own (st_next s).

(** What the operations on channels, buffers and workers leave alone. *)
Definition ctl (s : pool) := (st_mt s, st_threads s, st_main s, st_exited s, st_error s, st_io s).

Lemma held_ref own refs c : c ∈ refs -> 0 < held own refs c.
Proof. intros H%count_pos. unfold held, int_of_bool. case_bool_decide; lia. Qed.

Lemma held_own own refs c : is_Some (own !! c) -> 0 < held own refs c.
Proof. intros H. unfold held. rewrite bool_decide_true //. cbn. lia. Qed.

Section res.
Implicit Types (D : gmap Z (option Z * option Z)) (s : pool) (own : gmap Z Z).

(** A reference is dropped: the owner or the requests after it are [own'] and
    [refs']. *)
Lemma chan_put_wp D D' own own' refs' c (Q : unit -> pool -> Prop) s :
  res_inv D (st_chans s) (st_bufs s) (st_fds s) (st_refs s) own (st_next s) ->
  0 < held own (st_refs s) c ->
  (forall x, held own' refs' x = held own (st_refs s) x - int_of_bool (bool_decide (x = c))) ->
  (forall x w, own' !! x = Some w <-> exists b, D' !! w = Some (b, Some x)) ->
  (forall w, fst <$> D' !! w = fst <$> D !! w) ->
  (forall chs fds, res_inv D' chs (st_bufs s) fds refs' own' (st_next s) ->
     Q tt (set_chans chs (set_fds fds s))) ->
  wp (fuse_chan_put (Some c)) Q s.
Proof.
  intros [Hch Hown Href Hfd Hinj Hbuf Hbinj (Hn0 & Hn1 & Hn2 & Hn3)] Hpos Hheld Hown' Hfst HQ.
  destruct (Href c Hpos) as [ch Hc]. destruct (Hch c ch Hc) as (Hctr & _ & Hof).
  assert (forall b, (exists w x, D !! w = Some (Some b, x)) <-> exists w x, D' !! w = Some (Some b, x)) as Hb.
  { intros b. split; intros (w & x & Hw); specialize (Hfst w); rewrite Hw in Hfst; exists w;
      [destruct (D' !! w) as [[? ?]|]|destruct (D !! w) as [[? ?]|]]; naive_solver. }
  assert (forall b w x, D' !! w = Some (Some b, x) -> exists y, D !! w = Some (Some b, y)) as Hb1.
  { intros b w x Hw. specialize (Hfst w). rewrite Hw in Hfst. destruct (D !! w) as [[? ?]|]; naive_solver. }
  assert (forall w, is_Some (D' !! w) -> is_Some (D !! w)) as Hd.
  { intros w Hw. specialize (Hfst w). destruct (D' !! w), (D !! w); naive_solver. }
  unfold fuse_chan_put. wp_steps. eapply deref_wp; [done|]. cbn beta.
  destruct (Z.eqb_spec (ch_ctr ch - 1) 0) as [E|E].
  - unfold close_fd. wp_steps; [by apply bool_decide_eq_true|]. apply (HQ (delete c (st_chans s)) (st_fds s ∖ {[ch_fd ch]})).
    split; try done.
    + intros x y [Hne Hx]%lookup_delete_Some. destruct (Hch x y Hx) as (E1 & E2 & E3).
      rewrite Hheld bool_decide_false //. cbn. split_and!; [lia|lia|].
      apply elem_of_difference. split; [done|]. intros Heq%elem_of_singleton. apply Hne. by eapply Hinj.
    + intros x Hx. rewrite Hheld in Hx. case_bool_decide as Ex; cbn in Hx; [subst; lia|].
      rewrite lookup_delete_ne //. apply Href. lia.
    + intros fd [(x & y & Hx & <-)%Hfd Hne]%elem_of_difference. exists x, y.
      rewrite lookup_delete_ne //. intros ->. apply Hne. rewrite Hc in Hx. injection Hx as ->. set_solver.
    + intros x y cx cy [_ Hx]%lookup_delete_Some [_ Hy]%lookup_delete_Some. by apply Hinj.
    + intros b. by rewrite Hbuf Hb.
    + intros b w1 w2 x y [? ?]%Hb1 [? ?]%Hb1. by eapply Hbinj.
    + split_and!; [done|auto| |done]. intros x [? [_ Hx]%lookup_delete_Some]. apply Hn2. by exists x0.
  - wp_steps. apply (HQ _ (st_fds s)). split; try done.
    + intros x y. rewrite lookup_insert_Some Hheld. intros [[-> <-]|[Hne Hx]]; cbn.
      * rewrite bool_decide_true //. cbn. split_and!; [lia|lia|done].
      * rewrite bool_decide_false //. cbn. rewrite Z.sub_0_r. auto.
    + intros x Hx. rewrite Hheld in Hx. rewrite lookup_insert_is_Some'. right. apply Href.
      unfold int_of_bool in Hx. case_bool_decide; lia.
    + intros fd (x & y & Hx & <-)%Hfd. destruct (decide (x = c)) as [->|Hne].
      * exists c. eexists. rewrite lookup_insert_eq. split; [done|]. cbn. congruence.
      * exists x, y. by rewrite lookup_insert_ne.
    + intros x y cx cy. rewrite !lookup_insert_Some. intros [[<- <-]|[? ?]] [[<- <-]|[? ?]]; cbn; try done; eauto.
    + intros b. by rewrite Hbuf Hb.
    + intros b w1 w2 x y [? ?]%Hb1 [? ?]%Hb1. by eapply Hbinj.
    + split_and!; [done|auto| |done]. intros x [<-|Hx]%lookup_insert_is_Some'; [|auto]. apply Hn2. by exists ch.
Qed.

(** The worker [w] drops its channel. *)
Lemma chan_put_owner_wp D w b c (Q : unit -> pool -> Prop) s :
  res D s -> D !! w = Some (b, c) ->
  (forall chs fds, let s' := set_chans chs (set_fds fds s) in res (<[w := (b, None)]> D) s' -> Q tt s') ->
  wp (fuse_chan_put c) Q s.
Proof.
  intros [own Hres] Hw HQ. destruct c as [c|].
  2:{ cbn. wp_steps. replace s with (set_chans (st_chans s) (set_fds (st_fds s) s)) by by destruct s.
      apply HQ. exists own. by rewrite insert_id. }
  pose proof (ri_own _ _ _ _ _ _ _ Hres) as Hown.
  assert (own !! c = Some w) as Hc by (apply Hown; eauto).
  eapply (chan_put_wp D (<[w := (b, None)]> D) own (delete c own) (st_refs s)); [done|..].
  - apply held_own. eauto.
  - intros x. unfold held. destruct (decide (x = c)) as [->|Hne].
    + rewrite lookup_delete_eq Hc (bool_decide_true (c = c)) //.
      rewrite (bool_decide_true (is_Some (Some w))); [eauto|].
      rewrite (bool_decide_false (is_Some None)); [by intros [? ?]|]. unfold int_of_bool. lia.
    + rewrite lookup_delete_ne // (bool_decide_false (x = c)) //. unfold int_of_bool at 3. lia.
  - intros x v. rewrite lookup_delete_Some Hown. split.
    + intros [Hne [b' Hv]]. destruct (decide (v = w)) as [->|]; [congruence|]. exists b'. by rewrite lookup_insert_ne.
    + intros [b' [[_ [=]]|[Hne Hv]]%lookup_insert_Some]. split; [|eauto]. intros <-.
      assert (own !! c = Some v) by (apply Hown; eauto). congruence.
  - intros v. destruct (decide (v = w)) as [->|]; [by rewrite lookup_insert_eq Hw|by rewrite lookup_insert_ne].
  - intros chs fds Hr. apply HQ. by exists (delete c own).
Qed.

Lemma count_remove_first c l x : c ∈ l ->
  Z.of_nat (count (remove_first c l) x) = Z.of_nat (count l x) - int_of_bool (bool_decide (x = c)).
Proof.
  induction l as [|y l IH]; [set_solver|]. cbn [remove_first]. destruct (Z.eqb_spec y c) as [->|Hyc].
  - intros _. cbn. destruct (Z.eq_dec c x) as [->|]; [rewrite bool_decide_true //|rewrite bool_decide_false; [congruence|]];
      unfold int_of_bool; lia.
  - intros [?|Hc]%elem_of_cons; [congruence|]. cbn. specialize (IH Hc). destruct (Z.eq_dec y x); lia.
Qed.

(** A request drops its reference. *)
Lemma chan_put_ref_wp D c (Q : unit -> pool -> Prop) s :
  res D s -> c ∈ st_refs s ->
  (forall chs fds, let s' := set_refs (remove_first c (st_refs s)) (set_chans chs (set_fds fds s)) in
     res D s' -> Q tt s') ->
  wp (fuse_chan_put (Some c);; modify (fun s => set_refs (remove_first c (st_refs s)) s)) Q s.
Proof.
  intros [own Hres] Hc HQ. wp_step.
  eapply (chan_put_wp D D own own (remove_first c (st_refs s))); [done|by apply held_ref| | |done|].
  - intros x. unfold held. rewrite count_remove_first //. lia.
  - apply (ri_own _ _ _ _ _ _ _ Hres).
  - intros chs fds Hr. wp_steps. apply HQ. by exists own.
Qed.

(** A request takes a reference to the channel of its worker. *)
Lemma chan_get_wp D w b c (Q : unit -> pool -> Prop) s :
  res D s -> D !! w = Some (b, Some c) ->
  (forall chs, let s' := set_refs (c :: st_refs s) (set_chans chs s) in res D s' -> Q tt s') ->
  wp (fuse_chan_get c;; modify (fun s => set_refs (c :: st_refs s) s)) Q s.
Proof.
  intros [own [Hch Hown Href Hfd Hinj Hbuf Hbinj (Hn0 & Hn1 & Hn2 & Hn3)]] Hw HQ.
  assert (own !! c = Some w) as Hc by (apply Hown; eauto).
  assert (0 < held own (st_refs s) c) as Hpos by (apply held_own; eauto).
  destruct (Href c Hpos) as [ch Hcc]. destruct (Hch c ch Hcc) as (Hctr & _ & Hof).
  assert (forall x, held own (c :: st_refs s) x = held own (st_refs s) x + int_of_bool (bool_decide (x = c))) as Hh.
  { intros x. unfold held. cbn [count_occ]. destruct (Z.eq_dec c x) as [->|];
      [rewrite (bool_decide_true (x = x)) //|rewrite (bool_decide_false (x = c)); [congruence|]];
      unfold int_of_bool at 3; lia. }
  unfold fuse_chan_get. wp_steps. eapply deref_wp; [done|]. wp_steps; [apply Z.ltb_lt; lia|].
  apply HQ. exists own. split; cbn; try done.
  - intros x y. rewrite lookup_insert_Some Hh. intros [[<- <-]|[Hne Hx]]; cbn.
    + rewrite bool_decide_true //. cbn. split_and!; [lia|lia|done].
    + rewrite bool_decide_false //. cbn. rewrite Z.add_0_r. auto.
  - intros x Hx. rewrite Hh in Hx. rewrite lookup_insert_is_Some'. destruct (decide (c = x)) as [|Hne]; [by left|right].
    apply Href. rewrite bool_decide_false in Hx; [congruence|]. cbn in Hx. lia.
  - intros fd (x & y & Hx & <-)%Hfd. destruct (decide (x = c)) as [->|Hne].
    + exists c. eexists. rewrite lookup_insert_eq. split; [done|]. cbn. congruence.
    + exists x, y. by rewrite lookup_insert_ne.
  - intros x y cx cy. rewrite !lookup_insert_Some. intros [[<- <-]|[? ?]] [[<- <-]|[? ?]]; cbn; try done; eauto.
  - split_and!; try done. intros x [<-|Hx]%lookup_insert_is_Some'; [|auto]. apply Hn2. by exists ch.
Qed.

(** *** Workers and buffers *)

Lemma data_insert m w k : data (<[w := k]> m) = <[w := (wk_mem k, wk_ch k)]> (data m).
Proof. unfold data. by rewrite fmap_insert. Qed.

Lemma data_delete m w : data (delete w m) = delete w (data m).
Proof. unfold data. by rewrite fmap_delete. Qed.

Lemma data_set m w k f : m !! w = Some k -> data (alter f w m) = <[w := (wk_mem (f k), wk_ch (f k))]> (data m).
Proof.
  intros Hk. rewrite -data_insert. f_equal. apply map_eq. intros x. destruct (decide (x = w)) as [->|].
  - by rewrite lookup_alter_eq Hk lookup_insert_eq.
  - by rewrite lookup_alter_ne // lookup_insert_ne.
Qed.

(** Allocation: pointers only grow. *)
Lemma res_next D s n : st_next s <= n -> res D s -> res D (set_next n s).
Proof.
  intros Hn [own [? ? ? ? ? ? ? (? & H1 & H2 & H3)]]. exists own. split; try done. cbn.
  split_and!; [lia|..]; intros x Hx; [specialize (H1 x Hx)|specialize (H2 x Hx)|specialize (H3 x Hx)]; lia.
Qed.

Lemma res_fresh_worker D s w : res D s -> D !! w = None -> w < st_next s ->
  res (<[w := (None, None)]> D) s.
Proof.
  intros [own [? Hown ? ? ? Hbuf Hbinj (? & H1 & H2 & H3)]] Hw Hlt. exists own. split; try done.
  - intros c v. rewrite Hown. apply exist_proper. intros b. rewrite lookup_insert_Some.
    split; [|naive_solver]. intros Hv. right. split; [congruence|done].
  - intros b. rewrite Hbuf. split; intros (v & c & Hv).
    + exists v, c. rewrite lookup_insert_ne //. congruence.
    + apply lookup_insert_Some in Hv as [[_ [=]]|[_ Hv]]. eauto.
  - intros b w1 w2 c1 c2. rewrite !lookup_insert_Some. naive_solver.
  - split_and!; try done. intros v [<-|Hv]%lookup_insert_is_Some'; auto.
Qed.

Lemma res_gone_worker D s w : res D s -> D !! w = Some (None, None) -> res (delete w D) s.
Proof.
  intros [own [? Hown ? ? ? Hbuf Hbinj (? & H1 & H2 & H3)]] Hw. exists own. split; try done.
  - intros c v. rewrite Hown. apply exist_proper. intros b. rewrite lookup_delete_Some.
    split; [|naive_solver]. intros Hv. split; [congruence|done].
  - intros b. rewrite Hbuf. split; intros (v & c & Hv).
    + exists v, c. rewrite lookup_delete_ne //. congruence.
    + apply lookup_delete_Some in Hv as [_ Hv]. eauto.
  - intros b w1 w2 c1 c2. rewrite !lookup_delete_Some. naive_solver.
  - split_and!; try done. intros v [x [_ Hv]%lookup_delete_Some]. eauto.
Qed.

(** The buffer of [w] is freed. *)
Lemma res_drop_buf D s w b c : res D s -> D !! w = Some (Some b, c) ->
  b ∈ st_bufs s /\ res (<[w := (None, c)]> D) (set_bufs (st_bufs s ∖ {[b]}) s).
Proof.
  intros [own [? Hown ? ? ? Hbuf Hbinj (? & H1 & H2 & H3)]] Hw.
  split; [apply Hbuf; eauto|]. exists own. split; try done.
  - intros x v. rewrite Hown. destruct (decide (v = w)) as [->|Hne].
    + rewrite Hw lookup_insert_eq. naive_solver.
    + by rewrite lookup_insert_ne.
  - intros x. cbn. rewrite elem_of_difference elem_of_singleton Hbuf. split.
    + intros [(v & y & Hv) Hne]. exists v, y. rewrite lookup_insert_ne //. intros ->. congruence.
    + intros (v & y & [[_ [=]]|[Hne Hv]]%lookup_insert_Some). split; [eauto|]. intros ->. by eapply Hne, Hbinj.
  - intros x w1 w2 c1 c2. rewrite !lookup_insert_Some. naive_solver.
  - cbn. split_and!; try done; [|set_solver]. intros v [<-|Hv]%lookup_insert_is_Some'; [|auto]. apply H1. eauto.
Qed.

(** A new buffer for [w]. *)
Lemma res_new_buf D s w b c : res D s -> D !! w = Some (None, c) -> b ∉ st_bufs s -> b < st_next s ->
  res (<[w := (Some b, c)]> D) (set_bufs ({[b]} ∪ st_bufs s) s).
Proof.
  intros [own [? Hown ? ? ? Hbuf Hbinj (? & H1 & H2 & H3)]] Hw Hb Hlt. exists own. split; try done.
  - intros x v. rewrite Hown. destruct (decide (v = w)) as [->|Hne].
    + rewrite Hw lookup_insert_eq. naive_solver.
    + by rewrite lookup_insert_ne.
  - intros x. cbn. rewrite elem_of_union elem_of_singleton Hbuf. split.
    + intros [->|(v & y & Hv)]; [exists w, c; by rewrite lookup_insert_eq|].
      exists v, y. rewrite lookup_insert_ne //. intros ->. congruence.
    + intros (v & y & [[_ [= -> _]]|[Hne Hv]]%lookup_insert_Some); eauto.
  - intros x w1 w2 c1 c2. rewrite !lookup_insert_Some.
    intros [[<- [= <- _]]|[Hn1 Hw1]] [[<- E]|[Hn2 Hw2]]; try done; [| |by eapply Hbinj].
    + destruct Hb. apply Hbuf. eauto.
    + injection E as <- _. destruct Hb. apply Hbuf. eauto.
  - cbn. split_and!; try done; [|set_solver]. intros v [<-|Hv]%lookup_insert_is_Some'; [|auto]. apply H1. eauto.
Qed.

Lemma malloc_wp (Q : Z -> pool -> Prop) s : Q (st_next s) (set_next (st_next s + 1) s) -> wp malloc Q s.
Proof. intros HQ. unfold malloc. by wp_steps. Qed.

Lemma fuse_buf_free_wp w (Q : unit -> pool -> Prop) s :
  res (data (st_workers s)) s -> is_Some (st_workers s !! w) ->
  (forall bufs, let s' := set_workers (alter (wk_set_mem None) w (st_workers s)) (set_bufs bufs s) in
     bufs ⊆ st_bufs s -> res (data (st_workers s')) s' -> Q tt s') ->
  wp (fuse_buf_free w) Q s.
Proof.
  intros Hres [k Hk] HQ. unfold fuse_buf_free. wp_steps. eapply worker_read_wp; [done|].
  destruct (wk_mem k) as [b|] eqn:Eb.
  - destruct (res_drop_buf _ _ w b (wk_ch k) Hres) as [Hin Hr]; [rewrite -Eb; by apply data_lookup|].
    wp_steps; [by apply bool_decide_eq_true|]. wp_steps. apply worker_write_wp; [cbn; eauto|].
    apply (HQ (st_bufs s ∖ {[b]})); [set_solver|]. cbn [st_workers set_workers].
    by rewrite (data_set _ _ _ _ Hk).
  - wp_steps. assert (alter (wk_set_mem None) w (st_workers s) = st_workers s) as E.
    { apply map_eq. intros x. destruct (decide (x = w)) as [->|]; [|by rewrite lookup_alter_ne].
      rewrite lookup_alter_eq Hk. destruct k; cbn in *. by subst. }
    replace s with (set_workers (alter (wk_set_mem None) w (st_workers s)) (set_bufs (st_bufs s) s)) at 1
      by (rewrite E; by destruct s).
    apply HQ; [done|]. cbn [st_workers set_workers]. by rewrite E.
Qed.

(** [fuse_chan_put(w->ch); free(w)]: what is left of a worker without a buffer. *)
Lemma drop_worker_wp {A} w k (m : MP A) (Q : A -> pool -> Prop) s :
  res (data (st_workers s)) s -> st_workers s !! w = Some k -> wk_mem k = None ->
  (forall chs fds, let s' := set_workers (delete w (st_workers s)) (set_chans chs (set_fds fds s)) in
     res (data (st_workers s')) s' -> wp m Q s') ->
  wp (k ← worker_read w; fuse_chan_put (wk_ch k);; free_worker w;; m) Q s.
Proof.
  intros Hres Hk Em HQ. wp_steps. eapply worker_read_wp; [done|]. wp_step.
  eapply chan_put_owner_wp; [done|by apply data_lookup|]. intros chs fds s' Hr.
  unfold free_worker. wp_steps. eapply worker_read_wp; [done|]. wp_steps.
  apply HQ. cbn [st_workers set_workers]. rewrite data_delete -(delete_insert_eq _ _ (None, None)).
  apply res_gone_worker; [rewrite Em in Hr; exact Hr|by rewrite lookup_insert_eq].
Qed.

(** [fuse_buf_free(&w->fbuf); fuse_chan_put(w->ch); free(w)]. *)
Lemma worker_release_wp {A} w (m : MP A) (Q : A -> pool -> Prop) s :
  res (data (st_workers s)) s -> is_Some (st_workers s !! w) ->
  (forall bufs chs fds, let s' := set_workers (delete w (st_workers s)) (set_chans chs (set_fds fds (set_bufs bufs s))) in
     res (data (st_workers s')) s' -> wp m Q s') ->
  wp (fuse_buf_free w;; k ← worker_read w; fuse_chan_put (wk_ch k);; free_worker w;; m) Q s.
Proof.
  intros Hres [k Hk] HQ. wp_step. apply fuse_buf_free_wp; [done|eauto|]. intros bufs s' _ Hr.
  eapply (drop_worker_wp w (wk_set_mem None k)); [done|cbn; by rewrite lookup_alter_eq Hk|done|].
  intros chs fds s'' Hr'.
  assert (s'' = set_workers (delete w (st_workers s)) (set_chans chs (set_fds fds (set_bufs bufs s)))) as E.
  { unfold s'', s'. cbn. by rewrite delete_alter_eq. }
  rewrite E in Hr' |- *. by apply HQ.
Qed.

(** *** Starting a thread *)

Lemma res_new_chan D s w b c fd : res D s -> D !! w = Some (b, None) ->
  fd ∉ st_fds s -> st_chans s !! c = None -> c < st_next s ->
  res (<[w := (b, Some c)]> D)
    (set_chans (<[c := mkChan 1 fd]> (st_chans s)) (set_fds ({[fd]} ∪ st_fds s) s)).
Proof.
  intros [own [Hch Hown Href Hfd Hinj Hbuf Hbinj (Hn0 & Hn1 & Hn2 & Hn3)]] Hw Hnf Hc Hlt.
  assert (held own (st_refs s) c <= 0) as H0.
  { destruct (Z.le_gt_cases (held own (st_refs s) c) 0) as [|Hp]; [done|].
    apply Z.lt_gt, Z.gt_lt, Href in Hp. rewrite Hc in Hp. by destruct Hp. }
  assert (own !! c = None /\ count (st_refs s) c = 0%nat) as [Hoc Hrc].
  { unfold held, int_of_bool in H0. case_bool_decide as E; [lia|]. apply eq_None_not_Some in E. split; [done|lia]. }
  exists (<[c := w]> own). split; cbn.
  - intros x y. unfold held. intros [[<- <-]|[Hne Hx]]%lookup_insert_Some; cbn.
    + rewrite lookup_insert_eq Hrc. rewrite bool_decide_true; [eauto|]. cbn. split_and!; [done|lia|set_solver].
    + rewrite lookup_insert_ne //. destruct (Hch x y Hx) as (? & ? & ?). split_and!; [done|done|set_solver].
  - intros x v. destruct (decide (x = c)) as [->|Hne].
    + rewrite lookup_insert_eq. split.
      * intros [= <-]. exists b. by rewrite lookup_insert_eq.
      * intros [b' [[-> _]|[_ Hv]]%lookup_insert_Some]; [done|].
        assert (own !! c = Some v) by (apply Hown; eauto). congruence.
    + rewrite lookup_insert_ne // Hown. apply exist_proper. intros b'. rewrite lookup_insert_Some.
      split; [|naive_solver]. intros Hv. right. split; [congruence|done].
  - intros x Hx. rewrite lookup_insert_is_Some'. destruct (decide (c = x)) as [|Hne]; [by left|right].
    apply Href. unfold held in *. by rewrite lookup_insert_ne in Hx.
  - intros f [->%elem_of_singleton|(x & y & Hx & <-)%Hfd]%elem_of_union.
    + exists c. eexists. by rewrite lookup_insert_eq.
    + exists x, y. rewrite lookup_insert_ne //. congruence.
  - intros x y cx cy. rewrite !lookup_insert_Some.
    intros [[<- <-]|[? Hx]] [[<- <-]|[? Hy]]; cbn; try done; [| |eauto].
    + intros ->. destruct Hnf. by apply (Hch y cy Hy).
    + intros <-. destruct Hnf. by apply (Hch x cx Hx).
  - intros x. rewrite Hbuf. split; intros (v & y & Hv).
    + destruct (decide (v = w)) as [->|]; [exists w, (Some c); rewrite lookup_insert_eq; congruence|].
      exists v, y. by rewrite lookup_insert_ne.
    + apply lookup_insert_Some in Hv as [[<- [= -> _]]|[_ Hv]]; eauto.
  - intros x w1 w2 c1 c2. rewrite !lookup_insert_Some. intros [[<- E1]|[? E1]] [[<- E2]|[? E2]]; try done;
      first [injection E1 as -> _|idtac]; first [injection E2 as -> _|idtac]; by eapply Hbinj.
  - split_and!; [done|..|done].
    + intros v [<-|Hv]%lookup_insert_is_Some'; [|auto]. apply Hn1. eauto.
    + intros x [<-|Hv]%lookup_insert_is_Some'; auto.
Qed.

(** Closing a descriptor that was just opened. *)
Lemma open_close_wp fd (Q : unit -> pool -> Prop) s : fd ∉ st_fds s -> Q tt s ->
  wp (close_fd fd) Q (set_fds ({[fd]} ∪ st_fds s) s).
Proof.
  intros Hf HQ. unfold close_fd. wp_steps; [apply bool_decide_eq_true; cbn; set_solver|]. cbn.
  assert (({[fd]} ∪ st_fds s) ∖ {[fd]} = st_fds s) as E
    by (apply set_eq; intros x; destruct (decide (x = fd)); set_solver).
  unfold set_fds. cbn. rewrite E. by destruct s.
Qed.

(** A channel for the new worker [w], or none. *)
Lemma fuse_clone_chan_wp D w e (Q : option Z -> pool -> Prop) s :
  res D s -> D !! w = Some (None, None) -> env_ok s e = true ->
  (forall ch chs fds n, let s' := set_next n (set_chans chs (set_fds fds s)) in
     st_next s <= n -> res (<[w := (None, ch)]> D) s' -> Q ch s') ->
  wp (fuse_clone_chan e) Q s.
Proof.
  intros Hres Hw Henv HQ. unfold env_ok in Henv. apply andb_true_iff in Henv as [He1 He2].
  assert (Q None s) as HN.
  { replace s with (set_next (st_next s) (set_chans (st_chans s) (set_fds (st_fds s) s))) by by destruct s.
    apply HQ; [lia|]. by rewrite insert_id. }
  assert (forall fd, fd ∉ st_fds s ->
    wp (fuse_chan_new (e_malloc_chan e) fd) (fun newch s' =>
      wp (match newch with None => close_fd fd;; mret None | Some c => mret (Some c) end) Q s')
       (set_fds ({[fd]} ∪ st_fds s) s)) as Hnew.
  { intros fd Hfd. unfold fuse_chan_new. destruct (e_malloc_chan e).
    - wp_steps. apply malloc_wp. wp_steps. cbn.
      assert (forall chs f n, set_next n (set_chans chs (set_fds f s)) = set_chans chs (set_next n (set_fds f s))) as Eswap
        by reflexivity.
      rewrite -Eswap. apply HQ; [lia|].
      apply (res_new_chan D (set_next (st_next s + 1) s)); [apply res_next; [lia|done]|done|done| |cbn; lia].
      destruct Hres as [own [? ? ? ? ? ? ? (? & ? & Hn & ?)]]. cbn.
      destruct (st_chans s !! st_next s) eqn:E; [|done]. specialize (Hn (st_next s)). rewrite E in Hn.
      destruct (Z.lt_irrefl (st_next s)). eauto.
    - wp_steps. by apply open_close_wp. }
  unfold fuse_clone_chan. wp_steps. unfold fuse_clone_chan_fd_default, new_fd.
  destruct (st_io s) as [[|]|].
  - destruct (e_io_clone e) as [fd|]; wp_steps; [|done]. apply Hnew. by apply bool_decide_eq_true in He2.
  - wp_steps. done.
  - destruct (e_open e) as [fd|]; wp_steps; [|done]. apply bool_decide_eq_true in He1.
    destruct (e_ioctl e); wp_steps; [by apply Hnew|by apply open_close_wp].
Qed.
End res.

(** ** Threads and counters *)

Definition busy (t : thread) : bool := match th_pc t with WBusy false => true | _ => false end.
Definition stopped (t : thread) : bool := match th_pc t with WPost | WDone => true | _ => false end.

(** The workers of [ws] that process a request other than a forget. *)
Fixpoint nbusy (th : gmap Z thread) (ws : list Z) : Z :=
  match ws with
  | [] => 0
  | w :: ws => int_of_bool (match th !! w with Some t => busy t | None => false end) + nbusy th ws
  end.

Lemma nbusy_app th ws1 ws2 : nbusy th (ws1 ++ ws2) = nbusy th ws1 + nbusy th ws2.
Proof. induction ws1 as [|w ws1 IH]; cbn; [done|]. rewrite IH. lia. Qed.

Lemma nbusy_insert_out th w t ws : w ∉ ws -> nbusy (<[w := t]> th) ws = nbusy th ws.
Proof.
  induction ws as [|v ws IH]; cbn; [done|]. intros [Hne Hw]%not_elem_of_cons.
  rewrite lookup_insert_ne // IH //.
Qed.

Lemma nbusy_delete_out th w ws : w ∉ ws -> nbusy (delete w th) ws = nbusy th ws.
Proof.
  induction ws as [|v ws IH]; cbn; [done|]. intros [Hne Hw]%not_elem_of_cons.
  rewrite lookup_delete_ne // IH //.
Qed.

Lemma nbusy_insert th w t t' ws : NoDup ws -> w ∈ ws -> th !! w = Some t ->
  nbusy (<[w := t']> th) ws = nbusy th ws + int_of_bool (busy t') - int_of_bool (busy t).
Proof.
  intros Hnd (ws1 & ws2 & ->)%list_elem_of_split Ht. apply list.NoDup_app in Hnd as (_ & Hd & Hnd).
  apply list.NoDup_cons in Hnd as [Hw2 _]. assert (w ∉ ws1) by set_solver.
  rewrite !nbusy_app. cbn. rewrite lookup_insert_eq Ht !nbusy_insert_out //. lia.
Qed.

Lemma nbusy_range th ws : 0 <= nbusy th ws <= Z.of_nat (length ws).
Proof. induction ws as [|w ws IH]; cbn; [lia|]. unfold int_of_bool. case_match; lia. Qed.

(** The ring, as long as [mt] exists. *)
Definition ring_of (s : pool) (ws : list Z) : Prop :=
  match st_mt s with
  | Some _ => ring (st_workers s) ws /\ data (st_workers s) !! main_w = Some (None, None)
  | None => ws = [] /\ st_workers s !! main_w = None
  end.

(** The counters, as long as the loop has not told the workers to stop. *)
Definition counts (mt : fuse_mt) (th : gmap Z thread) (ws : list Z) : Prop :=
  mt_exit mt = false ->
  numworker mt = Z.of_nat (length ws) /\
  numavail mt = Z.of_nat (length ws) - nbusy th ws /\
  numworker mt <= Z.max 1 (max_threads mt).

Record thr_inv (s : pool) (ws : list Z) : Prop := {
  ti_res : res (data (st_workers s)) s;
  ti_ring : ring_of s ws;
  ti_dom : forall w, is_Some (st_threads s !! w) <-> w <> main_w /\ is_Some (st_workers s !! w);
  ti_att : forall w t, st_threads s !! w = Some t -> w ∈ ws <-> th_pc t <> WLeaving;
  ti_stop : forall w t, st_threads s !! w = Some t -> stopped t -> st_exited s = true;
  ti_cancel : forall w t, st_threads s !! w = Some t -> th_cancel t = true ->
    th_pc t <> WLeaving /\ st_exited s = true /\ forall mt, st_mt s = Some mt -> mt_exit mt = true;
  ti_recv : forall w t op, st_threads s !! w = Some t -> th_pc t = WReceived false op ->
    exists b c, data (st_workers s) !! w = Some (Some b, c);
  ti_count : forall mt, st_mt s = Some mt -> counts mt (st_threads s) ws /\ 0 <= finish mt;
}.

(** Where the loop itself is. *)
Definition joining (s : pool) (ws : list Z) : Prop :=
  st_exited s = true /\ (exists mt, st_mt s = Some mt /\ mt_exit mt = true) /\
  forall w t, w ∈ ws -> st_threads s !! w = Some t -> th_cancel t = true.
Definition serving (s : pool) (ws : list Z) : Prop :=
  ws <> [] /\ exists mt, st_mt s = Some mt /\ mt_exit mt = false.
Definition main_inv (s : pool) (ws : list Z) : Prop :=
  match st_main s with
  | MStart => st_mt s = None /\ st_threads s = ∅
  | MCheck | MSem => serving s ws
  | MCancel => serving s ws /\ st_exited s = true
  | MJoin => joining s ws
  | MJoining w => joining s ws /\ w ∈ ws
  | MFinish _ => ws = [] /\ is_Some (st_mt s)
  | MReturned _ => st_mt s = None
  end.

Definition pool_inv (s : pool) : Prop := exists ws, thr_inv s ws /\ main_inv s ws.

Section start.
Implicit Types (s : pool) (ws : list Z).

(** What [fuse_loop_start_thread] leaves alone. *)
Definition start_frame s s' : Prop :=
  st_main s' = st_main s /\ st_exited s' = st_exited s /\ st_error s' = st_error s /\ st_io s' = st_io s.

Definition start_mt (mt : fuse_mt) (mt' : fuse_mt) : Prop := mt' = mt \/ mt' = mt_no_clone mt.

Lemma ring_insert_fresh m ws w k : ring m ws -> m !! w = None -> ring (<[w := k]> m) ws.
Proof.
  intros [Hnd Hc] Hw. split; [done|]. apply (chain_frame m); [done|..]; intros v Hv.
  - assert (is_Some (m !! v)) as [? Hs] by (by eapply chain_dom).
    unfold nx. rewrite lookup_insert_ne //. congruence.
  - assert (is_Some (m !! v)) as [? Hs] by (eapply chain_dom; [done|set_solver]).
    unfold pv. rewrite lookup_insert_ne //. congruence.
Qed.

Lemma fresh_worker s ws : thr_inv s ws ->
  st_workers s !! st_next s = None /\ st_next s <> main_w /\ st_threads s !! st_next s = None.
Proof.
  intros [[own [? ? ? ? ? ? ? (H0 & H1 & ? & ?)]] _ Hdom _ _ _ _ _].
  assert (st_workers s !! st_next s = None) as Hw.
  { apply eq_None_not_Some. rewrite -data_is_Some. intros ?%H1. lia. }
  split_and!; [done|lia|]. apply eq_None_not_Some. rewrite Hdom Hw. by intros [_ [? ?]].
Qed.

(** A change of [mt], the resources and nothing else. *)
Lemma thr_inv_mt s s' ws mt mt' :
  thr_inv s ws -> st_mt s = Some mt -> st_mt s' = Some mt' ->
  st_workers s' = st_workers s -> st_threads s' = st_threads s -> st_exited s' = st_exited s ->
  res (data (st_workers s')) s' -> (counts mt (st_threads s) ws -> counts mt' (st_threads s) ws) -> 0 <= finish mt' ->
  mt_exit mt' = mt_exit mt -> thr_inv s' ws.
Proof.
  intros [Hres Hring Hdom Hatt Hstop Hcan Hrecv Hcnt] Hmt Hmt' Ew Et Ex Hr Hc Hf He.
  unfold ring_of in Hring. rewrite Hmt in Hring.
  split; rewrite ?Ew ?Et ?Ex //.
  - by rewrite -Ew.
  - unfold ring_of. by rewrite Hmt' Ew.
  - intros w t Ht Hx. destruct (Hcan w t Ht Hx) as (? & ? & Hm). split_and!; [done..|].
    intros mt0. rewrite Hmt'. intros [= <-]. rewrite He. auto.
  - intros mt0. rewrite Hmt'. intros [= <-]. split; [|done]. by apply Hc, Hcnt.
Qed.

Lemma counts_start mt mt' th ws : start_mt mt mt' -> counts mt th ws -> counts mt' th ws.
Proof. by intros [->| ->]. Qed.

Lemma finish_start mt mt' : start_mt mt mt' -> finish mt' = finish mt.
Proof. by intros [->| ->]. Qed.

(** The new worker [w] with its thread, in the ring. *)
Lemma thr_inv_started s s' ws w ch mt mt' :
  thr_inv s ws -> st_mt s = Some mt -> start_mt mt mt' -> w = st_next s ->
  numworker mt + 1 <= Z.max 1 (max_threads mt) ->
  st_mt s' = Some (mt_count 1 1 mt') ->
  st_workers s' = link w (<[w := mkWorker 0 0 None ch]> (st_workers s)) (final main_w ws) ->
  st_threads s' = <[w := mkThread WHead false]> (st_threads s) -> st_exited s' = st_exited s ->
  res (data (<[w := mkWorker 0 0 None ch]> (st_workers s))) s' ->
  thr_inv s' (ws ++ [w]).
Proof.
  intros Hinv Hmt Hm -> Hb Hmt' Ew Et Ex Hr. destruct (fresh_worker _ _ Hinv) as (Hfw & Hmain & Hft).
  destruct Hinv as [_ Hring Hdom Hatt Hstop Hcan Hrecv Hcnt]. unfold ring_of in Hring. rewrite Hmt in Hring.
  destruct Hring as [Hring Hmd]. set (w := st_next s) in *.
  assert (w ∉ main_w :: ws) as Hnotin.
  { intros Hin. destruct Hring as [_ Hc]. apply (chain_dom _ _ _ _ _ Hc) in Hin. rewrite Hfw in Hin. by destruct Hin. }
  assert (data (st_workers s') = <[w := (None, ch)]> (data (st_workers s))) as Ed.
  { rewrite Ew. unfold link. by rewrite !data_alter // data_insert. }
  split; rewrite ?Ed ?Et ?Ex.
  - by rewrite data_insert in Hr.
  - unfold ring_of. rewrite Hmt' Ed. split; [|by rewrite lookup_insert_ne].
    rewrite Ew. apply ring_link; [by apply ring_insert_fresh|done|by rewrite lookup_insert_eq; eauto].
  - intros v. rewrite Ew. unfold link. rewrite !alter_is_Some !lookup_insert_is_Some'. rewrite Hdom. naive_solver.
  - intros v t [[<- <-]|[Hne Hv]]%lookup_insert_Some; [set_solver|]. rewrite -(Hatt v t Hv). set_solver.
  - intros v t [[<- <-]|[Hne Hv]]%lookup_insert_Some; [done|by apply (Hstop v)].
  - intros v t [[<- <-]|[Hne Hv]]%lookup_insert_Some; [done|]. intros Hx. destruct (Hcan v t Hv Hx) as (? & ? & He).
    split_and!; [done..|]. intros mt0. rewrite Hmt'. intros [= <-]. specialize (He mt Hmt). by destruct Hm as [->| ->].
  - intros v t op [[<- <-]|[Hne Hv]]%lookup_insert_Some; [done|]. rewrite lookup_insert_ne //. by apply (Hrecv v).
  - intros mt0. rewrite Hmt'. intros [= <-]. destruct (Hcnt mt Hmt) as [Hc Hf]. unfold counts in *.
    rewrite nbusy_app nbusy_insert_out; [set_solver|]. rewrite length_app. cbn. rewrite lookup_insert_eq. cbn.
    destruct Hm as [->| ->]; cbn; (split; [|done]); intros Hx; destruct (Hc Hx) as (? & ? & ?); split_and!; lia.
Qed.

(** The new worker before its thread is created, with its channel. *)
Lemma new_worker_wp e ws mt (Q : unit -> pool -> Prop) s :
  let w := st_next s in
  let s1 := set_workers (<[w := mkWorker 0 0 None None]> (st_workers s)) (set_next (w + 1) s) in
  thr_inv s ws -> st_mt s = Some mt -> env_ok s e = true ->
  (forall s2 ch mt', start_mt mt mt' -> st_mt s2 = Some mt' ->
     st_workers s2 = <[w := mkWorker 0 0 None ch]> (st_workers s) -> res (data (st_workers s2)) s2 ->
     st_threads s2 = st_threads s -> start_frame s s2 -> Q tt s2) ->
  wp (if clone_fd mt then
       ch ← fuse_clone_chan e;
       worker_write w (wk_set_ch ch);;
       match ch with
       | None => mt_write mt_no_clone
       | Some _ => mret tt
       end
     else mret tt) Q s1.
Proof.
  intros w s1 Hinv Hmt Henv HQ. destruct (fresh_worker _ _ Hinv) as (Hfw & Hmain & _).
  assert (res (data (st_workers s1)) s1) as Hr1.
  { cbn [st_workers set_workers s1]. rewrite data_insert.
    apply (res_fresh_worker _ (set_next (w + 1) s)); [apply res_next; [lia|apply (ti_res _ _ Hinv)]| |cbn; lia].
    apply eq_None_not_Some. rewrite data_is_Some Hfw. by intros [? ?]. }
  destruct (clone_fd mt); wp_steps.
  2:{ apply (HQ s1 None mt); [by left|done|done|done|done|done]. }
  eapply (fuse_clone_chan_wp _ w); [exact Hr1| |done|].
  { apply (data_lookup _ _ (mkWorker 0 0 None None)). cbn. by rewrite lookup_insert_eq. }
  intros ch chs fds n s' _ Hr. wp_steps. apply worker_write_wp; [cbn; rewrite lookup_insert_eq; eauto|].
  set (s2 := set_workers _ s').
  assert (st_workers s2 = <[w := mkWorker 0 0 None ch]> (st_workers s)) as Ew.
  { unfold s2, s', s1. cbn. by rewrite alter_insert_eq. }
  assert (res (data (st_workers s2)) s2) as Hr2.
  { rewrite Ew data_insert. cbn [st_workers set_workers s1] in Hr. rewrite data_insert insert_insert_eq in Hr. exact Hr. }
  destruct ch as [c|].
  - wp_steps. by apply (HQ s2 (Some c) mt); [left|..].
  - eapply mt_write_wp; [done|]. by apply (HQ _ None (mt_no_clone mt)); [right|..].
Qed.

Lemma fuse_loop_start_thread_wp e ws mt (Q : Z -> pool -> Prop) s :
  thr_inv s ws -> st_mt s = Some mt -> env_ok s e = true ->
  numworker mt + 1 <= Z.max 1 (max_threads mt) ->
  (forall s' mt', thr_inv s' ws -> start_frame s s' -> st_threads s' = st_threads s ->
     st_mt s' = Some mt' -> start_mt mt mt' -> Q (-1) s') ->
  (forall s' mt', thr_inv s' (ws ++ [st_next s]) -> start_frame s s' ->
     st_threads s' = <[st_next s := mkThread WHead false]> (st_threads s) -> st_threads s !! st_next s = None ->
     st_mt s' = Some (mt_count 1 1 mt') -> start_mt mt mt' -> Q 0 s') ->
  wp (fuse_loop_start_thread e) Q s.
Proof.
  intros Hinv Hmt Henv Hb Hfail Hok. destruct (fresh_worker _ _ Hinv) as (Hfw & Hmain & Hft).
  unfold fuse_loop_start_thread. destruct (e_malloc e); cbn [negb].
  2:{ wp_steps. apply (Hfail s mt); [done|by split_and!|done|done|by left]. }
  wp_steps. apply malloc_wp. wp_steps. eapply mt_read_wp; [done|]. wp_step.
  apply (new_worker_wp e ws mt _ s); [done..|]. intros s2 ch mt' Hm Hmt2 Ew Hr Et Hfr. cbn beta.
  unfold fuse_start_thread. destruct (e_create e); wp_steps; cbn [Z.eqb].
  - pose proof (ti_ring _ _ Hinv) as Hring. unfold ring_of in Hring. rewrite Hmt in Hring.
    change (0 =? -1) with false. cbn iota. wp_steps.
    assert (ring (st_workers s2) ws) as Hring2 by (rewrite Ew; apply ring_insert_fresh; [apply Hring|done]).
    apply (list_add_worker_wp _ ws); [done|cbn; rewrite Ew lookup_insert_eq; eauto|]. wp_steps.
    eapply mt_write_wp; [done|]. wp_steps. apply (Hok _ mt'); [|done|by cbn; rewrite Et|done|done|done].
    apply (thr_inv_started s _ ws _ ch mt mt'); try done; cbn [set_mt set_workers set_threads st_workers st_threads st_exited].
    + by rewrite Ew.
    + by rewrite Et.
    + apply Hfr.
    + by rewrite Ew in Hr.
  - change (-1 =? -1) with true. cbn iota.
    eapply (drop_worker_wp (st_next s) (mkWorker 0 0 None ch)); [done|by rewrite Ew lookup_insert_eq|done|].
    intros chs fds s' Hr'. wp_steps.
    assert (st_workers s' = st_workers s) as Ew' by (cbn; by rewrite Ew delete_insert_id).
    apply (Hfail s' mt'); [|done|done|done|done].
    apply (thr_inv_mt s s' ws mt mt'); try done; [|by apply counts_start| |by destruct Hm as [->| ->]].
    + apply Hfr.
    + rewrite (finish_start _ _ Hm). by apply (ti_count _ _ Hinv mt).
Qed.
End start.

(** ** One thread moves *)

Section move.
Implicit Types (s : pool) (ws : list Z).

(** The worker [w] is in the ring and [mt] exists. *)
Lemma attached s ws w t : thr_inv s ws -> st_threads s !! w = Some t -> th_pc t <> WLeaving ->
  w ∈ ws /\ NoDup ws /\ w <> main_w /\ is_Some (st_workers s !! w) /\ exists mt, st_mt s = Some mt.
Proof.
  intros Hinv Ht Hpc. apply (ti_att _ _ Hinv w t Ht) in Hpc as Hw.
  pose proof (proj1 (ti_dom _ _ Hinv w) (mk_is_Some _ _ Ht)) as [Hm Hs].
  pose proof (ti_ring _ _ Hinv) as Hr. unfold ring_of in Hr. destruct (st_mt s) as [mt|].
  - destruct Hr as [[Hnd _] _]. apply list.NoDup_cons in Hnd as [_ Hnd]. eauto 6.
  - destruct Hr as [-> _]. set_solver.
Qed.

(** How the counters change when a worker becomes busy or idle. *)
Definition recount (mt mt' : fuse_mt) (d : Z) : Prop :=
  mt_exit mt' = mt_exit mt /\ numworker mt' = numworker mt /\ max_threads mt' = max_threads mt /\
  numavail mt' = numavail mt + d /\ 0 <= finish mt'.

Record moves s s' (w : Z) (t : thread) (pc : wpc) : Prop := {
  mv_pc : pc <> WLeaving;
  mv_threads : st_threads s' = <[w := mkThread pc (th_cancel t)]> (st_threads s);
  mv_ring : (forall v, nx (st_workers s') v = nx (st_workers s) v) /\ forall v, pv (st_workers s') v = pv (st_workers s) v;
  mv_data : forall v, v <> w -> data (st_workers s') !! v = data (st_workers s) !! v;
  mv_dom : is_Some (st_workers s' !! w);
  mv_res : res (data (st_workers s')) s';
  mv_mt : forall mt, st_mt s = Some mt -> 0 <= finish mt -> exists mt', st_mt s' = Some mt' /\
    recount mt mt' (int_of_bool (busy t) - int_of_bool (busy (mkThread pc (th_cancel t))));
  mv_exited : st_exited s = true -> st_exited s' = true;
  mv_stop : stopped (mkThread pc (th_cancel t)) -> st_exited s' = true;
  mv_recv : forall op, pc = WReceived false op -> exists b c, data (st_workers s') !! w = Some (Some b, c);
  mv_main : st_main s' = st_main s;
}.

Lemma main_inv_move s s' ws mt mt' :
  main_inv s ws -> st_main s' = st_main s -> ws <> [] -> st_mt s = Some mt -> st_mt s' = Some mt' ->
  mt_exit mt' = mt_exit mt -> (st_exited s = true -> st_exited s' = true) ->
  (forall w t', w ∈ ws -> st_threads s' !! w = Some t' ->
     exists t, st_threads s !! w = Some t /\ (th_cancel t = true -> th_cancel t' = true)) ->
  main_inv s' ws.
Proof.
  intros Hm Emain Hne Hmt Hmt' Ee Hx Hc.
  assert (serving s ws -> serving s' ws) as Hs.
  { intros [_ (x & Hx0 & He)]. split; [done|]. exists mt'. split; [done|]. congruence. }
  assert (joining s ws -> joining s' ws) as Hj.
  { intros (He & (x & Hx0 & Hxe) & Hcc). split_and!; [auto| |].
    - exists mt'. split; [done|]. congruence.
    - intros w t' Hw Ht'. destruct (Hc w t' Hw Ht') as (t & Ht & Hi). eauto. }
  unfold main_inv in *. rewrite Emain. destruct (st_main s); try tauto.
  - destruct Hm as [? _]. congruence.
  - congruence.
Qed.

Lemma pool_inv_move s s' ws w t pc :
  thr_inv s ws -> main_inv s ws -> st_threads s !! w = Some t -> th_pc t <> WLeaving ->
  moves s s' w t pc -> thr_inv s' ws /\ main_inv s' ws.
Proof.
  intros Hinv Hmain Ht Hpc [Hpc' Et [En Ep] Hd Hdw Hr Hmtx Hex Hst Hrc Em].
  destruct (attached _ _ _ _ Hinv Ht Hpc) as (Hw & Hnd & Hwm & Hs & mt & Hmt).
  destruct Hinv as [Hres Hring Hdom Hatt Hstop Hcan Hrecv Hcnt]. unfold ring_of in Hring. rewrite Hmt in Hring.
  destruct Hring as [Hring Hmd]. destruct (Hcnt mt Hmt) as [Hc Hf].
  destruct (Hmtx mt Hmt Hf) as (mt' & Hmt' & Ee & Ewk & Emx & Eav & Hf').
  split.
  - split; rewrite ?Et.
    + done.
    + unfold ring_of. rewrite Hmt' Hd //. split; [|done]. destruct Hring as [? Hch]. split; [done|].
      by apply (chain_frame (st_workers s)).
    + intros v. destruct (decide (v = w)) as [->|Hne].
      * rewrite lookup_insert_eq. naive_solver.
      * rewrite lookup_insert_ne // Hdom -!(data_is_Some _ v) Hd //.
    + intros v t' [[<- <-]|[Hne Hv]]%lookup_insert_Some; [done|by apply Hatt].
    + intros v t' [[<- <-]|[Hne Hv]]%lookup_insert_Some; [done|]. eauto.
    + intros v t' Hv Hx. assert (exists t0, st_threads s !! v = Some t0 /\ th_cancel t0 = true) as (t0 & Ht0 & Hx0).
      { apply lookup_insert_Some in Hv as [[<- <-]|[_ Hv]]; eauto. }
      destruct (Hcan v t0 Ht0 Hx0) as (Hl & Hxx & He). split_and!; [|auto|].
      * apply lookup_insert_Some in Hv as [[<- <-]|[_ Hv]]; [done|congruence].
      * intros mt0. rewrite Hmt'. intros [= <-]. rewrite Ee. auto.
    + intros v t' op [[<- <-]|[Hne Hv]]%lookup_insert_Some; cbn; [apply Hrc|]. rewrite Hd //. eauto.
    + intros mt0. rewrite Hmt'. intros [= <-]. split; [|done]. intros Hx. rewrite Ee in Hx.
      destruct (Hc Hx) as (? & ? & ?). rewrite (nbusy_insert _ _ t) //. rewrite Emx Ewk Eav. split_and!; lia.
  - apply (main_inv_move s s' ws mt mt'); [done|done|by intros ->; set_solver|done..|].
    intros v t' Hv. rewrite Et. intros [[<- <-]|[Hne Hvt]]%lookup_insert_Some; eauto.
Qed.

(** The usual case: the workers do not change. *)
Lemma moves_pc s s' w t pc :
  is_Some (st_workers s !! w) ->
  pc <> WLeaving ->
  st_threads s' = <[w := mkThread pc (th_cancel t)]> (st_threads s) ->
  st_workers s' = st_workers s -> res (data (st_workers s)) s' ->
  (forall mt, st_mt s = Some mt -> 0 <= finish mt -> exists mt', st_mt s' = Some mt' /\
    recount mt mt' (int_of_bool (busy t) - int_of_bool (busy (mkThread pc (th_cancel t))))) ->
  (st_exited s = true -> st_exited s' = true) ->
  (stopped (mkThread pc (th_cancel t)) -> st_exited s' = true) ->
  (forall op, pc = WReceived false op -> exists b c, data (st_workers s) !! w = Some (Some b, c)) ->
  st_main s' = st_main s -> moves s s' w t pc.
Proof.
  intros Hw Hpc Et Ew Hr Hmt Hx Hst Hrc Hm. by split; rewrite ?Ew.
Qed.

Lemma recount_0 mt d : d = 0 -> 0 <= finish mt -> recount mt mt d.
Proof. intros -> Hf. unfold recount. split_and!; [done..|lia|done]. Qed.

Lemma pc_of_Some s w pc : pc_of s w = Some pc -> exists t, st_threads s !! w = Some t /\ th_pc t = pc.
Proof. unfold pc_of. destruct (st_threads s !! w) as [t|]; naive_solver. Qed.

Abbreviation safe m s := (wp m (fun _ => pool_inv) s).

Lemma work_head_safe s w : pool_inv s -> pc_of s w = Some WHead -> safe (work_head w) s.
Proof.
  intros (ws & Hinv & Hmain) (t & Ht & Epc)%pc_of_Some.
  assert (th_pc t <> WLeaving) as Hl by by rewrite Epc.
  destruct (attached _ _ _ _ Hinv Ht Hl) as (Hw & _ & _ & Hs & mt & Hmt).
  unfold work_head. wp_steps. eapply mt_read_wp; [done|]. wp_steps. eapply set_pc_wp; [done|].
  exists ws. apply (pool_inv_move s _ ws w t (if st_exited s then WPost else WReceiving)); [done..|].
  apply moves_pc; try done.
  - by destruct (st_exited s).
  - apply (ti_res _ _ Hinv).
  - intros mt0 ? ?. exists mt0. split; [done|]. apply recount_0; [|done]. unfold busy. rewrite Epc. by destruct (st_exited s).
  - cbn. by destruct (st_exited s).
  - by destruct (st_exited s).
Qed.

Lemma cancelled_safe s w : pool_inv s -> st_threads s !! w = Some (mkThread WReceiving true) -> safe (set_pc w WDone) s.
Proof.
  intros (ws & Hinv & Hmain) Ht.
  destruct (attached _ _ _ _ Hinv Ht) as (Hw & _ & _ & Hs & mt & Hmt); [done|].
  eapply set_pc_wp; [done|]. exists ws. apply (pool_inv_move s _ ws w _ WDone Hinv Hmain Ht); [done|].
  apply moves_pc; try done.
  - apply (ti_res _ _ Hinv).
  - intros mt0 ? ?. exists mt0. split; [done|]. by apply recount_0.
  - intros _. by apply (ti_cancel _ _ Hinv w _ Ht).
Qed.


(** The buffer after the receiving call. *)
Lemma receive_buffer_wp w r (Q : unit -> pool -> Prop) s :
  res (data (st_workers s)) s -> is_Some (st_workers s !! w) ->
  (forall s1, res (data (st_workers s1)) s1 -> ctl s1 = ctl s ->
     (forall v, nx (st_workers s1) v = nx (st_workers s) v) -> (forall v, pv (st_workers s1) v = pv (st_workers s) v) ->
     (forall v, v <> w -> data (st_workers s1) !! v = data (st_workers s) !! v) -> is_Some (st_workers s1 !! w) ->
     (if rv_alloc r then exists b c, data (st_workers s1) !! w = Some (Some b, c) else s1 = s) -> Q tt s1) ->
  wp (receive_buffer w r) Q s.
Proof.
  intros Hres Hw HQ. unfold receive_buffer. destruct (rv_alloc r); [|wp_steps; by apply HQ].
  wp_steps. apply malloc_wp. wp_steps. apply fuse_buf_free_wp; [by apply res_next; [lia|]|done|].
  intros bufs s1 Hsub Hr. wp_steps. destruct Hw as [k Hk].
  assert (st_workers s1 !! w = Some (wk_set_mem None k)) as Hk1 by (cbn; by rewrite lookup_alter_eq Hk).
  apply worker_write_wp; [cbn; rewrite alter_is_Some; eauto|].
  set (b := st_next s) in *. set (m := st_workers s1) in *.
  assert (b ∉ bufs) as Hb.
  { intros Hb%Hsub. destruct Hres as [own [? ? ? ? ? ? ? (? & ? & ? & Hn)]]. apply Hn in Hb. lia. }
  apply HQ.
  - cbn [st_workers set_workers]. rewrite (data_set _ w (wk_set_mem None k)) //.
    apply (res_new_buf _ s1 w b); [done|by rewrite (data_lookup _ _ _ Hk1)|done|cbn; lia].
  - done.
  - intros v. cbn. by rewrite !nx_alter.
  - intros v. cbn. by rewrite !pv_alter.
  - intros v Hv. cbn [st_workers set_workers]. rewrite (data_set _ w (wk_set_mem None k)) // lookup_insert_ne //.
    unfold m, s1. cbn [st_workers set_workers set_bufs set_next]. by rewrite (data_set _ w k) // lookup_insert_ne.
  - cbn. rewrite !alter_is_Some. eauto.
  - exists b, (wk_ch k). cbn [st_workers set_workers]. by rewrite (data_set _ w (wk_set_mem None k)) // lookup_insert_eq.
Qed.

Lemma work_received_safe s w r : pool_inv s -> pc_of s w = Some WReceiving -> receive_ok s w r = true ->
  safe (work_received w r) s.
Proof.
  intros (ws & Hinv & Hmain) (t & Ht & Epc)%pc_of_Some [Hok1 Hok2]%andb_true_iff.
  assert (th_pc t <> WLeaving) as Hl by by rewrite Epc.
  destruct (attached _ _ _ _ Hinv Ht Hl) as (Hw & _ & _ & Hs & mt & Hmt).
  unfold work_received. wp_steps. apply receive_buffer_wp; [apply (ti_res _ _ Hinv)|done|].
  intros s1 Hr Hctl Hnx Hpv Hd Hs1 Hal. unfold ctl in Hctl. injection Hctl as E1 E2 E3 E4 E5 E6.
  assert (forall pc x mt', pc <> WLeaving -> busy (mkThread pc (th_cancel t)) = false ->
    (stopped (mkThread pc (th_cancel t)) -> x = true) -> (st_exited s = true -> x = true) ->
    (forall op, pc = WReceived false op -> 0 < rv_res r /\ rv_is_fd r = false) ->
    (0 <= finish mt -> recount mt mt' 0) ->
    pool_inv (set_threads (<[w := mkThread pc (th_cancel t)]> (st_threads s)) (set_mt (Some mt') (set_exited x s1)))) as Hgo.
  { intros pc x mt' Hpc Hb Hst Hx Hrc Hre. exists ws. apply (pool_inv_move s _ ws w t pc); [done..|].
    split; try done.
    - intros mt0 Hmt0 Hf. exists mt'. split; [done|]. rewrite Hmt in Hmt0. injection Hmt0 as <-. unfold busy at 1.
      rewrite Epc Hb. by apply Hre.
    - intros op [Hpos Hfd]%Hrc. cbn. apply Z.ltb_lt in Hpos. rewrite Hpos Hfd in Hok1. cbn in Hok1.
      destruct (rv_alloc r); [done|]. subst s1. cbn in Hok1.
      destruct (st_workers s !! w) as [[p n [b|] c]|] eqn:Ek; try done. exists b, c. by apply data_lookup in Ek. }
  (* the four ways on *)
  set (x0 := if rv_exit r then true else st_exited s).
  assert (wp (if rv_exit r then modify (set_exited true) else mret tt) (fun _ s2 => s2 = set_exited x0 s1) s1) as Hwx.
  { unfold x0. destruct (rv_exit r); wp_steps; [done|]. rewrite -E4. by destruct s1. }
  wp_step. eapply wp_mono; [exact Hwx|]. intros _ s2 ->. cbn beta.
  assert (forall x, set_exited x s1 = set_mt (Some mt) (set_exited x s1)) as Emt.
  { intros x. rewrite -Hmt -E1. by destruct s1. }
  assert (st_exited s = true -> x0 = true) as Hx0 by (unfold x0; by destruct (rv_exit r)).
  destruct (rv_res r =? - EINTR).
  { rewrite Emt. eapply set_pc_wp; [cbn; by rewrite E2|]. cbn. rewrite E2.
    apply Hgo; try done. intros Hf. by apply recount_0. }
  destruct (Z.leb_spec (rv_res r) 0); [destruct (Z.ltb_spec (rv_res r) 0)|].
  - wp_steps. eapply mt_write_wp; [cbn; by rewrite E1|]. eapply set_pc_wp; [cbn; by rewrite E2|]. cbn. rewrite E2.
    apply (Hgo WPost true (mt_set_error (rv_res r) mt)); try done.
    intros Hf. split_and!; [done..|cbn; lia|done].
  - wp_steps. rewrite Emt. eapply set_pc_wp; [cbn; by rewrite E2|]. cbn. rewrite E2.
    apply Hgo; try done; [|intros Hf; by apply recount_0]. intros _.
    rewrite (proj2 (Z.eqb_eq _ _)) in Hok2; [lia|]. unfold x0. by destruct (rv_exit r).
  - rewrite Emt. eapply set_pc_wp; [cbn; by rewrite E2|]. cbn. rewrite E2.
    apply Hgo; try done; [|intros Hf; by apply recount_0]. intros op [= Hfd _]. auto.
Qed.

(** While there are workers, [mt->exit] is set exactly in the joining loop. *)
Lemma exit_joining s ws mt : main_inv s ws -> ws <> [] -> st_mt s = Some mt ->
  if mt_exit mt then joining s ws else serving s ws.
Proof.
  intros Hm Hne Hmt.
  assert (serving s ws -> if mt_exit mt then joining s ws else serving s ws) as Hs.
  { intros H0. pose proof H0 as (_ & x & Hx & E). rewrite Hmt in Hx. injection Hx as <-. by rewrite E. }
  assert (joining s ws -> if mt_exit mt then joining s ws else serving s ws) as Hj.
  { intros H0. pose proof H0 as (_ & (x & Hx & E) & _). rewrite Hmt in Hx. injection Hx as <-. by rewrite E. }
  unfold main_inv in *. destruct (st_main s); try tauto; [destruct Hm|]; congruence.
Qed.

(** The set of workers changes while the loop is serving. *)
Lemma main_inv_serving s s' ws ws' : main_inv s ws -> serving s ws -> serving s' ws' ->
  st_main s' = st_main s -> st_exited s' = st_exited s -> main_inv s' ws'.
Proof.
  intros Hm (Hne & mt & Hmt & He) Hs Em Ex. unfold main_inv in *. rewrite Em Ex. unfold joining in Hm.
  destruct (st_main s); try tauto; [destruct Hm|..]; naive_solver congruence.
Qed.

(** A thread is started while the loop is serving. *)
Lemma start_safe e s ws mt : thr_inv s ws -> main_inv s ws -> st_mt s = Some mt -> env_ok s e = true ->
  ws <> [] -> mt_exit mt = false -> numworker mt < max_threads mt ->
  safe (fuse_loop_start_thread e ≫= fun _ => mret tt) s.
Proof.
  intros Hinv Hmain Hmt Henv Hne He Hlt. wp_step.
  eapply (fuse_loop_start_thread_wp e ws mt); [done..|lia| |].
  - intros s' mt' Hinv' (F1 & F2 & F3 & F4) Et Hmt' Hm. wp_steps. exists ws. split; [done|].
    apply (main_inv_move s s' ws mt mt'); try done; [by destruct Hm as [->| ->]|by rewrite F2|].
    rewrite Et. eauto.
  - intros s' mt' Hinv' (F1 & F2 & F3 & F4) Et Hft Hmt' Hm. wp_steps. exists (ws ++ [st_next s]). split; [done|].
    apply (main_inv_serving s s' ws); try done.
    + pose proof (exit_joining _ _ _ Hmain Hne Hmt) as Hph. by rewrite He in Hph.
    + split; [by destruct ws|]. eexists. split; [done|]. by destruct Hm as [->| ->].
Qed.

Lemma worker_opcode_wp s ws w t op (Q : Z -> pool -> Prop) :
  thr_inv s ws -> st_threads s !! w = Some t -> th_pc t = WReceived false op -> Q op s -> wp (worker_opcode w op) Q s.
Proof.
  intros Hinv Ht Epc HQ. destruct (ti_recv _ _ Hinv w t op Ht Epc) as (b & c & Hb).
  destruct (ti_res _ _ Hinv) as [own Hr]. assert (b ∈ st_bufs s) as Hin by (apply (ri_buf _ _ _ _ _ _ _ Hr); eauto).
  unfold data in Hb. rewrite lookup_fmap in Hb. destruct (st_workers s !! w) as [k|] eqn:Hk; [|done]. injection Hb as Hkm Hkc.
  unfold worker_opcode. wp_steps. eapply worker_read_wp; [done|]. wp_steps. eapply deref_wp; [done|].
  wp_steps; [by apply bool_decide_eq_true|done].
Qed.

Lemma work_begin_safe s w e is_fd op : pool_inv s -> pc_of s w = Some (WReceived is_fd op) -> env_ok s e = true ->
  safe (work_begin e w is_fd op) s.
Proof.
  intros (ws & Hinv & Hmain) (t & Ht & Epc)%pc_of_Some Henv.
  assert (th_pc t <> WLeaving) as Hl by by rewrite Epc.
  destruct (attached _ _ _ _ Hinv Ht Hl) as (Hw & _ & _ & Hs & mt & Hmt).
  assert (ws <> []) as Hne by (intros ->; set_solver).
  pose proof (exit_joining _ _ _ Hmain Hne Hmt) as Hph.
  unfold work_begin. wp_steps. eapply mt_read_wp; [done|]. destruct (mt_exit mt) eqn:Ex.
  { eapply set_pc_wp; [done|]. exists ws. apply (pool_inv_move s _ ws w t WDone Hinv Hmain Ht Hl). apply moves_pc; try done.
    - apply (ti_res _ _ Hinv).
    - intros mt0 ? ?. exists mt0. split; [done|]. apply recount_0; [|done]. unfold busy. by rewrite Epc.
    - intros _. apply Hph. }
  wp_step. assert (forall isforget, wp ((if negb isforget then mt_write (mt_count (-1) 0) else mret tt);;
    set_pc w (WBusy isforget);;
    mt ← mt_read;
    if (numavail mt =? 0) && (numworker mt <? max_threads mt)
    then fuse_loop_start_thread e ≫= fun _ => mret tt else mret tt) (fun _ => pool_inv) s) as Hgo.
  { intros isforget. set (mt1 := if isforget then mt else mt_count (-1) 0 mt).
    set (s1 := set_threads (<[w := mkThread (WBusy isforget) (th_cancel t)]> (st_threads s)) (set_mt (Some mt1) s)).
    assert (thr_inv s1 ws /\ main_inv s1 ws) as [Hinv1 Hmain1].
    { apply (pool_inv_move s _ ws w t (WBusy isforget) Hinv Hmain Ht Hl). apply moves_pc; try done.
      - apply (ti_res _ _ Hinv).
      - intros mt0 Hm0 Hf. exists mt1. split; [done|]. rewrite Hmt in Hm0. injection Hm0 as <-. unfold busy. rewrite Epc.
        unfold mt1. destruct isforget; split_and!; cbn; lia || done. }
    wp_step. apply (wp_mono _ (fun _ s' => s' = set_mt (Some mt1) s)).
    { unfold mt1. destruct isforget; cbn [negb]; wp_steps; [rewrite -Hmt; by destruct s|]. by eapply mt_write_wp. }
    intros _ ? ->. cbn beta. wp_steps. eapply set_pc_wp; [done|]. fold s1. wp_steps.
    eapply mt_read_wp; [done|]. destruct (_ && _) eqn:Ec; [|wp_steps; by exists ws].
    apply andb_true_iff in Ec as [_ Hlt%Z.ltb_lt].
    eapply (start_safe e s1 ws mt1); try done. unfold mt1. by destruct isforget. }
  destruct is_fd; cbn [negb]; [apply wp_ret, (Hgo false)|].
  wp_step. eapply worker_opcode_wp; [done..|]. apply wp_ret, Hgo.
Qed.

(** A worker takes itself out of the ring. *)
Lemma thr_inv_leave s s' ws1 w ws2 t mt mt' :
  thr_inv s (ws1 ++ w :: ws2) -> st_threads s !! w = Some t -> th_pc t <> WLeaving ->
  st_mt s = Some mt -> st_mt s' = Some mt' -> mt_exit mt = false ->
  mt_exit mt' = false -> numworker mt' = numworker mt - 1 -> max_threads mt' = max_threads mt ->
  numavail mt' = numavail mt + int_of_bool (busy t) - 1 -> 0 <= finish mt' ->
  ring (st_workers s') (ws1 ++ ws2) -> data (st_workers s') = data (st_workers s) ->
  st_threads s' = <[w := mkThread WLeaving (th_cancel t)]> (st_threads s) -> st_exited s' = st_exited s ->
  res (data (st_workers s)) s' ->
  thr_inv s' (ws1 ++ ws2).
Proof.
  intros Hinv Ht Hl Hmt Hmt' Hx Hx' Hnw Hmx Hna Hf Hring' Ed Et Ee Hr.
  destruct (attached _ _ _ _ Hinv Ht Hl) as (_ & Hnd & Hwm & Hs & _).
  destruct Hinv as [Hres Hring Hdom Hatt Hstop Hcan Hrecv Hcnt]. unfold ring_of in Hring. rewrite Hmt in Hring.
  destruct Hring as [_ Hmd]. pose proof Hnd as (_ & Hdis & Hnd2)%list.NoDup_app. apply list.NoDup_cons in Hnd2 as [Hw2 _].
  assert (w ∉ ws1 ++ ws2) as Hout by set_solver.
  split; rewrite ?Ed ?Et ?Ee; try done.
  - unfold ring_of. by rewrite Hmt' Ed.
  - intros v. rewrite -(data_is_Some _ v) Ed data_is_Some -Hdom. destruct (decide (v = w)) as [->|].
    + rewrite lookup_insert_eq Ht. naive_solver.
    + by rewrite lookup_insert_ne.
  - intros v t' [[<- <-]|[Hne Hv]]%lookup_insert_Some; [naive_solver|]. rewrite -(Hatt v t' Hv). set_solver.
  - intros v t' [[<- <-]|[Hne Hv]]%lookup_insert_Some; [done|]. eauto.
  - intros v t' Hv Hc. destruct (th_cancel t) eqn:Ec.
    { destruct (Hcan w t Ht Ec) as (_ & _ & He). rewrite (He mt Hmt) in Hx. done. }
    apply lookup_insert_Some in Hv as [[<- <-]|[_ Hv]]; [done|]. destruct (Hcan v t' Hv Hc) as (? & ? & He).
    rewrite (He mt Hmt) in Hx. done.
  - intros v t' op [[<- <-]|[Hne Hv]]%lookup_insert_Some; [done|]. eauto.
  - intros mt0. rewrite Hmt'. intros [= <-]. split; [|done]. intros _.
    destruct (Hcnt mt Hmt) as [Hc _]. destruct (Hc Hx) as (H1 & H2 & H3).
    rewrite nbusy_insert_out // nbusy_app length_app. rewrite nbusy_app length_app in H2. rewrite length_app in H1.
    cbn in H1, H2. rewrite Ht in H2. split_and!; lia.
Qed.

Lemma work_end_safe s w f : pool_inv s -> pc_of s w = Some (WBusy f) -> safe (work_end w f) s.
Proof.
  intros (ws & Hinv & Hmain) (t & Ht & Epc)%pc_of_Some.
  assert (th_pc t <> WLeaving) as Hl by by rewrite Epc.
  destruct (attached _ _ _ _ Hinv Ht Hl) as (Hw & _ & _ & Hs & mt & Hmt).
  assert (ws <> []) as Hne by (intros ->; set_solver).
  pose proof (exit_joining _ _ _ Hmain Hne Hmt) as Hph.
  set (mt1 := if f then mt else mt_count 1 0 mt).
  assert (forall pc, (pc = WHead \/ pc = WDone /\ st_exited s = true) ->
    pool_inv (set_threads (<[w := mkThread pc (th_cancel t)]> (st_threads s)) (set_mt (Some mt1) s))) as Hgo.
  { intros pc Hpc. exists ws. apply (pool_inv_move s _ ws w t pc Hinv Hmain Ht Hl). apply moves_pc; try done.
    - naive_solver.
    - apply (ti_res _ _ Hinv).
    - intros mt0 Hm0 Hf. exists mt1. split; [done|]. rewrite Hmt in Hm0. injection Hm0 as <-. unfold busy. rewrite Epc.
      unfold mt1. destruct f, Hpc as [->|[-> _]]; split_and!; cbn; lia || done.
    - by destruct Hpc as [->|[-> ?]].
    - naive_solver. }
  unfold work_end. wp_step. apply (wp_mono _ (fun _ s' => s' = set_mt (Some mt1) s)).
  { unfold mt1. destruct f; cbn [negb]; wp_steps; [rewrite -Hmt; by destruct s|]. by eapply mt_write_wp. }
  intros _ ? ->. cbn beta. wp_steps. eapply mt_read_wp; [done|]. destruct (_ && _ && _) eqn:Ec.
  2:{ eapply set_pc_wp; [done|]. apply Hgo. by left. }
  apply andb_true_iff in Ec as [_ Hlt%Z.ltb_lt].
  assert (mt_exit mt1 = mt_exit mt) as Ee by (unfold mt1; by destruct f). rewrite Ee.
  destruct (mt_exit mt) eqn:Ex.
  { eapply set_pc_wp; [done|]. apply Hgo. right. split; [done|]. apply Hph. }
  pose proof Hw as (ws1 & ws2 & ->)%list_elem_of_split.
  pose proof (ti_ring _ _ Hinv) as Hring. unfold ring_of in Hring. rewrite Hmt in Hring.
  destruct (ti_count _ _ Hinv mt Hmt) as [Hcnt Hf]. destruct (Hcnt Ex) as (Hc1 & _ & _).
  wp_step. eapply list_del_worker_wp; [apply Hring|]. intros m Hd Hr. wp_steps.
  eapply mt_write_wp; [done|]. wp_steps. eapply set_pc_wp; [done|].
  exists (ws1 ++ ws2). split.
  - eapply (thr_inv_leave s _ ws1 w ws2 t mt); try done; unfold mt1, busy; cbn.
    all: rewrite ?Epc; destruct f; cbn; try done; try lia; try apply (ti_res _ _ Hinv).
  - apply (main_inv_serving s _ (ws1 ++ w :: ws2)); [done|exact Hph| |done|done]. split.
    { intros E. apply (f_equal length) in E. rewrite length_app in E. rewrite length_app in Hc1. cbn in *.
      unfold mt1 in Hlt. destruct f; cbn in Hlt; lia. }
    eexists. split; [done|]. cbn. by rewrite Ee.
Qed.

Lemma work_post_safe s w : pool_inv s -> pc_of s w = Some WPost -> safe (work_post w) s.
Proof.
  intros (ws & Hinv & Hmain) (t & Ht & Epc)%pc_of_Some.
  assert (th_pc t <> WLeaving) as Hl by by rewrite Epc.
  destruct (attached _ _ _ _ Hinv Ht Hl) as (Hw & _ & _ & Hs & mt & Hmt).
  unfold work_post. wp_steps. eapply mt_read_wp; [done|]. wp_steps. eapply mt_write_wp; [done|].
  eapply set_pc_wp; [done|]. exists ws. apply (pool_inv_move s _ ws w t WDone Hinv Hmain Ht Hl). apply moves_pc; try done.
  - apply (ti_res _ _ Hinv).
  - intros mt0 Hm0 Hf. rewrite Hmt in Hm0. injection Hm0 as <-. eexists. split; [done|]. unfold busy. rewrite Epc.
    split_and!; cbn; lia || done.
  - intros _. apply (ti_stop _ _ Hinv w t Ht). unfold stopped. by rewrite Epc.
Qed.

(** ** A thread and its worker go away *)

Lemma thr_inv_remove s s' ws ws' w :
  thr_inv s ws -> st_mt s' = st_mt s -> st_threads s' = delete w (st_threads s) ->
  data (st_workers s') = delete w (data (st_workers s)) -> ring_of s' ws' ->
  (forall v, v <> w -> v ∈ ws' <-> v ∈ ws) -> st_exited s' = st_exited s -> res (data (st_workers s')) s' ->
  (forall mt, st_mt s = Some mt -> counts mt (st_threads s) ws -> counts mt (delete w (st_threads s)) ws') ->
  thr_inv s' ws'.
Proof.
  intros [Hres Hring Hdom Hatt Hstop Hcan Hrecv Hcnt] Em Et Ed Hring' Hws Ex Hr Hc.
  assert (forall v t, st_threads s' !! v = Some t -> v <> w /\ st_threads s !! v = Some t) as Hth.
  { intros v t. rewrite Et lookup_delete_Some. naive_solver. }
  split; rewrite ?Ex ?Em.
  - done.
  - done.
  - intros v. rewrite Et -(data_is_Some _ v) Ed. destruct (decide (v = w)) as [->|].
    + rewrite !lookup_delete_eq. split; [by intros [? ?]|by intros [_ [? ?]]].
    + by rewrite !lookup_delete_ne // Hdom data_is_Some.
  - intros v t [Hne Hv]%Hth. rewrite -(Hatt v t Hv). auto.
  - intros v t [Hne Hv]%Hth. eauto.
  - intros v t [Hne Hv]%Hth. eauto.
  - intros v t op [Hne Hv]%Hth. rewrite Ed lookup_delete_ne //. eauto.
  - intros mt Hmt. destruct (Hcnt mt Hmt) as [? ?]. split; [|done]. rewrite Et. by apply Hc.
Qed.

Lemma work_leave_safe s w : pool_inv s -> pc_of s w = Some WLeaving -> safe (work_leave w) s.
Proof.
  intros (ws & Hinv & Hmain) (t & Ht & Epc)%pc_of_Some.
  assert (w ∉ ws) as Hw by (rewrite (ti_att _ _ Hinv w t Ht); tauto).
  pose proof (proj1 (ti_dom _ _ Hinv w) (mk_is_Some _ _ Ht)) as [Hwm Hs].
  unfold work_leave. apply worker_release_wp; [apply (ti_res _ _ Hinv)|done|]. intros bufs chs fds s' Hr. wp_steps.
  exists ws. split.
  - apply (thr_inv_remove s _ ws ws w); try done.
    + by rewrite -data_delete.
    + pose proof (ti_ring _ _ Hinv) as Hring. unfold ring_of in *.
      cbn [st_mt st_workers set_threads set_workers set_chans set_fds set_bufs s'].
      destruct (st_mt s) eqn:Emt.
      * destruct Hring as [[Hnd Hc] Hmd]. rewrite data_delete lookup_delete_ne //. split; [|done]. split; [done|].
        apply (chain_frame (st_workers s)); [done|..]; intros v Hv;
          unfold nx, pv; rewrite lookup_delete_ne //; set_solver.
      * destruct Hring as [-> Hm0]. split; [done|]. by rewrite lookup_delete_None; right.
    + intros mt Hmt. unfold counts. by rewrite nbusy_delete_out.
  - unfold main_inv, joining, serving in *. cbn. destruct (st_main s); try done.
    + destruct Hmain as [? E]. by rewrite E in Ht.
    + destruct Hmain as (? & ? & Hc). split_and!; [done..|]. intros v t' Hv. rewrite lookup_delete_Some. naive_solver.
    + destruct Hmain as [(? & ? & Hc) ?]. split_and!; [done..| |done]. intros v t' Hv. rewrite lookup_delete_Some. naive_solver.
Qed.

(** ** Requests and handlers *)

(** The references and [se->exited] change, threads and workers do not. *)
Lemma pool_inv_frame s s' : pool_inv s ->
  st_mt s' = st_mt s -> st_workers s' = st_workers s -> st_threads s' = st_threads s -> st_main s' = st_main s ->
  (st_exited s = true -> st_exited s' = true) -> res (data (st_workers s)) s' -> pool_inv s'.
Proof.
  intros (ws & [Hres Hring Hdom Hatt Hstop Hcan Hrecv Hcnt] & Hmain) Em Ew Et Ema Hx Hr. exists ws. split.
  - split; rewrite ?Em ?Ew ?Et //.
    + unfold ring_of. by rewrite Em Ew.
    + intros w t Ht Hs. eauto.
    + intros w t Ht Hc. destruct (Hcan w t Ht Hc) as (? & ? & ?). split_and!; auto.
  - unfold main_inv, joining, serving in *. rewrite Ema Em Et. destruct (st_main s); naive_solver.
Qed.

Lemma ref_safe s w f : pool_inv s -> pc_of s w = Some (WBusy f) ->
  safe (k ← worker_read w;
        match wk_ch k with
        | Some c => fuse_chan_get c;; modify (fun s => set_refs (c :: st_refs s) s)
        | None => mret tt
        end) s.
Proof.
  intros Hp (t & Ht & Epc)%pc_of_Some. pose proof Hp as (ws & Hinv & Hmain).
  pose proof (proj1 (ti_dom _ _ Hinv w) (mk_is_Some _ _ Ht)) as [Hwm [k Hk]].
  wp_step. eapply worker_read_wp; [done|]. destruct (wk_ch k) as [c|] eqn:Ec; [|wp_steps; done].
  eapply (chan_get_wp (data (st_workers s)) w (wk_mem k)); [apply (ti_res _ _ Hinv)|by rewrite -Ec; apply data_lookup|].
  intros chs s' Hr. by apply (pool_inv_frame s s').
Qed.

Lemma unref_safe s c : pool_inv s -> c ∈ st_refs s ->
  safe (fuse_chan_put (Some c);; modify (fun s => set_refs (remove_first c (st_refs s)) s)) s.
Proof.
  intros Hp Hc. pose proof Hp as (ws & Hinv & Hmain).
  eapply (chan_put_ref_wp (data (st_workers s))); [apply (ti_res _ _ Hinv)|done|].
  intros chs fds s' Hr. by apply (pool_inv_frame s s').
Qed.

Lemma exit_safe s : pool_inv s -> safe (modify (set_exited true)) s.
Proof.
  intros Hp. wp_steps. pose proof Hp as (ws & Hinv & _). apply (pool_inv_frame s); try done. apply (ti_res _ _ Hinv).
Qed.

Lemma error_safe s e : pool_inv s -> safe (modify (set_error e)) s.
Proof.
  intros Hp. wp_steps. pose proof Hp as (ws & Hinv & _). apply (pool_inv_frame s); try done. apply (ti_res _ _ Hinv).
Qed.

(** ** The loop itself *)

Lemma pool_inv_main s ws m : thr_inv s ws -> main_inv (set_main m s) ws -> pool_inv (set_main m s).
Proof.
  intros [Hres Hring Hdom Hatt Hstop Hcan Hrecv Hcnt] Hm. exists ws. split; [|done]. by split.
Qed.

Lemma loop_check_safe s : pool_inv s -> st_main s = MCheck -> safe loop_check s.
Proof.
  intros (ws & Hinv & Hmain) Em. unfold main_inv in Hmain. rewrite Em in Hmain. unfold loop_check. wp_steps.
  eapply pool_inv_main; [done|]. unfold main_inv. cbn. destruct (st_exited s) eqn:Ex; cbn; [|done].
  by split.
Qed.

Lemma thr_inv_set_mt s ws mt mt' : thr_inv s ws -> st_mt s = Some mt ->
  (counts mt (st_threads s) ws -> counts mt' (st_threads s) ws) -> 0 <= finish mt' -> mt_exit mt' = mt_exit mt ->
  thr_inv (set_mt (Some mt') s) ws.
Proof.
  intros Hinv Hmt Hc Hf He. eapply (thr_inv_mt s _ ws mt mt'); try done. apply (ti_res _ _ Hinv).
Qed.

Lemma loop_wake_safe s signal : pool_inv s -> st_main s = MSem ->
  signal || match st_mt s with Some mt => 0 <? finish mt | None => true end = true -> safe (loop_wake signal) s.
Proof.
  intros (ws & Hinv & Hmain) Em Hf. unfold main_inv in Hmain. rewrite Em in Hmain.
  pose proof Hmain as (Hne & mt & Hmt & He). rewrite Hmt in Hf. unfold loop_wake. destruct signal; wp_steps.
  - by eapply pool_inv_main.
  - apply Z.ltb_lt in Hf. eapply mt_read_wp; [done|]. eapply mt_write_wp; [done|]. wp_steps.
    eapply pool_inv_main; [by eapply thr_inv_set_mt; [..|cbn; lia|]|]. split; [done|]. eexists. split; [done|]. done.
Qed.

(** The threads of [ws] have a pending cancellation, the others are as before. *)
Definition cancelled (ws : list Z) (th th' : gmap Z thread) : Prop :=
  forall v, th' !! v =
    if bool_decide (v ∈ ws) then (fun t => mkThread (th_pc t) true) <$> th !! v else th !! v.

Lemma cancel_all_wp a ws fuel (Q : unit -> pool -> Prop) s :
  NoDup (main_w :: ws) -> chain (st_workers s) a ws main_w ->
  (forall w, w ∈ ws -> exists t, st_threads s !! w = Some t /\ th_pc t <> WLeaving) ->
  (length ws < fuel)%nat ->
  (forall th, cancelled ws (st_threads s) th -> Q tt (set_threads th s)) ->
  wp (cancel_all fuel (default main_w (nx (st_workers s) a))) Q s.
Proof.
  revert a fuel s. induction ws as [|w ws IH]; intros a [|fuel] s Hnd Hc Hth Hfu HQ; cbn [length] in Hfu; try lia;
    cbn [chain] in Hc.
  - destruct Hc as [-> _]. cbn. wp_steps. replace s with (set_threads (st_threads s) s) by by destruct s. by apply HQ.
  - destruct Hc as (-> & _ & Hc). apply list.NoDup_cons in Hnd as [Hm0 Hnd]. apply list.NoDup_cons in Hnd as [Hw Hnd].
    cbn. destruct (Z.eqb_spec w main_w) as [->|_]; [set_solver|].
    destruct (Hth w) as (t & Ht & Hl); [set_solver|].
    assert (is_Some (st_workers s !! w)) as [k Hk] by (eapply chain_dom; [done|set_solver]).
    unfold pthread_cancel. wp_steps. eapply deref_wp; [done|]. wp_steps; [by destruct (th_pc t)|].
    eapply worker_read_wp; [done|].
    assert (wk_next k = default main_w (nx (st_workers s) w)) as -> by (unfold nx; by rewrite Hk).
    apply (IH w fuel (set_threads (<[w := mkThread (th_pc t) true]> (st_threads s)) s)); [|done| |lia|].
    + apply list.NoDup_cons. set_solver.
    + intros v Hv. destruct (Hth v) as (tv & Htv & Hlv); [set_solver|]. exists tv. cbn.
      rewrite lookup_insert_ne //. intros ->. set_solver.
    + intros th Hth'. apply HQ. intros v. rewrite (Hth' v). cbn. destruct (decide (v = w)) as [->|Hne].
      * rewrite lookup_insert_eq bool_decide_false // bool_decide_true; [set_solver|]. by rewrite Ht.
      * rewrite lookup_insert_ne //. destruct (decide (v ∈ ws)); [rewrite !bool_decide_true //|rewrite !bool_decide_false //]; set_solver.
Qed.

Lemma ring_size m ws : ring m ws -> (length ws <= size m)%nat.
Proof.
  intros [Hnd Hc]. apply list.NoDup_cons in Hnd as [_ Hnd].
  rewrite -(size_list_to_set (C := gset Z) ws) // -(size_dom (D := gset Z)). apply subseteq_size.
  intros w Hw%elem_of_list_to_set. apply elem_of_dom. eapply chain_dom; [done|set_solver].
Qed.

Lemma loop_cancel_safe s : pool_inv s -> st_main s = MCancel -> safe loop_cancel s.
Proof.
  intros (ws & Hinv & Hmain) Em. unfold main_inv in Hmain. rewrite Em in Hmain.
  destruct Hmain as [(Hne & mt & Hmt & He) Hx].
  destruct Hinv as [Hres Hring Hdom Hatt Hstop Hcan Hrecv Hcnt]. unfold ring_of in Hring. rewrite Hmt in Hring.
  destruct Hring as [Hring Hmd]. pose proof Hring as [Hnd Hc].
  assert (is_Some (st_workers s !! main_w)) as [k Hk] by (eapply chain_dom; [done|set_solver]).
  unfold loop_cancel. wp_steps. eapply worker_read_wp; [done|]. wp_steps.
  assert (wk_next k = default main_w (nx (st_workers s) main_w)) as -> by (unfold nx; by rewrite Hk).
  apply (cancel_all_wp main_w ws); [done|done| |pose proof (ring_size _ _ Hring); lia|].
  { intros w Hw. apply list.NoDup_cons in Hnd as [Hm0 _].
    assert (is_Some (st_threads s !! w)) as [t Ht].
    { apply Hdom. split; [set_solver|]. eapply chain_dom; [done|set_solver]. }
    exists t. split; [done|]. by apply (Hatt w t Ht). }
  intros th Hth. wp_steps. eapply mt_write_wp; [done|]. wp_steps.
  assert (forall w t, th !! w = Some t -> exists t0, st_threads s !! w = Some t0 /\ th_pc t = th_pc t0 /\
    (th_cancel t = true -> w ∈ ws \/ th_cancel t0 = true)) as Hth1.
  { intros w t. rewrite (Hth w). case_bool_decide as Hw; [|eauto]. intros (t0 & Ht0 & ->)%fmap_Some. exists t0. naive_solver. }
  assert (forall w, is_Some (th !! w) <-> is_Some (st_threads s !! w)) as Hths.
  { intros w. rewrite (Hth w). case_bool_decide; [by rewrite fmap_is_Some|done]. }
  exists ws. split.
  - split; cbn [set_main set_mt set_threads st_workers st_threads st_mt st_exited]; try done.
    + intros w. by rewrite Hths.
    + intros w t (t0 & Ht0 & -> & _)%Hth1. eauto.
    + intros w t (t0 & Ht0 & Epc & Hcc)%Hth1 Hct. rewrite Epc. split_and!; [|done|by intros mt' [= <-]].
      destruct (Hcc Hct) as [Hw|Hc0]; [by apply (Hatt w t0 Ht0)|by apply (Hcan w t0 Ht0)].
    + intros w t op (t0 & Ht0 & -> & _)%Hth1. eauto.
    + intros mt' [= <-]. split; [done|]. by apply (Hcnt mt).
  - unfold main_inv, joining. cbn. split_and!; [done|by eexists|]. intros w t Hw. rewrite (Hth w) bool_decide_true //.
    by intros (t0 & Ht0 & ->)%fmap_Some.
Qed.

Lemma loop_join_safe s : pool_inv s -> st_main s = MJoin -> safe loop_join s.
Proof.
  intros (ws & Hinv & Hmain) Em. unfold main_inv in Hmain. rewrite Em in Hmain.
  pose proof Hmain as (Hx & (mt & Hmt & He) & Hc).
  pose proof (ti_ring _ _ Hinv) as Hring. unfold ring_of in Hring. rewrite Hmt in Hring. destruct Hring as [[Hnd Hch] Hmd].
  assert (is_Some (st_workers s !! main_w)) as [k Hk] by (eapply chain_dom; [done|set_solver]).
  unfold loop_join. wp_steps. eapply mt_read_wp; [done|]. wp_steps. eapply worker_read_wp; [done|]. wp_steps.
  eapply pool_inv_main; [done|]. unfold main_inv. cbn. destruct ws as [|w ws]; cbn in Hch.
  - destruct Hch as [Hn _]. unfold nx in Hn. rewrite Hk in Hn. injection Hn as ->. cbn. split; [done|]. by eexists.
  - destruct Hch as [Hn _]. unfold nx in Hn. rewrite Hk in Hn. injection Hn as ->.
    destruct (Z.eqb_spec w main_w) as [->|]; [apply list.NoDup_cons in Hnd as [? _]; set_solver|].
    split; [done|set_solver].
Qed.

Lemma fuse_join_worker_safe s w : pool_inv s -> st_main s = MJoining w -> safe (fuse_join_worker w) s.
Proof.
  intros (ws & Hinv & Hmain) Em. unfold main_inv in Hmain. rewrite Em in Hmain. destruct Hmain as [(Hx & (mt & Hmt & He) & Hc) Hw].
  pose proof (ti_ring _ _ Hinv) as Hring. unfold ring_of in Hring. rewrite Hmt in Hring. destruct Hring as [Hring Hmd].
  pose proof Hw as (ws1 & ws2 & ->)%list_elem_of_split.
  assert (w ∉ ws1 ++ ws2 /\ w <> main_w) as [Hout Hwm].
  { destruct Hring as [[Hm0 (_ & Hd & [Hw2 _]%list.NoDup_cons)%list.NoDup_app]%list.NoDup_cons _]. set_solver. }
  unfold fuse_join_worker. wp_steps. eapply list_del_worker_wp; [exact Hring|]. intros m Ed Hr.
  apply worker_release_wp.
  - cbn [st_workers set_workers]. rewrite Ed. apply (ti_res _ _ Hinv).
  - cbn. rewrite -data_is_Some Ed data_is_Some. destruct Hring as [_ Hch]. eapply chain_dom; [done|set_solver].
  - intros bufs chs fds s' Hr'. wp_steps. eapply (pool_inv_main s' (ws1 ++ ws2)).
    + apply (thr_inv_remove s _ (ws1 ++ w :: ws2) _ w); try done.
      * cbn [st_workers set_workers s']. by rewrite data_delete Ed.
      * unfold ring_of. cbn [st_mt st_workers set_threads set_workers set_chans set_fds set_bufs s']. rewrite Hmt.
        rewrite data_delete Ed lookup_delete_ne //. split; [|done]. destruct Hr as [Hnd' Hc']. split; [done|].
        apply (chain_frame m); [done|..]; intros v Hv; unfold nx, pv; rewrite lookup_delete_ne //; set_solver.
      * intros v Hv. set_solver.
      * intros mt0 Hm0 _. rewrite Hmt in Hm0. injection Hm0 as <-. intros Hf. by rewrite He in Hf.
    + unfold main_inv, joining. cbn. split_and!; [done|by eexists|]. intros v t Hv. rewrite lookup_delete_Some.
      intros [_ Hvt]. apply (Hc v t); [set_solver|done].
Qed.

Lemma loop_finish_safe s e : pool_inv s -> st_main s = MFinish e -> safe (loop_finish e) s.
Proof.
  intros (ws & Hinv & Hmain) Em. unfold main_inv in Hmain. rewrite Em in Hmain. destruct Hmain as [-> [mt Hmt]].
  destruct Hinv as [Hres Hring Hdom Hatt Hstop Hcan Hrecv Hcnt]. unfold ring_of in Hring. rewrite Hmt in Hring.
  destruct Hring as [[_ Hch] Hmd].
  assert (is_Some (st_workers s !! main_w)) as [k Hk] by (eapply chain_dom; [done|set_solver]).
  assert (forall w t, st_threads s !! w = Some t -> th_pc t = WLeaving) as Hlv.
  { intros w t Ht. pose proof (proj2 (Hatt w t Ht)) as Hw. clear -Hw.
    destruct (th_pc t); try done; by destruct (not_elem_of_nil w); apply Hw. }
  unfold loop_finish, free_worker. wp_steps. eapply worker_read_wp; [done|]. wp_steps.
  exists []. split; [|done].
  split; cbn [set_main set_mt set_error set_exited set_workers st_workers st_threads st_mt st_exited].
  - rewrite data_delete. by apply (res_gone_worker _ s).
  - unfold ring_of. cbn. split; [done|]. by rewrite lookup_delete_eq.
  - intros w. rewrite Hdom. destruct (decide (w = main_w)) as [->|].
    + rewrite lookup_delete_eq. naive_solver.
    + by rewrite lookup_delete_ne.
  - intros w t Ht. rewrite (Hlv w t Ht). set_solver.
  - intros w t Ht. unfold stopped. by rewrite (Hlv w t Ht).
  - intros w t Ht Hc. by destruct (Hcan w t Ht Hc) as [[] _]; apply (Hlv w).
  - intros w t op Ht. by rewrite (Hlv w t Ht).
  - done.
Qed.

Lemma loop_start_safe s cfg calloc_ok e : pool_inv s -> st_main s = MStart -> env_ok s e = true ->
  cfg <> None \/ calloc_ok = true -> safe (loop_start cfg calloc_ok e) s.
Proof.
  intros (ws & Hinv & Hmain) Em Henv Hcfg. unfold main_inv in Hmain. rewrite Em in Hmain. destruct Hmain as [Hmt Hth].
  unfold loop_start. destruct (negb _).
  { wp_steps. by eapply pool_inv_main. }
  destruct Hinv as [Hres Hring Hdom Hatt Hstop Hcan Hrecv Hcnt]. unfold ring_of in Hring. rewrite Hmt in Hring.
  destruct Hring as [-> Hm0]. wp_step. apply (wp_mono _ (fun _ s' => s' = s)).
  { destruct cfg; [done|]. destruct Hcfg as [?| ->]; [done|]. done. }
  intros c ? ->. wp_steps. set (mt := mkMt _ _ _ _ _ _ _ _). set (s1 := set_workers _ _).
  assert (thr_inv s1 []) as Hinv1.
  { split; cbn [st_workers st_threads st_exited set_workers set_mt s1]; rewrite ?Hth; try done.
    - rewrite data_insert. apply (res_fresh_worker _ s); [done| |].
      + apply eq_None_not_Some. rewrite data_is_Some Hm0. by intros [? ?].
      + destruct Hres as [own [? ? ? ? ? ? ? (? & ?)]]. done.
    - unfold ring_of. cbn [st_mt st_workers set_workers set_mt s1]. rewrite data_insert lookup_insert_eq. split; [|done].
      split; [apply NoDup_singleton|]. cbn. unfold nx, pv. by rewrite lookup_insert_eq.
    - intros w. split; [by intros [? ?]|]. intros [Hw Hs]. rewrite lookup_insert_ne // in Hs.
      destruct (proj2 (Hdom w)) as [x Hx]; [done|]. by rewrite Hth in Hx.
    - intros mt' [= <-]. split; [|done]. intros _. cbn. split_and!; lia. }
  eapply (fuse_loop_start_thread_wp e [] mt); [done|done|done|cbn; lia| |].
  - intros s' mt' Hinv' (F1 & F2 & F3 & F4) Et Hmt' Hm. wp_steps. eapply pool_inv_main; [done|]. cbn. by split.
  - intros s' mt' Hinv' (F1 & F2 & F3 & F4) Et Hft Hmt' Hm. wp_steps. eapply pool_inv_main; [done|].
    split; [done|]. eexists. split; [done|]. by destruct Hm as [->| ->].
Qed.

(** ** Every event *)

(** An event that does not call the loop without a configuration when there is no
    memory for one. *)
Definition configured (ev : event) : bool :=
  match ev with EStart None false _ => false | _ => true end.

Lemma run_safe {A} (m : MP A) s : safe m s -> exists s', run m s = Some (Ok s') /\ pool_inv s'.
Proof. unfold run, wp. destruct (m s) as [[a s']| |]; naive_solver. Qed.

Lemma exec_safe ev s o : pool_inv s -> configured ev = true -> exec ev s = Some o ->
  exists s', o = Ok s' /\ pool_inv s'.
Proof.
  intros Hp Hcfg He.
  enough (exists s', Some o = Some (Ok s') /\ pool_inv s') as (s' & [= ->] & ?) by eauto.
  rewrite -He. destruct ev; cbn [exec] in *.
  - destruct (st_main s) eqn:Em; try done. destruct (env_ok s e) eqn:Ee; [|done].
    apply run_safe, loop_start_safe; try done. destruct cfg; [by left|]. destruct calloc_ok; [by right|done].
  - destruct (st_main s) eqn:Em; try done.
    + by apply run_safe, loop_check_safe.
    + destruct (_ || _) eqn:Ef; [|done]. by apply run_safe, loop_wake_safe.
    + by apply run_safe, loop_cancel_safe.
    + by apply run_safe, loop_join_safe.
    + destruct (pc_of s w) as [[]|]; try done; by apply run_safe, fuse_join_worker_safe.
    + by apply run_safe, loop_finish_safe.
  - destruct (pc_of s w) as [[]|] eqn:Epc; try done. by apply run_safe, work_head_safe.
  - destruct (pc_of s w) as [[]|] eqn:Epc; try done. destruct (receive_ok s w r) eqn:Er; [|done].
    by apply run_safe, work_received_safe.
  - destruct (st_threads s !! w) as [[[] []]|] eqn:Et; try done. by apply run_safe, cancelled_safe.
  - destruct (pc_of s w) as [[]|] eqn:Epc; try done. destruct (env_ok s e) eqn:Ee; [|done].
    by apply run_safe, work_begin_safe.
  - destruct (pc_of s w) as [[]|] eqn:Epc; try done. by apply run_safe, work_end_safe.
  - destruct (pc_of s w) as [[]|] eqn:Epc; try done. by apply run_safe, work_leave_safe.
  - destruct (pc_of s w) as [[]|] eqn:Epc; try done. by apply run_safe, work_post_safe.
  - destruct (pc_of s w) as [[]|] eqn:Epc; try done. by eapply run_safe, ref_safe.
  - destruct (bool_decide (c ∈ st_refs s)) eqn:Ec; [|done]. apply bool_decide_eq_true in Ec. by apply run_safe, unref_safe.
  - by apply run_safe, exit_safe.
  - by apply run_safe, error_safe.
Qed.

Lemma pool_inv_init io : pool_inv (pool_init io).
Proof.
  exists []. split; [|done]. split; cbn; try done.
  - exists ∅. split; cbn; try set_solver.
    + intros c. unfold held. rewrite lookup_empty bool_decide_false; [by intros [? ?]|]. cbn. lia.
    + split_and!; [done|..]; intros x; unfold data; rewrite ?fmap_empty ?lookup_empty; [by intros [? ?]|by intros [? ?]|set_solver].
  - intros w. rewrite !lookup_empty. split; [by intros [? ?]|by intros [_ [? ?]]].
Qed.

Lemma run_events_inv evs s s' : pool_inv s -> forallb configured evs = true -> run_events evs s = Some s' -> pool_inv s'.
Proof.
  revert s. induction evs as [|ev evs IH]; intros s Hp Hc; cbn in *; [by intros [= <-]|].
  apply andb_true_iff in Hc as [Hc1 Hc2]. destruct (exec ev s) as [o|] eqn:E; [|done].
  destruct (exec_safe ev s o Hp Hc1 E) as (s1 & -> & Hp1). by apply IH.
Qed.
End move.
