(* ===== verification/LoopMtEnd.v ===== *)
(** * The shutdown of the worker pool

    What each event of [LoopMt] does to the positions of the threads; a measure
    that every step of a thread decreases once the session has exited; the
    theorems about the pool. *)
From S2P Require Import Prelude LoopMt LoopMtSafe.

(** ** What the sections do to the positions of the threads *)

Definition pcs (s : pool) : gmap Z wpc := th_pc <$> st_threads s.

(** Positions of the workers and of the loop, [se->exited], the semaphore. *)
Definition view (s : pool) := (pcs s, st_main s, st_exited s, finish <$> st_mt s).

(** When [m] returns, the view has changed by [f]. *)
Definition shifts {A} (m : MP A) (s : pool) (R : gmap Z wpc * mpc * bool * option Z -> Prop) : Prop :=
  forall a s', m s = Ok (a, s') -> R (view s').

(** [m] does not change it. *)
Definition keeps {A} (m : MP A) : Prop := forall s a s', m s = Ok (a, s') -> view s' = view s.

Create HintDb keeps.

Lemma keeps_bind {A B} (m : MP A) (f : A -> MP B) : keeps m -> (forall a, keeps (f a)) -> keeps (m ≫= f).
Proof. intros Hm Hf s b s' (a & s1 & H1 & H2)%bind_Ok. rewrite (Hf _ _ _ _ H2). by eapply Hm. Qed.
Lemma keeps_ret {A} (a : A) : keeps (mret a).
Proof. by intros s b s' [= <- <-]. Qed.
Lemma keeps_gets {A} (f : pool -> A) : keeps (gets f).
Proof. by intros s b s' [= <- <-]. Qed.
Lemma keeps_modify f : (forall s, view (f s) = view s) -> keeps (modify f).
Proof. intros Hf s b s' [= <- <-]. apply Hf. Qed.
Lemma keeps_deref {A} (o : option A) : keeps (deref o).
Proof. destruct o; [apply keeps_ret|]. by intros s b s'. Qed.
Lemma keeps_assert b : keeps (assert b : MP unit).
Proof. destruct b; by intros s c s'; cbn; intros [= <- <-]. Qed.

#[local] Hint Resolve keeps_ret keeps_gets keeps_deref keeps_assert : keeps.
#[local] Hint Extern 1 (keeps (modify _)) => (apply keeps_modify; done) : keeps.

Ltac keeps_tac := repeat first [progress intros | solve [eauto 2 with keeps] | case_match | simple apply keeps_bind].

Lemma keeps_mt_read : keeps mt_read.
Proof. unfold mt_read. keeps_tac. Qed.
#[local] Hint Resolve keeps_mt_read : keeps.

Lemma keeps_mt_write f : (forall mt, finish (f mt) = finish mt) -> keeps (mt_write f).
Proof.
  intros Hf s [] s' (mt & s1 & H1 & H2)%bind_Ok. unfold mt_read in H1. apply bind_Ok in H1 as (o & s2 & [= <- <-] & H3).
  destruct (st_mt s) as [mt0|] eqn:E; [|done]. injection H3 as <- <-. injection H2 as <-.
  unfold view. cbn. by rewrite E /= Hf.
Qed.
#[local] Hint Extern 1 (keeps (mt_write _)) => (apply keeps_mt_write; done) : keeps.

Lemma keeps_worker_read w : keeps (worker_read w).
Proof. unfold worker_read. keeps_tac. Qed.
#[local] Hint Resolve keeps_worker_read : keeps.
Lemma keeps_worker_write w f : keeps (worker_write w f).
Proof. unfold worker_write. keeps_tac. Qed.
#[local] Hint Resolve keeps_worker_write : keeps.
Lemma keeps_malloc : keeps malloc.
Proof. unfold malloc. keeps_tac. Qed.
#[local] Hint Resolve keeps_malloc : keeps.
Lemma keeps_list_add w n : keeps (list_add_worker w n).
Proof. unfold list_add_worker. keeps_tac. Qed.
Lemma keeps_list_del w : keeps (list_del_worker w).
Proof. unfold list_del_worker. keeps_tac. Qed.
Lemma keeps_buf_free w : keeps (fuse_buf_free w).
Proof. unfold fuse_buf_free. keeps_tac. Qed.
Lemma keeps_chan_put c : keeps (fuse_chan_put c).
Proof. unfold fuse_chan_put, close_fd. keeps_tac. Qed.
Lemma keeps_chan_get c : keeps (fuse_chan_get c).
Proof. unfold fuse_chan_get. keeps_tac. Qed.
Lemma keeps_free_worker w : keeps (free_worker w).
Proof. unfold free_worker. keeps_tac. Qed.
#[local] Hint Resolve keeps_list_add keeps_list_del keeps_buf_free keeps_chan_put keeps_chan_get keeps_free_worker : keeps.
Lemma keeps_clone_chan e : keeps (fuse_clone_chan e).
Proof. unfold fuse_clone_chan, fuse_clone_chan_fd_default, fuse_chan_new, new_fd, close_fd. keeps_tac. Qed.
Lemma keeps_receive_buffer w r : keeps (receive_buffer w r).
Proof. unfold receive_buffer. keeps_tac. Qed.
Lemma keeps_worker_opcode w op : keeps (worker_opcode w op).
Proof. unfold worker_opcode. keeps_tac. Qed.
#[local] Hint Resolve keeps_clone_chan keeps_receive_buffer keeps_worker_opcode : keeps.

Lemma set_pc_view w pc s a s' : set_pc w pc s = Ok (a, s') ->
  view s' = (<[w := pc]> (pcs s), st_main s, st_exited s, finish <$> st_mt s) /\ st_mt s' = st_mt s.
Proof.
  intros (t & s1 & H1 & [= <- <-])%bind_Ok. apply bind_Ok in H1 as (o & s2 & [= <- <-] & H3).
  destruct (st_threads s !! w) as [t0|] eqn:E; [|done]. injection H3 as <- <-. split; [|done].
  unfold view, pcs. cbn. by rewrite fmap_insert.
Qed.

(** ** The abstract pool *)

(** Only the positions, the exit flag and the semaphore. *)
Abbreviation aview := (gmap Z wpc * mpc * bool * option Z)%type.

Definition winding (m : mpc) : bool := match m with MJoin | MJoining _ => true | _ => false end.

Definition is_received (pc : wpc) : bool := match pc with WReceived _ _ => true | _ => false end.
Definition is_busy (pc : wpc) : bool := match pc with WBusy _ => true | _ => false end.

(** A worker ends only when the session has exited: by posting the semaphore, or
    when the loop is already joining. *)
Inductive vstep : event -> aview -> aview -> Prop :=
  | VStart cfg ok e p x f p' m' x' f' : m' <> MSem -> vstep (EStart cfg ok e) (p, MStart, x, f) (p', m', x', f')
  | VHead w p m x f : p !! w = Some WHead ->
      vstep (EHead w) (p, m, x, f) (<[w := if x then WPost else WReceiving]> p, m, x, f)
  | VReceive w r pc p m (x x' : bool) f : p !! w = Some WReceiving -> (x = true -> x' = true) ->
      pc = WHead \/ pc = WPost \/ is_received pc = true ->
      vstep (EReceive w r) (p, m, x, f) (<[w := pc]> p, m, x', f)
  | VCancelled w p m x f : p !! w = Some WReceiving -> winding m = true ->
      vstep (ECancelled w) (p, m, x, f) (<[w := WDone]> p, m, x, f)
  | VBegin w e pc0 pc p m x f : p !! w = Some pc0 -> is_received pc0 = true ->
      is_busy pc = true \/ pc = WDone /\ winding m = true ->
      vstep (EBegin w e) (p, m, x, f) (<[w := pc]> p, m, x, f)
  | VBeginNew w e pc0 pc n p m x f : p !! w = Some pc0 -> is_received pc0 = true -> is_busy pc = true ->
      vstep (EBegin w e) (p, m, x, f) (<[n := WHead]> (<[w := pc]> p), m, x, f)
  | VEnd w pc0 pc p m x f : p !! w = Some pc0 -> is_busy pc0 = true ->
      pc = WHead \/ pc = WLeaving \/ pc = WDone /\ winding m = true ->
      vstep (EEnd w) (p, m, x, f) (<[w := pc]> p, m, x, f)
  | VLeave w p m x f : p !! w = Some WLeaving -> vstep (ELeave w) (p, m, x, f) (delete w p, m, x, f)
  | VPost w p m x f : p !! w = Some WPost ->
      vstep (EPost w) (p, m, x, Some f) (<[w := WDone]> p, m, x, Some (f + 1))
  | VRef w v : vstep (ERef w) v v
  | VUnref c v : vstep (EUnref c) v v
  | VError e v : vstep (EError e) v v
  | VExit p m x f : vstep EExit (p, m, x, f) (p, m, true, f)
  | VCheck sig p (x : bool) f : vstep (EMain sig) (p, MCheck, x, f) (p, if x then MCancel else MSem, x, f)
  | VWake (sig : bool) p x f : sig = true \/ 0 < f ->
      vstep (EMain sig) (p, MSem, x, Some f) (p, MCheck, x, Some (if sig then f else f - 1))
  | VCancel sig p x f : vstep (EMain sig) (p, MCancel, x, f) (p, MJoin, x, f)
  | VJoin sig p m x f : (exists err, m = MFinish err) \/ (exists w, m = MJoining w) ->
      vstep (EMain sig) (p, MJoin, x, f) (p, m, x, f)
  | VJoining sig w p x f : p !! w = Some WDone ->
      vstep (EMain sig) (p, MJoining w, x, f) (delete w p, MJoin, x, f)
  | VFinish sig e e' p x f : vstep (EMain sig) (p, MFinish e, x, f) (p, MReturned e', false, None).

Lemma pcs_lookup s w pc : pc_of s w = Some pc -> pcs s !! w = Some pc.
Proof. unfold pc_of, pcs. by rewrite lookup_fmap. Qed.

Lemma run_Ok {A} (m : MP A) s s' : run m s = Some (Ok s') -> exists a, m s = Ok (a, s').
Proof. unfold run. destruct (m s) as [[a x]| |]; intros [= <-]. by exists a. Qed.

(** Split a run of a section; parts that keep the view are rewritten away. *)
Ltac view_inv :=
  repeat match goal with
  | H : (_ ≫= _) _ = Ok _ |- _ =>
      let a := fresh "a" in let s := fresh "s" in
      let H1 := fresh "Hrun" in let H2 := fresh "Hrun" in
      apply bind_Ok in H as (a & s & H1 & H2)
  | H : mret _ _ = Ok _ |- _ => injection H as <- <-
  | H : gets _ _ = Ok _ |- _ => injection H as <- <-
  | H : set_pc _ _ _ = Ok _ |- _ => apply set_pc_view in H as [? ?]
  end.

Lemma view_eq s s' : view s' = view s ->
  pcs s' = pcs s /\ st_main s' = st_main s /\ st_exited s' = st_exited s /\ finish <$> st_mt s' = finish <$> st_mt s.
Proof. by intros [= ? ? ? ?]. Qed.

Lemma start_thread_view e s r s' : fuse_loop_start_thread e s = Ok (r, s') ->
  view s' = view s \/ exists n, view s' = (<[n := WHead]> (pcs s), st_main s, st_exited s, finish <$> st_mt s).
Proof.
  unfold fuse_loop_start_thread. destruct (negb _); [intros [= <- <-]; by left|].
  assert (forall w mt, keeps (if clone_fd mt then
       ch ← fuse_clone_chan e;
       worker_write w (wk_set_ch ch);;
       match ch with
       | None => mt_write mt_no_clone
       | Some _ => mret tt
       end
     else mret tt)) as Hk by keeps_tac.
  intros (w & s1 & H1%keeps_malloc & H)%bind_Ok. apply bind_Ok in H as (? & s2 & [= <- <-] & H).
  apply bind_Ok in H as (mt & s3 & H3%keeps_mt_read & H). apply bind_Ok in H as (? & s4 & H4%Hk & H).
  change (view s3 = view s1) in H3. rewrite H3 H1 in H4. clear H1 H3.
  apply bind_Ok in H as (res & s5 & H5 & H). unfold fuse_start_thread in H5. destruct (e_create e).
  - apply bind_Ok in H5 as ([] & s6 & [= <-] & [= <- <-]). change (0 =? -1) with false in H. cbn iota in H. right. exists w.
    apply bind_Ok in H as (? & s7 & H7%keeps_list_add & H). apply bind_Ok in H as (? & s8 & H8 & [= <- <-]).
    apply keeps_mt_write in H8; [|done]. rewrite H8 H7. apply view_eq in H4 as (E1 & E2 & E3 & E4).
    unfold view, pcs in *. cbn. by rewrite fmap_insert E1 E2 E3 E4.
  - injection H5 as <- <-. change (-1 =? -1) with true in H. cbn iota in H. left. rewrite -H4.
    revert H. apply keeps_bind; [eauto with keeps|]. keeps_tac.
Qed.

(** [mt->exit] is set only in the joining loop. *)
Lemma exit_winding s ws mt : main_inv s ws -> ws <> [] -> st_mt s = Some mt -> mt_exit mt = true -> winding (st_main s) = true.
Proof.
  intros Hm Hne Hmt He. unfold main_inv, serving in Hm. rewrite Hmt in Hm. destruct (st_main s); try done; naive_solver.
Qed.

Section simulation.
Implicit Types s : pool.

(** A worker at a position where [mt] is in use. *)
Lemma at_mt s w pc : pool_inv s -> pc_of s w = Some pc -> pc <> WLeaving ->
  exists mt, st_mt s = Some mt /\ (mt_exit mt = true -> winding (st_main s) = true).
Proof.
  intros (ws & Hinv & Hmain) (t & Ht & <-)%pc_of_Some Hl.
  destruct (attached _ _ _ _ Hinv Ht Hl) as (Hw & _ & _ & _ & mt & Hmt). exists mt. split; [done|].
  eapply exit_winding; [done| |done]. intros ->. set_solver.
Qed.

Lemma mt_read_Ok s mt s' : mt_read s = Ok (mt, s') -> s' = s /\ st_mt s = Some mt.
Proof. intros (o & s1 & [= <- <-] & H)%bind_Ok. destruct (st_mt s); [|done]. by injection H as <- <-. Qed.

Lemma set_pc_vstep s s1 w pc a s' : view s1 = view s -> set_pc w pc s1 = Ok (a, s') ->
  view s' = (<[w := pc]> (pcs s), st_main s, st_exited s, finish <$> st_mt s).
Proof. intros (E1 & E2 & E3 & E4)%view_eq [-> _]%set_pc_view. by rewrite E1 E2 E3 E4. Qed.

Lemma head_vstep s w a s' : pc_of s w = Some WHead -> work_head w s = Ok (a, s') -> vstep (EHead w) (view s) (view s').
Proof.
  intros Hpc%pcs_lookup (mt & s1 & [-> _]%mt_read_Ok & H)%bind_Ok. apply bind_Ok in H as (x & s2 & [= <- <-] & H).
  apply set_pc_view in H as [-> _]. by apply VHead.
Qed.

Lemma receive_vstep s w r a s' : pc_of s w = Some WReceiving -> work_received w r s = Ok (a, s') ->
  vstep (EReceive w r) (view s) (view s').
Proof.
  intros Hpc%pcs_lookup (? & s1 & H1%keeps_receive_buffer & H)%bind_Ok. apply bind_Ok in H as (? & s2 & H2 & H).
  apply view_eq in H1 as (E1 & E2 & E3 & E4).
  assert (pcs s2 = pcs s /\ st_main s2 = st_main s /\ finish <$> st_mt s2 = finish <$> st_mt s /\
    (st_exited s = true -> st_exited s2 = true)) as (F1 & F2 & F4 & Fx).
  { destruct (rv_exit r); injection H2 as <- <-; cbn; split_and!; try done. all: congruence. }
  cbv zeta in H. destruct (rv_res r =? - EINTR).
  { apply set_pc_view in H as [-> _]. rewrite F1 F2 F4. apply VReceive; auto. }
  destruct (rv_res r <=? 0).
  2:{ apply set_pc_view in H as [-> _]. rewrite F1 F2 F4. apply VReceive; auto. }
  apply bind_Ok in H as (? & s3 & H3 & [-> _]%set_pc_view). destruct (rv_res r <? 0).
  - apply bind_Ok in H3 as (? & s4 & [= <- <-] & H4). apply keeps_mt_write in H4; [|done].
    apply view_eq in H4 as (-> & -> & -> & ->).
    rewrite (F1 : pcs (set_exited true s2) = pcs s) (F2 : st_main (set_exited true s2) = st_main s)
      (F4 : finish <$> st_mt (set_exited true s2) = finish <$> st_mt s). apply VReceive; auto.
  - injection H3 as <- <-. rewrite F1 F2 F4. apply VReceive; auto.
Qed.

Lemma begin_vstep s w e is_fd op a s' : pool_inv s -> pc_of s w = Some (WReceived is_fd op) ->
  work_begin e w is_fd op s = Ok (a, s') -> vstep (EBegin w e) (view s) (view s').
Proof.
  intros Hp Hpc H. destruct (at_mt _ _ _ Hp Hpc) as (mt & Hmt & Hex); [done|]. apply pcs_lookup in Hpc.
  apply bind_Ok in H as (? & ? & [-> E]%mt_read_Ok & H). rewrite Hmt in E. injection E as <-.
  destruct (mt_exit mt).
  { apply set_pc_view in H as [-> _]. eapply VBegin; [done|done|]. auto. }
  apply bind_Ok in H as (f & s1 & H1 & H).
  assert (view s1 = view s) as Ev1.
  { revert H1. destruct (negb is_fd); [|by intros [= <- <-]]. apply keeps_bind; keeps_tac. }
  apply bind_Ok in H as (? & s2 & H2 & H).
  assert (view s2 = view s) as Ev2.
  { rewrite -Ev1. destruct (negb f); [|by injection H2 as <- <-]. by apply keeps_mt_write in H2. }
  apply bind_Ok in H as (? & s3 & H3%(set_pc_vstep s) & H); [|done].
  apply bind_Ok in H as (mt3 & ? & [-> _]%mt_read_Ok & H).
  destruct (_ && _); [|injection H as <- <-; rewrite H3; eapply VBegin; eauto].
  apply bind_Ok in H as (? & s4 & H4 & [= <- <-]). destruct (start_thread_view _ _ _ _ H4) as [E|[n E]].
  - rewrite E H3. eapply VBegin; eauto.
  - injection H3 as G1 G2 G3 G4. rewrite E G1 G2 G3 G4. eapply VBeginNew; eauto.
Qed.

Lemma end_vstep s w f a s' : pool_inv s -> pc_of s w = Some (WBusy f) ->
  work_end w f s = Ok (a, s') -> vstep (EEnd w) (view s) (view s').
Proof.
  intros Hp Hpc H. destruct (at_mt _ _ _ Hp Hpc) as (mt & Hmt & Hex); [done|]. apply pcs_lookup in Hpc.
  apply bind_Ok in H as (? & s1 & H1 & H).
  assert (view s1 = view s /\ (forall mt1, st_mt s1 = Some mt1 -> mt_exit mt1 = mt_exit mt)) as [Ev1 Hx1].
  { destruct (negb f).
    - split; [by apply keeps_mt_write in H1|]. apply bind_Ok in H1 as (m0 & ? & [-> E]%mt_read_Ok & [= <- <-]).
      rewrite Hmt in E. injection E as <-. cbn. by intros mt1 [= <-].
    - injection H1 as <- <-. split; [done|]. rewrite Hmt. by intros mt1 [= <-]. }
  apply bind_Ok in H as (mt1 & ? & [-> Hm1]%mt_read_Ok & H). rewrite (Hx1 mt1 Hm1) in H.
  destruct (_ && _ && _).
  2:{ apply (set_pc_vstep s) in H as ->; [|done]. eapply VEnd; eauto. }
  destruct (mt_exit mt).
  { apply (set_pc_vstep s) in H as ->; [|done]. eapply VEnd; eauto. }
  apply bind_Ok in H as (? & s2 & H2%keeps_list_del & H). apply bind_Ok in H as (? & s3 & H3 & H).
  apply keeps_mt_write in H3; [|done]. apply (set_pc_vstep s) in H as ->; [|by rewrite H3 H2]. eapply VEnd; eauto.
Qed.

Lemma leave_vstep s w a s' : pc_of s w = Some WLeaving -> work_leave w s = Ok (a, s') -> vstep (ELeave w) (view s) (view s').
Proof.
  intros Hpc%pcs_lookup (? & s1 & H1%keeps_buf_free & H)%bind_Ok. apply bind_Ok in H as (k & s2 & H2%keeps_worker_read & H).
  apply bind_Ok in H as (? & s3 & H3%keeps_chan_put & H). apply bind_Ok in H as (? & s4 & H4%keeps_free_worker & [= <- <-]).
  rewrite H3 H2 H1 in H4. apply view_eq in H4 as (E1 & E2 & E3 & E4). unfold view, pcs in *. cbn.
  rewrite fmap_delete E1 E2 E3 E4. by apply VLeave.
Qed.

Lemma post_vstep s w a s' : pc_of s w = Some WPost -> work_post w s = Ok (a, s') -> vstep (EPost w) (view s) (view s').
Proof.
  intros Hpc%pcs_lookup (mt & ? & [-> Hmt]%mt_read_Ok & H)%bind_Ok. apply bind_Ok in H as (? & s1 & H1 & H).
  apply bind_Ok in H1 as (? & ? & [-> E]%mt_read_Ok & [= <- <-]). rewrite Hmt in E. injection E as <-.
  apply set_pc_view in H as [-> _]. unfold view. cbn. rewrite Hmt. cbn. by apply VPost.
Qed.

Lemma assert_Ok b s a s' : assert b s = Ok (a, s') -> s' = s.
Proof. unfold assert. destruct b; [by intros [= _ <-]|done]. Qed.

(** Cancelling leaves the threads where they are. *)
Lemma cancel_all_view fuel w s a s' : cancel_all fuel w s = Ok (a, s') -> view s' = view s.
Proof.
  revert w s. induction fuel as [|fuel IH]; intros w s; cbn; [done|].
  destruct (w =? main_w); [by intros [= <- <-]|]. intros (? & s1 & H1 & H)%bind_Ok.
  apply bind_Ok in H as (k & s2 & H2%keeps_worker_read & H%IH). rewrite H H2. clear H H2.
  apply bind_Ok in H1 as (t & s3 & H3 & H1). apply bind_Ok in H3 as (? & ? & [= <- <-] & H3).
  destruct (st_threads s !! w) as [t0|] eqn:Et; [|done]. injection H3 as <- <-.
  apply bind_Ok in H1 as (? & ? & ->%assert_Ok & [= <- <-]).
  unfold view, pcs. cbn. rewrite fmap_insert insert_id //. by rewrite lookup_fmap Et.
Qed.

Lemma cancel_vstep s sig a s' : st_main s = MCancel -> loop_cancel s = Ok (a, s') -> vstep (EMain sig) (view s) (view s').
Proof.
  intros Em (n & ? & [= <- <-] & H)%bind_Ok. apply bind_Ok in H as (k & s1 & H1%keeps_worker_read & H).
  apply bind_Ok in H as (? & s2 & H2%cancel_all_view & H). apply bind_Ok in H as (? & s3 & H3 & [= <- <-]).
  apply keeps_mt_write in H3; [|done]. rewrite H2 H1 in H3. apply view_eq in H3 as (E1 & E2 & E3 & E4).
  unfold view, pcs in *. cbn. rewrite E1 E3 E4 Em. apply VCancel.
Qed.

Lemma join_vstep s sig a s' : st_main s = MJoin -> loop_join s = Ok (a, s') -> vstep (EMain sig) (view s) (view s').
Proof.
  intros Em (mt & ? & [-> _]%mt_read_Ok & H)%bind_Ok. apply bind_Ok in H as (k & s1 & H1%keeps_worker_read & [= <- <-]).
  apply view_eq in H1 as (E1 & E2 & E3 & E4). unfold view, pcs in *. cbn. rewrite E1 E3 E4 Em. apply VJoin.
  destruct (_ =? _); eauto.
Qed.

(** A thread that is joined has ended. *)
Lemma joining_done s sig w a s' : pool_inv s -> st_main s = MJoining w ->
  match pc_of s w with Some WDone | None => true | _ => false end = true ->
  fuse_join_worker w s = Ok (a, s') -> vstep (EMain sig) (view s) (view s').
Proof.
  intros (ws & Hinv & Hmain) Em Hpc H. unfold main_inv in Hmain. rewrite Em in Hmain. destruct Hmain as [(_ & (mt & Hmt & _) & _) Hw].
  assert (is_Some (st_threads s !! w)) as [t Ht].
  { pose proof (ti_ring _ _ Hinv) as Hr. unfold ring_of in Hr. rewrite Hmt in Hr. destruct Hr as [[[Hn _]%list.NoDup_cons Hc] _].
    apply (ti_dom _ _ Hinv). split; [set_solver|]. eapply chain_dom; [done|set_solver]. }
  assert (pcs s !! w = Some WDone) as Hd.
  { unfold pc_of in Hpc. unfold pcs. rewrite lookup_fmap. rewrite Ht in Hpc |- *. cbn in *. by destruct (th_pc t). }
  apply bind_Ok in H as (? & ? & [= <- <-] & H). apply bind_Ok in H as (? & s1 & H1%keeps_list_del & H).
  apply bind_Ok in H as (? & s2 & H2%keeps_buf_free & H). apply bind_Ok in H as (k & s3 & H3%keeps_worker_read & H).
  apply bind_Ok in H as (? & s4 & H4%keeps_chan_put & H). apply bind_Ok in H as (? & s5 & H5%keeps_free_worker & [= <- <-]).
  rewrite H4 H3 H2 H1 in H5. apply view_eq in H5 as (E1 & E2 & E3 & E4). unfold view, pcs in *. cbn in *.
  rewrite E1 E3 E4 fmap_delete Em. by apply VJoining.
Qed.

Lemma finish_vstep s sig e a s' : st_main s = MFinish e -> loop_finish e s = Ok (a, s') -> vstep (EMain sig) (view s) (view s').
Proof.
  intros Em (? & ? & [= <- <-] & H)%bind_Ok. apply bind_Ok in H as (? & ? & [= <- <-] & H).
  apply bind_Ok in H as (? & s1 & H1%keeps_free_worker & H). apply bind_Ok in H as (? & ? & [= <- <-] & H).
  apply bind_Ok in H as (? & ? & [= <- <-] & [= <- <-]). apply view_eq in H1 as (E1 & E2 & E3 & E4).
  unfold view, pcs in *. cbn in *. rewrite E1 E4 Em. apply VFinish.
Qed.

Lemma wake_vstep s sig a s' : pool_inv s -> st_main s = MSem ->
  sig || match st_mt s with Some mt => 0 <? finish mt | None => true end = true ->
  loop_wake sig s = Ok (a, s') -> vstep (EMain sig) (view s) (view s').
Proof.
  intros (ws & _ & Hmain) Em Hf H. unfold main_inv in Hmain. rewrite Em in Hmain. destruct Hmain as (_ & mt & Hmt & _).
  rewrite Hmt in Hf. unfold loop_wake in H. destruct sig.
  - apply bind_Ok in H as (? & ? & [= <- <-] & [= <- <-]). unfold view. cbn. rewrite Em Hmt. cbn. apply (VWake true). by left.
  - apply bind_Ok in H as (? & s1 & H1 & [= <- <-]). apply bind_Ok in H1 as (? & ? & [-> E]%mt_read_Ok & H1).
    rewrite Hmt in E. injection E as <-. apply bind_Ok in H1 as (? & ? & [-> E]%mt_read_Ok & [= <- <-]).
    rewrite Hmt in E. injection E as <-. unfold view. cbn. rewrite Em Hmt. cbn. apply (VWake false). right. by apply Z.ltb_lt.
Qed.

Lemma cancelled_vstep s w a s' : pool_inv s -> st_threads s !! w = Some (mkThread WReceiving true) ->
  set_pc w WDone s = Ok (a, s') -> vstep (ECancelled w) (view s) (view s').
Proof.
  intros Hp Ht [-> _]%set_pc_view. assert (pc_of s w = Some WReceiving) as Hpc by (unfold pc_of; by rewrite Ht).
  destruct (at_mt _ _ _ Hp Hpc) as (mt & Hmt & Hex); [done|]. apply VCancelled; [by apply pcs_lookup|].
  apply Hex. destruct Hp as (ws & Hinv & _). by apply (ti_cancel _ _ Hinv w _ Ht).
Qed.

Lemma start_main s cfg ok e a s' : loop_start cfg ok e s = Ok (a, s') -> st_main s' <> MSem.
Proof.
  unfold loop_start. destruct (negb _); [by intros [= <- <-]|]. intros (? & ? & _ & H)%bind_Ok.
  apply bind_Ok in H as (? & ? & _ & H). apply bind_Ok in H as (? & ? & _ & H). apply bind_Ok in H as (err & ? & _ & [= <- <-]).
  cbn. by destruct (err =? 0).
Qed.

(** The events of the pool are steps of the abstract pool. *)
Lemma exec_vstep ev s s' : pool_inv s -> exec ev s = Some (Ok s') -> vstep ev (view s) (view s').
Proof.
  intros Hp. destruct ev; cbn [exec].
  - destruct (st_main s) eqn:Em; try done. destruct (env_ok s e); [|done]. intros [a H]%run_Ok. unfold view. rewrite Em.
    apply VStart. by eapply start_main.
  - destruct (st_main s) eqn:Em; try done.
    + intros [a (x & ? & [= <- <-] & [= <- <-])%bind_Ok]%run_Ok. unfold view, pcs. cbn. rewrite Em. apply VCheck.
    + destruct (_ || _) eqn:Ef; [|done]. intros [a H]%run_Ok. by eapply wake_vstep.
    + intros [a H]%run_Ok. by eapply cancel_vstep.
    + intros [a H]%run_Ok. by eapply join_vstep.
    + destruct (pc_of s w) as [[]|] eqn:Epc; try done; intros [a H]%run_Ok; eapply joining_done; rewrite ?Epc //.
    + intros [a H]%run_Ok. by eapply finish_vstep.
  - destruct (pc_of s w) as [[]|] eqn:Epc; try done. intros [a H]%run_Ok. by eapply head_vstep.
  - destruct (pc_of s w) as [[]|] eqn:Epc; try done. destruct (receive_ok s w r); [|done]. intros [a H]%run_Ok.
    by eapply receive_vstep.
  - destruct (st_threads s !! w) as [[[] []]|] eqn:Et; try done. intros [a H]%run_Ok. by eapply cancelled_vstep.
  - destruct (pc_of s w) as [[]|] eqn:Epc; try done. destruct (env_ok s e); [|done]. intros [a H]%run_Ok. by eapply begin_vstep.
  - destruct (pc_of s w) as [[]|] eqn:Epc; try done. intros [a H]%run_Ok. by eapply end_vstep.
  - destruct (pc_of s w) as [[]|] eqn:Epc; try done. intros [a H]%run_Ok. by eapply leave_vstep.
  - destruct (pc_of s w) as [[]|] eqn:Epc; try done. intros [a H]%run_Ok. by eapply post_vstep.
  - destruct (pc_of s w) as [[]|] eqn:Epc; try done. intros [a H]%run_Ok. assert (view s' = view s) as ->; [|apply VRef].
    revert H. apply keeps_bind; [apply keeps_worker_read|]. intros k. destruct (wk_ch k); [|apply keeps_ret].
    apply keeps_bind; [apply keeps_chan_get|]. keeps_tac.
  - destruct (bool_decide _); [|done]. intros [a H]%run_Ok. assert (view s' = view s) as ->; [|apply VUnref].
    revert H. apply keeps_bind; [apply keeps_chan_put|]. keeps_tac.
  - intros [a [= <- <-]]%run_Ok. apply VExit.
  - intros [a [= <- <-]]%run_Ok. apply (VError err (view s)).
Qed.
End simulation.

(** ** The measure *)

Section measure.
Implicit Types p : gmap Z wpc.

(** The steps a thread can still take once the session has exited; a worker with a
    message can start one more thread. *)
Definition weight (pc : wpc) : nat :=
  match pc with
  | WHead => 4 | WReceiving => 11 | WReceived _ _ => 10 | WBusy _ => 5
  | WLeaving => 3 | WPost => 3 | WDone => 2
  end.
Definition main_weight (m : mpc) : nat :=
  match m with
  | MStart => 7 | MSem => 6 | MCheck => 5 | MCancel => 4 | MJoin => 3 | MJoining _ => 2
  | MFinish _ => 1 | MReturned _ => 0
  end.

Definition tsum p : nat := map_fold (fun _ pc n => (weight pc + n)%nat) 0%nat p.

Lemma tsum_fresh p w pc : p !! w = None -> tsum (<[w := pc]> p) = (weight pc + tsum p)%nat.
Proof. intros Hw. unfold tsum. rewrite map_fold_insert_L //. intros. lia. Qed.

Lemma tsum_delete p w pc : p !! w = Some pc -> tsum p = (weight pc + tsum (delete w p))%nat.
Proof.
  intros Hw. rewrite -{1}(insert_id p w pc) // -insert_delete_eq. apply tsum_fresh. by rewrite lookup_delete_eq.
Qed.

Lemma tsum_insert p w pc pc' : p !! w = Some pc -> (tsum (<[w := pc']> p) + weight pc = tsum p + weight pc')%nat.
Proof.
  intros Hw. rewrite (tsum_delete p w pc) // -insert_delete_eq tsum_fresh; [by rewrite lookup_delete_eq|]. lia.
Qed.

Lemma tsum_insert_le p w pc : (tsum (<[w := pc]> p) <= weight pc + tsum p)%nat.
Proof.
  destruct (p !! w) as [pc0|] eqn:E; [|by rewrite tsum_fresh]. pose proof (tsum_insert p w pc0 pc E). lia.
Qed.

(** The steps left in a state. *)
Definition steps_left (v : aview) : nat := let '(p, m, _, _) := v in (main_weight m + tsum p)%nat.

(** Events that are steps of the threads: not the call of the loop, not what
    requests and handlers do. *)
Definition progress_ev (ev : event) : bool :=
  match ev with EStart _ _ _ | ERef _ | EUnref _ | EExit | EError _ => false | _ => true end.

(** The session has exited, or the loop has returned and only workers that left the
    pool remain. *)
Definition ending (v : aview) : Prop :=
  let '(p, m, x, _) := v in
  m <> MStart /\ (x = true \/ (exists e, m = MReturned e) /\ forall w pc, p !! w = Some pc -> pc = WLeaving).

Lemma vstep_decreases ev v v' : vstep ev v v' -> ending v ->
  if progress_ev ev then (steps_left v' < steps_left v)%nat else steps_left v' = steps_left v.
Proof.
  intros Hs. destruct Hs; cbn [progress_ev steps_left]; try done; unfold ending; intros [Hm Hx]; try done.
  - assert (x = true) as -> by (destruct Hx as [?|[_ Hl]]; [done|by apply Hl in H]).
    pose proof (tsum_insert p w _ WPost H). cbn in *. lia.
  - pose proof (tsum_insert p w _ pc H) as E. destruct H1 as [->|[->|Hr]]; [..|destruct pc; try done]; cbn in *; lia.
  - pose proof (tsum_insert p w _ WDone H). cbn in *. lia.
  - pose proof (tsum_insert p w _ pc H) as E. destruct pc0; try done.
    destruct H1 as [Hr|[-> _]]; [destruct pc; try done|]; cbn in *; lia.
  - pose proof (tsum_insert p w _ pc H) as E. pose proof (tsum_insert_le (<[w:=pc]> p) n WHead) as E'.
    destruct pc0, pc; try done; cbn in *; lia.
  - pose proof (tsum_insert p w _ pc H) as E. destruct pc0; try done.
    destruct H1 as [->|[->|[-> _]]]; cbn in *; lia.
  - pose proof (tsum_delete p w _ H). cbn in *. lia.
  - pose proof (tsum_insert p w _ WDone H). cbn in *. lia.
  - assert (x = true) as -> by (destruct Hx as [?|[[? ?] _]]; done). cbn. lia.
  - cbn. lia.
  - cbn. lia.
  - destruct H as [[? ->]|[? ->]]; cbn; lia.
  - pose proof (tsum_delete p w _ H). cbn in *. lia.
  - cbn. lia.
Qed.
End measure.

(** ** Reachable states *)

Definition reachable (s : pool) : Prop :=
  exists io evs, forallb configured evs = true /\ run_events evs (pool_init io) = Some s.

Lemma reachable_inv s : reachable s -> pool_inv s.
Proof. intros (io & evs & Hc & Hr). eapply run_events_inv; [apply (pool_inv_init io)|done|done]. Qed.

Lemma returned_leaving s e w pc : pool_inv s -> st_main s = MReturned e -> pcs s !! w = Some pc -> pc = WLeaving.
Proof.
  intros (ws & Hinv & Hmain) Em Hpc. unfold main_inv in Hmain. rewrite Em in Hmain.
  pose proof (ti_ring _ _ Hinv) as Hr. unfold ring_of in Hr. rewrite Hmain in Hr. destruct Hr as [-> _].
  unfold pcs in Hpc. apply lookup_fmap_Some in Hpc as (t & <- & Ht). pose proof (proj2 (ti_att _ _ Hinv w t Ht)) as Hn.
  clear -Hn. destruct (th_pc t); try done; destruct (not_elem_of_nil w); by apply Hn.
Qed.

(** Once ending, always ending. *)
Lemma ending_step ev s s' : pool_inv s -> pool_inv s' -> exec ev s = Some (Ok s') -> ending (view s) -> ending (view s').
Proof.
  intros Hp Hp' He%exec_vstep Hend; [|done].
  assert (st_main s' <> MStart /\ (st_exited s' = true \/ exists e, st_main s' = MReturned e)) as [H1 H2].
  { revert Hend. unfold ending, view in *. inversion He; subst; intros [Hm Hx]; split; try done; try (by left); try (by right; eauto).
    all: try (destruct Hx as [Hx|[[e0 Hx] _]]; [left|right]; eauto; congruence).
    - by destruct (st_exited s).
    - match goal with H : (exists _, _) \/ _ |- _ => destruct H as [[? H]|[? H]]; congruence end. }
  split; [done|]. destruct H2 as [?|[e Em]]; [by left|right]. split; [eauto|]. intros w pc. by apply (returned_leaving s' e).
Qed.

(** A worker that has ended has woken the loop. *)
Definition woken (v : aview) : Prop :=
  let '(p, m, _, f) := v in m = MSem -> forall w, p !! w = Some WDone -> exists n, f = Some n /\ 0 < n.

Lemma stopped_exited s w : pool_inv s -> pcs s !! w = Some WDone -> st_exited s = true.
Proof.
  intros (ws & Hinv & _) (t & Epc & Ht)%lookup_fmap_Some. apply (ti_stop _ _ Hinv w t Ht). unfold stopped. by rewrite Epc.
Qed.

Lemma finish_nonneg s n : pool_inv s -> finish <$> st_mt s = Some n -> 0 <= n.
Proof. intros (ws & Hinv & _) (mt & Hmt & ->)%fmap_Some. by apply (ti_count _ _ Hinv mt Hmt). Qed.

Lemma vstep_woken ev v v' : vstep ev v v' ->
  (let '(p, m, x, f) := v in (forall w, p !! w = Some WDone -> x = true) /\ forall n, f = Some n -> 0 <= n) ->
  woken v -> woken v'.
Proof.
  assert (forall (p : gmap Z wpc) w pc f, pc <> WDone -> (forall v, p !! v = Some WDone -> exists n : Z, f = Some n /\ 0 < n) ->
    forall v, <[w := pc]> p !! v = Some WDone -> exists n, f = Some n /\ 0 < n) as Hins.
  { intros p w pc f Hpc Hp u [[_ ->]|[_ Hv]]%lookup_insert_Some; [done|eauto]. }
  unfold woken. destruct 1; intros Hx Hw; try done; try destruct Hx as [Hx Hf]; intros Em; try done;
    try (subst m; try done; specialize (Hw eq_refl)).
  - apply Hins; [by destruct x|done].
  - apply Hins; [|done]. destruct H1 as [->|[->|?]]; try done. by intros ->.
  - apply Hins; [|done]. destruct H1 as [?|[_ ?]]; [by intros ->|done].
  - apply Hins; [done|]. apply Hins; [by intros ->|done].
  - apply Hins; [|done]. by destruct H1 as [->|[->|[_ ?]]].
  - intros u [_ Hu]%lookup_delete_Some. eauto.
  - intros u _. exists (f + 1). split; [done|]. specialize (Hf f eq_refl). lia.
  - destruct x; [done|]. intros u Hu. by apply Hx in Hu.
  - naive_solver.
Qed.

Lemma woken_step ev s s' : pool_inv s -> woken (view s) -> exec ev s = Some (Ok s') -> woken (view s').
Proof.
  intros Hp Hw He%exec_vstep; [|done]. eapply vstep_woken; [done| |done]. split.
  - intros w. by apply stopped_exited.
  - intros n. by apply finish_nonneg.
Qed.

Lemma woken_init io : woken (view (pool_init io)).
Proof. done. Qed.

(** Both invariants along a run. *)
Lemma run_events_woken evs s s' : forallb configured evs = true -> run_events evs s = Some s' ->
  pool_inv s -> woken (view s) -> pool_inv s' /\ woken (view s').
Proof.
  revert s. induction evs as [|ev evs IH]; intros s Hc; cbn [run_events forallb] in *; [by intros [= <-]|].
  apply andb_true_iff in Hc as [Hc1 Hc2]. destruct (exec ev s) as [o|] eqn:E; [|done]. intros Hr Hp Hw.
  destruct (exec_safe ev s o Hp Hc1 E) as (s1 & -> & Hp1). eapply IH; [done|done|done|]. by apply (woken_step ev s s1).
Qed.

(** The steps of the threads in a run that starts after the exit. *)
Lemma run_events_bound evs s s' : forallb configured evs = true -> run_events evs s = Some s' ->
  pool_inv s -> ending (view s) ->
  (length (filter progress_ev evs) + steps_left (view s') <= steps_left (view s))%nat /\ ending (view s').
Proof.
  revert s. induction evs as [|ev evs IH]; intros s Hc; cbn [run_events forallb] in *; [intros [= <-] _ ?; split; [rewrite filter_nil; cbn [length]; lia|done]|].
  apply andb_true_iff in Hc as [Hc1 Hc2]. destruct (exec ev s) as [o|] eqn:E; [|done]. intros Hr Hp Hend.
  destruct (exec_safe ev s o Hp Hc1 E) as (s1 & -> & Hp1).
  pose proof (vstep_decreases _ _ _ (exec_vstep _ _ _ Hp E) Hend) as Hd.
  destruct (IH s1 Hc2 Hr Hp1) as [Hb He1]; [by apply (ending_step ev s s1)|]. split; [|done].
  rewrite filter_cons. destruct (progress_ev ev) eqn:Ep; case_decide; cbn [length]; try done; lia.
Qed.

(** Steps that need neither a message from the kernel nor a signal. *)
Definition own_step (ev : event) : bool :=
  match ev with EReceive _ _ | EMain true => false | _ => progress_ev ev end.

Definition no_thread : start_env := mkEnv false None false None false false.

(** A worker that the loop waits for can go on. *)
Lemma joined_moves s w : pool_inv s -> st_main s = MJoining w ->
  exists ev, own_step ev = true /\ configured ev = true /\ is_Some (exec ev s).
Proof.
  intros (ws & Hinv & Hmain) Em. unfold main_inv in Hmain. rewrite Em in Hmain. destruct Hmain as [(Hx & (mt & Hmt & He) & Hc) Hw].
  pose proof (ti_ring _ _ Hinv) as Hr. unfold ring_of in Hr. rewrite Hmt in Hr. destruct Hr as [[[Hn _]%list.NoDup_cons Hch] _].
  assert (is_Some (st_threads s !! w)) as [t Ht].
  { apply (ti_dom _ _ Hinv). split; [set_solver|]. eapply chain_dom; [done|set_solver]. }
  pose proof (Hc w t Hw Ht) as Hcan. pose proof (proj1 (ti_att _ _ Hinv w t Ht) Hw) as Hl.
  assert (pc_of s w = Some (th_pc t)) as Hpc by (unfold pc_of; by rewrite Ht).
  destruct (th_pc t) eqn:Epc; [exists (EHead w)|exists (ECancelled w)|exists (EBegin w no_thread)|exists (EEnd w)|done|exists (EPost w)|exists (EMain false)];
    (split; [done|split; [done|]]); cbn [exec]; rewrite ?Em ?Hpc; try by eexists.
  rewrite Ht. destruct t as [pc c]. cbn in *. subst. by eexists.
Qed.

(** In every phase after the wait something can go on. *)
Lemma ending_moves s : pool_inv s -> woken (view s) -> st_main s <> MStart ->
  (exists e, st_main s = MReturned e) \/
  (st_main s = MSem /\ forall w, pcs s !! w <> Some WDone /\ pcs s !! w <> Some WPost) \/
  exists ev s', own_step ev = true /\ exec ev s = Some (Ok s').
Proof.
  intros Hp Hw Hm.
  assert (forall ev, own_step ev = true -> configured ev = true -> is_Some (exec ev s) ->
    exists ev s', own_step ev = true /\ exec ev s = Some (Ok s')) as Hgo.
  { intros ev Ho Hc [o E]. destruct (exec_safe ev s o Hp Hc E) as (s' & -> & _). eauto. }
  destruct (st_main s) eqn:Em; try done; eauto; try (right; right; apply (Hgo (EMain false)); [done..|cbn; rewrite Em; by eexists]).
  - right. destruct (decide (map_Exists (fun _ pc => pc = WDone) (pcs s))) as [(w & pc & Hd & ->)|Hnd].
    { right. destruct (Hw Em w Hd) as (n & (mt & Hmt & ->)%fmap_Some & Hn). apply (Hgo (EMain false)); [done..|].
      cbn. rewrite Em Hmt. apply Z.ltb_lt in Hn. rewrite Hn. by eexists. }
    destruct (decide (map_Exists (fun _ pc => pc = WPost) (pcs s))) as [(w & pc & Hd & ->)|Hnp].
    { right. apply (Hgo (EPost w)); [done..|]. unfold pcs in Hd. rewrite lookup_fmap in Hd. cbn. unfold pc_of. rewrite Hd. by eexists. }
    left. split; [done|]. intros w. split; intros Hd; [apply Hnd|apply Hnp]; by eexists _, _.
  - right; right. destruct (joined_moves s w Hp Em) as (ev & ? & ? & ?). eauto.
Qed.

(** ** The theorems *)

(** C3: Under every schedule of the main thread, the workers, their requests and
    the device, nothing in the pool fails: no worker, channel, buffer, descriptor
    or [struct fuse_mt] is used after it is freed or freed twice, the ring of
    workers is never broken and the walk over it ends.  As long as the loop has not
    told the workers to stop, [numworker] is the length of the ring and at most
    [max_threads] (but one), [numavail] is the number of its workers that are not
    busy with a request (forgets do not count); and while the session has not
    exited, the ring is not empty and all its workers serve requests. *)
Theorem pool_safe (s : pool) : reachable s ->
  (forall ev o, configured ev = true -> exec ev s = Some o -> exists s', o = Ok s') /\
  (forall mt, st_mt s = Some mt -> mt_exit mt = false -> exists ws, ring (st_workers s) ws /\
     numworker mt = Z.of_nat (length ws) /\ numavail mt = Z.of_nat (length ws) - nbusy (st_threads s) ws /\
     numworker mt <= Z.max 1 (max_threads mt)) /\
  (st_main s = MSem -> st_exited s = false -> exists ws, ring (st_workers s) ws /\ ws <> [] /\
     forall w, w ∈ ws -> exists pc, pc_of s w = Some pc /\ pc <> WLeaving /\ pc <> WPost /\ pc <> WDone).
Proof.
  intros Hp%reachable_inv. split_and!.
  - intros ev o Hc He. destruct (exec_safe ev s o Hp Hc He) as (s' & -> & _). eauto.
  - intros mt Hmt He. destruct Hp as (ws & Hinv & _). pose proof (ti_ring _ _ Hinv) as Hr. unfold ring_of in Hr.
    rewrite Hmt in Hr. exists ws. split; [apply Hr|]. by apply (ti_count _ _ Hinv mt Hmt).
  - intros Em Hx. destruct Hp as (ws & Hinv & Hmain). unfold main_inv in Hmain. rewrite Em in Hmain.
    destruct Hmain as (Hne & mt & Hmt & _). pose proof (ti_ring _ _ Hinv) as Hr. unfold ring_of in Hr. rewrite Hmt in Hr.
    destruct Hr as [Hr _]. exists ws. split_and!; [done|done|]. intros w Hw. pose proof Hr as [[Hn _]%list.NoDup_cons Hch].
    assert (is_Some (st_threads s !! w)) as [t Ht].
    { apply (ti_dom _ _ Hinv). split; [set_solver|]. eapply chain_dom; [done|set_solver]. }
    exists (th_pc t). unfold pc_of. rewrite Ht. split_and!; [done|by apply (ti_att _ _ Hinv w t Ht)|..]; intros Epc;
      rewrite (ti_stop _ _ Hinv w t Ht) // in Hx; unfold stopped; by rewrite Epc.
Qed.

(** C15: When [fuse_session_loop_mt] has returned, [mt] is not in use any more: the
    only threads left are workers that took themselves out of the pool and free what
    they own.  When they have ended, every worker and every buffer is freed, and
    once the requests have dropped their references every channel is freed and
    every cloned descriptor closed. *)
Theorem pool_released (s : pool) err : reachable s -> st_main s = MReturned err ->
  st_mt s = None /\ (forall w pc, pc_of s w = Some pc -> pc = WLeaving) /\
  (st_threads s = ∅ -> st_workers s = ∅ /\ st_bufs s = ∅ /\
     (st_refs s = [] -> st_chans s = ∅ /\ st_fds s = ∅)).
Proof.
  intros Hp%reachable_inv Em. split_and!.
  - destruct Hp as (ws & _ & Hmain). unfold main_inv in Hmain. by rewrite Em in Hmain.
  - intros w pc Hpc%pcs_lookup. by apply (returned_leaving s err w).
  - intros Hth. destruct Hp as (ws & Hinv & Hmain). unfold main_inv in Hmain. rewrite Em in Hmain.
    pose proof (ti_ring _ _ Hinv) as Hr. unfold ring_of in Hr. rewrite Hmain in Hr. destruct Hr as [_ Hm0].
    assert (st_workers s = ∅) as Hw.
    { apply map_empty. intros w. destruct (decide (w = main_w)) as [->|Hne]; [done|].
      apply eq_None_not_Some. intros Hs. destruct (proj2 (ti_dom _ _ Hinv w)) as [t Ht]; [done|]. by rewrite Hth in Ht. }
    destruct (ti_res _ _ Hinv) as [own [Hch Hown Href Hfd _ Hbuf _ _]]. rewrite Hw in Hown, Hbuf.
    split_and!; [done|apply set_eq; intros b; rewrite Hbuf; set_solver|]. intros Hrf. rewrite Hrf in Hch.
    assert (st_chans s = ∅) as Hc0.
    { apply map_empty. intros c. destruct (st_chans s !! c) as [ch|] eqn:E; [|done]. destruct (Hch c ch E) as (_ & Hp & _).
      unfold held in Hp. rewrite bool_decide_false in Hp; [|cbn in Hp; lia]. intros [w [b Hb]%Hown]. done. }
    split; [done|]. apply set_eq. intros fd. split; [|set_solver]. intros (c & ch & Hx & _)%Hfd. by rewrite Hc0 in Hx.
Qed.

(** C14: Once the session has exited, the loop and the workers together take only a
    bounded number of steps, whatever the schedule, the messages still received and
    the references requests take; and they do not get stuck: unless the loop has
    returned, some thread can take a step by itself, except while the loop sleeps in
    [sem_wait] and no worker has left its own loop yet. *)
Theorem shutdown_completes (s : pool) evs s' : reachable s -> st_exited s = true -> st_main s <> MStart ->
  forallb configured evs = true -> run_events evs s = Some s' ->
  (length (filter progress_ev evs) <= steps_left (view s))%nat /\
  ((exists err, st_main s' = MReturned err) \/
   (st_main s' = MSem /\ forall w, pcs s' !! w <> Some WDone /\ pcs s' !! w <> Some WPost) \/
   exists ev s'', own_step ev = true /\ exec ev s' = Some (Ok s'')).
Proof.
  intros (io & evs0 & Hc0 & Hr0) Hx Hm Hc Hr.
  destruct (run_events_woken evs0 _ s Hc0 Hr0 (pool_inv_init io) (woken_init io)) as [Hp Hw].
  assert (ending (view s)) as Hend by (split; [done|by left]).
  destruct (run_events_bound evs s s' Hc Hr Hp Hend) as [Hb [Hm' _]].
  destruct (run_events_woken evs s s' Hc Hr Hp Hw) as [Hp' Hw']. split; [lia|]. by apply ending_moves.
Qed.

(** ** Samples *)

(** Cloned descriptors 7 and 8; at most 10 threads, none idle. *)
Definition sample_env (fd : Z) : start_env := mkEnv true (Some fd) true None true true.
Definition sample_cfg : fuse_loop_config := mkCfg FUSE_LOOP_MT_V2_IDENTIFIER 1 0 10.
Definition sample_message : received := mkRv true 50 false 1 false.

(** The first worker takes a request, which starts a second one that waits for
    messages; the handler of the request calls [fuse_session_exit]; the first worker
    is one too many now and leaves. *)
Definition sample_exit : list event :=
  [EStart (Some sample_cfg) true (sample_env 7); EMain false; EHead 1; EReceive 1 sample_message;
   EBegin 1 (sample_env 8); EHead 4; ERef 1; EExit; EEnd 1].

(** A signal wakes the loop, which cancels the second worker, joins it and returns;
    the first one frees itself meanwhile. *)
Definition sample_shutdown : list event :=
  [EMain true; EMain false; EMain false; EMain false; ECancelled 4; ELeave 1; EMain false; EMain false; EMain false;
   EUnref 2].

Abbreviation sample_mid := (default (pool_init None) (run_events sample_exit (pool_init None))).
Abbreviation sample_end := (default (pool_init None) (run_events (sample_exit ++ sample_shutdown) (pool_init None))).

Lemma pool_safe_witness :
  (forall ev o, configured ev = true -> exec ev sample_mid = Some o -> exists s', o = Ok s') /\
  st_main sample_mid = MSem.
Proof.
  split; [|by vm_compute]. apply pool_safe. exists None, sample_exit. split; by vm_compute.
Defined.

Lemma pool_released_witness :
  st_main sample_end = MReturned 0 /\ st_workers sample_end = ∅ /\ st_fds sample_end = ∅.
Proof.
  destruct (pool_released sample_end 0) as (_ & _ & H).
  - exists None, (sample_exit ++ sample_shutdown). split; by vm_compute.
  - by vm_compute.
  - destruct H as (H1 & _ & H2); [by vm_compute|]. split; [by vm_compute|]. split; [done|]. apply H2. by vm_compute.
Defined.

Lemma shutdown_completes_witness :
  (length (filter progress_ev sample_shutdown) <= steps_left (view sample_mid))%nat.
Proof.
  apply (shutdown_completes sample_mid sample_shutdown sample_end).
  - exists None, sample_exit. split; by vm_compute.
  - by vm_compute.
  - by vm_compute.
  - by vm_compute.
  - by vm_compute.
Defined.

(** An exit can go unnoticed: in a reachable state the session has exited, the
    loop sleeps in [sem_wait], and no thread can take a step before a message or a
    signal arrives.  The worker whose handler called [fuse_session_exit] was one more
    than [max_idle] and left the pool, a path that does not post the semaphore. *)
Theorem exit_unnoticed : exists s, reachable s /\ st_exited s = true /\ st_main s = MSem /\
  st_threads s = {[4 := mkThread WReceiving false]} /\
  forall ev, own_step ev = true -> exec ev s = None.
Proof.
  exists (default (pool_init None) (run_events (sample_exit ++ [ELeave 1]) (pool_init None))). split_and!.
  - exists None, (sample_exit ++ [ELeave 1]). split; by vm_compute.
  - by vm_compute.
  - by vm_compute.
  - by vm_compute.
  - set (s := default _ _).
    assert (st_threads s = {[4 := mkThread WReceiving false]}) as Ht by by vm_compute.
    assert (st_main s = MSem) as Em by by vm_compute.
    assert (finish <$> st_mt s = Some 0) as (mt & Emt & Ef)%fmap_Some by by vm_compute.
    clearbody s. intros ev Hown.
    assert (forall w pc, pc_of s w = Some pc -> pc = WReceiving) as Hpc.
    { intros w pc. unfold pc_of. rewrite Ht. destruct (decide (4 = w)) as [<-|]; [rewrite lookup_singleton_eq; by intros [= <-]|].
      by rewrite lookup_singleton_ne. }
    destruct ev as [| | w | | w | w e | w | w | w | | | |]; cbn [own_step progress_ev] in Hown; try done; cbn [exec].
    + rewrite Em Emt. destruct signal; [done|]. by rewrite -Ef.
    + destruct (pc_of s w) as [pc|] eqn:E; [|done]. by rewrite (Hpc w pc E).
    + rewrite Ht. destruct (decide (4 = w)) as [<-|]; [by rewrite lookup_singleton_eq|by rewrite lookup_singleton_ne].
    + destruct (pc_of s w) as [pc|] eqn:E; [|done]. by rewrite (Hpc w pc E).
    + destruct (pc_of s w) as [pc|] eqn:E; [|done]. by rewrite (Hpc w pc E).
    + destruct (pc_of s w) as [pc|] eqn:E; [|done]. by rewrite (Hpc w pc E).
    + destruct (pc_of s w) as [pc|] eqn:E; [|done]. by rewrite (Hpc w pc E).
Qed.
