(* ===== verification/Bound.v ===== *)
(** * Framing of the study's file protocol ([custom_include/bound.h], [bound.c])

    Client and server exchange fixed-size packets over a stream socket:
    [bound_send] cuts a message into packets, [bound_read] collects one packet
    from however many pieces the socket delivers it in.  A packet is the raw
    memory of [struct pkt], stale bytes included.  The theorem of the file: what
    [bound_send] sends, the receive loop of the study puts together again, for
    every way the stream is cut, when each write took a whole packet.
    [bound_send] notices a write that fails and not one that is cut short. *)
From S2P Require Import Prelude Wire.

(** ** The socket *)

(** One end of a connection: the bytes that will arrive, whether the other side
    closes after them, the bytes written, and the number of system calls made. *)
Record peer (X : Type) := mkPeer {
  p_in : list Z;
  p_eof : bool;
  p_out : list Z;
  p_tick : nat;
  p_x : X;     (** the rest of the state of the process *)
}.
Arguments mkPeer {X}.
Arguments p_in {X}.
Arguments p_eof {X}.
Arguments p_out {X}.
Arguments p_tick {X}.
Arguments p_x {X}.

(** The kernel's choices: how much the [i]-th call delivers when [n] bytes are
    asked for and [a] have arrived (negative on error), how much it takes when [n]
    are offered, and whether there is memory. *)
Class Sock := {
  rd : nat -> Z -> Z -> Z;
  wr : nat -> Z -> Z;
  mem : nat -> bool;
}.

(** A run in which no read fails and memory lasts: a blocking read delivers
    something as soon as there is something. *)
Class SockReads `{Sock} : Prop := {
  rd_progress : forall i n a, 0 < n -> 0 < a -> 0 < rd i n a;
  mem_ok : forall i, mem i = true;
}.

(** A run in which moreover no write fails or is cut short; [write] promises
    neither, and [bound_send] looks only for failure. *)
Class SockLaws `{Sock} : Prop := {
  laws_reads :: SockReads;
  wr_full : forall i n, 0 < n -> n <= wr i n;
}.

Section bound.
Context `{Sock} {X : Type}.
Abbreviation MP := (M (peer X)).

Definition set_in (w : peer X) v := mkPeer v (p_eof w) (p_out w) (S (p_tick w)) (p_x w).
Definition set_pout (w : peer X) v := mkPeer (p_in w) (p_eof w) v (S (p_tick w)) (p_x w).
Definition set_x (w : peer X) (v : X) : peer X := mkPeer (p_in w) (p_eof w) (p_out w) (p_tick w) v.

(** [read(sd, ptr, n)]: the result and the bytes stored.  With nothing to read
    and nothing closed it blocks. *)
Definition sys_read (n : Z) : MP (Z * list Z) :=
  fun w =>
    match p_in w with
    | [] => if p_eof w then Ok ((0, []), set_in w []) else Diverge
    | bs =>
      let k := rd (p_tick w) n (Z.of_nat (length bs)) in
      if k <=? 0 then Ok ((k, []), set_in w bs)
      else let k := Z.min k (Z.min n (Z.of_nat (length bs))) in
           Ok ((k, take (Z.to_nat k) bs), set_in w (drop (Z.to_nat k) bs))
    end.

(** [write(sd, ptr, n)]. *)
Definition sys_write (bs : list Z) : MP Z :=
  fun w =>
    let k := wr (p_tick w) (Z.of_nat (length bs)) in
    if k <? 0 then Ok (-1, set_pout w (p_out w))
    else let k := Z.min k (Z.of_nat (length bs)) in
         Ok (k, set_pout w (p_out w ++ take (Z.to_nat k) bs)).

(** [malloc] and [calloc]: whether it succeeds; a result used without a check
    must be there. *)
Definition sys_alloc : MP bool :=
  fun w => Ok (mem (p_tick w), mkPeer (p_in w) (p_eof w) (p_out w) (S (p_tick w)) (p_x w)).
Definition must_alloc : MP unit := ok ← sys_alloc; assert ok.

(** ** [struct pkt] *)

Definition BUF_SIZE : Z := 1024.
Definition sizeof_pkt : Z := 1048.

(** The fields, at their offsets in the memory of the structure. *)
Definition pkt_end (p : list Z) : Z := swrap 32 (field p 0 4).
Definition pkt_size (p : list Z) : Z := field p 8 8.
Definition pkt_total (p : list Z) : Z := field p 16 8.
Definition pkt_buf (p : list Z) : list Z := drop 24 p.

(** The loop of [bound_read]. *)
Fixpoint bound_read_loop (fuel : nat) (buf : list Z) (total_read read_sz : Z) : MP (Z * list Z) :=
  if 0 <? read_sz then
    match fuel with
    | O => diverge
    | S fuel =>
      '(read_cnt, bs) ← sys_read read_sz;
      if read_cnt <=? 0 then mret (read_cnt, buf)
      else bound_read_loop fuel (blit buf total_read bs) (total_read + read_cnt) (read_sz - read_cnt)
    end
  else mret (swrap 32 (pkt_size buf), buf).

(** [bound_read(sd, &buf)]: the result and the packet memory afterwards. *)
Definition bound_read (buf : list Z) : MP (Z * list Z) :=
  bound_read_loop (Z.to_nat sizeof_pkt) buf 0 sizeof_pkt.

(** The loop of [bound_send]. *)
Fixpoint bound_send_loop (fuel : nat) (buf data : list Z) (data_size remain_len loc : Z) : MP (Z * list Z) :=
  if 0 <? remain_len then
    match fuel with
    | O => diverge
    | S fuel =>
      let send_size := if BUF_SIZE <? remain_len then BUF_SIZE else remain_len in
      let buf := blit buf 24 (take (Z.to_nat send_size) (drop (Z.to_nat loc) data)) in
      let buf := blit buf 8 (le 8 send_size) in
      let buf := blit buf 0 (le 4 (int_of_bool (remain_len <=? BUF_SIZE))) in
      let buf := blit buf 16 (le 8 data_size) in
      write_cnt ← sys_write buf;
      if write_cnt =? -1 then mret (write_cnt, buf)
      else bound_send_loop fuel buf data data_size (remain_len - send_size) (loc + send_size)
    end
  else mret (swrap 32 data_size, buf).

(** [bound_send(sd, &buf, data, data_size)] with all of [data]. *)
Definition bound_send (buf data : list Z) : MP (Z * list Z) :=
  let n := Z.of_nat (length data) in
  bound_send_loop (S (length data)) buf data n n 0.

(** The receive loop of [fuse_study_read]: packets are appended to a buffer of
    [total_size] bytes until one is marked as the last.  The result of
    [bound_read] is ignored; writing behind the buffer is an error of the
    program. *)
Fixpoint recv_loop (fuel : nat) (pkt : list Z) (data : option (Z * list Z)) : MP (list Z * list Z) :=
  match fuel with
  | O => diverge
  | S fuel =>
    '(_, pkt) ← bound_read pkt;
    (match data with None => must_alloc | Some _ => mret tt end);;
    let '(cap, bytes) := default (pkt_total pkt, []) data in
    let size := pkt_size pkt in
    assert (size <=? BUF_SIZE);;
    assert (Z.of_nat (length bytes) + size <=? cap);;
    let bytes := bytes ++ take (Z.to_nat size) (pkt_buf pkt) in
    if pkt_end pkt =? 1 then mret (bytes, pkt)
    else recv_loop fuel pkt (Some (cap, bytes))
  end.

Definition recv_message (pkt : list Z) : MP (list Z * list Z) :=
  fun w => recv_loop (S (length (p_in w))) pkt None w.

(** ** Packets *)

(** A packet as it goes out: the padding and the bytes behind the payload are
    whatever the memory held. *)
Definition packet (old chunk : list Z) (end_ : bool) (total : Z) : list Z :=
  le 4 (int_of_bool end_) ++ take 4 (drop 4 old) ++ le 8 (Z.of_nat (length chunk)) ++ le 8 total ++
  chunk ++ drop (24 + length chunk) old.

(** Overwriting a part by one of the same length. *)
Lemma blit_app {A} (a b c src : list A) :
  length src = length b -> blit (a ++ b ++ c) (Z.of_nat (length a)) src = a ++ src ++ c.
Proof.
  intros Hl. unfold blit. rewrite Nat2Z.id take_app_length. do 2 f_equal.
  rewrite app_assoc drop_app_length' //. rewrite length_app. lia.
Qed.

Lemma fill_packet old chunk e total :
  Z.of_nat (length old) = sizeof_pkt -> Z.of_nat (length chunk) <= BUF_SIZE ->
  blit (blit (blit (blit old 24 chunk) 8 (le 8 (Z.of_nat (length chunk)))) 0 (le 4 (int_of_bool e))) 16 (le 8 total) =
  packet old chunk e total.
Proof.
  unfold sizeof_pkt, BUF_SIZE. intros Hl Hc.
  assert (exists a p s t b r, old = a ++ p ++ s ++ t ++ b ++ r /\ length a = 4%nat /\ length p = 4%nat /\
    length s = 8%nat /\ length t = 8%nat /\ length b = length chunk) as (a & p & s & t & b & r & -> & Ha & Hp & Hs & Ht & Hb).
  { exists (take 4 old), (take 4 (drop 4 old)), (take 8 (drop 8 old)), (take 8 (drop 16 old)),
      (take (length chunk) (drop 24 old)), (drop (24 + length chunk) old).
    rewrite !length_take !length_drop. split_and!; [|lia..].
    rewrite -(drop_drop old (length chunk) 24) take_drop.
    change (drop 24 old) with (drop (16 + 8) old). rewrite -(drop_drop old 8 16) take_drop.
    change (drop 16 old) with (drop (8 + 8) old). rewrite -(drop_drop old 8 8) take_drop.
    change (drop 8 old) with (drop (4 + 4) old). by rewrite -(drop_drop old 4 4) !take_drop. }
  unfold packet.
  assert (blit (a ++ p ++ s ++ t ++ b ++ r) 24 chunk = a ++ p ++ s ++ t ++ chunk ++ r) as ->.
  { pose proof (blit_app (a ++ p ++ s ++ t) b r chunk (eq_sym Hb)) as E. rewrite -!app_assoc in E.
    rewrite -E. f_equal. rewrite !length_app. lia. }
  assert (forall x, blit (a ++ p ++ s ++ t ++ chunk ++ r) 8 (le 8 x) = a ++ p ++ le 8 x ++ t ++ chunk ++ r) as ->.
  { intros x. pose proof (blit_app (a ++ p) s (t ++ chunk ++ r) (le 8 x)) as E. rewrite -!app_assoc in E.
    rewrite -E; [by rewrite length_le|]. f_equal. rewrite !length_app. lia. }
  assert (forall l x, blit (a ++ l) 0 (le 4 x) = le 4 x ++ l) as ->.
  { intros l x. apply (blit_app [] a l (le 4 x)). by rewrite length_le. }
  pose proof (fun q v => blit_app (le 4 (int_of_bool e) ++ p ++ q) t (chunk ++ r) (le 8 v)) as E.
  specialize (E (le 8 (Z.of_nat (length chunk))) total). rewrite -!app_assoc in E.
  rewrite length_app length_app !length_le Hp in E. rewrite E; [by rewrite Ht|].
  do 2 f_equal; [|do 3 f_equal].
  - rewrite drop_app_length' // take_app_length' //.
  - rewrite app_assoc app_assoc app_assoc app_assoc drop_app_length' //. rewrite !length_app. lia.
Qed.

Lemma length_packet old chunk e total :
  Z.of_nat (length old) = sizeof_pkt -> Z.of_nat (length chunk) <= BUF_SIZE ->
  Z.of_nat (length (packet old chunk e total)) = sizeof_pkt.
Proof.
  unfold packet, sizeof_pkt, BUF_SIZE. intros. rewrite !length_app !length_le length_take !length_drop. lia.
Qed.

Lemma packet_fields old chunk e total :
  Z.of_nat (length old) = sizeof_pkt -> Z.of_nat (length chunk) <= BUF_SIZE -> 0 <= total < 2 ^ 64 ->
  let p := packet old chunk e total in
  pkt_end p = int_of_bool e /\ pkt_size p = Z.of_nat (length chunk) /\ pkt_total p = total /\
  take (length chunk) (pkt_buf p) = chunk.
Proof.
  intros Hl Hc Ht p. unfold sizeof_pkt, BUF_SIZE in *. unfold pkt_end, pkt_size, pkt_total, pkt_buf.
  assert (length (take 4 (drop 4 old)) = 4%nat) as Hp by (rewrite length_take length_drop; lia).
  split_and!.
  - rewrite (field_at p [] 4 (int_of_bool e) _ eq_refl). by destruct e.
  - rewrite -(wrap_small 64 (Z.of_nat (length chunk))); [lia|].
    replace 8%nat with (length (le 4 (int_of_bool e) ++ take 4 (drop 4 old))) at 1 by (rewrite length_app length_le Hp; lia).
    eapply (field_at p _ 8). unfold p, packet. by rewrite -!app_assoc.
  - rewrite -(wrap_small 64 total); [lia|].
    replace 16%nat with (length (le 4 (int_of_bool e) ++ take 4 (drop 4 old) ++ le 8 (Z.of_nat (length chunk))))
      by (rewrite !length_app !length_le Hp; lia).
    eapply (field_at p _ 8). unfold p, packet. by rewrite -!app_assoc.
  - unfold p, packet. rewrite app_assoc app_assoc app_assoc drop_app_length'.
    + rewrite !length_app !length_le Hp. lia.
    + by rewrite take_app_length.
Qed.
End bound.

(** ** What is sent arrives *)

Section laws.
Context `{Sock} `{!SockReads} {X : Type}.
Implicit Types w : peer X.

(** Only the input, or only the output, of the peer changes. *)
Definition took w (rest : list Z) w' : Prop :=
  p_in w' = rest /\ p_out w' = p_out w /\ p_eof w' = p_eof w /\ p_x w' = p_x w.
Definition gave w (bs : list Z) w' : Prop :=
  p_out w' = p_out w ++ bs /\ p_in w' = p_in w /\ p_eof w' = p_eof w /\ p_x w' = p_x w.

Lemma sys_read_wp n w q rest :
  0 < n -> q <> [] -> n <= Z.of_nat (length q) -> p_in w = q ++ rest ->
  wp (sys_read n) (fun '(k, bs) w' => 1 <= k <= n /\ bs = take (Z.to_nat k) q /\ Z.of_nat (length bs) = k /\
    took w (drop (Z.to_nat k) q ++ rest) w') w.
Proof.
  intros Hn Hq Hl Hin. unfold wp, sys_read. rewrite Hin. destruct q as [|b q]; [done|]. cbn [app].
  set (a := b :: q) in *. change (b :: (q ++ rest)) with (a ++ rest).
  pose proof (rd_progress (p_tick w) n (Z.of_nat (length (a ++ rest))) Hn ltac:(by cbn)) as H1.
  rewrite (proj2 (Z.leb_gt _ 0)); [lia|].
  assert (0 < Z.of_nat (length a)) as Ha by by cbn.
  set (k := Z.min (rd _ _ _) _). assert (1 <= k <= n) as [H2 H3] by (unfold k; rewrite length_app in H1 |- *; lia). clearbody k. split_and!; [lia|lia| | |].
  - rewrite take_app_le //. lia.
  - rewrite length_take length_app. lia.
  - unfold took, set_in. cbn [p_in p_out p_eof p_x]. split_and!; try done. rewrite drop_app_le //. lia.
Qed.

Lemma bound_read_loop_wp rest : forall fuel buf total q p w,
  Z.of_nat (length buf) = sizeof_pkt -> 0 <= total -> total + Z.of_nat (length q) = sizeof_pkt ->
  take (Z.to_nat total) buf ++ q = p -> (length q <= fuel)%nat -> p_in w = q ++ rest ->
  wp (bound_read_loop fuel buf total (Z.of_nat (length q)))
     (fun r w' => r = (swrap 32 (pkt_size p), p) /\ took w rest w') w.
Proof.
  induction fuel as [|fuel IH]; intros buf total q p w Hb Ht Hq Hp Hf Hin.
  all: cbn [bound_read_loop]; destruct (Z.ltb_spec 0 (Z.of_nat (length q))) as [Hlt|Hge].
  2, 4: apply wp_ret; destruct q; [|cbn in *; lia]; rewrite app_nil_r take_ge in Hp; [cbn in *; lia|]; subst; by split.
  - lia.
  - apply wp_bind. eapply wp_mono; [eapply (sys_read_wp _ w q rest); eauto; [by destruct q|lia]|].
    intros [k bs] w' (Hk & Hbs & Hl & Htook). rewrite (proj2 (Z.leb_gt k 0)); [lia|].
    destruct (take_blit buf total bs) as [E1 E2]; [lia|lia|].
    replace (Z.of_nat (length q) - k) with (Z.of_nat (length (drop (Z.to_nat k) q))) by (rewrite length_drop; lia).
    eapply wp_mono; [apply (IH (blit buf total bs) (total + k) (drop (Z.to_nat k) q) p w')|].
    + lia.
    + lia.
    + rewrite length_drop. lia.
    + rewrite -Hl E1 -app_assoc Hl {1}Hbs take_drop //.
    + rewrite length_drop. lia.
    + apply Htook.
    + intros r w'' [-> H3]. split; [done|]. unfold took in *. intuition congruence.
Qed.

Lemma bound_read_wp buf p rest w :
  Z.of_nat (length buf) = sizeof_pkt -> Z.of_nat (length p) = sizeof_pkt -> p_in w = p ++ rest ->
  wp (bound_read buf) (fun r w' => r = (swrap 32 (pkt_size p), p) /\ took w rest w') w.
Proof.
  intros Hb Hp Hin. unfold bound_read. rewrite -{2}Hp. apply bound_read_loop_wp; [done|lia|lia|done|lia|done].
Qed.

(** A write fails, or takes the front of what it is given. *)
Lemma sys_write_wp bs w :
  wp (sys_write bs) (fun r w' => p_tick w' = S (p_tick w) /\
    let k := wr (p_tick w) (Z.of_nat (length bs)) in
    (k < 0 /\ r = -1 /\ gave w [] w' \/ 0 <= k /\ 0 <= r /\ gave w (take (Z.to_nat k) bs) w')) w.
Proof.
  unfold wp, sys_write. cbv zeta. set (k := wr _ _). destruct (Z.ltb_spec k 0) as [Hk|Hk]; split; try done; [left|right].
  - unfold gave, set_pout. cbn [p_in p_out p_eof p_x]. by rewrite app_nil_r.
  - split_and!; [done|lia|]. unfold gave, set_pout. cbn [p_in p_out p_eof p_x]. split_and!; try done. f_equal.
    destruct (Z.le_gt_cases k (Z.of_nat (length bs))); [by rewrite Z.min_l|].
    rewrite Z.min_r; [lia|]. rewrite !take_ge //; lia.
Qed.

Lemma must_alloc_wp w (Q : unit -> peer X -> Prop) :
  (forall w', took w (p_in w) w' -> Q tt w') -> wp must_alloc Q w.
Proof. intros HQ. unfold wp, must_alloc, sys_alloc, mbind, M_bind, assert. rewrite mem_ok. by apply HQ. Qed.

Lemma took_trans w w1 w2 r1 r2 : took w r1 w1 -> took w1 r2 w2 -> took w r2 w2.
Proof. unfold took. intuition congruence. Qed.

(** The buffer is allocated with the first packet. *)
Lemma recv_alloc_wp (data : option (Z * list Z)) w (Q : unit -> peer X -> Prop) :
  (forall w', took w (p_in w) w' -> Q tt w') ->
  wp (match data with None => must_alloc | Some _ => mret tt end) Q w.
Proof. intros HQ. destruct data; [apply wp_ret, HQ; by repeat split|by apply must_alloc_wp]. Qed.

(** The packets of a message: each is as long as the structure, carries the
    total and the next part of the message, and only the last is marked. *)
Inductive packets (total : Z) : list Z -> list Z -> Prop :=
  | packets_last old chunk :
      Z.of_nat (length old) = sizeof_pkt -> 0 < Z.of_nat (length chunk) <= BUF_SIZE ->
      packets total chunk (packet old chunk true total)
  | packets_more old chunk rest bs :
      Z.of_nat (length old) = sizeof_pkt -> Z.of_nat (length chunk) = BUF_SIZE -> packets total rest bs ->
      packets total (chunk ++ rest) (packet old chunk false total ++ bs).

Lemma packets_nonempty total d bs : packets total d bs -> d <> [].
Proof. intros Hp. destruct Hp as [old chunk Ho Hc|old chunk rest bs Ho Hc Hp]; destruct chunk; cbn in *; try done; unfold BUF_SIZE in *; lia. Qed.

(** The bytes [bound_send] writes and the packet memory it leaves. *)
Fixpoint frames (fuel : nat) (buf data : list Z) (total : Z) : list Z * list Z :=
  match fuel with
  | O => ([], buf)
  | S fuel =>
    match data with
    | [] => ([], buf)
    | _ =>
      let p := packet buf (take 1024 data) (Z.of_nat (length data) <=? BUF_SIZE) total in
      let r := frames fuel p (drop 1024 data) total in
      (p ++ fst r, snd r)
    end
  end.

Lemma frames_nonempty fuel buf data total :
  data <> [] ->
  frames (S fuel) buf data total =
    (let p := packet buf (take 1024 data) (Z.of_nat (length data) <=? BUF_SIZE) total in
     let r := frames fuel p (drop 1024 data) total in (p ++ fst r, snd r)).
Proof. by destruct data. Qed.

(** What the writes number [i] to [j - 1] did with a whole packet. *)
Definition each_write (i j : nat) (P : Z -> Prop) : Prop :=
  forall k, (i <= k < j)%nat -> P (wr k sizeof_pkt).
Definition some_write (i j : nat) (P : Z -> Prop) : Prop :=
  exists k, (i <= k < j)%nat /\ P (wr k sizeof_pkt).

(** The outcome of [bound_send]: it stops at a write that fails; otherwise it
    reports success, and has written the frames [bs] when no write was cut short,
    and too little when one was. *)
Definition sent (total : Z) (fr : list Z * list Z) w (r : Z * list Z) w' : Prop :=
  (p_tick w <= p_tick w')%nat /\ exists bs, gave w bs w' /\
  (fst r = -1 /\ some_write (p_tick w) (p_tick w') (fun k => k < 0) \/
   r = (swrap 32 total, snd fr) /\ each_write (p_tick w) (p_tick w') (fun k => 0 <= k) /\
   (length bs <= length (fst fr))%nat /\
   (each_write (p_tick w) (p_tick w') (fun k => sizeof_pkt <= k) -> bs = fst fr) /\
   (some_write (p_tick w) (p_tick w') (fun k => k < sizeof_pkt) -> (length bs < length (fst fr))%nat)).

Lemma sent_more total fr p w w1 w2 r :
  Z.of_nat (length p) = sizeof_pkt -> p_tick w1 = S (p_tick w) -> 0 <= wr (p_tick w) sizeof_pkt ->
  gave w (take (Z.to_nat (wr (p_tick w) sizeof_pkt)) p) w1 ->
  sent total fr w1 r w2 -> sent total (p ++ fst fr, snd fr) w r w2.
Proof.
  intros Hp Ht Hk Hw1 (Ht2 & bs & Hw2 & Hr). unfold sizeof_pkt in Hp. split; [lia|].
  exists (take (Z.to_nat (wr (p_tick w) sizeof_pkt)) p ++ bs). cbn [fst snd]. rewrite !length_app length_take.
  split; [unfold gave in *; rewrite app_assoc; intuition congruence|].
  destruct Hr as [[-> (k & Hk1 & Hk2)]|(-> & He & Hl & Hall & Hshort)]; [left|right].
  - split; [done|]. exists k. split; [lia|done].
  - split_and!; [done| |lia| |].
    + intros k Hk1. destruct (decide (k = p_tick w)) as [->|]; [done|]. apply He. lia.
    + intros H1. rewrite take_ge; [pose proof (H1 (p_tick w) ltac:(lia)); unfold sizeof_pkt in *; lia|].
      rewrite Hall //. intros k Hk1. apply H1. lia.
    + intros (k & Hk1 & Hk2). destruct (decide (k = p_tick w)) as [->|]; [unfold sizeof_pkt in *; lia|].
      assert (length bs < length (fst fr))%nat; [|lia]. apply Hshort. exists k. split; [lia|done].
Qed.

Lemma bound_send_loop_wp data : forall fuel buf loc remain w,
  Z.of_nat (length buf) = sizeof_pkt -> 0 <= loc -> 0 <= remain -> loc + remain = Z.of_nat (length data) ->
  (Z.to_nat remain < fuel)%nat ->
  wp (bound_send_loop fuel buf data (Z.of_nat (length data)) remain loc)
     (sent (Z.of_nat (length data)) (frames fuel buf (drop (Z.to_nat loc) data) (Z.of_nat (length data))) w) w.
Proof.
  induction fuel as [|fuel IH]; intros buf loc remain w Hb Hloc Hrem Hsum Hf; [lia|].
  cbn [bound_send_loop].
  assert (Z.of_nat (length (drop (Z.to_nat loc) data)) = remain) as Hdl by (rewrite length_drop; lia).
  destruct (Z.ltb_spec 0 remain) as [Hr|Hr].
  2: { destruct (drop (Z.to_nat loc) data) as [|b d]; [|cbn in *; lia]. apply wp_ret. cbn [frames fst snd]. split; [done|].
       exists []. split; [unfold gave; by rewrite app_nil_r|]. right. split_and!; [done| |done|done|]; [intros k|intros (k & Hk & _)]; lia. }
  set (n := if BUF_SIZE <? remain then BUF_SIZE else remain). cbv zeta.
  assert (take (Z.to_nat n) (drop (Z.to_nat loc) data) = take 1024 (drop (Z.to_nat loc) data) /\
    Z.of_nat (length (take 1024 (drop (Z.to_nat loc) data))) = n /\ n <= BUF_SIZE /\ n <= remain /\ 0 < n /\
    drop 1024 (drop (Z.to_nat loc) data) = drop (Z.to_nat (loc + n)) data) as (E1 & Hc & Hn & Hn2 & Hn3 & E2).
  { unfold n, BUF_SIZE in *. rewrite length_take. destruct (Z.ltb_spec 1024 remain).
    - rewrite drop_drop. split_and!; [done|lia..|]. f_equal. lia.
    - rewrite (take_ge (drop (Z.to_nat loc) data) (Z.to_nat remain)); [lia|]. rewrite take_ge; [lia|].
      rewrite (drop_ge _ 1024); [lia|]. rewrite (drop_ge data (Z.to_nat (loc + remain))); [lia|]. split_and!; [done|lia..|done]. }
  clearbody n. rewrite frames_nonempty; [by intros E; rewrite E in Hdl; cbn in Hdl; lia|]. cbv zeta. rewrite Hdl E1.
  pose proof (fill_packet buf (take 1024 (drop (Z.to_nat loc) data)) (remain <=? BUF_SIZE) (Z.of_nat (length data)) Hb ltac:(lia)) as E.
  rewrite Hc in E. rewrite E. clear E. set (p := packet _ _ _ _).
  assert (Z.of_nat (length p) = sizeof_pkt) as Hp by (apply length_packet; [done|lia]).
  apply wp_bind. eapply wp_mono; [apply sys_write_wp|]. cbv zeta. rewrite Hp.
  intros r w1 (Ht & [(Hk & -> & Hw1)|(Hk & Hr0 & Hw1)]).
  { apply wp_ret. split; [lia|]. exists []. split; [done|]. left. split; [done|]. exists (p_tick w). split; [lia|done]. }
  rewrite (proj2 (Z.eqb_neq _ _)); [lia|].
  eapply wp_mono; [apply (IH p (loc + n) (remain - n) w1); [done|lia..]|].
  intros r' w2 Hs. rewrite E2. by apply (sent_more _ _ p w w1 w2).
Qed.

(** All of what [bound_send] does. *)
Definition frames_of (buf data : list Z) : list Z * list Z := frames (S (length data)) buf data (Z.of_nat (length data)).

Lemma bound_send_sent buf data w :
  Z.of_nat (length buf) = sizeof_pkt ->
  wp (bound_send buf data) (sent (Z.of_nat (length data)) (frames_of buf data) w) w.
Proof. intros Hb. apply (bound_send_loop_wp data (S (length data)) buf 0); [done|lia..]. Qed.

Lemma bound_send_wp `{!SockLaws} buf data w :
  Z.of_nat (length buf) = sizeof_pkt ->
  wp (bound_send buf data) (fun r w' =>
    r = (swrap 32 (Z.of_nat (length data)), snd (frames_of buf data)) /\ gave w (fst (frames_of buf data)) w') w.
Proof.
  intros Hb. eapply wp_mono; [by apply bound_send_sent|].
  intros r w' (_ & bs & Hw & [[_ (k & _ & Hk)]|(-> & _ & _ & Hall & _)]).
  - pose proof (wr_full k sizeof_pkt eq_refl). unfold sizeof_pkt in *. lia.
  - rewrite Hall in Hw; [|done]. intros k _. by apply wr_full.
Qed.

Lemma frames_packets total : forall fuel buf data,
  Z.of_nat (length buf) = sizeof_pkt -> data <> [] -> (length data < fuel)%nat ->
  packets total data (fst (frames fuel buf data total)).
Proof.
  induction fuel as [|fuel IH]; intros buf data Hb Hd Hf; [lia|]. rewrite frames_nonempty //. cbv zeta. cbn [fst].
  assert (0 < length data)%nat by (destruct data; cbn; [done|lia]).
  assert (Z.of_nat (length (take 1024 data)) <= BUF_SIZE) as Hl by (rewrite length_take; unfold BUF_SIZE; lia).
  destruct (Z.leb_spec (Z.of_nat (length data)) BUF_SIZE) as [Hle|Hgt]; unfold BUF_SIZE in *.
  - rewrite (drop_ge data); [lia|]. rewrite take_ge; [lia|].
    replace (fst (frames fuel _ [] total)) with (@nil Z) by by destruct fuel.
    rewrite app_nil_r. apply packets_last; [done|unfold BUF_SIZE; lia].
  - rewrite -{1}(take_drop 1024 data). apply packets_more; [done|rewrite length_take; unfold BUF_SIZE; lia|].
    apply IH; [by apply length_packet| |rewrite length_drop; lia].
    intros E. apply (f_equal length) in E. rewrite length_drop in E. cbn in E. lia.
Qed.

Lemma length_frames total : forall fuel buf data,
  Z.of_nat (length buf) = sizeof_pkt -> Z.of_nat (length (snd (frames fuel buf data total))) = sizeof_pkt.
Proof.
  induction fuel as [|fuel IH]; intros buf data Hb; cbn [frames snd]; [done|]. destruct data; [done|]. cbn [snd].
  apply IH, length_packet; [done|]. rewrite length_take. unfold BUF_SIZE. lia.
Qed.

(** [bound_send] and [bound_read] with the result ignored: the packet memory. *)
Definition send (pkt data : list Z) : M (peer X) (list Z) := '(_, pkt) ← bound_send pkt data; mret pkt.
Definition recv (pkt : list Z) : M (peer X) (list Z) := '(_, pkt) ← bound_read pkt; mret pkt.

Lemma send_wp `{!SockLaws} pkt data w (Q : list Z -> peer X -> Prop) :
  Z.of_nat (length pkt) = sizeof_pkt ->
  (forall w', gave w (fst (frames_of pkt data)) w' -> Q (snd (frames_of pkt data)) w') ->
  wp (send pkt data) Q w.
Proof.
  intros Hp HQ. unfold send. apply wp_bind. eapply wp_mono; [by apply bound_send_wp|].
  intros r w' [-> Hw]. apply wp_ret. by apply HQ.
Qed.

Lemma frames_of_packets pkt data :
  Z.of_nat (length pkt) = sizeof_pkt -> data <> [] -> packets (Z.of_nat (length data)) data (fst (frames_of pkt data)).
Proof. intros. apply frames_packets; [done..|lia]. Qed.

Lemma length_frames_of pkt data :
  Z.of_nat (length pkt) = sizeof_pkt -> Z.of_nat (length (snd (frames_of pkt data))) = sizeof_pkt.
Proof. intros. by apply length_frames. Qed.

Lemma length_packets total d bs : packets total d bs -> (0 < length bs)%nat.
Proof.
  intros Hp. destruct Hp as [old chunk Ho Hc|old chunk rest bs Ho Hc Hp].
  - pose proof (length_packet old chunk true total Ho ltac:(lia)). unfold sizeof_pkt in *. lia.
  - pose proof (length_packet old chunk false total Ho ltac:(lia)). rewrite length_app. unfold sizeof_pkt in *. lia.
Qed.

(** One packet of a message as [bound_read] leaves it. *)
Lemma bound_read_packet_wp buf old chunk e total rest w :
  Z.of_nat (length buf) = sizeof_pkt -> Z.of_nat (length old) = sizeof_pkt ->
  Z.of_nat (length chunk) <= BUF_SIZE -> 0 <= total < 2 ^ 64 -> p_in w = packet old chunk e total ++ rest ->
  wp (bound_read buf) (fun r w' => fst r = Z.of_nat (length chunk) /\ Z.of_nat (length (snd r)) = sizeof_pkt /\
    pkt_end (snd r) = int_of_bool e /\ pkt_size (snd r) = Z.of_nat (length chunk) /\ pkt_total (snd r) = total /\
    take (length chunk) (pkt_buf (snd r)) = chunk /\ took w rest w') w.
Proof.
  intros Hb Ho Hc Ht Hin. destruct (packet_fields old chunk e total Ho Hc Ht) as (H1 & H2 & H3 & H4).
  eapply wp_mono; [apply (bound_read_wp _ _ rest _ Hb (length_packet old chunk e total Ho Hc) Hin)|].
  intros r w' [-> Hw]. cbn [fst snd]. split_and!; try done; [|by apply length_packet].
  rewrite H2. unfold swrap, BUF_SIZE in *. rewrite Z.mod_small; [lia|]. by rewrite (proj2 (Z.ltb_lt _ _)); [lia|].
Qed.

Lemma recv_loop_wp total d bs :
  packets total d bs -> 0 <= total < 2 ^ 64 -> forall fuel pkt data acc rest w,
  Z.of_nat (length pkt) = sizeof_pkt -> (length bs <= fuel)%nat -> p_in w = bs ++ rest ->
  default (total, []) data = (total, acc) -> Z.of_nat (length acc) + Z.of_nat (length d) <= total ->
  wp (recv_loop fuel pkt data) (fun r w' => fst r = acc ++ d /\ Z.of_nat (length (snd r)) = sizeof_pkt /\ took w rest w') w.
Proof.
  intros Hp Ht. induction Hp as [old chunk Ho Hc|old chunk rest0 bs Ho Hc Hp IH];
    intros fuel pkt data acc rest w Hb Hf Hin Hd Hl.
  - pose proof (length_packets _ _ _ (packets_last total old chunk Ho Hc)) as Hlen.
    destruct fuel as [|fuel]; [lia|]. cbn [recv_loop]. apply wp_bind.
    eapply wp_mono; [apply (bound_read_packet_wp pkt old chunk true total rest w Hb Ho ltac:(lia) Ht Hin)|].
    intros [r p] w1 (_ & Hl' & He & Hs & Htot & Hbuf & Hw1). cbn [fst snd] in *.
    apply wp_bind, recv_alloc_wp. intros w' Hw'. rewrite (proj1 Hw1) in Hw'.
    pose proof (took_trans _ _ _ _ _ Hw1 Hw') as Hw. clear w1 Hw1 Hw'. rewrite Htot Hd Hs Nat2Z.id Hbuf He.
    apply wp_bind, wp_assert; [apply Z.leb_le; lia|]. apply wp_bind, wp_assert; [apply Z.leb_le; lia|].
    by apply wp_ret.
  - rewrite -app_assoc in Hin. rewrite length_app in Hf. rewrite length_app in Hl.
    pose proof (length_packet old chunk false total Ho ltac:(lia)) as Hlen.
    pose proof (length_packets _ _ _ Hp) as Hlen2.
    destruct fuel as [|fuel]; [lia|]. cbn [recv_loop]. apply wp_bind.
    eapply wp_mono; [apply (bound_read_packet_wp pkt old chunk false total (bs ++ rest) w Hb Ho ltac:(lia) Ht Hin)|].
    intros [r p] w1 (_ & Hl' & He & Hs & Htot & Hbuf & Hw1). cbn [fst snd] in *.
    apply wp_bind, recv_alloc_wp. intros w' Hw'. rewrite (proj1 Hw1) in Hw'.
    pose proof (took_trans _ _ _ _ _ Hw1 Hw') as Hw. clear w1 Hw1 Hw'. rewrite Htot Hd Hs Nat2Z.id Hbuf He.
    apply wp_bind, wp_assert; [apply Z.leb_le; lia|]. apply wp_bind, wp_assert; [apply Z.leb_le; lia|].
    eapply wp_mono; [apply (IH fuel p (Some (total, acc ++ chunk)) (acc ++ chunk) rest w')|].
    + done.
    + unfold sizeof_pkt in *. lia.
    + apply Hw.
    + done.
    + rewrite length_app. lia.
    + intros r' w'' (-> & H2 & H3). rewrite -app_assoc. split_and!; [done..|]. unfold took in *. intuition congruence.
Qed.

Lemma recv_message_wp d bs pkt rest w :
  packets (Z.of_nat (length d)) d bs -> Z.of_nat (length d) < 2 ^ 64 ->
  Z.of_nat (length pkt) = sizeof_pkt -> p_in w = bs ++ rest ->
  wp (recv_message pkt) (fun r w' => fst r = d /\ Z.of_nat (length (snd r)) = sizeof_pkt /\ took w rest w') w.
Proof.
  intros Hp Hd Hl Hin.
  apply (recv_loop_wp _ _ _ Hp ltac:(lia) _ pkt None [] rest w); [done| |done|done|cbn; lia].
  rewrite Hin length_app. lia.
Qed.

(** A message that fits one packet. *)
Lemma bound_read_small_wp buf pkt data rest w :
  Z.of_nat (length buf) = sizeof_pkt -> Z.of_nat (length pkt) = sizeof_pkt -> data <> [] ->
  Z.of_nat (length data) <= BUF_SIZE -> p_in w = fst (frames_of pkt data) ++ rest ->
  wp (bound_read buf) (fun r w' => fst r = Z.of_nat (length data) /\ Z.of_nat (length (snd r)) = sizeof_pkt /\
    pkt_size (snd r) = Z.of_nat (length data) /\ take (length data) (pkt_buf (snd r)) = data /\ took w rest w') w.
Proof.
  intros Hb Hp Hd Hl Hin. pose proof Hl as Hl'. assert (0 <= Z.of_nat (length data) < 2 ^ 64) as Ht by (unfold BUF_SIZE in *; lia).
  unfold BUF_SIZE in Hl'. unfold frames_of in Hin. rewrite frames_nonempty // in Hin. cbv zeta in Hin.
  rewrite take_ge in Hin; [lia|]. rewrite drop_ge in Hin; [lia|]. cbn [fst] in Hin.
  replace (fst (frames _ _ [] _)) with (@nil Z) in Hin by by destruct (length data). rewrite app_nil_r in Hin.
  eapply wp_mono; [apply (bound_read_packet_wp _ _ data _ _ rest w Hb Hp Hl Ht Hin)|].
  intros r w' (H1 & H2 & _ & H3 & _ & H4 & H5). by split_and!.
Qed.

Lemma recv_small_wp buf pkt data rest w (Q : list Z -> peer X -> Prop) :
  Z.of_nat (length buf) = sizeof_pkt -> Z.of_nat (length pkt) = sizeof_pkt -> data <> [] ->
  Z.of_nat (length data) <= BUF_SIZE -> p_in w = fst (frames_of pkt data) ++ rest ->
  (forall p w', Z.of_nat (length p) = sizeof_pkt -> pkt_size p = Z.of_nat (length data) ->
     take (length data) (pkt_buf p) = data -> took w rest w' -> Q p w') ->
  wp (recv buf) Q w.
Proof.
  intros Hb Hp Hd Hl Hin HQ. unfold recv. apply wp_bind. eapply wp_mono; [by apply (bound_read_small_wp buf pkt data rest)|].
  intros [r p] w' (_ & H1 & H2 & H3 & H4). apply wp_ret. by apply HQ.
Qed.
End laws.

Lemma length_frames_bytes `{Sock} total : forall fuel buf data,
  Z.of_nat (length buf) = sizeof_pkt -> (length data < fuel)%nat ->
  Z.of_nat (length (fst (frames fuel buf data total))) = sizeof_pkt * ((Z.of_nat (length data) + 1023) / 1024).
Proof.
  induction fuel as [|fuel IH]; intros buf data Hb Hf; [lia|]. destruct data as [|b d]; [done|].
  rewrite frames_nonempty //. cbv zeta. cbn [fst]. set (data := b :: d) in *. assert (0 < Z.of_nat (length data)) as Hpos by by cbn.
  assert (Z.of_nat (length (take 1024 data)) <= BUF_SIZE) as Hl by (rewrite length_take; unfold BUF_SIZE; lia).
  clearbody data. rewrite length_app Nat2Z.inj_add length_packet // IH; [by apply length_packet|rewrite length_drop; lia|].
  rewrite length_drop. destruct (Z.le_gt_cases (Z.of_nat (length data)) 1024).
  - replace (length data - 1024)%nat with 0%nat by lia. cbn [Z.of_nat Z.add]. unfold sizeof_pkt.
    rewrite (Z.div_small 1023) //. enough ((Z.of_nat (length data) + 1023) / 1024 = 1) by lia.
    symmetry. apply (Z.div_unique_pos _ _ _ (Z.of_nat (length data) - 1)); lia.
  - replace (Z.of_nat (length data) + 1023) with (Z.of_nat (length data - 1024) + 1023 + 1 * 1024) by lia.
    rewrite Z.div_add //. lia.
Qed.

(** C16: framing.  [bound_send] of a message of 1 to [INT_MAX] bytes returns -1
    when a write fails and the length of the message otherwise.  When every write
    took its whole packet, whole packets went out, and the receive loop on the
    other side gives back exactly the message and stops where it ends, however
    the socket cuts the stream into pieces, and never writes behind its buffer
    (no read failing and memory provided).  When a write was cut short the call
    reports success as well, with fewer bytes sent than the packets have. *)
Theorem bound_message_roundtrip `{Sock} {X Y : Type} (data pkt0 pkt1 : list Z) (w : peer X) :
  data <> [] -> Z.of_nat (length data) <= INT_MAX ->
  Z.of_nat (length pkt0) = sizeof_pkt -> Z.of_nat (length pkt1) = sizeof_pkt ->
  exists r pkt w' bs,
    bound_send pkt0 data w = Ok ((r, pkt), w') /\ p_out w' = p_out w ++ bs /\ p_in w' = p_in w /\
    let writes := each_write (p_tick w) (p_tick w') in
    let a_write := some_write (p_tick w) (p_tick w') in
    let whole := sizeof_pkt * ((Z.of_nat (length data) + 1023) / 1024) in
    (r = -1 /\ a_write (fun k => k < 0) \/
     r = Z.of_nat (length data) /\ writes (fun k => 0 <= k) /\
     (a_write (fun k => k < sizeof_pkt) -> Z.of_nat (length bs) < whole) /\
     (writes (fun k => sizeof_pkt <= k) -> Z.of_nat (length bs) = whole /\
        forall (v : peer Y) rest, (forall i n a, 0 < n -> 0 < a -> 0 < rd i n a) -> (forall i, mem i = true) ->
          p_in v = bs ++ rest ->
          exists pkt' v', recv_message pkt1 v = Ok ((data, pkt'), v') /\ p_in v' = rest /\ p_out v' = p_out v)).
Proof.
  unfold INT_MAX. intros Hd Hlen Hp0 Hp1.
  destruct (wp_Ok _ _ _ (bound_send_sent pkt0 data w Hp0)) as ([r pkt] & w' & Hrun & _ & bs & Hw & Hs).
  pose proof (frames_of_packets pkt0 data Hp0 Hd) as Hbs.
  pose proof (length_frames_bytes (Z.of_nat (length data)) (S (length data)) pkt0 data Hp0 ltac:(lia)) as Hl.
  fold (frames_of pkt0 data) in Hl. exists r, pkt, w', bs. split_and!; [done|apply Hw..|]. cbv zeta.
  destruct Hs as [Hs|(Hr & He & _ & Hall & Hshort)]; [by left|right]. injection Hr as Hr Hpkt. split_and!; [|done| |].
  { rewrite Hr. unfold swrap. rewrite Z.mod_small; [lia|]. by rewrite (proj2 (Z.ltb_lt _ _)); [lia|]. }
  { intros Hcut%Hshort. lia. }
  intros Hwr%Hall. subst bs. split; [done|]. intros v rest Hrd Hmem Hv.
  destruct (wp_Ok _ _ _ (recv_message_wp (H0 := Build_SockReads _ Hrd Hmem) data _ pkt1 rest v Hbs ltac:(lia) Hp1 Hv))
    as ([d p'] & v' & Hrun' & Hd' & _ & Ht).
  cbn in Hd'. subst d. exists p', v'. split_and!; [done|apply Ht..].
Qed.

(** A socket that delivers at most 100 bytes at a time. *)
#[global] Instance slow_sock : Sock := {
  rd := fun _ n a => Z.min 100 (Z.min n a);
  wr := fun _ n => n;
  mem := fun _ => true;
}.

#[global] Instance slow_sock_laws : SockLaws.
Proof. split; [split|]; cbn; [lia|done|lia]. Qed.

Lemma bound_message_roundtrip_witness : exists pkt w',
  bound_send (replicate 1048 0) (replicate 3000 7) (mkPeer [] false [] 0 tt) = Ok ((3000, pkt), w') /\
  Z.of_nat (length (p_out w')) = 3144 /\
  exists pkt' v', recv_message (replicate 1048 9) (mkPeer (p_out w' ++ [1; 2]) false [] 0 tt) = Ok ((replicate 3000 7, pkt'), v') /\
    p_in v' = [1; 2].
Proof.
  destruct (bound_message_roundtrip (X := unit) (Y := unit) (replicate 3000 7) (replicate 1048 0) (replicate 1048 9)
    (mkPeer [] false [] 0 tt)) as (r & pkt & w' & bs & H1 & H2 & _ & H3).
  - discriminate.
  - rewrite length_replicate. unfold INT_MAX. lia.
  - by rewrite length_replicate.
  - by rewrite length_replicate.
  - exists pkt, w'. cbn [p_out app] in H2. rewrite length_replicate in H3. destruct H3 as [[_ (k & _ & Hk)]|(-> & _ & _ & H3)].
    + cbn in Hk. unfold sizeof_pkt in Hk. lia.
    + destruct H3 as [H3 H4]; [intros k _; cbn; lia|]. split; [exact H1|]. rewrite H2. split; [exact H3|].
      destruct (H4 (mkPeer (bs ++ [1; 2]) false [] 0 tt) [1; 2]) as (pkt' & v' & H5 & H6 & _);
        [intros; cbn; lia|intros; reflexivity|reflexivity|].
      exists pkt', v'. split; [exact H5|exact H6].
Defined.

(** A socket whose first write takes 500 bytes: [bound_send] reports success, and
    the receiver waits for the rest of a packet that never comes. *)
Definition cut_sock : Sock := {| rd := fun _ n a => Z.min n a; wr := fun i n => if (i =? 0)%nat then 500 else n; mem := fun _ => true |}.
Definition cut_run : outcome (Z * outcome unit) :=
  match bound_send (H := cut_sock) (replicate 1048 0) (replicate 1500 7) (mkPeer [] false [] 0 tt) with
  | Ok ((r, _), w') => Ok (r,
      match recv_message (H := cut_sock) (replicate 1048 9) (mkPeer (p_out w') false [] 0 tt) with
      | Ok _ => Ok tt | Abort => Abort | Diverge => Diverge end)
  | Abort => Abort
  | Diverge => Diverge
  end.
Example short_write_stalls : cut_run = Ok (1500, Diverge).
Proof. vm_compute. reflexivity. Qed.
