(* ===== verification/Study.v ===== *)
(** * The network file system of the study ([source/fuse_study.c], [server/server.c])

    The client is a low-level FUSE file system that forwards operations over one
    TCP connection; the server executes them on its own files.  Both sides are
    modelled over the framing of [Bound]: a handler reads from the bytes that
    will arrive and appends to the bytes it sent, so that client and server are
    composed by feeding each one's output to the other.  The theorems state which
    operations agree with the file system of the server, and where the two sides
    lose each other. *)
From S2P Require Import Prelude Wire Request Handlers Bound.

Definition LOOKUP : Z := 0.
Definition GETATTR : Z := 1.
Definition READDIR : Z := 2.
Definition OPEN : Z := 3.
Definition READ : Z := 4.
Definition CREATE : Z := 5.
Definition MKDIR : Z := 6.
Definition WRITE : Z := 7.
Definition UNLINK : Z := 8.
Definition RMDIR : Z := 9.

Definition FUSE_ROOT_ID : Z := 1.
Definition sizeof_stat : Z := 144.

(** The memory of a [struct stat] (x86-64 Linux), read and written by field. *)
Definition stat_of (bs : list Z) : stat :=
  mkStat (field bs 8 8) (field bs 24 4) (field bs 16 8) (field bs 28 4) (field bs 32 4) (field bs 40 8)
         (swrap 64 (field bs 48 8)) (swrap 64 (field bs 56 8)) (swrap 64 (field bs 64 8))
         (swrap 64 (field bs 72 8)) (swrap 64 (field bs 88 8)) (swrap 64 (field bs 104 8))
         (swrap 64 (field bs 80 8)) (swrap 64 (field bs 96 8)) (swrap 64 (field bs 112 8)).
Definition stat_ino_mode (ino mode : Z) : list Z :=
  blit (blit (replicate 144 0) 8 (le 8 ino)) 24 (le 4 mode).

(** [memcpy(&i, pkt.buf, sizeof(int))] and [memcpy(&st, pkt.buf, sizeof(struct stat))]. *)
Definition pkt_int (p : list Z) : Z := swrap 32 (field p 24 4).
Definition pkt_stat (p : list Z) : list Z := take 144 (pkt_buf p).

(** ** The client *)

(** What a handler answers the kernel. *)
Inductive reply :=
  | R_err (err : Z)
  | R_entry (e : fuse_entry_param)
  | R_attr (st : stat) (timeout : double)
  | R_buf (bs : list Z)
  | R_open (fi : fuse_file_info)
  | R_create (e : fuse_entry_param) (fi : fuse_file_info).

(** The global [_path] and the replies given. *)
Record client := mkClient { c_path : option cstring; c_replies : list reply }.

Module Client.
Section client.
Context `{Sock}.
(** Uninitialised locals, and what [getuid], [getgid] and [time] return. *)
Context (junk : nat -> list Z) (uid gid now : Z).
Abbreviation MC := (M (peer client)).

Definition answer (r : reply) : MC unit :=
  modify (fun w => set_x w (mkClient (c_path (p_x w)) (c_replies (p_x w) ++ [r]))).
Definition set_path (p : option cstring) : MC unit :=
  modify (fun w => set_x w (mkClient p (c_replies (p_x w)))).

(** [strlen(_path)]: the path must be set. *)
Definition the_path : MC cstring :=
  fun w => match c_path (p_x w) with Some p => Ok (p, w) | None => Abort end.

Definition fuse_study_read (ino size off : Z) : MC unit :=
  pkt ← send (junk 0%nat) (le 2 READ);
  path ← the_path;
  pkt ← send pkt (bytes_of path);
  '(data, _) ← recv_message (junk 1%nat);
  answer (R_buf data).

(** [buf] is the memory the pointer leads to; [strlen] looks for a zero byte in
    it.  There is no answer. *)
Definition fuse_study_write (ino : Z) (buf : list Z) (size off : Z) : MC unit :=
  assert (bool_decide (0 ∈ buf));;
  let data := bytes_of (c_str (of_bytes buf)) in
  must_alloc;;
  pkt ← send (junk 0%nat) (le 2 READ);
  path ← the_path;
  pkt ← send pkt (bytes_of path);
  pkt ← send pkt data;
  mret tt.

Definition fuse_study_open (ino : Z) (fi : fuse_file_info) : MC unit :=
  w ← get;
  match c_path (p_x w) with
  | None => answer (R_err ENOENT)
  | Some path =>
    pkt ← send (junk 0%nat) (le 2 OPEN);
    pkt ← send pkt (bytes_of path ++ [0]);
    pkt ← send pkt (le 4 (fi_flags fi));
    '(r, pkt) ← bound_read (junk 1%nat);
    if r <=? 0 then answer (R_err EIO)
    else if negb (pkt_int pkt =? 0) then answer (R_err (- pkt_int pkt))
    else answer (R_open fi)
  end.

(** Attributes the client makes up: the root directory, and any file in
    [setattr]. *)
Definition local_stat (ino mode nlink : Z) : stat :=
  mkStat ino mode nlink uid gid 0 0 0 0 now now now 0 0 0.

Definition fuse_study_getattr (ino : Z) : MC unit :=
  if ino =? FUSE_ROOT_ID then answer (R_attr (local_stat FUSE_ROOT_ID (Z.lor S_IFDIR 493) 2) (f64_of_Z 1))
  else
    w ← get;
    match c_path (p_x w) with
    | None => answer (R_err ENOENT)
    | Some path =>
      pkt ← send (junk 0%nat) (le 2 GETATTR);
      pkt ← send pkt (bytes_of path ++ [0]);
      '(r, pkt) ← bound_read (junk 1%nat);
      if r <=? 0 then answer (R_err EIO)
      else if negb (pkt_int pkt =? 0) then answer (R_err (- pkt_int pkt))
      else
        '(r, pkt) ← bound_read pkt;
        if r <=? 0 then answer (R_err EIO)
        else if pkt_size pkt <? sizeof_stat then answer (R_err EIO)
        else answer (R_attr (stat_of (pkt_stat pkt)) (f64_of_Z 1))
    end.

Definition fuse_study_unlink (parent : Z) (path : cstring) : MC unit :=
  must_alloc;;
  pkt ← send (junk 0%nat) (le 2 UNLINK);
  pkt ← send pkt (bytes_of path);
  answer (R_err 0).

Definition fuse_study_create (parent : Z) (path : cstring) (mode : Z) (fi : fuse_file_info) : MC unit :=
  must_alloc;;
  pkt ← send (junk 0%nat) (le 2 CREATE);
  pkt ← send pkt (bytes_of path);
  pkt ← recv (junk 1%nat);
  let st := stat_of (pkt_stat pkt) in
  let attr := mkStat 0 (Z.lor S_IFREG (sb_mode st)) (sb_nlink st) (sb_uid st) (sb_gid st) 0 (sb_size st)
                     0 0 0 0 0 0 0 0 in
  let e := mkEntry (sb_ino st) 0 attr (f64_of_Z 1) (f64_of_Z 1) in
  answer (R_create e (set_fi_fh fi (sb_ino st))).

Definition fuse_study_setattr (ino : Z) : MC unit :=
  answer (R_attr (local_stat ino (Z.lor S_IFREG 420) 1) (f64_of_Z 1)).

Definition fuse_study_lookup (parent : Z) (path : cstring) : MC unit :=
  must_alloc;;
  let path := match path with [] => lit "./" | _ => path end in
  set_path (Some path);;
  pkt ← send (junk 0%nat) (le 2 LOOKUP);
  pkt ← send pkt (bytes_of path);
  pkt ← recv (junk 1%nat);
  if pkt_int pkt =? 1 then
    pkt ← recv pkt;
    let st := stat_of (pkt_stat pkt) in
    answer (R_entry (mkEntry (sb_ino st) 0 st (f64_of_Z 1) (f64_of_Z 1)))
  else answer (R_err ENOENT).

(** The loop of [fuse_study_readdir]; [acc] is what the reply buffer holds. *)
Fixpoint readdir_loop (fuel : nat) (pkt : list Z) (size off : Z) (acc : list Z) (current_offset : Z) : MC (list Z) :=
  match fuel with
  | O => diverge
  | S fuel =>
    pkt ← recv pkt;
    if pkt_int pkt =? 0 then mret acc
    else
      pkt ← recv pkt;
      must_alloc;;
      st_pkt ← recv (replicate 1048 0);
      let st := stat_of (pkt_stat st_pkt) in
      if off <=? current_offset then
        let rem := size - Z.of_nat (length acc) in
        assert (bool_decide (0 ∈ pkt_buf pkt));;
        let '(entry_size, bytes) :=
          fuse_add_direntry true rem (c_str (of_bytes (pkt_buf pkt))) st (current_offset + 1) in
        if rem <? entry_size then mret acc
        else readdir_loop fuel pkt size off (acc ++ bytes) (current_offset + 1)
      else readdir_loop fuel pkt size off acc (current_offset + 1)
  end.

Definition fuse_study_readdir (ino size off : Z) : MC unit :=
  ok ← sys_alloc;
  if negb ok then answer (R_err ENOMEM)
  else
    pkt ← send (replicate 1048 0) (le 4 READDIR);
    w ← get;
    let path_to_send :=
      if ino =? FUSE_ROOT_ID then lit "./"
      else match c_path (p_x w) with
           | Some (_ :: _ as path) => path
           | _ => lit "./"
           end in
    pkt ← send pkt (bytes_of path_to_send ++ [0]);
    ok ← sys_alloc;
    if negb ok then answer (R_err ENOMEM)
    else
      w ← get;
      acc ← readdir_loop (S (length (p_in w))) pkt size off [] 0;
      answer (R_buf acc).

Definition fuse_study_mkdir (parent : Z) (name : cstring) (mode : Z) : MC unit :=
  pkt ← send (junk 0%nat) (le 2 MKDIR);
  path ← the_path;
  pkt ← send pkt (bytes_of path);
  pkt ← send pkt (le 4 mode);
  pkt ← recv (junk 1%nat);
  if pkt_int pkt =? 0 then
    pkt ← recv pkt;
    let st := stat_of (pkt_stat pkt) in
    answer (R_entry (mkEntry (sb_ino st) 0 st (f64_of_Z 1) (f64_of_Z 1)))
  else answer (R_err (- pkt_int pkt)).

Definition fuse_study_rmdir (parent : Z) (name : cstring) : MC unit :=
  ok ← sys_alloc;
  if negb ok then answer (R_err ENOMEM)
  else
    pkt ← send (replicate 1048 0) (le 4 RMDIR);
    path ← the_path;
    pkt ← send pkt (bytes_of path);
    pkt ← recv pkt;
    if pkt_int pkt =? 0 then answer (R_err 0) else answer (R_err (- pkt_int pkt)).

Definition fuse_study_opendir (ino : Z) (fi : fuse_file_info) : MC unit := answer (R_open fi).
End client.
End Client.

(** ** The server *)

(** The file system of the server, by the system calls it makes: errors are
    [errno] values, a [struct stat] is its memory, a directory is a list of
    [d_ino], [d_type], [d_name]. *)
Class Fs (F : Type) := {
  fs_access : F -> cstring -> bool;
  fs_lstat : F -> cstring -> Z + list Z;
  fs_stat : F -> cstring -> Z + list Z;
  fs_open : F -> cstring -> Z -> Z -> option Z * F;
  fs_mkdir : F -> cstring -> Z -> option Z * F;
  fs_rmdir : F -> cstring -> option Z * F;
  fs_unlink : F -> cstring -> option Z * F;
  fs_readdir : F -> cstring -> Z + list (Z * Z * cstring);
  fs_file : F -> cstring -> option (list Z);
}.

Module Server.
Section server.
Context `{Sock} {F : Type} `{Fs F}.
Context (junk : nat -> list Z).
Abbreviation MV := (M (peer F)).

Definition fs : MV F := gets p_x.
(** A system call that changes the file system: 0, or the [errno]. *)
Definition fs_run (op : F -> option Z * F) : MV (option Z) :=
  fun w => let '(e, f) := op (p_x w) in Ok (e, set_x w f).

Definition O_CREAT : Z := 64.
Definition O_EXCL : Z := 128.
Definition O_WRONLY : Z := 1.

Fixpoint readdir_entries (pkt : list Z) (l : list (Z * Z * cstring)) : MV (list Z) :=
  match l with
  | [] => mret pkt
  | (ino, type, name) :: l =>
    pkt ← send pkt (le 4 1);
    pkt ← send (replicate 1048 0) (bytes_of name ++ [0]);
    pkt ← send pkt (stat_ino_mode ino (u32 (Z.shiftl type 12)));
    readdir_entries pkt l
  end.

Definition fuse_study_readdir (path : cstring) : MV Z :=
  must_alloc;;
  f ← fs;
  match fs_readdir f path with
  | inl e => pkt ← send (replicate 1048 0) (le 4 0); mret (- e)
  | inr l =>
    pkt ← readdir_entries (replicate 1048 0) l;
    pkt ← send pkt (le 4 0);
    mret 0
  end.

Definition fuse_study_open (path : cstring) : MV Z :=
  '(r, rp) ← bound_read (junk 1%nat);
  if (r <=? 0) || (pkt_size rp <? 4) then pkt ← send (junk 0%nat) (le 4 (- EIO)); mret 0
  else
    let oflags := Z.land (pkt_int rp) (Z.lnot (Z.lor O_CREAT O_EXCL)) in
    e ← fs_run (fun f => fs_open f path oflags 0);
    pkt ← send (junk 0%nat) (le 4 (match e with Some e => - e | None => 0 end));
    mret 0.

Definition fuse_study_getattr (path : cstring) : MV Z :=
  ok ← sys_alloc;
  if negb ok then mret (-1)
  else
    f ← fs;
    match fs_lstat f path with
    | inl e => pkt ← send (replicate 1048 0) (le 4 (- e)); mret 0
    | inr st =>
      pkt ← send (replicate 1048 0) (le 4 0);
      must_alloc;;
      pkt ← send (blit (blit (replicate 1048 0) 24 st) 16 (le 8 sizeof_stat)) st;
      mret 0
    end.

(** The result of [mkdir] goes out as four bare bytes, not as a packet. *)
Definition fuse_study_mkdir (path : cstring) : MV Z :=
  '(_, rp) ← bound_read (junk 1%nat);
  let mode := field rp 24 4 in
  e ← fs_run (fun f => fs_mkdir f path mode);
  r ← sys_write (le 4 (match e with Some _ => -1 | None => 0 end));
  match e with
  | Some _ => mret 0
  | None =>
    f ← fs;
    match fs_stat f path with
    | inl _ => mret 0
    | inr st =>
      must_alloc;;
      pkt ← send (blit (blit (replicate 1048 0) 24 st) 16 (le 8 sizeof_stat)) st;
      mret 0
    end
  end.

Definition fuse_study_rmdir (path : cstring) : MV Z :=
  must_alloc;;
  e ← fs_run (fun f => fs_rmdir f path);
  pkt ← send (replicate 1048 0) (le 4 (match e with Some _ => -1 | None => 0 end));
  mret 0.

Definition fuse_study_create (path : cstring) : MV Z :=
  e ← fs_run (fun f => fs_open f path (Z.lor O_WRONLY O_CREAT) 420);
  match e with
  | Some _ => mret (-1)
  | None =>
    f ← fs;
    let '(res, st) := match fs_lstat f path with inl _ => (-1, take 144 (junk 2%nat)) | inr st => (0, st) end in
    pkt ← send (junk 0%nat) st;
    mret res
  end.

(** [fuse_study_read]; [fuse_study_write] has the same body. *)
Definition fuse_study_read (path : cstring) : MV Z :=
  f ← fs;
  match fs_file f path with
  | None => abort
  | Some data => must_alloc;; pkt ← send (junk 0%nat) data; mret 0
  end.
Definition fuse_study_write (path : cstring) : MV Z := fuse_study_read path.

(** [thread_handler]. *)
Definition thread_handler (opcode : Z) (path : cstring) : MV unit :=
  if opcode =? 0 then
    f ← fs;
    pkt ← send (junk 0%nat) (le 4 (int_of_bool (fs_access f path)));
    pkt ← send pkt (match fs_lstat f path with inl _ => take 144 (junk 2%nat) | inr st => st end);
    mret tt
  else if opcode =? 1 then fuse_study_getattr path;; mret tt
  else if opcode =? 2 then fuse_study_readdir path;; mret tt
  else if opcode =? 3 then fuse_study_open path;; mret tt
  else if opcode =? 4 then fuse_study_read path;; mret tt
  else if opcode =? 5 then fuse_study_create path;; mret tt
  else if opcode =? 6 then fuse_study_mkdir path;; mret tt
  else if opcode =? 7 then fuse_study_write path;; mret tt
  else if opcode =? 8 then fs_run (fun f => fs_unlink f path);; mret tt
  else if opcode =? 9 then fuse_study_rmdir path;; mret tt
  else mret tt.

(** [strncpy(dst, src, n)]: up to the first zero byte, the rest filled with zeros. *)
Fixpoint until0 (src : list Z) : list Z :=
  match src with
  | [] => []
  | b :: src => if b =? 0 then [] else b :: until0 src
  end.
Definition strncpy (src : list Z) (n : nat) : list Z :=
  take n (until0 src) ++ replicate (n - length (until0 src)) 0.

(** The loop of [main] that receives the path: [cap] is the size of the buffer. *)
Fixpoint recv_path_loop (fuel : nat) (pkt : list Z) (path : option (Z * list Z)) : MV (Z * list Z * list Z) :=
  match fuel with
  | O => diverge
  | S fuel =>
    '(_, pkt) ← bound_read pkt;
    (match path with None => must_alloc | Some _ => mret tt end);;
    let '(cap, bytes) := default (u64 (pkt_total pkt + 1), []) path in
    let size := pkt_size pkt in
    assert (size <=? BUF_SIZE);;
    assert (Z.of_nat (length bytes) + size <=? cap);;
    let bytes := bytes ++ strncpy (pkt_buf pkt) (Z.to_nat size) in
    if pkt_end pkt =? 1 then mret (cap, bytes, pkt)
    else recv_path_loop fuel pkt (Some (cap, bytes))
  end.

(** [sizeof(struct thread_arg)]; the opcode is its first field. *)
Definition sizeof_thread_arg : Z := 40.

(** What [main] does with a readable client socket, and the thread it starts:
    [false] when the client has closed the connection.  The opcode is copied into
    the structure at the length the client announced; the bytes of a path that
    were announced and never sent are not there to be read. *)
Definition serve_request : MV bool :=
  '(read_byte, pkt) ← bound_read (junk 3%nat);
  if read_byte =? 0 then mret false
  else
    assert (pkt_size pkt <=? sizeof_thread_arg);;
    let thread_arg := blit (take 40 (junk 4%nat)) 0 (take (Z.to_nat (pkt_size pkt)) (pkt_buf pkt)) in
    let opcode := field thread_arg 0 2 in
    w ← get;
    '(cap, bytes, pkt) ← recv_path_loop (S (length (p_in w))) pkt None;
    assert (pkt_total pkt <? cap);;
    assert (pkt_total pkt <=? Z.of_nat (length bytes));;
    let path := c_str (of_bytes (take (Z.to_nat (pkt_total pkt)) bytes)) in
    thread_handler opcode path;;
    mret true.
End server.

(** *** The event loop *)

(** The sockets [epoll] watches and the ones that are open, the local
    [client_sock] of [main], and the requests handed to a thread. *)
Record loop_state := mkLoop {
  l_epoll : list Z;
  l_open : list Z;
  l_client_sock : Z;
  l_threads : list Z;
}.

(** One event: a connection on the listening socket (with the descriptor that
    [accept] returns), or something to read on a client socket, the end of the
    connection ([closed]) or a request. *)
Definition handle_event (server_sock fd accepted : Z) (closed : bool) (l : loop_state) : loop_state :=
  if fd =? server_sock then
    mkLoop (l_epoll l ++ [accepted]) (l_open l ++ [accepted]) accepted (l_threads l)
  else if closed then
    mkLoop (filter (fun x => x <> l_client_sock l) (l_epoll l)) (filter (fun x => x <> l_client_sock l) (l_open l))
           (l_client_sock l) (l_threads l)
  else
    mkLoop (filter (fun x => x <> l_client_sock l) (l_epoll l)) (l_open l) (l_client_sock l) (l_threads l ++ [fd]).

(** The end of [thread_handler]: the socket of the request is watched again. *)
Definition thread_done (fd : Z) (l : loop_state) : loop_state :=
  mkLoop (if bool_decide (fd ∈ l_epoll l) then l_epoll l else l_epoll l ++ [fd]) (l_open l) (l_client_sock l) (filter (fun x => x <> fd) (l_threads l)).
End Server.

(** ** Client and server together *)

(** The value of an [int] sent in a packet. *)
Lemma pkt_int_of p x : take 4 (pkt_buf p) = le 4 x -> INT_MIN <= x <= INT_MAX -> pkt_int p = x.
Proof.
  unfold pkt_buf, INT_MIN, INT_MAX. intros E Hx. unfold pkt_int, field. rewrite E unle_le. unfold swrap.
  change (256 ^ Z.of_nat 4) with (2 ^ 32). rewrite Z.mod_mod //.
  destruct (Z.leb_spec 0 x).
  - rewrite Z.mod_small; [lia|]. rewrite (proj2 (Z.ltb_lt _ _)); lia.
  - replace (x mod 2 ^ 32) with (x + 2 ^ 32); [rewrite (proj2 (Z.ltb_ge _ _)); lia|].
    rewrite -(Z_mod_plus_full x 1) Z.mod_small; lia.
Qed.

Definition zero_free (l : list Z) : Prop := 0 ∉ l.

Lemma until0_app y tl : zero_free y -> Server.until0 (y ++ tl) = y ++ Server.until0 tl.
Proof.
  unfold zero_free. induction y as [|b y IH]; intros Hy; [done|]. cbn. apply not_elem_of_cons in Hy as [Hb Hy].
  rewrite (proj2 (Z.eqb_neq b 0)); [done|]. by rewrite IH.
Qed.

(** [strncpy] of a chunk that has no zero but possibly its last byte. *)
Lemma strncpy_chunk src chunk y z :
  take (length chunk) src = chunk -> chunk = y ++ z -> zero_free y -> z = [] \/ z = [0] ->
  Server.strncpy src (length chunk) = chunk.
Proof.
  intros Ht -> Hy Hz. rewrite -(take_drop (length (y ++ z)) src) Ht -app_assoc. set (tl := drop _ src).
  unfold Server.strncpy. rewrite until0_app //. destruct Hz as [-> | ->].
  - rewrite app_nil_r take_app_length app_nil_l length_app. replace (_ - _)%nat with 0%nat by lia. by rewrite app_nil_r.
  - cbn [app Server.until0]. rewrite Z.eqb_refl app_nil_r length_app. rewrite take_ge; [lia|].
    replace (_ - _)%nat with 1%nat by (cbn; lia). done.
Qed.

(** The bytes of a path, with or without its terminator, and the path read back. *)
Definition path_bytes (d : list Z) (path : cstring) : Prop :=
  nul_free path /\ path <> [] /\ (d = bytes_of path \/ d = bytes_of path ++ [0]).

Lemma zero_free_bytes path : nul_free path -> zero_free (bytes_of path).
Proof.
  unfold nul_free, zero_free, bytes_of. intros Hn (c & Hc & Hin)%list_elem_of_fmap. apply Hn.
  assert (c = NUL) as <-; [|done]. unfold uchar in Hc. destruct c as [[] [] [] [] [] [] [] []]; by cbn in Hc.
Qed.

Lemma path_bytes_split d path : path_bytes d path -> exists z, d = bytes_of path ++ z /\ zero_free (bytes_of path) /\ (z = [] \/ z = [0]).
Proof.
  intros (Hn & _ & [-> | ->]); [exists []|exists [0]]; (split; [by rewrite ?app_nil_r|]); (split; [by apply zero_free_bytes|]); tauto.
Qed.

Lemma path_bytes_nonempty d path : path_bytes d path -> d <> [].
Proof. intros (_ & Hp & [-> | ->]); destruct path; done. Qed.

Lemma path_bytes_str d path : path_bytes d path -> c_str (of_bytes d) = path.
Proof.
  intros (Hn & _ & [-> | ->]).
  - rewrite of_bytes_of. by apply c_str_id.
  - unfold of_bytes. rewrite fmap_app. change (of_uchar <$> bytes_of path) with (of_bytes (bytes_of path)). rewrite of_bytes_of.
    change (of_uchar <$> [0]) with [NUL]. rewrite c_str_app_NUL. by apply c_str_id.
Qed.

Section server_laws.
Context `{SockLaws} {F : Type} `{Fs F}.
Context (junk : nat -> list Z) (Hjunk : forall i, Z.of_nat (length (junk i)) = sizeof_pkt).
Implicit Types v : peer F.

Lemma recv_path_loop_wp total d bs :
  packets total d bs -> 0 <= total < 2 ^ 64 - 1 -> forall fuel pkt path acc y z rest v,
  d = y ++ z -> zero_free y -> z = [] \/ z = [0] ->
  Z.of_nat (length pkt) = sizeof_pkt -> (length bs <= fuel)%nat -> p_in v = bs ++ rest ->
  default (u64 (total + 1), []) path = (total + 1, acc) -> Z.of_nat (length acc) + Z.of_nat (length d) <= total ->
  wp (Server.recv_path_loop fuel pkt path) (fun r v' => exists pkt', r = (total + 1, acc ++ d, pkt') /\
    pkt_total pkt' = total /\ took v rest v') v.
Proof using Type*.
  clear Hjunk junk. intros Hp Ht. induction Hp as [old chunk Ho Hc|old chunk rest0 bs Ho Hc Hp IH];
    intros fuel pkt path acc y z rest v Hd Hy Hz Hb Hf Hin Hpath Hl.
  - pose proof (length_packets _ _ _ (packets_last total old chunk Ho Hc)) as Hlen.
    destruct fuel as [|fuel]; [lia|]. cbn [Server.recv_path_loop]. apply wp_bind.
    eapply wp_mono; [apply (bound_read_packet_wp pkt old chunk true total rest v Hb Ho ltac:(lia) ltac:(lia) Hin)|].
    intros [r p] w1 (_ & Hl' & He & Hs & Htot & Hbuf & Hw1). cbn [fst snd] in *.
    apply wp_bind, recv_alloc_wp. intros w' Hw'. rewrite (proj1 Hw1) in Hw'.
    rewrite Htot Hpath Hs Nat2Z.id (strncpy_chunk _ chunk y z Hbuf Hd Hy Hz) He.
    apply wp_bind, wp_assert; [apply Z.leb_le; lia|]. apply wp_bind, wp_assert; [apply Z.leb_le; lia|].
    apply wp_ret. exists p. split_and!; [done|done|]. by eapply took_trans.
  - rewrite -app_assoc in Hin. rewrite length_app in Hf. rewrite length_app in Hl.
    assert (exists y', y = chunk ++ y' /\ rest0 = y' ++ z) as (y' & -> & ->).
    { pose proof (packets_nonempty _ _ _ Hp) as Hne. destruct (app_eq_app _ _ _ _ Hd) as (l & [[-> ->]|[-> ->]]).
      - destruct Hz as [E|E].
        + apply app_eq_nil in E as [-> ->]. exists []. by rewrite !app_nil_r.
        + destruct l as [|b l]; [exists []; by rewrite !app_nil_r|]. cbn in E. injection E as -> E.
          by apply app_eq_nil in E as [-> ->].
      - by exists l. }
    assert (zero_free chunk /\ zero_free y') as [Hz1 Hz2].
    { unfold zero_free in *. rewrite elem_of_app in Hy. tauto. }
    pose proof (length_packet old chunk false total Ho ltac:(lia)) as Hlen.
    pose proof (length_packets _ _ _ Hp) as Hlen2.
    destruct fuel as [|fuel]; [lia|]. cbn [Server.recv_path_loop]. apply wp_bind.
    eapply wp_mono; [apply (bound_read_packet_wp pkt old chunk false total (bs ++ rest) v Hb Ho ltac:(lia) ltac:(lia) Hin)|].
    intros [r p] w1 (_ & Hl' & He & Hs & Htot & Hbuf & Hw1). cbn [fst snd] in *.
    apply wp_bind, recv_alloc_wp. intros w' Hw'. rewrite (proj1 Hw1) in Hw'.
    pose proof (took_trans _ _ _ _ _ Hw1 Hw') as Hw.
    rewrite Htot Hpath Hs Nat2Z.id (strncpy_chunk _ chunk chunk [] Hbuf (eq_sym (app_nil_r _)) Hz1 (or_introl eq_refl)) He.
    apply wp_bind, wp_assert; [apply Z.leb_le; lia|]. apply wp_bind, wp_assert; [apply Z.leb_le; lia|].
    eapply wp_mono; [apply (IH fuel p (Some (total + 1, acc ++ chunk)) (acc ++ chunk) y' z rest w')|]; try done.
    + unfold sizeof_pkt in *. lia.
    + apply Hw.
    + rewrite length_app in Hl |- *. rewrite length_app. lia.
    + intros r' w'' (pkt' & -> & H3 & H4). exists pkt'. rewrite -app_assoc. split_and!; [done..|]. by eapply took_trans.
Qed.

(** A request as the server sees it: the opcode, then the path. *)
Lemma serve_request_wp o tl d path pktA pktB rest v (Q : bool -> peer F -> Prop) :
  0 <= o < 256 -> (length tl <= 38)%nat -> path_bytes d path -> Z.of_nat (length d) < 2 ^ 64 - 1 ->
  Z.of_nat (length pktA) = sizeof_pkt -> Z.of_nat (length pktB) = sizeof_pkt ->
  p_in v = fst (frames_of pktA (o :: 0 :: tl)) ++ fst (frames_of pktB d) ++ rest ->
  (forall v1, took v rest v1 -> wp (Server.thread_handler junk o path) (fun _ => Q true) v1) ->
  wp (Server.serve_request junk) Q v.
Proof using Type*.
  intros Ho Htl Hpath Hd HA HB Hin HQ. unfold Server.serve_request. apply wp_bind.
  eapply wp_mono; [apply (bound_read_small_wp _ _ (o :: 0 :: tl) (fst (frames_of pktB d) ++ rest) v (Hjunk 3) HA); [done|cbn; unfold BUF_SIZE; lia|exact Hin]|].
  intros [r p] v1 (Hr & Hlp & Hs & Hbuf & Hv1). cbn [fst snd] in *. subst r.
  rewrite (proj2 (Z.eqb_neq _ _)); [cbn; lia|]. apply wp_bind, wp_assert.
  { rewrite Hs. apply Z.leb_le. cbn. unfold Server.sizeof_thread_arg. lia. }
  cbv zeta. rewrite Hs Nat2Z.id Hbuf. apply wp_bind, wp_get, wp_bind.
  destruct (path_bytes_split d path Hpath) as (z & Hdz & Hzf & Hz).
  assert (u64 (Z.of_nat (length d) + 1) = Z.of_nat (length d) + 1) as Hu by (apply wrap_small; lia).
  eapply wp_mono; [apply (recv_path_loop_wp _ d _ (frames_of_packets pktB d HB (path_bytes_nonempty _ _ Hpath)) ltac:(lia)
    _ p None [] _ z rest v1 Hdz Hzf Hz Hlp)|].
  - rewrite (proj1 Hv1) length_app. lia.
  - apply Hv1.
  - cbn. by rewrite Hu.
  - cbn. lia.
  - intros r v2 (pkt' & -> & Ht & Hv2). cbn [app]. rewrite Ht.
    apply wp_bind, wp_assert; [apply Z.ltb_lt; lia|]. apply wp_bind, wp_assert; [apply Z.leb_le; lia|].
    rewrite Nat2Z.id (take_ge d) // (path_bytes_str d path Hpath).
    replace (field (blit _ 0 (o :: 0 :: tl)) 0 2) with o.
    + apply wp_bind. eapply wp_mono; [apply HQ; by eapply took_trans|]. intros [] v3 H3. by apply wp_ret.
    + unfold field, blit. change (Z.to_nat 0) with 0%nat. rewrite drop_0 take_0. rewrite app_nil_l -!app_comm_cons. cbn -[Z.mul Z.add]. rewrite take_0. cbn [unle]. lia.
Qed.
End server_laws.

(** What the peer sent before is not looked at again. *)
Lemma gave_trans {X} (w w1 w2 : peer X) b1 b2 : gave w b1 w1 -> gave w1 b2 w2 -> gave w (b1 ++ b2) w2.
Proof. unfold gave. rewrite app_assoc. intuition congruence. Qed.

Section together.
Context `{SockLaws} {F : Type} `{Fs F}.
Context (junkc junks : nat -> list Z).
Context (Hjc : forall i, Z.of_nat (length (junkc i)) = sizeof_pkt).
Context (Hjs : forall i, Z.of_nat (length (junks i)) = sizeof_pkt).

(** The client runs [h] against a server that serves one request: each reads what
    the other writes.  [replies] is what the kernel is answered, [f'] the file
    system of the server afterwards, [left_c] and [left_s] what the client and the
    server have not read; [w] and [v] are the states before. *)
Definition exchange (h : M (peer client) unit) (w : peer client) (v : peer F) (replies : list reply) (f' : F)
    (left_c left_s : list Z) : Prop :=
  exists req resp w' v',
    h (mkPeer resp false (p_out w) (p_tick w) (p_x w)) = Ok (tt, w') /\ p_out w' = p_out w ++ req /\
    Server.serve_request junks (mkPeer req false (p_out v) (p_tick v) (p_x v)) = Ok (true, v') /\
    p_out v' = p_out v ++ resp /\
    p_in w' = left_c /\ p_in v' = left_s /\ p_x v' = f' /\ c_replies (p_x w') = c_replies (p_x w) ++ replies.

Lemma exchange_intro h w v replies f' left_c left_s req resp :
  wp h (fun _ w' => p_out w' = p_out w ++ req /\ p_in w' = left_c /\ c_replies (p_x w') = c_replies (p_x w) ++ replies)
    (mkPeer resp false (p_out w) (p_tick w) (p_x w)) ->
  wp (Server.serve_request junks) (fun b v' => b = true /\ p_out v' = p_out v ++ resp /\ p_in v' = left_s /\ p_x v' = f')
    (mkPeer req false (p_out v) (p_tick v) (p_x v)) ->
  exchange h w v replies f' left_c left_s.
Proof using Type.
  clear Hjc Hjs. intros (a & w' & E1 & E2 & E3 & E4)%wp_Ok (b & v' & E5 & -> & E6 & E7 & E8)%wp_Ok. destruct a.
  exists req, resp, w', v'. by split_and!.
Qed.

Lemma the_path_wp path (Q : cstring -> peer client -> Prop) w :
  c_path (p_x w) = Some path -> Q path w -> wp Client.the_path Q w.
Proof using Type. intros E HQ. unfold wp, Client.the_path. by rewrite E. Qed.

(** The state of a peer after a sequence of sends and receives. *)
Ltac peer_chase := unfold took, gave in *; cbn [p_in p_out p_eof p_x] in *; intuition (try congruence).

Lemma fuse_study_read_wp ino size off path data bs w rest :
  c_path (p_x w) = Some path -> packets (Z.of_nat (length data)) data bs -> Z.of_nat (length data) < 2 ^ 64 ->
  p_in w = bs ++ rest ->
  wp (Client.fuse_study_read junkc ino size off) (fun _ w' =>
    p_out w' = p_out w ++ fst (frames_of (junkc 0%nat) (le 2 READ)) ++
      fst (frames_of (snd (frames_of (junkc 0%nat) (le 2 READ))) (bytes_of path)) /\
    p_in w' = rest /\ c_replies (p_x w') = c_replies (p_x w) ++ [R_buf data]) w.
Proof using Type*.
  clear Hjs. intros Hpath Hbs Hlen Hin. unfold Client.fuse_study_read.
  apply wp_bind, send_wp; [done|]. intros w1 Hw1. apply wp_bind, (the_path_wp path); [peer_chase|].
  apply wp_bind, send_wp; [by apply length_frames_of|]. intros w2 Hw2. apply wp_bind.
  eapply wp_mono; [apply (recv_message_wp data bs (junkc 1%nat) rest w2 Hbs Hlen (Hjc 1)); peer_chase|].
  intros [d p] w3 (Hd & _ & Hw3). cbn in Hd. subst d. apply wp_modify. cbn [p_in p_out p_x set_x c_replies].
  pose proof (gave_trans _ _ _ _ _ Hw1 Hw2) as Hg. destruct Hw3 as (-> & -> & _ & ->).
  destruct Hg as (-> & _ & _ & ->). done.
Qed.

(** The two messages of a request, the opcode in the first byte of the first. *)
Definition request (o : Z) (tl d : list Z) : list Z :=
  fst (frames_of (junkc 0%nat) (o :: tl)) ++ fst (frames_of (snd (frames_of (junkc 0%nat) (o :: tl))) d).

(** The server, reduced to the handler of the operation. *)
Lemma served_wp o tl d path rest v resp f' :
  0 <= o < 256 -> (length tl <= 38)%nat -> path_bytes d path -> Z.of_nat (length d) < 2 ^ 64 - 1 ->
  (forall v1, p_in v1 = rest -> p_x v1 = p_x v ->
     wp (Server.thread_handler junks o path) (fun _ v' => p_in v' = rest /\ p_out v' = p_out v1 ++ resp /\ p_x v' = f') v1) ->
  wp (Server.serve_request junks) (fun b v' => b = true /\ p_out v' = p_out v ++ resp /\ p_in v' = rest /\ p_x v' = f')
    (mkPeer (request o (0 :: tl) d ++ rest) false (p_out v) (p_tick v) (p_x v)).
Proof using Type*.
  intros Ho Htl Hp Hd Hh. unfold request. rewrite -app_assoc.
  eapply (serve_request_wp junks Hjs o tl d path (junkc 0%nat) _ rest _ _ Ho Htl Hp Hd (Hjc 0)); [|done|].
  - by apply length_frames_of.
  - intros v1 (E1 & E2 & _ & E3). cbn in *. eapply wp_mono; [apply Hh; [done|by rewrite E3]|].
    intros [] v2 (? & ? & ?). split_and!; congruence.
Qed.

Lemma gave_same (v v' : peer F) resp rest :
  p_in v = rest -> gave v resp v' -> p_in v' = rest /\ p_out v' = p_out v ++ resp /\ p_x v' = p_x v.
Proof using Type. clear Hjc Hjs. intros <- (? & ? & _ & ?). done. Qed.

(** A path that can be sent. *)
Definition good_path (path : cstring) : Prop := nul_free path /\ path <> [] /\ strlen path < 2 ^ 63.

Lemma good_path_bytes path :
  good_path path -> path_bytes (bytes_of path) path /\ Z.of_nat (length (bytes_of path)) < 2 ^ 64 - 1.
Proof using Type.
  intros (H1' & H2' & H3'). unfold path_bytes, strlen in *. split; [tauto|]. unfold bytes_of. rewrite length_fmap. lia.
Qed.

Lemma good_path_bytes0 path :
  good_path path -> path_bytes (bytes_of path ++ [0]) path /\ Z.of_nat (length (bytes_of path ++ [0])) < 2 ^ 64 - 1.
Proof using Type.
  intros (H1' & H2' & H3'). unfold path_bytes, strlen in *. split; [tauto|].
  unfold bytes_of. rewrite length_app length_fmap. cbn [length]. lia.
Qed.

(** The server's READ. *)
Lemma server_read_wp path data rest (v v1 : peer F) :
  fs_file (p_x v) path = Some data -> p_in v1 = rest -> p_x v1 = p_x v ->
  wp (Server.thread_handler junks READ path)
     (fun _ v' => p_in v' = rest /\ p_out v' = p_out v1 ++ fst (frames_of (junks 0%nat) data) /\ p_x v' = p_x v) v1.
Proof using Type*.
  clear Hjc junkc. intros Hf Hin Hx. cbn [Server.thread_handler]. apply wp_bind. unfold Server.fuse_study_read.
  apply wp_bind, wp_gets. rewrite Hx Hf. apply wp_bind, must_alloc_wp. intros v2 Hv2.
  apply wp_bind, send_wp; [done|]. intros v3 Hv3. apply wp_ret, wp_ret. peer_chase.
Qed.

(** Reading ignores the request.  When no call fails or is cut short, the client
    answers READ of a file that is not empty with all the bytes of the file,
    whatever size and offset were asked for; the low-level interface asks for
    exactly the requested bytes. *)
Theorem study_read_file w v ino size off path data :
  c_path (p_x w) = Some path -> good_path path -> fs_file (p_x v) path = Some data -> data <> [] ->
  Z.of_nat (length data) < 2 ^ 63 ->
  exchange (Client.fuse_study_read junkc ino size off) w v [R_buf data] (p_x v) [] [].
Proof using Type*.
  intros Hc [Hp Hl]%good_path_bytes Hf Hd Hlen.
  apply (exchange_intro _ _ _ _ _ _ _ (request READ [0] (bytes_of path)) (fst (frames_of (junks 0%nat) data))).
  - eapply wp_mono; [eapply (fuse_study_read_wp _ _ _ path data); [done|exact (frames_of_packets (junks 0%nat) data (Hjs 0) Hd)|lia|symmetry; apply app_nil_r]|].
    intros [] w' Hw. exact Hw.
  - rewrite -(app_nil_r (request _ _ _)). apply (served_wp _ [] _ path); [unfold READ; lia|cbn; lia|done|done|].
    intros v1 Hin Hx. by apply server_read_wp.
Qed.

(** The client's side of an answer that is an [int]. *)
Lemma bound_read_int_wp buf pkt x rest (w : peer client) (Q : Z * list Z -> peer client -> Prop) :
  Z.of_nat (length buf) = sizeof_pkt -> Z.of_nat (length pkt) = sizeof_pkt -> INT_MIN <= x <= INT_MAX ->
  p_in w = fst (frames_of pkt (le 4 x)) ++ rest ->
  (forall p w', Z.of_nat (length p) = sizeof_pkt -> pkt_int p = x -> took w rest w' -> Q (4, p) w') ->
  wp (bound_read buf) Q w.
Proof using Type*.
  clear Hjc Hjs. intros Hb Hp Hx Hin HQ.
  eapply wp_mono; [apply (bound_read_small_wp buf pkt (le 4 x) rest w Hb Hp); [done|done|done]|].
  intros [r p] w' (Hr & Hlp & _ & Hbuf & Hw). cbn in Hr. subst r. apply HQ; [done| |done]. by apply pkt_int_of.
Qed.

Lemma sys_alloc_wp {X} (w : peer X) (Q : bool -> peer X -> Prop) :
  (forall w', took w (p_in w) w' -> Q true w') -> wp sys_alloc Q w.
Proof using Type*. clear Hjc Hjs junkc junks. intros HQ. unfold wp, sys_alloc. rewrite mem_ok. by apply HQ. Qed.

(** The packet the server prepares for a [struct stat]. *)
Definition stat_pkt (st : list Z) : list Z := blit (blit (replicate 1048 0) 24 st) 16 (le 8 sizeof_stat).

Lemma length_stat_pkt st : Z.of_nat (length st) = sizeof_stat -> Z.of_nat (length (stat_pkt st)) = sizeof_pkt.
Proof using Type.
  unfold sizeof_stat, stat_pkt, sizeof_pkt. intros Hst.
  destruct (take_blit (replicate 1048 0) 24 st) as [_ E1]; [lia|rewrite length_replicate; lia|].
  destruct (take_blit (blit (replicate 1048 0) 24 st) 16 (le 8 sizeof_stat)) as [_ E2].
  - lia.
  - rewrite E1 length_replicate length_le. lia.
  - by rewrite E2 E1 length_replicate.
Qed.

(** What GETATTR is answered. *)
Definition getattr_reply (r : Z + list Z) : reply :=
  match r with inl e => R_err e | inr st => R_attr (stat_of st) (f64_of_Z 1) end.
Definition getattr_ok (r : Z + list Z) : Prop :=
  match r with inl e => 0 < e <= INT_MAX | inr st => Z.of_nat (length st) = sizeof_stat end.
Definition zeros : list Z := replicate 1048 0.
Definition getattr_bytes (r : Z + list Z) : list Z :=
  match r with
  | inl e => fst (frames_of zeros (le 4 (- e)))
  | inr st => fst (frames_of zeros (le 4 0)) ++ fst (frames_of (stat_pkt st) st)
  end.

Lemma server_getattr_wp path (v : peer F) :
  getattr_ok (fs_lstat (p_x v) path) ->
  wp (Server.fuse_study_getattr path) (fun _ v' => gave v (getattr_bytes (fs_lstat (p_x v) path)) v') v.
Proof using Type*.
  clear Hjc Hjs junkc junks. intros Hok. unfold Server.fuse_study_getattr. apply wp_bind, sys_alloc_wp. intros v1 Hv1. cbn [negb].
  apply wp_bind, wp_gets. assert (p_x v1 = p_x v) as -> by peer_chase.
  destruct (fs_lstat (p_x v) path) as [e|st]; cbn [getattr_ok getattr_bytes] in *.
  - apply wp_bind, send_wp; [done|]. intros v2 Hv2. apply wp_ret. unfold took, gave, zeros in *. intuition congruence.
  - apply wp_bind, send_wp; [done|]. intros v2 Hv2. apply wp_bind, must_alloc_wp. intros v3 Hv3.
    apply wp_bind, send_wp; [by apply length_stat_pkt|]. intros v4 Hv4. apply wp_ret. fold (stat_pkt st) in Hv4.
    unfold took, gave, zeros in *. rewrite app_assoc. intuition congruence.
Qed.

(** attributes.  For every node but the root the client answers GETATTR with
    the attributes the file system of the server has for the path of the last
    LOOKUP, or with the error the server got; both sides have then read all that
    was sent. *)
Theorem study_getattr_agrees w v uid gid now ino path :
  ino <> FUSE_ROOT_ID -> c_path (p_x w) = Some path -> good_path path -> getattr_ok (fs_lstat (p_x v) path) ->
  exchange (Client.fuse_study_getattr junkc uid gid now ino) w v [getattr_reply (fs_lstat (p_x v) path)] (p_x v) [] [].
Proof using Type*.
  intros Hino Hc [Hp Hl]%good_path_bytes0 Hok.
  apply (exchange_intro _ _ _ _ _ _ _ (request GETATTR [0] (bytes_of path ++ [0])) (getattr_bytes (fs_lstat (p_x v) path))).
  - unfold Client.fuse_study_getattr. rewrite (proj2 (Z.eqb_neq _ _) Hino). apply wp_bind, wp_get. cbn [p_x]. rewrite Hc.
    apply wp_bind, send_wp; [done|]. intros w1 Hw1. apply wp_bind, send_wp; [by apply length_frames_of|]. intros w2 Hw2.
    pose proof (gave_trans _ _ _ _ _ Hw1 Hw2) as (Ho & Hi & _ & Hx). cbn [p_in p_out p_x] in Ho, Hi, Hx. clear Hw1 Hw2 w1.
    change (p_out w2 = p_out w ++ request GETATTR [0] (bytes_of path ++ [0])) in Ho.
    destruct (fs_lstat (p_x v) path) as [e|st]; cbn [getattr_ok getattr_bytes getattr_reply] in *; apply wp_bind.
    + eapply (bound_read_int_wp (junkc 1%nat) zeros (- e) []); [done|done|unfold INT_MIN, INT_MAX in *; lia|by rewrite app_nil_r|].
      intros p w3 Hlp Hint Hw3. rewrite (proj2 (Z.leb_gt 4 0)) // Hint (proj2 (Z.eqb_neq _ _)); [lia|]. rewrite Z.opp_involutive.
      apply wp_modify. cbn [set_x p_in p_out p_x c_replies]. destruct Hw3 as (-> & -> & _ & ->). by rewrite Hx.
    + eapply (bound_read_int_wp (junkc 1%nat) zeros 0); [done|done|done|done|].
      intros p w3 Hlp Hint Hw3. rewrite (proj2 (Z.leb_gt 4 0)) // Hint. cbn [Z.eqb negb]. apply wp_bind.
      assert (st <> []) as Hne by (intros ->; done).
      eapply wp_mono; [apply (bound_read_small_wp p (stat_pkt st) st [] w3 Hlp (length_stat_pkt st Hok) Hne)|].
      * unfold sizeof_stat, BUF_SIZE in *. lia.
      * rewrite (proj1 Hw3). by rewrite app_nil_r.
      * intros [r p'] w4 (Hr & _ & Hs & Hbuf & Hw4). cbn [fst snd] in *. subst r. rewrite Hok (proj2 (Z.leb_gt sizeof_stat 0)) //.
        rewrite Hs Hok Z.ltb_irrefl. apply wp_modify. cbn [set_x p_in p_out p_x c_replies].
        unfold pkt_stat. replace 144%nat with (length st) by (unfold sizeof_stat in Hok; lia). rewrite Hbuf.
        destruct Hw4 as (-> & -> & _ & ->), Hw3 as (_ & -> & _ & ->). by rewrite Hx.
  - rewrite -(app_nil_r (request _ _ _)). apply (served_wp _ [] _ path); [unfold GETATTR; lia|cbn; lia|done|done|].
    intros v1 Hin Hx. change (Server.thread_handler junks GETATTR path) with (Server.fuse_study_getattr path ≫= fun _ => mret tt).
    apply wp_bind. rewrite -Hx in Hok |- *. eapply wp_mono; [by apply server_getattr_wp|].
    intros r v2 Hv2. apply wp_ret. by apply gave_same.
Qed.

(** What the server sends for LOOKUP: the flag, then a [struct stat] in every
    case. *)
Definition lookup_stat (f : F) (path : cstring) : list Z :=
  match fs_lstat f path with inl _ => take 144 (junks 2%nat) | inr st => st end.
Definition lookup_flag (f : F) (path : cstring) : list Z := le 4 (int_of_bool (fs_access f path)).
Definition lookup_bytes1 (f : F) (path : cstring) : list Z := fst (frames_of (junks 0%nat) (lookup_flag f path)).
Definition lookup_bytes2 (f : F) (path : cstring) : list Z :=
  fst (frames_of (snd (frames_of (junks 0%nat) (lookup_flag f path))) (lookup_stat f path)).

Lemma server_lookup_wp path (v1 : peer F) :
  wp (Server.thread_handler junks LOOKUP path)
     (fun _ v' => gave v1 (lookup_bytes1 (p_x v1) path ++ lookup_bytes2 (p_x v1) path) v') v1.
Proof using Type*.
  clear Hjc junkc. change (Server.thread_handler junks LOOKUP path) with (Server.fs ≫= fun f =>
    send (junks 0%nat) (lookup_flag f path) ≫= fun pkt => send pkt (lookup_stat f path) ≫= fun _ : list Z => @mret (M (peer F)) _ _ tt).
  apply wp_bind, wp_gets, wp_bind, send_wp; [done|]. intros v2 Hv2. apply wp_bind, send_wp; [by apply length_frames_of|].
  intros v3 Hv3. apply wp_ret. by eapply gave_trans.
Qed.

Lemma client_lookup_wp parent path (w : peer client) (Q : unit -> peer client -> Prop) :
  path <> [] ->
  (forall w', p_in w' = p_in w -> p_out w' = p_out w ++ request LOOKUP [0] (bytes_of path) ->
     p_x w' = mkClient (Some path) (c_replies (p_x w)) ->
     wp (pkt ← recv (junkc 1%nat);
         if pkt_int pkt =? 1 then
           pkt ← recv pkt;
           Client.answer (R_entry (mkEntry (sb_ino (stat_of (pkt_stat pkt))) 0 (stat_of (pkt_stat pkt)) (f64_of_Z 1) (f64_of_Z 1)))
         else Client.answer (R_err ENOENT)) Q w') ->
  wp (Client.fuse_study_lookup junkc parent path) Q w.
Proof using Type*.
  clear Hjs junks. intros Hp HQ. unfold Client.fuse_study_lookup. destruct path as [|c path]; [done|].
  apply wp_bind, must_alloc_wp. intros w1 Hw1. apply wp_bind, wp_modify, wp_bind, send_wp; [done|]. intros w2 Hw2.
  apply wp_bind, send_wp; [by apply length_frames_of|]. intros w3 Hw3.
  pose proof (gave_trans _ _ _ _ _ Hw2 Hw3) as (Ho & Hi & _ & Hx). cbn [p_in p_out p_x set_x] in Ho, Hi, Hx.
  destruct Hw1 as (E1 & E2 & _ & E3). apply (HQ w3); [congruence| |congruence]. rewrite Ho E2. done.
Qed.

(** Lookup of a path that exists: the client answers with the attributes of
    the server's file and its inode number. *)
Theorem study_lookup_found w v parent path st :
  good_path path -> fs_access (p_x v) path = true -> fs_lstat (p_x v) path = inr st -> Z.of_nat (length st) = sizeof_stat ->
  exchange (Client.fuse_study_lookup junkc parent path) w v
    [R_entry (mkEntry (sb_ino (stat_of st)) 0 (stat_of st) (f64_of_Z 1) (f64_of_Z 1))] (p_x v) [] [].
Proof using Type*.
  intros Hg Ha Hst Hlst. destruct (good_path_bytes _ Hg) as [Hp Hl].
  apply (exchange_intro _ _ _ _ _ _ _ (request LOOKUP [0] (bytes_of path))
    (lookup_bytes1 (p_x v) path ++ lookup_bytes2 (p_x v) path)).
  - apply client_lookup_wp; [apply Hg|]. intros w1 Hi Ho Hx. cbn [p_in p_out p_x] in *.
    unfold lookup_bytes1, lookup_bytes2, lookup_flag, lookup_stat in Hi. rewrite Ha Hst in Hi. cbn [int_of_bool] in Hi.
    apply wp_bind. eapply recv_small_wp; [done|exact (Hjs 0)| | |exact Hi|]; [done|done|].
    intros p w2 Hlp _ Hb Hw2. rewrite (pkt_int_of p 1 Hb) //. cbn [Z.eqb].
    apply wp_bind. eapply (recv_small_wp p (snd (frames_of (junks 0%nat) (le 4 1))) st []); [done|by apply length_frames_of| | | |].
    + intros ->. done.
    + unfold sizeof_stat, BUF_SIZE in *. lia.
    + rewrite (proj1 Hw2). symmetry. apply app_nil_r.
    + intros p' w3 _ _ Hb' Hw3. apply wp_modify. cbn [set_x p_in p_out p_x c_replies].
      unfold pkt_stat. replace 144%nat with (length st) by (unfold sizeof_stat in Hlst; lia). rewrite Hb'.
      destruct Hw3 as (-> & -> & _ & ->), Hw2 as (_ & -> & _ & ->). by rewrite Hx.
  - rewrite -(app_nil_r (request _ _ _)). apply (served_wp _ [] _ path); [unfold LOOKUP; lia|cbn; lia|done|done|].
    intros v1 Hin Hx. rewrite -Hx. eapply wp_mono; [apply server_lookup_wp|]. intros [] v2 Hv2. by apply gave_same.
Qed.

(** lookup of a path that does not exist is answered with [ENOENT], but the
    server sends a [struct stat] all the same.  The client leaves that packet in
    the stream, where the next operation will take it for its own answer. *)
Theorem study_lookup_missing_desync w v parent path :
  good_path path -> fs_access (p_x v) path = false -> Z.of_nat (length (lookup_stat (p_x v) path)) = sizeof_stat ->
  exchange (Client.fuse_study_lookup junkc parent path) w v [R_err ENOENT] (p_x v) (lookup_bytes2 (p_x v) path) [] /\
  (0 < length (lookup_bytes2 (p_x v) path))%nat.
Proof using Type*.
  intros Hg Ha Hlst. destruct (good_path_bytes _ Hg) as [Hp Hl]. split.
  2: { eapply length_packets, frames_of_packets; [by apply length_frames_of|]. intros E. by rewrite E in Hlst. }
  apply (exchange_intro _ _ _ _ _ _ _ (request LOOKUP [0] (bytes_of path))
    (lookup_bytes1 (p_x v) path ++ lookup_bytes2 (p_x v) path)).
  - apply client_lookup_wp; [apply Hg|]. intros w1 Hi Ho Hx. cbn [p_in p_out p_x] in *.
    unfold lookup_bytes1, lookup_flag in Hi. rewrite Ha in Hi. cbn [int_of_bool] in Hi.
    apply wp_bind. eapply recv_small_wp; [done|exact (Hjs 0)| | |exact Hi|]; [done|done|].
    intros p w2 Hlp _ Hb Hw2. rewrite (pkt_int_of p 0 Hb) //. cbn [Z.eqb]. apply wp_modify. cbn [set_x p_in p_out p_x c_replies].
    destruct Hw2 as (-> & -> & _ & ->). by rewrite Hx.
  - rewrite -(app_nil_r (request _ _ _)). apply (served_wp _ [] _ path); [unfold LOOKUP; lia|cbn; lia|done|done|].
    intros v1 Hin Hx. rewrite -Hx. eapply wp_mono; [apply server_lookup_wp|]. intros [] v2 Hv2. by apply gave_same.
Qed.

(** WRITE never writes.  The client sends the opcode of READ: the server
    answers with the old contents of the file, which nobody reads, its file
    system is unchanged, the data to be written stays in the stream as the next
    request, and the kernel gets no answer at all. *)
Theorem study_write_is_a_read w v ino buf size off path old :
  c_path (p_x w) = Some path -> good_path path -> fs_file (p_x v) path = Some old -> 0 ∈ buf ->
  exists left_s,
    exchange (Client.fuse_study_write junkc ino buf size off) w v [] (p_x v)
      (fst (frames_of (junks 0%nat) old)) left_s /\
    (c_str (of_bytes buf) <> [] -> left_s <> []).
Proof using Type*.
  intros Hc [Hp Hl]%good_path_bytes Hf Hbuf. set (data := bytes_of (c_str (of_bytes buf))).
  set (pk := snd (frames_of (snd (frames_of (junkc 0%nat) [READ; 0])) (bytes_of path))).
  assert (Z.of_nat (length pk) = sizeof_pkt) as Hpk by (unfold pk; by apply length_frames_of, length_frames_of).
  exists (fst (frames_of pk data)). split.
  2: { intros Hd E. pose proof (length_packets _ _ _ (frames_of_packets pk data Hpk ltac:(unfold data, bytes_of; by destruct (c_str (of_bytes buf))))) as Hlen.
       rewrite E in Hlen. cbn in Hlen. lia. }
  apply (exchange_intro _ _ _ _ _ _ _ (request READ [0] (bytes_of path) ++ fst (frames_of pk data)) (fst (frames_of (junks 0%nat) old))).
  - unfold Client.fuse_study_write. apply wp_bind, wp_assert; [by apply bool_decide_eq_true|]. cbv zeta. fold data.
    apply wp_bind, must_alloc_wp. intros w0 Hw0. apply wp_bind, send_wp; [done|]. intros w1 Hw1.
    apply wp_bind, (the_path_wp path); [peer_chase|]. apply wp_bind, send_wp; [by apply length_frames_of|]. intros w2 Hw2.
    apply wp_bind, send_wp; [done|]. intros w3 Hw3. apply wp_ret.
    pose proof (gave_trans _ _ _ _ _ (gave_trans _ _ _ _ _ Hw1 Hw2) Hw3) as (Ho & Hi & _ & Hx).
    destruct Hw0 as (E1 & E2 & _ & E3). cbn [p_in p_out p_x] in *. rewrite Ho Hi Hx E1 E2 E3 app_nil_r. done.
  - apply (served_wp _ [] _ path); [unfold READ; lia|cbn; lia|done|done|]. intros v1 Hin Hx. by apply server_read_wp.
Qed.
End together.

(** ** A concrete pair *)

(** A file system with one file, [a]. *)
Definition demo_path : cstring := lit "a".
Definition demo_data : list Z := replicate 2500 65.
Definition demo_stat : list Z := stat_ino_mode 7 33188.
#[global] Instance demo_fs : Fs unit := {
  fs_access := fun _ p => strcmp_eq p demo_path;
  fs_lstat := fun _ p => if strcmp_eq p demo_path then inr demo_stat else inl ENOENT;
  fs_stat := fun _ p => if strcmp_eq p demo_path then inr demo_stat else inl ENOENT;
  fs_open := fun _ p _ _ => (if strcmp_eq p demo_path then None else Some ENOENT, tt);
  fs_mkdir := fun _ p _ => (if strcmp_eq p demo_path then Some EEXIST else None, tt);
  fs_rmdir := fun _ _ => (Some ENOENT, tt);
  fs_unlink := fun _ _ => (None, tt);
  fs_readdir := fun _ _ => inr [(7, 8, demo_path)];
  fs_file := fun _ p => if strcmp_eq p demo_path then Some demo_data else None;
}.

Definition demo_junk (i : nat) : list Z := replicate 1048 (Z.of_nat i).
Definition demo_client (path : option cstring) : peer client := mkPeer [] false [] 0 (mkClient path []).
Definition demo_server : peer unit := mkPeer [] false [] 0 tt.

Lemma demo_junk_length i : Z.of_nat (length (demo_junk i)) = sizeof_pkt.
Proof. unfold demo_junk. by rewrite length_replicate. Qed.

Lemma demo_good_path : good_path demo_path.
Proof. split; [|split]; [|done|done]. unfold nul_free. by apply (bool_decide_unpack _). Qed.

Lemma study_read_file_witness :
  exchange demo_junk (Client.fuse_study_read demo_junk 7 4096 0) (demo_client (Some demo_path)) demo_server
    [R_buf demo_data] tt [] [].
Proof.
  apply (study_read_file demo_junk demo_junk demo_junk_length demo_junk_length (demo_client (Some demo_path)) demo_server
    7 4096 0 demo_path demo_data); [reflexivity|exact demo_good_path|reflexivity|discriminate|].
  unfold demo_data. rewrite length_replicate. lia.
Defined.

Lemma study_getattr_agrees_witness :
  exchange demo_junk (Client.fuse_study_getattr demo_junk 1000 1000 0 7) (demo_client (Some demo_path)) demo_server
    [R_attr (stat_of demo_stat) (Wire.f64_of_Z 1)] tt [] [].
Proof.
  assert (fs_lstat (p_x demo_server) demo_path = inr demo_stat) as E by reflexivity.
  pose proof (study_getattr_agrees demo_junk demo_junk demo_junk_length demo_junk_length (demo_client (Some demo_path)) demo_server
    1000 1000 0 7 demo_path) as Hg. rewrite E in Hg.
  apply Hg; [discriminate|reflexivity|exact demo_good_path|reflexivity].
Defined.

(** The packet the failed lookup of [b] leaves behind. *)
Lemma study_lookup_missing_desync_witness :
  exchange demo_junk (Client.fuse_study_lookup demo_junk 1 (lit "b")) (demo_client None) demo_server
    [R_err ENOENT] tt (lookup_bytes2 demo_junk tt (lit "b")) [] /\
  (0 < length (lookup_bytes2 demo_junk tt (lit "b")))%nat.
Proof.
  apply (study_lookup_missing_desync demo_junk demo_junk demo_junk_length demo_junk_length (demo_client None) demo_server 1 (lit "b"));
    [|reflexivity|reflexivity].
  split; [|split]; [|discriminate|reflexivity]. unfold nul_free. apply (bool_decide_unpack _). reflexivity.
Defined.

Lemma study_write_is_a_read_witness : exists left_s,
  exchange demo_junk (Client.fuse_study_write demo_junk 7 [66; 66; 0] 2 0) (demo_client (Some demo_path)) demo_server
    [] tt (fst (frames_of (demo_junk 0) demo_data)) left_s /\ left_s <> [].
Proof.
  destruct (study_write_is_a_read demo_junk demo_junk demo_junk_length demo_junk_length (demo_client (Some demo_path)) demo_server
    7 [66; 66; 0] 2 0 demo_path demo_data) as (l & H1 & H2); [reflexivity|exact demo_good_path|reflexivity| |].
  - apply (bool_decide_unpack _). reflexivity.
  - exists l. split; [exact H1|]. apply H2. discriminate.
Defined.

(** The event loop uses the socket of the latest connection for the bookkeeping of
    every client: when the first of two clients goes away, the second is cut off
    and the descriptor of the first stays open. *)
Lemma server_closes_wrong_client :
  let l := Server.mkLoop [3] [3] 0 [] in
  let l := Server.handle_event 3 3 5 false l in
  let l := Server.handle_event 3 3 6 false l in
  let l := Server.handle_event 3 5 0 true l in
  Server.l_open l = [3; 5] /\ Server.l_epoll l = [3; 5].
Proof. vm_compute. split; reflexivity. Qed.
