(* ===== verification/HighLevel.v ===== *)
(** * The high-level library ([lib/fuse.c]): from requests to paths

    Every [fuse_lib_] handler translates a request on inode numbers into calls of
    the file system on paths: it locks the path in the tree, calls the operation
    through its [fuse_fs_] wrapper, updates the node store, releases the path and
    answers.  The handlers are composed from the node store ([Node]), the path
    locks ([TreeLock]), the record locks ([Locks]) and lookup ([Dir]).

    One request is handled at a time, as by [fuse_loop]: a request that would have
    to wait for a path lock then waits for ever.  Interruption ([-o intr]) and
    debug output are left out.  What the file system answers is a parameter. *)
From Stdlib Require Import SpecFloat.
From S2P Require Import Prelude Locks NodeTable Node NodeOps TreeLock Wire Dir.

(** ** The file system *)

(** The members of [struct fuse_operations]. *)
Inductive fs_op :=
  | F_getattr | F_readlink | F_mknod | F_mkdir | F_unlink | F_rmdir | F_symlink | F_rename | F_link
  | F_chmod | F_chown | F_truncate | F_open | F_read | F_write | F_statfs | F_flush | F_release | F_fsync
  | F_setxattr | F_getxattr | F_listxattr | F_removexattr | F_opendir | F_readdir | F_releasedir | F_fsyncdir
  | F_access | F_create | F_lock | F_utimens | F_bmap | F_ioctl | F_poll | F_write_buf | F_read_buf | F_flock
  | F_fallocate | F_copy_file_range | F_lseek.

(** A call of one of them.  A path may be [NULL]; [struct timespec] is seconds and
    nanoseconds. *)
Inductive fs_call :=
  | C_getattr (path : option cstring) (fi : option fuse_file_info)
  | C_readlink (path : option cstring) (len : Z)
  | C_mknod (path : option cstring) (mode rdev : Z)
  | C_mkdir (path : option cstring) (mode : Z)
  | C_unlink (path : option cstring)
  | C_rmdir (path : option cstring)
  | C_symlink (linkname : cstring) (path : option cstring)
  | C_rename (oldpath newpath : option cstring) (flags : Z)
  | C_link (oldpath newpath : option cstring)
  | C_chmod (path : option cstring) (mode : Z) (fi : option fuse_file_info)
  | C_chown (path : option cstring) (uid gid : Z) (fi : option fuse_file_info)
  | C_truncate (path : option cstring) (size : Z) (fi : option fuse_file_info)
  | C_open (path : option cstring) (fi : fuse_file_info)
  | C_read (path : option cstring) (size off : Z) (fi : fuse_file_info)
  | C_read_buf (path : option cstring) (size off : Z) (fi : fuse_file_info)
  | C_write (path : option cstring) (data : list Z) (off : Z) (fi : fuse_file_info)
  | C_write_buf (path : option cstring) (data : list Z) (off : Z) (fi : fuse_file_info)
  | C_statfs (path : option cstring)
  | C_flush (path : option cstring) (fi : fuse_file_info)
  | C_release (path : option cstring) (fi : fuse_file_info)
  | C_fsync (path : option cstring) (datasync : Z) (fi : fuse_file_info)
  | C_setxattr (path : option cstring) (name : cstring) (value : list Z) (flags : Z)
  | C_getxattr (path : option cstring) (name : cstring) (size : Z)
  | C_listxattr (path : option cstring) (size : Z)
  | C_removexattr (path : option cstring) (name : cstring)
  | C_opendir (path : option cstring) (fi : fuse_file_info)
  | C_readdir (path : option cstring) (off : Z) (fi : fuse_file_info) (flags : Z)
  | C_releasedir (path : option cstring) (fi : fuse_file_info)
  | C_fsyncdir (path : option cstring) (datasync : Z) (fi : fuse_file_info)
  | C_access (path : option cstring) (mask : Z)
  | C_create (path : option cstring) (mode : Z) (fi : fuse_file_info)
  | C_lock (path : option cstring) (fi : fuse_file_info) (cmd : Z) (lk : flock)
  | C_utimens (path : option cstring) (atime mtime : Z * Z) (fi : option fuse_file_info)
  | C_bmap (path : option cstring) (blocksize idx : Z)
  | C_ioctl (path : option cstring) (cmd arg : Z) (fi : fuse_file_info) (flags : Z) (data : list Z)
  | C_poll (path : option cstring) (fi : fuse_file_info) (ph : option Z)
  | C_flock (path : option cstring) (fi : fuse_file_info) (op : Z)
  | C_fallocate (path : option cstring) (mode offset length : Z) (fi : fuse_file_info)
  | C_copy_file_range (path_in : option cstring) (fi_in : fuse_file_info) (off_in : Z)
      (path_out : option cstring) (fi_out : fuse_file_info) (off_out len flags : Z)
  | C_lseek (path : option cstring) (off whence : Z) (fi : fuse_file_info).

(** What it leaves behind: the result, and the contents of whatever the operation
    was given to fill in. *)
Record fs_ret := mkRet {
  r_res : Z;
  r_stat : stat;
  r_fi : fuse_file_info;
  r_data : list Z;
  r_statvfs : statvfs;
  r_flock : flock;
  r_num : Z;       (** [*idx], [*reventsp] *)
}.

(** ** The answers and the state *)

Inductive lib_reply :=
  | L_err (err : Z)
  | L_none
  | L_entry (e : fuse_entry_param)
  | L_create (e : fuse_entry_param) (fi : fuse_file_info)
  | L_attr (st : stat) (timeout : double)
  | L_readlink (linkname : cstring)
  | L_open (fi : fuse_file_info)
  | L_write (count : Z)
  | L_buf (data : list Z)
  | L_data (data : list Z)
  | L_statfs (st : statvfs)
  | L_xattr (count : Z)
  | L_lock (lk : flock)
  | L_bmap (idx : Z)
  | L_ioctl (result : Z) (data : list Z)
  | L_poll (revents : Z)
  | L_lseek (off : Z).

(** The library: the node store, the calls of the file system and the answers so
    far, and the directory handles. *)
Record lib := mkLib {
  l_fuse : fuse;
  l_calls : list fs_call;
  l_replies : list lib_reply;
  l_dhs : gmap Z fuse_dh;
  l_next_dh : Z;
}.

Definition set_l_fuse (h : lib) v := mkLib v (l_calls h) (l_replies h) (l_dhs h) (l_next_dh h).
Definition set_l_calls (h : lib) v := mkLib (l_fuse h) v (l_replies h) (l_dhs h) (l_next_dh h).
Definition set_l_replies (h : lib) v := mkLib (l_fuse h) (l_calls h) v (l_dhs h) (l_next_dh h).
Definition set_l_dhs (h : lib) v n := mkLib (l_fuse h) (l_calls h) (l_replies h) v n.

Definition O_ACCMODE : Z := 3.
Definition O_WRONLY : Z := 1.
Definition O_CREAT : Z := 64.
Definition O_EXCL : Z := 128.
Definition F_GETLK : Z := 5.
Definition F_SETLK : Z := 6.
Definition F_SETLKW : Z := 7.
Definition UTIME_NOW : Z := 1073741823.
Definition UTIME_OMIT : Z := 1073741822.
Definition RENAME_EXCHANGE : Z := 2.
Definition FUSE_SET_ATTR_MODE : Z := 1.
Definition FUSE_SET_ATTR_UID : Z := 2.
Definition FUSE_SET_ATTR_GID : Z := 4.
Definition FUSE_SET_ATTR_SIZE : Z := 8.
Definition FUSE_SET_ATTR_ATIME : Z := 16.
Definition FUSE_SET_ATTR_MTIME : Z := 32.
Definition FUSE_SET_ATTR_ATIME_NOW : Z := 128.
Definition FUSE_SET_ATTR_MTIME_NOW : Z := 256.
Definition FUSE_IOCTL_UNRESTRICTED : Z := 2.
Definition FUSE_IOCTL_DIR : Z := 16.
Definition S_ISREG (mode : Z) : bool := Z.land mode S_IFMT =? S_IFREG.

(** [memset(&fi, 0, sizeof(fi))] and assignments to its fields. *)
Definition fi0 : fuse_file_info := mkFi 0 false false false false false false false false false 0 0 0 0.
Definition fi_set (f : fuse_file_info) (flags : Z) (direct_io keep_cache cache_readdir noflush pdw : bool) (fh : Z) : fuse_file_info :=
  mkFi flags (fi_writepage f) direct_io keep_cache (fi_flush f) (fi_nonseekable f) (fi_flock_release f) cache_readdir noflush
    pdw fh (fi_lock_owner f) (fi_poll_events f) (fi_backing_id f).
Definition fi_with_flags (f : fuse_file_info) v := fi_set f v (fi_direct_io f) (fi_keep_cache f) (fi_cache_readdir f) (fi_noflush f) (fi_parallel_direct_writes f) (fi_fh f).
Definition fi_with_direct_io (f : fuse_file_info) := fi_set f (fi_flags f) true (fi_keep_cache f) (fi_cache_readdir f) (fi_noflush f) (fi_parallel_direct_writes f) (fi_fh f).
Definition fi_with_keep_cache (f : fuse_file_info) v := fi_set f (fi_flags f) (fi_direct_io f) v (fi_cache_readdir f) (fi_noflush f) (fi_parallel_direct_writes f) (fi_fh f).
Definition fi_with_cache_readdir (f : fuse_file_info) v := fi_set f (fi_flags f) (fi_direct_io f) (fi_keep_cache f) v (fi_noflush f) (fi_parallel_direct_writes f) (fi_fh f).
Definition fi_with_noflush (f : fuse_file_info) := fi_set f (fi_flags f) (fi_direct_io f) (fi_keep_cache f) (fi_cache_readdir f) true (fi_parallel_direct_writes f) (fi_fh f).
Definition fi_with_pdw (f : fuse_file_info) := fi_set f (fi_flags f) (fi_direct_io f) (fi_keep_cache f) (fi_cache_readdir f) (fi_noflush f) true (fi_fh f).
Definition fi_with_fh (f : fuse_file_info) v := fi_set f (fi_flags f) (fi_direct_io f) (fi_keep_cache f) (fi_cache_readdir f) (fi_noflush f) (fi_parallel_direct_writes f) v.

(** The data of a WRITE: whether it is one memory buffer, its bytes, and what
    copying it into memory returns when it is not. *)
Record wbuf := mkWbuf { wb_flat : bool; wb_data : list Z; wb_copy : Z }.

(** ** The operations of the library *)

(** The requests of [fuse_path_ops]; READDIRPLUS is [LO_readdir] with its flag. *)
Inductive lib_op :=
  | LO_lookup (parent_ : Z) (name_ : cstring)
  | LO_forget (ino nlookup : Z)
  | LO_forget_multi (forgets : list (Z * Z))
  | LO_getattr (ino : Z) (fi : option fuse_file_info)
  | LO_setattr (ino : Z) (attr : stat) (valid : Z) (fi : option fuse_file_info)
  | LO_access (ino mask : Z)
  | LO_readlink (ino : Z)
  | LO_mknod (parent_ : Z) (name_ : cstring) (mode rdev : Z)
  | LO_mkdir (parent_ : Z) (name_ : cstring) (mode : Z)
  | LO_unlink (parent_ : Z) (name_ : cstring)
  | LO_rmdir (parent_ : Z) (name_ : cstring)
  | LO_symlink (linkname : cstring) (parent_ : Z) (name_ : cstring)
  | LO_rename (olddir : Z) (oldname : cstring) (newdir : Z) (newname : cstring) (flags : Z)
  | LO_link (ino newparent : Z) (newname : cstring)
  | LO_create (parent_ : Z) (name_ : cstring) (mode : Z) (fi : fuse_file_info)
  | LO_open (ino : Z) (fi : fuse_file_info)
  | LO_read (ino size off : Z) (fi : fuse_file_info)
  | LO_write_buf (ino : Z) (buf : wbuf) (off : Z) (fi : fuse_file_info)
  | LO_flush (ino : Z) (fi : fuse_file_info)
  | LO_release (ino : Z) (fi : fuse_file_info)
  | LO_fsync (ino datasync : Z) (fi : fuse_file_info)
  | LO_opendir (ino : Z) (llfi : fuse_file_info)
  | LO_readdir (ino size off : Z) (llfi : fuse_file_info) (flags : Z)
  | LO_releasedir (ino : Z) (llfi : fuse_file_info)
  | LO_fsyncdir (ino datasync : Z) (llfi : fuse_file_info)
  | LO_statfs (ino : Z)
  | LO_setxattr (ino : Z) (name_ : cstring) (value : list Z) (flags : Z)
  | LO_getxattr (ino : Z) (name_ : cstring) (size : Z)
  | LO_listxattr (ino size : Z)
  | LO_removexattr (ino : Z) (name_ : cstring)
  | LO_getlk (ino : Z) (fi : fuse_file_info) (lk : flock)
  | LO_setlk (ino : Z) (fi : fuse_file_info) (lk : flock) (sleep : bool)
  | LO_flock (ino : Z) (fi : fuse_file_info) (op : Z)
  | LO_bmap (ino blocksize idx : Z)
  | LO_ioctl (ino cmd arg : Z) (llfi : fuse_file_info) (flags : Z) (in_buf : list Z) (out_bufsz : Z)
  | LO_poll (ino : Z) (fi : fuse_file_info) (ph : option Z)
  | LO_fallocate (ino mode offset length : Z) (fi : fuse_file_info)
  | LO_copy_file_range (nodeid_in off_in : Z) (fi_in : fuse_file_info) (nodeid_out off_out : Z) (fi_out : fuse_file_info) (len flags : Z)
  | LO_lseek (ino off whence : Z) (fi : fuse_file_info).

Section highlevel.
Abbreviation MH := (M lib).
(** The environment: the allocator and the clock by number of the call, which
    operations the file system has, what its [i]-th call answers, and what the
    [i]-th reply returns. *)
Context (alloc_ok : nat -> bool) (clock : nat -> Z) (conf : fuse_config) (ac_attr_timeout : double).
Context (has_op : fs_op -> bool) (fs_answer : nat -> fs_call -> fs_ret) (reply_res : nat -> Z).

(** Running an operation of the node store. *)
Definition on_fuse {A} (m : M fuse A) : MH A := fun h =>
  match m (l_fuse h) with
  | Ok (a, f) => Ok (a, set_l_fuse h f)
  | Abort => Abort
  | Diverge => Diverge
  end.

Definition fs_do (c : fs_call) : MH fs_ret :=
  fun h => Ok (fs_answer (length (l_calls h)) c, set_l_calls h (l_calls h ++ [c])).

(** A member of [fs->op], or the result when it is missing. *)
Definition fs_or (o : fs_op) (c : fs_call) (missing : Z) : MH Z :=
  if has_op o then r ← fs_do c; mret (r_res r) else mret missing.

(** ** The [fuse_fs_] wrappers *)

Definition fuse_fs_getattr (path : option cstring) (buf : stat) (fi : option fuse_file_info) : MH (Z * stat) :=
  if has_op F_getattr then r ← fs_do (C_getattr path fi); mret (r_res r, r_stat r) else mret (- ENOSYS, buf).
Definition fuse_fs_rename (oldpath newpath : option cstring) (flags : Z) : MH Z :=
  fs_or F_rename (C_rename oldpath newpath flags) (- ENOSYS).
Definition fuse_fs_unlink (path : option cstring) : MH Z := fs_or F_unlink (C_unlink path) (- ENOSYS).
Definition fuse_fs_rmdir (path : option cstring) : MH Z := fs_or F_rmdir (C_rmdir path) (- ENOSYS).
Definition fuse_fs_symlink (linkname : cstring) (path : option cstring) : MH Z :=
  fs_or F_symlink (C_symlink linkname path) (- ENOSYS).
Definition fuse_fs_link (oldpath newpath : option cstring) : MH Z := fs_or F_link (C_link oldpath newpath) (- ENOSYS).

(** The entries a file system hands to [filler], one after the other until it says
    that there is no more room. *)
Fixpoint fill_entries {A} (filler : cstring -> A -> MH Z) (entries : list (cstring * A)) : MH unit :=
  match entries with
  | [] => mret tt
  | (name, rest) :: entries => res ← filler name rest; if truth res then mret tt else fill_entries filler entries
  end.

(** [fs_entries]: the entries, with what goes with the name, that the file system has
    for a call of [readdir]. *)
Definition fuse_fs_readdir {A} (fs_entries : fs_call -> list (cstring * A)) (path : option cstring) (filler : cstring -> A -> MH Z)
    (off : Z) (fi : fuse_file_info) (flags : Z) : MH Z :=
  if has_op F_readdir then
    r ← fs_do (C_readdir path off fi flags);
    fill_entries filler (fs_entries (C_readdir path off fi flags));;
    mret (r_res r)
  else mret (- ENOSYS).

Definition fuse_fs_release (path : option cstring) (fi : fuse_file_info) : MH Z := fs_or F_release (C_release path fi) 0.
Definition fuse_fs_opendir (path : option cstring) (fi : fuse_file_info) : MH (Z * fuse_file_info) :=
  if has_op F_opendir then r ← fs_do (C_opendir path fi); mret (r_res r, r_fi r) else mret (0, fi).
Definition fuse_fs_open (path : option cstring) (fi : fuse_file_info) : MH (Z * fuse_file_info) :=
  if has_op F_open then r ← fs_do (C_open path fi); mret (r_res r, r_fi r) else mret (0, fi).

(** The bytes that the buffer vector holds or refers to. *)
Definition fuse_fs_read_buf (path : option cstring) (size off : Z) (fi : fuse_file_info) : MH (Z * list Z) :=
  if has_op F_read || has_op F_read_buf then
    if has_op F_read_buf then
      r ← fs_do (C_read_buf path size off fi);
      mret (if r_res r <? 0 then r_res r else 0, r_data r)
    else
      ok ← on_fuse (alloc alloc_ok);
      if negb ok then mret (- ENOMEM, [])
      else
        ok ← on_fuse (alloc alloc_ok);
        if negb ok then mret (- ENOMEM, [])
        else
          r ← fs_do (C_read path size off fi);
          if r_res r <? 0 then mret (r_res r, r_data r) else mret (0, take (Z.to_nat (r_res r)) (r_data r))
  else mret (- ENOSYS, []).

Definition fuse_fs_write_buf (path : option cstring) (buf : wbuf) (off : Z) (fi : fuse_file_info) : MH Z :=
  if has_op F_write_buf || has_op F_write then
    if has_op F_write_buf then r ← fs_do (C_write_buf path (wb_data buf) off fi); mret (r_res r)
    else if wb_flat buf then r ← fs_do (C_write path (wb_data buf) off fi); mret (r_res r)
    else
      ok ← on_fuse (alloc alloc_ok);
      if negb ok then mret (- ENOMEM)
      else if wb_copy buf <=? 0 then mret (wb_copy buf)
      else r ← fs_do (C_write path (take (Z.to_nat (wb_copy buf)) (wb_data buf)) off fi); mret (r_res r)
  else mret (- ENOSYS).
Definition fuse_fs_write (path : option cstring) (mem : list Z) (off : Z) (fi : fuse_file_info) : MH Z :=
  fuse_fs_write_buf path (mkWbuf true mem 0) off fi.

Definition fuse_fs_fsync (path : option cstring) (datasync : Z) (fi : fuse_file_info) : MH Z :=
  fs_or F_fsync (C_fsync path datasync fi) (- ENOSYS).
Definition fuse_fs_fsyncdir (path : option cstring) (datasync : Z) (fi : fuse_file_info) : MH Z :=
  fs_or F_fsyncdir (C_fsyncdir path datasync fi) (- ENOSYS).
Definition fuse_fs_flush (path : option cstring) (fi : fuse_file_info) : MH Z := fs_or F_flush (C_flush path fi) (- ENOSYS).
Definition fuse_fs_statfs (path : option cstring) (buf : statvfs) : MH (Z * statvfs) :=
  if has_op F_statfs then r ← fs_do (C_statfs path); mret (r_res r, r_statvfs r)
  else mret (0, mkStatvfs 512 (f_frsize buf) (f_blocks buf) (f_bfree buf) (f_bavail buf) (f_files buf) (f_ffree buf) 255).
Definition fuse_fs_releasedir (path : option cstring) (fi : fuse_file_info) : MH Z :=
  fs_or F_releasedir (C_releasedir path fi) 0.
Definition fuse_fs_create (path : option cstring) (mode : Z) (fi : fuse_file_info) : MH (Z * fuse_file_info) :=
  if has_op F_create then r ← fs_do (C_create path mode fi); mret (r_res r, r_fi r) else mret (- ENOSYS, fi).
Definition fuse_fs_lock (path : option cstring) (fi : fuse_file_info) (cmd : Z) (lk : flock) : MH (Z * flock) :=
  if has_op F_lock then r ← fs_do (C_lock path fi cmd lk); mret (r_res r, r_flock r) else mret (- ENOSYS, lk).
Definition fuse_fs_flock (path : option cstring) (fi : fuse_file_info) (op : Z) : MH Z :=
  fs_or F_flock (C_flock path fi op) (- ENOSYS).
Definition fuse_fs_chmod (path : option cstring) (mode : Z) (fi : option fuse_file_info) : MH Z :=
  fs_or F_chmod (C_chmod path mode fi) (- ENOSYS).
Definition fuse_fs_chown (path : option cstring) (uid gid : Z) (fi : option fuse_file_info) : MH Z :=
  fs_or F_chown (C_chown path uid gid fi) (- ENOSYS).
Definition fuse_fs_truncate (path : option cstring) (size : Z) (fi : option fuse_file_info) : MH Z :=
  fs_or F_truncate (C_truncate path size fi) (- ENOSYS).
Definition fuse_fs_utimens (path : option cstring) (atime mtime : Z * Z) (fi : option fuse_file_info) : MH Z :=
  fs_or F_utimens (C_utimens path atime mtime fi) (- ENOSYS).
Definition fuse_fs_access (path : option cstring) (mask : Z) : MH Z := fs_or F_access (C_access path mask) (- ENOSYS).
Definition fuse_fs_readlink (path : option cstring) (len : Z) : MH (Z * list Z) :=
  if has_op F_readlink then r ← fs_do (C_readlink path len); mret (r_res r, r_data r) else mret (- ENOSYS, []).
Definition fuse_fs_mknod (path : option cstring) (mode rdev : Z) : MH Z :=
  fs_or F_mknod (C_mknod path mode rdev) (- ENOSYS).
Definition fuse_fs_mkdir (path : option cstring) (mode : Z) : MH Z := fs_or F_mkdir (C_mkdir path mode) (- ENOSYS).
Definition fuse_fs_setxattr (path : option cstring) (name : cstring) (value : list Z) (flags : Z) : MH Z :=
  fs_or F_setxattr (C_setxattr path name value flags) (- ENOSYS).
Definition fuse_fs_getxattr (path : option cstring) (name : cstring) (size : Z) : MH (Z * list Z) :=
  if has_op F_getxattr then r ← fs_do (C_getxattr path name size); mret (r_res r, r_data r) else mret (- ENOSYS, []).
Definition fuse_fs_listxattr (path : option cstring) (size : Z) : MH (Z * list Z) :=
  if has_op F_listxattr then r ← fs_do (C_listxattr path size); mret (r_res r, r_data r) else mret (- ENOSYS, []).
Definition fuse_fs_bmap (path : option cstring) (blocksize idx : Z) : MH (Z * Z) :=
  if has_op F_bmap then r ← fs_do (C_bmap path blocksize idx); mret (r_res r, r_num r) else mret (- ENOSYS, idx).
Definition fuse_fs_removexattr (path : option cstring) (name : cstring) : MH Z :=
  fs_or F_removexattr (C_removexattr path name) (- ENOSYS).
Definition fuse_fs_ioctl (path : option cstring) (cmd arg : Z) (fi : fuse_file_info) (flags : Z) (data : list Z) : MH (Z * list Z) :=
  if has_op F_ioctl then r ← fs_do (C_ioctl path cmd arg fi flags data); mret (r_res r, r_data r) else mret (- ENOSYS, data).
Definition fuse_fs_poll (path : option cstring) (fi : fuse_file_info) (ph : option Z) (revents : Z) : MH (Z * Z) :=
  if has_op F_poll then r ← fs_do (C_poll path fi ph); mret (r_res r, r_num r) else mret (- ENOSYS, revents).
Definition fuse_fs_fallocate (path : option cstring) (mode offset length : Z) (fi : fuse_file_info) : MH Z :=
  fs_or F_fallocate (C_fallocate path mode offset length fi) (- ENOSYS).
Definition fuse_fs_copy_file_range (path_in : option cstring) (fi_in : fuse_file_info) (off_in : Z)
    (path_out : option cstring) (fi_out : fuse_file_info) (off_out len flags : Z) : MH Z :=
  fs_or F_copy_file_range (C_copy_file_range path_in fi_in off_in path_out fi_out off_out len flags) (- ENOSYS).
Definition fuse_fs_lseek (path : option cstring) (off whence : Z) (fi : fuse_file_info) : MH Z :=
  fs_or F_lseek (C_lseek path off whence fi) (- ENOSYS).
(** ** Answers *)

Definition reply (r : lib_reply) : MH Z :=
  fun h => Ok (reply_res (length (l_replies h)), set_l_replies h (l_replies h ++ [r])).

Definition reply_err (err : Z) : MH unit := reply (L_err (- err));; mret tt.

Definition reply_entry (e : fuse_entry_param) (err : Z) : MH unit :=
  if truth err then reply_err err
  else
    r ← reply (L_entry e);
    if (r =? - ENOENT) && truth (e_ino e) then on_fuse (forget_node alloc_ok clock (c_remember conf) (e_ino e) 1)
    else mret tt.

(** ** Paths *)

(** A request that has to wait for a path lock waits for ever: no other request
    runs. *)
Definition no_wait {A} (m : M fuse (A + queue_element)) : M fuse A :=
  r ← m;
  match r with inl a => mret a | inr _ => diverge end.

Definition lib_get_path (nodeid : Z) : M fuse path_result := no_wait (get_path alloc_ok 0 nodeid).
Definition lib_get_path_nullok (nodeid : Z) : M fuse path_result :=
  no_wait (get_path_nullok alloc_ok (c_nullpath_ok conf) 0 nodeid).
Definition lib_get_path_name (nodeid : Z) (name : option cstring) : M fuse path_result :=
  no_wait (get_path_common alloc_ok 0 nodeid name false).
Definition lib_get_path_wrlock (nodeid : Z) (name : cstring) : M fuse path_result :=
  no_wait (get_path_wrlock alloc_ok 0 nodeid name).
Definition lib_get_path2 (nodeid1 : Z) (name1 : option cstring) (nodeid2 : Z) (name2 : option cstring) (w : bool)
  : M fuse (Z * option (cstring * cstring) * option Z * option Z) :=
  no_wait (get_path2 alloc_ok 0 nodeid1 name1 nodeid2 name2 w w).

(** Nobody is queued. *)
Definition lib_free_path (nodeid : Z) (path : option cstring) : M fuse unit :=
  free_path alloc_ok [] nodeid path;; mret tt.
Definition lib_free_path_wrlock (nodeid : Z) (wnode : option Z) : M fuse unit :=
  free_path_wrlock alloc_ok [] nodeid wnode;; mret tt.
Definition lib_free_path2 (nodeid1 nodeid2 : Z) (wnode1 wnode2 : option Z) : M fuse unit :=
  free_path2 alloc_ok [] nodeid1 nodeid2 wnode1 wnode2;; mret tt.

(** The frame of most handlers: take the path, and if that succeeds call [body]
    and release the path. *)
Definition with_path {A} (take_path : M fuse path_result) (nodeid : Z) (failed : Z -> A)
    (body : option cstring -> MH A) : MH A :=
  r ← on_fuse take_path;
  let '(err, path, _) := r in
  if truth err then mret (failed err)
  else
    a ← body path;
    on_fuse (lib_free_path nodeid path);;
    mret a.

(** ** Lookup *)

Definition lookup_path (nodeid : Z) (name path : option cstring) (fi : option fuse_file_info) : MH (Z * fuse_entry_param) :=
  r ← fuse_fs_getattr path stat_zero fi;
  let '(res, st) := r in
  let e := mkEntry 0 0 st (f64_of_Z 0) (f64_of_Z 0) in
  if res =? 0 then on_fuse (do_lookup alloc_ok clock conf nodeid name e) else mret (res, e).

Definition fuse_lib_lookup (parent_ : Z) (name_ : cstring) : MH unit :=
  let len := strlen name_ in
  let dots := ceq (char_at name_ 0) "."%char && ((len =? 1) || (ceq (char_at name_ 1) "."%char && (len =? 2))) in
  h ← get;
  r ← (if negb dots then mret (Some (parent_, Some name_, None))
       else if len =? 1 then
         match get_node_nocheck (l_fuse h) parent_ with
         | None => mret None
         | Some dot => on_fuse (update dot (fun nd => set_refctr nd (refctr nd + 1)));; mret (Some (parent_, None, Some dot))
         end
       else
         n ← on_fuse (get_node parent_);
         nd ← on_fuse (deref n);
         match parent nd with
         | Some p => mret (Some (p, None, None))
         | None => abort
         end);
  match r with
  | None => reply_entry entry_zero (- ESTALE)
  | Some (parent_, name_, dot) =>
    r ← with_path (lib_get_path_name parent_ name_) parent_ (fun err => (err, entry_zero)) (fun path =>
          r ← lookup_path parent_ name_ path None;
          let '(err, e) := r in
          if (err =? - ENOENT) && negb (SFeqb (c_negative_timeout conf) (f64_of_Z 0)) then
            mret (0, mkEntry 0 (e_generation e) (e_attr e) (e_attr_timeout e) (c_negative_timeout conf))
          else mret (err, e));
    let '(err, e) := r in
    (match dot with Some n => on_fuse (unref_node alloc_ok (c_remember conf) n) | None => mret tt end);;
    reply_entry e err
  end.

Definition do_forget (ino nlookup : Z) : M fuse unit := forget_node alloc_ok clock (c_remember conf) ino nlookup.

Definition fuse_lib_forget (ino nlookup : Z) : MH unit :=
  on_fuse (do_forget ino nlookup);;
  reply L_none;; mret tt.

Fixpoint forget_all (forgets : list (Z * Z)) : M fuse unit :=
  match forgets with
  | [] => mret tt
  | (ino, nlookup) :: rest => do_forget ino nlookup;; forget_all rest
  end.

Definition fuse_lib_forget_multi (forgets : list (Z * Z)) : MH unit :=
  on_fuse (forget_all forgets);;
  reply L_none;; mret tt.

(** ** Attributes *)

Definition getattr_path (fi : option fuse_file_info) (ino : Z) : M fuse path_result :=
  match fi with Some _ => lib_get_path_nullok ino | None => lib_get_path ino end.

Definition set_sb_nlink (s : stat) (v : Z) : stat :=
  mkStat (sb_ino s) (sb_mode s) v (sb_uid s) (sb_gid s) (sb_rdev s) (sb_size s) (sb_blksize s) (sb_blocks s)
    (sb_atime s) (sb_mtime s) (sb_ctime s) (sb_atimensec s) (sb_mtimensec s) (sb_ctimensec s).

Definition auto_update (n : Z) (st : stat) : M fuse unit :=
  if c_auto_cache conf then update_stat clock n (stat_mtime st) (sb_size st) else mret tt.

Definition fuse_lib_getattr (ino : Z) (fi : option fuse_file_info) : MH unit :=
  r ← with_path (getattr_path fi ino) ino (fun err => (err, stat_zero)) (fun path => fuse_fs_getattr path stat_zero fi);
  let '(err, buf) := r in
  if truth err then reply_err err
  else
    n ← on_fuse (get_node ino);
    nd ← on_fuse (deref n);
    let buf := if is_hidden nd && (0 <? sb_nlink buf) then set_sb_nlink buf (sb_nlink buf - 1) else buf in
    on_fuse (auto_update n buf);;
    reply (L_attr (set_stat conf ino buf) (c_attr_timeout conf));; mret tt.

(** The times that [setattr] passes on. *)
Definition attr_atime (attr : stat) (valid : Z) : Z * Z :=
  if has_flag valid FUSE_SET_ATTR_ATIME_NOW then (0, UTIME_NOW)
  else if has_flag valid FUSE_SET_ATTR_ATIME then (sb_atime attr, sb_atimensec attr) else (0, UTIME_OMIT).
Definition attr_mtime (attr : stat) (valid : Z) : Z * Z :=
  if has_flag valid FUSE_SET_ATTR_MTIME_NOW then (0, UTIME_NOW)
  else if has_flag valid FUSE_SET_ATTR_MTIME then (sb_mtime attr, sb_mtimensec attr) else (0, UTIME_OMIT).

(** [if (!err && c) err = m] *)
Definition step_if (err : Z) (c : bool) (m : MH Z) : MH Z := if negb (truth err) && c then m else mret err.

Definition setattr_calls (path : option cstring) (attr : stat) (valid : Z) (fi : option fuse_file_info) : MH (Z * stat) :=
  err ← step_if 0 (has_flag valid FUSE_SET_ATTR_MODE) (fuse_fs_chmod path (sb_mode attr) fi);
  err ← step_if err (has_flag valid (Z.lor FUSE_SET_ATTR_UID FUSE_SET_ATTR_GID))
          (fuse_fs_chown path
             (if has_flag valid FUSE_SET_ATTR_UID then sb_uid attr else UINT_MAX)
             (if has_flag valid FUSE_SET_ATTR_GID then sb_gid attr else UINT_MAX) fi);
  err ← step_if err (has_flag valid FUSE_SET_ATTR_SIZE) (fuse_fs_truncate path (sb_size attr) fi);
  err ← step_if err (has_flag valid (Z.lor FUSE_SET_ATTR_ATIME FUSE_SET_ATTR_MTIME))
          (fuse_fs_utimens path (attr_atime attr valid) (attr_mtime attr valid) fi);
  if truth err then mret (err, stat_zero) else fuse_fs_getattr path stat_zero fi.

Definition fuse_lib_setattr (ino : Z) (attr : stat) (valid : Z) (fi : option fuse_file_info) : MH unit :=
  r ← with_path (getattr_path fi ino) ino (fun err => (err, stat_zero)) (fun path => setattr_calls path attr valid fi);
  let '(err, buf) := r in
  if truth err then reply_err err
  else
    (if c_auto_cache conf then n ← on_fuse (get_node ino); on_fuse (auto_update n buf) else mret tt);;
    reply (L_attr (set_stat conf ino buf) (c_attr_timeout conf));; mret tt.

(** ** Calls on a path that only return an error *)

Definition err_op (take_path : M fuse path_result) (ino : Z) (call : option cstring -> MH Z) : MH unit :=
  err ← with_path take_path ino id call;
  reply_err err.

Definition fuse_lib_access (ino mask : Z) : MH unit :=
  err_op (lib_get_path ino) ino (fun path => fuse_fs_access path mask).
Definition fuse_lib_fsync (ino datasync : Z) (fi : fuse_file_info) : MH unit :=
  err_op (lib_get_path_nullok ino) ino (fun path => fuse_fs_fsync path datasync fi).
Definition fuse_lib_setxattr (ino : Z) (name : cstring) (value : list Z) (flags : Z) : MH unit :=
  err_op (lib_get_path ino) ino (fun path => fuse_fs_setxattr path name value flags).
Definition fuse_lib_removexattr (ino : Z) (name : cstring) : MH unit :=
  err_op (lib_get_path ino) ino (fun path => fuse_fs_removexattr path name).
Definition fuse_lib_flock (ino : Z) (fi : fuse_file_info) (op : Z) : MH unit :=
  err_op (lib_get_path_nullok ino) ino (fun path => fuse_fs_flock path fi op).
Definition fuse_lib_fallocate (ino mode offset length : Z) (fi : fuse_file_info) : MH unit :=
  err_op (lib_get_path_nullok ino) ino (fun path => fuse_fs_fallocate path mode offset length fi).

(** ** Calls on a path that return data *)

Definition PATH_MAX : Z := 4096.

Definition fuse_lib_readlink (ino : Z) : MH unit :=
  r ← with_path (lib_get_path ino) ino (fun err => (err, [])) (fun path => fuse_fs_readlink path (PATH_MAX + 1));
  let '(err, linkname) := r in
  if truth err then reply_err err
  else reply (L_readlink (c_str (of_bytes (take (Z.to_nat PATH_MAX) linkname))));; mret tt.

Definition fuse_lib_read (ino size off : Z) (fi : fuse_file_info) : MH unit :=
  r ← with_path (lib_get_path_nullok ino) ino (fun err => (err, [])) (fun path => fuse_fs_read_buf path size off fi);
  let '(res, buf) := r in
  if res =? 0 then reply (L_data buf);; mret tt else reply_err res.

Definition fuse_lib_write_buf (ino : Z) (buf : wbuf) (off : Z) (fi : fuse_file_info) : MH unit :=
  res ← with_path (lib_get_path_nullok ino) ino id (fun path => fuse_fs_write_buf path buf off fi);
  if 0 <=? res then reply (L_write res);; mret tt else reply_err res.

Definition fuse_lib_statfs (ino : Z) : MH unit :=
  let zero := mkStatvfs 0 0 0 0 0 0 0 0 in
  r ← with_path (if truth ino then lib_get_path ino else mret (0, None, None)) ino (fun err => (err, zero))
        (fun path => fuse_fs_statfs (Some (default (lit "/") path)) zero);
  let '(err, buf) := r in
  if truth err then reply_err err else reply (L_statfs buf);; mret tt.

(** [fuse_lib_getxattr] and [fuse_lib_listxattr]: [call] is [common_getxattr] or
    [common_listxattr]. *)
Definition common_getxattr (ino : Z) (name : cstring) (size : Z) : MH (Z * list Z) :=
  with_path (lib_get_path ino) ino (fun err => (err, [])) (fun path => fuse_fs_getxattr path name size).
Definition common_listxattr (ino size : Z) : MH (Z * list Z) :=
  with_path (lib_get_path ino) ino (fun err => (err, [])) (fun path => fuse_fs_listxattr path size).

Definition xattr_op (size : Z) (call : MH (Z * list Z)) : MH unit :=
  if truth size then
    ok ← on_fuse (alloc alloc_ok);
    if negb ok then reply_err (- ENOMEM)
    else
      r ← call;
      let '(res, value) := r in
      if 0 <? res then reply (L_buf (take (Z.to_nat res) value));; mret tt else reply_err res
  else
    r ← call;
    let '(res, _) := r in
    if 0 <=? res then reply (L_xattr res);; mret tt else reply_err res.

Definition fuse_lib_getxattr (ino : Z) (name : cstring) (size : Z) : MH unit := xattr_op size (common_getxattr ino name size).
Definition fuse_lib_listxattr (ino size : Z) : MH unit := xattr_op size (common_listxattr ino size).

Definition fuse_lib_bmap (ino blocksize idx : Z) : MH unit :=
  r ← with_path (lib_get_path ino) ino (fun err => (err, idx)) (fun path => fuse_fs_bmap path blocksize idx);
  let '(err, idx) := r in
  if truth err then reply_err err else reply (L_bmap idx);; mret tt.

Definition fuse_lib_poll (ino : Z) (fi : fuse_file_info) (ph : option Z) : MH unit :=
  r ← with_path (lib_get_path_nullok ino) ino (fun err => (err, 0)) (fun path => fuse_fs_poll path fi ph 0);
  let '(err, revents) := r in
  if truth err then reply_err err else reply (L_poll revents);; mret tt.

Definition fuse_lib_lseek (ino off whence : Z) (fi : fuse_file_info) : MH unit :=
  r ← with_path (lib_get_path ino) ino inl (fun path => res ← fuse_fs_lseek path off whence fi; mret (inr res));
  match r with
  | inl err => reply_err err
  | inr res => if 0 <=? res then reply (L_lseek res);; mret tt else reply_err res
  end.

Definition fuse_lib_copy_file_range (nodeid_in off_in : Z) (fi_in : fuse_file_info) (nodeid_out off_out : Z)
    (fi_out : fuse_file_info) (len flags : Z) : MH unit :=
  r ← on_fuse (lib_get_path_nullok nodeid_in);
  let '(err, path_in, _) := r in
  if truth err then reply_err err
  else
    r ← on_fuse (lib_get_path_nullok nodeid_out);
    let '(err, path_out, _) := r in
    if truth err then
      on_fuse (lib_free_path nodeid_in path_in);;
      reply_err err
    else
      res ← fuse_fs_copy_file_range path_in fi_in off_in path_out fi_out off_out len flags;
      (if 0 <=? res then reply (L_write res);; mret tt else reply_err res);;
      on_fuse (lib_free_path nodeid_in path_in);;
      on_fuse (lib_free_path nodeid_out path_out).
(** ** Creating entries *)

(** Call, then look the new entry up. *)
Definition make_entry (parent_ : Z) (name_ : cstring) (call : option cstring -> MH Z) : MH unit :=
  r ← with_path (lib_get_path_name parent_ (Some name_)) parent_ (fun err => (err, entry_zero)) (fun path =>
        err ← call path;
        if truth err then mret (err, entry_zero) else lookup_path parent_ (Some name_) path None);
  let '(err, e) := r in reply_entry e err.

Definition fuse_lib_mkdir (parent_ : Z) (name_ : cstring) (mode : Z) : MH unit :=
  make_entry parent_ name_ (fun path => fuse_fs_mkdir path mode).
Definition fuse_lib_symlink (linkname : cstring) (parent_ : Z) (name_ : cstring) : MH unit :=
  make_entry parent_ name_ (fun path => fuse_fs_symlink linkname path).

Definition fuse_lib_mknod (parent_ : Z) (name_ : cstring) (mode rdev : Z) : MH unit :=
  r ← with_path (lib_get_path_name parent_ (Some name_)) parent_ (fun err => (err, entry_zero)) (fun path =>
        r ← (if S_ISREG mode then
               r ← fuse_fs_create path mode (fi_with_flags fi0 (Z.lor O_CREAT (Z.lor O_EXCL O_WRONLY)));
               let '(err, fi) := r in
               if truth err then mret (err, entry_zero)
               else
                 r ← lookup_path parent_ (Some name_) path (Some fi);
                 fuse_fs_release path fi;;
                 mret r
             else mret (- ENOSYS, entry_zero));
        let '(err, e) := r in
        if err =? - ENOSYS then
          err ← fuse_fs_mknod path mode rdev;
          if truth err then mret (err, e) else lookup_path parent_ (Some name_) path None
        else mret (err, e));
  let '(err, e) := r in reply_entry e err.

Definition fuse_lib_link (ino newparent : Z) (newname : cstring) : MH unit :=
  r ← on_fuse (lib_get_path2 ino None newparent (Some newname) false);
  let '(err, paths, _, _) := r in
  r ← (if truth err then mret (err, entry_zero)
       else
         err ← fuse_fs_link (fst <$> paths) (snd <$> paths);
         r ← (if truth err then mret (err, entry_zero) else lookup_path newparent (Some newname) (snd <$> paths) None);
         on_fuse (lib_free_path2 ino newparent None None);;
         mret r);
  let '(err, e) := r in reply_entry e err.

(** ** Hiding files that are open *)

(** [%08x] *)
Definition hex_digit (d : Z) : ascii := char_at (lit "0123456789abcdef") (Z.to_nat d).
Definition hex8 (x : Z) : cstring :=
  (fun i => hex_digit (Z.land (Z.shiftr (u32 x) (4 * i)) 15)) <$> [7; 6; 5; 4; 3; 2; 1; 0].
Definition hidden_newname (nodeid ctr : Z) : cstring := lit ".fuse_hidden" ++ hex8 nodeid ++ hex8 ctr.

(** The inner loop: the first [newname] that is not in use. *)
Fixpoint hidden_fresh (fuel : nat) (dir n : Z) : M fuse cstring :=
  match fuel with
  | O => diverge
  | S fuel =>
    f ← get;
    let c := u32 (hidectr f + 1) in
    put (set_hidectr f c);;
    let newname := hidden_newname n c in
    match lookup_node f dir newname with
    | Some _ => hidden_fresh fuel dir n
    | None => mret newname
    end
  end.

(** [hidden_name]: the path, and [newname]; [failctr] tries. *)
Fixpoint hidden_name (failctr : nat) (dir : Z) (oldname : cstring) : MH (option (cstring * cstring)) :=
  match failctr with
  | O => mret None
  | S failctr =>
    h ← get;
    match lookup_node (l_fuse h) dir oldname with
    | None => mret None
    | Some n =>
      newname ← on_fuse (hidden_fresh (S (base.size (nodes (l_fuse h)))) dir n);
      r ← on_fuse (try_get_path alloc_ok dir (Some newname) false false);
      let '(res, newpath, _) := r in
      if truth res then mret None
      else
        r ← fuse_fs_getattr newpath stat_zero None;
        let '(res, _) := r in
        if res =? - ENOENT then mret ((fun p => (p, newname)) <$> newpath)
        else if truth res then mret None
        else hidden_name failctr dir oldname
    end
  end.

Definition hide_node (oldpath : option cstring) (dir : Z) (oldname : cstring) : MH Z :=
  r ← hidden_name 10 dir oldname;
  match r with
  | None => mret (- EBUSY)
  | Some (newpath, newname) =>
    err ← fuse_fs_rename oldpath (Some newpath) 0;
    if truth err then mret err else on_fuse (rename_node alloc_ok (c_remember conf) dir oldname dir newname true)
  end.

Definition lib_is_open (dir : Z) (name_ : cstring) : MH bool := gets (fun h => is_open (l_fuse h) dir name_).

(** ** Removing and renaming entries *)

Definition lib_remove_node (dir : Z) (name_ : cstring) : MH unit :=
  on_fuse (remove_node alloc_ok (c_remember conf) dir name_).

(** After hiding: the file may have been closed meanwhile. *)
Definition unlink_hidden (parent_ : Z) (wnode : option Z) : MH Z :=
  match wnode with
  | None => abort
  | Some w =>
    nd ← on_fuse (deref w);
    match name nd with
    | None => abort
    | Some name_ =>
      open ← lib_is_open parent_ name_;
      if open then mret 0
      else
        r ← on_fuse (try_get_path alloc_ok w None false false);
        let '(res, unlinkpath, _) := r in
        if truth res then mret 0
        else
          err ← fuse_fs_unlink unlinkpath;
          (if truth err then mret tt else lib_remove_node parent_ name_);;
          mret err
    end
  end.

(** Lock the entry and the path, work on them, release, answer. *)
Definition entry_op (parent_ : Z) (name_ : cstring) (body : option cstring -> option Z -> MH Z) : MH unit :=
  r ← on_fuse (lib_get_path_wrlock parent_ name_);
  let '(err, path, wnode) := r in
  err ← (if truth err then mret err
         else
           err ← body path wnode;
           on_fuse (lib_free_path_wrlock parent_ wnode);;
           mret err);
  reply_err err.

(** [if (!err) remove_node(...)] *)
Definition removed (err parent_ : Z) (name_ : cstring) : MH Z :=
  (if truth err then mret tt else lib_remove_node parent_ name_);;
  mret err.

Definition fuse_lib_unlink (parent_ : Z) (name_ : cstring) : MH unit :=
  entry_op parent_ name_ (fun path wnode =>
    open ← lib_is_open parent_ name_;
    if negb (c_hard_remove conf) && open then
      err ← hide_node path parent_ name_;
      if truth err then mret err else unlink_hidden parent_ wnode
    else
      err ← fuse_fs_unlink path;
      removed err parent_ name_).

Definition fuse_lib_rmdir (parent_ : Z) (name_ : cstring) : MH unit :=
  entry_op parent_ name_ (fun path _ =>
    err ← fuse_fs_rmdir path;
    removed err parent_ name_).

Definition fuse_lib_rename (olddir : Z) (oldname : cstring) (newdir : Z) (newname : cstring) (flags : Z) : MH unit :=
  r ← on_fuse (lib_get_path2 olddir (Some oldname) newdir (Some newname) true);
  let '(err, paths, wnode1, wnode2) := r in
  err ← (if truth err then mret err
         else
           open ← lib_is_open newdir newname;
           err ← (if negb (c_hard_remove conf) && negb (has_flag flags RENAME_EXCHANGE) && open
                  then hide_node (snd <$> paths) newdir newname else mret 0);
           err ← (if truth err then mret err
                  else
                    err ← fuse_fs_rename (fst <$> paths) (snd <$> paths) flags;
                    if truth err then mret err
                    else if has_flag flags RENAME_EXCHANGE
                    then on_fuse (exchange_node alloc_ok (c_remember conf) olddir oldname newdir newname)
                    else on_fuse (rename_node alloc_ok (c_remember conf) olddir oldname newdir newname false));
           on_fuse (lib_free_path2 olddir newdir wnode1 wnode2);;
           mret err);
  reply_err err.

(** ** Opening and closing files *)

Definition fuse_do_release (ino : Z) (path : option cstring) (fi : fuse_file_info) : MH unit :=
  fuse_fs_release path fi;;
  n ← on_fuse (get_node ino);
  nd ← on_fuse (deref n);
  on_fuse (assert (0 <? open_count nd));;
  let nd' := set_open_count nd (open_count nd - 1) in
  let hidden := is_hidden nd && (open_count nd - 1 =? 0) in
  on_fuse (store n (if hidden then set_is_hidden nd' false else nd'));;
  if hidden then
    match path with
    | Some _ => fuse_fs_unlink path;; mret tt
    | None =>
      if c_nullpath_ok conf then
        r ← on_fuse (lib_get_path ino);
        let '(err, unlinkpath, _) := r in
        (if truth err then mret tt else fuse_fs_unlink unlinkpath;; mret tt);;
        on_fuse (lib_free_path ino unlinkpath)
      else mret tt
    end
  else mret tt.

Definition inc_open_count (ino : Z) : M fuse unit :=
  n ← get_node ino;
  update n (fun nd => set_open_count nd (open_count nd + 1)).

(** The flags that the configuration asks for. *)
Definition fi_if (b : bool) (set : fuse_file_info -> fuse_file_info) (fi : fuse_file_info) : fuse_file_info :=
  if b then set fi else fi.
Definition fi_cached (fi : fuse_file_info) : fuse_file_info :=
  fi_if (c_kernel_cache conf) (fun fi => fi_with_keep_cache fi true) (fi_if (c_direct_io conf) fi_with_direct_io fi).
Definition fi_parallel (fi : fuse_file_info) : fuse_file_info :=
  fi_if (fi_direct_io fi && c_parallel_direct_writes conf) fi_with_pdw fi.

Definition lib_forget_node (ino nlookup : Z) : MH unit := on_fuse (forget_node alloc_ok clock (c_remember conf) ino nlookup).

Definition fuse_lib_create (parent_ : Z) (name_ : cstring) (mode : Z) (fi : fuse_file_info) : MH unit :=
  r ← on_fuse (lib_get_path_name parent_ (Some name_));
  let '(err, path, _) := r in
  r ← (if truth err then mret (err, entry_zero, fi)
       else
         r ← fuse_fs_create path mode fi;
         let '(err, fi) := r in
         if truth err then mret (err, entry_zero, fi)
         else
           r ← lookup_path parent_ (Some name_) path (Some fi);
           let '(err, e) := r in
           if truth err then fuse_fs_release path fi;; mret (err, e, fi)
           else if negb (S_ISREG (sb_mode (e_attr e))) then
             fuse_fs_release path fi;;
             lib_forget_node (e_ino e) 1;;
             mret (- EIO, e, fi)
           else mret (0, e, fi_parallel (fi_cached fi)));
  let '(err, e, fi) := r in
  (if truth err then reply_err err
   else
     on_fuse (inc_open_count (e_ino e));;
     r ← reply (L_create e fi);
     if r =? - ENOENT then
       fuse_do_release (e_ino e) path fi;;
       lib_forget_node (e_ino e) 1
     else mret tt);;
  on_fuse (lib_free_path parent_ path).

(** Seconds as a [double]; times are in nanoseconds. *)
Definition diff_timespec (t1 t2 : Z) : double :=
  SFadd 53 1024 (f64_of_Z (t1 / 1000000000 - t2 / 1000000000))
    (SFdiv 53 1024 (SFsub 53 1024 (f64_of_Z (t1 mod 1000000000)) (f64_of_Z (t2 mod 1000000000))) f64_1e9).

Definition open_auto_cache (ino : Z) (path : option cstring) (fi : fuse_file_info) : MH fuse_file_info :=
  n ← on_fuse (get_node ino);
  nd ← on_fuse (deref n);
  (if cache_valid nd then
     now ← on_fuse (curr_time clock);
     if SFltb ac_attr_timeout (diff_timespec now (stat_updated nd)) then
       r ← fuse_fs_getattr path stat_zero (Some fi);
       let '(err, stbuf) := r in
       if truth err then on_fuse (update n (fun nd => set_cache_valid nd false))
       else on_fuse (update_stat clock n (stat_mtime stbuf) (sb_size stbuf))
     else mret tt
   else mret tt);;
  nd ← on_fuse (deref n);
  on_fuse (update n (fun nd => set_cache_valid nd true));;
  mret (if cache_valid nd then fi_with_keep_cache fi true else fi).

Definition fuse_lib_open (ino : Z) (fi : fuse_file_info) : MH unit :=
  r ← on_fuse (lib_get_path ino);
  let '(err, path, _) := r in
  r ← (if truth err then mret (err, fi)
       else
         r ← fuse_fs_open path fi;
         let '(err, fi) := r in
         if truth err then mret (err, fi)
         else
           let fi := fi_cached fi in
           fi ← (if c_auto_cache conf then open_auto_cache ino path fi else mret fi);
           let fi := fi_if (c_no_rofd_flush conf && (Z.land (fi_flags fi) O_ACCMODE =? 0)) fi_with_noflush fi in
           mret (0, fi_parallel fi));
  let '(err, fi) := r in
  (if truth err then reply_err err
   else
     on_fuse (inc_open_count ino);;
     r ← reply (L_open fi);
     if r =? - ENOENT then fuse_do_release ino path fi else mret tt);;
  on_fuse (lib_free_path ino path).

(** ** Record locks *)

Definition set_owner (l : lock) (o : Z) : lock := mkLock (type l) (start l) (end_ l) (pid l) o.

(** [locks_insert(get_node(f, ino), &l)]; its result is not looked at. *)
Definition lib_locks_insert (ino : Z) (l : lock) : MH unit :=
  n ← on_fuse (get_node ino);
  nd ← on_fuse (deref n);
  ok1 ← on_fuse (alloc alloc_ok);
  ok2 ← on_fuse (alloc alloc_ok);
  match locks_insert ok1 ok2 (locks nd) l with
  | Ok (_, ls) => on_fuse (store n (set_locks nd ls))
  | Abort => abort
  | Diverge => diverge
  end.

Definition fuse_flush_common (ino : Z) (path : option cstring) (fi : fuse_file_info) : MH Z :=
  err ← fuse_fs_flush path fi;
  r ← fuse_fs_lock path fi F_SETLK (mkFlock F_UNLCK 0 0 0);
  let '(errlock, lk) := r in
  if errlock =? - ENOSYS then mret err
  else
    lib_locks_insert ino (set_owner (flock_to_lock lk) (fi_lock_owner fi));;
    mret (if err =? - ENOSYS then 0 else err).

Definition fuse_lib_release (ino : Z) (fi : fuse_file_info) : MH unit :=
  r ← on_fuse (lib_get_path_nullok ino);
  let '(_, path, _) := r in
  err ← (if fi_flush fi then
           err ← fuse_flush_common ino path fi;
           mret (if err =? - ENOSYS then 0 else err)
         else mret 0);
  fuse_do_release ino path fi;;
  on_fuse (lib_free_path ino path);;
  reply_err err.

Definition fuse_lib_flush (ino : Z) (fi : fuse_file_info) : MH unit :=
  r ← on_fuse (lib_get_path_nullok ino);
  let '(_, path, _) := r in
  err ← fuse_flush_common ino path fi;
  on_fuse (lib_free_path ino path);;
  reply_err err.

Definition fuse_lock_common (ino : Z) (fi : fuse_file_info) (lk : flock) (cmd : Z) : MH (Z * flock) :=
  with_path (lib_get_path_nullok ino) ino (fun err => (err, lk)) (fun path => fuse_fs_lock path fi cmd lk).

Definition fuse_lib_getlk (ino : Z) (fi : fuse_file_info) (lk : flock) : MH unit :=
  n ← on_fuse (get_node ino);
  nd ← on_fuse (deref n);
  r ← (match locks_conflict (locks nd) (set_owner (flock_to_lock lk) (fi_lock_owner fi)) with
       | Some conflict => mret (0, lock_to_flock conflict)
       | None => fuse_lock_common ino fi lk F_GETLK
       end);
  let '(err, lk) := r in
  if truth err then reply_err err else reply (L_lock lk);; mret tt.

Definition fuse_lib_setlk (ino : Z) (fi : fuse_file_info) (lk : flock) (sleep : bool) : MH unit :=
  r ← fuse_lock_common ino fi lk (if sleep then F_SETLKW else F_SETLK);
  let '(err, lk) := r in
  (if truth err then mret tt else lib_locks_insert ino (set_owner (flock_to_lock lk) (fi_lock_owner fi)));;
  reply_err err.

(** ** Directories *)

Definition get_dirhandle (llfi : fuse_file_info) : MH (fuse_dh * fuse_file_info) := fun h =>
  match l_dhs h !! fi_fh llfi with
  | Some dh => Ok ((dh, fi_with_fh fi0 (dh_fh dh)), h)
  | None => Abort
  end.

Definition dh_store (a : Z) (dh : fuse_dh) : MH unit := modify (fun h => set_l_dhs h (<[a := dh]> (l_dhs h)) (l_next_dh h)).
Definition dh_free (a : Z) : MH unit := modify (fun h => set_l_dhs h (delete a (l_dhs h)) (l_next_dh h)).
Definition set_dh_fh (d : fuse_dh) v := mkDh (dh_contents d) (dh_first d) (dh_len d) (dh_size d) (dh_needlen d) (dh_filled d) v (dh_error d) (dh_nodeid d).

Definition fuse_lib_opendir (ino : Z) (llfi : fuse_file_info) : MH unit :=
  ok ← on_fuse (alloc alloc_ok);
  if negb ok then reply_err (- ENOMEM)
  else
    a ← gets l_next_dh;
    modify (fun h => set_l_dhs h (<[a := dh_new ino]> (l_dhs h)) (a + 1));;
    let llfi := fi_with_fh llfi a in
    r ← on_fuse (lib_get_path ino);
    let '(err, path, _) := r in
    r ← (if truth err then mret (err, llfi, fi0)
         else
           r ← fuse_fs_opendir path (fi_with_flags fi0 (fi_flags llfi));
           let '(err, fi) := r in
           dh_store a (set_dh_fh (dh_new ino) (fi_fh fi));;
           mret (err, fi_with_keep_cache (fi_with_cache_readdir llfi (fi_cache_readdir fi)) (fi_keep_cache fi), fi));
    let '(err, llfi, fi) := r in
    (if truth err then reply_err err;; dh_free a
     else
       r ← reply (L_open llfi);
       if r =? - ENOENT then fuse_fs_releasedir path fi;; dh_free a else mret tt);;
    on_fuse (lib_free_path ino path).

(** READDIR and READDIRPLUS; [fs_readdir] is the file system's listing. *)
Definition fuse_lib_readdir (fs_readdir : filler -> Z -> Z -> M dirst Z) (ino size off : Z) (llfi : fuse_file_info) (flags : Z) : MH unit :=
  r ← get_dirhandle llfi;
  let '(dh, _) := r in
  h ← get;
  let dir_path ino :=
    r ← (if has_op F_readdir then lib_get_path_nullok ino else lib_get_path ino);
    let '(err, path, _) := r in mret (err, path) in
  match fuse_readdir_common alloc_ok clock conf fs_readdir dir_path lib_free_path ino size off flags (mkDirst (l_fuse h) dh) with
  | Ok (r, s) =>
    put (set_l_dhs (set_l_fuse h (ds_fuse s)) (<[fi_fh llfi := ds_dh s]> (l_dhs h)) (l_next_dh h));;
    match r with
    | Reply_err err => reply_err err
    | Reply_buf bytes => reply (L_buf bytes);; mret tt
    end
  | Abort => abort
  | Diverge => diverge
  end.

Definition fuse_lib_releasedir (ino : Z) (llfi : fuse_file_info) : MH unit :=
  r ← get_dirhandle llfi;
  let '(_, fi) := r in
  r ← on_fuse (lib_get_path_nullok ino);
  let '(_, path, _) := r in
  fuse_fs_releasedir path fi;;
  on_fuse (lib_free_path ino path);;
  dh_free (fi_fh llfi);;
  reply_err 0.

Definition fuse_lib_fsyncdir (ino datasync : Z) (llfi : fuse_file_info) : MH unit :=
  r ← get_dirhandle llfi;
  let '(_, fi) := r in
  err_op (lib_get_path_nullok ino) ino (fun path => fuse_fs_fsyncdir path datasync fi).

(** [in_bufsz] is the length of [in_buf]. *)
Definition fuse_lib_ioctl (ino cmd arg : Z) (llfi : fuse_file_info) (flags : Z) (in_buf : list Z) (out_bufsz : Z) : MH unit :=
  if has_flag flags FUSE_IOCTL_UNRESTRICTED then reply_err (- EPERM)
  else
    fi ← (if has_flag flags FUSE_IOCTL_DIR then r ← get_dirhandle llfi; mret (snd r) else mret llfi);
    ok ← (if truth out_bufsz then on_fuse (alloc alloc_ok) else mret true);
    if negb ok then reply_err (- ENOMEM)
    else
      let in_bufsz := Z.of_nat (length in_buf) in
      assert ((in_bufsz =? 0) || (out_bufsz =? 0) || (in_bufsz =? out_bufsz));;
      r ← on_fuse (lib_get_path_nullok ino);
      let '(err, path, _) := r in
      if truth err then reply_err err
      else
        r ← fuse_fs_ioctl path cmd arg fi flags (if truth out_bufsz then resize (Z.to_nat out_bufsz) 0 in_buf else in_buf);
        let '(err, data) := r in
        on_fuse (lib_free_path ino path);;
        if err <? 0 then reply_err err
        else reply (L_ioctl err (if truth out_bufsz then take (Z.to_nat out_bufsz) data else []));; mret tt.

(** [fuse_path_ops] *)
Definition fuse_path_ops (fs_readdir : filler -> Z -> Z -> M dirst Z) (op : lib_op) : MH unit :=
  match op with
  | LO_lookup parent_ name_ => fuse_lib_lookup parent_ name_
  | LO_forget ino nlookup => fuse_lib_forget ino nlookup
  | LO_forget_multi forgets => fuse_lib_forget_multi forgets
  | LO_getattr ino fi => fuse_lib_getattr ino fi
  | LO_setattr ino attr valid fi => fuse_lib_setattr ino attr valid fi
  | LO_access ino mask => fuse_lib_access ino mask
  | LO_readlink ino => fuse_lib_readlink ino
  | LO_mknod parent_ name_ mode rdev => fuse_lib_mknod parent_ name_ mode rdev
  | LO_mkdir parent_ name_ mode => fuse_lib_mkdir parent_ name_ mode
  | LO_unlink parent_ name_ => fuse_lib_unlink parent_ name_
  | LO_rmdir parent_ name_ => fuse_lib_rmdir parent_ name_
  | LO_symlink linkname parent_ name_ => fuse_lib_symlink linkname parent_ name_
  | LO_rename olddir oldname newdir newname flags => fuse_lib_rename olddir oldname newdir newname flags
  | LO_link ino newparent newname => fuse_lib_link ino newparent newname
  | LO_create parent_ name_ mode fi => fuse_lib_create parent_ name_ mode fi
  | LO_open ino fi => fuse_lib_open ino fi
  | LO_read ino size off fi => fuse_lib_read ino size off fi
  | LO_write_buf ino buf off fi => fuse_lib_write_buf ino buf off fi
  | LO_flush ino fi => fuse_lib_flush ino fi
  | LO_release ino fi => fuse_lib_release ino fi
  | LO_fsync ino datasync fi => fuse_lib_fsync ino datasync fi
  | LO_opendir ino llfi => fuse_lib_opendir ino llfi
  | LO_readdir ino size off llfi flags => fuse_lib_readdir fs_readdir ino size off llfi flags
  | LO_releasedir ino llfi => fuse_lib_releasedir ino llfi
  | LO_fsyncdir ino datasync llfi => fuse_lib_fsyncdir ino datasync llfi
  | LO_statfs ino => fuse_lib_statfs ino
  | LO_setxattr ino name_ value flags => fuse_lib_setxattr ino name_ value flags
  | LO_getxattr ino name_ size => fuse_lib_getxattr ino name_ size
  | LO_listxattr ino size => fuse_lib_listxattr ino size
  | LO_removexattr ino name_ => fuse_lib_removexattr ino name_
  | LO_getlk ino fi lk => fuse_lib_getlk ino fi lk
  | LO_setlk ino fi lk sleep => fuse_lib_setlk ino fi lk sleep
  | LO_flock ino fi op => fuse_lib_flock ino fi op
  | LO_bmap ino blocksize idx => fuse_lib_bmap ino blocksize idx
  | LO_ioctl ino cmd arg llfi flags in_buf out_bufsz => fuse_lib_ioctl ino cmd arg llfi flags in_buf out_bufsz
  | LO_poll ino fi ph => fuse_lib_poll ino fi ph
  | LO_fallocate ino mode offset length fi => fuse_lib_fallocate ino mode offset length fi
  | LO_copy_file_range nodeid_in off_in fi_in nodeid_out off_out fi_out len flags => fuse_lib_copy_file_range nodeid_in off_in fi_in nodeid_out off_out fi_out len flags
  | LO_lseek ino off whence fi => fuse_lib_lseek ino off whence fi
  end.
End highlevel.
