(* ===== verification/Stacked.v ===== *)
(** * Stacked file systems

    A module of [src/lib/modules/] is a file system that hands every operation on to
    the next one after changing the path.  What its operations have in common: which
    calls of the next file system they make, and on which paths. *)
From S2P Require Import Prelude Locks NodeTable Node NodeOps Buffer Wire Dir Request HighLevel.

(** The paths of a call. *)
Definition call_paths (c : fs_call) : list (option cstring) :=
  match c with
  | C_getattr p _ | C_readlink p _ | C_mknod p _ _ | C_mkdir p _ | C_unlink p | C_rmdir p | C_symlink _ p
  | C_chmod p _ _ | C_chown p _ _ _ | C_truncate p _ _ | C_open p _ | C_read p _ _ _ | C_read_buf p _ _ _
  | C_write p _ _ _ | C_write_buf p _ _ _ | C_statfs p | C_flush p _ | C_release p _ | C_fsync p _ _
  | C_setxattr p _ _ _ | C_getxattr p _ _ | C_listxattr p _ | C_removexattr p _ | C_opendir p _ | C_readdir p _ _ _ | C_releasedir p _
  | C_fsyncdir p _ _ | C_access p _ | C_create p _ _ | C_lock p _ _ _ | C_utimens p _ _ _ | C_bmap p _ _
  | C_ioctl p _ _ _ _ _ | C_poll p _ _ | C_flock p _ _ | C_fallocate p _ _ _ _ | C_lseek p _ _ _ => [p]
  | C_rename p q _ | C_link p q | C_copy_file_range p _ _ q _ _ _ _ => [p; q]
  end.

Section forward.
Abbreviation MH := (M lib).
Context (alloc_ok : nat -> bool) (fs_answer : nat -> fs_call -> fs_ret).

(** The error code of an operation with more results. *)
Definition code {A} (m : MH (Z * A)) : MH Z := x ← m; mret (fst x).

(** [int err = convert(path, &newpath); if (!err) { err = ...; free(newpath); }] *)
Definition with_path_by {A} (convert : option cstring -> MH (Z * option cstring)) (path : option cstring)
    (on_err : Z -> A) (k : option cstring -> MH A) : MH A :=
  '(err, newpath) ← convert path;
  if truth err then mret (on_err err) else k newpath.

(** [m] does not call the next file system. *)
Definition silent {A} (m : MH A) : Prop := forall h, wp m (fun _ h' => l_calls h' = l_calls h) h.

(** [m] calls the next file system at most once, on the paths [ps]. *)
Definition forwards {A} (ps : list (option cstring)) (m : MH A) : Prop :=
  forall h, wp m (fun _ h' => exists new, l_calls h' = l_calls h ++ new /\ (length new <= 1)%nat /\
    forall c, c ∈ new -> call_paths c = ps) h.

Lemma silent_ret {A} (a : A) : silent (mret a).
Proof. done. Qed.

Lemma silent_bind {A B} (m : MH A) (f : A -> MH B) : silent m -> (forall a, silent (f a)) -> silent (m ≫= f).
Proof.
  intros Hm Hf h. wp_step. eapply wp_mono; [apply Hm|]. intros a h1 H1. cbn beta in H1. eapply wp_mono; [apply Hf|].
  intros b h2 H2. cbn beta in H2. by rewrite H2.
Qed.

Lemma silent_alloc : silent (on_fuse (alloc alloc_ok)).
Proof. done. Qed.

Lemma silent_assert b : b = true -> silent (assert b : MH unit).
Proof. by intros ->. Qed.

Lemma forwards_silent {A} ps (m : MH A) : silent m -> forwards ps m.
Proof.
  intros Hm h. eapply wp_mono; [apply Hm|]. intros a h' E. cbn beta in E. exists [].
  rewrite app_nil_r. split_and!; [done|cbn; lia|set_solver].
Qed.

Lemma forwards_bind_l {A B} ps (m : MH A) (f : A -> MH B) : silent m -> (forall a, forwards ps (f a)) -> forwards ps (m ≫= f).
Proof.
  intros Hm Hf h. wp_step. eapply wp_mono; [apply Hm|]. intros a h1 H1. cbn beta in H1. eapply wp_mono; [apply Hf|].
  intros b h2 H2. cbn beta in H2. by rewrite H1 in H2.
Qed.

Lemma forwards_bind_r {A B} ps (m : MH A) (f : A -> MH B) : forwards ps m -> (forall a, silent (f a)) -> forwards ps (m ≫= f).
Proof.
  intros Hm Hf h. wp_step. eapply wp_mono; [apply Hm|]. intros a h1 H1. cbn beta in H1. eapply wp_mono; [apply Hf|].
  intros b h2 H2. cbn beta in H2. by rewrite H2.
Qed.

Lemma forwards_do ps c : call_paths c = ps -> forwards ps (fs_do fs_answer c).
Proof.
  intros Hc h. cbn. exists [c]. split_and!; [done|cbn; lia|]. by intros ? ->%list_elem_of_singleton.
Qed.

Lemma code_forwards {A} ps (m : MH (Z * A)) : forwards ps m -> forwards ps (code m).
Proof. intros Hm. apply forwards_bind_r; [done|]. intros a. apply silent_ret. Qed.

Lemma fill_entries_silent {B} (filler : cstring -> B -> MH Z) entries : (forall name rest, silent (filler name rest)) ->
  silent (fill_entries filler entries).
Proof.
  intros Hf. induction entries as [|[name rest] entries IH]; cbn [fill_entries]; [apply silent_ret|].
  apply silent_bind; [apply Hf|]. intros res. destruct (truth res); [apply silent_ret|done].
Qed.

Lemma readdir_forwards {B} has_op (entries : fs_call -> list (cstring * B)) p filler off fi flags :
  (forall name rest, silent (filler name rest)) -> forwards [p] (fuse_fs_readdir has_op fs_answer entries p filler off fi flags).
Proof.
  intros Hf. unfold fuse_fs_readdir. destruct (has_op F_readdir); [|apply forwards_silent, silent_ret].
  apply forwards_bind_r; [by apply forwards_do|]. intros r. apply silent_bind; [by apply fill_entries_silent|]. intros []. apply silent_ret.
Qed.

Lemma lib_alloc_wp (Q : bool -> lib -> Prop) h :
  (forall b h', l_calls h' = l_calls h -> Q b h') -> wp (on_fuse (alloc alloc_ok)) Q h.
Proof. intros HQ. by apply HQ. Qed.

(** A conversion that makes no calls and gives [new] or an error. *)
Definition converts (convert : option cstring -> MH (Z * option cstring)) (path : option cstring)
    (good : option cstring -> Prop) : Prop :=
  forall h, wp (convert path) (fun x h' => l_calls h' = l_calls h /\ (x.1 <> 0 \/ x.1 = 0 /\ good x.2)) h.

Lemma with_path_by_forwards {A} convert ps path good (on_err : Z -> A) k : converts convert path good ->
  (forall new, good new -> forwards ps (k new)) -> forwards ps (with_path_by convert path on_err k).
Proof.
  intros Hp Hk h. unfold with_path_by. wp_step. eapply wp_mono; [apply Hp|]. intros [err new] h' [Hh Hx]. cbn [fst snd] in Hx.
  destruct Hx as [Hne|[-> Hg]].
  - unfold truth. destruct (Z.eqb_spec err 0); [done|]. cbn [negb]. wp_steps.
    exists []. rewrite app_nil_r. split_and!; [done|cbn; lia|set_solver].
  - cbn [truth negb Z.eqb]. eapply wp_mono; [by apply Hk|]. intros a h2 H2. cbn beta in H2. by rewrite Hh in H2.
Qed.
End forward.

Create HintDb forward.
#[export] Hint Resolve silent_ret silent_bind silent_alloc forwards_silent forwards_do : forward.
Ltac forward_tac := repeat first [progress intros | solve [eauto 2 with forward] | case_match
  | simple apply forwards_bind_r; [simple apply forwards_do; done|] | simple apply forwards_bind_l | simple apply silent_bind].
