(* ===== verification/Subdir.v ===== *)
(** * The subdirectory module

    [src/lib/modules/subdir.c]: a file system stacked on another one that prepends
    a directory to every path and, with [-o rellinks], turns absolute symbolic
    links into relative ones. *)
From S2P Require Import Prelude Locks NodeTable Node NodeOps Buffer Wire Dir Request HighLevel Stacked.

(** ** Paths *)

Definition slash : ascii := "/".

(** [struct subdir]; [baselen] is the length of [base], [next] the file system of
    the [fuse_fs_] functions. *)
Record subdir := mkSubdir { sd_base : cstring; sd_rellinks : Z }.

Definition starts_slash (s : cstring) : bool := ceq (char_at s 0) slash.

(** [for (; *p == '/'; p++);] *)
Fixpoint skip_slashes (p : cstring) : cstring :=
  match p with
  | c :: p' => if ceq c slash then skip_slashes p' else p
  | [] => []
  end.

(** [for (; *p && *p != '/'; p++);] *)
Fixpoint skip_name (p : cstring) : cstring :=
  match p with
  | c :: p' => if ceq c slash then p else skip_name p'
  | [] => []
  end.

(** The second loop of [count_components]; [p] is not at a slash. *)
Fixpoint count_loop (fuel : nat) (p : cstring) (ctr : Z) : option Z :=
  match p with
  | [] => Some ctr
  | _ => match fuel with
         | O => None
         | S fuel => count_loop fuel (skip_slashes (skip_name p)) (ctr + 1)
         end
  end.
Definition count_components (p : cstring) : option Z :=
  count_loop (S (length p)) (skip_slashes p) 0.

(** [for (; *s == *t && *s && *s != '/'; s++, t++);] *)
Fixpoint skip_equal (s t : cstring) : cstring * cstring :=
  match s, t with
  | c :: s', c' :: t' => if ceq c c' && negb (ceq c slash) then skip_equal s' t' else (s, t)
  | _, _ => (s, t)
  end.

(** The condition of the loop in [strip_common]. *)
Definition common_goes_on (s t : cstring) : bool :=
  let c := char_at s 0 in let c' := char_at t 0 in
  (ceq c c' && negb (ceq c NUL)) || (ceq c NUL && ceq c' slash) || (ceq c slash && ceq c' NUL).

Fixpoint strip_common (fuel : nat) (s t : cstring) : option (cstring * cstring) :=
  match fuel with
  | O => None
  | S fuel =>
      let s := skip_slashes s in
      let t := skip_slashes t in
      let '(s', t') := skip_equal s t in
      if common_goes_on s' t' then strip_common fuel s' t' else Some (s, t)
  end.

(** [for (s = buf, i = 0; i < dotdots; i++, s += 3) memcpy(s, "../", 3);] *)
Fixpoint write_dotdots (n : nat) (at_ : Z) (buf : list ascii) : list ascii :=
  match n with
  | O => buf
  | S n => write_dotdots n (at_ + 3) (blit buf at_ (lit "../"))
  end.

(** The buffer after the call; [None] only when the fuel of a loop is too small. *)
Definition transform_symlink (d : subdir) (path : cstring) (buf : list ascii) (size : Z) : option (list ascii) :=
  let l0 := c_str buf in
  if negb (starts_slash l0) || negb (starts_slash (sd_base d)) then Some buf
  else
    lp ← strip_common (S (length l0 + length path)) l0 path;
    let '(l, path) := lp in
    if strlen l0 - strlen l <? strlen (sd_base d) then Some buf
    else
      dotdots ← count_components path;
      if dotdots =? 0 then Some buf
      else
        let dotdots := dotdots - 1 in
        let llen := strlen l in
        if size <? dotdots * 3 + llen + 2 then Some buf
        else
          let buf1 :=
            if truth llen then blit buf (dotdots * 3) (l ++ [NUL])
            else if dotdots =? 0 then blit buf (dotdots * 3) (lit "." ++ [NUL])
            else blit buf (dotdots * 3) [NUL] in
          Some (write_dotdots (Z.to_nat dotdots) 0 buf1).

(** ** The operations *)

Section subdir.
Abbreviation MH := (M lib).
Context (alloc_ok : nat -> bool) (has_op : fs_op -> bool) (fs_answer : nat -> fs_call -> fs_ret).
Context (d : subdir).

(** The new path; the buffer has [newlen + 2] bytes with [newlen] an [unsigned]. *)
Definition subdir_addpath (path : option cstring) : MH (Z * option cstring) :=
  match path with
  | None => mret (0, None)
  | Some path =>
      let newlen := u32 (strlen (sd_base d) + strlen path) in
      ok ← on_fuse (alloc alloc_ok);
      if negb ok then mret (- ENOMEM, None)
      else
        let path := if starts_slash path then tail path else path in
        let newpath := sd_base d ++ path in
        assert (strlen newpath + 1 <=? u32 (newlen + 2));;
        let newpath := match newpath with [] => lit "." | _ => newpath end in
        assert (strlen newpath + 1 <=? u32 (newlen + 2));;
        mret (0, Some newpath)
  end.

(** [int err = subdir_addpath(d, path, &newpath); if (!err) { err = ...; free(newpath); }] *)
Definition with_subdir {A} : option cstring -> (Z -> A) -> (option cstring -> MH A) -> MH A :=
  with_path_by subdir_addpath.






(** The [off_t] of the next file system passes through an [int]. *)
Definition subdir_lseek (path : option cstring) (off whence : Z) (fi : fuse_file_info) : MH Z :=
  with_subdir path id (fun p => res ← fuse_fs_lseek has_op fs_answer p off whence fi; mret (swrap 32 res)).

(** [fuse_fs_init] of the next file system may change the connection and the
    configuration, the arguments [x]; [d] is the new private data. *)
Definition subdir_init {A} (fs_init : A -> MH A) (x : A) : MH (subdir * A) :=
  x ← fs_init x; mret (d, x).

(** The next file system is destroyed before [d], which its [free] ends. *)
Definition subdir_destroy (fs_destroy : MH unit) : MH (option subdir) :=
  fs_destroy;; mret None.
End subdir.

(** ** Making the file system *)

(** [parsed]: what [fuse_opt_parse] made of the options: [-1], or [base] and
    [rellinks].  [next0], [next1]: whether [next[0]] and [next[1]] are set.
    [realloc_ok], [new_ok]: the allocations. *)
Definition subdir_new (calloc_ok : bool) (parsed : option (option cstring * Z)) (next0 next1 realloc_ok new_ok : bool) :
    option subdir :=
  if negb calloc_ok then None
  else
    '(base, rellinks) ← parsed;
    if negb next0 || next1 then None
    else
      base ← base;
      if negb (bool_decide (base = [])) && negb (ceq (List.last base NUL) slash) then
        if negb realloc_ok then None
        else if new_ok then Some (mkSubdir (base ++ [slash]) rellinks) else None
      else if new_ok then Some (mkSubdir base rellinks) else None.

(** ** Components of a path *)

(** The names between slashes. *)
Fixpoint components (p : cstring) : list cstring :=
  match p with
  | [] => []
  | c :: p' =>
      if ceq c slash then components p'
      else match p' with
           | [] => [[c]]
           | c' :: _ =>
               if ceq c' slash then [c] :: components p'
               else match components p' with w :: ws => (c :: w) :: ws | [] => [[c]] end
           end
  end.

Definition no_slash (w : cstring) : Prop := slash ∉ w.
(** At the end of a component. *)
Definition at_end (s : cstring) : Prop := s = [] \/ starts_slash s = true.

Lemma starts_slash_spec s : starts_slash s = true -> exists s', s = slash :: s'.
Proof. unfold starts_slash. destruct s as [|c s]; cbn; [done|]. intros ->%ceq_true. eauto. Qed.

Lemma components_slash p : components (slash :: p) = components p.
Proof. cbn [components]. by rewrite ceq_refl. Qed.

Lemma skip_slashes_components p : components (skip_slashes p) = components p.
Proof.
  induction p as [|c p IH]; [done|]. cbn [skip_slashes]. destruct (ceq c slash) eqn:E; [|done].
  apply ceq_true in E as ->. by rewrite IH components_slash.
Qed.

Lemma skip_slashes_start p : starts_slash (skip_slashes p) = false.
Proof. induction p as [|c p IH]; [done|]. cbn [skip_slashes]. destruct (ceq c slash) eqn:E; done. Qed.

Lemma skip_slashes_suffix p : exists n, skip_slashes p = drop n p /\ (n <= length p)%nat.
Proof.
  induction p as [|c p (n & IH & Hn)]; [by exists 0%nat|]. cbn [skip_slashes]. destruct (ceq c slash).
  - exists (S n). split; [done|]. cbn. lia.
  - exists 0%nat. split; [done|]. cbn. lia.
Qed.

Lemma components_name w s : no_slash w -> w <> [] -> at_end s -> components (w ++ s) = w :: components s.
Proof.
  intros Hw Hne Hs. induction w as [|c w IH]; [done|]. apply not_elem_of_cons in Hw as [Hc Hw].
  cbn [components app]. rewrite (proj2 (ceq_false c slash)); [congruence|]. destruct w as [|c' w].
  - cbn [app]. destruct Hs as [->|(s' & ->)%starts_slash_spec]; [done|]. by rewrite ceq_refl.
  - cbn [app]. apply not_elem_of_cons in Hw as Hc'. destruct Hc' as [Hc' _].
    rewrite (proj2 (ceq_false c' slash)); [congruence|]. rewrite (IH Hw) //.
Qed.

(** The next name of a path. *)
Lemma skip_name_split p : exists w, p = w ++ skip_name p /\ no_slash w /\ at_end (skip_name p).
Proof.
  induction p as [|c p (w & E & Hw & He)]; [exists []; split_and!; [done|apply not_elem_of_nil|by left]|].
  cbn [skip_name]. destruct (ceq c slash) eqn:Ec.
  - exists []. split_and!; [done|apply not_elem_of_nil|]. right. by unfold starts_slash.
  - exists (c :: w). split_and!; [cbn; by f_equal|apply not_elem_of_cons; split; [apply ceq_false in Ec; congruence|done]|done].
Qed.

Lemma skip_slashes_length p : (length (skip_slashes p) <= length p)%nat.
Proof. destruct (skip_slashes_suffix p) as (n & -> & _). rewrite length_drop. lia. Qed.

Lemma count_loop_spec fuel p ctr : (length p < fuel)%nat -> starts_slash p = false ->
  count_loop fuel p ctr = Some (ctr + Z.of_nat (length (components p))).
Proof.
  revert p ctr. induction fuel as [|fuel IH]; intros p ctr Hf Hs; [lia|].
  destruct p as [|c p]; cbn [count_loop]; [f_equal; cbn; lia|].
  destruct (skip_name_split (c :: p)) as (w & E & Hw & He). remember (skip_name (c :: p)) as r eqn:Er.
  assert (w <> []) as Hne.
  { intros ->. cbn in E. rewrite -E in He. destruct He as [?|He]; [done|]. congruence. }
  assert (length r < length (c :: p))%nat as Hlt by (rewrite E length_app; destruct w; [done|cbn; lia]).
  rewrite IH.
  - pose proof (skip_slashes_length r). lia.
  - apply skip_slashes_start.
  - rewrite skip_slashes_components E components_name //. cbn [length]. f_equal. lia.
Qed.

Lemma count_components_spec p : count_components p = Some (Z.of_nat (length (components p))).
Proof.
  unfold count_components. rewrite count_loop_spec.
  - pose proof (skip_slashes_length p). lia.
  - apply skip_slashes_start.
  - by rewrite skip_slashes_components.
Qed.

(** The common part of a name. *)
Lemma skip_equal_split s t : exists w, s = w ++ (skip_equal s t).1 /\ t = w ++ (skip_equal s t).2 /\ no_slash w /\
  (let s' := (skip_equal s t).1 in let t' := (skip_equal s t).2 in
   char_at s' 0 = char_at t' 0 -> s' = [] \/ t' = [] \/ starts_slash s' = true).
Proof.
  revert t. induction s as [|c s IH]; intros t; [exists []; split_and!; [done..|apply not_elem_of_nil|by left]|].
  destruct t as [|c' t]; [exists []; split_and!; [done..|apply not_elem_of_nil|by right; left]|]. cbn [skip_equal].
  destruct (ceq c c' && negb (ceq c slash)) eqn:E.
  - apply andb_true_iff in E as [->%ceq_true Hns%negb_true_iff]. destruct (IH t) as (w & E1 & E2 & Hw & Hc).
    exists (c' :: w). split_and!; [cbn; by f_equal|cbn; by f_equal| |done].
    apply not_elem_of_cons. split; [apply ceq_false in Hns; congruence|done].
  - exists []. split_and!; [done..|apply not_elem_of_nil|]. cbn. intros ->. rewrite ceq_refl in E. cbn in E.
    right. right. unfold starts_slash. cbn. by destruct (ceq c' slash).
Qed.

Lemma char_at_NUL s : nul_free s -> char_at s 0 = NUL -> s = [].
Proof. destruct s as [|c s]; [done|]. cbn. intros [? _]%nul_free_cons ?. done. Qed.

(** The loop goes on exactly after a whole common component. *)
Lemma goes_on_ends s t w : nul_free s -> nul_free t -> (starts_slash (w ++ s) = false) -> (starts_slash (w ++ t) = false) ->
  (char_at s 0 = char_at t 0 -> s = [] \/ t = [] \/ starts_slash s = true) ->
  common_goes_on s t = true -> at_end s /\ at_end t /\ w <> [].
Proof.
  intros Hs Ht Hss Hts Heq Hgo. unfold common_goes_on in Hgo.
  assert (at_end s /\ at_end t /\ (starts_slash s = true \/ starts_slash t = true)) as (H1 & H2 & H3).
  { apply orb_true_iff in Hgo as [[Hgo|Hgo]%orb_true_iff|Hgo]; apply andb_true_iff in Hgo as [Ha Hb].
    - apply ceq_true in Ha. apply negb_true_iff, ceq_false in Hb. destruct (Heq Ha) as [->|[->|Hsl]]; [done|by rewrite Ha in Hb|].
      assert (starts_slash t = true) by (unfold starts_slash; by rewrite -Ha). unfold at_end. auto.
    - apply ceq_true in Ha. apply char_at_NUL in Ha; [|done]. subst s. unfold at_end. split_and!; [by left|by right|by right].
    - apply ceq_true in Hb. apply char_at_NUL in Hb; [|done]. subst t. unfold at_end. split_and!; [by right|by left|by left]. }
  split_and!; [done..|]. intros ->. cbn in *. destruct H3; congruence.
Qed.

Lemma strip_common_spec fuel s t : nul_free s -> nul_free t -> (length s + length t < fuel)%nat ->
  exists s' t' cs n, strip_common fuel s t = Some (s', t') /\ s' = drop n s /\ nul_free s' /\ starts_slash s' = false /\
    components s = cs ++ components s' /\ components t = cs ++ components t'.
Proof.
  revert s t. induction fuel as [|fuel IH]; intros s t Hs Ht Hf; [lia|]. cbn [strip_common].
  destruct (skip_slashes_suffix s) as (n1 & En1 & Hn1). destruct (skip_slashes_suffix t) as (n2 & En2 & Hn2).
  assert (nul_free (skip_slashes s)) as Hs1 by (rewrite En1; rewrite -(take_drop n1 s) in Hs; by apply nul_free_app in Hs as [_ ?]).
  assert (nul_free (skip_slashes t)) as Ht1 by (rewrite En2; rewrite -(take_drop n2 t) in Ht; by apply nul_free_app in Ht as [_ ?]).
  destruct (skip_equal_split (skip_slashes s) (skip_slashes t)) as (w & E1 & E2 & Hw & Heq).
  destruct (skip_equal (skip_slashes s) (skip_slashes t)) as [s2 t2] eqn:Ese. cbn [fst snd] in *.
  destruct (common_goes_on s2 t2) eqn:Hgo.
  - rewrite E1 in Hs1. rewrite E2 in Ht1. apply nul_free_app in Hs1 as [_ Hs2]. apply nul_free_app in Ht1 as [_ Ht2].
    destruct (goes_on_ends s2 t2 w) as (He1 & He2 & Hne); [done|done|by rewrite -E1 skip_slashes_start|by rewrite -E2 skip_slashes_start|done|done|].
    assert (length w <> 0)%nat by (by destruct w).
    pose proof (f_equal length E1) as L1. pose proof (f_equal length E2) as L2. rewrite length_app in L1. rewrite length_app in L2.
    pose proof (skip_slashes_length s). pose proof (skip_slashes_length t).
    destruct (IH s2 t2) as (s' & t' & cs & n & -> & -> & Hf' & Hss & C1 & C2); [done|done|lia|].
    exists (drop n s2), t', (w :: cs), (n1 + (length w + n))%nat. split_and!; [done| |done|done|..].
    + by rewrite -drop_drop -En1 E1 drop_app_add.
    + rewrite -(skip_slashes_components s) E1 components_name // C1 //.
    + rewrite -(skip_slashes_components t) E2 components_name // C2 //.
  - exists (skip_slashes s), (skip_slashes t), [], n1. split_and!; [done|done|done|apply skip_slashes_start|..]; cbn; by rewrite skip_slashes_components.
Qed.

(** ** Resolving symbolic links *)

(** One component, in the directory [dir]. *)
Definition resolve_step (dir : list cstring) (w : cstring) : list cstring :=
  if strcmp_eq w (lit ".") then dir
  else if strcmp_eq w (lit "..") then take (length dir - 1) dir
  else dir ++ [w].
Definition walk (dir : list cstring) (ws : list cstring) : list cstring := foldl resolve_step dir ws.

(** Where the link [l] found in the directory [dir] leads. *)
Definition resolve (dir : list cstring) (l : cstring) : list cstring :=
  walk (if starts_slash l then [] else dir) (components l).

Definition plain (w : cstring) : Prop := w <> lit "." /\ w <> lit "..".

Lemma walk_plain dir ws : Forall plain ws -> walk dir ws = dir ++ ws.
Proof.
  revert dir. induction ws as [|w ws IH]; intros dir; [by rewrite app_nil_r|]. intros [[H1 H2] Hp]%list.Forall_cons. cbn.
  rewrite -/(walk _ _) IH //. unfold resolve_step, strcmp_eq. rewrite !bool_decide_false // -app_assoc. done.
Qed.

Lemma walk_up dir ds : walk (dir ++ ds) (replicate (length ds) (lit "..")) = dir.
Proof.
  induction ds as [|x ds IH] using rev_ind; [by rewrite app_nil_r|]. rewrite length_app Nat.add_1_r. cbn [replicate walk foldl].
  rewrite -/(walk _ _). replace (resolve_step (dir ++ ds ++ [x]) (lit "..")) with (dir ++ ds); [done|].
  unfold resolve_step, strcmp_eq. rewrite bool_decide_false // bool_decide_true //.
  rewrite app_assoc length_app Nat.add_sub take_app_length //.
Qed.

Lemma walk_app dir ws1 ws2 : walk dir (ws1 ++ ws2) = walk (walk dir ws1) ws2.
Proof. apply foldl_app. Qed.

(** [n] times "../". *)
Fixpoint dotdots_str (n : nat) : cstring := match n with O => [] | S n => lit "../" ++ dotdots_str n end.

Lemma components_dotdots n l : components (dotdots_str n ++ l) = replicate n (lit "..") ++ components l.
Proof.
  induction n as [|n IH]; [done|]. cbn [dotdots_str replicate]. rewrite -app_assoc.
  change (lit "../" ++ dotdots_str n ++ l) with (lit ".." ++ slash :: (dotdots_str n ++ l)).
  rewrite components_name; [by vm_compute; set_solver|done|by right|]. by rewrite components_slash IH.
Qed.

Lemma length_dotdots n : length (dotdots_str n) = (3 * n)%nat.
Proof. induction n as [|n IH]; [done|]. cbn [dotdots_str]. rewrite length_app IH. cbn. lia. Qed.

Lemma nul_free_dotdots n : nul_free (dotdots_str n).
Proof. induction n as [|n IH]; cbn [dotdots_str]; [by apply not_elem_of_nil|]. apply nul_free_app. split; [|done]. by apply (bool_decide_eq_true_1 _). Qed.

Lemma write_dotdots_spec n at_ buf : 0 <= at_ -> at_ + 3 * Z.of_nat n <= Z.of_nat (length buf) ->
  write_dotdots n at_ buf = take (Z.to_nat at_) buf ++ dotdots_str n ++ drop (Z.to_nat at_ + 3 * n) buf.
Proof.
  revert at_ buf. induction n as [|n IH]; intros at_ buf Ha Hl; cbn [write_dotdots dotdots_str].
  - by rewrite Nat.mul_0_r Nat.add_0_r take_drop.
  - destruct (take_blit buf at_ (lit "../")) as [Ht Hb]; [done|cbn; lia|].
    rewrite IH; [lia|rewrite Hb; lia|]. change (Z.of_nat (length (lit "../"))) with 3 in Ht. rewrite Ht -!app_assoc.
    do 3 f_equal. unfold blit. rewrite app_assoc drop_app_ge.
    + rewrite length_app length_take. cbn. lia.
    + rewrite drop_drop length_app length_take. f_equal. cbn. lia.
Qed.

(** The array after the tail of the link and the dots are written. *)
Lemma new_link_bytes n (tl : cstring) buf : (3 * n + length tl + 1 <= length buf)%nat -> nul_free tl ->
  let buf' := write_dotdots n 0 (blit buf (3 * Z.of_nat n) (tl ++ [NUL])) in
  length buf' = length buf /\ c_str buf' = dotdots_str n ++ tl /\ NUL ∈ buf'.
Proof.
  intros Hl Htl buf'.
  destruct (take_blit buf (3 * Z.of_nat n) (tl ++ [NUL])) as [Ht Hb]; [lia|rewrite length_app; cbn; lia|].
  assert (buf' = dotdots_str n ++ tl ++ NUL :: drop (3 * n + length tl + 1) buf) as E.
  { unfold buf'. rewrite write_dotdots_spec; [lia|rewrite Hb; lia|]. change (Z.to_nat 0) with 0%nat. rewrite take_0 Nat.add_0_l app_nil_l. f_equal.
    unfold blit. replace (Z.to_nat (3 * Z.of_nat n)) with (3 * n)%nat by lia.
    rewrite drop_app_length'; [rewrite length_take; lia|]. rewrite -app_assoc. cbn. do 3 f_equal. rewrite length_app. cbn. lia. }
  split_and!.
  - unfold buf'. rewrite write_dotdots_spec; [lia|rewrite Hb; lia|]. change (Z.to_nat 0) with 0%nat. rewrite take_0 Nat.add_0_l app_nil_l.
    rewrite length_app length_drop length_dotdots Hb. lia.
  - rewrite E app_assoc c_str_app_NUL c_str_id //. apply nul_free_app. split; [apply nul_free_dotdots|done].
  - rewrite E. set_solver.
Qed.

(** The directory a path is in. *)
Definition link_dir (path : cstring) : list cstring := take (length (components path) - 1) (components path).

Lemma new_link_resolves path cs l n tl :
  components path = cs ++ components l -> Forall plain cs -> components l <> [] -> n = (length (components l) - 1)%nat ->
  starts_slash (dotdots_str n ++ tl) = false ->
  resolve (link_dir path) (dotdots_str n ++ tl) = walk cs (components tl).
Proof.
  intros Hp Hcs Hne -> Hs. unfold resolve, link_dir. rewrite Hs components_dotdots walk_app Hp. f_equal.
  remember (components l) as ws eqn:Ews. destruct ws as [|w ws _] using rev_ind; [done|].
  rewrite !length_app. cbn [length]. rewrite app_assoc take_app_length'; [rewrite length_app; lia|].
  rewrite Nat.add_sub. apply walk_up.
Qed.

Lemma c_str_nul_free buf : nul_free (c_str buf).
Proof.
  induction buf as [|c buf IH]; cbn; [apply not_elem_of_nil|]. destruct (ceq c NUL) eqn:E; [apply not_elem_of_nil|].
  apply nul_free_cons. split; [by apply ceq_false|done].
Qed.

(** What is written when all tests pass. *)
Lemma new_link_written buf l k : nul_free l -> starts_slash l = false ->
  Z.of_nat k * 3 + strlen l + 2 <= Z.of_nat (length buf) ->
  let buf1 :=
    if truth (strlen l) then blit buf (Z.of_nat k * 3) (l ++ [NUL])
    else if Z.of_nat k =? 0 then blit buf (Z.of_nat k * 3) (lit "." ++ [NUL])
    else blit buf (Z.of_nat k * 3) [NUL] in
  let buf' := write_dotdots k 0 buf1 in
  length buf' = length buf /\ NUL ∈ buf' /\ starts_slash (c_str buf') = false /\
  exists tl, c_str buf' = dotdots_str k ++ tl /\ forall dir, walk dir (components tl) = walk dir (components l).
Proof.
  intros Hl Hls Hsz. cbv zeta. rewrite (Z.mul_comm _ 3). unfold strlen in Hsz.
  assert (exists tl, nul_free tl /\ (length tl <= length l + 1)%nat /\ starts_slash (dotdots_str k ++ tl) = false /\
    (forall dir, walk dir (components tl) = walk dir (components l)) /\
    (if truth (strlen l) then blit buf (3 * Z.of_nat k) (l ++ [NUL])
     else if Z.of_nat k =? 0 then blit buf (3 * Z.of_nat k) (lit "." ++ [NUL])
     else blit buf (3 * Z.of_nat k) [NUL]) = blit buf (3 * Z.of_nat k) (tl ++ [NUL])) as (tl & Ht1 & Ht2 & Ht3 & Ht4 & ->).
  { unfold truth, strlen. destruct l as [|c l]; cbn [length Z.of_nat Z.eqb negb].
    - destruct k as [|k']; cbn [Z.of_nat Z.eqb].
      + exists (lit "."). split_and!; try done. by apply (bool_decide_eq_true_1 _).
      + exists []. split_and!; [apply not_elem_of_nil|cbn; lia|done..].
    - exists (c :: l). split_and!; [done|cbn; lia|by destruct k|done|done]. }
  destruct (new_link_bytes k tl buf) as (Hb1 & Hb2 & Hb3); [lia|done|].
  rewrite Hb2. split_and!; eauto.
Qed.

(** Unfolding the tests. *)
Lemma transform_symlink_run d path buf size : nul_free path -> size = Z.of_nat (length buf) ->
  starts_slash (c_str buf) = true -> starts_slash (sd_base d) = true ->
  exists l p cs, nul_free l /\ starts_slash l = false /\
    strip_common (S (length (c_str buf) + length path)) (c_str buf) path = Some (l, p) /\
    components (c_str buf) = cs ++ components l /\ components path = cs ++ components p /\
    let k := (length (components p) - 1)%nat in
    if (strlen (c_str buf) - strlen l <? strlen (sd_base d)) || bool_decide (components p = []) ||
       (size <? Z.of_nat k * 3 + strlen l + 2)
    then transform_symlink d path buf size = Some buf
    else exists buf', transform_symlink d path buf size = Some buf' /\ length buf' = length buf /\ NUL ∈ buf' /\
      starts_slash (c_str buf') = false /\
      exists tl, c_str buf' = dotdots_str k ++ tl /\ forall dir, walk dir (components tl) = walk dir (components l).
Proof.
  intros Hnp -> Habs Hbase. unfold transform_symlink.
  destruct (strip_common_spec (S (length (c_str buf) + length path)) (c_str buf) path) as
    (l & p & cs & n0 & Es & _ & Hl & Hls & C1 & C2); [apply c_str_nul_free|done|lia|].
  exists l, p, cs. do 5 (split; [done|]). rewrite Habs Hbase Es. cbn [negb orb mbind option_bind].
  destruct (_ <? strlen (sd_base d)); cbn [orb]; [done|]. rewrite count_components_spec. cbn [mbind option_bind].
  destruct (components p) as [|c cp] eqn:Ep; [done|]. rewrite bool_decide_false //. cbn [orb length].
  set (k := length cp). assert (Z.of_nat (S k) - 1 = Z.of_nat k) as Ek by lia.
  replace (S k - 1)%nat with k by lia. rewrite Ek Nat2Z.id. change (Z.of_nat (S k) =? 0) with false. cbn iota.
  destruct (Z.ltb_spec (Z.of_nat (length buf)) (Z.of_nat k * 3 + strlen l + 2)) as [|Hsz]; [done|].
  eexists. split; [done|]. by apply new_link_written.
Qed.

(** C31: With [-o rellinks] a symbolic link is rewritten in place without writing
    outside its buffer, stays terminated, and leads where it led before when it is
    followed from the directory it is in; a link that is changed is relative.
    (Paths are compared by their components, with [.] and [..] resolved by name; the
    path of the link itself has neither.) *)
Theorem transform_symlink_correct d path buf size :
  nul_free path -> Forall plain (components path) -> NUL ∈ buf -> size = Z.of_nat (length buf) ->
  exists buf', transform_symlink d path buf size = Some buf' /\ length buf' = length buf /\ NUL ∈ buf' /\
    resolve (link_dir path) (c_str buf') = resolve (link_dir path) (c_str buf) /\
    (buf' = buf \/ starts_slash (c_str buf') = false).
Proof.
  intros Hnp Hpl Hnul Hsz.
  assert (transform_symlink d path buf size = Some buf -> exists buf', transform_symlink d path buf size = Some buf' /\
    length buf' = length buf /\ NUL ∈ buf' /\ resolve (link_dir path) (c_str buf') = resolve (link_dir path) (c_str buf) /\
    (buf' = buf \/ starts_slash (c_str buf') = false)) as Hsame by (intros H; exists buf; auto 10).
  destruct (negb (starts_slash (c_str buf)) || negb (starts_slash (sd_base d))) eqn:Eabs.
  { apply Hsame. unfold transform_symlink. by rewrite Eabs. }
  apply orb_false_iff in Eabs as [Habs%negb_false_iff Hbase%negb_false_iff].
  destruct (transform_symlink_run d path buf size Hnp Hsz Habs Hbase) as (l & p & cs & _ & _ & _ & C1 & C2 & Hrun).
  cbv zeta in Hrun. destruct (_ || _ || _) eqn:Eg; [auto|]. destruct Hrun as (buf' & -> & Hb1 & Hb2 & Hb3 & tl & Hb4 & Hb5).
  apply orb_false_iff in Eg as [[_ Ep%bool_decide_eq_false]%orb_false_iff _].
  exists buf'. split_and!; [done..| |by right].
  assert (Forall plain cs) as Hcs by (rewrite C2 in Hpl; by apply list.Forall_app in Hpl as [? _]).
  rewrite Hb4 (new_link_resolves path cs p _ tl) // -?Hb4 //. unfold resolve. by rewrite Habs C1 Hb5 walk_app (walk_plain [] cs).
Qed.

(** ** Links below the base directory *)

(** A base directory as [subdir_new] leaves it: empty or ending in a slash. *)
Definition base_ok (b : cstring) : Prop := b = [] \/ exists b', b = b' ++ [slash].

Lemma skip_slashes_app b x : skip_slashes b <> [] -> skip_slashes (b ++ x) = skip_slashes b ++ x.
Proof. induction b as [|c b IH]; [done|]. cbn. destruct (ceq c slash); [auto|done]. Qed.

Lemma skip_slashes_app_nil b x : skip_slashes b = [] -> skip_slashes (b ++ x) = skip_slashes x.
Proof. induction b as [|c b IH]; [done|]. cbn. destruct (ceq c slash); [auto|done]. Qed.

Lemma base_ok_drop n b : base_ok b -> base_ok (drop n b).
Proof.
  intros [->|[b' ->]]; [by left; rewrite drop_nil|]. destruct (decide (length b' < n)%nat) as [Hlt|].
  - left. apply drop_ge. rewrite length_app. cbn. lia.
  - right. exists (drop n b'). rewrite drop_app_le; [lia|done].
Qed.

Lemma skip_equal_same w x y : no_slash w -> skip_equal (w ++ slash :: x) (w ++ slash :: y) = (slash :: x, slash :: y).
Proof.
  induction w as [|c w IH]; cbn.
  - intros _. by rewrite ceq_refl.
  - intros [Hc Hw]%not_elem_of_cons. rewrite ceq_refl (proj2 (ceq_false c slash)); [congruence|]. cbn. auto.
Qed.

Lemma skip_equal_length s t : (length (skip_equal s t).1 <= length s)%nat.
Proof. destruct (skip_equal_split s t) as (w & E & _). pose proof (f_equal length E) as L. rewrite length_app in L. lia. Qed.

Lemma strip_common_length fuel s t s' t' : strip_common fuel s t = Some (s', t') -> (length s' <= length (skip_slashes s))%nat.
Proof.
  revert s t. induction fuel as [|fuel IH]; intros s t; cbn [strip_common]; [done|].
  pose proof (skip_equal_length (skip_slashes s) (skip_slashes t)) as Hl.
  destruct (skip_equal _ _) as [s2 t2]. cbn in Hl. destruct (common_goes_on s2 t2); [|by intros [= <- _]].
  intros H%IH. pose proof (skip_slashes_length s2). lia.
Qed.

(** A common base is stripped. *)
Lemma strip_common_base fuel b x y s' t' : base_ok b ->
  strip_common fuel (b ++ x) (b ++ y) = Some (s', t') -> (length s' <= length x)%nat.
Proof.
  revert b. induction fuel as [|fuel IH]; intros b Hb Hs; [done|].
  destruct (decide (skip_slashes b = [])) as [Eb|Eb].
  { apply strip_common_length in Hs. rewrite skip_slashes_app_nil // in Hs. pose proof (skip_slashes_length x). lia. }
  destruct (skip_slashes_suffix b) as (n & En & _). destruct (skip_name_split (skip_slashes b)) as (w & Ew & Hw & He).
  assert (exists b2, skip_name (skip_slashes b) = slash :: b2) as [b2 Eb2].
  { destruct He as [Hnil|(b2 & ->)%starts_slash_spec]; [|eauto].
    destruct (base_ok_drop n b Hb) as [E|[b' E]]; rewrite -En in E; [done|].
    rewrite Hnil app_nil_r E in Ew. destruct Hw. rewrite -Ew. set_solver. }
  rewrite Eb2 in Ew. cbn [strip_common] in Hs. rewrite !skip_slashes_app // Ew in Hs.
  rewrite -!app_assoc -!app_comm_cons skip_equal_same // in Hs.
  apply (IH (slash :: b2)); [|exact Hs].
  replace (slash :: b2) with (drop (length w) (skip_slashes b)) by (by rewrite Ew drop_app_length).
  rewrite En. by do 2 apply base_ok_drop.
Qed.

(** A link to a place below the base directory, found below it, becomes relative
    when the buffer has room, unless it leads to itself or below itself. *)
Theorem transform_symlink_effective d rest target buf size :
  let path := sd_base d ++ rest in
  base_ok (sd_base d) -> starts_slash (sd_base d) = true -> nul_free path ->
  c_str buf = sd_base d ++ target -> ~ components path `prefix_of` components (c_str buf) ->
  size = Z.of_nat (length buf) -> 3 * Z.of_nat (length (components path)) + strlen target + 2 <= size ->
  exists buf', transform_symlink d path buf size = Some buf' /\ starts_slash (c_str buf') = false.
Proof.
  intros path Hb Hbs Hnp Hbuf Hpre Hsz Hroom.
  assert (starts_slash (c_str buf) = true) as Habs.
  { rewrite Hbuf. apply starts_slash_spec in Hbs as [b' ->]. done. }
  destruct (transform_symlink_run d path buf size Hnp Hsz Habs Hbs) as (l & p & cs & _ & _ & Es & C1 & C2 & Hrun).
  assert (length l <= length target)%nat as Hlen by (rewrite Hbuf in Es; by eapply strip_common_base).
  assert (components p <> []) as Hp0.
  { intros E. apply Hpre. rewrite C1 C2 E app_nil_r. by apply prefix_app_r. }
  cbv zeta in Hrun. rewrite bool_decide_false // orb_false_r in Hrun.
  assert (length (components p) <= length (components path))%nat by (rewrite C2 length_app; lia).
  rewrite (proj2 (Z.ltb_ge _ _)) in Hrun; [rewrite Hbuf; unfold strlen; rewrite length_app; lia|].
  rewrite (proj2 (Z.ltb_ge _ _)) in Hrun; [unfold strlen in *; lia|].
  destruct Hrun as (buf' & ? & _ & _ & ? & _). eauto.
Qed.

(** ** Every operation on the next file system *)


Section forward.
Abbreviation MH := (M lib).
Context (alloc_ok : nat -> bool) (has_op : fs_op -> bool) (fs_answer : nat -> fs_call -> fs_ret).
Context (d : subdir).

(** What [readdir] of the next file system lists, and the filler that the library
    gives to [readdir] of this one. *)
Context {Ent : Type} (fs_entries : fs_call -> list (cstring * Ent)) (filler : cstring -> Ent -> MH Z).








End forward.

(** ** Examples *)

(** [-o subdir=/srv,rellinks]; [subdir_new] has appended the slash. *)
Definition srv : subdir := mkSubdir (lit "/srv/") 1.

Example subdir_new_srv : subdir_new true (Some (Some (lit "/srv"), 1)) true false true true = Some srv.
Proof. reflexivity. Qed.

(** A link [/srv/a/b/l] to [/srv/a/c/t] in a buffer of 32 bytes. *)
Definition link_buf : list ascii := lit "/srv/a/c/t" ++ repeat NUL 22.

Example transform_link_buf :
  c_str <$> transform_symlink srv (lit "/srv/a/b/l") link_buf 32 = Some (lit "../c/t").
Proof. vm_compute. reflexivity. Qed.

(** A link to the base directory itself, written without the slash at its end, is
    left as it is: two characters are common, the base has three. *)
Example link_to_base_kept :
  c_str <$> transform_symlink (mkSubdir (lit "/b/") 1) (lit "/b/x/l") (lit "/b" ++ repeat NUL 30) 32 = Some (lit "/b").
Proof. vm_compute. reflexivity. Qed.

Lemma transform_symlink_correct_witness :
  exists buf', transform_symlink srv (lit "/srv/a/b/l") link_buf 32 = Some buf' /\ length buf' = length link_buf /\
    NUL ∈ buf' /\
    resolve (link_dir (lit "/srv/a/b/l")) (c_str buf') = resolve (link_dir (lit "/srv/a/b/l")) (c_str link_buf) /\
    (buf' = link_buf \/ starts_slash (c_str buf') = false).
Proof.
  apply (transform_symlink_correct srv (lit "/srv/a/b/l") link_buf 32); [by apply (bool_decide_eq_true_1 _)..|reflexivity].
Defined.

Lemma transform_symlink_effective_witness :
  exists buf', transform_symlink srv (lit "/srv/a/b/l") link_buf 32 = Some buf' /\ starts_slash (c_str buf') = false.
Proof.
  apply (transform_symlink_effective srv (lit "a/b/l") (lit "a/c/t") link_buf 32);
    [right; by exists (lit "/srv")|reflexivity|by apply (bool_decide_eq_true_1 _)|reflexivity| |reflexivity|vm_compute; discriminate].
  by apply (bool_decide_eq_true_1 _).
Defined.

(** A file system below that answers every call with [res]. *)
Definition answers (res : Z) (_ : nat) (_ : fs_call) : fs_ret :=
  mkRet res stat_zero fi0 [] (mkStatvfs 0 0 0 0 0 0 0 0) (mkFlock 0 0 0 0) 0.

(** An offset beyond [int] comes back as another offset: [subdir_lseek] keeps the
    [off_t] of the next file system in an [int]. *)
Example subdir_lseek_truncates :
  let h := mkLib (fuse_init true) [] [] ∅ 0 in
  exists h', subdir_lseek (fun _ => true) (fun _ => true) (answers (2 ^ 32 + 5)) srv (Some (lit "/f")) 0 3 fi0 h = Ok (5, h').
Proof. eexists. vm_compute. reflexivity. Qed.

