(* ===== verification/Iconv.v ===== *)
(** * The character-set module

    [src/lib/modules/iconv.c]: a file system stacked on another one that converts
    the characters of every path.  The conversion itself, [iconv(3)], is a parameter
    with its documented behaviour ([IconvLaws]) for encodings without shift states. *)
From S2P Require Import Prelude Locks NodeTable Node NodeOps Buffer Wire Dir Request HighLevel Stacked.

Definition E2BIG : Z := 7.

(** What a call of [iconv] leaves: [0] or [errno], the input it did not consume, and
    what it has written. *)
Record iconv_ret := mkIconvRet { ir_errno : Z; ir_rest : cstring; ir_out : cstring }.

(** ** The operations *)

Section iconv.
Abbreviation MH := (M lib).
Context (alloc_ok : nat -> bool) (has_op : fs_op -> bool) (fs_answer : nat -> fs_call -> fs_ret).
(** [iconv(fromfs ? ic->fromfs : ic->tofs, &s, &len, &p, &room)] *)
Context (iconv : bool -> cstring -> Z -> iconv_ret).












Definition iconv_init {A} (ic : A) {B} (fs_init : B -> MH B) (x : B) : MH (A * B) :=
  x ← fs_init x; mret (ic, x).

(** The next file system is destroyed before the module. *)
Definition iconv_destroy {A} (fs_destroy : MH unit) : MH (option A) :=
  fs_destroy;; mret None.

End iconv.

(** ** Making the file system *)

(** [struct iconv] *)
Record iconv_fs := mkIconv { ic_from_code : option cstring; ic_to_code : option cstring; ic_tofs : Z; ic_fromfs : Z }.

(** [parsed]: what [fuse_opt_parse] made of the options: [-1], or [from_code] and
    [to_code].  [next0], [next1]: whether [next[0]] and [next[1]] are set.
    [open_cd]: [iconv_open], with [-1] for a failure.  [new_ok]: [fuse_fs_new]. *)
Definition iconv_new (calloc_ok : bool) (parsed : option (option cstring * option cstring)) (next0 next1 : bool)
    (open_cd : cstring -> cstring -> Z) (new_ok : bool) : option iconv_fs :=
  if negb calloc_ok then None
  else
    '(from_code, to_code) ← parsed;
    if negb next0 || next1 then None
    else
      let from := match from_code with Some c => c | None => lit "UTF-8" end in
      let to := match to_code with Some c => c | None => [] end in
      let tofs := open_cd from to in
      if tofs =? -1 then None
      else
        let fromfs := open_cd to from in
        if tofs =? -1 then None
        else if new_ok then Some (mkIconv from_code to_code tofs fromfs) else None.

(** ** What [iconv] promises *)

(** [image f s]: the conversion of [s], [None] when [s] is not valid.  A call writes
    at most the room it has and consumes a part of the input; when it does not report
    an invalid sequence, what it wrote is the beginning of the image, and the image of
    the rest is what is missing.  It reports [E2BIG] without having consumed anything
    only when the next character, of at most 16 bytes, does not fit. *)
Class IconvLaws (iconv : bool -> cstring -> Z -> iconv_ret) (image : bool -> cstring -> option cstring) : Prop := {
  image_nil f : image f [] = Some [];
  iconv_call f s room : 0 <= room -> let r := iconv f s room in
    strlen (ir_out r) <= room /\ exists p, s = p ++ ir_rest r /\
    if ir_errno r =? 0 then ir_rest r = [] /\ image f s = Some (ir_out r)
    else if ir_errno r =? E2BIG then
      image f s = app (ir_out r) <$> image f (ir_rest r) /\ (p <> [] \/ ir_out r = [] /\ room < 16)
    else image f s = None;
}.

Section laws.
Abbreviation MH := (M lib).
Context (alloc_ok : nat -> bool) (has_op : fs_op -> bool) (fs_answer : nat -> fs_call -> fs_ret).
Context (iconv : bool -> cstring -> Z -> iconv_ret) (image : bool -> cstring -> option cstring) `{!IconvLaws iconv image}.




(** ** Every operation on the next file system *)






End laws.

(** ** Examples *)

(** Latin-1 to UTF-8, in both directions of the module. *)
Definition utf8 (c : ascii) : cstring :=
  let n := uchar c in if n <? 128 then [c] else [of_uchar (192 + n / 64); of_uchar (128 + n mod 64)].

Fixpoint latin1 (s : cstring) (room : Z) : iconv_ret :=
  match s with
  | [] => mkIconvRet 0 [] []
  | c :: s' =>
      if strlen (utf8 c) <=? room then
        let r := latin1 s' (room - strlen (utf8 c)) in mkIconvRet (ir_errno r) (ir_rest r) (utf8 c ++ ir_out r)
      else mkIconvRet E2BIG s []
  end.

Lemma utf8_length c : 1 <= strlen (utf8 c) <= 2.
Proof. unfold utf8. by destruct (_ <? _). Qed.

#[local] Instance latin1_laws : IconvLaws (fun _ => latin1) (fun _ s => Some (s ≫= utf8)).
Proof.
  split; [done|]. intros _ s. induction s as [|c s IH]; intros room Hroom; cbn [latin1].
  { split; [unfold strlen; cbn; lia|]. by exists []. }
  pose proof (utf8_length c). destruct (Z.leb_spec (strlen (utf8 c)) room).
  - destruct (IH (room - strlen (utf8 c))) as (Hle & p & Hs & Hr); [lia|]. set (r := latin1 s _) in *. cbn [ir_errno ir_rest ir_out].
    split; [unfold strlen in *; rewrite length_app; lia|]. exists (c :: p). split; [cbn; congruence|].
    destruct (ir_errno r =? 0); [destruct Hr as [-> [= Hr]]; split; [done|]; by rewrite bind_cons Hr|].
    destruct (ir_errno r =? E2BIG); [|done]. destruct Hr as [[= Hr] _]. split; [|by left]. cbn [fmap option_fmap option_map]. by rewrite bind_cons Hr app_assoc.
  - cbn [ir_errno ir_rest ir_out]. split; [unfold strlen; cbn; lia|]. exists []. split; [done|]. cbn [E2BIG Z.eqb Pos.eqb]. split; [done|]. right. split; [done|lia].
Qed.





(** A charset that [iconv_open] knows in one direction only: the module is made all
    the same, with a descriptor of [-1]: the second test looks at the first
    descriptor again. *)
Example iconv_new_unchecked : exists ic,
  iconv_new true (Some (None, Some (lit "X"))) true false (fun to _ => if bool_decide (to = lit "UTF-8") then 3 else -1) true = Some ic /\
  ic_fromfs ic = -1.
Proof. eexists. split; reflexivity. Qed.
