(* ===== verification/Cuse.v ===== *)
(** * Character devices in user space

    [src/lib/cuse_lowlevel.c]: a session whose operations are those of a character
    device.  The description of the device, the INIT handler of such a session,
    which discharges the interface of [SessionSafe], and setting up and tearing
    down. *)
From S2P Require Import Prelude Wire Request Handlers Init Session SessionSafe InitSafe.

(** ** The description of the device *)

Definition CUSE_INIT_INFO_MAX : Z := 4096.

(** The members of [struct cuse_lowlevel_ops]. *)
Inductive cuse_op :=
  | clop_init | clop_init_done | clop_destroy | clop_open | clop_read | clop_write | clop_flush | clop_release
  | clop_fsync | clop_ioctl | clop_poll.

Record cuse_info := mkCuseInfo { ci_dev_major : Z; ci_dev_minor : Z; ci_dev_info_argv : list cstring; ci_flags : Z }.

Record cuse_data := mkCuseData {
  cd_clop : cuse_op -> bool;
  cd_max_read : Z;
  cd_dev_major : Z;
  cd_dev_minor : Z;
  cd_flags : Z;
  cd_dev_info_len : Z;
  cd_dev_info : list ascii;
}.

(** The size, and the buffer [buf], if there is one, written from [at_] on. *)
Fixpoint pack_info (argv : list cstring) (at_ : Z) (buf : option (list ascii)) : Z * option (list ascii) :=
  match argv with
  | [] => (0, buf)
  | arg :: argv =>
      let len := strlen arg + 1 in
      let buf := match buf with Some buf => Some (blit buf at_ (arg ++ [NUL])) | None => None end in
      let '(size, buf) := pack_info argv (at_ + len) buf in
      (len + size, buf)
  end.
Definition cuse_pack_info (argv : list cstring) (buf : option (list ascii)) : Z * option (list ascii) := pack_info argv 0 buf.

Definition cuse_prep_data (calloc_ok : bool) (ci : cuse_info) (clop : cuse_op -> bool) : option cuse_data :=
  let '(dev_info_len, _) := cuse_pack_info (ci_dev_info_argv ci) None in
  if CUSE_INIT_INFO_MAX <? dev_info_len then None
  else if negb calloc_ok then None
  else
    let '(_, buf) := cuse_pack_info (ci_dev_info_argv ci) (Some (repeat NUL (Z.to_nat dev_info_len))) in
    match buf with
    | Some dev_info => Some (mkCuseData clop 131072 (ci_dev_major ci) (ci_dev_minor ci) (ci_flags ci) dev_info_len dev_info)
    | None => None
    end.

(** ** The operations *)

(** Calls of the device. *)
Inductive cuse_call :=
  | CC_open (fi : fuse_file_info)
  | CC_read (size off : Z) (fi : fuse_file_info)
  | CC_write (buf : list Z) (size off : Z) (fi : fuse_file_info)
  | CC_flush (fi : fuse_file_info)
  | CC_release (fi : fuse_file_info)
  | CC_fsync (datasync : Z) (fi : fuse_file_info)
  | CC_ioctl (cmd arg : Z) (fi : fuse_file_info) (flags : Z) (in_buf : list Z) (in_size out_size : Z)
  | CC_poll (fi : fuse_file_info) (kh : option Z).

Definition cuse_fll_open (ino : Z) (fi : fuse_file_info) : cuse_call := CC_open fi.
Definition cuse_fll_read (ino size off : Z) (fi : fuse_file_info) : cuse_call := CC_read size off fi.
Definition cuse_fll_write (ino : Z) (buf : list Z) (size off : Z) (fi : fuse_file_info) : cuse_call := CC_write buf size off fi.
Definition cuse_fll_flush (ino : Z) (fi : fuse_file_info) : cuse_call := CC_flush fi.
Definition cuse_fll_release (ino : Z) (fi : fuse_file_info) : cuse_call := CC_release fi.
Definition cuse_fll_fsync (ino datasync : Z) (fi : fuse_file_info) : cuse_call := CC_fsync datasync fi.
Definition cuse_fll_ioctl (ino cmd arg : Z) (fi : fuse_file_info) (flags : Z) (in_buf : list Z) (in_size out_size : Z) : cuse_call :=
  CC_ioctl cmd arg fi flags in_buf in_size out_size.
Definition cuse_fll_poll (ino : Z) (fi : fuse_file_info) (kh : option Z) : cuse_call := CC_poll fi kh.

(** The operations [lop] that [cuse_lowlevel_new] gives the session. *)
Definition cuse_lop (clop : cuse_op -> bool) (o : ll_op) : bool :=
  match o with
  | op_destroy => clop clop_destroy
  | op_open => clop clop_open
  | op_read => clop clop_read
  | op_write => clop clop_write
  | op_flush => clop clop_flush
  | op_release => clop clop_release
  | op_fsync => clop clop_fsync
  | op_ioctl => clop clop_ioctl
  | op_poll => clop clop_poll
  | _ => false
  end.

(** What a call of the session becomes; [None]: the device has no such operation. *)
Definition cuse_dispatch (c : ll_call) : option cuse_call :=
  match c with
  | Call_open ino fi => Some (cuse_fll_open ino fi)
  | Call_read ino size off fi => Some (cuse_fll_read ino size off fi)
  | Call_write ino buf size off fi => Some (cuse_fll_write ino buf size off fi)
  | Call_flush ino fi => Some (cuse_fll_flush ino fi)
  | Call_release ino fi => Some (cuse_fll_release ino fi)
  | Call_fsync ino datasync fi => Some (cuse_fll_fsync ino datasync fi)
  | Call_ioctl ino cmd arg fi flags in_buf in_size out_size => Some (cuse_fll_ioctl ino cmd arg fi flags in_buf in_size out_size)
  | Call_poll ino fi kh => Some (cuse_fll_poll ino fi kh)
  | _ => None
  end.

(** [fuse_session_new] is given as [session_new]: the session with those operations,
    if it could be made. *)
Definition cuse_lowlevel_new {S} (session_new : (ll_op -> bool) -> option S) (calloc_ok : bool) (ci : cuse_info)
    (clop : cuse_op -> bool) : option (S * cuse_data) :=
  cd ← cuse_prep_data calloc_ok ci clop;
  se ← session_new (cuse_lop clop);
  Some (se, cd).

(** ** INIT *)

Section init.
Abbreviation MS := (M (session ll_call)).
Context (send_errno : nat -> Z) (known_errno : Z -> bool).
Context (cd : cuse_data).
(** [se->op.init], if the device has it. *)
Context (op_init : option (fuse_conn_info -> fuse_conn_info)).
(** [clop->init_done], if the device has it. *)
Context (init_done : option (MS unit)).

(** [struct cuse_init_out] *)
Definition encode_cuse_init_out (major minor flags max_read max_write dev_major dev_minor : Z) : list Z :=
  le 4 major ++ le 4 minor ++ le 4 0 ++ le 4 flags ++ le 4 max_read ++ le 4 max_write ++ le 4 dev_major ++
  le 4 dev_minor ++ repeat 0 40.

Definition cuse_reply_init (r : Z) (arg : list Z) (dev_info : list ascii) (dev_info_len : Z) : MS Z :=
  fuse_send_reply_iov_nofree send_errno known_errno r 0 (arg ++ (uchar <$> take (Z.to_nat dev_info_len) dev_info)).

(** [se->conn.max_write] before [init] is called. *)
Definition cuse_max_write (bufsize max_write : Z) : Z :=
  let bufsize := if bufsize <? FUSE_MIN_READ_BUFFER then FUSE_MIN_READ_BUFFER else bufsize in
  let bufsize := bufsize - 4096 in
  if bufsize <? max_write then u32 bufsize else max_write.

Definition cuse_lowlevel_init (r nodeid : Z) (inarg : list Z) : MS unit :=
  let arg := decode_init_in inarg in
  s ← get;
  let bufsize := se_bufsize s in
  let conn := set_ci_proto_minor (set_ci_proto_major (se_conn s) (ii_major arg)) (ii_minor arg) in
  put (set_conn s (set_ci_want_ext (set_ci_capable_ext conn 0) 0));;
  if ii_major arg <? 7 then Handlers.reply_err send_errno known_errno r EPROTO
  else
    s ← get;
    let conn := set_ci_max_write (se_conn s) (cuse_max_write bufsize (ci_max_write (se_conn s))) in
    put (set_got_init (set_conn s (match op_init with Some init => init conn | None => conn end)) true);;
    s ← get;
    let outarg := encode_cuse_init_out FUSE_KERNEL_VERSION FUSE_KERNEL_MINOR_VERSION (cd_flags cd) (cd_max_read cd)
      (ci_max_write (se_conn s)) (cd_dev_major cd) (cd_dev_minor cd) in
    cuse_reply_init r outarg (cd_dev_info cd) (cd_dev_info_len cd);;
    default (mret tt) init_done;;
    fuse_free_req r.
End init.

(** ** Setting up and tearing down *)

(** Which of the descriptors 0, 1 and 2 are open. *)
Record std_fds := mkStd { std0 : bool; std1 : bool; std2 : bool }.

(** [open] takes the lowest free descriptor; above 2 it is closed again. *)
Definition open_lowest (fds : std_fds) : Z * std_fds :=
  if negb (std0 fds) then (0, mkStd true (std1 fds) (std2 fds))
  else if negb (std1 fds) then (1, mkStd (std0 fds) true (std2 fds))
  else if negb (std2 fds) then (2, mkStd (std0 fds) (std1 fds) true)
  else (3, fds).

(** [do { fd = open("/dev/null", O_RDWR); if (fd > 2) close(fd); } while (fd >= 0 && fd <= 2);]
    [open_ok]: whether the [i]-th [open] succeeds. *)
Fixpoint open_std_fds (fuel : nat) (open_ok : nat -> bool) (i : nat) (fds : std_fds) : option std_fds :=
  match fuel with
  | O => None
  | S fuel =>
      if negb (open_ok i) then Some fds
      else
        let '(fd, fds) := open_lowest fds in
        if 2 <? fd then Some fds else open_std_fds fuel open_ok (S i) fds
  end.

(** What [cuse_lowlevel_setup] has acquired. *)
Record cuse_held := mkHeld { h_args : bool; h_mountpoint : bool; h_session : bool; h_device : bool; h_handlers : bool }.

(** The steps, in order: [fuse_parse_cmdline], removing [subtype=], [cuse_lowlevel_new],
    opening the device, the signal handlers, [fuse_daemonize]; whether each succeeds. *)
Record setup_ok := mkOk { so_parse : bool; so_subtype : bool; so_new : bool; so_open : bool; so_signals : bool; so_daemonize : bool }.

(** [fuse_session_destroy] closes the device. *)
Definition setup_destroy (h : cuse_held) : cuse_held := mkHeld (h_args h) (h_mountpoint h) false false (h_handlers h).
Definition setup_remove_handlers (h : cuse_held) : cuse_held := mkHeld (h_args h) (h_mountpoint h) (h_session h) (h_device h) false.
(** [out1:] *)
Definition setup_out1 (h : cuse_held) : cuse_held := mkHeld false false (h_session h) (h_device h) (h_handlers h).

(** Whether a session is returned, and what is held then. *)
Definition cuse_lowlevel_setup (ok : setup_ok) : bool * cuse_held :=
  let h := mkHeld true true false false false in
  if negb (so_parse ok) then (false, h)
  else if negb (so_subtype ok) then (false, setup_out1 h)
  else if negb (so_new ok) then (false, setup_out1 h)
  else
    let h := mkHeld true true true false false in
    if negb (so_open ok) then (false, setup_out1 (setup_destroy h))
    else
      let h := mkHeld true true true true false in
      if negb (so_signals ok) then (false, setup_out1 (setup_destroy h))
      else
        let h := mkHeld true true true true true in
        if negb (so_daemonize ok) then (false, setup_out1 (setup_destroy (setup_remove_handlers h)))
        else (true, mkHeld false true true true true).

Definition cuse_lowlevel_teardown (h : cuse_held) : cuse_held := setup_destroy (setup_remove_handlers h).

(** [loop]: the result of the loop, multi- or single-threaded.  The exit status and
    what is held at the end. *)
Definition cuse_lowlevel_main (ok : setup_ok) (loop : Z) : Z * cuse_held :=
  let '(se, h) := cuse_lowlevel_setup ok in
  if negb se then (1, h)
  else
    let h := cuse_lowlevel_teardown h in
    if loop =? -1 then (1, h) else (0, h).

(** ** The description is read back *)

(** The NUL-terminated strings of a buffer, as the kernel reads them. *)
Fixpoint unpack (buf : list ascii) (acc : cstring) : list cstring :=
  match buf with
  | [] => []
  | c :: buf => if ceq c NUL then acc :: unpack buf [] else unpack buf (acc ++ [c])
  end.

(** The room the strings need with their terminators. *)
Fixpoint info_len (argv : list cstring) : Z :=
  match argv with [] => 0 | arg :: argv => strlen arg + 1 + info_len argv end.

Definition packed (argv : list cstring) : list ascii := argv ≫= (fun arg => arg ++ [NUL]).

Lemma unpack_arg arg buf acc : nul_free arg -> unpack (arg ++ NUL :: buf) acc = (acc ++ arg) :: unpack buf [].
Proof.
  revert acc. induction arg as [|c arg IH]; intros acc Hn; cbn [app unpack].
  - by rewrite ceq_refl app_nil_r.
  - apply nul_free_cons in Hn as [Hc Hn]. apply ceq_false in Hc. rewrite Hc IH // -app_assoc //.
Qed.

Lemma unpack_packed argv : Forall nul_free argv -> unpack (packed argv) [] = argv.
Proof.
  induction 1 as [|arg argv Ha _ IH]; [done|]. unfold packed. rewrite bind_cons -app_assoc unpack_arg //. by rewrite -/(packed argv) IH.
Qed.

Lemma pack_info_spec argv : forall at_ (pre rest : list ascii), at_ = Z.of_nat (length pre) -> (length (packed argv) <= length rest)%nat ->
  pack_info argv at_ None = (Z.of_nat (length (packed argv)), None) /\
  pack_info argv at_ (Some (pre ++ rest)) =
    (Z.of_nat (length (packed argv)), Some (pre ++ packed argv ++ drop (length (packed argv)) rest)).
Proof.
  induction argv as [|arg argv IH]; intros at_ pre rest Hat Hl; cbn [pack_info]; [by rewrite drop_0|].
  assert (packed (arg :: argv) = (arg ++ [NUL]) ++ packed argv) as Ep by reflexivity.
  rewrite Ep in Hl |- *. rewrite length_app in Hl. assert (length (arg ++ [NUL]) = S (length arg)) as Ea by (rewrite length_app; cbn; lia).
  assert (blit (pre ++ rest) at_ (arg ++ [NUL]) = (pre ++ arg ++ [NUL]) ++ drop (length (arg ++ [NUL])) rest) as Eb.
  { unfold blit. rewrite Hat Nat2Z.id take_app_length drop_app_add. by rewrite -!app_assoc. }
  destruct (IH (at_ + (strlen arg + 1)) (pre ++ arg ++ [NUL]) (drop (length (arg ++ [NUL])) rest)) as [E1 E2].
  { rewrite Hat length_app Ea. unfold strlen. lia. }
  { rewrite length_drop. lia. }
  rewrite E1 Eb E2 length_app Ea. split; [f_equal; unfold strlen; lia|]. f_equal; [unfold strlen; lia|]. f_equal.
  by rewrite drop_drop -!app_assoc.
Qed.

Lemma length_packed argv : Z.of_nat (length (packed argv)) = info_len argv.
Proof.
  induction argv as [|arg argv IH]; [done|]. unfold packed in *. rewrite bind_cons length_app Nat2Z.inj_add IH. cbn [info_len].
  rewrite length_app. unfold strlen. cbn. lia.
Qed.

(** C38: the description of a device.  [cuse_prep_data] fails exactly when the
    strings with their terminators exceed the limit of the kernel or there is no
    memory.  Otherwise they are packed in exactly the size that was computed for
    them and are read back as they were, and the numbers, flags and operations of
    the device are taken over. *)
Theorem cuse_info_roundtrip calloc_ok ci clop : Forall nul_free (ci_dev_info_argv ci) ->
  let len := info_len (ci_dev_info_argv ci) in
  match cuse_prep_data calloc_ok ci clop with
  | None => CUSE_INIT_INFO_MAX < len \/ calloc_ok = false
  | Some cd => len <= CUSE_INIT_INFO_MAX /\ calloc_ok = true /\
      cd_dev_info_len cd = len /\ Z.of_nat (length (cd_dev_info cd)) = len /\
      unpack (cd_dev_info cd) [] = ci_dev_info_argv ci /\
      cd_dev_major cd = ci_dev_major ci /\ cd_dev_minor cd = ci_dev_minor ci /\ cd_flags cd = ci_flags ci /\ cd_clop cd = clop
  end.
Proof.
  unfold cuse_prep_data, cuse_pack_info. intros Hn. set (argv := ci_dev_info_argv ci) in *. cbv zeta. rewrite -length_packed.
  set (n := length (packed argv)). destruct (pack_info_spec argv 0 [] (repeat NUL n) eq_refl) as [E1 E2]; [by rewrite repeat_length|].
  rewrite E1. fold n. destruct (Z.ltb_spec CUSE_INIT_INFO_MAX (Z.of_nat n)); [by left|]. destruct calloc_ok; cbn [negb]; [|by right].
  rewrite Nat2Z.id. cbn [app] in E2. rewrite E2 drop_ge; [by rewrite repeat_length|]. rewrite app_nil_r.
  split_and!; try done. by apply unpack_packed.
Qed.

(** ** INIT *)

(** The result of answering is not used; [d] leaves the state as it is. *)
Lemma wp_drop_result {S A} (m : M S A) (d f : M S unit) (Q : S -> Prop) s : (forall s1, d s1 = Ok (tt, s1)) ->
  wp (res ← m; f;; mret res) (fun _ s' => Q s') s -> wp (m;; d;; f) (fun _ s' => Q s') s.
Proof.
  intros Hd. unfold wp, mbind, M_bind, mret, M_ret. destruct (m s) as [[a s1]| |]; [|done..]. rewrite Hd.
  by destruct (f s1) as [[[] s2]| |].
Qed.

Section answered.
Context (send_errno : nat -> Z) (known_errno : Z -> bool) (cd : cuse_data).
Context (op_init : option (fuse_conn_info -> fuse_conn_info)).
Abbreviation St := (session ll_call).
(** [init_done] is given the user's data only: it returns and does not touch the
    session. *)
Context (init_done : option (M St unit)).
Hypothesis init_done_frame : forall s, default (mret tt) init_done s = Ok (tt, s).

(** The session may call [cuse_lowlevel_init]: it consumes its request, as long as
    [init] leaves interrupts on. *)
Lemma cuse_init_handles :
  (forall init c, op_init = Some init -> ci_no_interrupt (init c) = ci_no_interrupt c) ->
  InitHandler (cuse_lowlevel_init send_errno known_errno cd op_init init_done).
Proof.
  intros Hint r nodeid inarg s im owned busy Hi Hs. unfold cuse_lowlevel_init.
  assert (forall s1 : St, ci_no_interrupt (se_conn s1) = ci_no_interrupt (se_conn s) -> se_reqs s1 = se_reqs s -> se_next s1 = se_next s ->
    se_list s1 = se_list s -> se_interrupts s1 = se_interrupts s -> se_held s1 = se_held s -> se_out s1 = se_out s ->
    sinv s1 ((r, im) :: owned) busy) as Hframe.
  { intros s1 E1 E2 E3 E4 E5 E6 E7. destruct Hs as [Hc Ho]. destruct (sinv_frame s s1 ((r, im) :: owned) busy) as [Hc1 Ho1]; try done.
    split; [done|]. apply Ho1; [|done]. unfold answered. by rewrite E7. }
  apply wp_bind, wp_get, wp_bind, wp_put. destruct (_ <? 7); [apply handles_err with (im := im); [done|by apply Hframe]|].
  apply wp_bind, wp_get, wp_bind, wp_put, wp_bind, wp_get. set (s2 := set_got_init _ true). unfold cuse_reply_init.
  assert (sinv s2 ((r, im) :: owned) busy) as Hs2.
  { apply Hframe; try done. cbn. destruct op_init as [init|] eqn:E; [by rewrite (Hint _ _ eq_refl)|done]. }
  pose proof (send_reply_iov_wp send_errno known_errno s2 r im owned busy 0
    (encode_cuse_init_out FUSE_KERNEL_VERSION FUSE_KERNEL_MINOR_VERSION (cd_flags cd) (cd_max_read cd)
      (ci_max_write (se_conn s2)) (cd_dev_major cd) (cd_dev_minor cd) ++ (uchar <$> take (Z.to_nat (cd_dev_info_len cd)) (cd_dev_info cd))) Hs2) as Hw.
  unfold send_reply_iov in Hw. exact (wp_drop_result _ _ _ (fun s' => sinv s' owned busy) _ init_done_frame Hw).
Qed.

(** [max_write] once it is fitted into the receive buffer: a request's header has 4096
    bytes, and the buffer is taken to have at least [FUSE_MIN_READ_BUFFER]. *)
Definition fitted_max_write (bufsize max_write : Z) : Z := Z.min (Z.max bufsize FUSE_MIN_READ_BUFFER - 4096) max_write.

Lemma cuse_max_write_fitted b mw : b < 2 ^ 32 -> cuse_max_write b mw = fitted_max_write b mw.
Proof.
  intros Hb. unfold cuse_max_write, fitted_max_write. unfold FUSE_MIN_READ_BUFFER.
  destruct (Z.ltb_spec b 8192); [destruct (Z.ltb_spec (8192 - 4096) mw)|destruct (Z.ltb_spec (b - 4096) mw)];
    rewrite ?wrap_small; lia.
Qed.

(** The connection [init] of the device is given. *)
Definition offered_conn (c : fuse_conn_info) (arg : fuse_init_in) (bufsize : Z) : fuse_conn_info :=
  set_ci_max_write (set_ci_want_ext (set_ci_capable_ext (set_ci_proto_minor (set_ci_proto_major c (ii_major arg)) (ii_minor arg)) 0) 0)
    (fitted_max_write bufsize (ci_max_write c)).

(** What CUSE_INIT leaves: one answer, and the connection it names. *)
Definition cuse_init_post (r : Z) (q : fuse_req) (arg : fuse_init_in) (s s' : St) : Prop :=
  se_bufsize s' = se_bufsize s /\ se_exited s' = se_exited s /\
  if ii_major arg <? 7 then se_got_init s' = se_got_init s /\ se_out s' = se_out s ++ [reply_msg r q (- EPROTO) []]
  else
    let conn := offered_conn (se_conn s) arg (se_bufsize s) in
    se_got_init s' = true /\
    se_conn s' = match op_init with Some init => init conn | None => conn end /\
    se_out s' = se_out s ++ [reply_msg r q 0 (encode_cuse_init_out 7 40 (cd_flags cd) (cd_max_read cd)
      (ci_max_write (se_conn s')) (cd_dev_major cd) (cd_dev_minor cd) ++
      (uchar <$> take (Z.to_nat (cd_dev_info_len cd)) (cd_dev_info cd)))].

(** C37: CUSE_INIT gets exactly one answer.  For a protocol before 7 it is EPROTO, and
    the session is left uninitialised; otherwise it is the description of the device
    with the [max_write] of the connection.  [init] of the device is given the
    connection with the protocol of the kernel and a [max_write] fitted into the receive
    buffer, less 4096 bytes, which is then the one answered when the device has no
    [init]; what [init] leaves is answered as it is. *)
Theorem cuse_init_answered r nodeid inarg s q : se_reqs s !! r = Some q -> known_errno EPROTO = true -> se_bufsize s < 2 ^ 32 ->
  exists s', cuse_lowlevel_init send_errno known_errno cd op_init init_done r nodeid inarg s = Ok (tt, s') /\
    cuse_init_post r q (decode_init_in inarg) s s'.
Proof using init_done_frame.
  intros Hq Hk Hbuf. set (arg := decode_init_in inarg). assert (checked_error known_errno (- EPROTO) = - EPROTO) as Hce.
  { unfold checked_error. change (- EPROTO * -1) with EPROTO. by rewrite Hk. }
  assert (checked_error known_errno 0 = 0) as Hc0 by (unfold checked_error; by rewrite andb_false_r).
  enough (wp (cuse_lowlevel_init send_errno known_errno cd op_init init_done r nodeid inarg) (fun _ => cuse_init_post r q arg s) s) as Hwp.
  { apply wp_Ok in Hwp as ([] & s' & ? & ?). eauto. }
  unfold cuse_lowlevel_init, cuse_init_post. apply wp_bind, wp_get, wp_bind, wp_put. fold arg. destruct (ii_major arg <? 7).
  - apply wp_bind. eapply send_keeps; [done|]. intros res s' He Ho. rewrite Hce in Ho. apply wp_ret.
    unfold se_env in He. injection He as ? ? ? ? ? ?. done.
  - apply wp_bind, wp_get, wp_bind, wp_put, wp_bind, wp_get. set (s2 := set_got_init _ true). unfold cuse_reply_init.
    eapply (wp_drop_result _ _ _ (fun s' => _)); [exact init_done_frame|].
    eapply (send_keeps send_errno known_errno r q); [done|]. intros res s' He Ho. rewrite Hc0 in Ho.
    unfold se_env, nego_of in He. injection He as Hconn ? ? ? ? ? ? ?. change (se_conn s' = se_conn s2) in Hconn.
    rewrite Hconn. split_and!; [done..| |done]. cbn [se_conn s2 set_got_init set_conn].
    unfold offered_conn. by rewrite -cuse_max_write_fitted.
Qed.

End answered.

(** ** Descriptors and resources *)

(** With [open] succeeding the loop ends with the standard descriptors open. *)
Lemma open_std_fds_spec fds open_ok : (forall i, open_ok i = true) ->
  open_std_fds 4 open_ok 0 fds = Some (mkStd true true true).
Proof. intros Ho. cbn [open_std_fds]. rewrite !Ho. by destruct fds as [[] [] []]. Qed.

(** When setting up a device fails after the command line was parsed, nothing it
    had acquired is kept; after a successful run and the teardown only the mount
    point of the options is left, which nothing frees. *)
Theorem cuse_resources ok loop : so_parse ok = true ->
  let '(_, h) := cuse_lowlevel_main ok loop in
  h_args h = false /\ h_session h = false /\ h_device h = false /\ h_handlers h = false /\
  (h_mountpoint h = true <-> fst (cuse_lowlevel_setup ok) = true).
Proof. destruct ok as [[] [] [] [] [] []]; try done; intros _; cbn; destruct (loop =? -1); done. Qed.

(** ** Examples *)

Definition sample_info : cuse_info := mkCuseInfo 0 0 [lit "DEVNAME=x"; lit "A=b"] 1.
Definition sample_data : cuse_data := mkCuseData (fun _ => true) 131072 0 0 1 14 (lit "DEVNAME=x" ++ [NUL] ++ lit "A=b" ++ [NUL]).

Lemma cuse_info_roundtrip_witness :
  cd_dev_info_len sample_data <= CUSE_INIT_INFO_MAX /\ unpack (cd_dev_info sample_data) [] = ci_dev_info_argv sample_info.
Proof.
  pose proof (cuse_info_roundtrip true sample_info (fun _ => true)) as H. cbv zeta in H.
  assert (cuse_prep_data true sample_info (fun _ => true) = Some sample_data) as E by reflexivity. rewrite E in H.
  destruct H as (H1 & _ & H2 & _ & H3 & _); [repeat constructor; by apply (bool_decide_eq_true_1 _)|].
  rewrite H2. split; [exact H1|exact H3].
Defined.

Lemma cuse_init_answered_witness : exists s',
  cuse_lowlevel_init (fun _ => 0) (fun _ => true) sample_data None None 1 0 init_inarg init_session = Ok (tt, s') /\
  cuse_init_post sample_data None 1 (mkReq 5 1 (mkCtx 0 0 0 0) true false 0) (decode_init_in init_inarg) init_session s'.
Proof.
  apply (cuse_init_answered (fun _ => 0) (fun _ => true) sample_data None None (fun _ => eq_refl) 1 0 init_inarg init_session); reflexivity.
Defined.

(** Nothing fits [max_write] again after [init] of the device was called: it can have a
    value answered that the receive buffer has no room for. *)
Example cuse_init_unfits :
  match cuse_lowlevel_init (fun _ => 0) (fun _ => true) sample_data (Some (fun c => set_ci_max_write c (2 ^ 30))) None 1 0 init_inarg
    init_session with
  | Ok (_, s') => se_bufsize s' <? ci_max_write (se_conn s')
  | _ => false
  end = true.
Proof. by vm_compute. Qed.

Lemma cuse_resources_witness : let '(_, h) := cuse_lowlevel_main (mkOk true true true true false true) 0 in
  h_args h = false /\ h_session h = false /\ h_device h = false /\ h_handlers h = false /\
  (h_mountpoint h = true <-> fst (cuse_lowlevel_setup (mkOk true true true true false true)) = true).
Proof. apply (cuse_resources (mkOk true true true true false true) 0). reflexivity. Defined.
