(* ===== verification/Signals.v ===== *)
(** * Signal handlers

    [src/lib/fuse_signals.c]: the handlers that end a session, and how they are
    installed and removed again without disturbing what the program has set. *)
From S2P Require Import Prelude.

(** ** State *)

(** [sa_handler]: the default, ignoring, a handler of the library, or one of the
    program. *)
Inductive handler := SIG_DFL | SIG_IGN | H_exit_handler | H_exit_backtrace | H_do_nothing | H_program (f : Z).

#[global] Instance handler_eq : EqDecision handler.
Proof. solve_decision. Defined.

Definition SIGHUP : Z := 1.
Definition SIGINT : Z := 2.
Definition SIGILL : Z := 4.
Definition SIGTRAP : Z := 5.
Definition SIGABRT : Z := 6.
Definition SIGBUS : Z := 7.
Definition SIGFPE : Z := 8.
Definition SIGSEGV : Z := 11.
Definition SIGPIPE : Z := 13.
Definition SIGTERM : Z := 15.

Definition teardown_sigs : list Z := [SIGHUP; SIGINT; SIGTERM].
Definition ignore_sigs : list Z := [SIGPIPE].
Definition fail_sigs : list Z := [SIGILL; SIGTRAP; SIGABRT; SIGBUS; SIGFPE; SIGSEGV].

(** The dispositions of the process, [fuse_instance], and of every session, by
    number, [exited] and [error]; [sg_tick] counts the calls of [sigaction]. *)
Record sigs := mkSigs {
  sg_handler : Z -> handler;
  sg_instance : option Z;
  sg_exited : Z -> bool;
  sg_error : Z -> Z;
  sg_tick : nat;
}.

Definition set_sg_handler (s : sigs) sig h :=
  mkSigs (fun x => if x =? sig then h else sg_handler s x) (sg_instance s) (sg_exited s) (sg_error s) (sg_tick s).
Definition set_sg_instance (s : sigs) v := mkSigs (sg_handler s) v (sg_exited s) (sg_error s) (sg_tick s).
Definition set_sg_exited (s : sigs) se := mkSigs (sg_handler s) (sg_instance s) (fun x => (x =? se) || sg_exited s x) (sg_error s) (sg_tick s).
Definition set_sg_error (s : sigs) se v :=
  mkSigs (sg_handler s) (sg_instance s) (sg_exited s) (fun x => if x =? se then v else sg_error s x) (sg_tick s).
Definition set_sg_tick (s : sigs) v := mkSigs (sg_handler s) (sg_instance s) (sg_exited s) (sg_error s) v.

Section signals.
Abbreviation MG := (M sigs).
(** Whether the [i]-th call of [sigaction] succeeds. *)
Context (sigaction_ok : nat -> bool).

Definition sigaction_get (sig : Z) : MG (option handler) := fun s =>
  Ok (if sigaction_ok (sg_tick s) then Some (sg_handler s sig) else None, set_sg_tick s (S (sg_tick s))).
Definition sigaction_set (sig : Z) (h : handler) : MG bool := fun s =>
  let s' := set_sg_tick s (S (sg_tick s)) in
  if sigaction_ok (sg_tick s) then Ok (true, set_sg_handler s' sig h) else Ok (false, s').

(** ** The handlers *)

Definition exit_handler (sig : Z) : MG unit :=
  s ← get;
  match sg_instance s with
  | None => mret tt
  | Some se =>
      modify (fun s => set_sg_exited s se);;
      if sig <? 0 then abort else modify (fun s => set_sg_error s se sig)
  end.

(** ** Installing and removing *)

Definition set_one_signal_handler (sig : Z) (h : handler) (remove : bool) : MG Z :=
  let sa_handler := if remove then SIG_DFL else h in
  old ← sigaction_get sig;
  match old with
  | None => mret (-1)
  | Some old =>
      if bool_decide (old = if remove then h else SIG_DFL) then
        ok ← sigaction_set sig sa_handler;
        if (ok : bool) then mret 0 else mret (-1)
      else mret 0
  end.

Fixpoint _fuse_set_signal_handlers (signals : list Z) (h : handler) : MG Z :=
  match signals with
  | [] => mret 0
  | signal :: signals =>
      r ← set_one_signal_handler signal h false;
      if r =? -1 then mret (-1) else _fuse_set_signal_handlers signals h
  end.

Definition fuse_set_signal_handlers (se : Z) : MG Z :=
  rc ← _fuse_set_signal_handlers teardown_sigs H_exit_handler;
  if rc <? 0 then mret rc
  else
    rc ← _fuse_set_signal_handlers ignore_sigs H_do_nothing;
    if rc <? 0 then mret rc
    else
      modify (fun s => set_sg_instance s (Some se));;
      mret 0.

Definition fuse_set_fail_signal_handlers (se : Z) : MG Z :=
  rc ← _fuse_set_signal_handlers fail_sigs H_exit_backtrace;
  if rc <? 0 then mret rc
  else
    modify (fun s => set_sg_instance s (Some se));;
    mret 0.

Fixpoint _fuse_remove_signal_handlers (signals : list Z) (h : handler) : MG unit :=
  match signals with
  | [] => mret tt
  | signal :: signals => set_one_signal_handler signal h true;; _fuse_remove_signal_handlers signals h
  end.

Definition fuse_remove_signal_handlers (se : Z) : MG unit :=
  s ← get;
  (if bool_decide (sg_instance s = Some se) then modify (fun s => set_sg_instance s None) else mret tt);;
  _fuse_remove_signal_handlers teardown_sigs H_exit_handler;;
  _fuse_remove_signal_handlers ignore_sigs H_do_nothing;;
  _fuse_remove_signal_handlers fail_sigs H_exit_backtrace.

(** [exit_backtrace] ends in [abort] when there is a session. *)
Definition exit_backtrace (sig : Z) : MG unit :=
  s ← get;
  match sg_instance s with
  | None => mret tt
  | Some se =>
      modify (fun s => set_sg_exited s se);;
      fuse_remove_signal_handlers se;;
      abort
  end.
End signals.

(** ** What the program has set is left alone *)

Section correct.
(** The answers of [sigaction] while the handlers are installed, and, all of them good,
    while they are removed. *)
Context (sigaction_ok remove_ok : nat -> bool).
Hypothesis all_removed_ok : forall i, remove_ok i = true.

(** The disposition after installing [h] for [signals], and after removing it. *)
Definition installed (signals : list Z) (h : handler) (d : Z -> handler) (sig : Z) : handler :=
  if bool_decide (sig ∈ signals /\ d sig = SIG_DFL) then h else d sig.
Definition removed (signals : list Z) (h : handler) (d : Z -> handler) (sig : Z) : handler :=
  if bool_decide (sig ∈ signals /\ d sig = h) then SIG_DFL else d sig.

(** Only the dispositions differ, up to [d]. *)
Definition dispositions (d : Z -> handler) (s s' : sigs) : Prop :=
  (forall x, sg_handler s' x = d x) /\ sg_instance s' = sg_instance s /\ sg_exited s' = sg_exited s /\ sg_error s' = sg_error s.

Lemma set_handler_installed s sig h : sg_handler s sig = SIG_DFL ->
  forall x, (if x =? sig then h else sg_handler s x) = installed [sig] h (sg_handler s) x.
Proof.
  intros Hd x. unfold installed. destruct (Z.eqb_spec x sig) as [->|]; case_bool_decide as Hx; try done.
  - by destruct Hx; split; [apply list_elem_of_singleton|].
  - by destruct Hx as [->%list_elem_of_singleton _].
Qed.

Lemma set_handler_removed s sig h : sg_handler s sig = h ->
  forall x, (if x =? sig then SIG_DFL else sg_handler s x) = removed [sig] h (sg_handler s) x.
Proof.
  intros Hd x. unfold removed. destruct (Z.eqb_spec x sig) as [->|]; case_bool_decide as Hx; try done.
  - by destruct Hx; split; [apply list_elem_of_singleton|].
  - by destruct Hx as [->%list_elem_of_singleton _].
Qed.

Lemma remove_one_wp sig h s (Q : Z -> sigs -> Prop) :
  (forall s', dispositions (removed [sig] h (sg_handler s)) s s' -> Q 0 s') ->
  wp (set_one_signal_handler remove_ok sig h true) Q s.
Proof using all_removed_ok.
  intros HQ. unfold set_one_signal_handler. wp_step. unfold wp at 1, sigaction_get. rewrite all_removed_ok.
  set (s1 := set_sg_tick _ _). case_bool_decide as Hd.
  - wp_step. unfold wp at 1, sigaction_set. rewrite all_removed_ok. wp_step. apply HQ. split_and!; [|done..].
    by apply (set_handler_removed s).
  - wp_step. apply HQ. split_and!; [|done..]. intros x. cbn. unfold removed. case_bool_decide as Hx; [|done].
    by destruct Hx as [->%list_elem_of_singleton ?].
Qed.

Lemma install_one_wp sig h s (Q : Z -> sigs -> Prop) :
  (forall s', dispositions (installed [sig] h (sg_handler s)) s s' -> Q 0 s') ->
  (forall s', (exists i, sg_tick s' = S i /\ sigaction_ok i = false) ->
    dispositions (sg_handler s) s s' -> Q (-1) s') ->
  wp (set_one_signal_handler sigaction_ok sig h false) Q s.
Proof.
  intros HQ HF. unfold set_one_signal_handler. wp_step. unfold wp at 1, sigaction_get.
  set (s1 := set_sg_tick _ _). destruct (sigaction_ok (sg_tick s)) eqn:E; cbn [wp].
  2:{ wp_step. apply HF; [by exists (sg_tick s)|done]. }
  case_bool_decide as Hd.
  - wp_step. unfold wp at 1, sigaction_set. destruct (sigaction_ok (sg_tick s1)) eqn:E1; wp_step.
    + apply HQ. split_and!; [|done..]. by apply (set_handler_installed s).
    + apply HF; [by exists (sg_tick s1)|done].
  - wp_step. apply HQ. split_and!; [|done..]. intros x. cbn. unfold installed. case_bool_decide as Hx; [|done].
    by destruct Hx as [->%list_elem_of_singleton ?].
Qed.

Lemma installed_cons a l h d x : h <> SIG_DFL -> installed l h (installed [a] h d) x = installed (a :: l) h d x.
Proof. intros Hh. unfold installed. repeat case_bool_decide; set_solver. Qed.

Lemma removed_cons a l h d x : h <> SIG_DFL -> removed l h (removed [a] h d) x = removed (a :: l) h d x.
Proof. intros Hh. unfold removed. repeat case_bool_decide; set_solver. Qed.

Lemma installed_ext l h d d' x : d x = d' x -> installed l h d x = installed l h d' x.
Proof. intros E. unfold installed. by rewrite E. Qed.

Lemma removed_ext l h d d' x : d x = d' x -> removed l h d x = removed l h d' x.
Proof. intros E. unfold removed. by rewrite E. Qed.

Lemma installed_cases l h d x : installed l h d x = d x \/ (x ∈ l /\ d x = SIG_DFL /\ installed l h d x = h).
Proof. unfold installed. case_bool_decide; naive_solver. Qed.

(** Each disposition is untouched, or was the default and is now [h]; only signals of
    [l] change. *)
Definition touched (l : list Z) (h : handler) (s s' : sigs) : Prop :=
  forall x, sg_handler s' x = sg_handler s x \/ (x ∈ l /\ sg_handler s x = SIG_DFL /\ sg_handler s' x = h).

Lemma set_list_wp l h s (Q : Z -> sigs -> Prop) : h <> SIG_DFL ->
  (forall s', dispositions (installed l h (sg_handler s)) s s' -> Q 0 s') ->
  (forall s', (exists i, sg_tick s' = S i /\ sigaction_ok i = false) -> touched l h s s' -> Q (-1) s') ->
  wp (_fuse_set_signal_handlers sigaction_ok l h) Q s.
Proof.
  intros Hh. revert s. induction l as [|a l IH]; intros s HQ HF; cbn [_fuse_set_signal_handlers].
  - wp_steps. apply HQ. split_and!; [|done..]. intros x. unfold installed. rewrite bool_decide_false //. set_solver.
  - wp_step. apply install_one_wp.
    + intros s1 (D1 & I1 & X1 & E1). cbn [Z.eqb]. apply IH.
      * intros s2 (D2 & I2 & X2 & E2). apply HQ. split_and!; [|congruence..].
        intros x. rewrite D2 -(installed_cons a l h) //. by apply installed_ext.
      * intros s2 Hi T2. apply HF; [done|]. intros x. specialize (T2 x). rewrite D1 in T2.
        destruct (installed_cases [a] h (sg_handler s) x) as [E|(->%list_elem_of_singleton & Hd & E)]; rewrite E in T2.
        -- destruct T2 as [T2|(Hx & T2)]; [by left|right; split; [by right|done]].
        -- right. split; [by left|]. split; [done|]. by destruct T2 as [T2|(_ & T2 & _)].
    + intros s1 Hi (D1 & _). change (wp (mret (-1)) Q s1). wp_step. apply HF; [done|]. intros x. left. apply D1.
Qed.

Lemma remove_list_wp l h s (Q : unit -> sigs -> Prop) : h <> SIG_DFL ->
  (forall s', dispositions (removed l h (sg_handler s)) s s' -> Q tt s') -> wp (_fuse_remove_signal_handlers remove_ok l h) Q s.
Proof using all_removed_ok.
  intros Hh. revert s. induction l as [|a l IH]; intros s HQ; cbn [_fuse_remove_signal_handlers].
  - wp_steps. apply HQ. split_and!; [|done..]. intros x. unfold removed. rewrite bool_decide_false //. set_solver.
  - wp_step. apply remove_one_wp. intros s1 (D1 & I1 & X1 & E1). apply IH. intros s2 (D2 & I2 & X2 & E2).
    apply HQ. split_and!; [|congruence..]. intros x. rewrite D2 -(removed_cons a l h) //. by apply removed_ext.
Qed.

(** The dispositions after both sets of handlers are installed. *)
Definition all_installed (d : Z -> handler) : Z -> handler :=
  installed fail_sigs H_exit_backtrace (installed ignore_sigs H_do_nothing (installed teardown_sigs H_exit_handler d)).
Definition all_removed (d : Z -> handler) : Z -> handler :=
  removed fail_sigs H_exit_backtrace (removed ignore_sigs H_do_nothing (removed teardown_sigs H_exit_handler d)).

(** [h] is not a handler of the library. *)
Definition foreign (h : handler) : Prop := h <> H_exit_handler /\ h <> H_do_nothing /\ h <> H_exit_backtrace.

(** What the library means to do with a signal, by number: end the session, ignore it,
    or end the session with a backtrace. *)
Definition library_handler (sig : Z) : option handler :=
  match sig with
  | 1 | 2 | 15 => Some H_exit_handler
  | 13 => Some H_do_nothing
  | 4 | 5 | 6 | 7 | 8 | 11 => Some H_exit_backtrace
  | _ => None
  end.

(** A signal at its default that the library handles is taken over; nothing else is. *)
Definition taken_over (d : Z -> handler) (sig : Z) : handler :=
  match d sig, library_handler sig with
  | SIG_DFL, Some h => h
  | h, _ => h
  end.

Lemma library_handler_lists x :
  library_handler x = if bool_decide (x ∈ teardown_sigs) then Some H_exit_handler
    else if bool_decide (x ∈ ignore_sigs) then Some H_do_nothing
    else if bool_decide (x ∈ fail_sigs) then Some H_exit_backtrace else None.
Proof.
  unfold teardown_sigs, ignore_sigs, fail_sigs, SIGHUP, SIGINT, SIGTERM, SIGPIPE, SIGILL, SIGTRAP, SIGABRT, SIGBUS, SIGFPE, SIGSEGV.
  destruct (decide (0 <= x <= 15)) as [Hx|Hx].
  - assert (x ∈ [0; 1; 2; 3; 4; 5; 6; 7; 8; 9; 10; 11; 12; 13; 14; 15]) as Hi by (set_unfold; lia).
    repeat (apply elem_of_cons in Hi as [->|Hi]; [by vm_compute|]). by apply not_elem_of_nil in Hi.
  - repeat (rewrite bool_decide_false; [|rewrite !elem_of_cons elem_of_nil; lia]).
    destruct x as [|q|q]; [lia| |done]. do 4 (destruct q as [q|q|]; try done; try lia).
Qed.

Lemma all_installed_taken_over d x : all_installed d x = taken_over d x.
Proof.
  unfold taken_over. rewrite library_handler_lists /all_installed /installed.
  repeat case_bool_decide; destruct (d x) eqn:?; try done; set_solver.
Qed.

(** Installing the handlers that end the session, then those that end it with a
    backtrace. *)
Definition install (se : Z) : M sigs Z :=
  r ← fuse_set_signal_handlers sigaction_ok se;
  if r <? 0 then mret r else fuse_set_fail_signal_handlers sigaction_ok se.

(** Each disposition is untouched, or was the default and is now the library's. *)
Definition partly (s s' : sigs) : Prop :=
  forall x, sg_handler s' x = sg_handler s x \/ (sg_handler s x = SIG_DFL /\ library_handler x = Some (sg_handler s' x)).

Lemma partly_trans s1 s2 s3 : partly s1 s2 -> partly s2 s3 -> partly s1 s3.
Proof.
  intros H1 H2 x. specialize (H1 x). specialize (H2 x). destruct H2 as [->|[Hd E]]; [done|].
  destruct H1 as [H1|[_ H1]]; [right; by rewrite -H1|]. rewrite Hd in H1. exfalso.
  rewrite library_handler_lists in H1. repeat case_bool_decide; done.
Qed.

Lemma touched_partly l h s s' : (forall x, x ∈ l -> library_handler x = Some h) -> touched l h s s' -> partly s s'.
Proof. intros Hl T x. destruct (T x) as [->|(Hx & Hd & ->)]; [by left|right]. split; [done|by apply Hl]. Qed.

Lemma dispositions_touched l h s s' : dispositions (installed l h (sg_handler s)) s s' -> touched l h s s'.
Proof. intros (D & _) x. rewrite D. apply installed_cases. Qed.

Lemma library_handler_in : (forall x, x ∈ teardown_sigs -> library_handler x = Some H_exit_handler) /\
  (forall x, x ∈ ignore_sigs -> library_handler x = Some H_do_nothing) /\
  (forall x, x ∈ fail_sigs -> library_handler x = Some H_exit_backtrace).
Proof.
  unfold teardown_sigs, ignore_sigs, fail_sigs.
  split_and!; intros x Hx; repeat (apply elem_of_cons in Hx as [->|Hx]; [done|]); by apply elem_of_nil in Hx.
Qed.

Lemma set_handlers_wp se s : wp (install se) (fun r s1 =>
    (r = 0 /\ (forall x, sg_handler s1 x = taken_over (sg_handler s) x) /\ sg_instance s1 = Some se) \/
    (r = -1 /\ (exists i, sg_tick s1 = S i /\ sigaction_ok i = false) /\ partly s s1)) s.
Proof.
  destruct library_handler_in as (Ht & Hi & Hf).
  unfold install, fuse_set_signal_handlers, fuse_set_fail_signal_handlers. wp_step. wp_step. apply set_list_wp; [done| |].
  2:{ intros s1 Hn T. cbn. wp_steps. right. split_and!; [done..|]. by apply (touched_partly _ _ _ _ Ht T). }
  intros s1 D1. cbn [Z.ltb Z.compare]. pose proof (touched_partly _ _ _ _ Ht (dispositions_touched _ _ _ _ D1)) as P1.
  wp_step. apply set_list_wp; [done| |].
  2:{ intros s2 Hn T. cbn. wp_steps. right. split_and!; [done..|]. eapply partly_trans; [done|]. exact (touched_partly _ _ _ _ Hi T). }
  intros s2 D2. cbn [Z.ltb Z.compare]. pose proof (touched_partly _ _ _ _ Hi (dispositions_touched _ _ _ _ D2)) as P2.
  wp_steps. cbn [Z.ltb Z.compare]. wp_step. apply set_list_wp; [done| |].
  2:{ intros s3 Hn T. cbn. wp_steps. right. split_and!; [done..|].
    eapply partly_trans; [by eapply partly_trans|]. exact (touched_partly _ _ _ _ Hf T). }
  intros s3 (D3 & _). cbn [Z.ltb Z.compare]. wp_steps. destruct D1 as (D1 & _), D2 as (D2 & _).
  left. cbn in *. split_and!; [done| |done]. intros x. rewrite -all_installed_taken_over D3. unfold all_installed.
  apply installed_ext. rewrite D2. by apply installed_ext.
Qed.

Lemma remove_handlers_wp se s :
  wp (fuse_remove_signal_handlers remove_ok se) (fun _ s1 => (forall x, sg_handler s1 x = all_removed (sg_handler s) x) /\
    sg_instance s1 = (if bool_decide (sg_instance s = Some se) then None else sg_instance s)) s.
Proof using all_removed_ok.
  unfold fuse_remove_signal_handlers. wp_step. wp_step. wp_step.
  apply wp_mono with (P := fun _ s0 => sg_handler s0 = sg_handler s /\
    sg_instance s0 = if bool_decide (sg_instance s = Some se) then None else sg_instance s).
  { case_bool_decide; wp_steps; done. }
  intros [] s0 [D0 I0]. wp_step. apply remove_list_wp; [done|]. intros s1 (D1 & I1 & _). wp_step. apply remove_list_wp; [done|].
  intros s2 (D2 & I2 & _). apply remove_list_wp; [done|]. intros s3 (D3 & I3 & _). split; [|congruence].
  intros x. rewrite D3. unfold all_removed. apply removed_ext. rewrite D2. apply removed_ext. by rewrite D1 D0.
Qed.

Lemma all_removed_partly s s1 x : (forall x, foreign (sg_handler s x)) -> partly s s1 ->
  all_removed (sg_handler s1) x = sg_handler s x.
Proof.
  intros Hf P. destruct (Hf x) as (H1 & H2 & H3). unfold all_removed, removed. destruct (P x) as [->|[Hd E]].
  - repeat case_bool_decide; naive_solver.
  - rewrite Hd. rewrite library_handler_lists in E. repeat case_bool_decide; naive_solver.
Qed.

Lemma taken_over_partly s s1 : (forall x, sg_handler s1 x = taken_over (sg_handler s) x) -> partly s s1.
Proof.
  intros D x. rewrite D /taken_over. destruct (sg_handler s x) eqn:E; try by left.
  destruct (library_handler x) eqn:El; [right; done|by left].
Qed.

(** C39: Installing the handlers of a session returns 0, having taken over exactly the
    signals the program left at their default among SIGHUP, SIGINT, SIGTERM (to end the
    session), SIGPIPE (ignored) and SIGILL, SIGTRAP, SIGABRT, SIGBUS, SIGFPE, SIGSEGV (to
    end it with a backtrace), and no other; or -1 when its last [sigaction] failed, having
    taken over some of them and nothing else.  After success a signal that arrives makes
    the session exit with the number of the signal as its error.  In both cases removing
    the handlers, when no [sigaction] fails, restores every disposition of the process. *)
Theorem signals_restored se s : (forall x, foreign (sg_handler s x)) ->
  exists r s1 s2, install se s = Ok (r, s1) /\
    ((r = 0 /\ (forall x, sg_handler s1 x = taken_over (sg_handler s) x) /\ sg_instance s1 = Some se /\
       (forall sig, 0 <= sig -> exists s1', exit_handler sig s1 = Ok (tt, s1') /\ sg_exited s1' se = true /\ sg_error s1' se = sig)) \/
     (r = -1 /\ (exists i, sg_tick s1 = S i /\ sigaction_ok i = false) /\
       forall x, sg_handler s1 x = sg_handler s x \/ sg_handler s1 x = taken_over (sg_handler s) x)) /\
    fuse_remove_signal_handlers remove_ok se s1 = Ok (tt, s2) /\
    (forall x, sg_handler s2 x = sg_handler s x) /\ sg_instance s2 <> Some se.
Proof using all_removed_ok.
  intros Hf. destruct (wp_Ok _ _ _ (set_handlers_wp se s)) as (r & s1 & Hr & Hpost).
  destruct (wp_Ok _ _ _ (remove_handlers_wp se s1)) as ([] & s2 & Hr2 & D2 & I2). exists r, s1, s2.
  assert (P : partly s s1) by (destruct Hpost as [(_ & D & _)|(_ & _ & P)]; [by apply taken_over_partly|done]).
  split_and!; [done| |done| |].
  - destruct Hpost as [(-> & D & I1)|(-> & Hn & _)]; [left|right].
    + split_and!; [done..|]. intros sig Hsig. unfold exit_handler, mbind, M_bind, get, modify. rewrite I1.
      destruct (Z.ltb_spec sig 0); [lia|]. eexists. split; [reflexivity|]. cbn. by rewrite Z.eqb_refl.
    + split_and!; [done..|]. intros x. destruct (P x) as [E|[Hd E]]; [by left|right]. by rewrite /taken_over Hd E.
  - intros x. rewrite D2. by apply all_removed_partly.
  - rewrite I2. by case_bool_decide.
Qed.
End correct.

(** ** Examples *)

(** A process that ignores SIGPIPE and handles SIGHUP itself. *)
Definition process0 : sigs :=
  mkSigs (fun x => if x =? SIGPIPE then SIG_IGN else if x =? SIGHUP then H_program 1 else SIG_DFL) None (fun _ => false) (fun _ => 0) 0.

Lemma process0_foreign x : foreign (sg_handler process0 x).
Proof. unfold foreign. cbn. by repeat case_match. Qed.

Lemma signals_restored_witness : exists r s1 s2, install (fun _ => true) 7 process0 = Ok (r, s1) /\
    ((r = 0 /\ (forall x, sg_handler s1 x = taken_over (sg_handler process0) x) /\ sg_instance s1 = Some 7 /\
       (forall sig, 0 <= sig -> exists s1', exit_handler sig s1 = Ok (tt, s1') /\ sg_exited s1' 7 = true /\ sg_error s1' 7 = sig)) \/
     (r = -1 /\ (exists i, sg_tick s1 = S i /\ (fun _ : nat => true) i = false) /\
       forall x, sg_handler s1 x = sg_handler process0 x \/ sg_handler s1 x = taken_over (sg_handler process0) x)) /\
    fuse_remove_signal_handlers (fun _ => true) 7 s1 = Ok (tt, s2) /\
    (forall x, sg_handler s2 x = sg_handler process0 x) /\ sg_instance s2 <> Some 7.
Proof. apply (signals_restored (fun _ => true) (fun _ => true) (fun _ => eq_refl) 7 process0 process0_foreign). Defined.

(** When installing fails half-way, the handlers installed so far stay, and without a
    session they swallow their signal. *)
Example failed_installation_swallows :
  let ok (i : nat) := negb (Nat.eqb i 2) in
  let s := mkSigs (fun _ => SIG_DFL) None (fun _ => false) (fun _ => 0) 0 in
  exists s1, fuse_set_signal_handlers ok 7 s = Ok (-1, s1) /\ sg_handler s1 SIGHUP = H_exit_handler /\
    exit_handler SIGHUP s1 = Ok (tt, s1) /\ sg_exited s1 7 = false.
Proof. eexists. split; [reflexivity|]. by vm_compute. Qed.
