(* ===== verification/Receive.v ===== *)
(** * Receiving messages from the device

    [src/lib/fuse_lowlevel.c]: the buffers of messages ([buf_alloc],
    [fuse_buf_free]), the pipe each thread keeps for splicing, and
    [fuse_session_receive_buf]; [src/lib/util.c]: [libfuse_strtol].  Buffers are
    addresses in the memory of [Buffer]; allocations are kept, so that every access
    outside them and every [free] of something else is an abort.  Other threads may
    end the session or raise its buffer size during every call on the device. *)
From S2P Require Import Prelude Buffer.

(** ** Numbers *)

Definition isspace (c : ascii) : bool :=
  let n := uchar c in (n =? 32) || ((9 <=? n) && (n <=? 13)).
Definition isdigit (c : ascii) : bool := (48 <=? uchar c) && (uchar c <=? 57).

Fixpoint skip_space (s : cstring) : cstring :=
  match s with c :: s' => if isspace c then skip_space s' else s | [] => [] end.

(** The value of the digits at the front, after [acc], and what follows them. *)
Fixpoint digits (s : cstring) (acc : Z) : Z * cstring :=
  match s with
  | c :: s' => if isdigit c then digits s' (acc * 10 + (uchar c - 48)) else (acc, s)
  | [] => (acc, [])
  end.

Definition LONG_MAX : Z := 2 ^ 63 - 1.

(** [strtol(str, &endptr, 10)]: the value, [endptr] ([None]: [str] itself), and
    whether [errno] is [ERANGE]. *)
Definition strtol (str : cstring) : Z * option cstring * bool :=
  let s := skip_space str in
  let '(neg, s) :=
    if ceq (char_at s 0) "-" then (true, tail s) else if ceq (char_at s 0) "+" then (false, tail s) else (false, s) in
  if negb (isdigit (char_at s 0)) then (0, None, false)
  else
    let '(v, rest) := digits s 0 in
    let v := if neg then - v else v in
    if LONG_MAX <? v then (LONG_MAX, Some rest, true)
    else if v <? - LONG_MAX - 1 then (- LONG_MAX - 1, Some rest, true)
    else (v, Some rest, false).

(** The result and the number. *)
Definition libfuse_strtol (str : option cstring) : Z + Z :=
  match str with
  | None => inl (- EINVAL)
  | Some str =>
      let '(val, endptr, erange) := strtol str in
      if erange : bool then inl (- ERANGE)
      else match endptr with
           | None => inl (- EINVAL)
           | Some rest => if negb (ceq (char_at rest 0) NUL) then inl (- EINVAL) else inr val
           end
  end.

(** ** State *)

(** What the system offers besides the calls of [Buffer]. *)
Class DeviceCalls (K : Type) := {
  sys_pipe : K -> sysret (Z * Z) * K;               (** [pipe2(fds, O_CLOEXEC | O_NONBLOCK)] *)
  sys_close : Z -> K -> K;
  sys_setpipe : Z -> Z -> K -> sysret Z * K;        (** [fcntl(fd, F_SETPIPE_SZ, size)] *)
  sys_read_file : cstring -> Z -> K -> sysret (list Z) * K;  (** [open], one [read], [close] *)
}.

(** [struct fuse_ll_pipe] *)
Record fuse_ll_pipe := mkLlp { lp_size : Z; lp_can_grow : bool; lp_rd : Z; lp_wr : Z }.

(** The fields of [struct fuse_session] that receiving uses. *)
Record rse := mkRse {
  rs_exited : bool;
  rs_error : Z;
  rs_bufsize : Z;
  rs_proto_minor : Z;
  rs_want_ext : Z;
  rs_got_init : bool;
  rs_buf_reallocable : bool;
}.

(** A thread that receives: the session, the memory and the kernel, the live
    allocations (size by address) and the next free address, the thread's pipe and
    its buffer. *)
Record recv (K : Type) := mkRecv {
  rc_se : rse;
  rc_world : world K;
  rc_blocks : gmap Z Z;
  rc_brk : Z;
  rc_pipe : option fuse_ll_pipe;
  rc_buf : fuse_buf;
  rc_tick : nat;
}.
Arguments mkRecv {K} _ _ _ _ _ _ _.
Arguments rc_se {K} _.
Arguments rc_world {K} _.
Arguments rc_blocks {K} _.
Arguments rc_brk {K} _.
Arguments rc_pipe {K} _.
Arguments rc_buf {K} _.
Arguments rc_tick {K} _.

Definition set_rs_exited (s : rse) v :=
  mkRse v (rs_error s) (rs_bufsize s) (rs_proto_minor s) (rs_want_ext s) (rs_got_init s) (rs_buf_reallocable s).
Definition set_rs_error (s : rse) v :=
  mkRse (rs_exited s) v (rs_bufsize s) (rs_proto_minor s) (rs_want_ext s) (rs_got_init s) (rs_buf_reallocable s).
Definition set_rs_buf_reallocable (s : rse) v :=
  mkRse (rs_exited s) (rs_error s) (rs_bufsize s) (rs_proto_minor s) (rs_want_ext s) (rs_got_init s) v.

Definition set_fb_mem (b : fuse_buf) v := mkFbuf (fb_size b) (fb_flags b) v (fb_fd b) (fb_pos b) (fb_mem_size b).
Definition set_fb_mem_size (b : fuse_buf) v := mkFbuf (fb_size b) (fb_flags b) (fb_mem b) (fb_fd b) (fb_pos b) v.
Definition set_fb_size (b : fuse_buf) v := mkFbuf v (fb_flags b) (fb_mem b) (fb_fd b) (fb_pos b) (fb_mem_size b).
Definition set_fb_flags (b : fuse_buf) v := mkFbuf (fb_size b) v (fb_mem b) (fb_fd b) (fb_pos b) (fb_mem_size b).
Definition set_fb_fd (b : fuse_buf) v := mkFbuf (fb_size b) (fb_flags b) (fb_mem b) v (fb_pos b) (fb_mem_size b).

Section set.
Context {K : Type}.
Definition set_rc_se (s : recv K) v : recv K := mkRecv v (rc_world s) (rc_blocks s) (rc_brk s) (rc_pipe s) (rc_buf s) (rc_tick s).
Definition set_rc_world (s : recv K) (v : world K) := mkRecv (rc_se s) v (rc_blocks s) (rc_brk s) (rc_pipe s) (rc_buf s) (rc_tick s).
Definition set_rc_heap (s : recv K) b n : recv K := mkRecv (rc_se s) (rc_world s) b n (rc_pipe s) (rc_buf s) (rc_tick s).
Definition set_rc_pipe (s : recv K) v : recv K := mkRecv (rc_se s) (rc_world s) (rc_blocks s) (rc_brk s) v (rc_buf s) (rc_tick s).
Definition set_rc_buf (s : recv K) v : recv K := mkRecv (rc_se s) (rc_world s) (rc_blocks s) (rc_brk s) (rc_pipe s) v (rc_tick s).
Definition set_rc_tick (s : recv K) v : recv K := mkRecv (rc_se s) (rc_world s) (rc_blocks s) (rc_brk s) (rc_pipe s) (rc_buf s) v.
End set.

Definition FUSE_CAP_SPLICE_READ : Z := 2 ^ 9.
Definition in_header_bytes : Z := 40.
Definition write_header_sz : Z := 80.
Definition F_SETPIPE_MAX : cstring := lit "/proc/sys/fs/pipe-max-size".

Section receive.
Context {K : Type} `{Syscalls K} `{DeviceCalls K}.
Abbreviation MR := (M (recv K)).
(** [getpagesize()]; the descriptor of the device, a channel's or the session's;
    a free stretch of the stack for [fuse_buf_copy]. *)
Context (pagesize dev stack : Z).
(** How the [i]-th allocation ends, and what other threads and signal handlers do to
    the session during the [i]-th call. *)
Context (alloc_ok : nat -> bool) (others : nat -> rse -> rse).

Definition on_world {A} (m : M (world K) A) : MR A := fun s =>
  match m (rc_world s) with
  | Ok (a, w) => Ok (a, set_rc_world s w)
  | Abort => Abort
  | Diverge => Diverge
  end.

Definition tick : MR nat := fun s => Ok (rc_tick s, set_rc_tick s (S (rc_tick s))).
Definition interference : MR unit := i ← tick; modify (fun s => set_rc_se s (others i (rc_se s))).
Definition buf_set (f : fuse_buf -> fuse_buf) : MR unit := modify (fun s => set_rc_buf s (f (rc_buf s))).

(** *** Buffers *)

(** [ROUND_UP] of [src/lib/util.h], on [size_t]. *)
Definition ROUND_UP (val round_to : Z) : Z := Z.land (u64 (val + (round_to - 1))) (u64 (Z.lnot (round_to - 1))).

(** A new block of [size] bytes, or [0]. *)
Definition new_block (size : Z) : MR Z :=
  i ← tick;
  if negb (alloc_ok i) then mret 0
  else
    s ← get;
    put (set_rc_heap s (<[rc_brk s := size]> (rc_blocks s)) (rc_brk s + size + pagesize));;
    mret (rc_brk s).

Definition free_block (a : Z) : MR unit :=
  s ← get;
  assert (bool_decide (is_Some (rc_blocks s !! a)));;
  put (set_rc_heap s (delete a (rc_blocks s)) (rc_brk s)).

Definition buf_alloc (size : Z) (internal : bool) : MR Z :=
  if internal then
    let new_size := ROUND_UP (u64 (size + write_header_sz)) pagesize in
    buf ← new_block new_size;
    if buf =? 0 then mret 0 else mret (buf + (pagesize - write_header_sz))
  else new_block size.

Definition fuse_buf_free : MR unit :=
  s ← get;
  if fb_mem (rc_buf s) =? 0 then mret tt
  else
    let ptr := fb_mem (rc_buf s) - pagesize + write_header_sz in
    free_block ptr;;
    buf_set (fun b => set_fb_mem b 0).

(** The bytes [a] to [a + len] lie in one block. *)
Definition writable (blocks : gmap Z Z) (a len : Z) : bool :=
  existsb (fun p => (p.1 <=? a) && (a + len <=? p.1 + p.2)) (map_to_list blocks).

(** *** Pipes *)

Definition fuse_ll_pipe_free (llp : fuse_ll_pipe) : MR unit :=
  on_world (sys (fun k => (tt, sys_close (lp_rd llp) k)));;
  on_world (sys (fun k => (tt, sys_close (lp_wr llp) k))).

Definition fuse_ll_get_pipe : MR (option fuse_ll_pipe) :=
  s ← get;
  match rc_pipe s with
  | Some llp => mret (Some llp)
  | None =>
      i ← tick;
      if negb (alloc_ok i) then mret None
      else
        res ← on_world (sys sys_pipe);
        match res with
        | SysErr _ => mret None
        | SysRet (rd, wr) =>
            let llp := mkLlp (pagesize * 16) true rd wr in
            modify (fun s => set_rc_pipe s (Some llp));;
            mret (Some llp)
        end
  end.

Definition fuse_ll_clear_pipe : MR unit :=
  s ← get;
  match rc_pipe s with
  | Some llp => modify (fun s => set_rc_pipe s None);; fuse_ll_pipe_free llp
  | None => mret tt
  end.

Definition grow_pipe_to_max (pipefd : Z) : MR Z :=
  res ← on_world (sys (sys_read_file F_SETPIPE_MAX 31));
  match res with
  | SysErr errno => mret (- errno)
  | SysRet bytes =>
      match libfuse_strtol (Some (c_str (of_uchar <$> bytes))) with
      | inl res => mret res
      | inr max =>
          res ← on_world (sys (sys_setpipe pipefd max));
          match res with
          | SysErr errno => mret (- errno)
          | SysRet _ => mret (swrap 32 max)
          end
      end
  end.

(** *** Receiving *)

(** [fuse_session_exit] *)
Definition fuse_session_exit : MR unit := modify (fun s => set_rc_se s (set_rs_exited (rc_se s) true)).

(** [read(dev, buf->mem, bufsize)]: the bytes that arrive must fit. *)
Definition device_read (bufsize : Z) : MR (sysret Z) :=
  s ← get;
  res ← on_world (sys_into (fb_mem (rc_buf s)) (sys_read dev bufsize));
  match res with
  | SysErr _ => mret tt
  | SysRet n => assert (writable (rc_blocks s) (fb_mem (rc_buf s)) n)
  end;;
  interference;;
  mret res.

(** [splice(dev, NULL, llp->pipe[1], NULL, bufsize, 0)] *)
Definition device_splice (wr bufsize : Z) : MR (sysret Z) :=
  res ← on_world (sys (sys_splice dev None wr None bufsize 0));
  interference;;
  mret res.

(** From the label [restart]. *)
Fixpoint receive_restart (fuel : nat) (bufsize : Z) (internal : bool) : MR Z :=
  match fuel with
  | O => diverge
  | S fuel =>
      res ← device_read bufsize;
      s ← get;
      if rs_exited (rc_se s) then mret 0
      else match res with
      | SysErr err =>
          if (err =? EINVAL) && internal && (bufsize <? rs_bufsize (rc_se s)) then
            let bufsize := rs_bufsize (rc_se s) in
            newbuf ← buf_alloc bufsize internal;
            if newbuf =? 0 then mret (- ENOMEM)
            else
              fuse_buf_free;;
              buf_set (fun b => set_fb_mem_size (set_fb_mem b newbuf) bufsize);;
              receive_restart fuel bufsize internal
          else if err =? ENOENT then receive_restart fuel bufsize internal
          else if err =? ENODEV then fuse_session_exit;; mret 0
          else mret (- err)
      | SysRet res =>
          if res <? in_header_bytes then mret (- EIO)
          else buf_set (fun b => set_fb_size b res);; mret (swrap 32 res)
      end
  end.

(** From the label [fallback]. *)
Definition receive_fallback (fuel : nat) (internal : bool) : MR Z :=
  s ← get;
  if fb_mem (rc_buf s) =? 0 then
    let bufsize := rs_bufsize (rc_se s) in
    mem ← buf_alloc bufsize internal;
    buf_set (fun b => set_fb_mem b mem);;
    if mem =? 0 then mret (- ENOMEM)
    else
      (if internal then buf_set (fun b => set_fb_mem_size b bufsize) else mret tt);;
      receive_restart fuel bufsize internal
  else receive_restart fuel (if internal then fb_mem_size (rc_buf s) else rs_bufsize (rc_se s)) internal.

(** Whether the pipe holds [bufsize] bytes, after trying to make it do so. *)
Definition pipe_fits (llp : fuse_ll_pipe) (bufsize : Z) : MR bool :=
  if lp_size llp <? bufsize then
    if lp_can_grow llp then
      res ← on_world (sys (sys_setpipe (lp_rd llp) bufsize));
      match res with
      | SysErr _ =>
          modify (fun s => set_rc_pipe s (Some (mkLlp (lp_size llp) false (lp_rd llp) (lp_wr llp))));;
          res ← grow_pipe_to_max (lp_rd llp);
          (if 0 <? res
           then modify (fun s => set_rc_pipe s (Some (mkLlp res false (lp_rd llp) (lp_wr llp))))
           else mret tt);;
          mret false
      | SysRet res =>
          modify (fun s => set_rc_pipe s (Some (mkLlp res true (lp_rd llp) (lp_wr llp))));;
          mret (negb (res <? bufsize))
      end
    else mret false
  else mret true.

(** The [res] bytes of a small request are copied from the pipe [tmpbuf] to the
    buffer. *)
Definition receive_copy (tmpbuf : fuse_buf) (bufsize : Z) : MR Z :=
  buf_set (fun b => set_fb_flags (set_fb_size b bufsize) 0);;
  s ← get;
  assert (writable (rc_blocks s) (fb_mem (rc_buf s)) (Z.min (fb_size tmpbuf) bufsize));;
  r ← on_world (fuse_buf_copy stack false (mkBufvec 1 0 0 [rc_buf s]) (mkBufvec 1 0 0 [tmpbuf]) 0);
  let '(res, _, _) := r in
  if res <? 0 then fuse_ll_clear_pipe;; mret (swrap 32 res)
  else if res <? fb_size tmpbuf then fuse_ll_clear_pipe;; mret (- EIO)
  else
    assert (res =? fb_size tmpbuf);;
    buf_set (fun b => set_fb_size b (fb_size tmpbuf));;
    mret (swrap 32 res).

(** The end of the splice path: [res] bytes are in the pipe. *)
Definition receive_spliced (llp : fuse_ll_pipe) (bufsize res : Z) (internal : bool) : MR Z :=
  let tmpbuf := mkFbuf res FUSE_BUF_IS_FD 0 (lp_rd llp) 0 0 in
  if res <? write_header_sz + pagesize then
    s ← get;
    if fb_mem (rc_buf s) =? 0 then
      mem ← buf_alloc bufsize internal;
      buf_set (fun b => set_fb_mem b mem);;
      if mem =? 0 then mret (- ENOMEM)
      else buf_set (fun b => set_fb_mem_size b bufsize);; receive_copy tmpbuf bufsize
    else receive_copy tmpbuf bufsize
  else
    buf_set (fun b => set_fb_flags (set_fb_fd b (fb_fd tmpbuf)) (fb_flags tmpbuf));;
    buf_set (fun b => set_fb_size b (fb_size tmpbuf));;
    mret (swrap 32 res).

(** From the label [pipe_retry]. *)
Fixpoint _fuse_session_receive_buf (fuel : nat) (internal : bool) : MR Z :=
  s ← get;
  let bufsize := rs_bufsize (rc_se s) in
  if (rs_proto_minor (rc_se s) <? 14) || negb (has_flag (rs_want_ext (rc_se s)) FUSE_CAP_SPLICE_READ)
  then receive_fallback fuel internal
  else
    llp ← fuse_ll_get_pipe;
    match llp with
    | None => receive_fallback fuel internal
    | Some llp =>
        fits ← pipe_fits llp bufsize;
        if negb fits then receive_fallback fuel internal
        else
          res ← device_splice (lp_wr llp) bufsize;
          s ← get;
          if rs_exited (rc_se s) then mret 0
          else match res with
          | SysErr err =>
              if err =? ENODEV then fuse_session_exit;; mret 0
              else if (err =? EINVAL) && (bufsize <? rs_bufsize (rc_se s)) then
                fuse_ll_clear_pipe;;
                match fuel with O => diverge | S fuel => _fuse_session_receive_buf fuel internal end
              else mret (- err)
          | SysRet res =>
              if res <? in_header_bytes then mret (- EIO)
              else receive_spliced llp bufsize res internal
          end
    end.

Definition fuse_session_receive_buf (fuel : nat) : MR Z := _fuse_session_receive_buf fuel false.

Definition fuse_session_receive_buf_internal (fuel : nat) : MR Z :=
  s ← get;
  (if negb (rs_got_init (rc_se s)) && negb (rs_buf_reallocable (rc_se s))
   then modify (fun s => set_rc_se s (set_rs_buf_reallocable (rc_se s) true))
   else mret tt);;
  _fuse_session_receive_buf fuel true.

(** *** The single-threaded loop *)

Definition fuse_session_reset : MR unit :=
  modify (fun s => set_rc_se s (set_rs_error (set_rs_exited (rc_se s) false) 0)).

(** The loop of [fuse_session_loop] and the last value of [res]; [process] is
    [fuse_session_process_buf]. *)
Fixpoint session_loop (fuel : nat) (process : MR unit) (res : Z) : MR Z :=
  match fuel with
  | O => diverge
  | S fuel' =>
      s ← get;
      if rs_exited (rc_se s) then mret res
      else
        res ← fuse_session_receive_buf_internal fuel;
        if res =? - EINTR then session_loop fuel' process res
        else if res <=? 0 then mret res
        else process;; session_loop fuel' process res
  end.

Definition fuse_session_loop (fuel : nat) (process : MR unit) : MR Z :=
  buf_set (fun _ => mkFbuf 0 0 0 0 0 0);;
  res ← session_loop fuel process 0;
  fuse_buf_free;;
  let res := if 0 <? res then 0 else res in
  s ← get;
  let res := if negb (rs_error (rc_se s) =? 0) then rs_error (rc_se s) else res in
  fuse_session_reset;;
  mret res.
End receive.
