(* ===== verification/ReceiveSafe.v ===== *)
(** * Receiving messages is safe

    The device as an interface ([Device], [DeviceLaws]); under every behaviour of the
    device, of the other threads and of the allocator, and for buffer sizes that
    [buf_alloc] has room for, [fuse_session_receive_buf] of [Receive] writes only into
    its buffer, keeps one allocation, and a message it reports is the next one of the
    device, where the buffer says; the single-threaded loop ends and frees everything.
    For which sizes there is room, and where that fails. *)
From S2P Require Import Prelude Buffer Init Receive.

(** ** What the device promises *)

(** The messages it has handed over, and the calls it will still answer before it
    reports that the file system is unmounted; the pipes (read end, write end). *)
Class Device (K : Type) := {
  delivered : K -> list (list Z);
  patience : K -> nat;
  is_pipe : K -> Z -> Z -> Prop;
}.

(** [k'] after a call that has nothing to do with the device or the data of pipes. *)
Definition quiet {K} `{Device K} (k k' : K) : Prop :=
  delivered k' = delivered k /\ (patience k' <= patience k)%nat.

Class DeviceLaws (K : Type) (dev : Z) `{Streams K} `{DeviceCalls K} `{Device K} : Prop := {
  pipe_not_device k rd wr : is_pipe k rd wr -> rd <> dev;
  (** A successful [read] or [splice] takes one message; [ENODEV] is the last answer. *)
  read_device len k : let '(r, k') := sys_read dev len k in
    delivered k' = delivered k ++ match r with SysErr _ => [] | SysRet bs => [bs] end /\
    (patience k' <= patience k)%nat /\ (r <> SysErr ENODEV -> (patience k' < patience k)%nat) /\
    forall rd wr, is_pipe k rd wr -> is_pipe k' rd wr /\ input k' rd = input k rd;
  splice_device rd wr len flags k : is_pipe k rd wr ->
    let '(r, k') := sys_splice dev None wr None len flags k in
    is_pipe k' rd wr /\ (patience k' <= patience k)%nat /\ (r <> SysErr ENODEV -> (patience k' < patience k)%nat) /\
    match r with
    | SysErr _ => delivered k' = delivered k /\ input k' rd = input k rd
    | SysRet n => exists m, Z.of_nat (length m) = n /\ delivered k' = delivered k ++ [m] /\ input k' rd = input k rd ++ m
    end;
  (** The other calls leave the device alone. *)
  read_pipe rd wr len k : is_pipe k rd wr -> let '(r, k') := sys_read rd len k in
    quiet k k' /\ is_pipe k' rd wr /\
    match r with SysErr e => e < 2 ^ 31 /\ input k' rd = input k rd | SysRet bs => input k rd = bs ++ input k' rd end;
  pipe_new k : let '(r, k') := sys_pipe k in quiet k k' /\
    match r with SysErr _ => True | SysRet (rd, wr) => is_pipe k' rd wr /\ input k' rd = [] end;
  close_quiet fd k : quiet k (sys_close fd k);
  setpipe_quiet fd size k rd wr : is_pipe k rd wr -> let k' := (sys_setpipe fd size k).2 in
    quiet k k' /\ is_pipe k' rd wr /\ input k' rd = input k rd;
  read_file_quiet path len k rd wr : is_pipe k rd wr -> let k' := (sys_read_file path len k).2 in
    quiet k k' /\ is_pipe k' rd wr /\ input k' rd = input k rd;
}.

(** ** Sizes of buffers *)

Lemma ROUND_UP_spec k v : 0 <= k < 63 -> 0 <= v -> v + 2 ^ k <= 2 ^ 64 ->
  ROUND_UP v (2 ^ k) = (v + (2 ^ k - 1)) / 2 ^ k * 2 ^ k.
Proof.
  intros Hk Hv Hs. assert (0 < 2 ^ k) by (apply Z.pow_pos_nonneg; lia). unfold ROUND_UP. rewrite (wrap_small 64 (v + _)); [lia|].
  apply Z.bits_inj'. intros i Hi. rewrite Z.land_spec. rewrite -Z.shiftr_div_pow2; [lia|]. rewrite -Z.shiftl_mul_pow2; [lia|].
  set (x := v + (2 ^ k - 1)). assert (0 <= x < 2 ^ 64) as Hx by lia.
  assert (Z.testbit (wrap 64 (Z.lnot (2 ^ k - 1))) i = (i <? 64) && negb (i <? k)) as ->.
  { unfold wrap. destruct (Z.ltb_spec i 64); [|rewrite Z.mod_pow2_bits_high //; lia].
    rewrite Z.mod_pow2_bits_low; [lia|]. rewrite Z.lnot_spec //.
    change (2 ^ k - 1) with (Z.pred (2 ^ k)). rewrite -Z.ones_equiv Z.testbit_ones_nonneg; [lia|lia|done]. }
  destruct (Z.ltb_spec i k).
  { rewrite Z.shiftl_spec_low; [lia|]. by rewrite andb_false_r andb_false_r. }
  rewrite Z.shiftl_spec // Z.shiftr_spec; [lia|]. replace (i - k + k) with i by lia. rewrite andb_true_r.
  destruct (Z.ltb_spec i 64); [by rewrite andb_true_r|]. rewrite andb_false_r. symmetry.
  rewrite (Z.bits_above_log2 x i) //; [lia|]. destruct (decide (x = 0)) as [->|]; [cbn; lia|].
  apply Z.lt_le_trans with 64; [|lia]. apply Z.log2_lt_pow2; lia.
Qed.

(** ** Receiving is safe *)

Section safe.
Context {K : Type} `{SyscallLaws K} `{!Streams K} `{!DeviceCalls K} `{!Device K}.
Context (page_bits dev stack : Z) `{!DeviceLaws K dev}.
Abbreviation pagesize := (2 ^ page_bits).
Abbreviation MR := (M (recv K)).
Context (alloc_ok : nat -> bool) (others : nat -> rse -> rse).

(** The size of a buffer is close to a multiple of the page size: at most the header of
    a WRITE above it, or less than that below. *)
Definition near_pages (size : Z) : Prop :=
  size mod pagesize <= write_header_sz \/ pagesize - write_header_sz < size mod pagesize.

(** The sizes of buffers the theorems are about: those of a new session and of every
    [max_write] that is a multiple of the page size are of this kind. *)
Definition good_size (size : Z) : Prop := write_header_sz + pagesize <= size < 2 ^ 31 /\ near_pages size.

Hypothesis Hpage : 12 <= page_bits <= 20.
Hypothesis Hothers : forall i se, good_size (rs_bufsize se) -> good_size (rs_bufsize (others i se)).

Lemma pagesize_bounds : 4096 <= pagesize <= 2 ^ 20.
Proof.
  split; [change 4096 with (2 ^ 12)|]; apply Z.pow_le_mono_r; lia.
Qed.

(** Multiples of the page size are good. *)
Lemma page_multiple_good n : 2 <= n -> n * pagesize < 2 ^ 31 -> good_size (n * pagesize).
Proof using Hpage.
  intros Hn Hlt. pose proof pagesize_bounds. unfold good_size, near_pages, write_header_sz. split; [nia|]. left.
  rewrite Z_mod_mult. lia.
Qed.

(** The block of a buffer for [size] bytes, and what lies in it behind the start of the
    buffer. *)
Abbreviation block size := (ROUND_UP (u64 (size + write_header_sz)) pagesize).

Lemma block_spec size : 0 <= size < 2 ^ 32 ->
  block size = (size + write_header_sz + (pagesize - 1)) / pagesize * pagesize.
Proof using Hpage.
  intros Hs. pose proof pagesize_bounds. unfold write_header_sz. rewrite wrap_small; [lia|]. rewrite ROUND_UP_spec; lia.
Qed.

Lemma block_room size : 0 <= size < 2 ^ 32 -> size <= block size - (pagesize - write_header_sz) <-> near_pages size.
Proof using Hpage.
  intros Hs. pose proof pagesize_bounds. rewrite block_spec //. unfold near_pages, write_header_sz.
  set (p := 2 ^ page_bits) in *. pose proof (Z.div_mod size p ltac:(lia)) as Hdm.
  pose proof (Z.mod_pos_bound size p ltac:(lia)) as Hm. set (q := size / p) in *. set (r := size mod p) in *.
  replace (size + 80 + (p - 1)) with ((q + 1) * p + (r + 79)) by lia. rewrite Z.div_add_l; [lia|].
  destruct (decide (r + 79 < p)).
  - rewrite (Z.div_small (r + 79)); [lia|]. lia.
  - replace ((r + 79) / p) with 1; [lia|]. apply (Z.div_unique _ _ _ (r + 79 - p)); lia.
Qed.

Lemma good_room size : good_size size -> size <= block size - (pagesize - write_header_sz).
Proof using Hpage. intros [Hb Hn]. unfold write_header_sz in Hb. pose proof pagesize_bounds. apply block_room; [lia|done]. Qed.

Abbreviation os s := (w_os (rc_world s)).
Abbreviation mem s := (w_mem (rc_world s)).

(** The only block is that of the buffer. *)
Record recv_inv (s : recv K) : Prop := {
  ri_none : fb_mem (rc_buf s) = 0 -> rc_blocks s = ∅;
  ri_some : fb_mem (rc_buf s) <> 0 -> good_size (fb_mem_size (rc_buf s)) /\ exists raw size,
    rc_blocks s = {[raw := size]} /\ fb_mem (rc_buf s) = raw + (pagesize - write_header_sz) /\ 0 < raw < rc_brk s /\
    fb_mem_size (rc_buf s) <= size - (pagesize - write_header_sz);
  ri_brk : 0 < rc_brk s;
  ri_se : good_size (rs_bufsize (rc_se s));
  ri_pipe : forall llp, rc_pipe s = Some llp -> is_pipe (os s) (lp_rd llp) (lp_wr llp);
}.

(** The message is where the flags of the buffer say. *)
Definition stored (s : recv K) (m : list Z) : Prop :=
  if has_flag (fb_flags (rc_buf s)) FUSE_BUF_IS_FD then
    exists llp, rc_pipe s = Some llp /\ fb_fd (rc_buf s) = lp_rd llp /\ input (os s) (lp_rd llp) = m
  else mem_read (mem s) (fb_mem (rc_buf s)) (Z.of_nat (length m)) = m.

(** The buffer does not point to a pipe and the pipe is empty. *)
Definition clean (s : recv K) : Prop :=
  has_flag (fb_flags (rc_buf s)) FUSE_BUF_IS_FD = false /\
  forall llp, rc_pipe s = Some llp -> input (os s) (lp_rd llp) = [].

(** After a call that found the messages [D] handed over and the patience [P];
    [c]: the state was clean. *)
Definition receive_post (D : list (list Z)) (P : nat) (c : Prop) (r : Z) (s' : recv K) : Prop :=
  recv_inv s' /\ (patience (os s') <= P)%nat /\ (r <> 0 -> r <> - ENOMEM -> (patience (os s') < P)%nat) /\
  (c -> 0 < r -> exists m, delivered (os s') = D ++ [m] /\ Z.of_nat (length m) = r /\ fb_size (rc_buf s') = r /\ stored s' m).

Lemma receive_post_mono D P Q (c c' : Prop) r s : (P <= Q)%nat -> (c' -> c) -> receive_post D P c r s -> receive_post D Q c' r s.
Proof. intros HPQ Hc (? & ? & ? & ?). split_and!; [done|lia|intros; enough (patience (os s) < P)%nat by lia; auto|auto]. Qed.

Lemma wp_on_world {A} (m : M (world K) A) (Q : A -> recv K -> Prop) s :
  wp m (fun a w => Q a (set_rc_world s w)) (rc_world s) -> wp (on_world m) Q s.
Proof. unfold wp, on_world. by destruct (m (rc_world s)) as [[a w]| |]. Qed.

Lemma wp_on_sys {A} (call : K -> A * K) (Q : A -> recv K -> Prop) s :
  (let '(a, k) := call (os s) in Q a (set_rc_world s (mkWorld (mem s) k))) -> wp (on_world (sys call)) Q s.
Proof. intros HQ. apply wp_on_world. unfold wp, sys. by destruct (call (os s)) as [a k]. Qed.

Lemma wp_tick (Q : nat -> recv K -> Prop) s : Q (rc_tick s) (set_rc_tick s (S (rc_tick s))) -> wp tick Q s.
Proof. done. Qed.

(** Everything but the clock is as before. *)
Definition same_but_tick (s s' : recv K) : Prop := exists i, s' = set_rc_tick s i.

Lemma set_tick_inv s i : recv_inv s -> recv_inv (set_rc_tick s i).
Proof. intros []. by split. Qed.

Lemma set_tick_clean s i : clean s -> clean (set_rc_tick s i).
Proof. done. Qed.

Lemma interference_wp (Q : unit -> recv K -> Prop) s :
  (good_size (rs_bufsize (rc_se s)) -> forall i se, good_size (rs_bufsize se) -> Q tt (set_rc_tick (set_rc_se s se) i)) ->
  good_size (rs_bufsize (rc_se s)) -> wp (interference others) Q s.
Proof. intros HQ Hg. unfold interference. wp_step. apply wp_tick. wp_steps. apply (HQ Hg). by apply Hothers. Qed.

Lemma new_block_wp size (Q : Z -> recv K -> Prop) s :
  (forall i, Q 0 (set_rc_tick s i)) ->
  (forall i, Q (rc_brk s) (set_rc_tick (set_rc_heap s (<[rc_brk s := size]> (rc_blocks s)) (rc_brk s + size + pagesize)) i)) ->
  wp (new_block pagesize alloc_ok size) Q s.
Proof.
  intros HQ0 HQ1. unfold new_block. wp_step. apply wp_tick. destruct (alloc_ok _); cbn [negb].
  - wp_steps. cbn. apply HQ1.
  - wp_steps. apply HQ0.
Qed.

Lemma buf_alloc_wp size (Q : Z -> recv K -> Prop) s : 0 < rc_brk s ->
  (forall i, Q 0 (set_rc_tick s i)) ->
  (forall i, let raw := ROUND_UP (u64 (size + write_header_sz)) pagesize in
    rc_brk s + (pagesize - write_header_sz) <> 0 ->
    Q (rc_brk s + (pagesize - write_header_sz))
      (set_rc_tick (set_rc_heap s (<[rc_brk s := raw]> (rc_blocks s)) (rc_brk s + raw + pagesize)) i)) ->
  wp (buf_alloc pagesize alloc_ok size true) Q s.
Proof.
  intros Hb HQ0 HQ1. pose proof pagesize_bounds. unfold buf_alloc. wp_step. apply new_block_wp; intros i.
  - wp_steps. apply HQ0.
  - destruct (Z.eqb_spec (rc_brk s) 0); [lia|]. wp_steps. apply HQ1. unfold write_header_sz. lia.
Qed.

(** The buffer that [buf_alloc] made becomes the buffer of the thread. *)
Lemma new_buf_inv s size i (f : fuse_buf -> fuse_buf) :
  recv_inv s -> good_size size -> rc_blocks s = ∅ ->
  fb_mem (f (rc_buf s)) = rc_brk s + (pagesize - write_header_sz) -> fb_mem_size (f (rc_buf s)) = size ->
  let raw := ROUND_UP (u64 (size + write_header_sz)) pagesize in
  recv_inv (set_rc_buf (set_rc_tick (set_rc_heap s (<[rc_brk s := raw]> (rc_blocks s)) (rc_brk s + raw + pagesize)) i) (f (rc_buf s))).
Proof.
  intros [Hn Hs Hb Hse Hp] Hg Hbl Hm Hms raw. pose proof pagesize_bounds.
  pose proof (good_room _ Hg) as Hroom. fold raw in Hroom. destruct Hg as [Hgs ?].
  assert (0 <= raw) as Hraw by (unfold write_header_sz in *; lia).
  split; cbn; try done.
  - unfold write_header_sz in *. lia.
  - intros _. rewrite Hms. split; [done|]. exists (rc_brk s), raw. rewrite Hbl insert_empty. split_and!; [done|done|lia|lia|].
    lia.
  - lia.
Qed.

Lemma writable_singleton raw size a len : raw <= a -> a + len <= raw + size -> writable {[raw := size]} a len = true.
Proof. intros ? ?. unfold writable. rewrite map_to_list_singleton. cbn. rewrite orb_false_r andb_true_iff !Z.leb_le. done. Qed.

(** The buffer of the thread takes [fb_mem_size] bytes. *)
Lemma buf_writable s len : recv_inv s -> fb_mem (rc_buf s) <> 0 -> len <= fb_mem_size (rc_buf s) ->
  writable (rc_blocks s) (fb_mem (rc_buf s)) len = true.
Proof.
  intros Hi Hm Hl. destruct (ri_some _ Hi Hm) as (_ & raw & size & -> & -> & ? & ?). pose proof pagesize_bounds.
  apply writable_singleton; unfold write_header_sz in *; lia.
Qed.

Lemma swrap_small x : 0 <= x < 2 ^ 31 -> swrap 32 x = x.
Proof. intros Hx. unfold swrap. rewrite Z.mod_small; [lia|]. by destruct (Z.ltb_spec x (2 ^ (32 - 1))); [|lia]. Qed.

Lemma device_read_wp bufsize (Q : sysret Z -> recv K -> Prop) s : recv_inv s -> fb_mem (rc_buf s) <> 0 ->
  bufsize <= fb_mem_size (rc_buf s) -> 0 <= bufsize ->
  (forall r k m i se, good_size (rs_bufsize se) ->
    (patience k <= patience (os s))%nat -> (r <> SysErr ENODEV -> (patience k < patience (os s))%nat) ->
    (forall rd wr, is_pipe (os s) rd wr -> is_pipe k rd wr /\ input k rd = input (os s) rd) ->
    match r with
    | SysErr e => m = mem s /\ 0 < e /\ delivered k = delivered (os s)
    | SysRet n => exists bs, n = Z.of_nat (length bs) /\ n <= bufsize /\ delivered k = delivered (os s) ++ [bs] /\
        mem_read m (fb_mem (rc_buf s)) n = bs
    end -> Q r (set_rc_tick (set_rc_se (set_rc_world s (mkWorld m k)) se) i)) ->
  wp (device_read dev others bufsize) Q s.
Proof.
  intros Hi Hm Hle H0' HQ. unfold device_read. wp_step. wp_step. wp_step. apply wp_on_world. unfold wp at 1, sys_into.
  pose proof (read_device bufsize (os s)) as Hd. pose proof (sys_read_le dev bufsize (os s) H0') as Hl.
  destruct (sys_read dev bufsize (os s)) as [[e|bs] k]; cbn [fst] in Hl; destruct Hd as (Hd & Hp1 & Hp2 & Hpi).
  - do 3 wp_step. apply interference_wp; [|apply Hi]. intros _ i se Hse. wp_steps. rewrite app_nil_r in Hd. apply HQ; try done.
    intros Hne. apply Hp2. by intros [= ->].
  - wp_step. apply wp_assert; [apply buf_writable; [done|done|lia]|].
    wp_step. apply interference_wp; [|apply Hi]. intros _ i se Hse. wp_steps. apply HQ; try done.
    { intros _. by apply Hp2. }
    exists bs. split_and!; [done|done|done|]. cbn. rewrite mem_read_range. apply mem_write_range.
Qed.

(** Frames: what the buffer's memory and the session may be. *)
Lemma inv_world s m k i se : recv_inv s -> good_size (rs_bufsize se) ->
  (forall rd wr, is_pipe (os s) rd wr -> is_pipe k rd wr) ->
  recv_inv (set_rc_tick (set_rc_se (set_rc_world s (mkWorld m k)) se) i).
Proof. intros [] Hg Hp. split; cbn; auto. Qed.

Lemma clean_world s m k i se : clean s ->
  (forall rd wr, is_pipe (os s) rd wr -> is_pipe k rd wr /\ input k rd = input (os s) rd) -> recv_inv s ->
  clean (set_rc_tick (set_rc_se (set_rc_world s (mkWorld m k)) se) i).
Proof.
  intros [Hf Hc] Hp Hi. split; [done|]. cbn. intros llp Hl. destruct (Hp _ _ (ri_pipe _ Hi _ Hl)) as [_ ->]. auto.
Qed.

Lemma replace_buf_wp (Q : unit -> recv K -> Prop) s size i mz :
  recv_inv s -> fb_mem (rc_buf s) <> 0 -> good_size size ->
  let raw := ROUND_UP (u64 (size + write_header_sz)) pagesize in
  let a := rc_brk s + (pagesize - write_header_sz) in
  (forall s', recv_inv s' -> rc_world s' = rc_world s -> rc_se s' = rc_se s -> rc_pipe s' = rc_pipe s ->
    rc_buf s' = set_fb_mem_size (set_fb_mem (rc_buf s) a) size -> Q tt s') ->
  mz = rc_brk s + raw + pagesize ->
  wp (fuse_buf_free pagesize;; buf_set (fun b => set_fb_mem_size (set_fb_mem b a) size)) Q
    (set_rc_tick (set_rc_heap s (<[rc_brk s := raw]> (rc_blocks s)) mz) i).
Proof.
  intros Hi Hm Hg raw a HQ ->. destruct (ri_some _ Hi Hm) as (_ & raw0 & size0 & Hbl & Ha & Hr & _).
  unfold fuse_buf_free. wp_step. wp_step. wp_step. cbn [rc_buf set_rc_tick set_rc_heap].
  destruct (Z.eqb_spec (fb_mem (rc_buf s)) 0); [done|]. wp_step. unfold free_block. wp_step. wp_step. wp_step.
  cbn [rc_blocks set_rc_tick set_rc_heap]. replace (fb_mem (rc_buf s) - pagesize + write_header_sz) with raw0 by lia.
  apply wp_assert. { apply bool_decide_eq_true. rewrite Hbl lookup_insert_ne; [lia|]. by rewrite lookup_singleton_eq. }
  unfold buf_set. wp_steps. cbn. apply HQ; try done.
  assert (recv_inv (set_rc_buf (set_rc_heap s ∅ (rc_brk s)) (set_fb_mem (rc_buf s) 0))) as Hi0.
  { destruct Hi. split; cbn; done. }
  pose proof (new_buf_inv _ size i (fun b => set_fb_mem_size (set_fb_mem b a) size) Hi0 Hg eq_refl eq_refl eq_refl) as Hnew.
  cbn in Hnew. replace (delete raw0 (<[rc_brk s:=raw]> (rc_blocks s))) with (<[rc_brk s := raw]> ∅ : gmap Z Z); [exact Hnew|].
  rewrite Hbl insert_empty delete_insert_ne; [lia|]. by rewrite delete_singleton_eq insert_empty.
Qed.

Lemma receive_restart_wp fuel : forall s bufsize, recv_inv s -> fb_mem (rc_buf s) <> 0 -> bufsize = fb_mem_size (rc_buf s) ->
  (patience (os s) < fuel)%nat ->
  wp (receive_restart pagesize dev alloc_ok others fuel bufsize true)
    (receive_post (delivered (os s)) (patience (os s)) (clean s)) s.
Proof.
  induction fuel as [|fuel IH]; intros s bufsize Hi Hm -> Hf; [lia|]. cbn [receive_restart].
  destruct (ri_some _ Hi Hm) as (Hg & _). pose proof Hg as [[Hg1 Hg2] _]. pose proof pagesize_bounds.
  wp_step. apply device_read_wp; [done|done|lia|unfold write_header_sz in *; lia|].
  intros r k m i se Hse Hp1 Hp2 Hpi Hr.
  assert (recv_inv (set_rc_tick (set_rc_se (set_rc_world s (mkWorld m k)) se) i)) as Hi'.
  { apply inv_world; [done..|]. intros. by apply Hpi. }
  assert (clean s -> clean (set_rc_tick (set_rc_se (set_rc_world s (mkWorld m k)) se) i)) as Hc by (intros; by apply clean_world).
  set (s1 := set_rc_tick _ _) in *. wp_step. wp_step.
  assert (forall z, z <= 0 -> (z <> 0 -> z <> - ENOMEM -> (patience k < patience (os s))%nat) ->
    receive_post (delivered (os s)) (patience (os s)) (clean s) z s1) as Hend.
  { intros z Hz Hpz. split_and!; [done|done|exact Hpz|lia]. }
  destruct (rs_exited (rc_se s1)); [wp_steps; apply Hend; lia|]. destruct r as [e|n].
  - destruct Hr as (-> & He & Hd). destruct (Z.eqb_spec e EINVAL) as [->|He1]; cbn [andb].
    + destruct (fb_mem_size (rc_buf s) <? rs_bufsize (rc_se s1)).
      * wp_step. apply buf_alloc_wp; [apply Hi'|..].
        { intros j. wp_steps. cbn [Z.eqb]. wp_steps. split_and!; [by apply set_tick_inv|done|done|done]. }
        intros j raw Hne. destruct (Z.eqb_spec (rc_brk s1 + (pagesize - write_header_sz)) 0); [done|].
        apply wp_assoc. wp_step. apply (replace_buf_wp _ s1 (rs_bufsize se)); [done|done|done| |done].
        intros s2 Hi2 Hw2 Hse2 Hpp2 Hb2. assert (os s2 = k) as Hk2 by by rewrite Hw2.
        eapply wp_mono; [apply IH; rewrite ?Hk2 ?Hb2 //=; enough (patience k < patience (os s))%nat by lia; by apply Hp2|].
        intros z s3. rewrite Hk2 Hd. apply receive_post_mono; [done|]. intros Hcs. destruct (Hc Hcs) as [Hc1 Hc2].
        split; [by rewrite Hb2|]. rewrite Hw2 Hpp2. exact Hc2.
      * wp_steps. apply Hend; [cbv; done|]. intros _ _. by apply Hp2.
    + destruct (Z.eqb_spec e ENOENT) as [->|He2].
      { assert (patience k < patience (os s))%nat by by apply Hp2.
        eapply wp_mono; [apply IH; [done|done|done|cbn; lia]|]. intros z s3. cbn. rewrite Hd. by apply receive_post_mono. }
      destruct (Z.eqb_spec e ENODEV) as [->|He3].
      * unfold fuse_session_exit. wp_steps. split_and!; [destruct Hi'; by split|done|done|lia].
      * wp_steps. apply Hend; [lia|]. intros _ _. apply Hp2. congruence.
  - destruct Hr as (bs & Hn & Hnle & Hd & Hmr). assert (patience k < patience (os s))%nat by by apply Hp2.
    destruct (Z.ltb_spec n in_header_bytes) as [|Hlt]; [wp_steps; apply Hend; [cbv; done|done]|]. unfold in_header_bytes in Hlt.
    unfold buf_set. wp_steps. rewrite swrap_small; [lia|]. split_and!; [destruct Hi'; by split|cbn; lia|done|].
    intros Hcs _. exists bs. split_and!; [done|done|done|]. destruct (Hc Hcs) as [Hfl _]. unfold stored.
    cbn in *. rewrite Hfl. by rewrite -Hn.
Qed.

(** [fallback] *)
Lemma receive_fallback_wp fuel s : recv_inv s -> (patience (os s) < fuel)%nat ->
  wp (receive_fallback pagesize dev alloc_ok others fuel true)
    (receive_post (delivered (os s)) (patience (os s)) (clean s)) s.
Proof.
  intros Hi Hf. unfold receive_fallback. wp_step. wp_step. destruct (Z.eqb_spec (fb_mem (rc_buf s)) 0) as [Hz|].
  2: by apply receive_restart_wp.
  wp_step. apply buf_alloc_wp; [apply Hi|..]; unfold buf_set.
  - intros i. wp_steps. cbn [Z.eqb]. wp_steps. split_and!; [|done|done|done].
    destruct Hi. split; cbn; auto; done.
  - intros i Hne. wp_steps. destruct (Z.eqb_spec (rc_brk s + (pagesize - write_header_sz)) 0); [done|]. wp_steps.
    pose proof (new_buf_inv s (rs_bufsize (rc_se s)) i (fun b => set_fb_mem_size (set_fb_mem b (rc_brk s + (pagesize - write_header_sz))) (rs_bufsize (rc_se s)))
      Hi (ri_se _ Hi) (ri_none _ Hi Hz) eq_refl eq_refl) as Hi1.
    eapply wp_mono; [by apply (receive_restart_wp fuel _ _ Hi1)|]. intros z s2. by apply receive_post_mono.
Qed.

(** *** Pipes *)

(** Only the pipe and the kernel differ, and nothing was received. *)
Record piped (s s' : recv K) : Prop := {
  pd_inv : recv_inv s -> recv_inv s';
  pd_quiet : quiet (os s) (os s');
  pd_clean : recv_inv s -> clean s -> clean s';
  pd_same : rc_se s' = rc_se s /\ rc_buf s' = rc_buf s;
}.

Lemma device_quiet_refl (k : K) : quiet k k.
Proof. by split. Qed.

Lemma device_quiet_trans (k1 k2 k3 : K) : quiet k1 k2 -> quiet k2 k3 -> quiet k1 k3.
Proof. intros [E1 ?] [E2 ?]. split; [by rewrite E2|lia]. Qed.

Lemma piped_refl s : piped s s.
Proof. split; auto using device_quiet_refl. Qed.

Lemma piped_trans s1 s2 s3 : piped s1 s2 -> piped s2 s3 -> piped s1 s3.
Proof.
  intros [] []. split; [auto|eauto using device_quiet_trans|auto|]. destruct pd_same0 as [<- <-]. by destruct pd_same1.
Qed.

(** A call after which the pipe is still there with what is in it. *)
Lemma piped_world s k : quiet (os s) k ->
  (forall rd wr, is_pipe (os s) rd wr -> is_pipe k rd wr /\ input k rd = input (os s) rd) ->
  piped s (set_rc_world s (mkWorld (mem s) k)).
Proof.
  intros Hq Hp. split; [|done| |done].
  - intros []. split; cbn; auto. intros. apply Hp; auto.
  - intros Hi [Hf Hc]. split; [done|]. cbn. intros llp Hl. destruct (Hp _ _ (ri_pipe _ Hi _ Hl)) as [_ ->]. auto.
Qed.

(** The size of the pipe is of no interest. *)
Lemma piped_resize s llp size grow : rc_pipe s = Some llp -> piped s (set_rc_pipe s (Some (mkLlp size grow (lp_rd llp) (lp_wr llp)))).
Proof.
  intros Hp. split; [|apply device_quiet_refl| |done].
  - intros []. split; cbn; auto. intros ? [= <-]. cbn. auto.
  - intros Hi [Hf Hc]. split; [done|]. cbn. intros ? [= <-]. cbn. auto.
Qed.

Lemma piped_clear s k : quiet (os s) k -> piped s (set_rc_world (set_rc_pipe s None) (mkWorld (mem s) k)).
Proof. intros Hq. split; [|done| |done]; [intros []; by split|]. intros Hi [Hf Hc]. by split. Qed.

Lemma fuse_ll_get_pipe_wp s (Q : option fuse_ll_pipe -> recv K -> Prop) :
  (forall llp s', piped s s' -> rc_pipe s' = llp -> Q llp s') -> wp (fuse_ll_get_pipe pagesize alloc_ok) Q s.
Proof.
  intros HQ. unfold fuse_ll_get_pipe. wp_step. wp_step. destruct (rc_pipe s) as [llp|] eqn:Ep; [wp_steps; by apply HQ; [apply piped_refl|]|].
  wp_step. apply wp_tick. set (s1 := set_rc_tick _ _).
  assert (piped s s1) as H1 by (split; [apply set_tick_inv|apply device_quiet_refl|intros; by apply set_tick_clean|done]).
  destruct (alloc_ok _); cbn [negb]; [|wp_steps; by apply HQ].
  wp_step. apply wp_on_sys. pose proof (pipe_new (os s1)) as Hn. destruct (sys_pipe (os s1)) as [[e|[rd wr]] k]; destruct Hn as [Hq Hn].
  - wp_steps. apply HQ; [|done]. eapply piped_trans; [done|]. split; [|done| |done]; [intros []; split; cbn; auto|].
    { intros llp Hl. by rewrite Hl in Ep. }
    intros Hi [Hf Hc]. split; [done|]. cbn. intros llp Hl. by rewrite Hl in Ep.
  - wp_steps. apply HQ; [|done]. destruct Hn as [Hn1 Hn2]. eapply piped_trans; [done|]. split; [|done| |done].
    + intros []. split; cbn; auto. by intros ? [= <-].
    + intros Hi [Hf Hc]. split; [done|]. cbn. by intros ? [= <-].
Qed.

Lemma fuse_ll_clear_pipe_wp s (Q : unit -> recv K -> Prop) :
  (forall s', piped s s' -> rc_pipe s' = None -> rc_world s' = mkWorld (mem s) (os s') -> Q tt s') -> wp fuse_ll_clear_pipe Q s.
Proof.
  intros HQ. unfold fuse_ll_clear_pipe. wp_step. wp_step. destruct (rc_pipe s) as [llp|] eqn:Ep.
  - unfold fuse_ll_pipe_free. wp_steps. apply wp_on_sys. wp_steps. apply wp_on_sys. apply HQ; [|done|done].
    apply (piped_clear s). eapply device_quiet_trans; apply close_quiet.
  - wp_steps. apply HQ; [apply piped_refl|done|]. by destruct (rc_world s).
Qed.

Lemma grow_pipe_to_max_wp s llp (Q : Z -> recv K -> Prop) : recv_inv s -> rc_pipe s = Some llp ->
  (forall r s', piped s s' -> rc_pipe s' = Some llp -> Q r s') -> wp (grow_pipe_to_max (lp_rd llp)) Q s.
Proof.
  intros Hi Hp HQ. unfold grow_pipe_to_max. pose proof (ri_pipe _ Hi _ Hp) as Hpi. wp_step. apply wp_on_sys.
  pose proof (fun rd wr Hx => read_file_quiet F_SETPIPE_MAX 31 (os s) rd wr Hx) as Hq. cbv zeta in Hq.
  destruct (sys_read_file F_SETPIPE_MAX 31 (os s)) as [r k]; cbn [snd] in Hq.
  assert (piped s (set_rc_world s (mkWorld (mem s) k))) as H1 by (apply piped_world; [by apply (Hq _ _ Hpi)|intros; by apply Hq]).
  destruct r as [e|bytes]; [wp_steps; by apply HQ|]. destruct (libfuse_strtol _) as [r|mx]; [wp_steps; by apply HQ|].
  wp_step. apply wp_on_sys. destruct (Hq _ _ Hpi) as (_ & Hpk & _).
  pose proof (fun rd wr Hx => setpipe_quiet (lp_rd llp) mx k rd wr Hx) as Hq2. cbv zeta in Hq2. cbn [rc_world w_os w_mem set_rc_world].
  destruct (sys_setpipe (lp_rd llp) mx k) as [r k2]; cbn [snd] in Hq2.
  assert (piped s (set_rc_world s (mkWorld (mem s) k2))) as H2.
  { eapply piped_trans; [exact H1|]. apply (piped_world (set_rc_world s (mkWorld (mem s) k))); [by apply (Hq2 _ _ Hpk)|intros; by apply Hq2]. }
  destruct r; wp_steps; by apply HQ.
Qed.

Lemma pipe_fits_wp s llp bufsize (Q : bool -> recv K -> Prop) : recv_inv s -> rc_pipe s = Some llp ->
  (forall b s' llp', piped s s' -> rc_pipe s' = Some llp' -> lp_rd llp' = lp_rd llp -> lp_wr llp' = lp_wr llp -> Q b s') ->
  wp (pipe_fits llp bufsize) Q s.
Proof.
  intros Hi Hp HQ. unfold pipe_fits. pose proof (ri_pipe _ Hi _ Hp) as Hpi.
  destruct (_ <? _); [|wp_steps; by eapply HQ; [apply piped_refl|..]].
  destruct (lp_can_grow llp); [|wp_steps; by eapply HQ; [apply piped_refl|..]].
  wp_step. apply wp_on_sys. pose proof (fun rd wr Hx => setpipe_quiet (lp_rd llp) bufsize (os s) rd wr Hx) as Hq. cbv zeta in Hq.
  destruct (sys_setpipe (lp_rd llp) bufsize (os s)) as [r k]; cbn [snd] in Hq. set (s1 := set_rc_world _ _).
  assert (piped s s1) as H1 by (apply piped_world; [by apply (Hq _ _ Hpi)|intros; by apply Hq]).
  destruct r as [e|n].
  - wp_step. wp_step. wp_step. set (s2 := set_rc_pipe _ _).
    assert (piped s s2) as H2 by (eapply piped_trans; [exact H1|by apply piped_resize]).
    eapply (grow_pipe_to_max_wp s2 (mkLlp (lp_size llp) false (lp_rd llp) (lp_wr llp))); [by apply H2|done|].
    intros r s3 H3 Hp3. assert (piped s s3) as H13 by by eapply piped_trans.
    destruct (0 <? r); wp_steps; eapply HQ; try done. eapply piped_trans; [exact H13|].
    by eapply (piped_resize s3 (mkLlp (lp_size llp) false (lp_rd llp) (lp_wr llp))).
  - wp_steps. eapply HQ; [|done|done|done]. eapply piped_trans; [exact H1|by apply piped_resize].
Qed.

Lemma current_single b off : fuse_bufvec_current (mkBufvec 1 0 off [b]) = Some b.
Proof. done. Qed.

(** One [read] from the pipe into the buffer. *)
Lemma pipe_to_memory_wp n bufsize mm fd pos ms rd (w : world K) (Q : Z * fuse_bufvec * fuse_bufvec -> world K -> Prop) :
  0 < n <= bufsize -> bufsize < 2 ^ 31 ->
  (forall r dv sv, let x := (sys_read rd n (w_os w)).1 in
    r = match x with SysErr e => - e | SysRet bs => Z.of_nat (length bs) end ->
    Q (r, dv, sv) (mkWorld match x with SysErr _ => w_mem w | SysRet bs => mem_write (w_mem w) mm bs end (sys_read rd n (w_os w)).2)) ->
  wp (fuse_buf_copy stack false (mkBufvec 1 0 0 [mkFbuf bufsize 0 mm fd pos ms])
    (mkBufvec 1 0 0 [mkFbuf n FUSE_BUF_IS_FD 0 rd 0 0]) 0) Q w.
Proof.
  intros Hn Hb HQ. pose proof (sys_read_le rd n (w_os w) ltac:(lia)) as Hle. unfold fuse_buf_copy.
  generalize (length (bv_buf (mkBufvec 1 0 0 [mkFbuf bufsize 0 mm fd pos ms])) +
    length (bv_buf (mkBufvec 1 0 0 [mkFbuf n FUSE_BUF_IS_FD 0 rd 0 0])))%nat. intros fuel. cbn [fuse_buf_copy_loop].
  rewrite !current_single. cbv zeta.
  rewrite min_size_min. cbn [fb_size bv_off]. rewrite !Z.sub_0_r Z.min_l; [lia|]. wp_step. unfold fuse_buf_copy_one.
  change (has_flag (fb_flags (mkFbuf n FUSE_BUF_IS_FD 0 rd 0 0)) FUSE_BUF_IS_FD) with true.
  change (has_flag (fb_flags (mkFbuf bufsize 0 mm fd pos ms)) FUSE_BUF_IS_FD) with false. cbn [negb andb].
  unfold fuse_buf_read. destruct (Z.to_nat n) as [|f] eqn:Ef; [lia|]. cbn [fuse_buf_read_loop].
  destruct (Z.eqb_spec n 0); [lia|].
  change (has_flag (fb_flags (mkFbuf n FUSE_BUF_IS_FD 0 rd 0 0)) FUSE_BUF_FD_SEEK) with false.
  change (has_flag (fb_flags (mkFbuf n FUSE_BUF_IS_FD 0 rd 0 0)) FUSE_BUF_FD_RETRY) with false. cbn [fb_fd fb_mem negb].
  rewrite Z.add_0_r. wp_step. apply wp_sys_into.
  destruct (sys_read rd n (w_os w)) as [[e|bs] k]; cbn [fst snd] in *.
  - cbn [Z.eqb]. wp_steps. destruct (Z.ltb_spec (- e) 0); [|lia]. cbn [Z.eqb]. wp_steps. by apply HQ.
  - set (w1 := mkWorld _ k) in *.
    assert (wp (if Z.of_nat (length bs) =? 0 then mret 0 else mret (0 + Z.of_nat (length bs)))
      (fun a w => a = Z.of_nat (length bs) /\ w = w1) w1) as Hr by (destruct (Z.eqb_spec (Z.of_nat (length bs)) 0); wp_steps; split; done || lia).
    cbv zeta. eapply wp_mono; [exact Hr|]. intros r ? [-> ->]. cbn beta. destruct (Z.ltb_spec (Z.of_nat (length bs)) 0); [lia|].
    unfold fuse_bufvec_advance. rewrite !current_single. cbn [bv_idx bv_count bv_buf bv_off fb_size].
    rewrite (wrap_small 64); [lia|]. wp_step. wp_step. apply wp_assert; [apply Z.leb_le; lia|].
    destruct (Z.eqb_spec (0 + Z.of_nat (length bs)) n).
    + wp_steps; [done|]. cbn [negb Z.add Z.eqb Pos.eqb Pos.add]. wp_steps. cbn [negb]. wp_steps. apply HQ. lia.
    + wp_steps. cbn [negb]. wp_step. wp_step. apply wp_assert; [apply Z.leb_le; lia|].
      destruct (Z.eqb_spec (0 + Z.of_nat (length bs)) bufsize); [lia|]. wp_steps. cbn [negb].
      destruct (Z.ltb_spec (Z.of_nat (length bs)) n); [|lia]. wp_steps. apply HQ. lia.
Qed.

(** A message is in the pipe. *)
Lemma receive_copy_wp s rd wr bufsize m D P (c : Prop) : recv_inv s -> is_pipe (os s) rd wr -> fb_mem (rc_buf s) <> 0 ->
  (forall llp, rc_pipe s = Some llp -> lp_rd llp = rd /\ lp_wr llp = wr) ->
  0 < Z.of_nat (length m) <= bufsize -> bufsize < 2 ^ 31 -> Z.of_nat (length m) <= fb_mem_size (rc_buf s) ->
  (patience (os s) < P)%nat -> delivered (os s) = D ++ [m] -> (c -> input (os s) rd = m) ->
  wp (receive_copy stack (mkFbuf (Z.of_nat (length m)) FUSE_BUF_IS_FD 0 rd 0 0) bufsize) (receive_post D P c) s.
Proof.
  intros Hi Hp Hm Hpp Hn Hb Hms HP HD Hc. unfold receive_copy, buf_set. do 5 wp_step. cbn [fb_size].
  set (n := Z.of_nat (length m)) in *. set (s2 := set_rc_buf s _). assert (recv_inv s2) as Hi2 by (destruct Hi; by split).
  apply wp_assert. { apply buf_writable; [done|done|]. cbn. lia. }
  wp_step. apply wp_on_world. change (rc_buf s2) with (mkFbuf bufsize 0 (fb_mem (rc_buf s)) (fb_fd (rc_buf s)) (fb_pos (rc_buf s)) (fb_mem_size (rc_buf s))).
  apply pipe_to_memory_wp; [lia|lia|]. intros r dv sv x Hr. subst x. change (os s2) with (os s) in *.
  pose proof (read_pipe rd wr n (os s) Hp) as Hlaw. pose proof (sys_read_le rd n (os s) ltac:(lia)) as Hle.
  destruct (sys_read rd n (os s)) as [x k]. cbn [fst snd] in *. destruct Hlaw as ([Hd Hpa] & Hpk & Hx).
  set (s3 := set_rc_world s2 _).
  assert (recv_inv s3) as Hi3.
  { destruct Hi2. split; cbn; auto. intros llp Hl. destruct (Hpp _ Hl) as [-> ->]. done. }
  assert (forall z, z <= 0 -> wp (fuse_ll_clear_pipe;; mret z) (receive_post D P c) s3) as Hfail.
  { intros z Hz. wp_step. apply fuse_ll_clear_pipe_wp. intros s4 H4 _ _. wp_steps.
    assert (patience (os s4) <= patience k)%nat as Hp4 by apply (pd_quiet _ _ H4).
    split_and!; [by apply (pd_inv _ _ H4)|lia|lia|lia]. }
  destruct (Z.ltb_spec r 0) as [Hneg|Hpos].
  { apply Hfail. destruct x as [e|bs]; [|lia]. subst r. unfold swrap. destruct (decide (e = 2 ^ 31)) as [->|]; [done|].
    rewrite -(Z.mod_add _ 1); [done|]. rewrite Z.mod_small; [lia|]. destruct (Z.ltb_spec (- e + 1 * 2 ^ 32) (2 ^ (32 - 1))); lia. }
  destruct (Z.ltb_spec r n) as [|Hge]; [by apply Hfail|].
  destruct x as [e|bs]; [lia|]. subst r. assert (Z.of_nat (length bs) = n) as Hl by lia. rename Hx into Hin.
  wp_step. apply wp_assert; [by apply Z.eqb_eq|]. wp_steps. rewrite swrap_small; [lia|]. rewrite Hl.
  split_and!; [destruct Hi3; by split|cbn; lia|cbn; intros; lia|]. intros Hcs _. exists m.
  split_and!; [by cbn; rewrite Hd|done|done|]. unfold stored. cbn.
  rewrite Hc // in Hin. destruct (app_inj_1 m bs [] (input k rd)) as [Em _]; [lia|by rewrite app_nil_r|]. rewrite Em.
  rewrite mem_read_range. apply mem_write_range.
Qed.

Lemma receive_spliced_wp s llp llp' bufsize m D P (c : Prop) : recv_inv s -> rc_pipe s = Some llp' ->
  lp_rd llp' = lp_rd llp -> lp_wr llp' = lp_wr llp ->
  good_size bufsize -> in_header_bytes <= Z.of_nat (length m) <= bufsize -> (patience (os s) < P)%nat ->
  delivered (os s) = D ++ [m] -> (c -> input (os s) (lp_rd llp) = m) ->
  wp (receive_spliced pagesize stack alloc_ok llp bufsize (Z.of_nat (length m)) true) (receive_post D P c) s.
Proof.
  intros Hi Hp Hrd Hwr Hg Hn HP HD Hc. unfold receive_spliced. pose proof pagesize_bounds. pose proof Hg as [[Hg1 Hg2] _].
  unfold in_header_bytes in Hn. cbv zeta. cbn [fb_fd fb_flags fb_size].
  assert (is_pipe (os s) (lp_rd llp) (lp_wr llp)) as Hpi by (rewrite -Hrd -Hwr; by apply (ri_pipe _ Hi)).
  destruct (Z.ltb_spec (Z.of_nat (length m)) (write_header_sz + pagesize)) as [Hlt|_].
  2: { unfold buf_set. wp_steps. rewrite swrap_small; [lia|]. split_and!; [destruct Hi; by split|cbn; lia|done|].
       intros Hcs _. exists m. split_and!; [done|done|done|]. unfold stored. cbn. exists llp'. rewrite Hrd. auto. }
  wp_step. wp_step. destruct (Z.eqb_spec (fb_mem (rc_buf s)) 0) as [Hz|Hnz].
  2: { eapply receive_copy_wp; try done; [|lia|]; [|apply ri_some in Hnz as [[? _] _]; [lia|done]].
       rewrite Hp. by intros ? [= <-]. }
  wp_step. apply buf_alloc_wp; [apply Hi|..]; unfold buf_set.
  - intros i. wp_steps. cbn [Z.eqb]. wp_steps. split_and!; [|cbn; lia|done|done]. destruct Hi. split; cbn; auto; done.
  - intros i Hne. wp_steps. destruct (Z.eqb_spec (rc_brk s + (pagesize - write_header_sz)) 0); [done|]. wp_steps.
    pose proof (new_buf_inv s bufsize i (fun b => set_fb_mem_size (set_fb_mem b (rc_brk s + (pagesize - write_header_sz))) bufsize)
      Hi Hg (ri_none _ Hi Hz) eq_refl eq_refl) as Hi1.
    eapply (receive_copy_wp _ _ _ _ _ _ _ _ Hi1); try done; [|lia|cbn; lia]. cbn. rewrite Hp. by intros ? [= <-].
Qed.

Lemma receive_wp fuel : forall s, recv_inv s -> (patience (os s) < fuel)%nat ->
  wp (_fuse_session_receive_buf pagesize dev stack alloc_ok others fuel true)
    (receive_post (delivered (os s)) (patience (os s)) (clean s)) s.
Proof.
  induction fuel as [|fuel IH]; intros s Hi Hf; [lia|]. cbn [_fuse_session_receive_buf]. wp_step. wp_step.
  destruct (_ || _); [by apply receive_fallback_wp|]. wp_step. apply fuse_ll_get_pipe_wp. intros llp s1 H1 Hp1.
  assert (forall s2, piped s s2 -> wp (receive_fallback pagesize dev alloc_ok others (S fuel) true)
    (receive_post (delivered (os s)) (patience (os s)) (clean s)) s2) as Hfall.
  { intros s2 H2. destruct (pd_quiet _ _ H2) as [Hd Hpa]. eapply wp_mono; [apply receive_fallback_wp; [by apply H2|lia]|].
    intros z s3. rewrite Hd. apply receive_post_mono; [done|]. by apply H2. }
  destruct llp as [llp|]; [|by apply Hfall]. wp_step. eapply pipe_fits_wp; [by apply H1|done|].
  intros fits s2 llp' H2 Hp2 Hrd Hwr. assert (piped s s2) as H12 by by eapply piped_trans.
  destruct fits; cbn [negb]; [|by apply Hfall]. pose proof (ri_se _ Hi) as Hg. pose proof Hg as [[Hg1 Hg2] _]. pose proof pagesize_bounds.
  assert (recv_inv s2) as Hi2 by by apply H12. destruct (pd_quiet _ _ H12) as [Hd2 Hpa2].
  unfold device_splice. apply wp_bind. wp_step. apply wp_on_sys.
  assert (is_pipe (os s2) (lp_rd llp) (lp_wr llp)) as Hpi by (rewrite -Hrd -Hwr; by apply (ri_pipe _ Hi2)).
  pose proof (splice_device _ _ (rs_bufsize (rc_se s)) 0 (os s2) Hpi) as Hlaw.
  pose proof (sys_splice_le dev None (lp_wr llp) None (rs_bufsize (rc_se s)) 0 (os s2)) as Hle.
  destruct (sys_splice dev None (lp_wr llp) None (rs_bufsize (rc_se s)) 0 (os s2)) as [r k].
  destruct Hlaw as (Hpk & Hpa & Hpa' & Hr). cbn [fst] in Hle.
  assert (match r with SysErr e => 0 < e | SysRet n => 0 <= n <= rs_bufsize (rc_se s) end) as Hr0 by (apply Hle; unfold write_header_sz in *; lia).
  wp_step. apply interference_wp; [|apply Hi2]. intros _ i se Hse. wp_step. wp_step. wp_step. set (s3 := set_rc_tick _ _).
  assert (recv_inv s3) as Hi3.
  { destruct Hi2. split; cbn; auto. rewrite Hp2. intros ? [= <-]. by rewrite Hrd Hwr. }
  assert (forall z, z <= 0 -> (z <> 0 -> z <> - ENOMEM -> (patience k < patience (os s))%nat) ->
    receive_post (delivered (os s)) (patience (os s)) (clean s) z s3) as Hend.
  { intros z Hz Hpz. split_and!; [done|cbn; lia|exact Hpz|lia]. }
  destruct (rs_exited (rc_se s3)); [wp_steps; apply Hend; lia|]. destruct r as [e|n].
  - destruct Hr as [Hdk Hik]. destruct (Z.eqb_spec e ENODEV) as [->|He1].
    { unfold fuse_session_exit. wp_steps. split_and!; [destruct Hi3; by split|cbn; lia|done|lia]. }
    assert (patience k < patience (os s2))%nat by (apply Hpa'; congruence).
    destruct (_ && _); [|wp_steps; apply Hend; [lia|intros; lia]].
    wp_step. apply fuse_ll_clear_pipe_wp. intros s4 Hp34 Hp4 Hw4. destruct (pd_quiet _ _ Hp34) as [Hd4 Hpa4]. change (os s3) with k in *.
    eapply wp_mono; [apply IH; [by apply Hp34|lia]|]. intros z s5. rewrite Hd4 Hdk Hd2. apply receive_post_mono; [lia|].
    intros Hcs. apply Hp34; [done|]. destruct (pd_clean _ _ H12 Hi Hcs) as [Hc1 Hc2]. split; [done|]. cbn.
    rewrite Hp2. intros ? [= <-]. rewrite Hrd Hik -Hrd. by apply Hc2.
  - destruct Hr as (m & <- & Hdk & Hik). assert (patience k < patience (os s2))%nat by by apply Hpa'.
    destruct (Z.ltb_spec (Z.of_nat (length m)) in_header_bytes); [wp_steps; apply Hend; [done|intros; lia]|].
    eapply receive_spliced_wp; [done|exact Hp2|done|done|done|lia|cbn; lia|by rewrite -Hd2|].
    intros Hcs. cbn. rewrite Hik. destruct (pd_clean _ _ H12 Hi Hcs) as [_ Hc2]. by rewrite -Hrd (Hc2 _ Hp2).
Qed.

Lemma receive_internal_wp fuel s : recv_inv s -> (patience (os s) < fuel)%nat ->
  wp (fuse_session_receive_buf_internal pagesize dev stack alloc_ok others fuel)
    (receive_post (delivered (os s)) (patience (os s)) (clean s)) s.
Proof.
  intros Hi Hf. unfold fuse_session_receive_buf_internal. wp_step. wp_step. wp_step.
  destruct (_ && _); wp_step; [|by apply receive_wp].
  eapply wp_mono; [apply receive_wp; [destruct Hi; by split|done]|]. intros z s'. by apply receive_post_mono.
Qed.

(** *** The loop *)

(** What the loop needs of [fuse_session_process_buf]: it leaves the buffer and its
    allocation alone and takes no message from the device. *)
Class Processor (process : MR unit) : Prop :=
  process_keeps s : recv_inv s -> wp process (fun _ s' => recv_inv s' /\ (patience (os s') <= patience (os s))%nat) s.

Lemma session_loop_wp process `{!Processor process} fuel : forall res s, recv_inv s -> (patience (os s) < fuel)%nat ->
  wp (session_loop pagesize dev stack alloc_ok others fuel process res) (fun _ s' => recv_inv s') s.
Proof.
  induction fuel as [|fuel IH]; intros res s Hi Hf; [lia|]. cbn [session_loop]. wp_step. wp_step.
  destruct (rs_exited _); [by wp_steps|]. wp_step. eapply wp_mono; [by apply receive_internal_wp|].
  intros r s1 (Hi1 & Hp1 & Hp1' & _). cbn beta.
  destruct (Z.eqb_spec r (- EINTR)) as [->|]; [apply IH; [done|]; enough (patience (os s1) < patience (os s))%nat by lia; by apply Hp1'|].
  destruct (Z.leb_spec r 0); [by wp_steps|]. wp_step. eapply wp_mono; [by apply process_keeps|]. intros [] s2 [Hi2 Hp2].
  apply IH; [done|]. enough (patience (os s1) < patience (os s))%nat by lia. apply Hp1'; [lia|unfold ENOMEM; lia].
Qed.

Lemma final_free_wp s : recv_inv s -> wp (fuse_buf_free pagesize) (fun _ s' => rc_blocks s' = ∅ /\ rc_se s' = rc_se s) s.
Proof.
  intros Hi. unfold fuse_buf_free. wp_step. wp_step. destruct (Z.eqb_spec (fb_mem (rc_buf s)) 0) as [Hz|Hm].
  { wp_steps. split; [by apply Hi|done]. }
  destruct (ri_some _ Hi Hm) as (_ & raw & size & Hbl & Ha & _). unfold free_block, buf_set.
  replace (fb_mem (rc_buf s) - pagesize + write_header_sz) with raw by lia. wp_steps.
  - rewrite Hbl. apply bool_decide_eq_true. by rewrite lookup_singleton_eq.
  - cbn. split; [|done]. by rewrite Hbl delete_singleton_eq.
Qed.
End safe.

(** C34: A call of [fuse_session_receive_buf_internal] returns, for every size of the
    receive buffer that is close to a multiple of the page size ([good_size]; other
    threads may change it to another such size): it writes nothing
    outside its buffer, frees only the buffer it replaces, and ends with at most the
    one allocation of its buffer, however the device answers, whatever allocations
    fail and whenever other threads end the session or raise the buffer size.  When
    it reports a message, that is the one message it took from the device, and it is
    complete and where the buffer says it is: in memory or in the pipe (provided the
    buffer did not point to a pipe before, and the pipe was empty). *)
Theorem receive_correct {K} `{SyscallLaws K} `{!Streams K} `{!DeviceCalls K} `{!Device K} page_bits dev stack
    `{!DeviceLaws K dev} alloc_ok others fuel (s : recv K) :
  12 <= page_bits <= 20 ->
  (forall i se, good_size page_bits (rs_bufsize se) -> good_size page_bits (rs_bufsize (others i se))) ->
  recv_inv page_bits s -> (patience (w_os (rc_world s)) < fuel)%nat ->
  exists r s', fuse_session_receive_buf_internal (2 ^ page_bits) dev stack alloc_ok others fuel s = Ok (r, s') /\
    recv_inv page_bits s' /\
    (clean s -> 0 < r -> exists m, delivered (w_os (rc_world s')) = delivered (w_os (rc_world s)) ++ [m] /\
      Z.of_nat (length m) = r /\ fb_size (rc_buf s') = r /\ stored s' m).
Proof.
  intros Hpage Hothers Hi Hf. apply wp_Ok. eapply wp_mono; [by apply receive_internal_wp|]. intros r s' (? & _ & _ & ?). auto.
Qed.

(** The single-threaded loop returns once the device has reported that the file
    system is unmounted (or earlier), for sizes as above and a [process] that keeps what
    [Processor] asks; the buffer is freed, the session is reset. *)
Theorem session_loop_returns {K} `{SyscallLaws K} `{!Streams K} `{!DeviceCalls K} `{!Device K} page_bits dev stack
    `{!DeviceLaws K dev} alloc_ok others process `{!Processor page_bits process} fuel (s : recv K) :
  12 <= page_bits <= 20 ->
  (forall i se, good_size page_bits (rs_bufsize se) -> good_size page_bits (rs_bufsize (others i se))) ->
  rc_blocks s = ∅ -> 0 < rc_brk s -> good_size page_bits (rs_bufsize (rc_se s)) -> rc_pipe s = None ->
  (patience (w_os (rc_world s)) < fuel)%nat ->
  exists r s', fuse_session_loop (2 ^ page_bits) dev stack alloc_ok others fuel process s = Ok (r, s') /\
    rc_blocks s' = ∅ /\ rs_exited (rc_se s') = false /\ rs_error (rc_se s') = 0.
Proof.
  intros Hpage Hothers Hbl Hbrk Hse Hp Hf. apply wp_Ok. unfold fuse_session_loop, buf_set. wp_step. wp_step. wp_step.
  assert (recv_inv page_bits (set_rc_buf s (mkFbuf 0 0 0 0 0 0))) as Hi by (split; cbn; try done; by rewrite Hp).
  eapply wp_mono; [by apply session_loop_wp|].
  intros res s1 Hi1. wp_step. eapply wp_mono; [by apply final_free_wp|]. intros [] s2 [Hb2 Hse2].
  wp_step. wp_step. wp_step. unfold fuse_session_reset. wp_steps. by cbn.
Qed.

(** ** A device *)

(** Descriptor 3 is the device: it answers with the results of a list, one per call,
    and then with [ENODEV]; there is one pipe, with ends 4 and 5.  [sc_grow]: whether
    pipes may grow. *)
Record script := mkScript { sc_todo : list (sysret (list Z)); sc_log : list (list Z); sc_pipe : list Z; sc_grow : bool }.

Definition sc_next (len : Z) (k : script) : sysret (list Z) * script :=
  match sc_todo k with
  | [] => (SysErr ENODEV, k)
  | SysErr e :: l => (SysErr (Z.max 1 e), mkScript l (sc_log k) (sc_pipe k) (sc_grow k))
  | SysRet bs :: l =>
      if Z.of_nat (length bs) <=? len then (SysRet bs, mkScript l (sc_log k ++ [bs]) (sc_pipe k) (sc_grow k))
      else (SysErr EIO, mkScript l (sc_log k) (sc_pipe k) (sc_grow k))
  end.

#[local] Instance script_sys : Syscalls script := {|
  sys_write fd bs k := (SysErr EBADF, k);
  sys_pwrite fd bs pos k := (SysErr EBADF, k);
  sys_read fd len k :=
    if fd =? 3 then sc_next len k
    else if fd =? 4 then
      (SysRet (take (Z.to_nat len) (sc_pipe k)), mkScript (sc_todo k) (sc_log k) (drop (Z.to_nat len) (sc_pipe k)) (sc_grow k))
    else (SysErr EBADF, k);
  sys_pread fd len pos k := (SysErr EBADF, k);
  sys_splice fd_in off_in fd_out off_out len flags k :=
    match sc_next len k with
    | (SysErr e, k) => (SysErr e, k)
    | (SysRet bs, k) => (SysRet (Z.of_nat (length bs)), mkScript (sc_todo k) (sc_log k) (sc_pipe k ++ bs) (sc_grow k))
    end;
|}.

#[local] Instance script_calls : DeviceCalls script := {|
  sys_pipe k := (SysRet (4, 5), mkScript (sc_todo k) (sc_log k) [] (sc_grow k));
  sys_close fd k := k;
  sys_setpipe fd size k := (if sc_grow k then SysRet size else SysErr EPERM, k);
  sys_read_file path len k := (SysRet (bytes_of (lit "1048576") ++ [10]), k);
|}.

#[local] Instance script_streams : Streams script := {| sent k _ := []; input k fd := if fd =? 4 then sc_pipe k else [] |}.
#[local] Instance script_device : Device script := {|
  delivered := sc_log; patience k := length (sc_todo k); is_pipe _ rd wr := rd = 4 /\ wr = 5;
|}.

#[local] Instance script_sys_laws : SyscallLaws script.
Proof.
  assert (forall len k, match (sc_next len k).1 with SysErr e => 0 < e | SysRet bs => Z.of_nat (length bs) <= len end) as Hn.
  { intros len k. unfold sc_next. destruct (sc_todo k) as [|[e|bs] l]; cbn; [done|lia|]. by destruct (Z.leb_spec (Z.of_nat (length bs)) len). }
  split; intros; cbn; try done.
  - destruct (fd =? 3); [apply Hn|]. destruct (fd =? 4); cbn; [|done]. rewrite length_take. lia.
  - specialize (Hn len k). destruct (sc_next len k) as [[e|bs] k']; cbn in *; lia.
Qed.

#[local] Instance script_device_laws : DeviceLaws script 3.
Proof.
  assert (forall len k, let '(r, k') := sc_next len k in
    sc_log k' = sc_log k ++ match r with SysErr _ => [] | SysRet bs => [bs] end /\ sc_pipe k' = sc_pipe k /\
    (length (sc_todo k') <= length (sc_todo k))%nat /\ (r <> SysErr ENODEV -> (length (sc_todo k') < length (sc_todo k))%nat)) as Hn.
  { intros len k. unfold sc_next. destruct (sc_todo k) as [|[e|bs] l] eqn:E; cbn; rewrite ?E ?app_nil_r; [done|split_and!; lia || done|].
    destruct (_ <=? _); cbn; rewrite ?app_nil_r; split_and!; lia || done. }
  split.
  - by intros k rd wr [-> _].
  - intros len k. cbn. specialize (Hn len k). destruct (sc_next len k) as [r k']. destruct Hn as (? & Hp & ? & ?).
    split_and!; try done. intros rd wr [-> ->]. cbn. by rewrite Hp.
  - intros rd wr len flags k [-> ->]. cbn. specialize (Hn len k). destruct (sc_next len k) as [[e|bs] k']; destruct Hn as (Hl & Hp & ? & Hx).
    + rewrite app_nil_r in Hl. cbn. split_and!; try done. intros Hne. apply Hx. congruence.
    + cbn. split_and!; try done; [by intros _; apply Hx|]. exists bs. by rewrite Hp.
  - intros rd wr len k [-> ->]. cbn. split_and!; try done. by rewrite take_drop.
  - by intros k.
  - by intros fd k.
  - by intros fd size k rd wr Hp.
  - by intros path len k rd wr Hp.
Qed.

(** ** Examples *)

(** 4096-byte pages, the buffer size of a new session, splicing wanted or not. *)
Definition start (want bufsize : Z) (grow : bool) (todo : list (sysret (list Z))) : recv script :=
  mkRecv (mkRse false 0 bufsize 40 want true true) (mkWorld (fun _ => 0) (mkScript todo [] [] grow)) ∅ 4096 None
    (mkFbuf 0 0 0 0 0 0) 0.
Definition message (n : Z) : list Z := repeat 7 (Z.to_nat n).
Definition all_ok (_ : nat) : bool := true.
Definition alone (_ : nat) (se : rse) : rse := se.

Lemma default_good : good_size 12 (257 * 2 ^ 12).
Proof. apply page_multiple_good; lia. Qed.

Lemma start_inv want grow todo : recv_inv 12 (start want (257 * 2 ^ 12) grow todo).
Proof. split; try done. apply default_good. Qed.

(** A message of 100 bytes, to be spliced and copied. *)
Definition sample_recv : recv script := start FUSE_CAP_SPLICE_READ (257 * 2 ^ 12) true [SysRet (message 100)].

Lemma receive_correct_witness : exists r s',
  fuse_session_receive_buf_internal (2 ^ 12) 3 0 all_ok alone 5 sample_recv = Ok (r, s') /\ recv_inv 12 s' /\
  (clean sample_recv -> 0 < r -> exists m,
    delivered (w_os (rc_world s')) = delivered (w_os (rc_world sample_recv)) ++ [m] /\
    Z.of_nat (length m) = r /\ fb_size (rc_buf s') = r /\ stored s' m).
Proof. apply (receive_correct 12 3 0 all_ok alone 5 sample_recv); [lia|done|apply start_inv|cbn; lia]. Defined.

#[local] Instance nothing_keeps : Processor 12 (mret tt : M (recv script) unit).
Proof. intros s Hi. by wp_steps. Qed.

Lemma session_loop_returns_witness : exists r s',
  fuse_session_loop (2 ^ 12) 3 0 all_ok alone 5 (mret tt)
    (start 0 (257 * 2 ^ 12) true [SysRet (message 100); SysErr EINTR; SysRet (message 5000)]) = Ok (r, s') /\
  rc_blocks s' = ∅ /\ rs_exited (rc_se s') = false /\ rs_error (rc_se s') = 0.
Proof.
  apply (session_loop_returns 12 3 0 all_ok alone (mret tt) 5
    (start 0 (257 * 2 ^ 12) true [SysRet (message 100); SysErr EINTR; SysRet (message 5000)]));
    [lia|done|done|done|apply default_good|done|cbn; lia].
Defined.

(** ** Buffers that are too small *)

Section room.
Context {K : Type} `{Syscalls K} `{!DeviceCalls K}.
Context (page_bits dev : Z) (alloc_ok : nat -> bool) (others : nat -> rse -> rse).
Hypothesis Hpage : 12 <= page_bits <= 20.

Lemma writable_singleton_iff raw size a len : raw <= a ->
  writable {[raw := size]} a len = bool_decide (a + len <= raw + size).
Proof.
  intros Ha. unfold writable. rewrite map_to_list_singleton. cbn. rewrite orb_false_r (proj2 (Z.leb_le _ _) Ha).
  case_bool_decide; [by apply Z.leb_le|by apply Z.leb_gt; lia].
Qed.

(** Reading a message aborts exactly when it does not fit. *)
Lemma restart_message fuel size bs k (s : recv K) : sys_read dev size (w_os (rc_world s)) = (SysRet bs, k) ->
  receive_restart (2 ^ page_bits) dev alloc_ok others (S fuel) size true s = Abort <->
  writable (rc_blocks s) (fb_mem (rc_buf s)) (Z.of_nat (length bs)) = false.
Proof.
  intros Hread. cbn [receive_restart]. unfold device_read, on_world, sys_into, mbind, M_bind, get. rewrite Hread. cbv beta iota.
  unfold assert. destruct (writable _ _ _); [|done]. split; [|done]. cbn [set_rc_world rc_se rc_tick rc_buf].
  unfold interference, tick, modify, buf_set, mbind, M_bind, mret, M_ret. cbv beta iota. by repeat case_match.
Qed.

(** C40: A thread without a buffer makes one of the size the session wants and reads a
    message into it.  The message is written beyond the end of the block exactly when it
    is longer than the block less the part before the buffer: [buf_alloc] rounds the
    size of the block up after adding the room for the header of a WRITE, and begins the
    buffer a page minus that room later.  A message as long as the buffer should hold
    overflows exactly when the size is not close to a multiple of the page size: more
    than 80 bytes above one and at least 80 bytes below the next. *)
Theorem buffer_room_exact fuel size bs k (s : recv K) :
  fb_mem (rc_buf s) = 0 -> rc_blocks s = ∅ -> 0 < rc_brk s -> rs_bufsize (rc_se s) = size -> 0 <= size < 2 ^ 32 ->
  alloc_ok (rc_tick s) = true -> sys_read dev size (w_os (rc_world s)) = (SysRet bs, k) ->
  let overflows := receive_fallback (2 ^ page_bits) dev alloc_ok others (S fuel) true s = Abort in
  (overflows <->
    (size + write_header_sz + (2 ^ page_bits - 1)) / 2 ^ page_bits * 2 ^ page_bits <
    2 ^ page_bits - write_header_sz + Z.of_nat (length bs)) /\
  (Z.of_nat (length bs) = size ->
    (overflows <-> write_header_sz < size mod 2 ^ page_bits <= 2 ^ page_bits - write_header_sz)).
Proof using Hpage.
  intros Hmem Hbl Hbrk Hsize Hs Hok Hread overflows. pose proof (pagesize_bounds page_bits Hpage) as Hpg.
  pose proof (block_spec page_bits Hpage size Hs) as Hblk. pose proof (block_room page_bits Hpage size Hs) as Hroom.
  rewrite -Hblk. set (blk := ROUND_UP _ _) in *.
  enough (overflows <-> blk < 2 ^ page_bits - write_header_sz + Z.of_nat (length bs)) as Ho.
  { split; [done|]. intros Hlen. rewrite Ho Hlen. unfold near_pages in Hroom. unfold write_header_sz in *. lia. }
  unfold overflows, receive_fallback, buf_alloc, new_block, tick, buf_set, mbind, M_bind, get, modify, put, mret, M_ret.
  rewrite Hmem Hsize. cbn -[receive_restart]. fold blk. rewrite Hok. cbn -[receive_restart].
  destruct (Z.eqb_spec (rc_brk s) 0); [lia|]. cbn -[receive_restart]. unfold write_header_sz in *.
  destruct (Z.eqb_spec (rc_brk s + (2 ^ page_bits - 80)) 0); [lia|].
  etransitivity; [by apply (restart_message _ _ bs k)|]. cbn. rewrite Hbl insert_empty writable_singleton_iff; [lia|].
  rewrite bool_decide_eq_false. lia.
Qed.
End room.

Lemma buffer_room_exact_witness :
  let s := start 0 9096 true [SysRet (message 8500)] in
  let overflows := receive_fallback (2 ^ 12) 3 all_ok alone 5 true s = Abort in
  (overflows <-> (9096 + write_header_sz + (2 ^ 12 - 1)) / 2 ^ 12 * 2 ^ 12 < 2 ^ 12 - write_header_sz + Z.of_nat (length (message 8500))) /\
  (Z.of_nat (length (message 8500)) = 9096 -> (overflows <-> write_header_sz < 9096 mod 2 ^ 12 <= 2 ^ 12 - write_header_sz)).
Proof.
  apply (buffer_room_exact 12 3 all_ok alone ltac:(lia) 4 9096 (message 8500)
    (mkScript [] [message 8500] [] true) (start 0 9096 true [SysRet (message 8500)])); try reflexivity; cbn; lia.
Defined.

(** Reading off what a run ends in. *)
Lemma result_is {K A} (m : M (recv K) A) s a : match m s with Ok (b, _) => b = a | _ => False end -> exists s', m s = Ok (a, s').
Proof. destruct (m s) as [[b s']| |]; [intros ->; by eexists|done..]. Qed.

(** A file system that sets [max_write] to 5000 gets buffers for 9096 bytes. *)
Example max_write_5000 : u32 (Init.init_max_write (257 * 4096) true 5000 + Init.FUSE_BUFFER_HEADER_SIZE) = 9096.
Proof. reflexivity. Qed.

(** With buffers for 9096 bytes (a [max_write] of 5000) a message of 8500 bytes,
    which the device may hand over, is written beyond the end of the block. *)
Theorem receive_overflows :
  (exists s', fuse_session_receive_buf_internal 4096 3 0 all_ok alone 5 (start 0 9096 true [SysRet (message 8272)]) = Ok (8272, s')) /\
  fuse_session_receive_buf_internal 4096 3 0 all_ok alone 5 (start 0 9096 true [SysRet (message 8500)]) = Abort.
Proof. split; [by apply result_is; vm_compute|by vm_compute]. Qed.

(** ** A flag that is not cleared *)

(** Every allocation succeeds but the [i]-th. *)
Definition all_but (i : nat) (j : nat) : bool := negb (Nat.eqb i j).

(** After a message in the pipe, a failure that drops the pipe, and a failure to
    make a new one, the next message is read into memory while the buffer still
    says that it is in the pipe: [fallback] leaves [buf->flags] as they were. *)
Theorem stale_pipe_flag : exists s',
  (fuse_session_receive_buf_internal 4096 3 0 (all_but 2) alone 5;;
   fuse_ll_clear_pipe;;
   fuse_session_receive_buf_internal 4096 3 0 (all_but 2) alone 5)
    (start FUSE_CAP_SPLICE_READ (16 * 4096) true [SysRet (message 5000); SysRet (message 100)]) = Ok (100, s') /\
  mem_read (w_mem (rc_world s')) (fb_mem (rc_buf s')) 100 = message 100 /\ rc_pipe s' = None /\
  has_flag (fb_flags (rc_buf s')) FUSE_BUF_IS_FD = true.
Proof.
  set (m := _ ≫= _). assert (match m (start FUSE_CAP_SPLICE_READ (16 * 4096) true [SysRet (message 5000); SysRet (message 100)]) with
    | Ok (r, s') => r = 100 /\ mem_read (w_mem (rc_world s')) (fb_mem (rc_buf s')) 100 = message 100 /\ rc_pipe s' = None /\
        has_flag (fb_flags (rc_buf s')) FUSE_BUF_IS_FD = true
    | _ => False end) as Hrun by (vm_compute; by split_and!).
  destruct (m _) as [[r s']| |]; [|done..]. destruct Hrun as [-> Hrun]. by exists s'.
Qed.

(** ** Growing pipes *)

Lemma digits_all ds rest acc : forallb isdigit ds = true -> isdigit (char_at rest 0) = false ->
  exists v, digits (ds ++ rest) acc = (v, rest).
Proof.
  revert acc. induction ds as [|c ds IH]; intros acc Hds Hr; cbn [app].
  - destruct rest as [|c rest]; [by eexists|]. cbn [digits]. change (char_at (c :: rest) 0) with c in Hr. rewrite Hr. by eexists.
  - cbn [forallb digits] in *. apply andb_true_iff in Hds as [-> Hds]. by apply IH.
Qed.

Lemma digits_nul_free ds : forallb isdigit ds = true -> nul_free ds.
Proof.
  induction ds as [|c ds IH]; intros Hds; [apply not_elem_of_nil|]. cbn [forallb] in Hds. apply andb_true_iff in Hds as [Hc Hds].
  apply nul_free_cons. split; [|auto]. by intros ->.
Qed.

Definition newline : ascii := of_uchar 10.

(** A number with a newline behind it is refused. *)
Lemma libfuse_strtol_newline c ds : isdigit c = true -> forallb isdigit ds = true ->
  exists e, libfuse_strtol (Some (c :: ds ++ [newline])) = inl (- e) /\ 0 < e.
Proof.
  intros Hc Hds. unfold libfuse_strtol, strtol.
  assert (isspace c = false /\ ceq c "-" = false /\ ceq c "+" = false) as (Hsp & Hm & Hp).
  { revert Hc. destruct c as [[] [] [] [] [] [] [] []]; vm_compute; done. }
  cbn [skip_space]. rewrite Hsp. cbn [char_at nth_default]. change (char_at (c :: ds ++ [newline]) 0) with c. rewrite Hm Hp Hc. cbn [negb].
  destruct (digits_all (c :: ds) [newline] 0) as [v Hv]; [by cbn; rewrite Hc|done|]. rewrite -app_comm_cons in Hv. rewrite Hv.
  destruct (LONG_MAX <? v); [by exists ERANGE|]. destruct (v <? - LONG_MAX - 1); [by exists ERANGE|]. by exists EINVAL.
Qed.

(** [grow_pipe_to_max] never grows a pipe: the file it reads holds a number and a
    newline, and [libfuse_strtol] refuses what does not end after the number. *)
Theorem grow_pipe_never {K} `{Syscalls K} `{DeviceCalls K} pipefd (s : recv K) c ds k :
  isdigit c = true -> forallb isdigit ds = true ->
  sys_read_file F_SETPIPE_MAX 31 (w_os (rc_world s)) = (SysRet (uchar <$> (c :: ds ++ [newline])), k) ->
  exists e, 0 < e /\ grow_pipe_to_max pipefd s = Ok (- e, set_rc_world s (mkWorld (w_mem (rc_world s)) k)).
Proof.
  intros Hc Hds Hf. destruct (libfuse_strtol_newline c ds Hc Hds) as (e & He & Hpos). exists e. split; [done|].
  unfold grow_pipe_to_max, on_world, sys, mbind, M_bind. rewrite Hf. cbv beta iota.
  change (of_uchar <$> (uchar <$> (c :: ds ++ [newline]))) with (of_bytes (bytes_of (c :: ds ++ [newline]))).
  replace (c_str (of_bytes (bytes_of (c :: ds ++ [newline])))) with (c :: ds ++ [newline]); [by rewrite He|].
  rewrite of_bytes_of c_str_id //. rewrite app_comm_cons. apply nul_free_app. split; [|by apply (bool_decide_eq_true_1 _)].
  apply digits_nul_free. by cbn; rewrite Hc.
Qed.

Lemma grow_pipe_never_witness : exists e, 0 < e /\
  grow_pipe_to_max 4 sample_recv = Ok (- e, set_rc_world sample_recv (mkWorld (w_mem (rc_world sample_recv)) (w_os (rc_world sample_recv)))).
Proof.
  apply (grow_pipe_never 4 sample_recv "1" (lit "048576") (w_os (rc_world sample_recv))); vm_compute; reflexivity.
Defined.
