(* ===== verification/Send.v ===== *)
(** * Replies with data from buffers

    [src/lib/fuse_lowlevel.c]: [fuse_reply_data] and [fuse_lowlevel_notify_store], which
    send a header and the contents of a buffer vector: through the pipe of the
    thread, so that pages need not be copied, or through memory.  The header is put
    into the pipe by reference ([vmsplice]): what the device reads is what the header
    is when it reads it. *)
From S2P Require Import Prelude Buffer Request Receive.

(** The calls besides those of [Buffer] and [Receive].  The last two read pages
    that were put into the pipe by reference, hence the memory. *)
Class SendCalls (K : Type) := {
  sys_writev : Z -> list Z -> K -> sysret Z * K;
  sys_vmsplice : Z -> list (Z * Z) -> Z -> K -> sysret Z * K;
  sys_splice_out : Z -> Z -> Z -> Z -> memory -> K -> sysret Z * K;   (** [splice(rd, NULL, dev, NULL, len, flags)] *)
  sys_read_back : Z -> Z -> memory -> K -> sysret (list Z) * K;
}.

(** A thread that sends: its state as a receiver and [se->broken_splice_nonblock]. *)
Record send (K : Type) := mkSend { sn_rc : recv K; sn_broken : bool }.
Arguments mkSend {K} _ _.
Arguments sn_rc {K} _.
Arguments sn_broken {K} _.

Definition FUSE_CAP_SPLICE_WRITE : Z := 2 ^ 7.
Definition FUSE_CAP_SPLICE_MOVE : Z := 2 ^ 8.

(** [iov_length] *)
Definition iov_length (iov : list (Z * Z)) : Z := foldr (fun v acc => v.2 + acc) 0 iov.

(** What the vectors point to. *)
Definition iov_bytes (m : memory) (iov : list (Z * Z)) : list Z := iov ≫= (fun v => mem_read m v.1 v.2).

Section send.
Context {K : Type} `{Syscalls K} `{DeviceCalls K} `{SendCalls K}.
Abbreviation MN := (M (send K)).
Context (pagesize dev stack : Z) (alloc_ok : nat -> bool).

Definition on_rc {A} (m : M (recv K) A) : MN A := fun s =>
  match m (sn_rc s) with
  | Ok (a, r) => Ok (a, mkSend r (sn_broken s))
  | Abort => Abort
  | Diverge => Diverge
  end.

(** A system call; one that looks at the memory. *)
Definition kernel {A} (call : K -> A * K) : MN A := on_rc (on_world (sys call)).
Definition kernel_mem {A} (call : memory -> K -> A * K) : MN A :=
  on_rc (on_world (fun w => let '(r, k) := call (w_mem w) (w_os w) in Ok (r, mkWorld (w_mem w) k))).

(** [out->len = len], [out] being the first vector. *)
Definition set_out_len (iov : list (Z * Z)) (len : Z) : MN unit :=
  match iov with
  | (hdr, _) :: _ => on_rc (on_world (modify (fun w => mkWorld (mem_write (w_mem w) hdr (le 4 len)) (w_os w))))
  | [] => abort
  end.

Definition fuse_send_msg (iov : list (Z * Z)) : MN Z :=
  set_out_len iov (u32 (iov_length iov));;
  s ← get;
  res ← kernel (sys_writev dev (iov_bytes (w_mem (rc_world (sn_rc s))) iov));
  match res with
  | SysErr err => mret (- err)
  | SysRet _ => mret 0
  end.

(** [FUSE_BUFVEC_INIT(size)] with the memory at [mem] *)
Definition mem_bufvec (size mem off : Z) : fuse_bufvec := mkBufvec 1 0 off [mkFbuf size 0 mem 0 0 0].

(** The buffer that can be sent as it is: the only one, in memory, from its start. *)
Definition plain_buffer (buf : fuse_bufvec) : option fuse_buf :=
  match bv_buf buf with
  | b :: _ => if (bv_count buf =? 1) && (bv_idx buf =? 0) && (bv_off buf =? 0) &&
                 negb (has_flag (fb_flags b) FUSE_BUF_IS_FD) then Some b else None
  | [] => None
  end.

Definition buf_copy (dst src : fuse_bufvec) (flags : Z) : MN (Z * fuse_bufvec) :=
  r ← on_rc (on_world (fuse_buf_copy stack false dst src flags));
  let '(res, _, src) := r in mret (swrap 32 res, src).

Definition fuse_send_data_iov_fallback (iov : list (Z * Z)) (buf : fuse_bufvec) (len : Z) : MN Z :=
  match plain_buffer buf with
  | Some b => fuse_send_msg (iov ++ [(fb_mem b, len)])
  | None =>
      mbuf ← on_rc (new_block pagesize alloc_ok len);
      if mbuf =? 0 then mret ENOMEM
      else
        r ← buf_copy (mem_bufvec len mbuf 0) buf 0;
        let '(res, _) := r in
        if res <? 0 then on_rc (free_block mbuf);; mret (- res)
        else
          res ← fuse_send_msg (iov ++ [(mbuf, res)]);
          on_rc (free_block mbuf);;
          mret res
  end.

(** [read_back], into memory at [a] *)
Definition read_back (fd a len : Z) : MN Z :=
  res ← kernel_mem (sys_read_back fd len);
  match res with
  | SysErr _ => mret (- EIO)
  | SysRet bs =>
      on_rc (on_world (modify (fun w => mkWorld (mem_write (w_mem w) a bs) (w_os w))));;
      mret (if negb (Z.of_nat (length bs) =? len) then - EIO else 0)
  end.

(** The loop that adds up [total_buf_size]. *)
Fixpoint total_size (first : bool) (off : Z) (bufs : list fuse_buf) (total : Z) : Z :=
  match bufs with
  | [] => total
  | b :: bufs =>
      let total := u64 (total + fb_size b) in
      total_size false off bufs (if first then u64 (total - off) else total)
  end.

Definition clear_pipe (res : Z) : MN Z := on_rc fuse_ll_clear_pipe;; mret res.

(** From [len = res] to the end: the pipe holds the header and [len] bytes. *)
Definition send_pipe (iov : list (Z * Z)) (llp : fuse_ll_pipe) (len flags : Z) : MN Z :=
  let out_len := u32 (iov_length iov + len) in
  set_out_len iov out_len;;
  s ← get;
  let splice_flags := if has_flag flags FUSE_BUF_SPLICE_MOVE && has_flag (rs_want_ext (rc_se (sn_rc s))) FUSE_CAP_SPLICE_MOVE
                      then SPLICE_F_MOVE else 0 in
  res ← kernel_mem (sys_splice_out (lp_rd llp) dev out_len splice_flags);
  match res with
  | SysErr errno => clear_pipe (- errno)
  | SysRet res => if negb (res =? out_len) then clear_pipe (- EIO) else mret 0
  end.

(** The data in the pipe is short: the rest, if there is any, goes to memory, the
    front is read back, and the message is written. *)
Definition send_rest (iov : list (Z * Z)) (llp : fuse_ll_pipe) (buf : fuse_bufvec) (len now_len flags : Z) : MN Z :=
  mbuf ← on_rc (new_block pagesize alloc_ok len);
  if mbuf =? 0 then clear_pipe ENOMEM
  else
    r ← buf_copy (mem_bufvec len mbuf now_len) buf 0;
    let '(res, _) := r in
    if 0 <? res then
      let extra_len := res in
      tmpbuf ← on_rc (new_block pagesize alloc_ok (iov_length iov));
      if tmpbuf =? 0 then on_rc (free_block mbuf);; clear_pipe ENOMEM
      else
        res ← read_back (lp_rd llp) tmpbuf (iov_length iov);
        on_rc (free_block tmpbuf);;
        if negb (res =? 0) then on_rc (free_block mbuf);; clear_pipe res
        else
          res ← read_back (lp_rd llp) mbuf now_len;
          if negb (res =? 0) then on_rc (free_block mbuf);; clear_pipe res
          else
            res ← fuse_send_msg (iov ++ [(mbuf, now_len + extra_len)]);
            on_rc (free_block mbuf);;
            mret res
    else
      on_rc (free_block mbuf);;
      send_pipe iov llp now_len flags.

(** The splice path once there is a pipe that is large enough. *)
Definition send_splice (iov : list (Z * Z)) (llp : fuse_ll_pipe) (buf : fuse_bufvec) (len flags : Z) : MN Z :=
  let headerlen := iov_length iov in
  res ← kernel (sys_vmsplice (lp_wr llp) iov SPLICE_F_NONBLOCK);
  match res with
  | SysErr _ => fuse_send_data_iov_fallback iov buf len
  | SysRet res =>
      if negb (res =? headerlen) then clear_pipe (- EIO)
      else
        let pipe_buf := mkBufvec 1 0 0 [mkFbuf len FUSE_BUF_IS_FD 0 (lp_wr llp) 0 0] in
        r ← buf_copy pipe_buf buf (Z.lor FUSE_BUF_FORCE_SPLICE FUSE_BUF_SPLICE_NONBLOCK);
        let '(res, buf) := r in
        if res <? 0 then
          if (res =? - EAGAIN) || (res =? - EINVAL) then
            (if res =? - EAGAIN then modify (fun s => mkSend (sn_rc s) true) else mret tt);;
            on_rc (modify (fun s => set_rc_pipe s None));;
            on_rc (fuse_ll_pipe_free llp);;
            fuse_send_data_iov_fallback iov buf len
          else clear_pipe (- res)
        else if negb (res =? 0) && (res <? len) then send_rest iov llp buf len res flags
        else send_pipe iov llp res flags
  end.

Definition fuse_send_data_iov (iov : list (Z * Z)) (buf : fuse_bufvec) (flags : Z) : MN Z :=
  let len := fuse_buf_size buf in
  let fallback := fuse_send_data_iov_fallback iov buf len in
  s ← get;
  let total_buf_size :=
    total_size true (bv_off buf) (drop (Z.to_nat (bv_idx buf)) (take (Z.to_nat (bv_count buf)) (bv_buf buf))) 0 in
  if sn_broken s || has_flag flags FUSE_BUF_NO_SPLICE || (total_buf_size <? 2 * pagesize) ||
     (rs_proto_minor (rc_se (sn_rc s)) <? 14) || negb (has_flag (rs_want_ext (rc_se (sn_rc s))) FUSE_CAP_SPLICE_WRITE)
  then fallback
  else
    llp ← on_rc (fuse_ll_get_pipe pagesize alloc_ok);
    match llp with
    | None => fallback
    | Some llp =>
        let out_len := u32 (iov_length iov + len) in
        set_out_len iov out_len;;
        let pipesize := u64 (pagesize * (Z.of_nat (length iov) + bv_count buf + 1) + out_len) in
        fits ← on_rc (pipe_fits llp pipesize);
        if negb fits then fallback else send_splice iov llp buf len flags
    end.

(** ** Replies and notifications with data *)

(** The header of a message, at [hdr]; its length is filled in later. *)
Definition put_header (hdr unique error : Z) : MN unit :=
  on_rc (on_world (modify (fun w =>
    mkWorld (mem_write (mem_write (w_mem w) (hdr + 8) (le 8 unique)) (hdr + 4) (le 4 error)) (w_os w)))).

(** The errors with a name, and [fuse_free_req] ([Request]). *)
Context (known_errno : Z -> bool) (fuse_free_req : MN unit).

(** [fuse_reply_err], with the header at [hdr] *)
Definition fuse_reply_err (hdr unique err : Z) : MN Z :=
  put_header hdr unique (u32 (checked_error known_errno (- err)));;
  res ← fuse_send_msg [(hdr, 16)];
  fuse_free_req;;
  mret res.

(** [hdr] is the address of [out]; [hdr'] that of the header of an error. *)
Definition fuse_reply_data (hdr hdr' unique : Z) (bufv : fuse_bufvec) (flags : Z) : MN Z :=
  put_header hdr unique 0;;
  res ← fuse_send_data_iov [(hdr, 16)] bufv flags;
  if res <=? 0 then fuse_free_req;; mret res
  else fuse_reply_err hdr' unique res.

Definition FUSE_NOTIFY_STORE : Z := 4.

Definition fuse_lowlevel_notify_store (hdr outarg ino offset : Z) (bufv : fuse_bufvec) (flags : Z) : MN Z :=
  let size := fuse_buf_size bufv in
  s ← get;
  if rs_proto_minor (rc_se (sn_rc s)) <? 15 then mret (- ENOSYS)
  else
    put_header hdr 0 FUSE_NOTIFY_STORE;;
    on_rc (on_world (modify (fun w =>
      mkWorld (mem_write (w_mem w) outarg (le 8 ino ++ le 8 offset ++ le 4 size ++ le 4 0)) (w_os w))));;
    res ← fuse_send_data_iov [(hdr, 16); (outarg, 24)] bufv flags;
    mret (if 0 <? res then - res else res).
End send.
