(* ===== verification/SendSafe.v ===== *)
(** * Replies with data are complete

    For data in memory, [fuse_send_data_iov] of [Send] either sends one message,
    whose length field is right and which holds the header and all the data, or says
    why not; it leaves no block behind and the pipe of the thread empty. *)
From S2P Require Import Prelude Buffer Request Receive ReceiveSafe Send.

(** ** What the device and the pipes promise *)

(** The messages the device has taken; what the calls that were refused, or cut short
    where that cannot be made good, oblige the sender to report: the negated error for
    the device, [-EIO] for a count that is too short, the error itself for the pipe;
    [pipe_holds k rd wr f]: the pipe with these ends holds the bytes [f m] when the
    memory is [m]. *)
Class Outlet (K : Type) := {
  messages : K -> list (list Z);
  refused : K -> list Z;
  pipe_holds : K -> Z -> Z -> (memory -> list Z) -> Prop;
}.

Definition trail {K} `{Outlet K} (k : K) : list (list Z) * list Z := (messages k, refused k).

(** [-EIO], when the count is not the one asked for. *)
Definition cut_short (n len : Z) : list Z := if n =? len then [] else [- EIO].

Class OutletLaws (K : Type) (dev : Z) `{Syscalls K} `{DeviceCalls K} `{SendCalls K} `{Outlet K} : Prop := {
  pipe_holds_ext k rd wr f g : (forall m, f m = g m) -> pipe_holds k rd wr f -> pipe_holds k rd wr g;
  (** [writev] on the device takes a message or fails. *)
  writev_device bs k : let '(r, k') := sys_writev dev bs k in
    match r with
    | SysErr e => 0 < e /\ messages k' = messages k /\ refused k' = refused k ++ [- e]
    | SysRet _ => messages k' = messages k ++ [bs] /\ refused k' = refused k
    end /\
    forall rd wr f, pipe_holds k rd wr f -> pipe_holds k' rd wr f;
  (** [vmsplice] puts pages into the pipe, [write] bytes. *)
  vmsplice_pipe rd wr iov flags k f : pipe_holds k rd wr f -> let '(r, k') := sys_vmsplice wr iov flags k in
    messages k' = messages k /\
    match r with
    | SysErr _ => refused k' = refused k /\ pipe_holds k' rd wr f
    | SysRet n => refused k' = refused k ++ cut_short n (iov_length iov) /\
        pipe_holds k' rd wr (fun m => f m ++ take (Z.to_nat n) (iov_bytes m iov))
    end;
  write_pipe rd wr bs k f : pipe_holds k rd wr f -> let '(r, k') := sys_write wr bs k in
    messages k' = messages k /\
    match r with
    | SysErr e => refused k' = refused k ++ [e] /\ e < 2 ^ 31 /\ pipe_holds k' rd wr f
    | SysRet n => refused k' = refused k /\ (bs <> [] -> 0 < n) /\ pipe_holds k' rd wr (fun m => f m ++ take (Z.to_nat n) bs)
    end;
  splice_out_pipe rd wr len flags m k f : pipe_holds k rd wr f -> let '(r, k') := sys_splice_out rd dev len flags m k in
    match r with
    | SysErr e => 0 < e /\ messages k' = messages k /\ refused k' = refused k ++ [- e]
    | SysRet n => messages k' = messages k ++ [take (Z.to_nat n) (f m)] /\ refused k' = refused k ++ cut_short n len /\
        pipe_holds k' rd wr (fun m => drop (Z.to_nat n) (f m))
    end;
  read_back_pipe rd wr len m k f : pipe_holds k rd wr f -> let '(r, k') := sys_read_back rd len m k in
    messages k' = messages k /\
    match r with
    | SysErr _ => refused k' = refused k ++ [- EIO]
    | SysRet bs => refused k' = refused k ++ cut_short (Z.of_nat (length bs)) len /\
        bs = take (length bs) (f m) /\ pipe_holds k' rd wr (fun m => drop (length bs) (f m))
    end;
  new_pipe k : let '(r, k') := sys_pipe k in trail k' = trail k /\
    match r with SysErr _ => True | SysRet (rd, wr) => pipe_holds k' rd wr (fun _ => []) end;
  close_pipe fd k : trail (sys_close fd k) = trail k;
  setpipe_pipe fd size k rd wr f : pipe_holds k rd wr f ->
    let k' := (sys_setpipe fd size k).2 in trail k' = trail k /\ pipe_holds k' rd wr f;
  read_file_pipe path len k rd wr f : pipe_holds k rd wr f ->
    let k' := (sys_read_file path len k).2 in trail k' = trail k /\ pipe_holds k' rd wr f;
}.

(** ** Memory and vectors *)

Lemma NoDup_range a len : NoDup (range a len).
Proof. unfold range. apply NoDup_fmap_2; [intros x y; lia|apply NoDup_seq]. Qed.

Lemma swrap_id x : - 2 ^ 31 <= x < 2 ^ 31 -> swrap 32 x = x.
Proof.
  intros Hx. destruct (decide (0 <= x)); [apply swrap_small; lia|]. unfold swrap.
  replace (x mod 2 ^ 32) with (x + 2 ^ 32).
  - destruct (Z.ltb_spec (x + 2 ^ 32) (2 ^ (32 - 1))); lia.
  - rewrite -(Z.mod_small (x + 2 ^ 32) (2 ^ 32)); [lia|]. 
    replace (x + 2 ^ 32) with (x + 1 * 2 ^ 32) by lia. by rewrite Z_mod_plus_full.
Qed.

Lemma sum_sizes_app l l' : sum_sizes (l ++ l') = sum_sizes l + sum_sizes l'.
Proof. induction l as [|b l IH]; cbn; [done|]. unfold sum_sizes in *. rewrite IH. lia. Qed.

Lemma length_buf_addrs bufs : Forall (fun b => 0 <= fb_size b) bufs -> Z.of_nat (length (buf_addrs bufs)) = sum_sizes bufs.
Proof.
  induction 1 as [|b l Hb Hl IH]; [done|]. unfold buf_addrs in *. rewrite bind_cons length_app length_range. cbn.
  unfold sum_sizes in IH. rewrite Nat2Z.inj_add IH. lia.
Qed.

Lemma bv_sizes_nonneg bv : bv_wf bv -> Forall (fun b => 0 <= fb_size b) (bv_buf bv).
Proof. intros Hwf. apply list.Forall_forall. intros b Hb. pose proof (bw_sizes _ Hwf b Hb). lia. Qed.

(** What is left is no more than the sizes. *)
Lemma rem_le_sizes bv : bv_wf bv -> rem bv <= sum_sizes (bv_buf bv).
Proof.
  intros Hwf. pose proof (bv_sizes_nonneg _ Hwf) as Hs. unfold rem, addrs.
  rewrite -{2}(take_drop (Z.to_nat (bv_idx bv)) (bv_buf bv)) sum_sizes_app.
  assert (0 <= sum_sizes (take (Z.to_nat (bv_idx bv)) (bv_buf bv))) by by apply sum_sizes_nonneg, Forall_take.
  destruct (drop (Z.to_nat (bv_idx bv)) (bv_buf bv)) as [|b l] eqn:Hd; cbn -[sum_sizes]; [cbn; lia|].
  assert (Forall (fun b => 0 <= fb_size b) (b :: l)) as Hf by (rewrite -Hd; by apply Forall_drop).
  apply list.Forall_cons in Hf as [Hb Hl]. rewrite length_app length_range Nat2Z.inj_add length_buf_addrs //.
  assert (0 <= bv_off bv) by apply (bw_off _ Hwf). change (sum_sizes (b :: l)) with (fb_size b + sum_sizes l). lia.
Qed.

Lemma iov_bytes_app m l l' : iov_bytes m (l ++ l') = iov_bytes m l ++ iov_bytes m l'.
Proof. apply bind_app. Qed.

Lemma iov_length_app l l' : iov_length (l ++ l') = iov_length l + iov_length l'.
Proof. induction l as [|v l IH]; cbn; [done|]. unfold iov_length in *. rewrite IH. lia. Qed.

Lemma length_iov_bytes m iov : Forall (fun v => 0 <= v.2) iov -> Z.of_nat (length (iov_bytes m iov)) = iov_length iov.
Proof.
  induction 1 as [|v l Hv Hl IH]; [done|]. unfold iov_bytes in *. rewrite bind_cons length_app length_mem_read. cbn.
  unfold iov_length in IH. rewrite Nat2Z.inj_add IH. lia.
Qed.

Lemma iov_bytes_agree (m m' : memory) iov :
  (forall v x, v ∈ iov -> x ∈ range v.1 v.2 -> m x = m' x) -> iov_bytes m iov = iov_bytes m' iov.
Proof.
  induction iov as [|v l IH]; intros Ha; [done|]. unfold iov_bytes in *. rewrite !bind_cons. f_equal.
  - rewrite !mem_read_range. apply fmap_agree. intros x Hx. apply (Ha v); [left|done].
  - apply IH. intros w x Hw. apply Ha. by right.
Qed.

(** ** Copying into the pipe *)

Section copy.
Context {K : Type} `{SyscallLaws K} `{!DeviceCalls K} `{!SendCalls K} `{!Outlet K}.
Context (dev stack : Z) `{!OutletLaws K dev}.

(** One buffer of memory: one [write]. *)
Lemma fuse_buf_write_pipe dst dst_off src src_off len rd f (w : world K) :
  has_flag (fb_flags dst) FUSE_BUF_FD_SEEK = false -> has_flag (fb_flags dst) FUSE_BUF_FD_RETRY = false ->
  0 <= len -> pipe_holds (w_os w) rd (fb_fd dst) f ->
  wp (fuse_buf_write dst dst_off src src_off len) (fun r w' =>
    w_mem w' = w_mem w /\ messages (w_os w') = messages (w_os w) /\
    (- 2 ^ 31 < r < 0 /\ refused (w_os w') = refused (w_os w) ++ [- r] /\ pipe_holds (w_os w') rd (fb_fd dst) f \/
     0 <= r <= len /\ (0 < len -> 0 < r) /\ refused (w_os w') = refused (w_os w) /\
     pipe_holds (w_os w') rd (fb_fd dst) (fun m => f m ++ mem_read (w_mem w) (fb_mem src + src_off) r))) w.
Proof.
  intros Hs Hr Hlen Hp. unfold fuse_buf_write. destruct (Z.to_nat len) as [|n] eqn:Hn; cbn [fuse_buf_write_loop].
  { replace len with 0 by lia. apply wp_ret. split_and!; [done|done|]. right. split_and!; [lia..|done|].
    eapply pipe_holds_ext; [|exact Hp]. intros m. cbn. by rewrite app_nil_r. }
  destruct (Z.eqb_spec len 0); [lia|]. apply wp_bind, wp_get, wp_bind. rewrite Hs. apply wp_sys.
  set (bs := mem_read _ _ _). assert (length bs = Z.to_nat len) as Hlb by apply length_mem_read.
  pose proof (sys_write_le (fb_fd dst) bs (w_os w)) as Hl. pose proof (write_pipe _ _ bs _ _ Hp) as Hw.
  destruct (sys_write (fb_fd dst) bs (w_os w)) as [[e|n'] k]; cbn [fst snd] in *; destruct Hw as (Hm & Hrf & Hw1 & Hw2).
  - cbn [Z.eqb]. apply wp_ret. split_and!; [done|done|]. left. rewrite Z.opp_involutive. split_and!; [lia|lia|done|done].
  - assert (0 < n') by (apply Hw1; intros ->; cbn in *; lia). destruct (Z.eqb_spec n' 0); [lia|]. rewrite Hr. cbn [negb].
    apply wp_ret. split_and!; [done|done|]. right. split_and!; [lia..|done|]. cbn. eapply pipe_holds_ext; [|exact Hw2].
    intros m. cbn. f_equal. unfold bs. rewrite mem_read_take //. lia.
Qed.

(** The vector [srcv'] is what is left of [srcv] after [n] bytes. *)
Definition advanced (srcv srcv' : fuse_bufvec) (n : Z) : Prop :=
  bv_wf srcv' /\ bv_buf srcv' = bv_buf srcv /\ addrs srcv' = drop (Z.to_nat n) (addrs srcv).

Definition pipe_copy_post (srcv : fuse_bufvec) (copied : Z) (wr rd : Z) (f : memory -> list Z) (w : world K)
    (x : Z * fuse_bufvec * fuse_bufvec) (w' : world K) : Prop :=
  let '(r, _, srcv') := x in
  w_mem w' = w_mem w /\ messages (w_os w') = messages (w_os w) /\
  (exists l, refused (w_os w') = refused (w_os w) ++ l /\ (r < 0 -> - r ∈ l)) /\
  (- 2 ^ 31 < r < 0 /\ copied = 0 /\ advanced srcv srcv' 0 \/
   copied <= r <= copied + rem srcv /\ (0 < rem srcv -> 0 < r) /\ advanced srcv srcv' (r - copied) /\
   pipe_holds (w_os w') rd wr (fun m => f m ++ (w_mem w <$> take (Z.to_nat (r - copied)) (addrs srcv)))).

Lemma advanced_0 srcv : bv_wf srcv -> advanced srcv srcv 0.
Proof. done. Qed.

Lemma advanced_trans v v1 v2 n n' : 0 <= n -> 0 <= n' -> advanced v v1 n -> advanced v1 v2 n' -> advanced v v2 (n + n').
Proof.
  intros ?? (? & Hb1 & Ha1) (? & Hb2 & Ha2). split_and!; [done|congruence|]. rewrite Ha2 Ha1 drop_drop. f_equal. lia.
Qed.

(** A vector of memory into the pipe. *)
Lemma fuse_buf_copy_loop_pipe flags fuel b rd : forall dstv srcv copied f (w : world K),
  bv_wf dstv -> bv_wf srcv -> bv_buf dstv = [b] -> in_memory srcv -> fb_flags b = FUSE_BUF_IS_FD ->
  0 <= copied -> rem srcv <= rem dstv -> pipe_holds (w_os w) rd (fb_fd b) f ->
  bv_count dstv - bv_idx dstv + (bv_count srcv - bv_idx srcv) < Z.of_nat fuel ->
  wp (fuse_buf_copy_loop stack fuel dstv srcv flags copied) (pipe_copy_post srcv copied (fb_fd b) rd f w) w.
Proof.
  induction fuel as [|fuel IH]; intros dstv srcv copied f w Hd Hs Hb Hmem Hfl Hc Hle Hp Hf.
  { pose proof (bw_idx _ Hd). pose proof (bw_idx _ Hs). lia. }
  cbn [fuse_buf_copy_loop]. assert (0 <= rem dstv /\ 0 <= rem srcv) as [? ?] by (unfold rem; lia).
  assert (forall w' f', w_mem w' = w_mem w -> messages (w_os w') = messages (w_os w) ->
    (exists l, refused (w_os w') = refused (w_os w) ++ l) -> pipe_holds (w_os w') rd (fb_fd b) f' -> (forall m, f' m = f m) -> (rem srcv <= 0 \/ 0 < copied) ->
    pipe_copy_post srcv copied (fb_fd b) rd f w (copied, dstv, srcv) w') as Hstop.
  { intros w' f' Hm Hmsg [l Hl] Hp' He Hr. split_and!; [done|done|exists l; split; [done|lia]|]. right. rewrite Z.sub_diag. split_and!; [lia|lia|lia|by apply advanced_0|].
    eapply pipe_holds_ext; [|exact Hp']. intros m. cbn. by rewrite app_nil_r. }
  destruct (fuse_bufvec_current srcv) as [src|] eqn:Hcs.
  2: { apply wp_ret, (Hstop w f); try done; [exists []; by rewrite app_nil_r|]. left. pose proof (addrs_current srcv Hs) as Ha. rewrite Hcs in Ha. destruct Ha as [Ha _]. unfold rem.
       by rewrite Ha. }
  destruct (fuse_bufvec_current dstv) as [dst|] eqn:Hcd.
  2: { apply wp_ret, (Hstop w f); try done; [exists []; by rewrite app_nil_r|]. left. pose proof (addrs_current dstv Hd) as Ha. rewrite Hcd in Ha. destruct Ha as [Ha _]. unfold rem in *.
       by rewrite Ha in Hle. }
  destruct (current_len _ _ Hs Hcs), (current_len _ _ Hd Hcd). cbn zeta. rewrite min_size_min.
  pose proof (addrs_current srcv Hs) as Has. rewrite Hcs in Has. destruct Has as (Hin & _ & _ & Has).
  pose proof (addrs_current dstv Hd) as Had. rewrite Hcd in Had. destruct Had as (Hind & _ & _ & _).
  rewrite Hb list_elem_of_singleton in Hind. subst dst.
  set (len := Z.min _ _). assert (len = fb_size src - bv_off srcv \/ len = fb_size b - bv_off dstv) as Hor by lia.
  assert (0 <= len <= fb_size src - bv_off srcv /\ len <= fb_size b - bv_off dstv) as [? ?] by lia.
  apply wp_bind. unfold fuse_buf_copy_one. rewrite (Hmem _ Hin) Hfl. cbn [negb andb].
  change (has_flag FUSE_BUF_IS_FD FUSE_BUF_IS_FD) with true. cbn [negb andb].
  eapply wp_mono; [apply (fuse_buf_write_pipe _ _ _ _ _ rd f); rewrite ?Hfl; done || lia|].
  intros res w1 (Hm1 & Hmsg1 & Hres). cbn beta in *. destruct (Z.ltb_spec res 0).
  { destruct Hres as [(Hr & Hrf1 & Hp1)|]; [|lia]. apply wp_ret. destruct (Z.eqb_spec copied 0) as [->|].
    - split_and!; [done|done|exists [- res]; split; [done|by left]|]. left. split_and!; [lia|lia|done|by apply advanced_0].
    - apply (Hstop w1 f); try done; [by eexists|lia]. }
  destruct Hres as [|(Hr & Hpos & Hrf1 & Hp1)]; [lia|].
  assert (mem_read (w_mem w) (fb_mem src + bv_off srcv) res = w_mem w <$> take (Z.to_nat res) (addrs srcv)) as Hbytes.
  { rewrite Has take_app_le; [rewrite length_range; lia|]. rewrite fmap_take -mem_read_range mem_read_take //. lia. }
  apply wp_bind. eapply wp_mono; [eapply fuse_bufvec_advance_spec; [done|done|lia]|].
  intros [more srcv1] w2 (-> & Hs1 & Hbs1 & Ha1 & Hn1 & Hi1 & Hle1).
  assert (advanced srcv srcv1 res) as Hadv by done.
  assert (rem srcv1 = rem srcv - res) as Hr1 by (unfold rem; rewrite Ha1 length_drop; unfold rem in *; lia).
  assert (forall dv, (0 < rem srcv -> 0 < copied + res) ->
    pipe_copy_post srcv copied (fb_fd b) rd f w (copied + res, dv, srcv1) w1) as Hdone.
  { intros dv Hz. split_and!; [done|done|exists []; rewrite app_nil_r; split; [done|lia]|]. right. replace (copied + res - copied) with res by lia. split_and!; [lia|lia|done|done|].
    eapply pipe_holds_ext; [|exact Hp1]. intros m. cbn. by rewrite Hbytes. }
  destruct more; cbn [negb].
  2: { apply wp_ret, Hdone. assert (rem srcv1 = 0) by (unfold rem; by rewrite (Hn1 eq_refl)). lia. }
  apply wp_bind. eapply wp_mono; [eapply fuse_bufvec_advance_spec; [done|done|lia]|].
  intros [more2 dstv1] w3 (-> & Hd1 & Hb1 & Ha2 & Hn2 & Hi2 & Hle2).
  assert (rem dstv1 = rem dstv - res) as Hr2 by (unfold rem; rewrite Ha2 length_drop; unfold rem in *; lia).
  destruct more2; cbn [negb].
  2: { apply wp_ret, Hdone. assert (rem dstv1 = 0) by (unfold rem; by rewrite (Hn2 eq_refl)). lia. }
  destruct (Z.ltb_spec res len); [apply wp_ret, Hdone; lia|].
  assert (bv_count srcv1 = bv_count srcv) by by rewrite (bw_count _ Hs1) (bw_count _ Hs) Hbs1.
  assert (bv_count dstv1 = bv_count dstv) by by rewrite (bw_count _ Hd1) (bw_count _ Hd) Hb1.
  eapply wp_mono; [eapply (IH dstv1 srcv1 (copied + res)); [done|done|congruence|unfold in_memory; by rewrite Hbs1|done|lia|lia|exact Hp1|]|].
  - destruct Hor; lia.
  - intros [[r dv] sv] w2 (Hm2 & Hmsg2 & Hrf2 & Hpost). rewrite Hm1 in Hpost. rewrite Hrf1 in Hrf2. split_and!; [congruence|congruence|done|].
    destruct Hpost as [(Hr' & Hz & Hadv')|(Hr' & Hz & Hadv' & Hp2)].
    + left. assert (res = 0) as -> by lia. split_and!; [lia|lia|lia|]. by apply (advanced_trans _ _ _ 0 0 ltac:(lia) ltac:(lia) Hadv).
    + right. split_and!; [lia|lia|lia| |].
      * replace (r - copied) with (res + (r - (copied + res))) by lia. by eapply advanced_trans; [| |exact Hadv|exact Hadv']; lia.
      * eapply pipe_holds_ext; [|exact Hp2]. intros m. cbn. rewrite Hbytes Ha1 -app_assoc -fmap_app. f_equal.
        replace (Z.to_nat (r - copied)) with (Z.to_nat res + Z.to_nat (r - (copied + res)))%nat by lia. by rewrite take_take_drop.
Qed.

(** Copying between memory asks nothing of the kernel. *)
Lemma fuse_bufvec_advance_keeps bv len more bv' (w w' : world K) :
  fuse_bufvec_advance bv len w = Ok ((more, bv'), w') -> w' = w /\ bv_buf bv' = bv_buf bv.
Proof.
  unfold fuse_bufvec_advance, assert, mret, M_ret, mbind, M_bind.
  destruct (fuse_bufvec_current bv); [|by intros [= <- <- <-]].
  destruct (_ <=? _); [|done]. destruct (_ =? _); [|by intros [= <- <- <-]].
  destruct (_ <? _); [|done]. by destruct (_ =? _); intros [= <- <- <-].
Qed.

Lemma current_in bv b : fuse_bufvec_current bv = Some b -> b ∈ bv_buf bv.
Proof. unfold fuse_bufvec_current. destruct (_ <? _); [|done]. apply list_elem_of_lookup_2. Qed.

Lemma fuse_buf_copy_loop_os flags fuel : forall dstv srcv copied x (w w' : world K), in_memory dstv -> in_memory srcv ->
  fuse_buf_copy_loop stack fuel dstv srcv flags copied w = Ok (x, w') -> w_os w' = w_os w.
Proof.
  induction fuel as [|fuel IH]; intros dstv srcv copied x w w' Hd Hs; [done|]. cbn [fuse_buf_copy_loop].
  destruct (fuse_bufvec_current srcv) as [src|] eqn:Hcs; [|by intros [= <- <-]].
  destruct (fuse_bufvec_current dstv) as [dst|] eqn:Hcd; [|by intros [= <- <-]].
  apply current_in, Hs in Hcs. apply current_in, Hd in Hcd. unfold fuse_buf_copy_one. rewrite Hcs Hcd. cbn [negb andb].
  unfold mbind at 1, M_bind at 1.
  match goal with |- context [match ?c w with _ => _ end] => assert (exists n w1, c w = Ok (n, w1) /\ w_os w1 = w_os w) as (n & w1 & Hc1 & Ho1) end.
  { unfold mbind, M_bind. destruct (_ =? _); cbn; eauto. }
  rewrite Hc1. destruct (_ <? 0); [intros [= <- <-]; done|]. unfold mbind at 1, M_bind at 1.
  destruct (fuse_bufvec_advance srcv n w1) as [[[more srcv1] w2]| |] eqn:Ha1; [|done..].
  apply fuse_bufvec_advance_keeps in Ha1 as [-> Hb1]. destruct more; cbn [negb]; [|intros [= <- <-]; done].
  unfold mbind at 1, M_bind at 1.
  destruct (fuse_bufvec_advance dstv n w1) as [[[more dstv1] w2]| |] eqn:Ha2; [|done..].
  apply fuse_bufvec_advance_keeps in Ha2 as [-> Hb2]. destruct more; cbn [negb]; [|intros [= <- <-]; done].
  destruct (n <? _); [intros [= <- <-]; done|]. intros Hrun. rewrite -Ho1.
  eapply IH; [..|exact Hrun]; unfold in_memory; rewrite ?Hb1 ?Hb2 //.
Qed.
End copy.

(** ** Sending *)

Section safe.
Context {K : Type} `{SyscallLaws K} `{!DeviceCalls K} `{!SendCalls K} `{!Outlet K}.
Context (pagesize dev stack : Z) (alloc_ok : nat -> bool) `{!OutletLaws K dev}.
Abbreviation MN := (M (send K)).
Abbreviation os s := (w_os (rc_world (sn_rc s))).
Abbreviation mem s := (w_mem (rc_world (sn_rc s))).

Definition with_world (s : send K) (m : memory) (k : K) : send K :=
  mkSend (set_rc_world (sn_rc s) (mkWorld m k)) (sn_broken s).
Definition with_rc (s : send K) (r : recv K) : send K := mkSend r (sn_broken s).

Lemma wp_on_rc {A} (m : M (recv K) A) (Q : A -> send K -> Prop) s :
  wp m (fun a r => Q a (with_rc s r)) (sn_rc s) -> wp (on_rc m) Q s.
Proof. unfold wp, on_rc. by destruct (m (sn_rc s)) as [[a r]| |]. Qed.

Lemma wp_kernel {A} (call : K -> A * K) (Q : A -> send K -> Prop) s :
  (let '(a, k) := call (os s) in Q a (with_world s (mem s) k)) -> wp (kernel call) Q s.
Proof. intros HQ. apply wp_on_rc, wp_on_sys. by destruct (call (os s)). Qed.

Lemma wp_kernel_mem {A} (call : memory -> K -> A * K) (Q : A -> send K -> Prop) s :
  (let '(a, k) := call (mem s) (os s) in Q a (with_world s (mem s) k)) -> wp (kernel_mem call) Q s.
Proof. intros HQ. apply wp_on_rc, wp_on_world. unfold wp. by destruct (call (mem s) (os s)). Qed.

Hypothesis Hpage : 0 < pagesize.

(** The vectors in front of the data, and what was there at first: the first unused
    address, the memory, the blocks, the messages, the refusals, the allocations. *)
Variables (hdr hlen : Z) (iov' : list (Z * Z)) (brk0 : Z) (m0 : memory) (blocks0 : gmap Z Z) (M0 : list (list Z)) (R0 : list Z)
  (T0 : nat).
Abbreviation iov := ((hdr, hlen) :: iov').
Hypothesis Hiov : Forall (fun v => 0 <= v.2 /\ v.1 + v.2 <= brk0) iov.
Hypothesis Hhdr : 4 <= hlen.
Hypothesis Hbrk0 : 0 < brk0.
Hypothesis Hblocks : forall a, is_Some (blocks0 !! a) -> a < brk0.

(** Nothing but the length field of the header has changed below [brk0]. *)
Definition agree (m : memory) : Prop := forall x, x < brk0 -> x ∉ range hdr 4 -> m x = m0 x.

(** The message with these data. *)
Definition framed (data : list Z) : list Z :=
  iov_bytes (mem_write m0 hdr (le 4 (u32 (iov_length iov + Z.of_nat (length data))))) iov ++ data.

(** The pipe of the thread is empty. *)
Definition pipe_empty (s : send K) : Prop :=
  forall llp, rc_pipe (sn_rc s) = Some llp -> pipe_holds (os s) (lp_rd llp) (lp_wr llp) (fun _ => []).

(** While nothing has been sent. *)
Record sending (s : send K) : Prop := {
  sg_mem : agree (mem s);
  sg_blocks : rc_blocks (sn_rc s) = blocks0;
  sg_brk : brk0 <= rc_brk (sn_rc s);
  sg_msgs : messages (os s) = M0;
  sg_refused : R0 `prefix_of` refused (os s);
  sg_tick : (T0 <= rc_tick (sn_rc s))%nat;
}.

(** Why [r] is reported: an allocation has failed, or a call was refused. *)
Definition excused (r : Z) (k : K) (t : nat) : Prop :=
  (r = ENOMEM /\ R0 `prefix_of` refused k /\ exists i, (T0 <= i < t)%nat /\ alloc_ok i = false) \/
  (exists l, refused k = R0 ++ l /\ r ∈ l).

(** In the end: [0] and the message has been sent, an error to be replied and nothing
    has been sent, or an error of the device, which has taken nothing or, when it took
    too little, the front of the message. *)
Definition verdict (data : list Z) (r : Z) (k : K) (t : nat) : Prop :=
  (r = 0 /\ messages k = M0 ++ [framed data]) \/ (0 < r /\ messages k = M0 /\ excused r k t) \/
  (r < 0 /\ excused r k t /\ (messages k = M0 \/ exists n, messages k = M0 ++ [take n (framed data)])).

Definition sent_post (data : list Z) (r : Z) (s : send K) : Prop :=
  agree (mem s) /\ rc_blocks (sn_rc s) = blocks0 /\ brk0 <= rc_brk (sn_rc s) /\ pipe_empty s /\
  verdict data r (os s) (rc_tick (sn_rc s)).

Lemma trail_eq (k k' : K) : trail k' = trail k <-> messages k' = messages k /\ refused k' = refused k.
Proof. unfold trail. split; [by intros [= -> ->]|by intros [-> ->]]. Qed.

Lemma excused_trail r k k' t : refused k' = refused k -> excused r k t -> excused r k' t.
Proof. unfold excused. by intros ->. Qed.

Lemma verdict_trail data r k k' t : trail k' = trail k -> verdict data r k t -> verdict data r k' t.
Proof.
  intros [Hm Hr]%trail_eq [[? ?]|[(? & ? & ?)|(? & ? & Hx)]].
  - left. split; [done|congruence].
  - right. left. split_and!; [done|congruence|by eapply excused_trail].
  - right. right. split_and!; [done|by eapply excused_trail|]. destruct Hx as [?|[n ?]]; [left; congruence|right; exists n; congruence].
Qed.

Lemma refusal_excused r k k' t l : R0 `prefix_of` refused k -> refused k' = refused k ++ l -> r ∈ l -> excused r k' t.
Proof. intros [l0 Hl0] Hk Hr. right. exists (l0 ++ l). rewrite Hk Hl0 app_assoc. split; [done|]. apply elem_of_app. by right. Qed.

Lemma no_memory_excused k i t : R0 `prefix_of` refused k -> alloc_ok i = false -> (T0 <= i < t)%nat -> excused ENOMEM k t.
Proof. intros Hk Hi Ht. left. split_and!; [done|done|]. by exists i. Qed.

Lemma prefix_refused (k k' : K) l : refused k' = refused k ++ l -> R0 `prefix_of` refused k -> R0 `prefix_of` refused k'.
Proof. intros -> Hp. by apply prefix_app_r. Qed.

Lemma cut_short_spec n len : n <> len -> cut_short n len = [- EIO].
Proof. intros Hn. unfold cut_short. by rewrite (proj2 (Z.eqb_neq _ _) Hn). Qed.

Lemma cut_short_same n : cut_short n n = [].
Proof. unfold cut_short. by rewrite Z.eqb_refl. Qed.

Lemma agree_write m a bs : agree m -> brk0 <= a -> agree (mem_write m a bs).
Proof.
  intros Ha Hle x Hx Hr. rewrite mem_write_other; [|by apply Ha]. rewrite elem_of_range. lia.
Qed.

Lemma hdr_bound : hdr + 4 <= brk0.
Proof. apply list.Forall_cons in Hiov as [[??] _]. cbn in *. lia. Qed.

Lemma agree_len m len : agree m -> agree (mem_write m hdr (le 4 len)).
Proof. intros Ha x Hx Hr. rewrite mem_write_other; [by rewrite length_le|by apply Ha]. Qed.

(** The vectors with the length filled in. *)
Lemma iov_bytes_len m len : agree m ->
  iov_bytes (mem_write m hdr (le 4 len)) iov = iov_bytes (mem_write m0 hdr (le 4 len)) iov.
Proof.
  intros Ha. apply iov_bytes_agree. intros v x Hv Hx.
  pose proof (proj1 (list.Forall_forall _ _) Hiov v Hv) as [Hv1 Hv2]. apply elem_of_range in Hx.
  unfold mem_write. rewrite length_le. destruct (_ && _) eqn:Hb; [done|]. apply Ha; [lia|]. rewrite elem_of_range.
  apply andb_false_iff in Hb as [Hb|Hb]; [apply Z.leb_gt in Hb|apply Z.ltb_ge in Hb]; lia.
Qed.

Lemma iov_nonneg : Forall (fun v : Z * Z => 0 <= v.2) iov.
Proof. eapply list.Forall_impl; [exact Hiov|]. cbn. tauto. Qed.

Lemma blocks_fresh a : brk0 <= a -> blocks0 !! a = None.
Proof. intros Ha. destruct (blocks0 !! a) eqn:Ho; [|done]. pose proof (Hblocks a ltac:(eauto)). lia. Qed.

Lemma wp_free_block a size B (Q : unit -> send K -> Prop) s : rc_blocks (sn_rc s) = <[a := size]> B -> B !! a = None ->
  Q tt (with_rc s (set_rc_heap (sn_rc s) B (rc_brk (sn_rc s)))) -> wp (on_rc (free_block a)) Q s.
Proof.
  intros Hb Ha HQ. apply wp_on_rc. unfold free_block. wp_step. wp_step. wp_step. rewrite Hb.
  apply wp_assert; [by apply bool_decide_eq_true; rewrite lookup_insert_eq|]. wp_steps. by rewrite delete_insert_id.
Qed.

Lemma wp_new_block size (Q : Z -> send K -> Prop) s : 0 < rc_brk (sn_rc s) ->
  (alloc_ok (rc_tick (sn_rc s)) = false -> Q 0 (with_rc s (set_rc_tick (sn_rc s) (S (rc_tick (sn_rc s)))))) ->
  (forall i, i = S (rc_tick (sn_rc s)) -> rc_brk (sn_rc s) <> 0 -> Q (rc_brk (sn_rc s))
    (with_rc s (set_rc_tick (set_rc_heap (sn_rc s) (<[rc_brk (sn_rc s) := size]> (rc_blocks (sn_rc s))) (rc_brk (sn_rc s) + size + pagesize)) i))) ->
  wp (on_rc (new_block pagesize alloc_ok size)) Q s.
Proof.
  intros Hb HQ0 HQ1. apply wp_on_rc. unfold new_block. wp_step. apply wp_tick.
  destruct (alloc_ok _) eqn:Ho; cbn [negb]; wp_steps; cbn.
  - apply HQ1; [done|lia].
  - by apply HQ0.
Qed.

(** [fuse_send_msg] with the data in a last vector. *)
Lemma fuse_send_msg_wp a len data (Q : Z -> send K -> Prop) s :
  agree (mem s) -> messages (os s) = M0 -> R0 `prefix_of` refused (os s) -> mem_read (mem s) a len = data -> 0 <= len -> (forall x, x ∈ range a len -> x ∉ range hdr 4) ->
  (forall r k, (forall rd wr f, pipe_holds (os s) rd wr f -> pipe_holds k rd wr f) -> verdict data r k (rc_tick (sn_rc s)) ->
    Q r (with_world s (mem_write (mem s) hdr (le 4 (u32 (iov_length iov + len)))) k)) ->
  wp (fuse_send_msg dev (iov ++ [(a, len)])) Q s.
Proof.
  intros Ha HM HR Hd Hlen Hdis HQ. unfold fuse_send_msg, set_out_len. cbn [app]. wp_step. apply wp_on_rc, wp_on_world. wp_steps.
  apply wp_kernel. cbn [sn_rc with_rc rc_world set_rc_world w_mem w_os].
  change ((hdr, hlen) :: iov' ++ [(a, len)]) with (iov ++ [(a, len)]). rewrite iov_length_app.
  replace (iov_length [(a, len)]) with len by (cbn; lia).
  assert (length data = Z.to_nat len) as Hl by (rewrite -Hd; apply length_mem_read).
  set (m1 := mem_write _ _ _). assert (iov_bytes m1 (iov ++ [(a, len)]) = framed data) as ->.
  { rewrite iov_bytes_app /framed Hl Z2Nat.id //. f_equal; [by apply iov_bytes_len|]. unfold iov_bytes. rewrite bind_cons app_nil_r.
    rewrite -Hd !mem_read_range. apply fmap_agree. intros x Hx. apply mem_write_other. rewrite length_le. by apply Hdis. }
  pose proof (writev_device (framed data) (os s)) as Hw. destruct (sys_writev dev (framed data) (os s)) as [[e|n] k].
  - destruct Hw as [(He & Hm & Hr) Hp]. wp_steps. apply (HQ (- e) k Hp). right. right.
    split_and!; [lia|eapply refusal_excused; [exact HR|exact Hr|by left]|]. left. congruence.
  - destruct Hw as [[Hm _] Hp]. wp_steps. apply (HQ 0 k Hp). left. split; [done|]. congruence.
Qed.

(** *** The data *)

Definition source_ok (buf : fuse_bufvec) : Prop :=
  bv_wf buf /\ in_memory buf /\ forall x, x ∈ addrs buf -> x < brk0 /\ x ∉ range hdr 4.

Definition data_of (buf : fuse_bufvec) : list Z := m0 <$> addrs buf.

Lemma length_data buf : Z.of_nat (length (data_of buf)) = rem buf.
Proof. unfold data_of, rem. by rewrite length_fmap. Qed.

Lemma data_agree buf m (l : list Z) : source_ok buf -> agree m -> (forall x, x ∈ l -> x ∈ addrs buf) -> m <$> l = m0 <$> l.
Proof. intros (_ & _ & Hx) Ha Hl. apply fmap_agree. intros x Hi. apply Ha; by apply Hx, Hl. Qed.

Lemma mem_bufvec_wf len a off : 0 <= off <= len -> len < 2 ^ 31 -> bv_wf (mem_bufvec len a off).
Proof.
  intros Ho Hl. split; cbn; try lia.
  - intros b ->%list_elem_of_singleton. cbn. unfold OFFSET_MAX. lia.
  - intros b [= <-]. cbn. lia.
Qed.

Lemma mem_bufvec_addrs len a off : addrs (mem_bufvec len a off) = range (a + off) (len - off).
Proof. unfold addrs, mem_bufvec, buf_addrs. cbn -[range]. apply app_nil_r. Qed.

(** All that is left goes to the new block. *)
Lemma buf_copy_mem_wp buf len a off (Q : Z * fuse_bufvec -> send K -> Prop) s :
  source_ok buf -> agree (mem s) -> 0 <= off -> rem buf <= len - off -> len < 2 ^ 31 -> brk0 <= a ->
  (forall m v, mem_read m (a + off) (rem buf) = data_of buf ->
    (forall x, x ∉ range (a + off) (rem buf) -> m x = mem s x) -> Q (rem buf, v) (with_world s m (os s))) ->
  wp (buf_copy stack (mem_bufvec len a off) buf 0) Q s.
Proof.
  intros Hok Ha Ho Hr Hl Hb HQ. pose proof Hok as (Hwf & Hm & Hx). assert (0 <= rem buf) by (unfold rem; lia).
  assert (rem (mem_bufvec len a off) = len - off) as Hrd.
  { unfold rem at 1. rewrite mem_bufvec_addrs length_range. lia. }
  unfold buf_copy. wp_step. apply wp_on_rc, wp_on_world. unfold fuse_buf_copy.
  assert (in_memory (mem_bufvec len a off)) as Hmd by by intros b ->%list_elem_of_singleton.
  eapply wp_mono.
  { apply wp_run, fuse_buf_copy_loop_mem; [apply mem_bufvec_wf; lia|done|done|done|lia| | |].
    - rewrite mem_bufvec_addrs. apply NoDup_range.
    - intros x Hxs. rewrite mem_bufvec_addrs elem_of_range. destruct (Hx x Hxs). lia.
    - cbn -[Z.of_nat]. pose proof (bw_idx _ Hwf). rewrite (bw_count _ Hwf). lia. }
  intros [[res dv] sv] w' [[Hres [Hc1 Hc2]] Hrun]. cbn in Hres. apply fuse_buf_copy_loop_os in Hrun; [|done|done].
  rewrite Hrd Z.min_r // in Hres Hc1 Hc2. wp_steps. rewrite swrap_id; [lia|]. replace res with (rem buf) by lia. destruct w' as [m' k'].
  cbn in Hrun, Hc1, Hc2. subst k'. rewrite mem_bufvec_addrs in Hc1, Hc2.
  assert (take (Z.to_nat (rem buf)) (range (a + off) (len - off)) = range (a + off) (rem buf)) as Ht.
  { rewrite (range_split _ _ (rem buf)); [lia|]. rewrite take_app_length' //. by rewrite length_range. }
  rewrite Ht in Hc1, Hc2. apply HQ; [|exact Hc2]. rewrite mem_read_range Hc1 take_ge; [unfold rem; lia|].
  by apply (data_agree buf).
Qed.

Lemma sent_post_intro data r s m k :
  agree (mem s) -> rc_blocks (sn_rc s) = blocks0 -> brk0 <= rc_brk (sn_rc s) ->
  (forall llp, rc_pipe (sn_rc s) = Some llp -> pipe_holds k (lp_rd llp) (lp_wr llp) (fun _ => [])) ->
  verdict data r k (rc_tick (sn_rc s)) -> agree m -> sent_post data r (with_world s m k).
Proof. intros ?? ? ? ? ?. split_and!; done. Qed.

Lemma range_above a len x : brk0 <= a -> x ∈ range a len -> x ∉ range hdr 4.
Proof. pose proof hdr_bound. rewrite !elem_of_range. lia. Qed.

(** Through memory. *)
Lemma fallback_wp buf len s : sending s -> pipe_empty s -> source_ok buf -> len = sum_sizes (bv_buf buf) -> len < 2 ^ 31 ->
  wp (fuse_send_data_iov_fallback pagesize dev stack alloc_ok iov buf len) (sent_post (data_of buf)) s.
Proof.
  intros [Hm Hb Hk HM HR HT] Hp Hok Hlen Hl31. pose proof Hok as (Hwf & Hmem & Hx).
  pose proof (sum_sizes_nonneg _ (bv_sizes_nonneg _ Hwf)) as H0'. pose proof (rem_le_sizes _ Hwf) as Hrem.
  unfold fuse_send_data_iov_fallback. destruct (plain_buffer buf) as [b|] eqn:Hpb.
  - unfold plain_buffer in Hpb. destruct (bv_buf buf) as [|b' l] eqn:Hbuf; [done|].
    destruct (_ && _) eqn:Hc; [|done]. simplify_eq. rewrite !andb_true_iff !Z.eqb_eq in Hc. destruct Hc as [[[Hc Hi] Ho] _].
    assert (l = []) as ->. { pose proof (bw_count _ Hwf) as Hcnt. rewrite Hbuf Hc in Hcnt. destruct l; [done|cbn in Hcnt; lia]. }
    assert (addrs buf = range (fb_mem b) (fb_size b)) as Ha.
    { unfold addrs, buf_addrs. rewrite Hi Ho Hbuf drop_0. rewrite Z.add_0_r Z.sub_0_r. apply app_nil_r. }
    replace (sum_sizes [b]) with (fb_size b) in * by (cbn; lia). apply (fuse_send_msg_wp _ _ (data_of buf)); [done|done|done| |lia|..].
    + unfold data_of. rewrite mem_read_range Ha. apply (data_agree buf); [done|done|]. by rewrite Ha.
    + rewrite -Ha. apply Hx.
    + intros r k Hpk Hv. apply sent_post_intro; auto. by apply agree_len.
  - wp_step. apply wp_new_block; [lia|..].
    + intros Ho. cbn [Z.eqb]. wp_steps. split_and!; [done..|]. right. left. split_and!; [done|done|].
      eapply no_memory_excused; [exact HR|exact Ho|cbn; lia].
    + intros i Hi Hne. destruct (Z.eqb_spec (rc_brk (sn_rc s)) 0); [done|]. wp_step.
      assert (0 <= rem buf) by (unfold rem; lia).
      eapply buf_copy_mem_wp; [done|done|lia|lia|lia|lia|]. intros m v Hd Hout. rewrite Z.add_0_r in Hd Hout.
      assert (agree m) as Hm' by (intros x Hxb Hxr; rewrite Hout; [rewrite elem_of_range; lia|by apply Hm]).
      destruct (Z.ltb_spec (rem buf) 0); [lia|]. wp_step.
      eapply fuse_send_msg_wp; [done|done|done|done|lia|intros x; apply range_above; lia|].
      intros r k Hpk Hv. wp_step. eapply (wp_free_block _ len blocks0); [cbn; by rewrite Hb|apply blocks_fresh; lia|]. wp_steps.
      split_and!; [by apply agree_len|done|cbn; lia|intros llp Hllp; by apply Hpk, Hp|done].
Qed.

Lemma fuse_ll_pipe_free_wp llp (Q : unit -> send K -> Prop) s :
  (forall k, trail k = trail (os s) -> Q tt (with_world s (mem s) k)) -> wp (on_rc (fuse_ll_pipe_free llp)) Q s.
Proof.
  intros HQ. apply wp_on_rc. unfold fuse_ll_pipe_free. wp_step. apply wp_on_sys. apply wp_on_sys. apply HQ.
  cbn. by rewrite !close_pipe.
Qed.

(** The pipe is closed: what it held does not matter. *)
Lemma clear_pipe_wp data r s : agree (mem s) -> rc_blocks (sn_rc s) = blocks0 -> brk0 <= rc_brk (sn_rc s) ->
  verdict data r (os s) (rc_tick (sn_rc s)) -> wp (clear_pipe r) (sent_post data) s.
Proof.
  intros Ha Hb Hk Hv. unfold clear_pipe. wp_step. unfold fuse_ll_clear_pipe.
  assert (forall k s', trail k = trail (os s) -> sn_rc s' = set_rc_pipe (sn_rc s) None -> sent_post data r (with_world s' (mem s) k)) as Hend.
  { intros k s' Hmk Hs'. split_and!; cbn; rewrite ?Hs' //.
    - intros llp. cbn. by rewrite Hs'.
    - by eapply verdict_trail. }
  apply wp_on_rc. wp_steps. destruct (rc_pipe (sn_rc s)) as [llp|] eqn:Hp.
  - wp_step. wp_step. unfold fuse_ll_pipe_free. wp_step. apply wp_on_sys, wp_on_sys. wp_steps.
    apply (Hend _ (with_rc s (set_rc_pipe (sn_rc s) None))); [|done]. cbn. by rewrite !close_pipe.
  - wp_steps. split_and!; [done|done|done| |done]. intros llp. cbn. by rewrite Hp.
Qed.

(** The pipe of the thread is [llp], perhaps with another size. *)
Definition pipe_is (s : send K) (llp : fuse_ll_pipe) : Prop :=
  exists llp', rc_pipe (sn_rc s) = Some llp' /\ lp_rd llp' = lp_rd llp /\ lp_wr llp' = lp_wr llp.

(** The pipe holds the vectors, whatever is in them then, and [data]. *)
Definition pipe_ready (s : send K) (llp : fuse_ll_pipe) (data : list Z) : Prop :=
  pipe_is s llp /\ pipe_holds (os s) (lp_rd llp) (lp_wr llp) (fun m => iov_bytes m iov ++ data).

(** The message is moved from the pipe to the device. *)
Lemma send_pipe_wp llp data flags s : sending s -> pipe_ready s llp data ->
  iov_length iov + Z.of_nat (length data) < 2 ^ 31 ->
  wp (send_pipe dev iov llp (Z.of_nat (length data)) flags) (sent_post data) s.
Proof.
  intros [Hm Hb Hk HM HR HT] [(llp' & Hp & Hrd & Hwr) Hh] Hl. unfold send_pipe, set_out_len.
  pose proof (length_iov_bytes m0 _ iov_nonneg) as Hil.
  wp_step. apply wp_on_rc, wp_on_world. wp_steps. apply wp_kernel_mem. cbn [sn_rc with_rc rc_world set_rc_world w_mem w_os].
  set (m1 := mem_write _ _ _). set (fl := if _ then _ else _). set (ol := u32 _) in *.
  assert (ol = iov_length iov + Z.of_nat (length data)) as Hol by (unfold ol; apply wrap_small; lia).
  assert (agree m1) as Ha1 by by apply agree_len.
  assert (iov_bytes m1 iov ++ data = framed data) as Hfr by (unfold framed; f_equal; by apply iov_bytes_len).
  pose proof (splice_out_pipe _ _ ol fl m1 _ _ Hh) as Hs.
  destruct (sys_splice_out (lp_rd llp) dev ol fl m1 (os s)) as [[e|n] k].
  - destruct Hs as (He & Hmk & Hrk). apply clear_pipe_wp; try done. right. right.
    split_and!; [lia|eapply refusal_excused; [exact HR|exact Hrk|by left]|]. left. cbn. congruence.
  - destruct Hs as (Hmk & Hrk & Hpk). destruct (Z.eqb_spec n ol) as [->|Hne]; cbn [negb].
    2: { rewrite (cut_short_spec _ _ Hne) in Hrk. apply clear_pipe_wp; try done. right. right.
         split_and!; [done|eapply refusal_excused; [exact HR|exact Hrk|by left]|]. right. exists (Z.to_nat n).
         cbn -[iov_bytes take]. by rewrite Hmk HM Hfr. }
    assert (forall m, Z.to_nat ol = length (iov_bytes m iov ++ data)) as Hlen.
    { intros m. rewrite length_app. pose proof (length_iov_bytes m _ iov_nonneg). lia. }
    wp_steps. split_and!; [done|done|done| |].
    + intros l. cbn. rewrite Hp. intros [= <-]. rewrite Hrd Hwr. eapply pipe_holds_ext; [|exact Hpk]. intros m. cbn beta.
      apply drop_ge. by rewrite -Hlen.
    + left. split; [done|]. rewrite -Hfr. cbn -[iov_bytes take]. rewrite Hmk HM. do 2 f_equal. apply take_ge. by rewrite -Hlen.
Qed.

Lemma read_back_wp rd wr f a len (Q : Z -> send K -> Prop) s : pipe_holds (os s) rd wr f -> brk0 <= a -> 0 <= len -> agree (mem s) ->
  (forall m k, agree m -> messages k = messages (os s) -> refused k = refused (os s) ++ [- EIO] -> Q (- EIO) (with_world s m k)) ->
  (forall bs k, Z.of_nat (length bs) = len -> bs = take (Z.to_nat len) (f (mem s)) -> trail k = trail (os s) ->
    pipe_holds k rd wr (fun m => drop (Z.to_nat len) (f m)) -> Q 0 (with_world s (mem_write (mem s) a bs) k)) ->
  wp (read_back rd a len) Q s.
Proof.
  intros Hp Ha Hlen Hm Hbad Hgood. unfold read_back. wp_step. apply wp_kernel_mem.
  pose proof (read_back_pipe _ _ len (mem s) _ _ Hp) as Hr. destruct (sys_read_back rd len (mem s) (os s)) as [[e|bs] k].
  - wp_steps. apply Hbad; [done|apply Hr..].
  - destruct Hr as (Hmk & Hrk & Hbs & Hpk). wp_step. apply wp_on_rc, wp_on_world. wp_steps.
    destruct (Z.eqb_spec (Z.of_nat (length bs)) len) as [Hl|Hl]; cbn [negb].
    + apply (Hgood bs k); [done| |apply trail_eq; split; [done|by rewrite Hrk Hl cut_short_same app_nil_r]|];
        replace (Z.to_nat len) with (length bs) by lia; done.
    + apply (Hbad (mem_write (mem s) a bs) k); [by apply agree_write|done|by rewrite Hrk cut_short_spec].
Qed.

Lemma mem_read_write_other m a bs b len : b + len <= a \/ a + Z.of_nat (length bs) <= b ->
  mem_read (mem_write m a bs) b len = mem_read m b len.
Proof.
  intros Hd. rewrite !mem_read_range. apply fmap_agree. intros x Hx%elem_of_range. apply mem_write_other.
  rewrite elem_of_range. lia.
Qed.

Lemma mem_read_write m a bs : mem_read (mem_write m a bs) a (Z.of_nat (length bs)) = bs.
Proof. rewrite mem_read_range. apply mem_write_range. Qed.

(** The rest by way of memory, with what is in the pipe. *)
Lemma send_rest_wp llp buf0 buf now len flags s : sending s -> source_ok buf0 -> source_ok buf -> len = sum_sizes (bv_buf buf0) ->
  iov_length iov + len < 2 ^ 31 -> 0 <= now <= rem buf0 -> data_of buf = drop (Z.to_nat now) (data_of buf0) ->
  pipe_ready s llp (take (Z.to_nat now) (data_of buf0)) ->
  wp (send_rest pagesize dev stack alloc_ok iov llp buf len now flags) (sent_post (data_of buf0)) s.
Proof.
  intros Hsg Hok0 Hok Hlen Hl31 Hnow Hrest Hready. pose proof Hsg as [Hm Hb Hk HM HR HT]. pose proof Hready as [(llp' & Hp & Hrd & Hwr) Hh].
  pose proof (rem_le_sizes _ (proj1 Hok0)) as Hle. pose proof (length_data buf0) as Hl0. pose proof (length_data buf) as Hl1.
  assert (rem buf = rem buf0 - now) as Hrem by (rewrite -Hl1 Hrest length_drop; lia).
  assert (0 <= iov_length iov) as Hil by (rewrite -(length_iov_bytes m0 _ iov_nonneg); lia).
  assert (forall k i t, messages k = M0 -> R0 `prefix_of` refused k -> alloc_ok i = false -> (T0 <= i < t)%nat -> verdict (data_of buf0) ENOMEM k t) as Hnomem.
  { intros k i t0 Hk0 HR0 Hi Ht. right. left. split_and!; [done|done|by eapply no_memory_excused]. }
  assert (forall k k' t, R0 `prefix_of` refused k -> messages k' = M0 -> refused k' = refused k ++ [- EIO] ->
    verdict (data_of buf0) (- EIO) k' t) as Heio.
  { intros k k' t0 Hk0 Hm0 Hr0. right. right. split_and!; [done|eapply refusal_excused; [exact Hk0|exact Hr0|by left]|by left]. }
  set (B := rc_brk (sn_rc s)) in *.
  unfold send_rest. wp_step. apply wp_new_block; [lia|..].
  { intros Ho. cbn [Z.eqb]. apply clear_pipe_wp; try done. eapply Hnomem; [done|exact HR|exact Ho|cbn; lia]. }
  intros i Hi Hne. fold B. destruct (Z.eqb_spec B 0); [done|]. wp_step.
  eapply buf_copy_mem_wp; [done|done|lia|lia|lia|done|]. intros m v Hd Hout.
  assert (agree m) as Hm' by (intros x Hxb Hxr; rewrite Hout; [rewrite elem_of_range; lia|by apply Hm]).
  destruct (Z.ltb_spec 0 (rem buf)) as [Hpos|].
  2: { wp_step. eapply (wp_free_block _ len blocks0); [cbn; by rewrite Hb|by apply blocks_fresh|].
       rewrite (take_ge (data_of buf0)) in Hready; [lia|]. replace now with (Z.of_nat (length (data_of buf0))) by lia.
       apply send_pipe_wp; [split; [done|done|cbn; lia|done|done|cbn; lia]|done|lia]. }
  wp_step. apply wp_new_block; [cbn; lia|..].
  { intros Ho. cbn [Z.eqb]. wp_step. eapply (wp_free_block _ len blocks0); [cbn; by rewrite Hb|by apply blocks_fresh|].
    apply clear_pipe_wp; [done|done|cbn; lia|]. eapply Hnomem; [done|exact HR|exact Ho|cbn; lia]. }
  intros j Hj Hne'. cbn [rc_brk sn_rc with_rc with_world set_rc_world set_rc_tick set_rc_heap] in *. fold B in Hne' |- *.
  set (T := B + len + pagesize) in *. destruct (Z.eqb_spec T 0); [done|]. wp_step.
  assert (B + len <= T /\ brk0 <= T) as [HT1 HT2] by lia. clearbody T.
  assert (blocks0 !! B = None /\ <[B := len]> blocks0 !! T = None) as [HfB HfT].
  { split; [by apply blocks_fresh|]. rewrite lookup_insert_ne; [lia|]. apply blocks_fresh. lia. }
  eapply (read_back_wp _ (lp_wr llp)); [exact Hh|lia|done|done|..].
  { intros m1 k Hm1 Hk1 Hrk1. wp_step. eapply wp_free_block; [cbn; by rewrite Hb|done|]. cbn [Z.eqb negb].
    destruct (Z.eqb_spec (- EIO) 0); [done|]. cbn [negb]. wp_step. eapply wp_free_block; [done|done|].
    apply clear_pipe_wp; [done|done|cbn -[iov_length]; lia|]. eapply Heio; [exact HR|by rewrite -HM|exact Hrk1]. }
  intros bs k Hbl Hbs [Hk1 Hrk1]%trail_eq Hp1. cbn in Hk1, Hrk1. wp_step. eapply wp_free_block; [cbn; by rewrite Hb|done|]. cbn [Z.eqb negb].
  assert (forall m, length (iov_bytes m iov) = Z.to_nat (iov_length iov)) as Hlib.
  { intros m1. pose proof (length_iov_bytes m1 _ iov_nonneg). lia. }
  wp_step. eapply (read_back_wp _ (lp_wr llp)); [exact Hp1|done|lia|apply agree_write; [done|lia]|..].
  { intros m1 k1 Hm1 Hk2 Hrk2. destruct (Z.eqb_spec (- EIO) 0); [done|]. cbn [negb]. wp_step. eapply wp_free_block; [done|done|].
    apply clear_pipe_wp; [done|done|cbn -[iov_length]; lia|]. cbn in Hk2, Hrk2. eapply (Heio k); [by rewrite Hrk1|cbn; congruence|exact Hrk2]. }
  intros bs2 k2 Hbl2 Hbs2 [Hk2 Hrk2]%trail_eq Hp2. cbn [Z.eqb negb]. cbn beta in Hbs2. cbn in Hk2, Hrk2.
  rewrite drop_app_length' in Hbs2; [by rewrite Hlib|]. rewrite take_take Nat.min_id in Hbs2.
  assert (Z.of_nat (length bs) = iov_length iov) by done.
  wp_step. apply (fuse_send_msg_wp _ _ (data_of buf0)).
  - apply agree_write; [apply agree_write; done|done].
  - cbn. congruence.
  - cbn. by rewrite Hrk2 Hrk1.
  - cbn [rc_world sn_rc with_rc with_world set_rc_world set_rc_tick set_rc_heap w_mem].
    rewrite (mem_read_split _ _ _ now); [lia|]. replace (now + rem buf - now) with (rem buf) by lia.
    rewrite -{1}Hbl2 mem_read_write. rewrite mem_read_write_other; [lia|]. rewrite mem_read_write_other; [lia|].
    by rewrite Hd Hbs2 Hrest take_drop.
  - lia.
  - intros x. by apply range_above.
  - intros r k3 Hpk Hv. wp_step. eapply wp_free_block; [done|done|]. wp_steps.
    split_and!; [apply agree_len, agree_write; [apply agree_write; done|done]|done|cbn -[iov_length]; lia| |done].
    intros l. cbn [rc_pipe rc_world sn_rc with_rc with_world set_rc_world set_rc_tick set_rc_heap w_os]. rewrite Hp. intros [= <-].
    rewrite Hrd Hwr. apply Hpk. eapply pipe_holds_ext; [|exact Hp2]. intros m1. cbn beta.
    rewrite drop_app_length'; [by rewrite Hlib|]. apply drop_ge. rewrite length_take. lia.
Qed.

(** *** The pipe *)

Definition pipe_at_hand (s : send K) (llp : fuse_ll_pipe) : Prop := sending s /\ pipe_empty s /\ pipe_is s llp.

Lemma pipe_at_hand_holds s llp : pipe_at_hand s llp -> pipe_holds (os s) (lp_rd llp) (lp_wr llp) (fun _ => []).
Proof. intros (_ & He & llp' & Hp & <- & <-). by apply He. Qed.

(** A call that leaves the messages and the pipes alone; a new entry for the pipe. *)
Lemma pipe_at_hand_call s llp k : pipe_at_hand s llp -> trail k = trail (os s) ->
  pipe_holds k (lp_rd llp) (lp_wr llp) (fun _ => []) -> pipe_at_hand (with_world s (mem s) k) llp.
Proof.
  intros ([] & He & llp' & Hp & Hr & Hw) [Hk Hrk]%trail_eq Hh. split_and!; [split; cbn; [done..|congruence|by rewrite Hrk|done]| |by exists llp'].
  intros l. cbn. rewrite Hp. intros [= <-]. by rewrite Hr Hw.
Qed.

Lemma pipe_at_hand_set s llp size g : pipe_at_hand s llp ->
  pipe_at_hand (with_rc s (set_rc_pipe (sn_rc s) (Some (mkLlp size g (lp_rd llp) (lp_wr llp))))) llp.
Proof.
  intros Hh. pose proof (pipe_at_hand_holds _ _ Hh). destruct Hh as ([] & He & _).
  split_and!; [by split| |by eexists]. intros l. cbn. by intros [= <-].
Qed.

Lemma setpipe_wp llp fd size (Q : sysret Z -> recv K -> Prop) s : pipe_at_hand s llp ->
  (forall r k, pipe_at_hand (with_world s (mem s) k) llp -> Q r (sn_rc (with_world s (mem s) k))) ->
  wp (on_world (sys (sys_setpipe fd size))) Q (sn_rc s).
Proof.
  intros Hh HQ. apply wp_on_sys. pose proof (setpipe_pipe fd size _ _ _ _ (pipe_at_hand_holds _ _ Hh)) as Hs.
  destruct (sys_setpipe fd size (os s)) as [r k]. cbn in Hs. apply HQ. by apply pipe_at_hand_call; [|apply Hs..].
Qed.

Lemma send_grow_pipe_to_max_wp llp fd (Q : Z -> recv K -> Prop) s : pipe_at_hand s llp ->
  (forall r k, pipe_at_hand (with_world s (mem s) k) llp -> Q r (sn_rc (with_world s (mem s) k))) ->
  wp (grow_pipe_to_max fd) Q (sn_rc s).
Proof.
  intros Hh HQ. unfold grow_pipe_to_max. wp_step. apply wp_on_sys.
  pose proof (read_file_pipe F_SETPIPE_MAX 31 _ _ _ _ (pipe_at_hand_holds _ _ Hh)) as Hs.
  destruct (sys_read_file F_SETPIPE_MAX 31 (os s)) as [r k]. cbn in Hs.
  assert (pipe_at_hand (with_world s (mem s) k) llp) as Hh1 by by apply pipe_at_hand_call; [|apply Hs..].
  destruct r as [e|bytes]; [wp_steps; by apply HQ|].
  destruct (libfuse_strtol _) as [e|max]; [wp_steps; by apply HQ|].
  wp_step. apply (setpipe_wp llp _ _ _ (with_world s (mem s) k)); [done|]. intros r k' Hh2.
  destruct r; wp_steps; by apply HQ.
Qed.

Lemma send_pipe_fits_wp llp size (Q : bool -> send K -> Prop) s : pipe_at_hand s llp ->
  (forall b s', pipe_at_hand s' llp -> Q b s') -> wp (on_rc (pipe_fits llp size)) Q s.
Proof.
  intros Hh HQ. apply wp_on_rc. unfold pipe_fits.
  destruct (_ <? _); [|wp_steps; apply HQ; by destruct s]. destruct (lp_can_grow llp); [|wp_steps; apply HQ; by destruct s].
  wp_step. eapply setpipe_wp; [done|]. intros r k Hh1. destruct r as [e|n].
  - wp_step. wp_step. wp_step. eapply (send_grow_pipe_to_max_wp llp _ _ (with_rc s (set_rc_pipe (sn_rc (with_world s (mem s) k)) _))).
    { exact (pipe_at_hand_set _ _ (lp_size llp) false Hh1). }
    intros r k' Hh2. destruct (0 <? r); wp_steps; apply HQ; [|exact Hh2].
    exact (pipe_at_hand_set _ _ r false Hh2).
  - wp_steps. apply HQ. exact (pipe_at_hand_set _ _ n true Hh1).
Qed.

Lemma send_fuse_ll_get_pipe_wp (Q : option fuse_ll_pipe -> send K -> Prop) s : sending s -> pipe_empty s ->
  (forall s', sending s' -> pipe_empty s' -> Q None s') -> (forall llp s', pipe_at_hand s' llp -> Q (Some llp) s') ->
  wp (on_rc (fuse_ll_get_pipe pagesize alloc_ok)) Q s.
Proof.
  intros Hs He HQ0 HQ1. apply wp_on_rc. unfold fuse_ll_get_pipe. wp_steps. destruct (rc_pipe (sn_rc s)) as [llp|] eqn:Hp.
  - wp_steps. apply HQ1. destruct Hs. split_and!; [by split|done|]. exists llp. done.
  - wp_step. apply wp_tick. assert (sending (with_rc s (set_rc_tick (sn_rc s) (S (rc_tick (sn_rc s)))))) as Hs1.
    { destruct Hs. split; [done..|cbn; lia]. }
    destruct (alloc_ok _); cbn [negb]; [|wp_steps; apply HQ0; [done|]; intros l; cbn; by rewrite Hp].
    wp_step. apply wp_on_sys. cbn [rc_world set_rc_tick]. pose proof (new_pipe (os s)) as Hn.
    destruct (sys_pipe (os s)) as [[e|[rd wr]] k]; destruct Hn as [[Hmk Hrk]%trail_eq Hn]; wp_steps.
    + apply HQ0; [|intros l; cbn; by rewrite Hp]. destruct Hs. split; cbn; [done..|congruence|by rewrite Hrk|lia].
    + apply HQ1. destruct Hs. split_and!; [split; cbn; [done..|congruence|by rewrite Hrk|lia]| |by eexists]. intros l. cbn. by intros [= <-].
Qed.

(** *** The whole *)

Lemma pipe_bufvec_wf len wr : 0 <= len < 2 ^ 31 -> bv_wf (mkBufvec 1 0 0 [mkFbuf len FUSE_BUF_IS_FD 0 wr 0 0]).
Proof.
  intros Hl. split; cbn; try lia.
  - intros b ->%list_elem_of_singleton. cbn. unfold OFFSET_MAX. lia.
  - intros b [= <-]. cbn. lia.
Qed.

Lemma advanced_source buf buf' n : source_ok buf -> advanced buf buf' n ->
  source_ok buf' /\ data_of buf' = drop (Z.to_nat n) (data_of buf).
Proof.
  intros (Hw & Hm & Hx) (Hw' & Hb & Ha). unfold data_of. rewrite Ha fmap_drop. split; [|done].
  split_and!; [done|by unfold in_memory; rewrite Hb|]. intros x. rewrite Ha. intros Hi%elem_of_drop_sub. by apply Hx.
Qed.

(** [fuse_buf_copy] into the pipe. *)
Lemma buf_copy_pipe_wp buf len llp flags f (Q : Z * fuse_bufvec -> send K -> Prop) s :
  source_ok buf -> agree (mem s) -> rem buf <= len < 2 ^ 31 -> pipe_holds (os s) (lp_rd llp) (lp_wr llp) f ->
  (forall r v k l, messages k = messages (os s) -> refused k = refused (os s) ++ l -> - r ∈ l -> r < 0 -> advanced buf v 0 ->
    Q (r, v) (with_world s (mem s) k)) ->
  (forall r v k l, messages k = messages (os s) -> refused k = refused (os s) ++ l -> 0 <= r <= rem buf -> (0 < rem buf -> 0 < r) -> advanced buf v r ->
    pipe_holds k (lp_rd llp) (lp_wr llp) (fun m => f m ++ take (Z.to_nat r) (data_of buf)) -> Q (r, v) (with_world s (mem s) k)) ->
  wp (buf_copy stack (mkBufvec 1 0 0 [mkFbuf len FUSE_BUF_IS_FD 0 (lp_wr llp) 0 0]) buf flags) Q s.
Proof.
  intros Hok Hm Hl Hp HQ0 HQ1. pose proof Hok as (Hwf & Hmem & _). assert (0 <= rem buf) by (unfold rem; lia).
  unfold buf_copy. wp_step. apply wp_on_rc, wp_on_world. unfold fuse_buf_copy.
  eapply wp_mono; [eapply (fuse_buf_copy_loop_pipe _ _ _ _ (mkFbuf len FUSE_BUF_IS_FD 0 (lp_wr llp) 0 0));
    [apply pipe_bufvec_wf; lia|done|done|done|done|lia| |exact Hp|]|].
  - etransitivity; [apply Hl|]. unfold rem, addrs. cbn [bv_idx bv_buf bv_off]. rewrite drop_0 length_app length_range. cbn [fb_size]. lia.
  - cbn -[Z.of_nat]. pose proof (bw_idx _ Hwf). rewrite (bw_count _ Hwf). lia.
  - intros [[r dv] v] w' (Hm' & Hmk & (l & Hrk & Hrl) & Hpost). wp_steps. destruct w' as [m' k]. cbn in Hm', Hmk, Hrk, Hpost. subst m'.
    destruct Hpost as [(Hr & _ & Hadv)|(Hr & Hz & Hadv & Hpk)]; (rewrite swrap_id; [lia|]).
    + apply (HQ0 r v k l); [done|done|apply Hrl; lia|lia|done].
    + rewrite Z.sub_0_r in Hadv Hpk. apply (HQ1 r v k l); [done|done|lia|done|done|]. eapply pipe_holds_ext; [|exact Hpk]. intros m. cbn beta.
      f_equal. unfold data_of. rewrite -fmap_take. apply (data_agree buf); [done|done|]. intros x. apply elem_of_take_sub.
Qed.

Lemma send_splice_wp llp buf len flags s : pipe_at_hand s llp -> source_ok buf -> len = sum_sizes (bv_buf buf) ->
  iov_length iov + len < 2 ^ 31 ->
  wp (send_splice pagesize dev stack alloc_ok iov llp buf len flags) (sent_post (data_of buf)) s.
Proof.
  intros Hh Hok Hlen Hl31. pose proof (pipe_at_hand_holds _ _ Hh) as Hp. pose proof Hh as ([Hm Hb Hk HM HR HT] & He & Hpi).
  assert (0 <= iov_length iov) as Hil by (rewrite -(length_iov_bytes m0 _ iov_nonneg); lia).
  pose proof (rem_le_sizes _ (proj1 Hok)) as Hle. pose proof (length_data buf) as Hld.
  unfold send_splice. wp_step. apply wp_kernel. pose proof (vmsplice_pipe _ _ iov SPLICE_F_NONBLOCK _ _ Hp) as Hv.
  destruct (sys_vmsplice (lp_wr llp) iov SPLICE_F_NONBLOCK (os s)) as [[e|n] k]; destruct Hv as (Hmk & Hrk & Hpk).
  { destruct (pipe_at_hand_call _ _ _ Hh (proj2 (trail_eq _ _) (conj Hmk Hrk)) Hpk) as (? & ? & _). apply fallback_wp; [done|done|done|done|lia]. }
  destruct (Z.eqb_spec n (iov_length iov)) as [->|Hne]; cbn [negb].
  2: { rewrite (cut_short_spec _ _ Hne) in Hrk. apply clear_pipe_wp; try done. right. right.
       split_and!; [done|eapply refusal_excused; [exact HR|exact Hrk|by left]|]. left. cbn. congruence. }
  rewrite cut_short_same app_nil_r in Hrk.
  wp_step. eapply (buf_copy_pipe_wp _ _ _ _ (fun m => iov_bytes m iov)); [done|done|lia| |..].
  { eapply pipe_holds_ext; [|exact Hpk]. intros m. cbn -[take iov_bytes iov_length]. apply take_ge.
    pose proof (length_iov_bytes m _ iov_nonneg). lia. }
  - intros r v k' l Hmk' Hrk' Hrl Hr Hadv. destruct (Z.ltb_spec r 0); [|lia].
    destruct (advanced_source _ _ _ Hok Hadv) as [Hok' Hd']. rewrite drop_0 in Hd'. cbn in Hmk', Hrk'.
    destruct (_ || _).
    2: { apply clear_pipe_wp; try done. right. left. split_and!; [lia|cbn; congruence|].
         eapply (refusal_excused _ k); [by rewrite Hrk|exact Hrk'|done]. }
    wp_step. assert (forall b, wp (on_rc (modify (fun s => set_rc_pipe s None));; on_rc (fuse_ll_pipe_free llp);;
      fuse_send_data_iov_fallback pagesize dev stack alloc_ok iov v len) (sent_post (data_of buf))
        (mkSend (sn_rc (with_world (with_world s (mem s) k) (mem s) k')) b)) as Hfb.
    { intros b. wp_step. apply wp_on_rc. wp_steps. apply fuse_ll_pipe_free_wp. intros k2 [Hmk2 Hrk2]%trail_eq.
      cbn in Hmk2, Hrk2. rewrite -Hd'.
      apply fallback_wp; [split; cbn; [done..|congruence| |done]|by intros ?|done| |lia].
      { rewrite Hrk2. eapply prefix_refused; [exact Hrk'|by rewrite Hrk]. } by rewrite (proj1 (proj2 Hadv)). }
    destruct (r =? - EAGAIN); wp_steps; apply Hfb.
  - intros r v k' l Hmk' Hrk' Hr Hz Hadv Hpk'. destruct (Z.ltb_spec r 0); [lia|]. destruct (advanced_source _ _ _ Hok Hadv) as [Hok' Hd'].
    cbn in Hmk', Hrk'. assert (sending (with_world (with_world s (mem s) k) (mem s) k')).
    { split; cbn; [done..|congruence| |done]. eapply prefix_refused; [exact Hrk'|by rewrite Hrk]. }
    destruct (Z.eqb_spec r 0), (Z.ltb_spec r len); cbn [negb andb].
    3: by apply (send_rest_wp _ buf).
    all: assert (r = rem buf) as -> by lia; rewrite (take_ge (data_of buf)) in Hpk'; [lia|]; rewrite -Hld.
    all: apply send_pipe_wp; [done|by split|lia].
Qed.

Lemma fuse_buf_size_sizes buf : bv_wf buf -> sum_sizes (bv_buf buf) < 2 ^ 31 -> fuse_buf_size buf = sum_sizes (bv_buf buf).
Proof.
  intros Hwf Hl. pose proof (sum_sizes_nonneg _ (bv_sizes_nonneg _ Hwf)).
  rewrite fuse_buf_size_saturates; [by apply bv_sizes_nonneg|apply Hwf|]. unfold SIZE_MAX. lia.
Qed.

Lemma fuse_send_data_iov_wp buf flags s : sending s -> pipe_empty s -> source_ok buf -> iov_length iov + sum_sizes (bv_buf buf) < 2 ^ 31 ->
  wp (fuse_send_data_iov pagesize dev stack alloc_ok iov buf flags) (sent_post (data_of buf)) s.
Proof.
  intros Hs Hp Hok Hl31. assert (0 <= iov_length iov) as Hil by (rewrite -(length_iov_bytes m0 _ iov_nonneg); lia).
  unfold fuse_send_data_iov. rewrite fuse_buf_size_sizes; [apply Hok|lia|].
  assert (forall s, sending s -> pipe_empty s ->
    wp (fuse_send_data_iov_fallback pagesize dev stack alloc_ok iov buf (sum_sizes (bv_buf buf))) (sent_post (data_of buf)) s) as Hfb
    by (intros; apply fallback_wp; done || lia).
  wp_step. wp_step. destruct (_ || _); [by apply Hfb|]. wp_step. apply send_fuse_ll_get_pipe_wp; [done|done|done|].
  intros llp s1 (Hs1 & He1 & Hi1). unfold set_out_len. wp_step. apply wp_on_rc, wp_on_world. wp_steps.
  assert (pipe_at_hand (with_rc s1 (set_rc_world (sn_rc s1) (mkWorld (mem_write (mem s1) hdr
    (le 4 (u32 (iov_length iov + sum_sizes (bv_buf buf))))) (os s1)))) llp) as Hh1.
  { split_and!; [|done|done]. destruct Hs1. split; cbn; try done. by apply agree_len. }
  eapply send_pipe_fits_wp; [exact Hh1|]. intros b s2 Hh2. destruct b; cbn [negb].
  - by apply send_splice_wp.
  - destruct Hh2 as (? & ? & _). by apply Hfb.
Qed.
End safe.

(** ** Replies *)

(** A reply as the device reads it: length, error, the request, data. *)
Definition reply_bytes (error unique : Z) (data : list Z) : list Z :=
  le 4 (u32 (16 + Z.of_nat (length data))) ++ le 4 error ++ le 8 unique ++ data.

(** The header, once [put_header] and the sender have filled it in. *)
Lemma header_bytes m hdr len error unique :
  iov_bytes (mem_write (mem_write (mem_write m (hdr + 8) (le 8 unique)) (hdr + 4) (le 4 error)) hdr (le 4 len)) [(hdr, 16)] =
  le 4 len ++ le 4 error ++ le 8 unique.
Proof.
  unfold iov_bytes. rewrite bind_cons app_nil_r. cbn [fst snd]. rewrite (mem_read_split _ _ 16 4); [lia|].
  assert (forall m a n v, mem_read (mem_write m a (le n v)) a (Z.of_nat n) = le n v) as Hrw.
  { intros m' a n v. rewrite -{2}(length_le n v). apply mem_read_write. }
  f_equal; [apply (Hrw _ hdr 4%nat)|]. rewrite mem_read_write_other; [rewrite length_le; lia|].
  rewrite (mem_read_split _ _ _ 4); [lia|]. f_equal; [apply (Hrw _ (hdr + 4) 4%nat)|].
  rewrite mem_read_write_other; [rewrite length_le; lia|]. replace (hdr + 4 + 4) with (hdr + 8) by lia. apply (Hrw _ (hdr + 8) 8%nat).
Qed.

Section reply.
Context {K : Type} `{SyscallLaws K} `{!DeviceCalls K} `{!SendCalls K} `{!Outlet K}.
Context (pagesize dev stack : Z) (alloc_ok : nat -> bool) `{!OutletLaws K dev}.
Context (known_errno : Z -> bool) (fuse_free_req : M (send K) unit).
Abbreviation os s := (w_os (rc_world (sn_rc s))).
Abbreviation mem s := (w_mem (rc_world (sn_rc s))).

(** [fuse_free_req] has nothing to do with the thread's buffers. *)
Hypothesis Hfree : forall s, fuse_free_req s = Ok (tt, s).
Hypothesis Hpage : 0 < pagesize.

(** Two headers on the stack, a heap and data elsewhere. *)
Record reply_ready (s : send K) (hdr hdr' : Z) (bufv : fuse_bufvec) : Prop := {
  rr_hdr : hdr + 16 <= rc_brk (sn_rc s) /\ hdr' + 16 <= rc_brk (sn_rc s);
  rr_brk : 0 < rc_brk (sn_rc s);
  rr_blocks : forall a, is_Some (rc_blocks (sn_rc s) !! a) -> a < rc_brk (sn_rc s);
  rr_pipe : pipe_empty s;
  rr_wf : bv_wf bufv;
  rr_memory : in_memory bufv;
  rr_data : forall x, x ∈ addrs bufv -> x < rc_brk (sn_rc s) /\ x ∉ range hdr 16;
  rr_size : 16 + sum_sizes (bv_buf bufv) < 2 ^ 31;
}.

Lemma put_header_wp hdr unique error (Q : unit -> send K -> Prop) s :
  Q tt (with_world s (mem_write (mem_write (mem s) (hdr + 8) (le 8 unique)) (hdr + 4) (le 4 error)) (os s)) ->
  wp (put_header hdr unique error) Q s.
Proof. intros HQ. unfold put_header. apply wp_on_rc, wp_on_world. wp_steps. exact HQ. Qed.

Lemma send_reply_err_wp hdr unique err s :
  wp (fuse_reply_err dev known_errno fuse_free_req hdr unique err) (fun r s' =>
    rc_blocks (sn_rc s') = rc_blocks (sn_rc s) /\ (pipe_empty s -> pipe_empty s') /\ rc_tick (sn_rc s') = rc_tick (sn_rc s) /\
    (r = 0 /\ refused (os s') = refused (os s) /\
       messages (os s') = messages (os s) ++ [reply_bytes (u32 (checked_error known_errno (- err))) unique []] \/
     r < 0 /\ refused (os s') = refused (os s) ++ [r] /\ messages (os s') = messages (os s))) s.
Proof.
  unfold fuse_reply_err. wp_step. apply put_header_wp. wp_step. unfold fuse_send_msg, set_out_len.
  wp_step. apply wp_on_rc, wp_on_world. wp_steps. apply wp_kernel. cbn [sn_rc with_rc with_world rc_world set_rc_world w_mem w_os].
  rewrite header_bytes. change (u32 (iov_length [(hdr, 16)])) with 16.
  pose proof (writev_device (reply_bytes (u32 (checked_error known_errno (- err))) unique []) (os s)) as Hw.
  unfold reply_bytes in *. rewrite app_nil_r in Hw |- *. change (u32 (16 + Z.of_nat (length []))) with 16 in *.
  destruct (sys_writev _ _ _) as [[e|n] k]; destruct Hw as [Hw Hpk]; wp_steps; unfold wp at 1; rewrite Hfree; wp_steps;
    (split_and!; [done|intros He l Hl; by apply Hpk, He|done|]).
  - right. split_and!; [lia|apply Hw..].
  - left. destruct Hw. done.
Qed.

(** [e] is the error of an allocation that failed, or of a call that was refused,
    between [s] and [s']. *)
Definition caused (s s' : send K) (e : Z) : Prop :=
  (e = ENOMEM /\ exists i, (rc_tick (sn_rc s) <= i < rc_tick (sn_rc s'))%nat /\ alloc_ok i = false) \/
  (exists l, refused (os s') = refused (os s) ++ l /\ e ∈ l).

(** The outcome of a reply: the data have been sent; an error with a cause has been sent;
    or the device refused the reply, with nothing taken, or the front of the reply when
    it has broken off the transfer. *)
Definition reply_outcome (s s' : send K) (unique : Z) (data : list Z) (r : Z) : Prop :=
  (r = 0 /\ messages (os s') = messages (os s) ++ [reply_bytes 0 unique data]) \/
  (r = 0 /\ exists e, 0 < e /\ caused s s' e /\
     messages (os s') = messages (os s) ++ [reply_bytes (u32 (checked_error known_errno (- e))) unique []]) \/
  (r < 0 /\ caused s s' r /\
     (messages (os s') = messages (os s) \/ exists n, messages (os s') = messages (os s) ++ [take n (reply_bytes 0 unique data)])).

Lemma caused_later s s1 s2 e l : rc_tick (sn_rc s2) = rc_tick (sn_rc s1) -> refused (os s2) = refused (os s1) ++ l ->
  caused s s1 e -> caused s s2 e.
Proof.
  intros Ht Hr [(-> & i & Hi & Ho)|(l0 & Hl & He)].
  - left. split; [done|]. exists i. by rewrite Ht.
  - right. exists (l0 ++ l). rewrite Hr Hl app_assoc. split; [done|]. apply elem_of_app. by left.
Qed.

(** C30: [fuse_reply_data] with data in memory, in any number of buffers, through the
    pipe or not, whatever [vmsplice], [splice], [write] and the allocator do and
    however short the pipe's counts are: it returns, and when it reports success either
    one message is sent, with the right length, the number of the request and all the
    data, or one error, that of an allocation that failed or of the pipe that refused
    the data.  Otherwise it reports the error of the call the device has refused, or
    [-EIO] for a count of the device, of [vmsplice] or of reading the pipe back that is
    too short; the device has then got nothing or the front of the message.  A short
    count of the pipe alone is never a reason to fail.
    No allocation is left and the pipe of the thread, if it is kept, is empty. *)
Theorem reply_data_complete hdr hdr' unique bufv flags s : reply_ready s hdr hdr' bufv ->
  exists r s', fuse_reply_data pagesize dev stack alloc_ok known_errno fuse_free_req hdr hdr' unique bufv flags s = Ok (r, s') /\
    rc_blocks (sn_rc s') = rc_blocks (sn_rc s) /\ pipe_empty s' /\
    reply_outcome s s' unique (mem s <$> addrs bufv) r.
Proof.
  intros [[Hh Hh'] Hb Hbl Hp Hwf Hm Hd Hsz]. apply wp_Ok. unfold fuse_reply_data. wp_step. apply put_header_wp. wp_step.
  set (s1 := with_world _ _ _). set (m1 := mem s1).
  assert (forall x, x ∉ range hdr 16 -> m1 x = mem s x) as Hm1.
  { intros x Hx. rewrite elem_of_range in Hx. unfold m1. cbn -[le].
    rewrite !mem_write_other; [rewrite length_le elem_of_range; lia..|done]. }
  assert (m1 <$> addrs bufv = mem s <$> addrs bufv) as Hdata by (apply fmap_agree; intros x Hx; by apply Hm1, Hd).
  eapply wp_mono.
  { apply (fuse_send_data_iov_wp pagesize dev stack alloc_ok Hpage hdr 16 [] (rc_brk (sn_rc s)) m1 (rc_blocks (sn_rc s)) (messages (os s))
      (refused (os s)) (rc_tick (sn_rc s)));
      [repeat constructor; cbn; lia|lia|done|done|by split|done| |cbn; lia].
    split_and!; [done|done|]. intros x Hx. destruct (Hd x Hx) as [? Hx']. split; [done|]. rewrite elem_of_range. rewrite elem_of_range in Hx'. lia. }
  intros r s2 (Ha & Hb2 & _ & Hp2 & Hv).
  assert (framed hdr 16 [] m1 (data_of m1 bufv) = reply_bytes 0 unique (mem s <$> addrs bufv)) as Hfr.
  { unfold framed, data_of. rewrite Hdata. unfold m1, s1. cbn [sn_rc with_world rc_world set_rc_world w_mem]. rewrite header_bytes.
    unfold reply_bytes. by rewrite -!app_assoc. }
  assert (forall e, excused alloc_ok (refused (os s)) (rc_tick (sn_rc s)) e (os s2) (rc_tick (sn_rc s2)) ->
    caused s s2 e /\ refused (os s) `prefix_of` refused (os s2)) as Hex.
  { intros e [(? & ? & ?)|(l & Hl & ?)]; (split; [|]); [by left|done|right; by exists l|rewrite Hl; by apply prefix_app_r]. }
  unfold verdict in Hv. rewrite Hfr in Hv. destruct (Z.leb_spec r 0).
  - wp_step. unfold wp at 1. rewrite Hfree. wp_steps. split_and!; [done|done|].
    destruct Hv as [Hv|[[? _]|(? & ? & Hv)]]; [by left|lia|]. right. right. split_and!; [done|by apply Hex|done].
  - eapply wp_mono; [apply send_reply_err_wp|]. intros r3 s3 (Hb3 & Hp3 & Ht3 & Hv3). split_and!; [congruence|by apply Hp3|].
    destruct Hv as [[? _]|[(_ & Hv & Hc)|[? _]]]; [lia| |lia]. apply Hex in Hc as [Hc [l0 Hl0]]. rewrite Hv in Hv3.
    destruct Hv3 as [(-> & Hr3 & Hv3)|(? & Hr3 & Hv3)].
    + right. left. split; [done|]. exists r. split_and!; [done| |done]. eapply (caused_later _ s2 _ _ []); [done|by rewrite app_nil_r|done].
    + right. right. split_and!; [done| |by left]. right.
      exists (l0 ++ [r3]). rewrite Hr3 Hl0 app_assoc. split; [done|]. apply elem_of_app. right. by left.
Qed.
End reply.

(** ** Witnesses *)

(** One pipe with the ends 4 and 5 that takes three bytes at a time. *)
Record wires := mkWires { wi_msgs : list (list Z); wi_pipe : memory -> list Z; wi_bad : list Z }.

#[local] Instance wires_sys : Syscalls wires := {|
  sys_write fd bs k := (SysRet (Z.of_nat (length (take 3 bs))), mkWires (wi_msgs k) (fun m => wi_pipe k m ++ take 3 bs) (wi_bad k));
  sys_pwrite fd bs pos k := (SysErr EBADF, k);
  sys_read fd len k := (SysErr EBADF, k);
  sys_pread fd len pos k := (SysErr EBADF, k);
  sys_splice fd_in off_in fd_out off_out len flags k := (SysErr EINVAL, k);
|}.

#[local] Instance wires_laws : SyscallLaws wires.
Proof. split; intros; cbn -[take]; try (unfold EBADF, EINVAL; lia). rewrite length_take. lia. Qed.

#[local] Instance wires_device : DeviceCalls wires := {|
  sys_pipe k := (SysRet (4, 5), mkWires (wi_msgs k) (fun _ => []) (wi_bad k));
  sys_close fd k := k;
  sys_setpipe fd size k := (SysRet size, k);
  sys_read_file path len k := (SysErr ENOENT, k);
|}.

#[local] Instance wires_send : SendCalls wires := {|
  sys_writev fd bs k := (SysRet (Z.of_nat (length bs)), mkWires (wi_msgs k ++ [bs]) (wi_pipe k) (wi_bad k));
  sys_vmsplice fd iov flags k :=
    (SysRet (iov_length iov), mkWires (wi_msgs k) (fun m => wi_pipe k m ++ take (Z.to_nat (iov_length iov)) (iov_bytes m iov)) (wi_bad k));
  sys_splice_out rd dev len flags m k :=
    (SysRet len, mkWires (wi_msgs k ++ [take (Z.to_nat len) (wi_pipe k m)]) (fun m => drop (Z.to_nat len) (wi_pipe k m)) (wi_bad k));
  sys_read_back rd len m k := let bs := take (Z.to_nat len) (wi_pipe k m) in
    (SysRet bs, mkWires (wi_msgs k) (fun m => drop (length bs) (wi_pipe k m)) (wi_bad k ++ cut_short (Z.of_nat (length bs)) len));
|}.

#[local] Instance wires_outlet : Outlet wires := {|
  messages := wi_msgs;
  refused := wi_bad;
  pipe_holds k rd wr f := rd = 4 /\ wr = 5 /\ forall m, wi_pipe k m = f m;
|}.

#[local] Instance wires_outlet_laws : OutletLaws wires 3.
Proof.
  split; cbn -[take drop].
  - intros k rd wr f g Hfg (? & ? & Hf). split_and!; [done|done|]. intros m. by rewrite Hf.
  - done.
  - intros rd wr iov fl k f (? & ? & Hf). split_and!; try done; [by rewrite cut_short_same app_nil_r|]. intros m. by rewrite Hf.
  - intros rd wr bs k f (? & ? & Hf). split_and!; try done.
    + intros Hne. destruct bs; [done|]. cbn. lia.
    + intros m. by rewrite Hf Nat2Z.id length_take -take_take firstn_all.
  - intros rd wr len fl m k f (? & ? & Hf). split_and!; try done; [by rewrite Hf|by rewrite cut_short_same app_nil_r|].
    intros m'. by rewrite Hf.
  - intros rd wr len m k f (? & ? & Hf). split_and!; try done.
    + by rewrite Hf length_take -take_take firstn_all.
    + intros m'. by rewrite !Hf.
  - done.
  - done.
  - done.
  - done.
Qed.

Definition sample_send : send wires :=
  mkSend (mkRecv (mkRse false 0 0 31 FUSE_CAP_SPLICE_WRITE true true)
    (mkWorld (fun a => a mod 256) (mkWires [] (fun _ => []) [])) ∅ 1000 None (mkFbuf 0 0 0 0 0 0) 0) false.
Definition sample_bufs : fuse_bufvec := mkBufvec 2 0 1 [mkFbuf 5 0 300 0 0 0; mkFbuf 6 0 400 0 0 0].
Definition reply_sample (pagesize : Z) :=
  fuse_reply_data pagesize 3 0 (fun _ => true) (fun _ => true) (mret tt) 100 200 7 sample_bufs 0 sample_send.

(** Three bytes of the first buffer come back from the pipe. *)
Example reply_sample_sent : forall p, p = 4 \/ p = 4096 ->
  match reply_sample p with Ok (r, s') => Some (r, messages (w_os (rc_world (sn_rc s')))) | _ => None end =
  Some (0, [reply_bytes 0 7 [45; 46; 47; 48; 144; 145; 146; 147; 148; 149]]).
Proof. intros p [->| ->]; vm_compute; reflexivity. Qed.

Lemma reply_data_complete_witness : exists r s', reply_sample 4 = Ok (r, s') /\ pipe_empty s' /\
  reply_outcome (fun _ => true) (fun _ => true) sample_send s' 7 [45; 46; 47; 48; 144; 145; 146; 147; 148; 149] r.
Proof.
  destruct (reply_data_complete 4 3 0 (fun _ => true) (fun _ => true) (mret tt) (fun _ => eq_refl) ltac:(lia)
    100 200 7 sample_bufs 0 sample_send) as (r & s' & Hrun & _ & Hp & Ho).
  - split.
    + cbn. lia.
    + cbn. lia.
    + intros a [v Hv]. done.
    + intros l Hl. done.
    + split; cbn; try lia.
      * intros b Hb. rewrite !elem_of_cons elem_of_nil in Hb. destruct Hb as [->|[->|[]]]; cbn; unfold OFFSET_MAX; lia.
      * intros b [= <-]. cbn. lia.
    + intros b Hb. cbn in Hb. rewrite !elem_of_cons elem_of_nil in Hb. destruct Hb as [->|[->|[]]]; reflexivity.
    + intros x Hx. change (x ∈ [301; 302; 303; 304; 400; 401; 402; 403; 404; 405]) in Hx.
      rewrite elem_of_range. rewrite !elem_of_cons elem_of_nil in Hx. cbn. lia.
    + cbn. lia.
  - exists r, s'. split; [exact Hrun|]. split; [exact Hp|exact Ho].
Defined.

(** [fuse_lowlevel_notify_store] puts node, offset and size between header and data. *)
Example notify_sample_sent :
  match fuse_lowlevel_notify_store 4 3 0 (fun _ => true) 100 120 9 4096 sample_bufs 0 sample_send with
  | Ok (r, s') => Some (r, messages (w_os (rc_world (sn_rc s')))) | _ => None end =
  Some (0, [le 4 50 ++ le 4 FUSE_NOTIFY_STORE ++ le 8 0 ++ le 8 9 ++ le 8 4096 ++ le 4 11 ++ le 4 0 ++
            [45; 46; 47; 48; 144; 145; 146; 147; 148; 149]]).
Proof. vm_compute. reflexivity. Qed.
