(* ===== verification/Fusermount.v ===== *)
(** * The mount helper

    [src/util/fusermount.c], the set-uid program that mounts for users: reading its
    configuration, permission checks, the treatment of options, mounting and
    unmounting.  Every system call is a [call] that an oracle answers from what
    happened before; calls and answers are logged with the privileges they were made
    with, so that the theorems can speak of them. *)
From S2P Require Import Prelude Receive.

(** ** The system *)

Record fstat := mkFstat { st_mode : Z; st_uid : Z }.

(** [struct mntent], unescaped *)
Record mntent := mkMntent { mnt_fsname : cstring; mnt_dir : cstring; mnt_type : cstring; mnt_opts : cstring }.

(** The calls and the type of their answers; [inl] is an [errno]. *)
Inductive call : Type -> Type :=
  | Malloc : call bool
  | Mount (source target type : cstring) (flags : Z) (data : cstring) : call (option Z)
  | Umount (target : cstring) (flags : Z) : call (option Z)
  | Lstat (path : cstring) : call (Z + fstat)
  | Fstat (fd : Z) : call (Z + fstat)
  | Statfs (path : cstring) : call (Z + Z)             (** [f_type] *)
  | Chdir (path : cstring) : call (option Z)
  | Getcwd : call (option cstring)
  | Access (path : cstring) : call (option Z)          (** [W_OK] *)
  | Open (path : cstring) : call (Z + Z)
  | Close (fd : Z) : call unit
  | LockMtab : call Z                                  (** [lock_umount]'s file, or [-1] *)
  | ReadMtab : call (Z + list mntent)
  | ReadConf : call (Z + cstring * bool)               (** contents and [ferror] *)
  | Uname : call (option (Z * Z))                      (** the first two numbers of the release *)
  | AddMount (source mnt type opts : cstring) : call bool   (** [fuse_mnt_add_mount] *)
  | RemoveMount (mnt : cstring) : call bool            (** [fuse_mnt_remove_mount] *)
  | Realpath (path : cstring) : call (option cstring)
  | Getenv : call (option cstring)                     (** [_FUSE_COMMFD] *)
  | SendFd (sock fd : Z) : call bool
  | CloseInherited (cfd : Z) : call bool
  | Recv (sock : Z) : call (Z + Z)                     (** the number of bytes *)
  | Fork : call bool                                   (** a child, in its own name space or not *)
  | Wait : call (option bool)                          (** the child has exited, with [0] *)
  | MountPrivate : call bool                           (** in the child: no propagation, *)
  | BindParent : call bool                             (** and the directory as root *)
  | OpenProcMounts : call bool
  | ReadProcMounts : call (list mntent)
  | SetresIds : call bool                              (** the child gives up its privileges *)
  | Stat (path : cstring) : call (Z + fstat)
  | Socketpair : call (option (Z * Z))
  | Setenv (name value : cstring) : call unit
  | Spawn (installed quiet : bool) (argv : list cstring) : call (Z + Z)   (** a status, or the process *)
  | Recvmsg (sock : Z) : call (Z + Z * option (option Z))   (** the bytes; the header and the descriptor in it *)
  | Waitpid (pid : Z) : call unit
  | Poll (fd : Z) : call bool                          (** [POLLERR] *)
  | Getfd (fd : Z) : call bool                         (** the descriptor is open *)
  | Cloexec (fd : Z) : call unit
  | MntUmount (mnt : cstring) (lazy : bool) : call Z   (** [fuse_mnt_umount] *)
  .

(** A call in the log: the answer, and whether the file-system ids were the
    program's. *)
Record event := Event { ev_type : Type; ev_priv : bool; ev_call : call ev_type; ev_answer : ev_type }.

(** The global variables, the privileges and the log. *)
Record fm := mkFm {
  fm_user_allow_other : bool;
  fm_mount_max : Z;
  fm_auto_unmount : bool;
  fm_priv : bool;
  fm_log : list event;
}.

Definition set_user_allow_other (s : fm) v := mkFm v (fm_mount_max s) (fm_auto_unmount s) (fm_priv s) (fm_log s).
Definition set_mount_max (s : fm) v := mkFm (fm_user_allow_other s) v (fm_auto_unmount s) (fm_priv s) (fm_log s).
Definition set_auto_unmount (s : fm) v := mkFm (fm_user_allow_other s) (fm_mount_max s) v (fm_priv s) (fm_log s).
Definition set_priv (s : fm) v := mkFm (fm_user_allow_other s) (fm_mount_max s) (fm_auto_unmount s) v (fm_log s).
Definition log_event (s : fm) e := mkFm (fm_user_allow_other s) (fm_mount_max s) (fm_auto_unmount s) (fm_priv s) (fm_log s ++ [e]).

(** How a piece of the program ends: with a value, in [exit(1)], with a bad access,
    or not within the fuel. *)
Inductive ending (A : Type) : Type := Done (a : A) | Exited | Crashed | Looping.
Arguments Done {A} _.
Arguments Exited {A}.
Arguments Crashed {A}.
Arguments Looping {A}.

Definition X (A : Type) : Type := fm -> ending A * fm.

#[export] Instance X_ret : MRet X := fun A a s => (Done a, s).
#[export] Instance X_bind : MBind X := fun A B f m s =>
  match m s with
  | (Done a, s') => f a s'
  | (Exited, s') => (Exited, s')
  | (Crashed, s') => (Crashed, s')
  | (Looping, s') => (Looping, s')
  end.
Definition xget : X fm := fun s => (Done s, s).
Definition xmodify (f : fm -> fm) : X unit := fun s => (Done tt, f s).
Definition exit1 {A} : X A := fun s => (Exited, s).
Definition crash {A} : X A := fun s => (Crashed, s).
Definition loops {A} : X A := fun s => (Looping, s).

(** ** Strings *)

Fixpoint skip_slashes (s : cstring) : cstring :=
  match s with c :: s' => if ceq c "/" then skip_slashes s' else s | [] => [] end.

Definition comma : ascii := ",".
Definition backslash : ascii := "092".
Definition newline : ascii := "010".

(** [strncmp(a, b, n) == 0] *)
Definition strncmp0 (a b : cstring) (n : nat) : bool := bool_decide (take n (a ++ [NUL]) = take n (b ++ [NUL])).

Definition begins_with (s beg : cstring) : bool := strncmp0 s beg (length beg).

(** [s] of length [len] is [opt]. *)
Definition opt_eq (s : cstring) (len : nat) (opt : cstring) : bool :=
  (length opt =? len)%nat && strncmp0 s opt len.

(** The position of the first [t] in [s] ([strstr]). *)
Fixpoint strstr (s t : cstring) : option nat :=
  if begins_with s t then Some O
  else match s with [] => None | _ :: s' => S <$> strstr s' t end.

Definition digit (d : Z) : ascii := of_uchar (48 + d).

(** The digits of [n] in front of [acc]; a number of [n] binary digits has no more
    than [n] digits. *)
Fixpoint put_digits (fuel : nat) (base n : Z) (acc : cstring) : cstring :=
  let acc := digit (n mod base) :: acc in
  match fuel with
  | O => acc
  | S fuel => if n <? base then acc else put_digits fuel base (n / base) acc
  end.

(** [%u], [%o] and [%i] of [sprintf] *)
Definition fmt_u (n : Z) : cstring := put_digits 31 10 (u32 n) [].
Definition fmt_o (n : Z) : cstring := put_digits 31 8 (u32 n) [].
Definition fmt_i (n : Z) : cstring := if n <? 0 then "-"%char :: put_digits 31 10 (- n) [] else put_digits 31 10 n [].

(** ** Options that start with [x-] *)

(** From one option to the next; [rest] is [opt], the strings with the room left. *)
Fixpoint x_loop (fuel : nat) (orig_len : Z) (rest : cstring) (non_x : cstring) (non_x_len : Z) (x : cstring) (x_len : Z)
  : Z + cstring * cstring :=
  match fuel with
  | O => inl (- EIO)
  | S fuel =>
      let '(opt, opt_len, next) :=
        match strchr rest comma with
        | Some i => (take i rest, Z.of_nat i, Some (drop (S i) rest))
        | None => (rest, strlen rest + 1, None)
        end in
      let opt_len_left := strlen rest + 1 in
      let is_x_opts := strncmp0 rest (lit "x-") (Z.to_nat (Z.min 2 opt_len_left)) in
      let '(opt_buf, buf_len) := if is_x_opts then (x, x_len) else (non_x, non_x_len) in
      let '(opt_buf, buf_len) := if buf_len <? orig_len then (opt_buf ++ [comma], u64 (buf_len - 1)) else (opt_buf, buf_len) in
      if swrap 64 (u64 (buf_len - opt_len)) <? 0 then inl (- EIO)
      else
        let opt_buf := opt_buf ++ opt in
        let buf_len := u64 (buf_len - opt_len) in
        let '(non_x, non_x_len) := if is_x_opts then (non_x, non_x_len) else (opt_buf, buf_len) in
        let '(x, x_len) := if is_x_opts then (opt_buf, buf_len) else (x, x_len) in
        match next with
        | None => inr (non_x, x)
        | Some rest => x_loop fuel orig_len rest non_x non_x_len x x_len
        end
  end.

Section fusermount.
(** The answers of the system; who runs the program ([getuid], [getgid] and the name
    of the user); [sysconf(_SC_PAGESIZE)]. *)
Context (answer : forall A, list event -> call A -> A) (uid gid : Z) (user_name : option cstring) (pagesize : Z).

Definition perform {A} (c : call A) : X A := fun s =>
  let a := answer A (fm_log s) c in (Done a, log_event s (Event A (fm_priv s) c a)).

Definition extract_x_options (original : cstring) : X (Z + cstring * cstring) :=
  let orig_len := strlen original + 1 in
  ok1 ← perform Malloc;
  ok2 ← perform Malloc;
  if negb (ok1 && ok2) then mret (inl (- ENOMEM))
  else mret (x_loop (S (length original)) orig_len original [] orig_len [] orig_len).

Definition drop_privs : X unit := if negb (uid =? 0) then xmodify (fun s => set_priv s false) else mret tt.
Definition restore_privs : X unit := if negb (uid =? 0) then xmodify (fun s => set_priv s true) else mret tt.

(** ** The configuration *)

Definition strip_line (line : cstring) : cstring :=
  let line := match strchr line "#" with Some i => take i line | None => line end in
  let line := reverse (skip_space (reverse line)) in
  skip_space line.

(** The value of a digit in bases up to 16. *)
Definition digit_value (base : Z) (c : ascii) : option Z :=
  let n := uchar c in
  let v := if (48 <=? n) && (n <=? 57) then n - 48
           else if (97 <=? n) && (n <=? 102) then n - 87
           else if (65 <=? n) && (n <=? 70) then n - 55 else 16 in
  if v <? base then Some v else None.

Fixpoint get_digits (base : Z) (s : cstring) (acc : option Z) : option Z :=
  match s with
  | [] => acc
  | c :: s => match digit_value base c with
              | Some v => get_digits base s (Some (default 0 acc * base + v))
              | None => acc
              end
  end.

(** The conversion [%i] of [sscanf]: the base is that of a C constant; a [long] is
    stored into an [int]. *)
Definition scan_i (s : cstring) : option Z :=
  let s := skip_space s in
  let '(neg, s) := match s with
                   | c :: s' => if ceq c "-" then (true, s') else if ceq c "+" then (false, s') else (false, s)
                   | [] => (false, s)
                   end in
  let '(base, s) := if begins_with s (lit "0x") || begins_with s (lit "0X") then (16, drop 2 s)
                    else if begins_with s (lit "0") then (8, s) else (10, s) in
  match get_digits base s None with
  | None => None
  | Some v => Some (swrap 32 (let v := if neg then - v else v in Z.max (- LONG_MAX - 1) (Z.min LONG_MAX v)))
  end.

(** [sscanf(line, "mount_max = %i", &tmp) == 1] *)
Definition scan_mount_max (line : cstring) : option Z :=
  if negb (begins_with line (lit "mount_max")) then None
  else match skip_space (drop 9 line) with
       | c :: rest => if ceq c "=" then scan_i rest else None
       | [] => None
       end.

Definition parse_line (line : cstring) : X unit :=
  if strcmp_eq line (lit "user_allow_other") then xmodify (fun s => set_user_allow_other s true)
  else match scan_mount_max line with
       | Some tmp => xmodify (fun s => set_mount_max s tmp)
       | None => mret tt
       end.

(** [fgets] into 256 bytes: the line and the rest of the file. *)
Fixpoint fgets (n : nat) (file : cstring) : cstring * cstring :=
  match n, file with
  | O, _ | _, [] => ([], file)
  | S n, c :: file => if ceq c newline then ([c], file) else let '(l, r) := fgets n file in (c :: l, r)
  end.

Definition ends_with_newline (line : cstring) : bool := ceq (char_at line (length line - 1)) newline.

(** The loop of [read_conf]. *)
Fixpoint read_lines (fuel : nat) (file : cstring) (isnewline : bool) : X unit :=
  match file, fuel with
  | [], _ => mret tt
  | _, O => loops
  | _, S fuel =>
      let '(line, file) := fgets 255 file in
      if isnewline then
        if ends_with_newline line then parse_line (strip_line line);; read_lines fuel file true
        else read_lines fuel file false
      else read_lines fuel file (ends_with_newline line)
  end.

Definition ELOOP : Z := 40.
Definition ENAMETOOLONG : Z := 36.
Definition EOVERFLOW : Z := 75.

Definition read_conf : X unit :=
  fp ← perform ReadConf;
  match fp with
  | inr (file, ferror) =>
      read_lines (length file) file true;;
      if ferror : bool then exit1 else mret tt
  | inl errno =>
      if negb (errno =? ENOENT) && negb (errno =? EACCES) && negb (errno =? ELOOP) && negb (errno =? ENAMETOOLONG) &&
         negb (errno =? ENOTDIR) && negb (errno =? EOVERFLOW)
      then exit1 else mret tt
  end.

(** ** Options *)

Definition MS_RDONLY : Z := 1.
Definition MS_NOSUID : Z := 2.
Definition MS_NODEV : Z := 4.
Definition MS_NOEXEC : Z := 8.
Definition MS_SYNCHRONOUS : Z := 16.
Definition MS_DIRSYNC : Z := 128.
Definition MS_NOSYMFOLLOW : Z := 256.
Definition MS_NOATIME : Z := 1024.
Definition MS_NODIRATIME : Z := 2048.
Definition MS_RELATIME : Z := 2 ^ 21.
Definition MS_STRICTATIME : Z := 2 ^ 24.
Definition MS_LAZYTIME : Z := 2 ^ 25.

(** [struct mount_flags]: option, flag, on, safe *)
Record mount_flag := mkFlag { mf_opt : cstring; mf_flag : Z; mf_on : bool; mf_safe : bool }.

Definition mount_flags : list mount_flag :=
  [mkFlag (lit "rw") MS_RDONLY false true;
   mkFlag (lit "ro") MS_RDONLY true true;
   mkFlag (lit "suid") MS_NOSUID false false;
   mkFlag (lit "nosuid") MS_NOSUID true true;
   mkFlag (lit "dev") MS_NODEV false false;
   mkFlag (lit "nodev") MS_NODEV true true;
   mkFlag (lit "exec") MS_NOEXEC false true;
   mkFlag (lit "noexec") MS_NOEXEC true true;
   mkFlag (lit "async") MS_SYNCHRONOUS false true;
   mkFlag (lit "sync") MS_SYNCHRONOUS true true;
   mkFlag (lit "atime") MS_NOATIME false true;
   mkFlag (lit "noatime") MS_NOATIME true true;
   mkFlag (lit "diratime") MS_NODIRATIME false true;
   mkFlag (lit "nodiratime") MS_NODIRATIME true true;
   mkFlag (lit "lazytime") MS_LAZYTIME true true;
   mkFlag (lit "nolazytime") MS_LAZYTIME false true;
   mkFlag (lit "relatime") MS_RELATIME true true;
   mkFlag (lit "norelatime") MS_RELATIME false true;
   mkFlag (lit "strictatime") MS_STRICTATIME true true;
   mkFlag (lit "nostrictatime") MS_STRICTATIME false true;
   mkFlag (lit "dirsync") MS_DIRSYNC true true;
   mkFlag (lit "symfollow") MS_NOSYMFOLLOW false true;
   mkFlag (lit "nosymfollow") MS_NOSYMFOLLOW true true].

(** [on] and [flag] of the option, if it is one of the table. *)
Definition find_mount_flag (s : cstring) (len : nat) : option (bool * Z) :=
  match List.find (fun f => opt_eq s len (mf_opt f)) mount_flags with
  | Some f => Some (mf_on f, if negb (mf_safe f) && negb (uid =? 0) then 0 else mf_flag f)
  | None => None
  end.

(** The options with one more; [None] when there is no memory. *)
Definition add_option (opts : option cstring) (opt : cstring) : X (option cstring) :=
  ok ← perform Malloc;
  if negb ok then mret None
  else mret (Some match opts with None => opt | Some o => o ++ [comma] ++ opt end).

Fixpoint add_flags (flags : Z) (fs : list mount_flag) (opts : option cstring) : X (option (option cstring)) :=
  match fs with
  | [] => mret (Some opts)
  | f :: fs =>
      if mf_on f && has_flag flags (mf_flag f) then
        r ← add_option opts (mf_opt f);
        match r with None => mret None | Some o => add_flags flags fs (Some o) end
      else add_flags flags fs opts
  end.

Definition remove_last_comma (s : cstring) : cstring :=
  if ceq (char_at s (length s - 1)) comma then take (length s - 1) s else s.

Definition get_mnt_opts (flags : Z) (opts : cstring) : X (option cstring) :=
  r ← (if negb (has_flag flags MS_RDONLY) then r ← add_option None (lit "rw"); mret (Some <$> r) else mret (Some None));
  match r with
  | None => mret None
  | Some o =>
      r ← add_flags flags mount_flags o;
      match r with
      | None => mret None
      | Some o =>
          r ← add_option o opts;
          match r with
          | None => mret None
          | Some o =>
              let o := remove_last_comma o in
              if negb (uid =? 0) then
                match user_name with
                | None => mret None
                | Some user =>
                    r ← add_option (Some o) (lit "user=");
                    mret ((fun o => o ++ user) <$> r)
                end
              else mret (Some o)
          end
      end
  end.

(** The copy of [get_string_opt] without the backslashes. *)
Fixpoint unescape_opt (s : cstring) : cstring :=
  match s with
  | c :: s' =>
      match s' with
      | c' :: s'' => if ceq c backslash then c' :: unescape_opt s'' else c :: unescape_opt s'
      | [] => [c]
      end
  | [] => []
  end.

Definition get_string_opt (s : cstring) (len : nat) (opt : cstring) : X (option cstring) :=
  ok ← perform Malloc;
  if negb ok then mret None else mret (Some (unescape_opt (take (len - length opt) (drop (length opt) s)))).

(** The length of the option at [s]. *)
Fixpoint opt_length (escape_ok : bool) (s : cstring) : nat :=
  match s with
  | [] => O
  | c :: s' =>
      match s' with
      | _ :: s'' => if escape_ok && ceq c backslash then S (S (opt_length escape_ok s''))
                    else if ceq c comma then O else S (opt_length escape_ok s')
      | [] => if ceq c comma then O else 1%nat
      end
  end.

(** The local variables of [do_mount]; [mo_buf] is [optbuf] up to [d]. *)
Record mopts := mkMopts {
  mo_flags : Z; mo_buf : cstring; mo_fsname : option cstring; mo_subtype : option cstring; mo_blkdev : bool;
}.

Definition set_mo_flags (o : mopts) v := mkMopts v (mo_buf o) (mo_fsname o) (mo_subtype o) (mo_blkdev o).
Definition set_mo_buf (o : mopts) v := mkMopts (mo_flags o) v (mo_fsname o) (mo_subtype o) (mo_blkdev o).
Definition set_mo_fsname (o : mopts) v := mkMopts (mo_flags o) (mo_buf o) v (mo_subtype o) (mo_blkdev o).
Definition set_mo_subtype (o : mopts) v := mkMopts (mo_flags o) (mo_buf o) (mo_fsname o) v (mo_blkdev o).
Definition set_mo_blkdev (o : mopts) v := mkMopts (mo_flags o) (mo_buf o) (mo_fsname o) (mo_subtype o) v.

(** Whether the option is to be skipped: [large_read] on kernels that do not have it. *)
Definition large_read_skip (s : cstring) (len : nat) : X bool :=
  if opt_eq s len (lit "large_read") then
    r ← perform Uname;
    mret match r with Some (kmaj, kmin) => (2 <? kmaj) || ((kmaj =? 2) && (4 <? kmin)) | None => false end
  else mret false.

(** An option for the kernel. *)
Definition kernel_opt (s : cstring) (len : nat) (o : mopts) : X (option mopts) :=
  skip_option ← large_read_skip s len;
  st ← xget;
  if negb (uid =? 0) && negb (fm_user_allow_other st) && (opt_eq s len (lit "allow_other") || opt_eq s len (lit "allow_root"))
  then mret None
  else if skip_option : bool then mret (Some o)
  else match find_mount_flag s len with
  | Some (on, flag) =>
      mret (Some (set_mo_flags o (if on : bool then Z.lor (mo_flags o) flag else Z.land (mo_flags o) (Z.lnot flag))))
  | None =>
      if opt_eq s len (lit "default_permissions") || opt_eq s len (lit "allow_other") ||
         begins_with s (lit "max_read=") || begins_with s (lit "blksize=")
      then mret (Some (set_mo_buf o (mo_buf o ++ take len s ++ [comma])))
      else exit1
  end.

(** One option; [None] is [goto err]. *)
Definition mount_opt (s : cstring) (len : nat) (o : mopts) : X (option mopts) :=
  if begins_with s (lit "fsname=") then
    r ← get_string_opt s len (lit "fsname=");
    mret ((fun v => set_mo_fsname o (Some v)) <$> r)
  else if begins_with s (lit "subtype=") then
    r ← get_string_opt s len (lit "subtype=");
    mret ((fun v => set_mo_subtype o (Some v)) <$> r)
  else if opt_eq s len (lit "blkdev") then
    if negb (uid =? 0) then mret None else mret (Some (set_mo_blkdev o true))
  else if opt_eq s len (lit "auto_unmount") then
    xmodify (fun st => set_auto_unmount st true);; mret (Some o)
  else if negb (opt_eq s len (lit "nonempty")) && negb (begins_with s (lit "fd=")) &&
          negb (begins_with s (lit "rootmode=")) && negb (begins_with s (lit "user_id=")) &&
          negb (begins_with s (lit "group_id="))
  then kernel_opt s len o
  else mret (Some o).

Fixpoint mount_opts_loop (fuel : nat) (s : cstring) (o : mopts) : X (option mopts) :=
  match s, fuel with
  | [], _ => mret (Some o)
  | _, O => loops
  | _, S fuel =>
      let escape_ok := begins_with s (lit "fsname=") || begins_with s (lit "subtype=") in
      let len := opt_length escape_ok s in
      r ← mount_opt s len o;
      match r with
      | None => mret None
      | Some o => mount_opts_loop fuel (drop 1 (drop len s)) o
      end
  end.

(** ** Mounting *)

(** [None], or the [errno] of the failure *)
Definition mount_notrunc (source target type : cstring) (flags : Z) (data : cstring) : X (option Z) :=
  if pagesize - 1 <? strlen data then mret (Some EINVAL) else perform (Mount source target type flags data).

Definition id_opts (fd rootmode : Z) (group : bool) : cstring :=
  lit "fd=" ++ fmt_i fd ++ lit ",rootmode=" ++ fmt_o rootmode ++ lit ",user_id=" ++ fmt_u uid ++
  (if group then lit ",group_id=" ++ fmt_u gid else []).

Definition fuse_type (blkdev : bool) : cstring := if blkdev then lit "fuseblk" else lit "fuse".

(** The attempts: with the subtype, without it, without [group_id]. *)
Definition try_mount (mnt : cstring) (o : mopts) (rootmode fd : Z) (dev : cstring) : X (option (cstring * cstring)) :=
  let type := match mo_subtype o with
              | Some subtype => fuse_type (mo_blkdev o) ++ lit "." ++ subtype
              | None => fuse_type (mo_blkdev o)
              end in
  let source := match mo_fsname o with
                | Some fsname => fsname
                | None => match mo_subtype o with Some subtype => subtype | None => dev end
                end in
  let data := mo_buf o ++ id_opts fd rootmode true in
  res ← mount_notrunc source mnt type (mo_flags o) data;
  r ← match res, mo_subtype o with
      | Some errno, Some subtype =>
          if errno =? ENODEV then
            let type := fuse_type (mo_blkdev o) in
            let source := match mo_fsname o with
                          | Some fsname => if negb (mo_blkdev o) then subtype ++ lit "#" ++ fsname else source
                          | None => type
                          end in
            res ← mount_notrunc source mnt type (mo_flags o) data;
            mret (res, source, type)
          else mret (res, source, type)
      | _, _ => mret (res, source, type)
      end;
  let '(res, source, type) := r in
  res ← match res with
        | Some errno =>
            if errno =? EINVAL then mount_notrunc source mnt type (mo_flags o) (mo_buf o ++ id_opts fd rootmode false)
            else mret res
        | None => mret None
        end;
  mret match res with Some _ => None | None => Some (source, type) end.

(** The source, the type and the options of the new mount; [None] is [-1]. *)
Definition do_mount (mnt : cstring) (rootmode fd : Z) (opts dev : cstring) : X (option (cstring * cstring * cstring)) :=
  ok ← perform Malloc;
  if negb ok then mret None
  else
    r ← mount_opts_loop (length opts) opts (mkMopts (Z.lor MS_NOSUID MS_NODEV) [] None None false);
    match r with
    | None => mret None
    | Some o =>
        r ← get_mnt_opts (mo_flags o) (mo_buf o);
        match r with
        | None => mret None
        | Some mnt_opts =>
            ok1 ← perform Malloc;
            ok2 ← perform Malloc;
            if negb (ok1 && ok2) then mret None
            else
              r ← try_mount mnt o rootmode fd dev;
              mret match r with Some (source, type) => Some (source, type, mnt_opts) | None => None end
        end
    end.

(** ** Permissions *)

Definition S_IFMT : Z := 61440.
Definition S_IFDIR : Z := 16384.
Definition S_IFREG : Z := 32768.
Definition S_ISVTX : Z := 512.
Definition is_type (mode t : Z) : bool := Z.land mode S_IFMT =? t.

Definition f_type_whitelist : list Z :=
  [0x61756673; 0x00000187; 0xCA451A4E; 0x9123683E; 0x00C36400; 0xFF534D42; 0x0000F15F; 0x2011BAB0; 0x0000EF53;
   0xF2F52010; 0x65735546; 0x01161970; 0x47504653; 0x0000482b; 0x000072B6; 0x3153464A; 0x0BD00BD0; 0x00004D44;
   0x0000564C; 0x00006969; 0x00003434; 0x5346544E; 0x7366746E; 0x5346414f; 0x794C7630; 0xAAD7AAEA; 0x52654973;
   0xFE534D42; 0x73717368; 0x01021994; 0x24051905; 0x736675005346544e; 0x58465342; 0x2FC12FC1; 0x858458f6].

Definition procfile (fd : Z) : cstring := lit "/proc/self/fd/" ++ fmt_i fd.

(** A directory or a regular file: where to mount, its mode and a descriptor of a
    regular file; [false] is [-1]. *)
Definition check_target (mnt : cstring) (st : fstat) : X (bool * cstring * Z * Z) :=
  if is_type (st_mode st) S_IFDIR then
    c ← perform (Chdir mnt);
    match c with
    | Some _ => mret (false, mnt, st_mode st, -1)
    | None =>
        let mnt := lit "." in
        r ← perform (Lstat mnt);
        match r with
        | inl _ => mret (false, mnt, st_mode st, -1)
        | inr st =>
            if has_flag (st_mode st) S_ISVTX && negb (st_uid st =? uid) then mret (false, mnt, st_mode st, -1)
            else
              a ← perform (Access mnt);
              mret (match a with Some _ => false | None => true end, mnt, st_mode st, -1)
        end
    end
  else if is_type (st_mode st) S_IFREG then
    f ← perform (Open mnt);
    match f with
    | inl _ => mret (false, mnt, st_mode st, -1)
    | inr fd =>
        r ← perform (Fstat fd);
        match r with
        | inl _ => mret (false, mnt, st_mode st, fd)
        | inr st => if negb (is_type (st_mode st) S_IFREG) then mret (false, mnt, st_mode st, fd)
                    else mret (true, procfile fd, st_mode st, fd)
        end
    end
  else mret (false, mnt, st_mode st, -1).

Definition check_perm (mnt : cstring) : X (bool * cstring * Z * Z) :=
  r ← perform (Lstat mnt);
  match r with
  | inl _ => mret (false, mnt, 0, -1)
  | inr st =>
      if uid =? 0 then mret (true, mnt, st_mode st, -1)
      else
        r ← check_target mnt st;
        let '(ok, mnt, mode, fd) := r in
        if negb ok then mret (false, mnt, mode, fd)
        else
          f ← perform (Statfs mnt);
          match f with
          | inl _ => mret (false, mnt, mode, fd)
          | inr f_type => mret (bool_decide (f_type ∈ f_type_whitelist), mnt, mode, fd)
          end
  end.

Definition is_fuse_type (type : cstring) : bool :=
  strcmp_eq type (lit "fuse") || begins_with type (lit "fuse.").

Definition count_fuse_fs : X Z :=
  r ← perform ReadMtab;
  match r with
  | inl _ => mret (-1)
  | inr entries => mret (Z.of_nat (length (filter (fun e => is_fuse_type (mnt_type e) = true) entries)))
  end.

(** The device and its name; [None] is [-1]. *)
Definition open_fuse_device : X (option (Z * cstring)) :=
  drop_privs;;
  r ← perform (Open (lit "/dev/fuse"));
  r ← match r with
      | inl _ => mret None
      | inr fd =>
          ok ← perform Malloc;
          if negb ok then perform (Close fd);; mret None else mret (Some (fd, lit "/dev/fuse"))
      end;
  restore_privs;;
  mret r.

Definition close_fail (fd : Z) : X Z := perform (Close fd);; mret (-1).

(** After the mount: back to the root, and the entry in the mount table with the
    options that start with [x-]; [euid_root] is [geteuid() == 0]. *)
Definition mount_done (euid_root : bool) (fd : Z) (mnt source type mnt_opts x_opts : cstring) : X Z :=
  c ← perform (Chdir (lit "/"));
  match c with
  | Some _ => close_fail fd
  | None =>
      if negb euid_root then mret fd
      else
        mnt_opts ← (if negb (strlen x_opts =? 0) then
                      ok ← perform Malloc;
                      if negb ok then crash
                      else mret (if negb (strlen mnt_opts =? 0) then mnt_opts ++ [comma] ++ x_opts else x_opts)
                    else mret mnt_opts);
        ok ← perform (AddMount source mnt type mnt_opts);
        if negb ok then close_fail fd else mret fd
  end.

(** From the result of [check_perm] on: the descriptor of the device or [-1], and the
    type of the mount. *)
Definition mount_at (euid_root : bool) (fd : Z) (dev mnt do_mount_opts x_opts : cstring) (r : bool * cstring * Z * Z)
  : X (Z * option cstring) :=
  let '(ok, real_mnt, mode, mountpoint_fd) := r in
  restore_privs;;
  r ← (if ok : bool then do_mount real_mnt (Z.land mode S_IFMT) fd do_mount_opts dev else mret None);
  (if negb (mountpoint_fd =? -1) then perform (Close mountpoint_fd) else mret tt);;
  match r with
  | None => fd ← close_fail fd; mret (fd, None)
  | Some (source, type, mnt_opts) => fd ← mount_done euid_root fd mnt source type mnt_opts x_opts; mret (fd, Some type)
  end.

(** Whether the user has too many mounts. *)
Definition too_many_mounts : X bool :=
  s ← xget;
  if negb (uid =? 0) && negb (fm_mount_max s =? -1) then
    mount_count ← count_fuse_fs;
    mret (fm_mount_max s <=? mount_count)
  else mret false.

Definition mount_fuse (euid_root : bool) (mnt opts : cstring) : X (Z * option cstring) :=
  r ← open_fuse_device;
  match r with
  | None => mret (-1, None)
  | Some (fd, dev) =>
      drop_privs;;
      read_conf;;
      too_many ← too_many_mounts;
      if too_many : bool then fd ← close_fail fd; mret (fd, None)
      else
        r ← extract_x_options opts;
        match r with
        | inl _ => fd ← close_fail fd; mret (fd, None)
        | inr (do_mount_opts, x_opts) =>
            r ← check_perm mnt;
            mount_at euid_root fd dev mnt do_mount_opts x_opts r
        end
  end.

(** ** Unmounting *)

Definition is_fuse_or_blk (type : cstring) : bool :=
  strcmp_eq type (lit "fuse") || strcmp_eq type (lit "fuseblk") || begins_with type (lit "fuse.") ||
  begins_with type (lit "fuseblk.").

(** At the position [p] of the options a new one starts. *)
Definition option_start (opts : cstring) (p : nat) : bool :=
  match p with O => true | S q => ceq (char_at opts q) comma end.

(** The entry belongs to the user. *)
Definition owned_by (user : cstring) (e : mntent) : bool :=
  match strstr (mnt_opts e) (lit "user=") with
  | Some p => option_start (mnt_opts e) p && strcmp_eq (drop (p + 5) (mnt_opts e)) user
  | None => false
  end ||
  match strstr (mnt_opts e) (lit "user_id=") with
  | Some p =>
      let uidstr := fmt_u uid in
      let v := drop (p + 8) (mnt_opts e) in
      option_start (mnt_opts e) p && begins_with v uidstr &&
      (ceq (char_at v (length uidstr)) comma || ceq (char_at v (length uidstr)) NUL)
  | None => false
  end.

Definition may_unmount (mnt : cstring) : X bool :=
  match user_name with
  | None => mret false
  | Some user =>
      r ← perform ReadMtab;
      match r with
      | inl _ => mret false
      | inr entries =>
          mret (existsb (fun e => strcmp_eq (mnt_dir e) mnt && is_fuse_or_blk (mnt_type e) && owned_by user e) entries)
      end
  end.

(** The position of the last [c] in [s]. *)
Definition strrchr (s : cstring) (c : ascii) : option nat :=
  match strchr (reverse s) c with Some i => Some (length s - 1 - i)%nat | None => None end.

(** The last component, when the parent directory is the current one. *)
Definition chdir_to_parent (copy : cstring) : X (option cstring) :=
  match strrchr copy "/" with
  | None => mret None
  | Some p =>
      let last := drop (S p) copy in
      if bool_decide (last = []) then mret None
      else
        let parent := match p with O => lit "/" | S _ => take p copy end in
        c ← perform (Chdir parent);
        match c with
        | Some _ => mret None
        | None =>
            d ← perform Getcwd;
            match d with
            | None => mret None
            | Some buf => mret (if strcmp_eq buf parent then Some last else None)
            end
        end
  end.

Definition UMOUNT_DETACH : Z := 2.
Definition UMOUNT_NOFOLLOW : Z := 8.

Definition unmount_fuse_locked (mnt : cstring) (lazy : bool) : X bool :=
  ok ← (if negb (uid =? 0) then may_unmount mnt else mret true);
  if negb ok then mret false
  else
    ok ← perform Malloc;
    if negb ok then mret false
    else
      drop_privs;;
      r ← chdir_to_parent mnt;
      match r with
      | None => restore_privs;; mret false
      | Some last =>
          u ← perform (Umount last (Z.lor (if lazy then UMOUNT_DETACH else 0) UMOUNT_NOFOLLOW));
          restore_privs;;
          match u with
          | Some _ => mret false
          | None =>
              c ← perform (Chdir (lit "/"));
              match c with Some _ => mret false | None => perform (RemoveMount mnt) end
          end
      end.

Definition unmount_fuse (mnt : cstring) (lazy : bool) : X bool :=
  mtablock ← perform LockMtab;
  res ← unmount_fuse_locked mnt lazy;
  (if 0 <=? mtablock then perform (Close mtablock) else mret tt);;
  mret res.

(** ** Unmounting when the file system has died *)

(** The child of [check_is_mount]: whether there is a new entry [last] after the
    directory has become the root. *)
Definition check_is_mount_child (last : cstring) (type : option cstring) : X bool :=
  ok ← perform MountPrivate;
  if negb ok then mret false
  else
    ok ← perform OpenProcMounts;
    if negb ok then mret false
    else
      before ← perform ReadProcMounts;
      let count := length before in
      ok ← perform OpenProcMounts;
      if negb ok then mret false
      else
        ok ← perform BindParent;
        if negb ok then mret false
        else
          entries ← perform ReadProcMounts;
          mret (existsb (fun e => ceq (char_at (mnt_dir e) 0) "/" && strcmp_eq (drop 1 (mnt_dir e)) last &&
                                  match type with Some type => strcmp_eq (mnt_type e) type | None => true end)
                        (drop count entries)).

Definition check_is_mount (last : cstring) (type : option cstring) : X bool :=
  ok ← perform Fork;
  if negb ok then mret false
  else
    found ← check_is_mount_child last type;
    w ← perform Wait;
    mret match w with Some exited => exited && found | None => false end.

Definition recheck_ENOTCONN_as_owner (mnt : cstring) : X bool :=
  ok ← perform Fork;
  if negb ok then exit1
  else
    ids ← perform SetresIds;
    r ← (if negb ids then mret false
         else f ← perform (Open mnt); mret match f with inl errno => errno =? ENOTCONN | inr _ => false end);
    w ← perform Wait;
    match w with
    | None => exit1
    | Some exited => mret (exited && r)
    end.

Definition should_auto_unmount (mnt : cstring) (type : option cstring) : X bool :=
  ok ← perform Malloc;
  if negb ok then mret false
  else
    r ← chdir_to_parent mnt;
    match r with
    | None => mret false
    | Some last =>
        ok ← check_is_mount last type;
        if negb ok then mret false
        else
          f ← perform (Open mnt);
          match f with
          | inr fd => perform (Close fd);; mret false
          | inl errno =>
              if errno =? ENOTCONN then mret true
              else if errno =? EACCES then recheck_ENOTCONN_as_owner mnt
              else mret false
          end
    end.

(** ** The program *)

Definition S_IFSOCK : Z := 49152.
Definition MNT_DETACH : Z := 2.

(** Until the other end of the socket is closed; [fuel] messages at most. *)
Fixpoint wait_closed (fuel : nat) (cfd : Z) : X unit :=
  match fuel with
  | O => loops
  | S fuel =>
      r ← perform (Recv cfd);
      match r with
      | inr n => if n =? 0 then mret tt else wait_closed fuel cfd
      | inl errno => if errno =? EINTR then wait_closed fuel cfd else mret tt
      end
  end.

(** From the label [do_unmount]. *)
Definition do_unmount (euid_root : bool) (mnt : cstring) (lazy : bool) : X unit :=
  if euid_root then
    res ← unmount_fuse mnt lazy;
    if res : bool then mret tt else exit1
  else
    r ← perform (Umount mnt (if lazy then UMOUNT_DETACH else 0));
    match r with Some _ => exit1 | None => mret tt end.

(** From the label [wait_for_auto_unmount]. *)
Definition wait_for_auto_unmount (fuel : nat) (euid_root : bool) (cfd : Z) (mnt : cstring) (type : option cstring) : X unit :=
  ok ← perform (CloseInherited cfd);
  if negb ok then exit1
  else
    c ← perform (Chdir (lit "/"));
    match c with
    | Some _ => exit1
    | None =>
        wait_closed fuel cfd;;
        ok ← should_auto_unmount mnt type;
        if ok : bool then do_unmount euid_root mnt true else mret tt
    end.

(** What [getopt_long] has found: [-o], [-u], [--auto-unmount], [-z], [--comm-fd] and the
    only argument. *)
Record options := mkOptions {
  op_opts : cstring; op_unmount : bool; op_auto_unmount : bool; op_lazy : bool; op_commfd : option cstring;
  op_mountpoint : option cstring;
}.

(** The socket to send the descriptor to; when [fstat] fails the mode that is looked
    at has never been written. *)
Definition comm_socket (o : options) : X (option Z) :=
  env ← match op_commfd o with Some c => mret (Some c) | None => perform Getenv end;
  match env with
  | None => mret None
  | Some commfd =>
      match libfuse_strtol (Some commfd) with
      | inl _ => mret None
      | inr cfd =>
          r ← perform (Fstat (swrap 32 cfd));
          match r with
          | inr st => mret (if is_type (st_mode st) S_IFSOCK then Some (swrap 32 cfd) else None)
          | inl _ => crash
          end
      end
  end.

(** Mounting, and sending the descriptor. *)
Definition mount_and_send (euid_root : bool) (cfd : Z) (mnt opts : cstring) : X (option cstring) :=
  r ← mount_fuse euid_root mnt opts;
  let '(fd, type) := r in
  if fd =? -1 then exit1
  else
    ok ← perform (SendFd cfd fd);
    if negb ok then perform (Umount mnt MNT_DETACH);; exit1
    else perform (Close fd);; mret type.

(** [fuse_mnt_resolve_path] of [src/lib/mount_util.c]: links are followed except in
    the last component. *)
Definition strip_slashes (s : cstring) : cstring :=
  let t := reverse (skip_slashes (reverse s)) in
  match t with [] => take 1 s | _ => t end.

Definition fuse_mnt_resolve_path (orig : cstring) : X (option cstring) :=
  match orig with
  | [] => mret None
  | _ =>
      ok ← perform Malloc;
      if negb ok then mret None
      else
        let copy := strip_slashes orig in
        let '(toresolv, lastcomp) :=
          if ceq (char_at copy (length copy - 1)) "/" then (orig, None)
          else
            let '(lastcomp, toresolv) := match strrchr copy "/" with
                                         | None => (copy, lit ".")
                                         | Some p => (drop (S p) copy, match p with O => lit "/" | S _ => take p copy end)
                                         end in
            if strcmp_eq lastcomp (lit ".") || strcmp_eq lastcomp (lit "..") then (copy, None)
            else (toresolv, Some lastcomp) in
        r ← perform (Realpath toresolv);
        match r with
        | None => mret None
        | Some buf =>
            ok ← perform Malloc;
            if negb ok then mret None
            else mret (Some match lastcomp with
                            | None => buf
                            | Some l => if ceq (char_at buf (length buf - 1)) "/" then buf ++ l else buf ++ lit "/" ++ l
                            end)
        end
  end.

Definition main (fuel : nat) (euid_root : bool) (o : options) : X unit :=
  if op_lazy o && negb (op_unmount o || op_auto_unmount o) then exit1
  else match op_mountpoint o with
  | None => exit1
  | Some origmnt =>
      (if op_auto_unmount o then xmodify (fun s => set_auto_unmount s true) else mret tt);;
      drop_privs;;
      r ← fuse_mnt_resolve_path origmnt;
      match r with
      | None => restore_privs;; exit1
      | Some mnt =>
          c ← perform (Chdir (lit "/"));
          match c with
          | Some _ => exit1
          | None =>
              restore_privs;;
              if negb (op_auto_unmount o) && op_unmount o then do_unmount euid_root mnt (op_lazy o)
              else
                cfd ← comm_socket o;
                match cfd with
                | None => exit1
                | Some cfd =>
                    if op_auto_unmount o then wait_for_auto_unmount fuel euid_root cfd mnt None
                    else
                      type ← mount_and_send euid_root cfd mnt (op_opts o);
                      s ← xget;
                      if negb (fm_auto_unmount s) then mret tt
                      else wait_for_auto_unmount fuel euid_root cfd mnt type
                end
          end
      end
  end.
End fusermount.
