(* ===== verification/FusermountSafe.v ===== *)
(** * What the mount helper lets users do

    For a user who is not root, every [mount] that [Fusermount] makes, whatever the
    options are and whatever the system answers, has [nosuid] and [nodev], only
    options from a short list, the ids of the user, and a target that has passed the
    checks; every [umount] is of a mount that belongs to the user. *)
From S2P Require Import Prelude Receive Fusermount.

(** ** Running the program *)

(** [m] ends, with [Q] or, after [exit] or a bad access, with [E]. *)
Definition xwp {A} (m : X A) (Q : A -> fm -> Prop) (E : fm -> Prop) (s : fm) : Prop :=
  match m s with
  | (Done a, s') => Q a s'
  | (Exited, s') | (Crashed, s') => E s'
  | (Looping, _) => False
  end.

Lemma xwp_ret {A} (a : A) Q E s : Q a s -> xwp (mret a) Q E s.
Proof. done. Qed.

Lemma xwp_bind {A B} (m : X A) (f : A -> X B) Q E s : xwp m (fun a s' => xwp (f a) Q E s') E s -> xwp (m ≫= f) Q E s.
Proof. unfold xwp, mbind, X_bind. by destruct (m s) as [[] ?]. Qed.

Lemma xwp_mono {A} (m : X A) (P Q : A -> fm -> Prop) E s : xwp m P E s -> (forall a s', P a s' -> Q a s') -> xwp m Q E s.
Proof. unfold xwp. destruct (m s) as [[] ?]; auto. Qed.

Lemma xwp_get Q E s : Q s s -> xwp xget Q E s.
Proof. done. Qed.

Lemma xwp_modify f Q E s : Q tt (f s) -> xwp (xmodify f) Q E s.
Proof. done. Qed.

Ltac xwp_step :=
  match goal with
  | |- xwp (mbind _ _) _ _ _ => apply xwp_bind
  | |- xwp (mret _) _ _ _ => apply xwp_ret
  | |- xwp xget _ _ _ => apply xwp_get
  | |- xwp (xmodify _) _ _ _ => apply xwp_modify
  end.
Ltac xwp_steps := repeat (xwp_step; cbn beta).

(** ** Strings *)

Lemma strncmp0_prefix s p : nul_free p -> strncmp0 s p (length p) = true <-> p `prefix_of` s.
Proof.
  intros Hp. unfold strncmp0. rewrite bool_decide_eq_true take_app_length. split.
  - intros E. destruct (decide (length p <= length s)%nat).
    + rewrite take_app_le // in E. exists (drop (length p) s). by rewrite -{1}E take_drop.
    + exfalso. apply Hp. rewrite -E take_app_ge; [lia|]. apply elem_of_app. right.
      destruct (length p - length s)%nat eqn:El; [lia|]. cbn. left.
  - intros [t ->]. by rewrite -app_assoc take_app_length.
Qed.

Lemma begins_with_prefix s p : nul_free p -> begins_with s p = true <-> p `prefix_of` s.
Proof. apply strncmp0_prefix. Qed.

Lemma opt_eq_take s len o : nul_free o -> opt_eq s len o = true -> take len s = o.
Proof.
  intros Ho. unfold opt_eq. rewrite andb_true_iff Nat.eqb_eq. intros [<- Hp]. apply strncmp0_prefix in Hp as [t ->]; [|done].
  by rewrite take_app_length.
Qed.

Lemma nul_free_lit s : bool_decide (NUL ∈ lit s) = false -> nul_free (lit s).
Proof. intros Hb. by apply bool_decide_eq_false in Hb. Qed.

Lemma no_comma_lit s : bool_decide (comma ∈ lit s) = false -> comma ∉ lit s.
Proof. intros Hb. by apply bool_decide_eq_false in Hb. Qed.

(** For strings of the program. *)
Ltac literal := first [apply nul_free_lit; vm_compute; reflexivity | apply no_comma_lit; vm_compute; reflexivity].

(** What the kernel makes of the options: it splits them at the commas. *)
Fixpoint split_commas (s : cstring) : list cstring :=
  match s with
  | [] => [[]]
  | c :: s => if ceq c comma then [] :: split_commas s
              else match split_commas s with o :: os => (c :: o) :: os | [] => [[c]] end
  end.

Lemma split_commas_cons o s : comma ∉ o -> split_commas (o ++ comma :: s) = o :: split_commas s.
Proof.
  induction o as [|c o IH]; intros Hc; cbn [app split_commas]; [by rewrite ceq_refl|].
  apply not_elem_of_cons in Hc as [Hne Hc]. assert (ceq c comma = false) as -> by by apply ceq_false. by rewrite IH.
Qed.

Lemma split_commas_one o : comma ∉ o -> split_commas o = [o].
Proof.
  induction o as [|c o IH]; intros Hc; cbn [split_commas]; [done|].
  apply not_elem_of_cons in Hc as [Hne Hc]. assert (ceq c comma = false) as -> by by apply ceq_false. by rewrite IH.
Qed.

(** Options, each followed by a comma. *)
Definition join_opts (os : list cstring) : cstring := os ≫= (fun o => o ++ [comma]).

Lemma split_join_opts os s : Forall (fun o => comma ∉ o) os -> split_commas (join_opts os ++ s) = os ++ split_commas s.
Proof.
  induction 1 as [|o os Ho _ IH]; [done|]. unfold join_opts in *. rewrite bind_cons -!app_assoc. cbn [app].
  by rewrite split_commas_cons // IH.
Qed.

(** The numbers of [sprintf] consist of digits. *)
Lemma put_digits_elem fuel base n acc c : c ∈ put_digits fuel base n acc -> c ∈ acc \/ exists d, c = digit (d mod base).
Proof.
  revert n acc. induction fuel as [|fuel IH]; intros n acc; cbn [put_digits].
  - rewrite elem_of_cons. intros [->|]; eauto.
  - destruct (n <? base); [rewrite elem_of_cons; intros [->|]; eauto|]. intros [Hc|]%IH; [|by auto].
    rewrite elem_of_cons in Hc. destruct Hc as [->|]; eauto.
Qed.

Lemma length_put_digits fuel base n acc k : 2 <= base -> 0 <= n < base ^ Z.of_nat k -> (0 < k)%nat ->
  (length (put_digits fuel base n acc) <= length acc + k)%nat.
Proof.
  revert n acc k. induction fuel as [|fuel IH]; intros n acc k Hb Hn Hk; cbn [put_digits]; [cbn; lia|].
  destruct (Z.ltb_spec n base); [cbn; lia|]. destruct k as [|[|k]]; [lia|change (Z.of_nat 1) with 1 in Hn; lia|].
  etransitivity; [apply (IH _ _ (S k)); [done| |lia]|cbn; lia].
  rewrite Nat2Z.inj_succ Z.pow_succ_r in Hn; [lia|]. split; [apply Z.div_pos; lia|]. apply Z.div_lt_upper_bound; lia.
Qed.

Lemma digit_not_comma d : 0 <= d < 10 -> digit d <> comma /\ digit d <> NUL.
Proof.
  intros Hd. assert (forallb (fun x => negb (ceq (digit x) comma) && negb (ceq (digit x) NUL)) (seqZ 0 10) = true) as Hall by (vm_compute; reflexivity).
  rewrite forallb_forall in Hall. specialize (Hall d). rewrite -list_elem_of_In elem_of_seqZ in Hall.
  apply andb_true_iff in Hall as [H1 H2]; [|lia]. by rewrite !negb_true_iff !ceq_false in H1, H2.
Qed.

Lemma fmt_no_comma : (forall n, comma ∉ fmt_u n) /\ (forall n, comma ∉ fmt_o n) /\ (forall n, comma ∉ fmt_i n).
Proof.
  assert (forall fuel base n, 8 <= base <= 10 -> comma ∉ put_digits fuel base n []) as Hp.
  { intros fuel base n Hb [Hc|(d & Hd)]%put_digits_elem; [by apply elem_of_nil in Hc|].
    apply (proj1 (digit_not_comma (d mod base) ltac:(pose proof (Z.mod_pos_bound d base); lia))). done. }
  split_and!; intros n; [apply Hp; lia|apply Hp; lia|]. unfold fmt_i. destruct (n <? 0); [|apply Hp; lia].
  apply not_elem_of_cons. split; [done|apply Hp; lia].
Qed.

Lemma fmt_u_nul_free n : nul_free (fmt_u n).
Proof.
  intros [Hc|(d & Hd)]%put_digits_elem; [by apply elem_of_nil in Hc|].
  by apply (proj2 (digit_not_comma (d mod 10) ltac:(pose proof (Z.mod_pos_bound d 10); lia))).
Qed.

Lemma length_fmt_u n : (length (fmt_u n) <= 10)%nat.
Proof.
  unfold fmt_u. etransitivity; [apply (length_put_digits _ _ _ _ 10); [lia| |lia]|done].
  pose proof (wrap_range 32 n ltac:(lia)). change (10 ^ Z.of_nat 10) with 10000000000. lia.
Qed.

Lemma length_fmt_i n : 0 <= n < 2 ^ 31 -> (length (fmt_i n) <= 10)%nat.
Proof.
  intros Hn. unfold fmt_i. destruct (Z.ltb_spec n 0); [lia|]. etransitivity; [apply (length_put_digits _ _ _ _ 10); [lia| |lia]|done].
  change (10 ^ Z.of_nat 10) with 10000000000. lia.
Qed.

Lemma length_fmt_o n : 0 <= n < 2 ^ 18 -> (length (fmt_o n) <= 6)%nat.
Proof.
  intros Hn. unfold fmt_o. rewrite wrap_small; [lia|]. etransitivity; [apply (length_put_digits _ _ _ _ 6); [lia| |lia]|done]. lia.
Qed.

#[local] Opaque fmt_u fmt_o fmt_i.

(** ** Options *)

Lemma opt_length_le e s : (opt_length e s <= length s)%nat.
Proof.
  assert (forall n s, (length s <= n)%nat -> (opt_length e s <= length s)%nat) as Hn; [|by apply (Hn (length s))].
  clear s. induction n as [|n IH]; intros [|c [|c' s]] Hle; cbn [opt_length length] in *; try lia.
  - destruct (ceq c comma); lia.
  - destruct (e && ceq c backslash); [pose proof (IH s ltac:(lia)); lia|].
    destruct (ceq c comma); [lia|]. pose proof (IH (c' :: s) ltac:(cbn; lia)) as Hi. cbn [opt_length length] in Hi. lia.
Qed.

(** Without escapes an option ends at the first comma. *)
Lemma opt_length_false s : opt_length false s = match strchr s comma with Some i => i | None => length s end.
Proof.
  induction s as [|c s IH]; [done|]. cbn [opt_length strchr]. destruct s as [|c' s]; [by destruct (ceq c comma)|].
  cbn [andb]. destruct (ceq c comma); [done|]. rewrite IH. cbn [length]. by destruct (strchr (c' :: s) comma).
Qed.

Lemma take_opt_no_comma s : comma ∉ take (opt_length false s) s.
Proof.
  induction s as [|c s IH]; [apply not_elem_of_nil|]. rewrite opt_length_false. rewrite opt_length_false in IH. cbn [strchr].
  destruct (ceq c comma) eqn:Hc; [apply not_elem_of_nil|]. apply ceq_false in Hc.
  destruct (strchr s comma); cbn [fmap option_fmap option_map take length] in *; apply not_elem_of_cons; done.
Qed.

Lemma prefix_take_opt p s : comma ∉ p -> p `prefix_of` s -> p `prefix_of` take (opt_length false s) s.
Proof.
  intros Hc [t ->]. induction p as [|c p IH]; [apply prefix_nil|]. apply not_elem_of_cons in Hc as [Hne Hc].
  rewrite opt_length_false. rewrite opt_length_false in IH. cbn [app strchr].
  assert (ceq c comma = false) as -> by by apply ceq_false. destruct (strchr (p ++ t) comma); cbn [fmap option_fmap option_map take length] in *;
    apply prefix_cons; auto.
Qed.

Section safe.
Context (answer : forall A, list event -> call A -> A) (uid gid : Z) (user_name : option cstring) (pagesize : Z).
Hypothesis Huid : uid <> 0.

(** The events since the log was [L0] are all [ok]. *)
Definition since (ok : event -> Prop) (L0 : list event) (s : fm) : Prop :=
  exists l, fm_log s = L0 ++ l /\ Forall ok l.

Lemma since_event (ok : event -> Prop) L0 s e : since ok L0 s -> ok e -> since ok L0 (log_event s e).
Proof. intros (l & Hl & Hf) He. exists (l ++ [e]). cbn. rewrite Hl app_assoc. split; [done|]. apply Forall_app; auto. Qed.

Lemma perform_wp {A} (c : call A) (ok : event -> Prop) L0 (Q : A -> fm -> Prop) E s : since ok L0 s ->
  (forall a, ok (Event A (fm_priv s) c a)) ->
  (forall a s', since ok L0 s' -> s' = log_event s (Event A (fm_priv s) c a) -> Q a s') ->
  xwp (perform answer c) Q E s.
Proof. intros Hs Ho HQ. unfold xwp, perform. apply HQ; [|done]. apply since_event; auto. Qed.

(** What a user may pass to the kernel; [u]: [user_allow_other] is set. *)
Definition allowed (u : bool) (o : cstring) : Prop :=
  comma ∉ o /\ (o = lit "default_permissions" \/ o = lit "allow_other" /\ u = true \/
                lit "max_read=" `prefix_of` o \/ lit "blksize=" `prefix_of` o).

(** The options so far; [n] characters of them have been read. *)
Record opts_ok (u : bool) (n : nat) (o : mopts) : Prop := {
  oo_flags : has_flag (mo_flags o) MS_NOSUID = true /\ has_flag (mo_flags o) MS_NODEV = true;
  oo_buf : exists os, mo_buf o = join_opts os /\ Forall (allowed u) os;
  oo_len : (length (mo_buf o) <= n)%nat;
  oo_blkdev : mo_blkdev o = false;
}.

(** Safe flags are not [nosuid] and [nodev], or turn them on. *)
Lemma find_mount_flag_safe s len on flag k : k = 1 \/ k = 2 -> find_mount_flag uid s len = Some (on, flag) ->
  on = true \/ Z.testbit flag k = false.
Proof.
  intros Hk. unfold find_mount_flag. destruct (List.find _ _) as [f|] eqn:Hf; [|done]. intros [= <- <-].
  apply List.find_some in Hf as [Hin _]. assert (uid =? 0 = false) as -> by by apply Z.eqb_neq.
  repeat (destruct Hin as [<-|Hin]; [destruct Hk as [->| ->]; cbn; auto|]). done.
Qed.

Lemma flags_kept s len on flag x k : k = 1 \/ k = 2 -> find_mount_flag uid s len = Some (on, flag) -> Z.testbit x k = true ->
  Z.testbit (if on : bool then Z.lor x flag else Z.land x (Z.lnot flag)) k = true.
Proof.
  intros Hk Hf Hx. destruct (find_mount_flag_safe _ _ _ _ _ Hk Hf) as [->|Hb]; [by rewrite Z.lor_spec Hx|].
  destruct on; [by rewrite Z.lor_spec Hx|]. rewrite Z.land_spec Z.lnot_spec; [lia|]. by rewrite Hx Hb.
Qed.

(** *** Mounting *)

(** The ids as the kernel gets them. *)
Definition ids (fd rootmode : Z) (group : bool) : list cstring :=
  [lit "fd=" ++ fmt_i fd; lit "rootmode=" ++ fmt_o rootmode; lit "user_id=" ++ fmt_u uid] ++
  (if group then [lit "group_id=" ++ fmt_u gid] else []).

(** A [mount] that a user may make: on [target], with the descriptor [fd]. *)
Definition mount_ok (target : cstring) (fd rootmode : Z) (u : bool) (room : Z) (e : event) : Prop :=
  match ev_call e with
  | Mount source tgt type flags data =>
      tgt = target /\ has_flag flags MS_NOSUID = true /\ has_flag flags MS_NODEV = true /\
      (type = lit "fuse" \/ lit "fuse." `prefix_of` type) /\ strlen data < pagesize /\ strlen data < room /\
      exists os g, Forall (allowed u) os /\ split_commas data = os ++ ids fd rootmode g
  | _ => True
  end.

Section mount.
Variables (target : cstring) (fd rootmode : Z) (u : bool) (mx : Z) (opts : cstring) (L0 : list event).
Hypothesis Hfd : 0 <= fd < 2 ^ 31.
Hypothesis Hmode : 0 <= rootmode < 2 ^ 18.

(** While [do_mount] runs. *)
Definition mounting (s : fm) : Prop :=
  since (mount_ok target fd rootmode u (strlen opts + 128)) L0 s /\ fm_user_allow_other s = u /\ fm_mount_max s = mx.

Lemma perform_mounting {A} (c : call A) (Q : A -> fm -> Prop) s : mounting s ->
  (forall a b, mount_ok target fd rootmode u (strlen opts + 128) (Event A b c a)) ->
  (forall a s', mounting s' -> Q a s') -> xwp (perform answer c) Q mounting s.
Proof.
  intros [Hs Hu] Hc HQ. eapply perform_wp; [done|by intros|]. intros a s' Hs' ->. apply HQ. by split.
Qed.

Lemma kernel_opt_wp s len o n st : mounting st -> opts_ok u n o -> len = opt_length false s ->
  xwp (kernel_opt answer uid s len o) (fun r st' => mounting st' /\ forall o', r = Some o' -> opts_ok u (n + len + 1) o') mounting st.
Proof.
  intros Hst Ho Hlen. assert (uid =? 0 = false) as Hu0 by by apply Z.eqb_neq.
  assert (opts_ok u (n + len + 1) o) as Ho' by (destruct Ho; split; [done|done|lia|done]).
  unfold kernel_opt. xwp_step.
  assert (forall Q, (forall b st', mounting st' -> Q b st') -> xwp (large_read_skip answer s len) Q mounting st) as Hskip.
  { intros Q HQ. unfold large_read_skip. destruct (opt_eq _ _ _); [|by xwp_steps; apply HQ].
    xwp_step. apply perform_mounting; [done|done|]. intros a st' Hst'. xwp_steps. by apply HQ. }
  apply Hskip. intros skip st' Hst'. xwp_step. xwp_step. rewrite Hu0. cbn [negb andb].
  destruct (negb _ && _) eqn:Hallow; [xwp_steps; by split|].
  destruct skip; [xwp_steps; split; [done|]; by intros ? [= <-]|].
  destruct (find_mount_flag uid s len) as [[on flag]|] eqn:Hf.
  - xwp_steps. split; [done|]. intros o' [= <-]. destruct Ho' as [[Hf1 Hf2] Hb Hl Hbl]. split; cbn; try done.
    change MS_NOSUID with (2 ^ 1) in *. change MS_NODEV with (2 ^ 2) in *. rewrite !has_flag_pow // in Hf1, Hf2 |- *.
    split; eapply flags_kept; eauto.
  - match goal with |- xwp (if ?b then _ else _) _ _ _ => destruct b eqn:Hopt end; [|exact Hst']. xwp_steps. split; [done|]. intros o' [= <-].
    destruct Ho as [Hfl (os & Hb & Hos) Hl Hbl]. split; cbn; try done.
    + exists (os ++ [take len s]). rewrite Hb /join_opts bind_app bind_cons app_nil_r. split; [done|].
      apply Forall_app. split; [done|]. constructor; [|constructor]. split; [subst len; apply take_opt_no_comma|].
      rewrite !orb_true_iff in Hopt. destruct Hopt as [[[Hopt|Hopt]|Hopt]|Hopt].
      * left. apply opt_eq_take; [literal|done].
      * right. left. split; [apply opt_eq_take; [literal|done]|]. rewrite Hopt orb_true_l andb_true_r in Hallow. apply negb_false_iff in Hallow.
        destruct Hst' as [_ [<- _]]. done.
      * right. right. left. subst len. apply prefix_take_opt; [literal|]. by apply begins_with_prefix; [literal|].
      * right. right. right. subst len. apply prefix_take_opt; [literal|]. by apply begins_with_prefix; [literal|].
    + rewrite !length_app length_take. cbn. lia.
Qed.

(** A call other than [mount]. *)
Ltac other_call := apply perform_mounting; [done|done|].

Lemma mount_opt_wp s o n st : mounting st -> opts_ok u n o ->
  let len := opt_length (begins_with s (lit "fsname=") || begins_with s (lit "subtype=")) s in
  xwp (mount_opt answer uid s len o) (fun r st' => mounting st' /\ forall o', r = Some o' -> opts_ok u (n + len + 1) o') mounting st.
Proof.
  intros Hst Ho len. assert (uid =? 0 = false) as Hu0 by by apply Z.eqb_neq.
  assert (forall o', mo_flags o' = mo_flags o -> mo_buf o' = mo_buf o -> mo_blkdev o' = mo_blkdev o -> opts_ok u (n + len + 1) o') as Hsame.
  { intros o' E1 E2 E3. destruct Ho. split; rewrite ?E1 ?E2 ?E3 //. lia. }
  unfold mount_opt, get_string_opt. destruct (begins_with s (lit "fsname=")) eqn:Hfs.
  { xwp_step. xwp_step. other_call. intros ok st' Hst'. destruct ok; xwp_steps; (split; [done|]); intros o' Heq; [|done].
    injection Heq as <-. by apply Hsame. }
  destruct (begins_with s (lit "subtype=")) eqn:Hsub.
  { xwp_step. xwp_step. other_call. intros ok st' Hst'. destruct ok; xwp_steps; (split; [done|]); intros o' Heq; [|done].
    injection Heq as <-. by apply Hsame. }
  rewrite Hu0. destruct (opt_eq s len (lit "blkdev")); [xwp_steps; by split|].
  destruct (opt_eq s len (lit "auto_unmount")).
  { xwp_steps. split; [|intros o' [= <-]; by apply Hsame]. destruct Hst as [(l & ? & ?) ?]. split; [by exists l|done]. }
  match goal with |- xwp (if ?b then _ else _) _ _ _ => destruct b end; [by apply kernel_opt_wp|].
  xwp_steps. split; [done|]. intros o' [= <-]. by apply Hsame.
Qed.

Lemma opts_ok_mono n n' o : (n <= n')%nat -> opts_ok u n o -> opts_ok u n' o.
Proof. intros Hn []. split; try done. lia. Qed.

Lemma mount_opts_loop_wp fuel : forall s o n st, (length s <= fuel)%nat -> mounting st -> opts_ok u n o ->
  xwp (mount_opts_loop answer uid fuel s o) (fun r st' => mounting st' /\
    forall o', r = Some o' -> opts_ok u (match s with [] => n | _ => n + length s + 1 end) o') mounting st.
Proof.
  induction fuel as [|fuel IH]; intros s o n st Hf Hst Ho.
  - destruct s; [|cbn in Hf; lia]. cbn. xwp_steps. split; [done|]. by intros o' [= <-].
  - destruct s as [|c s]; cbn [mount_opts_loop]; [xwp_steps; split; [done|]; by intros o' [= <-]|].
    xwp_step. eapply xwp_mono; [by eapply mount_opt_wp|]. cbn zeta. set (len := opt_length _ _).
    assert (len <= length (c :: s))%nat as Hle by apply opt_length_le. clearbody len.
    intros r st' [Hst' Hr]. destruct r as [o'|]; [|xwp_steps; by split].
    specialize (Hr _ eq_refl). set (s' := drop 1 (drop len (c :: s))).
    assert (length s' = length s - len)%nat as Hl by (unfold s'; rewrite !length_drop; cbn [length]; lia). clearbody s'.
    eapply xwp_mono; [apply (IH s' _ (n + len + 1)%nat); [cbn in Hf; lia|done|done]|]. intros r st2 [Hst2 Hr2]. split; [done|].
    intros o2 Ho2. eapply opts_ok_mono; [|by apply Hr2]. cbn [length] in *. destruct s'; cbn [length] in *; lia.
Qed.

Lemma add_option_wp o opt (Q : option cstring -> fm -> Prop) st : mounting st ->
  (forall r st', mounting st' -> Q r st') -> xwp (add_option answer o opt) Q mounting st.
Proof. intros Hst HQ. unfold add_option. xwp_step. other_call. intros ok st' Hst'. destruct ok; xwp_steps; by apply HQ. Qed.

Lemma add_flags_wp flags fs : forall o (Q : option (option cstring) -> fm -> Prop) st, mounting st ->
  (forall r st', mounting st' -> Q r st') -> xwp (add_flags answer flags fs o) Q mounting st.
Proof.
  induction fs as [|f fs IH]; intros o Q st Hst HQ; cbn [add_flags]; [xwp_steps; by apply HQ|].
  destruct (_ && _); [|by apply IH]. xwp_step. apply add_option_wp; [done|]. intros [o'|] st' Hst'; [by apply IH|].
  xwp_steps. by apply HQ.
Qed.

Lemma get_mnt_opts_wp flags o (Q : option cstring -> fm -> Prop) st : mounting st ->
  (forall r st', mounting st' -> Q r st') -> xwp (get_mnt_opts answer uid user_name flags o) Q mounting st.
Proof.
  intros Hst HQ. unfold get_mnt_opts. xwp_step.
  assert (forall Q : option (option cstring) -> fm -> Prop, (forall r st', mounting st' -> Q r st') ->
    xwp (if negb (has_flag flags MS_RDONLY) then r ← add_option answer None (lit "rw"); mret (Some <$> r) else mret (Some None)) Q mounting st) as Hrw.
  { intros Q' HQ'. destruct (negb _); [|xwp_steps; by apply HQ']. xwp_step. apply add_option_wp; [done|]. intros r st' Hst'. xwp_steps. by apply HQ'. }
  apply Hrw. clear Hrw. intros [o1|] st1 Hst1; [|xwp_steps; by apply HQ]. xwp_step. apply add_flags_wp; [done|].
  intros [o2|] st2 Hst2; [|xwp_steps; by apply HQ]. xwp_step. apply add_option_wp; [done|].
  intros [o3|] st3 Hst3; [|xwp_steps; by apply HQ]. destruct (negb _); [|xwp_steps; by apply HQ].
  destruct user_name as [user|]; [|xwp_steps; by apply HQ]. xwp_step. apply add_option_wp; [done|].
  intros r st4 Hst4. xwp_steps. by apply HQ.
Qed.

(** *** The data *)

Lemma fmt_opt_no_comma b n : bool_decide (comma ∈ lit b) = false ->
  comma ∉ lit b ++ fmt_u n /\ comma ∉ lit b ++ fmt_o n /\ comma ∉ lit b ++ fmt_i n.
Proof.
  intros Hb%no_comma_lit. destruct fmt_no_comma as (Hu & Ho & Hi).
  split_and!; intros [Hc|Hc]%elem_of_app; [by apply Hb|by eapply Hu|by apply Hb|by eapply Ho|by apply Hb|by eapply Hi].
Qed.

Lemma split_id_opts group : split_commas (id_opts uid gid fd rootmode group) = ids fd rootmode group.
Proof.
  destruct (fmt_opt_no_comma "fd=" fd eq_refl) as (_ & _ & H1). destruct (fmt_opt_no_comma "rootmode=" rootmode eq_refl) as (_ & H2 & _).
  destruct (fmt_opt_no_comma "user_id=" uid eq_refl) as (H3 & _). destruct (fmt_opt_no_comma "group_id=" gid eq_refl) as (H4 & _).
  assert (id_opts uid gid fd rootmode group = (lit "fd=" ++ fmt_i fd) ++ comma :: (lit "rootmode=" ++ fmt_o rootmode) ++ comma ::
    (lit "user_id=" ++ fmt_u uid) ++ (if group then comma :: (lit "group_id=" ++ fmt_u gid) else [])) as ->.
  { unfold id_opts. rewrite -!app_assoc. by destruct group. }
  unfold ids. set (a := lit "fd=" ++ _) in *. set (b := lit "rootmode=" ++ _) in *. set (c := lit "user_id=" ++ _) in *.
  set (d := lit "group_id=" ++ _) in *. clearbody a b c d. rewrite !split_commas_cons //. cbn [app]. do 2 f_equal. destruct group.
  - by rewrite split_commas_cons // split_commas_one.
  - by rewrite app_nil_r split_commas_one.
Qed.

Lemma length_id_opts group : (length (id_opts uid gid fd rootmode group) <= 100)%nat.
Proof.
  pose proof (length_fmt_u uid). pose proof (length_fmt_u gid).
  pose proof (length_fmt_i fd Hfd). pose proof (length_fmt_o rootmode Hmode).
  unfold id_opts. rewrite !length_app. destruct group; rewrite ?length_app; cbn [length lit list_ascii_of_string]; lia.
Qed.

Lemma mount_notrunc_wp source type o group (Q : option Z -> fm -> Prop) st : mounting st -> opts_ok u (length opts + 1) o ->
  type = lit "fuse" \/ lit "fuse." `prefix_of` type -> (forall r st', mounting st' -> Q r st') ->
  xwp (mount_notrunc answer pagesize source target type (mo_flags o) (mo_buf o ++ id_opts uid gid fd rootmode group)) Q mounting st.
Proof.
  intros Hst [[Hf1 Hf2] (os & Hb & Hos) Hl _] Ht HQ. unfold mount_notrunc. destruct (Z.ltb_spec (pagesize - 1) (strlen (mo_buf o ++ id_opts uid gid fd rootmode group))).
  { xwp_steps. by apply HQ. }
  apply perform_mounting; [done| |done]. intros a b. split_and!; try done; [lia| |].
  - pose proof (length_id_opts group). unfold strlen. rewrite length_app. lia.
  - exists os, group. split; [done|]. rewrite Hb split_join_opts; [|by rewrite split_id_opts].
    eapply Forall_impl; [|exact Hos]. intros x Hx. apply Hx.
Qed.

Lemma try_mount_wp o dev st : mounting st -> opts_ok u (length opts + 1) o ->
  xwp (try_mount answer uid gid pagesize target o rootmode fd dev) (fun _ => mounting) mounting st.
Proof.
  intros Hst Ho. pose proof (oo_blkdev _ _ _ Ho) as Hblk. unfold try_mount. rewrite Hblk. cbn [fuse_type negb].
  assert (lit "fuse" = lit "fuse" \/ lit "fuse." `prefix_of` lit "fuse") as Hplain by by left.
  set (type := match mo_subtype o with Some subtype => lit "fuse" ++ lit "." ++ subtype | None => lit "fuse" end).
  assert (type = lit "fuse" \/ lit "fuse." `prefix_of` type) as Htype.
  { unfold type. destruct (mo_subtype o) as [sub|]; [right; by exists sub|by left]. }
  xwp_step. apply mount_notrunc_wp; [done|done|done|]. intros res st1 Hst1. xwp_step.
  assert (forall (Q : option Z * cstring * cstring -> fm -> Prop),
    (forall r source t st', (t = lit "fuse" \/ lit "fuse." `prefix_of` t) -> mounting st' -> Q (r, source, t) st') ->
    forall src, xwp (match res, mo_subtype o with
      | Some errno, Some subtype =>
          if errno =? ENODEV then
            res ← mount_notrunc answer pagesize (match mo_fsname o with Some fsname => subtype ++ lit "#" ++ fsname | None => lit "fuse" end)
                    target (lit "fuse") (mo_flags o) (mo_buf o ++ id_opts uid gid fd rootmode true);
            mret (res, match mo_fsname o with Some fsname => subtype ++ lit "#" ++ fsname | None => lit "fuse" end, lit "fuse")
          else mret (res, src, type)
      | _, _ => mret (res, src, type)
      end) Q mounting st1) as Hretry.
  { intros Q HQ src. destruct res as [errno|], (mo_subtype o) as [sub|]; try (xwp_steps; by apply HQ).
    destruct (errno =? ENODEV); [|xwp_steps; by apply HQ]. xwp_step. apply mount_notrunc_wp; [done|done|done|].
    intros r st' Hst'. xwp_steps. by apply HQ. }
  apply Hretry. clear Hretry. intros r source t st' Ht Hst'. xwp_step.
  assert (forall (Q : option Z -> fm -> Prop), (forall r st', mounting st' -> Q r st') ->
    xwp (match r with
         | Some errno => if errno =? EINVAL then mount_notrunc answer pagesize source target t (mo_flags o) (mo_buf o ++ id_opts uid gid fd rootmode false)
                         else mret r
         | None => mret None end) Q mounting st') as Hlast.
  { intros Q HQ. destruct r as [errno|]; [|xwp_steps; by apply HQ]. destruct (errno =? EINVAL); [|xwp_steps; by apply HQ].
    by apply mount_notrunc_wp. }
  apply Hlast. intros r' st2 Hst2. by xwp_steps.
Qed.

Lemma do_mount_wp dev st : mounting st ->
  xwp (do_mount answer uid gid user_name pagesize target rootmode fd opts dev) (fun _ => mounting) mounting st.
Proof.
  intros Hst. unfold do_mount. xwp_step. other_call. intros ok st1 Hst1. destruct ok; cbn [negb]; [|by xwp_steps].
  xwp_step. eapply xwp_mono; [apply (mount_opts_loop_wp _ opts _ 0 st1); [done|done|]|].
  { split; try done. exists []. by split. }
  intros r st2 [Hst2 Hr]. destruct r as [o|]; [|by xwp_steps].
  assert (opts_ok u (length opts + 1) o) as Ho by (eapply opts_ok_mono; [|by apply Hr]; destruct opts; cbn; lia).
  xwp_step. apply get_mnt_opts_wp; [done|]. intros [mo|] st3 Hst3; [|by xwp_steps].
  xwp_step. other_call. intros ok1 st4 Hst4. xwp_step. other_call. intros ok2 st5 Hst5.
  destruct (negb _); [by xwp_steps|]. xwp_step. eapply xwp_mono; [by apply try_mount_wp|]. intros r' st6 Hst6. by xwp_steps.
Qed.
End mount.

(** *** Before the mount *)

Definition not_mount (e : event) : Prop := match ev_call e with Mount _ _ _ _ _ => False | _ => True end.

(** The checks of the target that the log shows, all made with the privileges of the
    user: a file system of the list, and a directory the user can write to, which is
    the user's if it is sticky, or a regular file the user could open for writing. *)
Definition kind_checked (L : list event) (target : cstring) : Prop :=
  (target = lit "." /\ Event (option Z) false (Access target) None ∈ L /\
   exists st, Event (Z + fstat) false (Lstat target) (inr st) ∈ L /\ (has_flag (st_mode st) S_ISVTX = true -> st_uid st = uid)) \/
  (exists mnt fd st, target = procfile fd /\ Event (Z + Z) false (Open mnt) (inr fd) ∈ L /\
   Event (Z + fstat) false (Fstat fd) (inr st) ∈ L /\ is_type (st_mode st) S_IFREG = true).

Definition checked (L : list event) (target : cstring) : Prop :=
  (exists f_type, Event (Z + Z) false (Statfs target) (inr f_type) ∈ L /\ f_type ∈ f_type_whitelist) /\ kind_checked L target.

(** The number of mounts has been compared with the limit. *)
Definition below_limit (L : list event) (max : Z) : Prop :=
  max = -1 \/ exists a, Event (Z + list mntent) false ReadMtab a ∈ L /\
    match a with
    | inr entries => Z.of_nat (length (filter (fun e => is_fuse_type (mnt_type e) = true) entries)) < max
    | inl _ => -1 < max
    end.

Lemma kind_checked_app L L' t : kind_checked L t -> kind_checked (L ++ L') t.
Proof.
  intros [(-> & Ha & st & Hs & ?)|(mnt & fd & st & -> & Ho & Hs & ?)].
  - left. split_and!; [done|by apply elem_of_app; left|]. exists st. split; [by apply elem_of_app; left|done].
  - right. exists mnt, fd, st. split_and!; [done|by apply elem_of_app; left|by apply elem_of_app; left|done].
Qed.

Lemma below_limit_app L L' max : below_limit L max -> below_limit (L ++ L') max.
Proof. intros [->|(a & Ha & ?)]; [by left|right]. exists a. split; [by apply elem_of_app; left|done]. Qed.

(** Nothing has been mounted and the privileges are dropped. *)
Definition before (s : fm) : Prop := Forall not_mount (fm_log s) /\ fm_priv s = false.

(** In the end. *)
Definition confined (s : fm) : Prop :=
  exists L L', fm_log s = L ++ L' /\ Forall not_mount L /\
    (L' = [] \/ exists target fd rootmode opts, checked L target /\ below_limit L (fm_mount_max s) /\
      Forall (mount_ok target fd rootmode (fm_user_allow_other s) (strlen opts + 128)) L').

Lemma nothing_mounted s : Forall not_mount (fm_log s) -> confined s.
Proof. intros Hn. exists (fm_log s), []. rewrite app_nil_r. auto. Qed.

Lemma xwp_weaken {A} (m : X A) (P Q : A -> fm -> Prop) (D E : fm -> Prop) s :
  xwp m P D s -> (forall a s', P a s' -> Q a s') -> (forall s', D s' -> E s') -> xwp m Q E s.
Proof. unfold xwp. destruct (m s) as [[] ?]; auto. Qed.

Lemma perform_before {A} (c : call A) (Q : A -> fm -> Prop) E s : before s -> (forall a, not_mount (Event A false c a)) ->
  (forall a s', before s' -> s' = log_event s (Event A false c a) -> answer A (fm_log s) c = a -> Q a s') ->
  xwp (perform answer c) Q E s.
Proof.
  intros [Hn Hp] Hc HQ. unfold xwp, perform. rewrite Hp. apply HQ; [|done|done]. split; [|done]. cbn. apply Forall_app. auto.
Qed.

(** A call whose answer matters. *)
Ltac call_before a s := apply perform_before; [done|done|]; intros a s ?Hb ?Hlog _.

Lemma in_log s e : e ∈ fm_log (log_event s e).
Proof. cbn. apply elem_of_app. right. by left. Qed.

Lemma in_log_mono s e e' : e ∈ fm_log s -> e ∈ fm_log (log_event s e').
Proof. intros He. cbn. apply elem_of_app. by left. Qed.

(** What has been found about a target; the log has grown from [L0]. *)
Definition perm_post (P : list event -> cstring -> Prop) (max : Z) (u : bool) (L0 : list event) (x : bool * cstring * Z * Z) (s : fm) : Prop :=
  let '(ok, target, _, _) := x in before s /\ fm_mount_max s = max /\ fm_user_allow_other s = u /\
  L0 `prefix_of` fm_log s /\ (ok = true -> P (fm_log s) target).

Ltac find_event := first [apply in_log | apply in_log_mono; find_event].
Ltac grown := cbn [fm_log log_event]; first [done | apply prefix_app_r; grown].
Ltac perm_end := subst; split_and!; first [done | grown | idtac].

Lemma check_target_wp mnt st s : before s ->
  xwp (check_target answer uid mnt st) (perm_post kind_checked (fm_mount_max s) (fm_user_allow_other s) (fm_log s)) confined s.
Proof.
  intros Hb. unfold check_target. destruct (is_type _ S_IFDIR).
  { xwp_step. call_before a s1. destruct a; [xwp_steps; perm_end|]. xwp_step. call_before a s2.
    destruct a as [|st2]; [xwp_steps; perm_end|]. destruct (has_flag (st_mode st2) S_ISVTX && _) eqn:Hv; [xwp_steps; perm_end|].
    xwp_step. call_before a s3. xwp_steps. perm_end. destruct a; [done|]. intros _. left. split_and!; [done|find_event|].
    exists st2. split; [find_event|]. intros Hf. rewrite Hf in Hv. by apply negb_false_iff, Z.eqb_eq in Hv. }
  destruct (is_type _ S_IFREG); [|xwp_steps; perm_end].
  xwp_step. call_before a s1. destruct a as [|fd]; [xwp_steps; perm_end|]. xwp_step. call_before a s2.
  destruct a as [|st2]; [xwp_steps; perm_end|]. destruct (is_type (st_mode st2) S_IFREG) eqn:Hr; cbn [negb]; [|xwp_steps; perm_end].
  xwp_steps. perm_end. intros _. right. exists mnt, fd, st2. split_and!; [done|find_event|find_event|done].
Qed.

Lemma check_perm_wp mnt s : before s ->
  xwp (check_perm answer uid mnt) (perm_post checked (fm_mount_max s) (fm_user_allow_other s) (fm_log s)) confined s.
Proof.
  intros Hb. unfold check_perm. assert (uid =? 0 = false) as Hu0 by by apply Z.eqb_neq. rewrite Hu0.
  xwp_step. call_before a s1. destruct a as [e|st]; [xwp_steps; perm_end|]. xwp_step.
  eapply xwp_mono; [by apply check_target_wp|]. intros [[[ok t] mode] fd] s2 (Hb2 & Hm & Hu & Hp & Hk). subst s1. cbn in Hm, Hu, Hp.
  assert (fm_log s `prefix_of` fm_log s2) as Hp' by (etransitivity; [|exact Hp]; by apply prefix_app_r).
  destruct ok; cbn [negb]; [|xwp_steps; by split_and!]. xwp_step. call_before a s3.
  assert (fm_log s `prefix_of` fm_log s3) as Hp3 by (subst; cbn; by apply prefix_app_r).
  assert (fm_mount_max s3 = fm_mount_max s /\ fm_user_allow_other s3 = fm_user_allow_other s) as [? ?] by by subst.
  destruct a as [|f_type]; xwp_steps; (split_and!; [done..|]); [done|].
  intros Hw%bool_decide_eq_true. subst. split; [exists f_type; split; [find_event|done]|]. cbn. by apply kind_checked_app, Hk.
Qed.

(** *** The configuration is read and the limit looked up *)

Lemma fgets_rest n c file : (0 < n)%nat -> (length (fgets n (c :: file)).2 <= length file)%nat.
Proof.
  intros Hn. assert (forall m f, (length (fgets m f).2 <= length f)%nat) as Hle.
  { induction m as [|m IH]; intros [|d f]; cbn; try lia. destruct (ceq d newline); cbn; [lia|].
    specialize (IH f). destruct (fgets m f). cbn in *. lia. }
  destruct n; [lia|]. cbn. destruct (ceq c newline); [done|]. specialize (Hle n file). by destruct (fgets n file).
Qed.

Lemma read_lines_wp fuel : forall file b (Q : unit -> fm -> Prop) E s, (length file <= fuel)%nat -> before s ->
  (forall s', before s' -> Q tt s') -> xwp (read_lines fuel file b) Q E s.
Proof.
  induction fuel as [|fuel IH]; intros file b Q E s Hf Hb HQ; (destruct file as [|c file]; [by apply HQ|]); [cbn in Hf; lia|].
  cbn [read_lines]. pose proof (fgets_rest 255 c file ltac:(lia)) as Hr. destruct (fgets 255 (c :: file)) as [line rest]. cbn in Hr, Hf.
  assert (length rest <= fuel)%nat by lia. destruct b; [|by apply IH]. destruct (ends_with_newline line); [|by apply IH].
  xwp_step. unfold parse_line. destruct (strcmp_eq _ _); [xwp_step; by apply IH|]. destruct (scan_mount_max _); xwp_step; by apply IH.
Qed.

Lemma read_conf_wp (Q : unit -> fm -> Prop) s : before s -> (forall s', before s' -> Q tt s') -> xwp (read_conf answer) Q confined s.
Proof.
  intros Hb HQ. unfold read_conf. xwp_step. call_before a s1.
  assert (forall b Q' s', before s' -> (before s' -> Q' tt s') -> xwp (if b : bool then exit1 else mret tt) Q' confined s') as Hexit.
  { intros b Q' s' Hb' HQ'. destruct b; [apply nothing_mounted, Hb'|by apply HQ']. }
  destruct a as [e|[file ferr]]; [apply Hexit; auto|]. xwp_step. apply read_lines_wp; [done|done|]. intros s2 Hb2. apply Hexit; auto.
Qed.

Lemma count_fuse_fs_wp (Q : Z -> fm -> Prop) s : before s ->
  (forall n s', before s' -> fm_mount_max s' = fm_mount_max s -> fm_user_allow_other s' = fm_user_allow_other s ->
    (n < fm_mount_max s -> below_limit (fm_log s') (fm_mount_max s)) -> Q n s') -> xwp (count_fuse_fs answer) Q confined s.
Proof.
  intros Hb HQ. unfold count_fuse_fs. xwp_step. call_before a s1.
  destruct a as [e|es]; xwp_steps; (apply HQ; [done|by subst..|]); intros Hlt; right; eexists; (split; [subst; apply in_log|]); done.
Qed.

Lemma extract_x_options_wp opts (Q : Z + cstring * cstring -> fm -> Prop) E s : before s ->
  (forall r s', before s' -> fm_mount_max s' = fm_mount_max s -> fm_user_allow_other s' = fm_user_allow_other s ->
    fm_log s `prefix_of` fm_log s' -> Q r s') -> xwp (extract_x_options answer opts) Q E s.
Proof.
  intros Hb HQ. unfold extract_x_options. xwp_step. call_before a s1. xwp_step. call_before b s2.
  destruct (negb _); xwp_steps; (apply HQ; [done|by subst..|subst; grown]).
Qed.

Lemma privs_wp (b : bool) (Q : unit -> fm -> Prop) E s : Q tt (set_priv s b) -> xwp (if b then restore_privs uid else drop_privs uid) Q E s.
Proof. intros HQ. unfold drop_privs, restore_privs. rewrite (proj2 (Z.eqb_neq uid 0) Huid). by destruct b. Qed.

Section descriptors.
(** Descriptors are not negative and fit an [int]. *)
Hypothesis Hopen : forall l path fd, answer (Z + Z) l (Open path) = inr fd -> 0 <= fd < 2 ^ 31.

Lemma open_fuse_device_wp (Q : option (Z * cstring) -> fm -> Prop) E s : Forall not_mount (fm_log s) ->
  (forall r s', Forall not_mount (fm_log s') -> (forall fd dev, r = Some (fd, dev) -> 0 <= fd < 2 ^ 31) -> Q r s') ->
  xwp (open_fuse_device answer uid) Q E s.
Proof.
  intros Hn HQ. unfold open_fuse_device. xwp_step. apply (privs_wp false). xwp_step.
  assert (before (set_priv s false)) as Hb by by split. apply perform_before; [done|done|]. intros a s1 Hb1 _ Ha.
  assert (forall r s', before s' -> (forall fd dev, r = Some (fd, dev) -> 0 <= fd < 2 ^ 31) ->
    xwp (restore_privs uid;; mret r) Q E s') as Hend.
  { intros r s' Hb' Hr. xwp_step. apply (privs_wp true). xwp_steps. apply HQ; [apply Hb'|done]. }
  xwp_step. destruct a as [e|fd]; [xwp_step; by apply Hend|]. xwp_step. call_before ok s2. destruct ok; cbn [negb].
  - xwp_step. apply Hend; [done|]. intros fd' dev [= <- _]. by eapply Hopen.
  - xwp_step. call_before x s3. xwp_step. by apply Hend.
Qed.

(** *** The whole program *)

Lemma mounting_confined target fd rootmode u opts L0 s : Forall not_mount L0 -> checked L0 target -> below_limit L0 (fm_mount_max s) ->
  mounting target fd rootmode u (fm_mount_max s) opts L0 s -> confined s.
Proof.
  intros Hn Hc Hl [(l & Hlog & Hok) [<- _]]. exists L0, l. split_and!; [done|done|]. right. by exists target, fd, rootmode, opts.
Qed.

Lemma land_ifmt mode : 0 <= Z.land mode S_IFMT < 2 ^ 18.
Proof.
  split; [apply Z.land_nonneg; right; done|]. replace S_IFMT with (Z.land S_IFMT (Z.ones 18)) by done.
  rewrite Z.land_assoc Z.land_ones; [lia|]. by apply Z.mod_pos_bound.
Qed.

Section finish.
Variables (target : cstring) (fd rootmode : Z) (u : bool) (mx : Z) (opts : cstring) (L0 : list event).
Abbreviation busy := (mounting target fd rootmode u mx opts L0).

(** A call after the mount. *)
Lemma perform_busy {A} (c : call A) (Q : A -> fm -> Prop) s : busy s -> (forall a b, not_mount (Event A b c a)) ->
  (forall a s', busy s' -> Q a s') -> xwp (perform answer c) Q busy s.
Proof.
  intros Hs Hc HQ. apply perform_mounting; [done| |done]. intros a b. specialize (Hc a b). by destruct c.
Qed.

Lemma mount_done_wp e f mnt source type mo x s : busy s ->
  xwp (mount_done answer e f mnt source type mo x) (fun _ => busy) busy s.
Proof.
  intros Hs. assert (forall s, busy s -> xwp (close_fail answer f) (fun _ => busy) busy s) as Hcl.
  { intros s' Hs'. unfold close_fail. xwp_step. apply perform_busy; [done|done|]. intros _ s2 Hs2. by xwp_steps. }
  unfold mount_done. xwp_step. apply perform_busy; [done|done|]. intros [err|] s1 Hs1; [by apply Hcl|].
  destruct e; cbn [negb]; [|by xwp_steps]. xwp_step.
  assert (forall (Q : cstring -> fm -> Prop), (forall m s', busy s' -> Q m s') ->
    xwp (if negb (strlen x =? 0) then ok ← perform answer Malloc; if negb ok then crash
         else mret (if negb (strlen mo =? 0) then mo ++ [comma] ++ x else x) else mret mo) Q busy s1) as Hx.
  { intros Q HQ. destruct (negb (strlen x =? 0)); [|xwp_steps; by apply HQ]. xwp_step. apply perform_busy; [done|done|].
    intros ok s2 Hs2. destruct ok; cbn [negb]; [xwp_steps; by apply HQ|exact Hs2]. }
  apply Hx. intros m s2 Hs2. xwp_step. apply perform_busy; [done|done|]. intros ok s3 Hs3. destruct ok; cbn [negb]; [by xwp_steps|by apply Hcl].
Qed.
End finish.

(** The program when it starts. *)
Definition fm_start : fm := mkFm false 1000 false true [].

Lemma too_many_mounts_wp (Q : bool -> fm -> Prop) s : before s ->
  (forall b s', before s' -> fm_mount_max s' = fm_mount_max s -> (b = false -> below_limit (fm_log s') (fm_mount_max s)) -> Q b s') ->
  xwp (too_many_mounts answer uid) Q confined s.
Proof.
  intros Hb HQ. unfold too_many_mounts. xwp_step. xwp_step. rewrite (proj2 (Z.eqb_neq uid 0) Huid). cbn [negb andb].
  destruct (Z.eqb_spec (fm_mount_max s) (-1)); cbn [negb].
  - xwp_steps. apply HQ; [done|done|]. intros _. by left.
  - xwp_step. apply count_fuse_fs_wp; [done|]. intros k s3 Hb3 Hm3 Hu3 Hl3. xwp_steps. apply HQ; [done|done|].
    intros Hle%Z.leb_gt. by apply Hl3.
Qed.

Lemma close_fail_wp fd s : Forall not_mount (fm_log s) -> xwp (close_fail answer fd) (fun _ => confined) confined s.
Proof.
  intros Hn. unfold close_fail. xwp_step. unfold xwp at 1, perform. xwp_steps. apply nothing_mounted. cbn. apply Forall_app.
  split; [done|]. by constructor.
Qed.

Lemma close_fail_pair_wp fd s : Forall not_mount (fm_log s) ->
  xwp (fd ← close_fail answer fd; mret (fd, @None cstring)) (fun _ => confined) confined s.
Proof. intros Hn. xwp_step. eapply xwp_mono; [by apply close_fail_wp|]. intros a s' Hs'. by xwp_steps. Qed.

(** A target that did not pass. *)
Lemma mount_at_refused e fd dev mnt o x t mode mfd s : Forall not_mount (fm_log s) ->
  xwp (mount_at answer uid gid user_name pagesize e fd dev mnt o x (false, t, mode, mfd)) (fun _ => confined) confined s.
Proof.
  intros Hn. unfold mount_at. xwp_step. apply (privs_wp true). xwp_step. xwp_step. xwp_step. destruct (negb (mfd =? -1)).
  - unfold xwp at 1, perform. apply close_fail_pair_wp. cbn. apply Forall_app. split; [done|]. by constructor.
  - xwp_step. by apply close_fail_pair_wp.
Qed.

Lemma mount_at_wp e fd dev mnt o x t mode mfd s : before s -> 0 <= fd < 2 ^ 31 -> checked (fm_log s) t ->
  below_limit (fm_log s) (fm_mount_max s) ->
  xwp (mount_at answer uid gid user_name pagesize e fd dev mnt o x (true, t, mode, mfd)) (fun _ => confined) confined s.
Proof.
  intros Hb Hfd Hck Hl. unfold mount_at. xwp_step. apply (privs_wp true).
  set (busy := mounting t fd (Z.land mode S_IFMT) (fm_user_allow_other s) (fm_mount_max s) o (fm_log s)).
  assert (busy (set_priv s true)) as Hms by (split; [exists []; by rewrite app_nil_r|done]).
  assert (forall s', busy s' -> confined s') as Hfin.
  { intros s' Hs. pose proof Hs as (_ & _ & Hmx). eapply mounting_confined; [apply Hb|exact Hck|by rewrite Hmx|by rewrite Hmx]. }
  eapply xwp_weaken; [|intros a s' Hs; apply Hfin, Hs|exact Hfin]. xwp_step.
  eapply xwp_mono; [apply do_mount_wp; [done|apply land_ifmt|done]|]. intros r s7 Hs7. xwp_step.
  assert (forall (Q : unit -> fm -> Prop), (forall s', busy s' -> Q tt s') ->
    xwp (if negb (mfd =? -1) then perform answer (Close mfd) else mret tt) Q busy s7) as Hclose.
  { intros Q HQ. destruct (negb _); [|xwp_steps; by apply HQ]. apply perform_busy; [done|done|]. intros []. apply HQ. }
  apply Hclose. intros s8 Hs8. destruct r as [[[source type] mo]|].
  { xwp_step. eapply xwp_mono; [by apply mount_done_wp|]. intros a s9 Hs9. by xwp_steps. }
  unfold close_fail. xwp_step. xwp_step. apply perform_busy; [done|done|]. intros _ s9 Hs9. by xwp_steps.
Qed.

Lemma mount_fuse_wp e mnt opts s : Forall not_mount (fm_log s) ->
  xwp (mount_fuse answer uid gid user_name pagesize e mnt opts) (fun _ => confined) confined s.
Proof.
  intros Hn. unfold mount_fuse. xwp_step. apply open_fuse_device_wp; [done|]. intros r s1 Hn1 Hfd.
  destruct r as [[fd dev]|]; [|xwp_steps; by apply nothing_mounted].
  specialize (Hfd _ _ eq_refl). xwp_step. apply (privs_wp false). assert (before (set_priv s1 false)) as Hb1 by by split.
  xwp_step. apply read_conf_wp; [done|]. intros s2 Hb2. xwp_step. apply too_many_mounts_wp; [done|].
  intros too_many s3 Hb3 Hm3 Hl3. destruct too_many; [apply close_fail_pair_wp, Hb3|]. specialize (Hl3 eq_refl).
  xwp_step. apply extract_x_options_wp; [done|]. intros r s4 Hb4 Hm4 Hu4 [l4 Hl4].
  destruct r as [err|[do_opts x_opts]]; [apply close_fail_pair_wp, Hb4|].
  xwp_step. eapply xwp_mono; [by apply check_perm_wp|]. intros [[[ok t] mode] mfd] s5 (Hb5 & Hm5 & Hu5 & [l5 Hl5] & Hk5).
  destruct ok; [|apply mount_at_refused, Hb5]. apply mount_at_wp; [done|done|by apply Hk5|].
  rewrite Hm5 Hm4 Hm3 Hl5 Hl4. by apply below_limit_app, below_limit_app.
Qed.

(** C4: a user who is not root runs [fusermount3] with any options on any mount
    point, under every answer of the system: the program ends, and every [mount] it
    has made has [nosuid] and [nodev] set and the type of a FUSE file system, comes
    after checks of the mount point with the user's own privileges and of the number
    of mounts, and passes to the kernel only [default_permissions], [max_read],
    [blksize], [allow_other] when the configuration allows it, and once each the
    descriptor, the mode of the root and the user's own ids: options cannot smuggle
    in others, and they never overflow the buffer. *)
Theorem user_mounts_confined e mnt opts :
  exists r s', mount_fuse answer uid gid user_name pagesize e mnt opts fm_start = (r, s') /\ r <> Looping /\ confined s'.
Proof.
  pose proof (mount_fuse_wp e mnt opts fm_start ltac:(constructor)) as Hw. unfold xwp in Hw.
  destruct (mount_fuse _ _ _ _ _ _ _ _ _) as [r s']. exists r, s'. by destruct r.
Qed.

End descriptors.

(** ** Unmounting *)

Lemma strstr_prefix s t p : nul_free t -> strstr s t = Some p -> t `prefix_of` drop p s /\ (p <= length s)%nat.
Proof.
  intros Ht. revert p. induction s as [|c s IH]; intros p; cbn [strstr].
  - destruct (begins_with [] t) eqn:Hb; [|done]. intros [= <-]. split; [by apply begins_with_prefix|done].
  - destruct (begins_with (c :: s) t) eqn:Hb; [intros [= <-]; split; [by apply begins_with_prefix|cbn; lia]|].
    destruct (strstr s t) as [q|]; [|done]. intros [= <-]. destruct (IH q eq_refl). cbn. split; [done|lia].
Qed.

(** A piece of the options between commas is one of them. *)
Lemma split_commas_mid pre o rest : comma ∉ o -> (pre = [] \/ exists p, pre = p ++ [comma]) -> (rest = [] \/ exists r, rest = comma :: r) ->
  o ∈ split_commas (pre ++ o ++ rest).
Proof.
  intros Ho Hpre Hrest. assert (o ∈ split_commas (o ++ rest)) as Hor.
  { destruct Hrest as [->|[r ->]]; [rewrite app_nil_r split_commas_one //; by left|rewrite split_commas_cons //; by left]. }
  destruct Hpre as [->|[p ->]]; [done|]. rewrite -app_assoc. cbn [app]. induction p as [|c p IH]; cbn [app split_commas].
  - rewrite ceq_refl. by right.
  - destruct (ceq c comma); [by right|]. destruct (split_commas (p ++ comma :: o ++ rest)) as [|o' os] eqn:Hs; [by apply not_elem_of_nil in IH|].
    assert (o' :: os = split_commas (p ++ comma :: o ++ rest)) as Hs' by done. clear IH.
    assert (forall p, exists h t, split_commas (p ++ comma :: o ++ rest) = h :: t /\ o ∈ t) as Htail.
    { clear -Hor. induction p as [|d p IHp]; cbn [app split_commas]; [rewrite ceq_refl; eauto|].
      destruct IHp as (h & t & -> & Ht). destruct (ceq d comma); eexists _, _; (split; [done|]); [by right|done]. }
    destruct (Htail p) as (h & t & Ht & Hin). rewrite Hs in Ht. injection Ht as -> ->. by right.
Qed.

Lemma option_start_pre opts p : option_start opts p = true -> (p <= length opts)%nat -> take p opts = [] \/ exists q, take p opts = q ++ [comma].
Proof.
  destruct p as [|q]; [by left|]. cbn [option_start]. intros Hc%ceq_true Hp. right. exists (take q opts).
  apply take_S_r. unfold char_at in Hc. destruct (nth_lookup_or_length opts q NUL) as [Hl|]; [by rewrite Hc in Hl|lia].
Qed.

(** The options of a mount name the user as its owner: by [user_id=] anywhere, or by
    [user=] at the end. *)
Definition belongs (user : cstring) (e : mntent) : Prop :=
  (lit "user_id=" ++ fmt_u uid) ∈ split_commas (mnt_opts e) \/
  exists pre, mnt_opts e = pre ++ lit "user=" ++ user /\ (pre = [] \/ exists p, pre = p ++ [comma]).

Lemma owned_by_belongs user e : nul_free (mnt_opts e) -> owned_by uid user e = true -> belongs user e.
Proof.
  intros Hn. unfold owned_by. rewrite orb_true_iff. set (opts := mnt_opts e) in *. intros [Ho|Ho].
  - destruct (strstr opts (lit "user=")) as [p|] eqn:Hp; [|done]. apply strstr_prefix in Hp as [[t Ht] Hle]; [|literal].
    apply andb_true_iff in Ho as [Hs Hu%bool_decide_eq_true]. right. exists (take p opts). split; [|by apply option_start_pre].
    transitivity (take p opts ++ drop p opts); [by rewrite take_drop|]. by rewrite -Hu -drop_drop Ht.
  - destruct (strstr opts (lit "user_id=")) as [p|] eqn:Hp; [|done]. apply strstr_prefix in Hp as [[t Ht] Hle]; [|literal].
    assert (drop (p + 8) opts = t) as Hv by by rewrite -drop_drop Ht. rewrite Hv !andb_true_iff in Ho. destruct Ho as [[Hs Hb] He]. left.
    apply begins_with_prefix in Hb as [rest ->]; [|apply fmt_u_nul_free].
    assert (opts = take p opts ++ (lit "user_id=" ++ fmt_u uid) ++ rest) as Hopts.
    { rewrite -app_assoc -Ht. by rewrite take_drop. }
    fold opts. rewrite Hopts. apply split_commas_mid; [exact (proj1 (fmt_opt_no_comma "user_id=" uid eq_refl))|by apply option_start_pre|].
    destruct rest as [|c rest]; [by left|]. right. exists rest. f_equal. unfold char_at in He. assert (nth (length (fmt_u uid)) (fmt_u uid ++ c :: rest) NUL = c) as Hc by by rewrite nth_middle.
    rewrite Hc in He.
    apply orb_true_iff in He as [He%ceq_true|He%ceq_true]; [done|]. exfalso. apply Hn. rewrite Hopts He. rewrite !elem_of_app. right. right. by left.
Qed.


(** An [umount] that a user may make: of a mount of the user's that the mount table
    shows at [mnt], from its parent directory, without following links. *)
Definition umount_ok (mnt : cstring) (pre : list event) (e : event) : Prop :=
  match ev_call e with
  | Umount target flags =>
      has_flag flags UMOUNT_NOFOLLOW = true /\
      (exists parent, Event (option cstring) false Getcwd (Some parent) ∈ pre /\ target <> [] /\
        (mnt = parent ++ lit "/" ++ target \/ parent = lit "/" /\ mnt = lit "/" ++ target)) /\
      (exists user entries en b, user_name = Some user /\ Event (Z + list mntent) b ReadMtab (inr entries) ∈ pre /\ en ∈ entries /\
        mnt_dir en = mnt /\ is_fuse_or_blk (mnt_type en) = true /\ (nul_free (mnt_opts en) -> belongs user en))
  | _ => True
  end.

Definition umounts_ok (mnt : cstring) (s : fm) : Prop := forall i e, fm_log s !! i = Some e -> umount_ok mnt (take i (fm_log s)) e.

Lemma umounts_ok_event mnt s e : umounts_ok mnt s -> umount_ok mnt (fm_log s) e -> umounts_ok mnt (log_event s e).
Proof.
  intros Hs He i e'. cbn. intros [Hi|[Hi Hi2]]%lookup_app_Some.
  - rewrite take_app_le; [apply lookup_lt_Some in Hi; lia|]. by apply Hs.
  - apply list_lookup_singleton_Some in Hi2 as [Hz <-]. replace i with (length (fm_log s)) by lia. by rewrite take_app_length.
Qed.

Lemma perform_umounts {A} mnt (c : call A) (Q : A -> fm -> Prop) E s : umounts_ok mnt s -> (forall a, umount_ok mnt (fm_log s) (Event A (fm_priv s) c a)) ->
  (forall a s', umounts_ok mnt s' -> s' = log_event s (Event A (fm_priv s) c a) -> Q a s') -> xwp (perform answer c) Q E s.
Proof. intros Hs Hc HQ. unfold xwp, perform. apply HQ; [|done]. by apply umounts_ok_event. Qed.

Ltac umount_call a s := eapply perform_umounts; [done|done|]; intros a s ?Hs ?Hlog.

Lemma strrchr_split s c p : strrchr s c = Some p -> s = take p s ++ c :: drop (S p) s.
Proof.
  unfold strrchr. destruct (strchr (reverse s) c) as [i|] eqn:Hi; [|done]. intros [= <-].
  assert (forall t i, strchr t c = Some i -> t !! i = Some c) as Hlk.
  { induction t as [|d t IH]; intros k; cbn; [done|]. destruct (ceq d c) eqn:Hd; [intros [= <-]; by apply ceq_true in Hd as ->|].
    destruct (strchr t c) as [k'|]; [|done]. intros [= <-]. by apply IH. }
  apply Hlk in Hi. pose proof (lookup_lt_Some _ _ _ Hi) as Hlt. rewrite length_reverse in Hlt.
  rewrite reverse_lookup // in Hi. symmetry. apply take_drop_middle. rewrite -Hi. f_equal. lia.
Qed.

(** The entry of the user has been found. *)
Definition owned (mnt : cstring) (L : list event) : Prop :=
  exists user entries en b, user_name = Some user /\ Event (Z + list mntent) b ReadMtab (inr entries) ∈ L /\ en ∈ entries /\
    mnt_dir en = mnt /\ is_fuse_or_blk (mnt_type en) = true /\ (nul_free (mnt_opts en) -> belongs user en).

Lemma may_unmount_wp mnt (Q : bool -> fm -> Prop) E s : umounts_ok mnt s ->
  (forall b s', umounts_ok mnt s' -> (b = true -> owned mnt (fm_log s')) -> Q b s') ->
  xwp (may_unmount answer uid user_name mnt) Q E s.
Proof.
  intros Hs HQ. unfold may_unmount. destruct user_name as [user|] eqn:Hu; [|xwp_steps; by apply HQ]. xwp_step. umount_call a s1.
  destruct a as [e|entries]; xwp_steps; (apply HQ; [done|]); [done|]. intros Hex%existsb_exists. destruct Hex as (en & Hin & He).
  rewrite !andb_true_iff in He. destruct He as [[Hd Ht] Ho]. exists user, entries, en, (fm_priv s). subst s1. apply bool_decide_eq_true in Hd.
  split_and!; [done|apply in_log|by apply list_elem_of_In|done|done|]. intros Hn. by apply owned_by_belongs.
Qed.

(** In the parent directory of [mnt]. *)
Definition in_parent (mnt last : cstring) (L : list event) : Prop :=
  exists parent, Event (option cstring) false Getcwd (Some parent) ∈ L /\ last <> [] /\
    (mnt = parent ++ lit "/" ++ last \/ parent = lit "/" /\ mnt = lit "/" ++ last).

Lemma chdir_to_parent_wp mnt (Q : option cstring -> fm -> Prop) E s : umounts_ok mnt s -> fm_priv s = false ->
  (forall r s', umounts_ok mnt s' -> fm_log s `prefix_of` fm_log s' -> (forall last, r = Some last -> in_parent mnt last (fm_log s')) -> Q r s') ->
  xwp (chdir_to_parent answer mnt) Q E s.
Proof.
  intros Hs Hp HQ. unfold chdir_to_parent. destruct (strrchr mnt "/") as [p|] eqn:Hr; [|xwp_steps; by apply HQ].
  apply strrchr_split in Hr. set (last := drop (S p) mnt) in *. case_bool_decide as Hl; [xwp_steps; by apply HQ|].
  set (parent := match p with O => lit "/" | S _ => take p mnt end).
  xwp_step. umount_call a s1. destruct a; [xwp_steps; apply HQ; [done|subst; grown|done]|].
  xwp_step. umount_call a s2. destruct a as [buf|]; [|xwp_steps; apply HQ; [done|subst; grown|done]].
  xwp_steps. apply HQ; [done|subst; grown|]. intros l. destruct (strcmp_eq buf parent) eqn:Hb; [|done]. intros [= <-].
  apply bool_decide_eq_true in Hb as ->. exists parent. split_and!; [|done|].
  - subst s2 s1. cbn [fm_priv log_event]. rewrite Hp. apply in_log.
  - unfold parent. destruct p as [|p]; [by right|by left].
Qed.

Lemma owned_app mnt L L' : L `prefix_of` L' -> owned mnt L -> owned mnt L'.
Proof.
  intros [l ->] (user & es & en & b & ? & ? & ?). exists user, es, en, b. split_and!; [done|by apply elem_of_app; left|naive_solver..].
Qed.

Lemma unmount_fuse_wp mnt lazy s : umounts_ok mnt s ->
  xwp (unmount_fuse answer uid user_name mnt lazy) (fun _ => umounts_ok mnt) (umounts_ok mnt) s.
Proof.
  intros Hs. unfold unmount_fuse. xwp_step. umount_call mtablock s1. xwp_step.
  assert (forall (b : bool) s, umounts_ok mnt s -> xwp ((if 0 <=? mtablock then perform answer (Close mtablock) else mret tt);; mret b)
    (fun _ => umounts_ok mnt) (umounts_ok mnt) s) as Hend.
  { intros b s' Hs'. xwp_step. destruct (0 <=? mtablock); [umount_call a s2|xwp_step]; by xwp_steps. }
  unfold unmount_fuse_locked. rewrite (proj2 (Z.eqb_neq uid 0) Huid). cbn [negb]. xwp_step.
  apply may_unmount_wp; [done|]. intros ok s2 Hs2 Hown. destruct ok; cbn [negb]; [|xwp_step; by apply Hend]. specialize (Hown eq_refl).
  xwp_step. umount_call ok s3. destruct ok; cbn [negb]; [|xwp_step; by apply Hend].
  xwp_step. apply (privs_wp false). xwp_step. apply chdir_to_parent_wp; [done|done|]. intros r s4 Hs4 Hp4 Hr.
  destruct r as [last|]; [|xwp_step; apply (privs_wp true); xwp_step; by apply Hend]. specialize (Hr _ eq_refl).
  assert (owned mnt (fm_log s4)) as Hown4.
  { eapply owned_app; [exact Hp4|]. eapply owned_app; [|exact Hown]. subst s3. by apply prefix_app_r. }
  xwp_step. eapply perform_umounts; [done| |].
  { intros a. split_and!; [by destruct lazy|exact Hr|exact Hown4]. }
  intros a s5 Hs5 _. xwp_step. apply (privs_wp true). destruct a; [xwp_step; by apply Hend|].
  xwp_step. umount_call a s6. destruct a; [xwp_step; by apply Hend|]. umount_call a s7. by apply Hend.
Qed.

(** a user who is not root unmounts with [fusermount3 -u]: under every answer of
    the system the program ends, and every [umount] it has made is of the last
    component of the path, without following links, from a directory that the system
    has confirmed to be the parent, after the mount table has shown a FUSE mount at
    that path that belongs to the user. *)
Theorem user_unmounts_own mnt lazy :
  exists r s', unmount_fuse answer uid user_name mnt lazy fm_start = (r, s') /\ r <> Looping /\
    forall i e, fm_log s' !! i = Some e -> umount_ok mnt (take i (fm_log s')) e.
Proof.
  assert (umounts_ok mnt fm_start) as H0 by done. pose proof (unmount_fuse_wp mnt lazy _ H0) as Hw. unfold xwp in Hw.
  destruct (unmount_fuse _ _ _ _ _ _) as [r s']. exists r, s'. by destruct r.
Qed.
End safe.
