(* ===== verification/FusermountOpts.v ===== *)
(** * Options that start with x-

    [extract_x_options] of [Fusermount] takes a list of options apart: into those
    that start with [x-], which only the mount table gets, and the others.  It has
    always room, keeps the order and loses nothing but empty options.  It knows
    nothing of escapes, though, and the options it puts back hide the owner. *)
From S2P Require Import Prelude Receive Fusermount FusermountSafe.

(** Options with commas between them. *)
Definition join_commas (os : list cstring) : cstring :=
  match os with [] => [] | o :: os => o ++ (os ≫= (fun o' => comma :: o')) end.

(** Without the empty options in front. *)
Fixpoint drop_empty (os : list cstring) : list cstring :=
  match os with [] :: os' => drop_empty os' | _ => os end.

Definition is_x (o : cstring) : bool := begins_with o (lit "x-").

Lemma join_commas_snoc os o : os <> [] -> join_commas (os ++ [o]) = join_commas os ++ comma :: o.
Proof. destruct os as [|o' os]; [done|]. intros _. cbn. by rewrite bind_app -app_assoc /= app_nil_r. Qed.

Lemma drop_empty_join os : join_commas (drop_empty os) = [] <-> drop_empty os = [].
Proof. split; [|by intros ->]. induction os as [|[|c o] os IH]; [done|done|done]. Qed.

Lemma drop_empty_snoc os o :
  drop_empty (os ++ [o]) = match drop_empty os with [] => drop_empty [o] | _ => drop_empty os ++ [o] end.
Proof. induction os as [|[|c o'] os IH]; [done|exact IH|done]. Qed.

Lemma join_drop_snoc os o : join_commas (drop_empty (os ++ [o])) =
  match join_commas (drop_empty os) with [] => o | b => b ++ comma :: o end.
Proof.
  rewrite drop_empty_snoc. destruct (join_commas (drop_empty os)) as [|c b] eqn:Hj.
  - apply drop_empty_join in Hj as ->. destruct o; cbn; [done|]. by rewrite app_nil_r.
  - destruct (drop_empty os) as [|o' os'] eqn:Hd; [done|]. rewrite join_commas_snoc //. by rewrite Hj.
Qed.

(** The option in front and what follows it. *)
Lemma strchr_split s c : match strchr s c with
  | Some i => s = take i s ++ c :: drop (S i) s /\ c ∉ take i s /\ (i < length s)%nat
  | None => c ∉ s
  end.
Proof.
  induction s as [|d s IH]; cbn [strchr]; [apply not_elem_of_nil|]. destruct (ceq d c) eqn:Hd.
  - apply ceq_true in Hd as ->. split_and!; [done|apply not_elem_of_nil|cbn; lia].
  - apply ceq_false in Hd. destruct (strchr s c) as [i|]; cbn [fmap option_fmap option_map take drop length].
    + destruct IH as (He & Hn & Hl). split_and!; [by rewrite {1}He|apply not_elem_of_cons; done|lia].
    + apply not_elem_of_cons. done.
Qed.

Lemma x_test rest o tl : rest = o ++ tl -> (tl = [] \/ exists t, tl = comma :: t) ->
  strncmp0 rest (lit "x-") (Z.to_nat (Z.min 2 (strlen rest + 1))) = is_x o.
Proof.
  intros -> Htl. unfold is_x, begins_with. unfold strncmp0 at 1 2. cbn [length lit list_ascii_of_string].
  destruct o as [|a [|b o]].
  - destruct Htl as [->|[t ->]]; [done|]. unfold strlen. cbn [app length].
    replace (Z.to_nat (Z.min 2 (Z.of_nat (S (length t)) + 1))) with 2%nat by lia. by destruct t.
  - unfold strlen. rewrite length_app. cbn [length].
    replace (Z.to_nat (Z.min 2 (Z.of_nat (1 + length tl) + 1))) with 2%nat by lia.
    destruct Htl as [->|[t ->]]; [done|]. cbn [app take]. rewrite !bool_decide_eq_false_2 //; intros [=].
  - unfold strlen. rewrite length_app. cbn [length].
    by replace (Z.to_nat (Z.min 2 (Z.of_nat (S (S (length o)) + length tl) + 1))) with 2%nat by lia.
Qed.

(** One of the two strings: the options in it, and that there is room for more when
    [consumed] characters have been read. *)
Definition x_room (D : list cstring) (consumed : Z) : Prop :=
  join_commas (drop_empty D) = [] \/ strlen (join_commas (drop_empty D)) + 1 <= consumed.

Lemma x_buf_step orig D o opt_len consumed : x_room D consumed -> consumed + opt_len <= orig -> 0 <= consumed -> strlen o <= opt_len ->
  0 <= orig < 2 ^ 62 ->
  let b := join_commas (drop_empty D) in
  exists b' len', (if orig - strlen b <? orig then (b ++ [comma], u64 (orig - strlen b - 1)) else (b, orig - strlen b)) = (b', len') /\
    (swrap 64 (u64 (len' - opt_len)) <? 0) = false /\ b' ++ o = join_commas (drop_empty (D ++ [o])) /\
    u64 (len' - opt_len) = orig - strlen (b' ++ o) - (opt_len - strlen o) /\ strlen (b' ++ o) <= consumed + strlen o.
Proof.
  intros Hr Hc H0 Ho Horig b. assert (0 <= strlen b /\ 0 <= strlen o) as [? ?] by (unfold strlen; lia).
  assert (forall x, 0 <= x < 2 ^ 62 -> u64 x = x /\ (swrap 64 x <? 0) = false) as Hsmall.
  { intros x Hx. split; [apply wrap_small; lia|]. apply Z.ltb_ge. unfold swrap. rewrite Z.mod_small; [lia|].
    destruct (Z.ltb_spec x (2 ^ (64 - 1))); lia. }
  rewrite join_drop_snoc. fold b. unfold x_room in Hr. fold b in Hr. destruct b as [|c b0].
  - change (strlen []) with 0 in *. rewrite Z.sub_0_r Z.ltb_irrefl. eexists _, _. split; [done|]. cbn [app].
    destruct (Hsmall (orig - opt_len)) as [-> ->]; [lia|]. split_and!; [done|done|lia|lia].
  - destruct Hr as [|Hr]; [done|]. assert (0 < strlen (c :: b0)) by (unfold strlen; cbn; lia).
    rewrite (proj2 (Z.ltb_lt _ _)); [lia|]. eexists _, _. split; [done|].
    destruct (Hsmall (orig - strlen (c :: b0) - 1)) as [-> _]; [lia|].
    destruct (Hsmall (orig - strlen (c :: b0) - 1 - opt_len)) as [-> ->]; [lia|]. rewrite -app_assoc.
    assert (strlen ((c :: b0) ++ [comma] ++ o) = strlen (c :: b0) + 1 + strlen o) as Hs by (unfold strlen; rewrite !length_app; cbn; lia).
    split_and!; [done|done|lia|lia].
Qed.

Lemma x_loop_spec fuel orig : forall rest Dn Dx, (length rest < fuel)%nat -> 0 <= orig < 2 ^ 62 -> strlen rest < orig ->
  x_room Dn (orig - 1 - strlen rest) -> x_room Dx (orig - 1 - strlen rest) ->
  x_loop fuel orig rest (join_commas (drop_empty Dn)) (orig - strlen (join_commas (drop_empty Dn)))
    (join_commas (drop_empty Dx)) (orig - strlen (join_commas (drop_empty Dx))) =
  inr (join_commas (drop_empty (Dn ++ filter (fun o => is_x o = false) (split_commas rest))),
       join_commas (drop_empty (Dx ++ filter (fun o => is_x o = true) (split_commas rest)))).
Proof.
  induction fuel as [|fuel IH]; intros rest Dn Dx Hf Horig Hlt Hn Hx; [lia|]. cbn [x_loop].
  set (consumed := orig - 1 - strlen rest) in *. assert (consumed = orig - 1 - strlen rest) as Hcons by done. clearbody consumed.
  assert (0 <= consumed) by lia.
  assert (0 <= strlen rest) by (unfold strlen; lia).
  pose proof (strchr_split rest comma) as Hsp. destruct (strchr rest comma) as [i|].
  - destruct Hsp as (Hrest & Hno & Hi). set (o := take i rest) in *. set (next := drop (S i) rest) in *.
    assert (strlen o = Z.of_nat i) as Hlo by (unfold strlen, o; rewrite length_take; lia).
    assert (strlen next = strlen rest - strlen o - 1) as Hln by (rewrite Hlo; unfold strlen, next; rewrite length_drop; lia).
    assert (length next < fuel)%nat by (unfold strlen in *; lia). assert (0 <= strlen next) by (unfold strlen; lia).
    rewrite (x_test rest o (comma :: next)); [by eauto|by eauto|]. 
    assert (split_commas rest = o :: split_commas next) as -> by (rewrite Hrest; by apply split_commas_cons). rewrite !filter_cons.
    assert (forall D, x_room D consumed -> x_room D (orig - 1 - strlen next)) as Hmono by (intros D [?|?]; [by left|right; lia]).
    destruct (is_x o) eqn:Hox; cbn [decide].
    + destruct (x_buf_step orig Dx o (Z.of_nat i) consumed) as (b' & len' & -> & -> & Hj & Hl & Hle); [done|lia|lia|lia|lia|].
      rewrite Hl Hj -Hlo. replace (strlen o - strlen o) with 0 by lia. rewrite Z.sub_0_r.
      rewrite (IH next Dn (Dx ++ [o])); [done|lia|lia|by apply Hmono|right; rewrite -Hj; lia|].
      rewrite -app_assoc. repeat case_decide; done || congruence.
    + destruct (x_buf_step orig Dn o (Z.of_nat i) consumed) as (b' & len' & -> & -> & Hj & Hl & Hle); [done|lia|lia|lia|lia|].
      rewrite Hl Hj -Hlo. replace (strlen o - strlen o) with 0 by lia. rewrite Z.sub_0_r.
      rewrite (IH next (Dn ++ [o]) Dx); [done|lia|lia|right; rewrite -Hj; lia|by apply Hmono|].
      rewrite -app_assoc. repeat case_decide; done || congruence.
  - rewrite (x_test rest rest []); [by rewrite app_nil_r|by left|]. rewrite split_commas_one // !filter_cons !filter_nil.
    destruct (is_x rest) eqn:Hox.
    + destruct (x_buf_step orig Dx rest (strlen rest + 1) consumed) as (b' & len' & -> & -> & Hj & Hl & Hle); [done|lia|lia|lia|lia|].
      rewrite Hj. repeat case_decide; try congruence. by rewrite app_nil_r.
    + destruct (x_buf_step orig Dn rest (strlen rest + 1) consumed) as (b' & len' & -> & -> & Hj & Hl & Hle); [done|lia|lia|lia|lia|].
      rewrite Hj. repeat case_decide; try congruence. by rewrite app_nil_r.
Qed.

Lemma drop_empty_x os : drop_empty (filter (fun o => is_x o = true) os) = filter (fun o => is_x o = true) os.
Proof.
  destruct (filter _ os) as [|[|c o] l] eqn:Hf; [done| |done]. assert ([] ∈ filter (fun o => is_x o = true) os) as Hin by (rewrite Hf; by left).
  by apply list_elem_of_filter in Hin as [? _].
Qed.

(** C33: [extract_x_options] takes the options apart: the second string holds the
    options that start with [x-] and the first one the others, each in order and
    separated by commas, the others without empty options in front.  It fails only
    when there is no memory: the check for lack of room never strikes. *)
Theorem extract_x_partition answer opts s : strlen opts < 2 ^ 61 ->
  exists r s', extract_x_options answer opts s = (Done r, s') /\
    (r = inl (- ENOMEM) \/
     r = inr (join_commas (drop_empty (filter (fun o => is_x o = false) (split_commas opts))),
              join_commas (filter (fun o => is_x o = true) (split_commas opts)))).
Proof.
  intros Hlt. assert (0 <= strlen opts) by (unfold strlen; lia). unfold extract_x_options, mbind, X_bind, mret, X_ret, perform.
  destruct (negb _); eexists _, _; (split; [done|]); [by left|right].
  pose proof (x_loop_spec (S (length opts)) (strlen opts + 1) opts [] [] ltac:(lia) ltac:(lia) ltac:(lia) ltac:(by left) ltac:(by left)) as Hl.
  cbn [drop_empty join_commas app] in Hl. change (strlen []) with 0 in Hl. rewrite Z.sub_0_r in Hl. rewrite Hl.
  by rewrite drop_empty_x.
Qed.

(** ** A system that allows everything *)

Definition sample_answer (mtab : Z + list mntent) (conf : cstring) (A : Type) (l : list event) (c : call A) : A :=
  match c in call A return A with
  | Malloc => true
  | Mount _ _ _ _ _ | Umount _ _ | Chdir _ | Access _ => None
  | Lstat _ | Fstat _ => inr (mkFstat (S_IFDIR + 493) 1000)
  | Statfs _ => inr 0xEF53
  | Getcwd => Some (lit "/home")
  | Open _ => inr 5
  | Close _ => tt
  | LockMtab => -1
  | ReadMtab => mtab
  | ReadConf => inr (conf, false)
  | Uname => Some (6, 1)
  | AddMount _ _ _ _ | RemoveMount _ | SendFd _ _ | CloseInherited _ | Fork | MountPrivate | BindParent | OpenProcMounts
  | SetresIds => true
  | Realpath path => Some path
  | Getenv => Some (lit "3")
  | Recv _ => inr 0
  | Wait => Some true
  | ReadProcMounts => []
  | Stat _ => inr (mkFstat (S_IFDIR + 493) 1000)
  | Socketpair => Some (6, 7)
  | Setenv _ _ | Waitpid _ | Cloexec _ => tt
  | Spawn _ _ _ => inr 99
  | Recvmsg _ => inr (1, Some (Some 8))
  | Poll _ => false
  | Getfd _ => true
  | MntUmount _ _ => 0
  end.

Definition mounts (l : list event) : list (cstring * cstring * cstring * Z * cstring) :=
  omap (fun e => match ev_call e with Mount s t ty fl d => Some (s, t, ty, fl, d) | _ => None end) l.

Definition sample_conf : cstring := lit "user_allow_other" ++ [newline] ++ lit "mount_max = 0x10 # few" ++ [newline].
Definition sample_run (mtab : Z + list mntent) (conf opts : cstring) : ending (Z * option cstring) * fm :=
  mount_fuse (sample_answer mtab conf) 1000 100 (Some (lit "bob")) 4096 true (lit "/home/m") opts fm_start.

(** The options of a greedy user. *)
Example greedy_user : let '(r, s) := sample_run (inr []) sample_conf (lit "suid,user_id=0,allow_other,ro,fsname=a\,b,max_read=9,x-y") in
  r = Done (5, Some (lit "fuse")) /\ fm_mount_max s = 16 /\
  mounts (fm_log s) = [(lit "a,b", lit ".", lit "fuse", 7, lit "allow_other,max_read=9,fd=5,rootmode=40000,user_id=1000,group_id=100")].
Proof. vm_compute. done. Qed.

Lemma user_mounts_confined_witness : 1000 <> 0 /\
  exists r s', sample_run (inr []) sample_conf (lit "suid,user_id=0,allow_other") = (r, s') /\ r <> Looping /\ confined 1000 100 4096 s'.
Proof.
  assert (1000 <> 0) as Huid by discriminate.
  assert (forall l path fd, sample_answer (inr []) sample_conf (Z + Z) l (Open path) = inr fd -> 0 <= fd < 2 ^ 31) as Hopen
    by (intros l path fd Hfd; injection Hfd as <-; lia).
  split; [exact Huid|]. unfold sample_run.
  exact (user_mounts_confined (sample_answer (inr []) sample_conf) 1000 100 (Some (lit "bob")) 4096 Huid Hopen true (lit "/home/m")
    (lit "suid,user_id=0,allow_other")).
Defined.

Definition sample_mtab : list mntent := [mkMntent (lit "x") (lit "/home/m") (lit "fuse.x") (lit "rw,nosuid,nodev,user_id=1000,group_id=100")].

Lemma user_unmounts_own_witness : 1000 <> 0 /\
  exists r s', unmount_fuse (sample_answer (inr sample_mtab) []) 1000 (Some (lit "bob")) (lit "/home/m") false fm_start = (r, s') /\ r <> Looping /\
    forall i e, fm_log s' !! i = Some e -> umount_ok 1000 (Some (lit "bob")) (lit "/home/m") (take i (fm_log s')) e.
Proof.
  assert (1000 <> 0) as Huid by discriminate. split; [exact Huid|].
  exact (user_unmounts_own (sample_answer (inr sample_mtab) []) 1000 (Some (lit "bob")) Huid (lit "/home/m") false).
Defined.

(** It does unmount. *)
Example unmounted : (unmount_fuse (sample_answer (inr sample_mtab) []) 1000 (Some (lit "bob")) (lit "/home/m") false fm_start).1 = Done true.
Proof. vm_compute. done. Qed.

Lemma extract_x_partition_witness : exists r s', extract_x_options (sample_answer (inr []) []) (lit "x-a,ro,,x-b,fsname=f") fm_start = (Done r, s') /\
  (r = inl (- ENOMEM) \/ r = inr (lit "ro,,fsname=f", lit "x-a,x-b")).
Proof. apply (extract_x_partition (sample_answer (inr []) []) (lit "x-a,ro,,x-b,fsname=f") fm_start). reflexivity. Defined.

(** ** Where the program does something else *)

(** An escaped comma in front of [x-]: the option is taken out of the name, and the
    next one, which made the mount read-only, becomes part of it. *)
Theorem escaped_comma_swallows_option :
  mounts (fm_log (sample_run (inr []) [] (lit "fsname=a\,x-b,ro")).2) =
    [(lit "a,ro", lit ".", lit "fuse", Z.lor MS_NOSUID MS_NODEV, lit "fd=5,rootmode=40000,user_id=1000,group_id=100")].
Proof. vm_compute. done. Qed.

(** When the mount table cannot be read there is no limit on the number of mounts. *)
Theorem unreadable_table_no_limit : let conf := lit "mount_max = 0" ++ [newline] in
  length (mounts (fm_log (sample_run (inl EACCES) conf []).2)) = 1%nat /\
  length (mounts (fm_log (sample_run (inr []) conf []).2)) = 0%nat.
Proof. vm_compute. done. Qed.

(** In a mount table that is a file of its own, an option that starts with [x-] comes
    after [user=], and the user who mounted can no longer unmount. *)
Definition added (l : list event) : list mntent :=
  omap (fun e => match ev_call e with AddMount s m t o => Some (mkMntent s m t o) | _ => None end) l.

Theorem x_option_hides_owner :
  let unmount opts := (unmount_fuse (sample_answer (inr (added (fm_log (sample_run (inr []) [] opts).2))) []) 1000 (Some (lit "bob"))
                         (lit "/home/m") false fm_start).1 in
  unmount (lit "ro") = Done true /\ unmount (lit "ro,x-y") = Done false.
Proof. vm_compute. done. Qed.
