(* ===== verification/FusermountMain.v ===== *)
(** * The whole run of the mount helper

    [main] of [Fusermount] puts mounting, sending the descriptor, waiting for the end
    of the file system and unmounting together.  What the parts promise
    ([FusermountSafe]) holds of the whole: the calls in between neither mount nor
    unmount, except that a mount whose descriptor could not be sent is detached. *)
From S2P Require Import Prelude Receive Fusermount FusermountSafe FusermountOpts.

(** ** What a piece of the program adds to the log *)

(** Only calls of the kind [P]; with [G] the configuration stays as it is. *)
Definition grows (P : event -> Prop) (G : bool) {A} (m : X A) : Prop := forall s, exists l,
  fm_log (m s).2 = fm_log s ++ l /\ Forall P l /\
  (G = true -> fm_mount_max (m s).2 = fm_mount_max s /\ fm_user_allow_other (m s).2 = fm_user_allow_other s).

Definition not_umount (e : event) : Prop := match ev_call e with Umount _ _ => False | _ => True end.
Definition harmless (e : event) : Prop := not_mount e /\ not_umount e.

Create HintDb grows.

Section grows.
Context (P : event -> Prop) (G : bool).

Lemma grows_ending {A} (r : ending A) : grows P G (fun s => (r, s)).
Proof. intros s. exists []. by rewrite app_nil_r. Qed.

Lemma grows_get : grows P G xget.
Proof. intros s. exists []. by rewrite app_nil_r. Qed.

Lemma grows_bind {A B} (m : X A) (f : A -> X B) : grows P G m -> (forall a, grows P G (f a)) -> grows P G (m ≫= f).
Proof.
  intros Hm Hf s. destruct (Hm s) as (l & Hl & HP & HG). unfold mbind, X_bind.
  destruct (m s) as [[a| | |] s1]; cbn in *; [|exists l; split_and!; done..].
  destruct (Hf a s1) as (l' & Hl' & HP' & HG'). exists (l ++ l'). rewrite Hl' Hl app_assoc. split_and!; [done|by apply Forall_app|].
  intros Hg. destruct (HG Hg), (HG' Hg). split; congruence.
Qed.

Lemma grows_modify f : (forall s, fm_log (f s) = fm_log s) ->
  (G = true -> forall s, fm_mount_max (f s) = fm_mount_max s /\ fm_user_allow_other (f s) = fm_user_allow_other s) -> grows P G (xmodify f).
Proof. intros Hl HG s. exists []. rewrite app_nil_r. split; [apply Hl|]. split; [constructor|]. intros Hg. apply (HG Hg). Qed.

Lemma grows_perform answer {A} (c : call A) : (forall b a, P (Event A b c a)) -> grows P G (perform answer c).
Proof. intros Hc s. eexists [_]. split_and!; [done| |done]. by constructor. Qed.
End grows.

Ltac grow :=
  repeat match goal with
  | |- grows _ _ (mret ?a) => exact (grows_ending _ _ (Done a))
  | |- grows _ _ exit1 => exact (grows_ending _ _ Exited)
  | |- grows _ _ crash => exact (grows_ending _ _ Crashed)
  | |- grows _ _ loops => exact (grows_ending _ _ Looping)
  | |- grows _ _ xget => apply grows_get
  | |- grows _ _ (xmodify _) => apply grows_modify; [done|]; done
  | |- grows _ _ (perform _ _) => apply grows_perform; done
  | |- grows _ _ (mbind _ _) => apply grows_bind; [|intros ?]
  | |- grows _ _ (match ?x with _ => _ end) => destruct x
  | |- grows _ _ _ => progress cbn zeta beta
  | |- grows _ _ _ => solve [auto with grows]
  end.

Section main.
Context (answer : forall A, list event -> call A -> A) (uid gid : Z) (user_name : option cstring) (pagesize : Z).

(** *** Mounting does not unmount *)

Abbreviation mute := (grows not_umount false).

Lemma privs_grow P G : grows P G (drop_privs uid) /\ grows P G (restore_privs uid).
Proof. unfold drop_privs, restore_privs. split; grow. Qed.
Lemma drop_privs_grow P G : grows P G (drop_privs uid).
Proof. apply privs_grow. Qed.
Lemma restore_privs_grow P G : grows P G (restore_privs uid).
Proof. apply privs_grow. Qed.
#[local] Hint Resolve drop_privs_grow restore_privs_grow : grows.

Lemma open_fuse_device_mute : mute (open_fuse_device answer uid).
Proof. unfold open_fuse_device. grow. Qed.

Lemma read_lines_mute fuel : forall file b, mute (read_lines fuel file b).
Proof.
  induction fuel as [|fuel IH]; intros [|c file] b; cbn [read_lines]; grow.
  unfold parse_line. grow.
Qed.
#[local] Hint Resolve open_fuse_device_mute read_lines_mute : grows.

Lemma read_conf_mute : mute (read_conf answer).
Proof. unfold read_conf. grow. Qed.

Lemma too_many_mounts_mute : mute (too_many_mounts answer uid).
Proof. unfold too_many_mounts, count_fuse_fs. grow. Qed.

Lemma extract_x_options_mute opts : mute (extract_x_options answer opts).
Proof. unfold extract_x_options. grow. Qed.

Lemma check_perm_mute mnt : mute (check_perm answer uid mnt).
Proof. unfold check_perm, check_target. grow. Qed.

Lemma mount_opt_mute s len o : mute (mount_opt answer uid s len o).
Proof. unfold mount_opt, get_string_opt, kernel_opt, large_read_skip. grow. Qed.
#[local] Hint Resolve read_conf_mute too_many_mounts_mute extract_x_options_mute check_perm_mute mount_opt_mute : grows.

Lemma mount_opts_loop_mute fuel : forall s o, mute (mount_opts_loop answer uid fuel s o).
Proof. induction fuel as [|fuel IH]; intros [|c s] o; cbn [mount_opts_loop]; grow. Qed.

Lemma add_flags_mute flags fs : forall o, mute (add_flags answer flags fs o).
Proof. induction fs as [|f fs IH]; intros o; cbn [add_flags]; unfold add_option; grow. Qed.
#[local] Hint Resolve mount_opts_loop_mute add_flags_mute : grows.

Lemma get_mnt_opts_mute flags opts : mute (get_mnt_opts answer uid user_name flags opts).
Proof. unfold get_mnt_opts, add_option. grow. Qed.

Lemma try_mount_mute mnt o rootmode fd dev : mute (try_mount answer uid gid pagesize mnt o rootmode fd dev).
Proof. unfold try_mount, mount_notrunc. grow. Qed.
#[local] Hint Resolve get_mnt_opts_mute try_mount_mute : grows.

Lemma do_mount_mute mnt rootmode fd opts dev : mute (do_mount answer uid gid user_name pagesize mnt rootmode fd opts dev).
Proof. unfold do_mount. grow. Qed.

Lemma mount_done_mute e fd mnt source type mo x : mute (mount_done answer e fd mnt source type mo x).
Proof. unfold mount_done, close_fail. grow. Qed.
#[local] Hint Resolve do_mount_mute mount_done_mute : grows.

Lemma mount_fuse_mute e mnt opts : mute (mount_fuse answer uid gid user_name pagesize e mnt opts).
Proof. unfold mount_fuse, mount_at, close_fail. grow. Qed.

(** *** The other parts do not mount *)

Abbreviation calm := (grows not_mount true).

Lemma may_unmount_calm mnt : calm (may_unmount answer uid user_name mnt).
Proof. unfold may_unmount. grow. Qed.

Lemma chdir_to_parent_grow P mnt : (forall A (c : call A) b a, harmless (Event A b c a) -> P (Event A b c a)) ->
  grows P true (chdir_to_parent answer mnt).
Proof. intros HP. unfold chdir_to_parent. grow; apply grows_perform; intros; by apply HP. Qed.
#[local] Hint Resolve may_unmount_calm : grows.

Lemma unmount_fuse_calm mnt lazy : calm (unmount_fuse answer uid user_name mnt lazy).
Proof.
  unfold unmount_fuse, unmount_fuse_locked. grow; try (apply chdir_to_parent_grow; by intros ????[? _]).
Qed.

(** *** The calls in between *)

Abbreviation idle := (grows harmless true).

Lemma chdir_to_parent_idle mnt : idle (chdir_to_parent answer mnt).
Proof. by apply chdir_to_parent_grow. Qed.
#[local] Hint Resolve chdir_to_parent_idle : grows.

Lemma should_auto_unmount_idle mnt type : idle (should_auto_unmount answer mnt type).
Proof. unfold should_auto_unmount, check_is_mount, check_is_mount_child, recheck_ENOTCONN_as_owner. grow. Qed.

Lemma wait_closed_idle fuel cfd : idle (wait_closed answer fuel cfd).
Proof. induction fuel as [|fuel IH]; cbn [wait_closed]; grow. Qed.

Lemma comm_socket_idle o : idle (comm_socket answer o).
Proof. unfold comm_socket. grow. Qed.

Lemma fuse_mnt_resolve_path_idle p : idle (fuse_mnt_resolve_path answer p).
Proof. unfold fuse_mnt_resolve_path. grow. Qed.

(** ** Putting them together *)

(** [m] ends with [Q] or, in every other way, with [E]. *)
Definition run {A} (m : X A) (Q : A -> fm -> Prop) (E : fm -> Prop) (s : fm) : Prop :=
  match m s with (Done a, s') => Q a s' | (_, s') => E s' end.

Lemma run_ret {A} (a : A) (Q : A -> fm -> Prop) E s : Q a s -> run (mret a) Q E s.
Proof. done. Qed.

Lemma run_bind {A B} (m : X A) (f : A -> X B) Q E s : run m (fun a s' => run (f a) Q E s') E s -> run (m ≫= f) Q E s.
Proof. unfold run, mbind, X_bind. by destruct (m s) as [[] ?]. Qed.

Lemma run_grows {A} P G (m : X A) (Q : A -> fm -> Prop) E s : grows P G m ->
  (forall s' l, fm_log s' = fm_log s ++ l -> Forall P l ->
     (G = true -> fm_mount_max s' = fm_mount_max s /\ fm_user_allow_other s' = fm_user_allow_other s) -> E s' /\ forall a, Q a s') -> run m Q E s.
Proof.
  intros Hm HQ. destruct (Hm s) as (l & Hl & HP & HG). unfold run. destruct (m s) as [r s']. cbn in *.
  destruct (HQ s' l Hl HP HG) as [HE HQ']. by destruct r.
Qed.

Lemma run_xwp {A} (m : X A) (Q : A -> fm -> Prop) E s : xwp m Q E s -> run m Q E s.
Proof. unfold xwp, run. by destruct (m s) as [[] ?]. Qed.

Lemma run_and {A} (m : X A) (Q Q' : A -> fm -> Prop) (E E' : fm -> Prop) s :
  run m Q E s -> run m Q' E' s -> run m (fun a s' => Q a s' /\ Q' a s') (fun s' => E s' /\ E' s') s.
Proof. unfold run. by destruct (m s) as [[] ?]. Qed.

Lemma run_weaken {A} (m : X A) (Q Q' : A -> fm -> Prop) (E E' : fm -> Prop) s :
  run m Q E s -> (forall a s', Q a s' -> Q' a s') -> (forall s', E s' -> E' s') -> run m Q' E' s.
Proof. unfold run. destruct (m s) as [[] ?]; auto. Qed.

(** A mount whose descriptor could not be sent is detached. *)
Definition detached (mnt : cstring) (pre : list event) (e : event) : Prop :=
  match ev_call e with
  | Umount target flags => target = mnt /\ flags = MNT_DETACH /\ exists b sock fd, Event bool b (SendFd sock fd) false ∈ pre
  | _ => False
  end.

(** Between the calls, and in the end. *)
Definition tidy (mnt : cstring) (s : fm) : Prop := confined uid gid pagesize s /\ umounts_ok uid user_name mnt s.
Definition final (s : fm) : Prop := confined uid gid pagesize s /\
  exists mnt, forall i e, fm_log s !! i = Some e -> umount_ok uid user_name mnt (take i (fm_log s)) e \/ detached mnt (take i (fm_log s)) e.

Lemma tidy_final mnt s : tidy mnt s -> final s.
Proof. intros [Hc Hu]. split; [done|]. exists mnt. intros i e Hi. left. by apply Hu. Qed.

Lemma confined_grows s s' l : confined uid gid pagesize s -> fm_log s' = fm_log s ++ l -> Forall not_mount l ->
  fm_mount_max s' = fm_mount_max s /\ fm_user_allow_other s' = fm_user_allow_other s -> confined uid gid pagesize s'.
Proof.
  intros (L & L' & Hl & Hn & Hm) Hs' Hnl [Hmx Hu]. unfold confined. rewrite Hs' Hl Hmx Hu.
  destruct Hm as [->|(t & fd & md & o & Hck & Hb & Hf)].
  - exists (L ++ l), []. rewrite !app_nil_r. split_and!; [done|by apply Forall_app|by left].
  - exists L, (L' ++ l). rewrite app_assoc. split_and!; [done|done|]. right. exists t, fd, md, o. split_and!; [done|done|].
    apply Forall_app. split; [done|]. revert Hnl. apply Forall_impl. intros [A b c a]. unfold not_mount, mount_ok. by destruct c.
Qed.

Lemma umounts_ok_grows mnt s s' l : umounts_ok uid user_name mnt s -> fm_log s' = fm_log s ++ l -> Forall not_umount l -> umounts_ok uid user_name mnt s'.
Proof.
  intros Hu Hl Hn i e. rewrite Hl. intros [Hi|[Hi Hi2]]%lookup_app_Some.
  - rewrite take_app_le; [apply lookup_lt_Some in Hi; lia|]. by apply Hu.
  - apply (Forall_lookup_1 _ _ _ _ Hn) in Hi2. destruct e as [A b c a]. unfold not_umount, umount_ok in *. by destruct c.
Qed.

Lemma harmless_split l : Forall harmless l -> Forall not_mount l /\ Forall not_umount l.
Proof. intros Hl. split; (eapply Forall_impl; [|exact Hl]); by intros e [? ?]. Qed.

Lemma run_idle {A} mnt (m : X A) (Q : A -> fm -> Prop) s : idle m -> tidy mnt s ->
  (forall a s', tidy mnt s' -> Q a s') -> run m Q final s.
Proof.
  intros Hm [Hc Hu] HQ. eapply run_grows; [exact Hm|]. intros s' l Hl [Hnm Hnu]%harmless_split HG.
  assert (tidy mnt s') as Ht by (split; [by eapply confined_grows; eauto|by eapply umounts_ok_grows]). split; [by eapply tidy_final|auto].
Qed.

(** Before anything has happened. *)
Definition fresh (s : fm) : Prop := Forall harmless (fm_log s).

Lemma fresh_tidy mnt s : fresh s -> tidy mnt s.
Proof.
  intros [Hm Hu]%harmless_split. split; [by apply nothing_mounted|]. by apply (umounts_ok_grows mnt fm_start s (fm_log s)).
Qed.

Lemma run_fresh {A} (m : X A) (Q : A -> fm -> Prop) s : idle m -> fresh s -> (forall a s', fresh s' -> Q a s') -> run m Q final s.
Proof.
  intros Hm Hs HQ. eapply run_grows; [exact Hm|]. intros s' l Hl Hf _.
  assert (fresh s') as Hs' by (unfold fresh; rewrite Hl; by apply Forall_app). split; [by eapply tidy_final, (fresh_tidy [])|auto].
Qed.

Lemma perform_idle {A} (c : call A) : (forall b a, harmless (Event A b c a)) -> idle (perform answer c).
Proof. apply grows_perform. Qed.

Hypothesis Huid : uid <> 0.

Lemma do_unmount_run mnt lazy s : tidy mnt s -> run (do_unmount answer uid user_name true mnt lazy) (fun _ => final) final s.
Proof.
  intros [Hc Hu]. unfold do_unmount. apply run_bind.
  eapply (run_weaken _ (fun _ s' => umounts_ok uid user_name mnt s' /\ confined uid gid pagesize s') _ (fun s' => umounts_ok uid user_name mnt s' /\ confined uid gid pagesize s')).
  - apply run_and; [apply run_xwp; by apply unmount_fuse_wp|]. eapply run_grows; [apply unmount_fuse_calm|].
    intros s' l Hl Hf HG. split; [|intros _]; (eapply confined_grows; [exact Hc|exact Hl|exact Hf|by apply HG]).
  - intros res s' [? ?]. assert (final s') by by apply (tidy_final mnt). by destruct res.
  - intros s' [? ?]. by apply (tidy_final mnt).
Qed.

Lemma wait_for_auto_unmount_run fuel cfd mnt type s : tidy mnt s ->
  run (wait_for_auto_unmount answer uid user_name fuel true cfd mnt type) (fun _ => final) final s.
Proof.
  intros Hs. assert (forall s', tidy mnt s' -> final s') as Hfin by (intros s'; apply tidy_final).
  unfold wait_for_auto_unmount. apply run_bind. apply (run_idle mnt); [by apply perform_idle|done|]. intros ok s1 Hs1.
  destruct ok; cbn [negb]; [|by apply Hfin]. apply run_bind. apply (run_idle mnt); [by apply perform_idle|done|]. intros c s2 Hs2.
  destruct c; [by apply Hfin|]. apply run_bind. apply (run_idle mnt); [apply wait_closed_idle|done|]. intros _ s3 Hs3.
  apply run_bind. apply (run_idle mnt); [apply should_auto_unmount_idle|done|]. intros ok' s4 Hs4.
  destruct ok'; [by apply do_unmount_run|by apply Hfin].
Qed.

Hypothesis Hopen : forall l path fd, answer (Z + Z) l (Open path) = inr fd -> 0 <= fd < 2 ^ 31.

Lemma mount_fuse_run e mnt opts s : fresh s ->
  run (mount_fuse answer uid gid user_name pagesize e mnt opts) (fun _ => tidy mnt) (tidy mnt) s.
Proof.
  intros Hs. pose proof (fresh_tidy mnt _ Hs) as [_ Hu]. apply harmless_split in Hs as [Hm _].
  apply run_and; [apply run_xwp; by apply mount_fuse_wp|]. eapply run_grows; [apply mount_fuse_mute|].
  intros s' l Hl Hf _. split; [|intros _]; by eapply umounts_ok_grows.
Qed.

(** The mount is detached. *)
Lemma detach_final cfd fd mnt s1 s a : tidy mnt s1 -> s = log_event s1 (Event bool (fm_priv s1) (SendFd cfd fd) false) -> tidy mnt s ->
  final (log_event s (Event (option Z) (fm_priv s) (Umount mnt MNT_DETACH) a)).
Proof.
  intros _ Hs [Hc Hu]. split.
  - eapply confined_grows; [exact Hc|done| |done]. by constructor.
  - exists mnt. intros i ev. cbn. intros [Hi|[Hi Hi2]]%lookup_app_Some.
    + left. rewrite take_app_le; [apply lookup_lt_Some in Hi; lia|]. by apply Hu.
    + apply list_lookup_singleton_Some in Hi2 as [Hz <-]. right. replace i with (length (fm_log s)) by lia. rewrite take_app_length.
      split_and!; [done|done|]. exists (fm_priv s1), cfd, fd. subst s. apply in_log.
Qed.

Lemma mount_and_send_run e cfd mnt opts s : fresh s ->
  run (mount_and_send answer uid gid user_name pagesize e cfd mnt opts) (fun _ => tidy mnt) final s.
Proof.
  intros Hs. unfold mount_and_send. apply run_bind. eapply run_weaken; [by apply mount_fuse_run| |by apply tidy_final].
  intros [fd type] s1 Hs1. assert (final s1) by by apply (tidy_final mnt). destruct (fd =? -1); [done|]. apply run_bind.
  set (b := answer bool (fm_log s1) (SendFd cfd fd)).
  assert (tidy mnt (log_event s1 (Event bool (fm_priv s1) (SendFd cfd fd) b))) as Hs2.
  { destruct Hs1 as [Hc Hu]. split; [eapply confined_grows|eapply umounts_ok_grows]; try done; by constructor. }
  unfold run at 1, perform. fold b. destruct b; cbn [negb].
  - apply run_bind. apply (run_idle mnt); [by apply perform_idle|done|]. intros [] s3 Hs3. by apply run_ret.
  - apply run_bind. unfold run, perform. by apply (detach_final cfd fd mnt s1).
Qed.

(** C8: a user who is not root runs the set-uid [fusermount3] with any command line,
    for any number of messages on the socket, under every answer of the system: in
    the end, or whenever the waiting is cut off, every [mount] that it has made is
    confined as [mount_fuse] promises, and every [umount], asked for or automatic
    after the file system has died, is of a mount of the user's as [unmount_fuse]
    promises, except for the lazy one of a mount whose descriptor could not be
    sent. *)
Theorem main_confined fuel o : exists r s', main answer uid gid user_name pagesize fuel true o fm_start = (r, s') /\ confined uid gid pagesize s' /\
  exists mnt, forall i e, fm_log s' !! i = Some e -> umount_ok uid user_name mnt (take i (fm_log s')) e \/ detached mnt (take i (fm_log s')) e.
Proof.
  enough (run (main answer uid gid user_name pagesize fuel true o) (fun _ => final) final fm_start) as Hr.
  { unfold run in Hr. destruct (main _ _ _ _ _ _ _ _ _) as [r s']. exists r, s'. destruct r; by destruct Hr. }
  assert (forall s, fresh s -> final s) as Hfin by (intros s Hs; by apply (tidy_final []), fresh_tidy).
  assert (fresh fm_start) as H0 by constructor.
  unfold main. destruct (op_lazy o && _); [by apply Hfin|]. destruct (op_mountpoint o) as [origmnt|]; [|by apply Hfin].
  apply run_bind. apply run_fresh; [grow|done|]. intros _ s1 Hs1. apply run_bind. apply run_fresh; [apply drop_privs_grow|done|]. intros _ s2 Hs2.
  apply run_bind. apply run_fresh; [apply fuse_mnt_resolve_path_idle|done|]. intros [mnt|] s3 Hs3.
  2: { apply run_bind. apply run_fresh; [apply restore_privs_grow|done|]. intros _ s4 Hs4. by apply Hfin. }
  apply run_bind. apply run_fresh; [by apply perform_idle|done|]. intros [err|] s4 Hs4; [by apply Hfin|].
  apply run_bind. apply run_fresh; [apply restore_privs_grow|done|]. intros _ s5 Hs5.
  destruct (negb _ && _); [by apply do_unmount_run, fresh_tidy|].
  apply run_bind. apply run_fresh; [apply comm_socket_idle|done|]. intros [cfd|] s6 Hs6; [|by apply Hfin].
  destruct (op_auto_unmount o); [by apply wait_for_auto_unmount_run, fresh_tidy|].
  apply run_bind. eapply run_weaken; [by apply mount_and_send_run| |done]. intros type s7 Hs7. apply run_bind. unfold run at 1, xget.
  destruct (negb _); [by apply (tidy_final mnt)|by apply wait_for_auto_unmount_run].
Qed.
End main.

(** ** Runs *)

(** The file system serves until it dies; [sent]: the descriptor can be sent. *)
Definition live_answer (sent : bool) (A : Type) (l : list event) (c : call A) : A :=
  match c in call A return A with
  | Fstat _ => inr (mkFstat S_IFSOCK 1000)
  | SendFd _ _ => sent
  | Open path => if strcmp_eq path (lit "/home/m") then inl ENOTCONN else inr 5
  | ReadProcMounts => if existsb (fun e => match ev_call e with BindParent => true | _ => false end) l
                      then [mkMntent (lit "x") (lit "/m") (lit "fuse") []] else []
  | c => sample_answer (inr sample_mtab) [] _ l c
  end.

Definition umounts (l : list event) : list (bool * cstring * Z) :=
  omap (fun e => match ev_call e with Umount t fl => Some (ev_priv e, t, fl) | _ => None end) l.

Definition live_run (sent : bool) (o : options) : ending unit * fm :=
  main (live_answer sent) 1000 100 (Some (lit "bob")) 4096 3 true o fm_start.

Definition mount_line (opts : string) : options := mkOptions (lit opts) false false false None (Some (lit "/home/m/")).

(** Mounting, waiting and unmounting with the user's privileges. *)
Example auto_unmounted : let '(r, s) := live_run true (mount_line "auto_unmount") in
  r = Done tt /\ length (mounts (fm_log s)) = 1%nat /\ umounts (fm_log s) = [(false, lit "m", Z.lor UMOUNT_DETACH UMOUNT_NOFOLLOW)].
Proof. vm_compute. done. Qed.

(** Where the descriptor cannot be sent, the path is unmounted with all privileges,
    links in it are followed, and nobody has looked whether the mount there is the
    user's. *)
Theorem unsent_detached_by_path : let '(r, s) := live_run false (mount_line "ro") in
  r = Exited /\ umounts (fm_log s) = [(true, lit "/home/m", MNT_DETACH)].
Proof. vm_compute. done. Qed.

Lemma main_confined_witness : 1000 <> 0 /\
  exists r s', live_run true (mount_line "auto_unmount") = (r, s') /\ confined 1000 100 4096 s' /\
    exists mnt, forall i e, fm_log s' !! i = Some e ->
      umount_ok 1000 (Some (lit "bob")) mnt (take i (fm_log s')) e \/ detached mnt (take i (fm_log s')) e.
Proof.
  assert (1000 <> 0) as Huid by discriminate.
  assert (forall l path fd, live_answer true (Z + Z) l (Open path) = inr fd -> 0 <= fd < 2 ^ 31) as Hopen.
  { intros l path fd. cbn [live_answer]. destruct (strcmp_eq path (lit "/home/m")); intros Hfd; [discriminate|]. injection Hfd as <-. lia. }
  split; [exact Huid|]. unfold live_run.
  exact (main_confined (live_answer true) 1000 100 (Some (lit "bob")) 4096 Huid Hopen 3 (mount_line "auto_unmount")).
Defined.
