(* ===== verification/MountLib.v ===== *)
(** * Mounting from the library

    [src/lib/mount.c]: the mount options of a file system, mounting with the system
    call or, without the privileges for it, with [fusermount3], and unmounting; and
    [fuse_session_mount] and [fuse_session_unmount] of [src/lib/fuse_lowlevel.c].
    The options are read by [OptParse]; the system calls are those of
    [Fusermount]. *)
From S2P Require Import Prelude Receive OptParse Fusermount FusermountSafe FusermountOpts.

(** ** Options *)

(** The keys of the callback *)
Definition KEY_KERN_FLAG : Z := 0.
Definition KEY_KERN_OPT : Z := 1.
Definition KEY_FUSERMOUNT_OPT : Z := 2.
Definition KEY_SUBTYPE_OPT : Z := 3.
Definition KEY_MTAB_OPT : Z := 4.
Definition KEY_ALLOW_OTHER : Z := 5.
Definition KEY_RO : Z := 6.

(** [offsetof] the fields of [struct mount_opts]; [abort()] in the callback is a field
    of its own. *)
Definition O_ALLOW_OTHER : Z := 0.
Definition O_FLAGS : Z := 4.
Definition O_AUTO_UNMOUNT : Z := 8.
Definition O_BLKDEV : Z := 12.
Definition O_FSNAME : Z := 16.
Definition O_SUBTYPE : Z := 24.
Definition O_SUBTYPE_OPT : Z := 32.
Definition O_MTAB_OPTS : Z := 40.
Definition O_FUSERMOUNT_OPTS : Z := 48.
Definition O_KERNEL_OPTS : Z := 56.
Definition O_MAX_READ : Z := 64.
Definition O_ABORTED : Z := -1.

Definition mount_opt_field (t : string) (o : Z) : fuse_opt := mkOpt (lit t) o 1.
Definition fuse_opt_key (t : string) (key : Z) : fuse_opt := mkOpt (lit t) NO_OFFSET key.

Definition fuse_mount_opts : list fuse_opt :=
  [mount_opt_field "allow_other" O_ALLOW_OTHER;
   mount_opt_field "blkdev" O_BLKDEV;
   mount_opt_field "auto_unmount" O_AUTO_UNMOUNT;
   mount_opt_field "fsname=%s" O_FSNAME;
   mount_opt_field "max_read=%u" O_MAX_READ;
   mount_opt_field "subtype=%s" O_SUBTYPE;
   fuse_opt_key "allow_other" KEY_KERN_OPT;
   fuse_opt_key "auto_unmount" KEY_FUSERMOUNT_OPT;
   fuse_opt_key "blkdev" KEY_FUSERMOUNT_OPT;
   fuse_opt_key "fsname=" KEY_FUSERMOUNT_OPT;
   fuse_opt_key "subtype=" KEY_SUBTYPE_OPT;
   fuse_opt_key "blksize=" KEY_KERN_OPT;
   fuse_opt_key "default_permissions" KEY_KERN_OPT;
   fuse_opt_key "context=" KEY_KERN_OPT;
   fuse_opt_key "fscontext=" KEY_KERN_OPT;
   fuse_opt_key "defcontext=" KEY_KERN_OPT;
   fuse_opt_key "rootcontext=" KEY_KERN_OPT;
   fuse_opt_key "max_read=" KEY_KERN_OPT;
   fuse_opt_key "user=" KEY_MTAB_OPT;
   fuse_opt_key "-n" KEY_MTAB_OPT;
   fuse_opt_key "-r" KEY_RO;
   fuse_opt_key "ro" KEY_KERN_FLAG;
   fuse_opt_key "rw" KEY_KERN_FLAG;
   fuse_opt_key "suid" KEY_KERN_FLAG;
   fuse_opt_key "nosuid" KEY_KERN_FLAG;
   fuse_opt_key "dev" KEY_KERN_FLAG;
   fuse_opt_key "nodev" KEY_KERN_FLAG;
   fuse_opt_key "exec" KEY_KERN_FLAG;
   fuse_opt_key "noexec" KEY_KERN_FLAG;
   fuse_opt_key "async" KEY_KERN_FLAG;
   fuse_opt_key "sync" KEY_KERN_FLAG;
   fuse_opt_key "dirsync" KEY_KERN_FLAG;
   fuse_opt_key "noatime" KEY_KERN_FLAG;
   fuse_opt_key "nodiratime" KEY_KERN_FLAG;
   fuse_opt_key "nostrictatime" KEY_KERN_FLAG;
   fuse_opt_key "symfollow" KEY_KERN_FLAG;
   fuse_opt_key "nosymfollow" KEY_KERN_FLAG].

(** [struct mount_flags] of the library: option, flag, on *)
Definition lib_mount_flags : list (cstring * Z * bool) :=
  [(lit "rw", MS_RDONLY, false);
   (lit "ro", MS_RDONLY, true);
   (lit "suid", MS_NOSUID, false);
   (lit "nosuid", MS_NOSUID, true);
   (lit "dev", MS_NODEV, false);
   (lit "nodev", MS_NODEV, true);
   (lit "exec", MS_NOEXEC, false);
   (lit "noexec", MS_NOEXEC, true);
   (lit "async", MS_SYNCHRONOUS, false);
   (lit "sync", MS_SYNCHRONOUS, true);
   (lit "noatime", MS_NOATIME, true);
   (lit "nodiratime", MS_NODIRATIME, true);
   (lit "norelatime", MS_RELATIME, false);
   (lit "nostrictatime", MS_STRICTATIME, false);
   (lit "symfollow", MS_NOSYMFOLLOW, false);
   (lit "nosymfollow", MS_NOSYMFOLLOW, true);
   (lit "dirsync", MS_DIRSYNC, true)].

(** The new flags, or [abort()]. *)
Fixpoint set_mount_flag (table : list (cstring * Z * bool)) (s : cstring) (flags : Z) : option Z :=
  match table with
  | [] => None
  | (opt, flag, on) :: table =>
      if strcmp_eq opt s then Some (if on : bool then Z.lor flags flag else Z.land flags (Z.lnot flag))
      else set_mount_flag table s flags
  end.

Definition int_field (d : fields) (o : Z) : Z := match d !! o with Some (FInt v) => v | _ => 0 end.
Definition str_field (d : fields) (o : Z) : option cstring := match d !! o with Some (FStr s) => Some s | _ => None end.

Section options.
Context (alloc_ok : nat -> bool) (sscanf : cstring -> cstring -> option Z).

(** [fuse_opt_add_opt] on a field. *)
Definition add_to_field (esc : bool) (d : fields) (o : Z) (arg : cstring) (a : fuse_args) (t : nat) : Z * fields * fuse_args * nat :=
  let '(r, v) := add_opt_common (alloc_ok t) (str_field d o) arg esc in
  (r, match v with Some v => <[o := FStr v]> d | None => d end, a, S t).

Definition kern_flag (d : fields) (arg : cstring) (a : fuse_args) (t : nat) : Z * fields * fuse_args * nat :=
  match set_mount_flag lib_mount_flags arg (int_field d O_FLAGS) with
  | Some flags => (0, <[O_FLAGS := FInt flags]> d, a, t)
  | None => (-1, <[O_ABORTED := FInt 1]> d, a, t)
  end.

Definition fuse_mount_opt_proc (d : fields) (arg : cstring) (key : Z) (a : fuse_args) (t : nat) : Z * fields * fuse_args * nat :=
  if key =? KEY_RO then kern_flag d (lit "ro") a t
  else if key =? KEY_KERN_FLAG then kern_flag d arg a t
  else if key =? KEY_KERN_OPT then add_to_field false d O_KERNEL_OPTS arg a t
  else if key =? KEY_FUSERMOUNT_OPT then add_to_field true d O_FUSERMOUNT_OPTS arg a t
  else if key =? KEY_SUBTYPE_OPT then add_to_field false d O_SUBTYPE_OPT arg a t
  else if key =? KEY_MTAB_OPT then add_to_field false d O_MTAB_OPTS arg a t
  else if key =? FUSE_OPT_KEY_OPT then
    if strncmp0 (lit "x-") arg 2 then add_to_field false d O_MTAB_OPTS arg a t else (1, d, a, t)
  else (1, d, a, t).

(** [struct mount_opts] *)
Record mount_opts := mkMountOpts {
  m_flags : Z; m_auto_unmount : bool; m_blkdev : bool;
  m_fsname : option cstring; m_subtype : option cstring; m_subtype_opt : option cstring;
  m_mtab_opts : option cstring; m_fusermount_opts : option cstring; m_kernel_opts : option cstring;
}.

Definition set_m_kernel_opts (mo : mount_opts) v :=
  mkMountOpts (m_flags mo) (m_auto_unmount mo) (m_blkdev mo) (m_fsname mo) (m_subtype mo) (m_subtype_opt mo)
    (m_mtab_opts mo) (m_fusermount_opts mo) v.

Definition mount_opts_of (d : fields) : mount_opts :=
  mkMountOpts (int_field d O_FLAGS) (truth (int_field d O_AUTO_UNMOUNT)) (truth (int_field d O_BLKDEV))
    (str_field d O_FSNAME) (str_field d O_SUBTYPE) (str_field d O_SUBTYPE_OPT)
    (str_field d O_MTAB_OPTS) (str_field d O_FUSERMOUNT_OPTS) (str_field d O_KERNEL_OPTS).

(** The fields that [parse_mount_opts] starts with. *)
Definition mount_opts_start : fields := {[O_FLAGS := FInt (Z.lor MS_NOSUID MS_NODEV)]}.

(** The options, or [NULL], and the remaining arguments; [ok]: there is memory for the
    structure. *)
Definition parse_mount_opts (ok : bool) (args : option fuse_args) : outcome (option mount_opts * option fuse_args) :=
  if negb ok then Ok (None, args)
  else match args with
  | None => Ok (Some (mount_opts_of mount_opts_start), None)
  | Some _ =>
      match fuse_opt_parse alloc_ok sscanf fuse_mount_opts (Some fuse_mount_opt_proc) args mount_opts_start with
      | Ok (r, args, d) =>
          if truth (int_field d O_ABORTED) then Abort
          else Ok (if r =? -1 then None else Some (mount_opts_of d), args)
      | Abort => Abort
      | Diverge => Diverge
      end
  end.
End options.

(** ** Mounting *)

Section mount.
Context (answer : forall A, list event -> call A -> A) (uid gid : Z) (euid_root : bool).

Abbreviation perform := (perform answer).

(** [fuse_opt_add_opt]: [None] is [-1]. *)
Definition lib_add_opt (opts : option cstring) (opt : cstring) : X (option (option cstring)) :=
  ok ← perform Malloc;
  mret (let '(r, o) := fuse_opt_add_opt ok opts opt in if r =? -1 then None else Some o).

Definition fusermount_prog : cstring := lit "fusermount3".

(** The process; waited for when [wait] is set.  [None] is an error. *)
Definition fusermount_posix_spawn (quiet : bool) (argv : list cstring) (wait : bool) : X (option Z) :=
  r ← perform (Spawn true quiet argv);
  r ← match r with inl _ => perform (Spawn false quiet argv) | inr pid => mret (inr pid) end;
  match r with
  | inl _ => mret None
  | inr pid => (if wait then perform (Waitpid pid) else mret tt);; mret (Some pid)
  end.

(** The descriptor sent over the socket, or [-1]; without a header the code reads
    through [NULL].  [fuel]: the number of interrupted calls. *)
Fixpoint receive_fd (fuel : nat) (sock : Z) : X Z :=
  match fuel with
  | O => loops
  | S fuel =>
      r ← perform (Recvmsg sock);
      match r with
      | inl errno => if errno =? EINTR then receive_fd fuel sock else mret (-1)
      | inr (rv, header) =>
          if rv =? 0 then mret (-1)
          else match header with
               | None => crash
               | Some None => mret (-1)
               | Some (Some fd) => mret fd
               end
      end
  end.

Definition fuse_kern_unmount (mountpoint : cstring) (fd : Z) : X unit :=
  gone ← (if negb (fd =? -1) then
            e ← perform (Poll fd);
            perform (Close fd);;
            mret e
          else mret false);
  if gone : bool then mret tt
  else if euid_root then perform (MntUmount mountpoint true);; mret tt
  else
    r ← perform (Umount mountpoint MNT_DETACH);
    match r with
    | None => mret tt
    | Some _ =>
        fusermount_posix_spawn false
          [fusermount_prog; lit "--unmount"; lit "--quiet"; lit "--lazy"; lit "--"; mountpoint] true;;
        mret tt
    end.

(** A socket for [fusermount3], announced in the environment. *)
Definition comm_sockets : X (option (Z * Z)) :=
  r ← perform Socketpair;
  match r with
  | None => mret None
  | Some (fd0, fd1) =>
      perform (Setenv (lit "_FUSE_COMMFD") (fmt_i fd0));;
      perform (Setenv (lit "_FUSE_COMMFD2") (fmt_i fd1));;
      mret (Some (fd0, fd1))
  end.

(** [fusermount3] with its end of the socket: the process, and the library's end. *)
Definition spawn_with_socket (quiet : bool) (argv : list cstring) : X (option (Z * Z)) :=
  r ← comm_sockets;
  match r with
  | None => mret None
  | Some (fd0, fd1) =>
      p ← fusermount_posix_spawn quiet argv false;
      match p with
      | None => perform (Close fd0);; perform (Close fd1);; mret None
      | Some pid => perform (Close fd0);; mret (Some (pid, fd1))
      end
  end.

(** Whether it has worked. *)
Definition setup_auto_unmount (mountpoint : cstring) (quiet : bool) : X bool :=
  r ← spawn_with_socket quiet [fusermount_prog; lit "--auto-unmount"; lit "--"; mountpoint];
  mret match r with Some _ => true | None => false end.

Definition fuse_mount_fusermount (fuel : nat) (mountpoint : cstring) (mo : mount_opts) (opts : option cstring) (quiet : bool) : X Z :=
  r ← spawn_with_socket quiet [fusermount_prog; lit "-o"; default [] opts; lit "--"; mountpoint];
  match r with
  | None => mret (-1)
  | Some (pid, fd1) =>
      fd ← receive_fd fuel fd1;
      (if negb (m_auto_unmount mo) then perform (Close fd1);; perform (Waitpid pid) else mret tt);;
      (if 0 <=? fd then perform (Cloexec fd) else mret tt);;
      mret fd
  end.

(** The attempts: with the subtype and without it; the source and the type, or
    an [errno]. *)
Definition sys_mount (mnt : cstring) (mo : mount_opts) (data : cstring) : X (Z + cstring * cstring) :=
  let devname := lit "/dev/fuse" in
  let type := fuse_type (m_blkdev mo) ++ match m_subtype mo with Some subtype => lit "." ++ subtype | None => [] end in
  let source := match m_fsname mo with
                | Some fsname => fsname
                | None => match m_subtype mo with Some subtype => subtype | None => devname end
                end in
  res ← perform (Mount source mnt type (m_flags mo) data);
  match res, m_subtype mo with
  | None, _ => mret (inr (source, type))
  | Some errno, None => mret (inl errno)
  | Some errno, Some subtype =>
      if errno =? ENODEV then
        let type := fuse_type (m_blkdev mo) in
        let source := match m_fsname mo with
                      | Some fsname => if negb (m_blkdev mo) then subtype ++ lit "#" ++ fsname else source
                      | None => type
                      end in
        res ← perform (Mount source mnt type (m_flags mo) data);
        mret match res with None => inr (source, type) | Some errno => inl errno end
      else mret (inl errno)
  end.

(** The mount table, for root. *)
Definition sys_add_mount (mnt source type : cstring) (mnt_opts : option cstring) : X bool :=
  if negb euid_root then mret true
  else
    r ← fuse_mnt_resolve_path answer mnt;
    match r with
    | None => mret false
    | Some newmnt => perform (AddMount source newmnt type (default [] mnt_opts))
    end.

(** The device, [-1], or [-2] when [fusermount3] may help; and the options, which the
    ids have been added to. *)
Definition fuse_mount_sys (mnt : cstring) (mo : mount_opts) (mnt_opts : option cstring) : X (Z * mount_opts) :=
  st ← perform (Stat mnt);
  match st with
  | inl _ => mret (-1, mo)
  | inr st =>
      r ← perform (Open (lit "/dev/fuse"));
      match r with
      | inl _ => mret (-1, mo)
      | inr fd =>
          r ← lib_add_opt (m_kernel_opts mo) (id_opts uid gid fd (Z.land (st_mode st) S_IFMT) true);
          match r with
          | None => perform (Close fd);; mret (-1, mo)
          | Some kernel_opts =>
              let mo := set_m_kernel_opts mo kernel_opts in
              ok1 ← perform Malloc;
              ok2 ← perform Malloc;
              if negb (ok1 && ok2) then perform (Close fd);; mret (0, mo)
              else
                r ← sys_mount mnt mo (default [] kernel_opts);
                match r with
                | inl errno => perform (Close fd);; mret (if errno =? EPERM then -2 else -1, mo)
                | inr (source, type) =>
                    ok ← sys_add_mount mnt source type mnt_opts;
                    if negb ok then perform (Umount mnt MNT_DETACH);; perform (Close fd);; mret (-1, mo)
                    else mret (fd, mo)
                end
          end
      end
  end.

Fixpoint add_flag_opts (table : list (cstring * Z * bool)) (flags : Z) (opts : option cstring) : X (option (option cstring)) :=
  match table with
  | [] => mret (Some opts)
  | (opt, flag, on) :: table =>
      if on && has_flag flags flag then
        r ← lib_add_opt opts opt;
        match r with None => mret None | Some opts => add_flag_opts table flags opts end
      else add_flag_opts table flags opts
  end.

(** The options with those of the flags; [None] is [-1]. *)
Definition get_mnt_flag_opts (opts : option cstring) (flags : Z) : X (option (option cstring)) :=
  r ← (if negb (has_flag flags MS_RDONLY) then lib_add_opt opts (lit "rw") else mret (Some opts));
  match r with None => mret None | Some opts => add_flag_opts lib_mount_flags flags opts end.

(** [if (o && fuse_opt_add_opt(&opts, o) == -1)] *)
Definition add_opt_if (opts o : option cstring) : X (option (option cstring)) :=
  match o with Some o => lib_add_opt opts o | None => mret (Some opts) end.

(** Everything for [mount] and the mount table. *)
Definition all_mnt_opts (mo : mount_opts) : X (option (option cstring)) :=
  r ← get_mnt_flag_opts None (m_flags mo);
  match r with
  | None => mret None
  | Some o =>
      r ← add_opt_if o (m_kernel_opts mo);
      match r with None => mret None | Some o => add_opt_if o (m_mtab_opts mo) end
  end.

(** Mounting with [fusermount3], with the subtype first. *)
Definition kern_mount_helper (fuel : nat) (mountpoint : cstring) (mo : mount_opts) (mnt_opts : option cstring) : X Z :=
  r ← add_opt_if mnt_opts (m_fusermount_opts mo);
  match r with
  | None => mret (-2)
  | Some mnt_opts =>
      match m_subtype mo with
      | None => fuse_mount_fusermount fuel mountpoint mo mnt_opts false
      | Some _ =>
          match mnt_opts, m_subtype_opt mo with
          | Some o, Some subtype_opt =>
              r1 ← lib_add_opt None o;
              r2 ← match r1 with None => mret None | Some tmp => lib_add_opt tmp subtype_opt end;
              match r2 with
              | None => mret (-1)
              | Some tmp_opts =>
                  res ← fuse_mount_fusermount fuel mountpoint mo tmp_opts true;
                  if res =? -1 then fuse_mount_fusermount fuel mountpoint mo mnt_opts false else mret res
              end
          | _, _ => crash
          end
      end
  end.

Definition fuse_kern_mount (fuel : nat) (mountpoint : cstring) (mo : mount_opts) : X (Z * mount_opts) :=
  r ← all_mnt_opts mo;
  match r with
  | None => mret (-1, mo)
  | Some mnt_opts =>
      r ← fuse_mount_sys mountpoint mo mnt_opts;
      let '(res, mo) := r in
      if (0 <=? res) && m_auto_unmount mo then
        ok ← setup_auto_unmount mountpoint false;
        if negb ok then perform (Umount mountpoint MNT_DETACH);; mret (-1, mo) else mret (res, mo)
      else if res =? -2 then res ← kern_mount_helper fuel mountpoint mo mnt_opts; mret (res, mo)
      else mret (res, mo)
  end.

(** ** Sessions *)

(** The fields of [struct fuse_session] *)
Record mnt_session := mkMntSession { ms_fd : Z; ms_mountpoint : option cstring; ms_mo : mount_opts }.

(** Descriptors 0, 1 and 2 are opened if they are not. *)
Fixpoint open_std (fuel : nat) : X unit :=
  match fuel with
  | O => loops
  | S fuel =>
      r ← perform (Open (lit "/dev/null"));
      match r with
      | inl _ => mret tt
      | inr fd => if 2 <? fd then perform (Close fd) else open_std fuel
      end
  end.

(** [sscanf(mountpoint, "/dev/fd/%u%n", ...)] that reaches the end; [-1] is none. *)
Definition fuse_mnt_parse_fuse_fd (mountpoint : cstring) : Z :=
  if begins_with mountpoint (lit "/dev/fd/") then
    let s := skip_space (drop 8 mountpoint) in
    let '(neg, s) := match s with
                     | c :: s' => if ceq c "-" then (true, s') else if ceq c "+" then (false, s') else (false, s)
                     | [] => (false, s)
                     end in
    match get_digits 10 s None with
    | Some v => if forallb (fun c => match digit_value 10 c with Some _ => true | None => false end) s
                then swrap 32 (u64 (if 2 ^ 64 <=? v then -1 else if neg then - v else v)) else -1
    | None => -1
    end
  else -1.

(** The result and the session. *)
Definition fuse_session_mount (fuel : nat) (se : mnt_session) (mountpoint : cstring) : X (Z * mnt_session) :=
  ok ← perform Malloc;
  if negb ok then mret (-1, se)
  else
    open_std fuel;;
    let fd := fuse_mnt_parse_fuse_fd mountpoint in
    if negb (fd =? -1) then
      ok ← perform (Getfd fd);
      if negb ok then mret (-1, se) else mret (0, mkMntSession fd (ms_mountpoint se) (ms_mo se))
    else
      r ← fuse_kern_mount fuel mountpoint (ms_mo se);
      let '(fd, mo) := r in
      if fd =? -1 then mret (-1, mkMntSession (ms_fd se) (ms_mountpoint se) mo)
      else mret (0, mkMntSession fd (Some mountpoint) mo).

Definition fuse_session_unmount (se : mnt_session) : X mnt_session :=
  match ms_mountpoint se with
  | None => mret se
  | Some mountpoint => fuse_kern_unmount mountpoint (ms_fd se);; mret (mkMntSession (-1) None (ms_mo se))
  end.
End mount.
