(* ===== verification/MountSafe.v ===== *)
(** * Mounting from the library: descriptors and options

    Proofs about [MountLib]: mounting closes every descriptor but the one it returns,
    reading the options never reaches the [abort()] of an unknown flag, and the name
    of a file system reaches the kernel through the mount helper as it was given. *)
From stdpp Require Import gmultiset.
From S2P Require Import Prelude Receive OptParse Fusermount FusermountSafe FusermountOpts MountLib.

(** ** Descriptors *)

(** The open descriptors after a call. *)
Definition fds_step (D : gmultiset Z) (e : event) : gmultiset Z :=
  match e with
  | Event _ _ c a =>
      match c in call A return A -> gmultiset Z with
      | Open _ => fun a => match a with inr fd => D ⊎ {[+ fd +]} | inl _ => D end
      | Socketpair => fun a => match a with Some (fd0, fd1) => D ⊎ {[+ fd0 +]} ⊎ {[+ fd1 +]} | None => D end
      | Recvmsg _ => fun a => match a with inr (rv, Some (Some fd)) => if rv =? 0 then D else D ⊎ {[+ fd +]} | _ => D end
      | Close fd => fun _ => D ∖ {[+ fd +]}
      | _ => fun _ => D
      end a
  end.

Definition fds (l : list event) : gmultiset Z := foldl fds_step ∅ l.

(** There has not been enough memory. *)
Definition short (s : fm) : Prop := exists b, Event bool b Malloc false ∈ fm_log s.

(** The interrupted calls of [recvmsg] *)
Definition interrupted (l : list event) : nat :=
  length (List.filter (fun e => match e with
    | Event _ _ c a => match c in call A return A -> bool with
                       | Recvmsg _ => fun a => match a with inl errno => errno =? EINTR | inr _ => false end
                       | _ => fun _ => false
                       end a
    end) l).

Definition owns (D : gmultiset Z) (s : fm) : Prop := fds (fm_log s) = D.

Lemma fds_event s e : fds (fm_log (log_event s e)) = fds_step (fds (fm_log s)) e.
Proof. cbn. unfold fds. by rewrite foldl_app. Qed.

Lemma disj_union_cancel (D : gmultiset Z) x : (D ⊎ {[+ x +]}) ∖ {[+ x +]} = D.
Proof. multiset_solver. Qed.

Lemma comm_disj (D E F : gmultiset Z) : D ⊎ E ⊎ F = D ⊎ F ⊎ E.
Proof. multiset_solver. Qed.

Section fds.
Context (answer : forall A, list event -> call A -> A) (uid gid : Z) (euid_root : bool) (fuel : nat).
Hypothesis Hopen : forall l path fd, answer (Z + Z) l (Open path) = inr fd -> 0 <= fd.
Hypothesis Hrecv : forall l sock rv fd, answer _ l (Recvmsg sock) = inr (rv, Some (Some fd)) -> 0 <= fd.
Hypothesis Hintr : forall l sock, answer _ l (Recvmsg sock) = inl EINTR -> (interrupted l < fuel)%nat.

Lemma call_wp {A} (c : call A) (Q : A -> fm -> Prop) D s : owns D s ->
  (forall a s', a = answer A (fm_log s) c -> s' = log_event s (Event A (fm_priv s) c a) ->
    owns (fds_step D (Event A (fm_priv s) c a)) s' -> Q a s') -> xwp (perform answer c) Q (fun _ => True) s.
Proof.
  intros Hs HQ. unfold xwp, perform. eapply HQ; [done|done|]. unfold owns. rewrite fds_event. by rewrite Hs.
Qed.

(** A call that leaves the descriptors alone. *)
Ltac lib_call a := eapply call_wp; [eassumption|]; intros a ? ?Ha ?Hs' ?Ho; cbn [fds_step] in *.

(** A piece of the program that leaves them alone. *)
Definition neutral {A} (m : X A) : Prop := forall D s, owns D s -> xwp m (fun _ => owns D) (fun _ => True) s.

Lemma neutral_ret {A} (a : A) : neutral (mret a).
Proof. by intros D s Hs. Qed.
Lemma neutral_crash {A} : neutral (@crash A).
Proof. by intros D s Hs. Qed.
Lemma neutral_bind {A B} (m : X A) (f : A -> X B) : neutral m -> (forall a, neutral (f a)) -> neutral (m ≫= f).
Proof. intros Hm Hf D s Hs. apply xwp_bind. eapply xwp_mono; [by apply Hm|]. intros a s' Hs'. by apply Hf. Qed.
Lemma neutral_call {A} (c : call A) : (forall D b a, fds_step D (Event A b c a) = D) -> neutral (perform answer c).
Proof. intros Hc D s Hs. eapply call_wp; [done|]. intros a s' _ _ Ho. by rewrite Hc in Ho. Qed.

Ltac settle :=
  repeat match goal with
  | |- neutral (mret _) => apply neutral_ret
  | |- neutral crash => apply neutral_crash
  | |- neutral (perform _ _) => apply neutral_call; done
  | |- neutral (mbind _ _) => apply neutral_bind; [|intros ?]
  | |- neutral (match ?x with _ => _ end) => destruct x
  | |- neutral _ => progress cbn zeta beta
  | |- neutral _ => solve [auto]
  end.

Lemma lib_add_opt_neutral opts opt : neutral (lib_add_opt answer opts opt).
Proof. unfold lib_add_opt. settle. Qed.

Lemma add_flag_opts_neutral table flags : forall opts, neutral (add_flag_opts answer table flags opts).
Proof.
  induction table as [|[[opt flag] on] table IH]; intros opts; cbn [add_flag_opts]; settle; apply lib_add_opt_neutral.
Qed.

Lemma all_mnt_opts_neutral mo : neutral (all_mnt_opts answer mo).
Proof.
  unfold all_mnt_opts, get_mnt_flag_opts, add_opt_if. settle; first [apply lib_add_opt_neutral | apply add_flag_opts_neutral].
Qed.

Lemma sys_mount_neutral mnt mo data : neutral (sys_mount answer mnt mo data).
Proof. unfold sys_mount. settle. Qed.

Lemma sys_add_mount_neutral mnt source type o : neutral (sys_add_mount answer euid_root mnt source type o).
Proof. unfold sys_add_mount, fuse_mnt_resolve_path. settle. Qed.

Lemma spawn_neutral quiet argv wait : neutral (fusermount_posix_spawn answer quiet argv wait).
Proof. unfold fusermount_posix_spawn. settle. Qed.

Lemma neutral_xwp {A} (m : X A) (Q : A -> fm -> Prop) D s : neutral m -> owns D s -> (forall a s', owns D s' -> Q a s') ->
  xwp m Q (fun _ => True) s.
Proof. intros Hm Hs HQ. eapply xwp_mono; [by apply Hm|]. done. Qed.

(** *** The system call *)

(** The result of an attempt: with the descriptor, nothing, or lack of memory. *)
Definition mount_result (D : gmultiset Z) (r : Z) (s : fm) : Prop :=
  0 <= r /\ owns (D ⊎ {[+ r +]}) s \/ r = -1 /\ owns D s \/ (r = 0 \/ r = -2) /\ owns D s /\ short s.

Lemma close_wp fd (Q : unit -> fm -> Prop) D s : owns (D ⊎ {[+ fd +]}) s -> (forall s', owns D s' -> fm_log s `prefix_of` fm_log s' -> Q tt s') ->
  xwp (perform answer (Close fd)) Q (fun _ => True) s.
Proof.
  intros Hs HQ. eapply call_wp; [done|]. intros [] s' _ -> Ho. cbn [fds_step] in Ho. rewrite disj_union_cancel in Ho.
  apply HQ; [done|]. cbn. by apply prefix_app_r.
Qed.

Lemma malloc_short s ok b : ok = false -> short (log_event s (Event bool b Malloc ok)).
Proof. intros ->. exists b. apply in_log. Qed.

Lemma short_mono s s' : short s -> fm_log s `prefix_of` fm_log s' -> short s'.
Proof. intros [b Hb] [l Hl]. exists b. rewrite Hl. apply elem_of_app. by left. Qed.

Lemma fuse_mount_sys_wp mnt mo o D s : owns D s ->
  xwp (fuse_mount_sys answer uid gid euid_root mnt mo o)
    (fun r s' => (mount_result D r.1 s' \/ r.1 = -2 /\ owns D s') /\ m_auto_unmount r.2 = m_auto_unmount mo) (fun _ => True) s.
Proof.
  intros Hs. unfold fuse_mount_sys. xwp_step. lib_call st. destruct st as [e|st]; [xwp_steps; split; [left; right; by left|done]|].
  xwp_step. lib_call r. destruct r as [e|fd]; [xwp_steps; split; [left; right; by left|done]|]. symmetry in Ha0. apply Hopen in Ha0.
  xwp_step. eapply neutral_xwp; [apply lib_add_opt_neutral|done|]. intros r s3 Hs3.
  destruct r as [ko|]; [|xwp_step; eapply close_wp; [done|]; intros; xwp_steps; split; [left; right; by left|done]].
  cbn zeta. xwp_step. lib_call ok1. xwp_step. lib_call ok2. destruct (negb (ok1 && ok2)) eqn:Hok.
  { xwp_step. eapply close_wp; [done|]. intros s4 Hs4 Hp. xwp_steps. split; [|done]. left. right. right. split_and!; [by left|done|].
    eapply short_mono; [|exact Hp]. clear Ha1 Ha2. destruct ok2; [destruct ok1; [done|]|]; subst; [|by apply malloc_short].
    eapply short_mono; [by apply malloc_short|cbn; by apply prefix_app_r]. }
  xwp_step. eapply neutral_xwp; [apply sys_mount_neutral|done|]. intros [errno|[source type]] s5 Hs5.
  { xwp_step. eapply close_wp; [done|]. intros s6 Hs6 _. xwp_steps. split; [|done]. destruct (errno =? EPERM); [by right|left; right; by left]. }
  xwp_step. eapply neutral_xwp; [apply sys_add_mount_neutral|done|]. intros ok s6 Hs6. destruct ok; cbn [negb].
  - xwp_steps. split; [|done]. left. by left.
  - xwp_step. lib_call u. xwp_step. eapply close_wp; [done|]. intros s7 Hs7 _. xwp_steps. split; [|done]. left. right. by left.
Qed.

(** *** The mount helper *)

Lemma spawn_with_socket_wp quiet argv (Q : option (Z * Z) -> fm -> Prop) D s : owns D s ->
  (forall r s', match r with Some (_, fd1) => owns (D ⊎ {[+ fd1 +]}) s' | None => owns D s' end -> Q r s') ->
  xwp (spawn_with_socket answer quiet argv) Q (fun _ => True) s.
Proof.
  intros Hs HQ. unfold spawn_with_socket, comm_sockets. xwp_step. xwp_step. lib_call r. destruct r as [[fd0 fd1]|].
  2: { xwp_steps. by apply HQ. }
  xwp_step. lib_call u. xwp_step. lib_call v. xwp_step. xwp_step. eapply neutral_xwp; [apply spawn_neutral|done|]. intros [pid|] s5 Hs5.
  - xwp_step. rewrite (comm_disj D {[+ fd0 +]} {[+ fd1 +]}) in Hs5. eapply close_wp; [exact Hs5|]. intros s6 Hs6 _. xwp_steps. by apply HQ.
  - xwp_step. rewrite (comm_disj D {[+ fd0 +]} {[+ fd1 +]}) in Hs5. eapply close_wp; [exact Hs5|]. intros s6 Hs6 _.
    xwp_step. eapply close_wp; [exact Hs6|]. intros s7 Hs7 _. xwp_steps. by apply HQ.
Qed.

Lemma interrupted_event s e : interrupted (fm_log (log_event s e)) = (interrupted (fm_log s) + interrupted [e])%nat.
Proof. unfold interrupted. cbn [fm_log log_event]. by rewrite List.filter_app length_app. Qed.

Lemma receive_fd_wp sock (Q : Z -> fm -> Prop) D n : forall s, owns D s -> (fuel - interrupted (fm_log s) < n)%nat ->
  (forall r s', 0 <= r /\ owns (D ⊎ {[+ r +]}) s' \/ r = -1 /\ owns D s' -> Q r s') ->
  xwp (receive_fd answer n sock) Q (fun _ => True) s.
Proof.
  induction n as [|n IH]; intros s Hs Hn HQ; cbn [receive_fd].
  { lia. }
  xwp_step. eapply call_wp; [done|]. intros r s1 Hr Hs1 Ho. symmetry in Hr. cbn [fds_step] in Ho.
  destruct r as [errno|[rv header]].
  - destruct (Z.eqb_spec errno EINTR) as [->|]; [|xwp_steps; apply HQ; by right]. apply IH; [done| |done].
    subst s1. rewrite interrupted_event. pose proof (Hintr _ _ Hr). cbn. lia.
  - destruct (rv =? 0) eqn:Hrv; [xwp_steps; apply HQ; right; split; [done|]; by destruct header as [[]|]|].
    destruct header as [[fd|]|]; xwp_steps; [apply HQ; left; split; [by eapply Hrecv|done]|apply HQ; by right|done].
Qed.

Lemma fuse_mount_fusermount_wp mnt mo opts quiet D s : owns D s -> m_auto_unmount mo = false ->
  xwp (fuse_mount_fusermount answer (S fuel) mnt mo opts quiet)
    (fun r s' => 0 <= r /\ owns (D ⊎ {[+ r +]}) s' \/ r = -1 /\ owns D s') (fun _ => True) s.
Proof.
  intros Hs Ha. unfold fuse_mount_fusermount. xwp_step. eapply spawn_with_socket_wp; [done|]. intros [[pid fd1]|] s1 Hs1.
  2: { xwp_steps. by right. }
  xwp_step. eapply receive_fd_wp; [done|lia|]. intros r s2 Hs2. rewrite Ha. cbn [negb]. xwp_step. xwp_step.
  destruct Hs2 as [[Hr Hs2]|[-> Hs2]].
  - rewrite comm_disj in Hs2. eapply close_wp; [exact Hs2|]. intros s3 Hs3 _. lib_call u. xwp_step. rewrite (proj2 (Z.leb_le 0 r) Hr).
    lib_call v. xwp_steps. by left.
  - eapply close_wp; [exact Hs2|]. intros s3 Hs3 _. lib_call u. xwp_steps. by right.
Qed.

Lemma lib_add_opt_wp opts opt (Q : option (option cstring) -> fm -> Prop) D s : owns D s ->
  (forall r s', owns D s' -> (r = None -> short s') -> (forall o, r = Some o -> exists v, o = Some v) -> Q r s') ->
  xwp (lib_add_opt answer opts opt) Q (fun _ => True) s.
Proof.
  intros Hs HQ. unfold lib_add_opt. xwp_step. eapply call_wp; [done|]. intros ok s1 _ -> Ho. cbn [fds_step] in Ho. xwp_steps.
  apply HQ; [done| |]; destruct ok; cbn; try done.
  - intros _. by apply malloc_short.
  - intros o [= <-]. eauto.
Qed.

Lemma kern_mount_helper_wp mnt mo o D s : owns D s -> m_auto_unmount mo = false ->
  xwp (kern_mount_helper answer (S fuel) mnt mo o) (mount_result D) (fun _ => True) s.
Proof.
  intros Hs Ha. assert (forall opts quiet s', owns D s' ->
    xwp (fuse_mount_fusermount answer (S fuel) mnt mo opts quiet) (mount_result D) (fun _ => True) s') as Hf.
  { intros opts quiet s' Hs'. eapply xwp_mono; [by apply fuse_mount_fusermount_wp|]. intros r s2 [?|?]; [by left|right; by left]. }
  unfold kern_mount_helper, add_opt_if. xwp_step.
  assert (forall (Q : option (option cstring) -> fm -> Prop), (forall r s', owns D s' -> (r = None -> short s') -> Q r s') ->
    xwp match m_fusermount_opts mo with Some f => lib_add_opt answer o f | None => mret (Some o) end Q (fun _ => True) s) as Hadd.
  { intros Q HQ. destruct (m_fusermount_opts mo); [|xwp_steps; by apply HQ]. eapply lib_add_opt_wp; [done|]. intros. by apply HQ. }
  apply Hadd. intros [mo2|] s1 Hs1 Hsh; [|xwp_steps; right; right; split_and!; [by right|done|by apply Hsh]].
  destruct (m_subtype mo); [|by apply Hf]. destruct mo2 as [o2|]; [|done]. destruct (m_subtype_opt mo) as [so|]; [|done].
  xwp_step. eapply neutral_xwp; [apply lib_add_opt_neutral|done|]. intros r1 s2 Hs2. xwp_step.
  eapply (neutral_xwp _ _ D); [destruct r1; [apply lib_add_opt_neutral|apply neutral_ret]|done|]. intros [tmp|] s3 Hs3.
  2: { xwp_steps. right. by left. }
  xwp_step. eapply xwp_mono; [by apply fuse_mount_fusermount_wp|]. intros r s4 Hr. destruct (Z.eqb_spec r (-1)) as [->|].
  - destruct Hr as [[? _]|[_ Hs4]]; [lia|by apply Hf].
  - xwp_steps. destruct Hr as [?|[? _]]; [by left|done].
Qed.

Lemma fuse_kern_mount_wp mnt mo D s : owns D s -> m_auto_unmount mo = false ->
  xwp (fuse_kern_mount answer uid gid euid_root (S fuel) mnt mo) (fun r => mount_result D r.1) (fun _ => True) s.
Proof.
  intros Hs Ha. unfold fuse_kern_mount. xwp_step. eapply neutral_xwp; [apply all_mnt_opts_neutral|done|]. intros [o|] s1 Hs1.
  2: { xwp_steps. right. by left. }
  xwp_step. eapply xwp_mono; [by apply fuse_mount_sys_wp|]. intros [res mo'] s2 [Hr Hm]. cbn [fst snd] in Hr, Hm. rewrite Ha in Hm. rewrite Hm andb_false_r.
  destruct (Z.eqb_spec res (-2)) as [->|Hne].
  - assert (owns D s2) as Hs2 by (destruct Hr as [[[? _]|[[? _]|[_ [? _]]]]|[_ ?]]; [lia|lia|done|done]).
    xwp_step. eapply xwp_mono; [by apply kern_mount_helper_wp|]. intros r s3 Hr3. by xwp_steps.
  - xwp_steps. destruct Hr as [?|[? _]]; [done|lia].
Qed.

(** C9: without [auto_unmount], under every answer of the system, [fuse_kern_mount]
    ends (with a bad access only when a message carries no control data, or when there
    are no options to pass), and of all the descriptors it opens, the device and the
    ends of the sockets, it leaves open exactly the one it returns, or none when it
    fails with [-1]; other results come only from lack of memory.  Of the runs with a bad
    access nothing is said but that they end, and with [auto_unmount] a failure leaks a
    socket, [auto_unmount_failure_leaks]. *)
Theorem kern_mount_descriptors mnt mo s : m_auto_unmount mo = false ->
  exists r s', fuse_kern_mount answer uid gid euid_root (S fuel) mnt mo s = (r, s') /\ r <> Looping /\
    forall fd mo', r = Done (fd, mo') ->
      0 <= fd /\ fds (fm_log s') = fds (fm_log s) ⊎ {[+ fd +]} \/
      fd = -1 /\ fds (fm_log s') = fds (fm_log s) \/
      (fd = 0 \/ fd = -2) /\ fds (fm_log s') = fds (fm_log s) /\ short s'.
Proof.
  intros Ha. pose proof (fuse_kern_mount_wp mnt mo (fds (fm_log s)) s eq_refl Ha) as Hw. unfold xwp in Hw.
  destruct (fuse_kern_mount _ _ _ _ _ _ _ _) as [r s']. exists r, s'. split; [done|]. destruct r; [|done..]. split; [done|].
  intros fd mo' [= ->]. exact Hw.
Qed.
End fds.

(** ** Reading the options *)

(** What the callback and the stores into fields keep, the parser keeps. *)
Section data_inv.
Context (alloc_ok : nat -> bool) (sscanf : cstring -> cstring -> option Z) (templates : list fuse_opt).
Context (p : fields -> cstring -> Z -> fuse_args -> nat -> Z * fields * fuse_args * nat) (I : fields -> Prop).
Hypothesis Hfield : forall o v d, o ∈ templates -> offset o <> NO_OFFSET -> I d -> I (<[offset o := v]> d).
Hypothesis Hkey : forall o sep d arg a t, o ∈ templates -> match_template (templ o) arg = Some sep -> offset o = NO_OFFSET -> I d ->
  I (p d arg (value o) a t).1.1.2.
Hypothesis Hother : forall key d arg a t, key = FUSE_OPT_KEY_OPT \/ key = FUSE_OPT_KEY_NONOPT -> I d -> I (p d arg key a t).1.1.2.
Hypothesis Hspace : forall o i, o ∈ templates -> ceq (char_at (templ o) i) space = false.

Definition holds {A} (m : M context A) : Prop :=
  forall c, I (data c) -> match m c with Ok (_, c') => I (data c') | _ => True end.

Lemma holds_ret {A} (a : A) : holds (mret a).
Proof. by intros c Hc. Qed.
Lemma holds_get : holds get.
Proof. by intros c Hc. Qed.
Lemma holds_bind {A B} (m : M context A) (f : A -> M context B) : holds m -> (forall a, holds (f a)) -> holds (m ≫= f).
Proof. intros Hm Hf c Hc. unfold mbind, M_bind. specialize (Hm c Hc). destruct (m c) as [[a c']| |]; [|done..]. by apply Hf. Qed.
Lemma holds_modify f : (forall c, I (data c) -> I (data (f c))) -> holds (modify f).
Proof. intros Hf c Hc. by apply Hf. Qed.
Lemma holds_assert b : holds (assert b).
Proof. intros c Hc. by destruct b. Qed.
Lemma holds_diverge {A} : holds (@diverge context A).
Proof. by intros c Hc. Qed.

Create HintDb holds.
#[local] Hint Resolve holds_ret holds_get holds_assert holds_diverge : holds.

Ltac hold :=
  repeat match goal with
  | |- holds (mbind _ _) => apply holds_bind; [|intros ?]
  | |- holds (modify _) => apply holds_modify; done
  | |- holds (match ?x with _ => _ end) => destruct x
  | |- holds _ => progress cbn zeta beta
  | |- holds _ => solve [auto with holds]
  end.

Lemma holds_malloc : holds (malloc alloc_ok).
Proof. by intros c Hc. Qed.
Lemma holds_add_arg arg : holds (add_arg alloc_ok arg).
Proof. intros c Hc. unfold add_arg. by destruct (fuse_opt_add_arg _ _ _ _) as [[]| |]. Qed.
Lemma holds_insert_arg pos arg : holds (insert_arg alloc_ok pos arg).
Proof. intros c Hc. unfold insert_arg. by destruct (fuse_opt_insert_arg _ _ _ _ _) as [[]| |]. Qed.
Lemma holds_add_opt opt : holds (add_opt alloc_ok opt).
Proof. intros c Hc. unfold add_opt, malloc, mbind, M_bind, get. by destruct (add_opt_common _ _ _ _). Qed.
Lemma holds_next_arg opt : holds (next_arg opt).
Proof. intros c Hc. unfold next_arg, mbind, M_bind, get. by destruct (_ <=? _). Qed.
#[local] Hint Resolve holds_malloc holds_add_arg holds_insert_arg holds_add_opt holds_next_arg : holds.

Lemma holds_call_proc arg key iso : (forall d a t, I d -> I (p d arg key a t).1.1.2) -> holds (call_proc alloc_ok (Some p) arg key iso).
Proof.
  intros Hp. unfold call_proc. destruct (key =? FUSE_OPT_KEY_DISCARD); [hold|]. apply holds_bind; [|intros r; hold].
  destruct (negb _); [|hold]. intros c Hc. specialize (Hp (data c) (outargs c) (tick c) Hc). unfold mbind, M_bind, get.
  by destruct (p _ _ _ _ _) as [[[r d] a] t].
Qed.

Lemma holds_process_opt o sep arg iso : o ∈ templates -> match_template (templ o) arg = Some sep ->
  holds (process_opt alloc_ok sscanf (Some p) o sep arg iso).
Proof.
  intros Ho Hm. unfold process_opt. destruct (Z.eqb_spec (offset o) NO_OFFSET).
  - apply holds_bind; [|intros r; hold]. apply holds_call_proc. intros d a t. by eapply Hkey.
  - assert (forall v, holds (modify (fun c => set_data c (<[offset o := v]> (data c))))) as Hst.
    { intros v. apply holds_modify. intros c Hc. by apply Hfield. }
    destruct (negb _ && _); [|apply holds_bind; [apply Hst|intros; hold]]. cbn zeta. unfold process_opt_param.
    apply holds_bind; [|intros; hold]. apply holds_bind; [hold|intros _]. destruct (ceq _ _).
    + apply holds_bind; [hold|intros ok]. destruct (negb ok); [hold|]. apply holds_bind; [apply Hst|intros; hold].
    + destruct (sscanf _ _); [|hold]. apply holds_bind; [apply Hst|intros; hold].
Qed.

Lemma holds_gopt_loop ts arg iso : (forall o, o ∈ ts -> o ∈ templates) -> holds (gopt_loop alloc_ok sscanf (Some p) ts arg iso).
Proof.
  induction ts as [|o ts IH]; intros Hts; cbn [gopt_loop]; [hold|]. assert (holds (gopt_loop alloc_ok sscanf (Some p) ts arg iso)) as Hrest.
  { apply IH. intros o' Ho'. apply Hts. by right. }
  destruct (match_template (templ o) arg) as [sep|] eqn:Hm; [|done]. assert (o ∈ templates) as Ho by (apply Hts; by left).
  rewrite (Hspace o sep Ho) andb_false_r. apply holds_bind; [by apply holds_process_opt|intros r]. destruct (r =? -1); [hold|done].
Qed.

Lemma holds_process_gopt arg iso : holds (process_gopt alloc_ok sscanf templates (Some p) arg iso).
Proof.
  unfold process_gopt. destruct (find_opt _ _); [by apply holds_gopt_loop|]. apply holds_call_proc. intros d a t. apply Hother. by left.
Qed.
#[local] Hint Resolve holds_process_gopt : holds.

Lemma holds_group_loop n : forall buf s d, holds (group_loop alloc_ok sscanf templates (Some p) n buf s d).
Proof. induction n as [|n IH]; intros buf s d; cbn [group_loop]; hold. Qed.
#[local] Hint Resolve holds_group_loop : holds.

Lemma holds_process_one arg : holds (process_one alloc_ok sscanf templates (Some p) arg).
Proof.
  unfold process_one, process_option_group, process_real_option_group. hold.
  apply holds_call_proc. intros d a' t. apply Hother. by right.
Qed.
#[local] Hint Resolve holds_process_one : holds.

Lemma holds_parse_loop n : holds (parse_loop alloc_ok sscanf templates (Some p) n).
Proof. induction n as [|n IH]; cbn [parse_loop]; hold. Qed.
#[local] Hint Resolve holds_parse_loop : holds.

Lemma holds_opt_parse : holds (opt_parse alloc_ok sscanf templates (Some p)).
Proof. unfold opt_parse. hold. Qed.

Lemma fuse_opt_parse_data args d r args' d' : I d ->
  fuse_opt_parse alloc_ok sscanf templates (Some p) args d = Ok (r, args', d') -> I d'.
Proof.
  intros Hd. unfold fuse_opt_parse. destruct args as [a|]; [|by intros [= <- <- <-]]. destruct (argv a) as [av|]; [|by intros [= <- <- <-]].
  destruct (argc a =? 0); [by intros [= <- <- <-]|]. set (c0 := mkCtx _ _ _ _ _ _ _ _). pose proof (holds_opt_parse c0 Hd) as Hw.
  destruct (opt_parse _ _ _ _ c0) as [[res c]| |]; [|done..]. by intros [= <- <- <-].
Qed.
End data_inv.

Lemma no_space ts : forallb (fun o => negb (bool_decide (space ∈ templ o))) ts = true -> forall o i, o ∈ ts -> ceq (char_at (templ o) i) space = false.
Proof.
  intros Hall o i Ho. rewrite forallb_forall in Hall. specialize (Hall o ltac:(by apply list_elem_of_In)).
  apply negb_true_iff, bool_decide_eq_false in Hall. apply ceq_false. intros He. unfold char_at in He.
  destruct (nth_lookup_or_length (templ o) i NUL) as [Hi|Hi]; [|by rewrite nth_overflow in He].
  rewrite He in Hi. by apply Hall, (list_elem_of_lookup_2 _ i).
Qed.

(** Every flag that the table of options names is in the table of flags. *)
Lemma set_mount_flag_found table s flags : existsb (fun e => strcmp_eq e.1.1 s) table = true -> exists f, set_mount_flag table s flags = Some f.
Proof.
  induction table as [|[[opt flag] on] table IH]; cbn [existsb set_mount_flag fst]; [done|]. destruct (strcmp_eq opt s); [eauto|]. apply IH.
Qed.

Definition flag_known (o : fuse_opt) : bool :=
  if (offset o =? NO_OFFSET) && (value o =? KEY_KERN_FLAG) then
    match strchr (templ o) equals with Some _ => false | None => true end &&
    match strchr (templ o) space with Some _ => false | None => true end && existsb (fun e => strcmp_eq e.1.1 (templ o)) lib_mount_flags
  else true.

Lemma match_template_exact t arg sep : strchr t equals = None -> strchr t space = None -> match_template t arg = Some sep -> arg = t.
Proof.
  intros He Hs. unfold match_template. rewrite He Hs. destruct (strcmp_eq t arg) eqn:Ht; [|done]. by apply bool_decide_eq_true in Ht.
Qed.

Lemma kern_flag_known o sep d arg a t : o ∈ fuse_mount_opts -> match_template (templ o) arg = Some sep -> offset o = NO_OFFSET ->
  value o = KEY_KERN_FLAG -> exists f, kern_flag d arg a t = (0, <[O_FLAGS := FInt f]> d, a, t).
Proof.
  intros Ho Hm Hoff Hval. assert (forallb flag_known fuse_mount_opts = true) as Hall by (vm_compute; reflexivity).
  rewrite forallb_forall in Hall. specialize (Hall o ltac:(by apply list_elem_of_In)). unfold flag_known in Hall.
  rewrite Hoff Hval in Hall. cbn [Z.eqb andb] in Hall. rewrite !Z.eqb_refl in Hall. cbn [andb] in Hall.
  destruct (strchr (templ o) equals) eqn:He; [done|]. destruct (strchr (templ o) space) eqn:Hs; [done|]. cbn [andb] in Hall.
  rewrite (match_template_exact _ _ _ He Hs Hm). unfold kern_flag. destruct (set_mount_flag_found _ _ (int_field d O_FLAGS) Hall) as [f ->]. eauto.
Qed.

Definition not_aborted (d : fields) : Prop := d !! O_ABORTED = None.

Section never_aborts.
Context (alloc_ok : nat -> bool).

Lemma add_to_field_aborted esc d o arg a t : o <> O_ABORTED -> not_aborted d -> not_aborted (add_to_field alloc_ok esc d o arg a t).1.1.2.
Proof.
  intros Ho Hd. unfold add_to_field, not_aborted. destruct (add_opt_common _ _ _ _) as [r [v|]]; [|done]. cbn. by rewrite lookup_insert_ne.
Qed.

(** The callback, when an unknown flag cannot be. *)
Lemma proc_not_aborted d arg key a t : (key = KEY_KERN_FLAG -> exists f, kern_flag d arg a t = (0, <[O_FLAGS := FInt f]> d, a, t)) ->
  not_aborted d -> not_aborted (fuse_mount_opt_proc alloc_ok d arg key a t).1.1.2.
Proof.
  intros Hk Hd. unfold fuse_mount_opt_proc. assert (forall f, not_aborted (<[O_FLAGS := FInt f]> d)) as Hf.
  { intros f. unfold not_aborted. by rewrite lookup_insert_ne. }
  destruct (key =? KEY_RO); [apply Hf|]. destruct (Z.eqb_spec key KEY_KERN_FLAG) as [->|].
  { destruct (Hk eq_refl) as [f ->]. apply Hf. }
  repeat case_match; first [by apply add_to_field_aborted | done].
Qed.

Lemma fuse_mount_opt_proc_ok : proc_ok (Some (fuse_mount_opt_proc alloc_ok)).
Proof.
  intros p d arg key a t r d' a' t' l [= <-] Hp Hl. exists l. split; [|done]. enough (a' = a) as -> by done.
  unfold fuse_mount_opt_proc, kern_flag, add_to_field in Hp. repeat (case_match; simplify_eq/=); done.
Qed.
End never_aborts.

Lemma fuse_opt_parse_ends alloc_ok sscanf a l d : l <> [] -> Forall nul_free l ->
  argc a = Z.of_nat (length l) -> argv a = Some ((Some <$> l) ++ [None]) ->
  exists r args' d', fuse_opt_parse alloc_ok sscanf fuse_mount_opts (Some (fuse_mount_opt_proc alloc_ok)) (Some a) d = Ok (r, args', d').
Proof.
  intros Hl Hnf Hc Hv. unfold fuse_opt_parse. rewrite Hv. destruct (Z.eqb_spec (argc a) 0); [eauto|].
  set (c0 := mkCtx _ _ _ _ _ _ _ _). destruct (wp_Ok _ _ c0 (opt_parse_wp alloc_ok sscanf fuse_mount_opts (Some (fuse_mount_opt_proc alloc_ok))
    (fuse_mount_opt_proc_ok alloc_ok) c0 eq_refl ltac:(cbn; lia) ltac:(by apply strings_ok_intro))) as (r & c' & -> & _). eauto.
Qed.

(** [parse_mount_opts] reads every command line, whatever allocations fail: it
    returns options or [NULL], no loop runs forever, and the [abort()] for an unknown
    flag is never reached, because every flag that the table of options hands to the
    callback is in the table of flags. *)
Theorem mount_opts_parsed alloc_ok sscanf ok a l : l <> [] -> Forall nul_free l ->
  argc a = Z.of_nat (length l) -> argv a = Some ((Some <$> l) ++ [None]) ->
  exists mo args', parse_mount_opts alloc_ok sscanf ok (Some a) = Ok (mo, args').
Proof.
  intros Hl Hnf Hc Hv. unfold parse_mount_opts. destruct ok; cbn [negb]; [|eauto].
  destruct (fuse_opt_parse_ends alloc_ok sscanf a l mount_opts_start Hl Hnf Hc Hv) as (r & args' & d' & Hp). rewrite Hp.
  enough (not_aborted d') as Hd by (unfold int_field; rewrite Hd; cbn; eauto).
  eapply (fuse_opt_parse_data alloc_ok sscanf fuse_mount_opts (fuse_mount_opt_proc alloc_ok) not_aborted); [..|exact Hp].
  - intros o v d Ho _ Hd. unfold not_aborted. rewrite lookup_insert_ne //. intros He.
    repeat (apply elem_of_cons in Ho as [->|Ho]; [done|]). by apply elem_of_nil in Ho.
  - intros o sep d arg a0 t Ho Hm Hoff. apply proc_not_aborted. by eapply kern_flag_known.
  - intros key d arg a0 t Hk. apply proc_not_aborted. by destruct Hk as [->| ->].
  - apply no_space. vm_compute. reflexivity.
  - done.
Qed.

(** ** The name of the file system *)

Lemma opt_length_escape g rest : rest = [] \/ (exists r, rest = comma :: r) ->
  opt_length true (escape true g ++ rest) = length (escape true g).
Proof.
  intros Hr. induction g as [|c g IH]; cbn [escape app].
  - destruct Hr as [->|[r ->]]; [done|]. cbn [opt_length]. destruct r; [by rewrite ceq_refl|done].
  - cbn [andb]. destruct (ceq c OptParse.comma || ceq c OptParse.backslash) eqn:Hc; cbn [app length].
    + rewrite -IH. by destruct (escape true g ++ rest).
    + cbn [opt_length]. apply orb_false_iff in Hc as [Hc Hb]. change comma with OptParse.comma. change backslash with OptParse.backslash. rewrite Hc Hb.
      rewrite -IH. by destruct (escape true g ++ rest).
Qed.

Lemma unescape_escape g : unescape_opt (escape true g) = g.
Proof.
  induction g as [|c g IH]; [done|]. cbn [escape andb]. destruct (ceq c OptParse.comma || ceq c OptParse.backslash) eqn:Hc; cbn [unescape_opt].
  - change backslash with OptParse.backslash. rewrite ceq_refl. by rewrite IH.
  - apply orb_false_iff in Hc as [_ Hb]. change backslash with OptParse.backslash. rewrite Hb.
    destruct (escape true g) eqn:He; [|by rewrite IH]. by destruct g; [|rewrite -IH].
Qed.

(** An option at the front of what is left: the loop takes it as one and gets the name
    back. *)
Lemma mount_opts_loop_fsname (answer : forall A, list event -> call A -> A) uid fuel f e rest o s :
  e = lit "fsname=" ++ escape true f ->
  rest = [] \/ (exists r, rest = comma :: r) -> answer bool (fm_log s) Malloc = true ->
  mount_opts_loop answer uid (S fuel) (e ++ rest) o s =
    mount_opts_loop answer uid fuel (drop 1 rest) (set_mo_fsname o (Some f)) (log_event s (Event bool (fm_priv s) Malloc true)).
Proof.
  intros -> Hr Hok.
  pose proof (opt_length_escape (lit "fsname=" ++ f) rest Hr) as Hlen.
  change (escape true (lit "fsname=" ++ f)) with (lit "fsname=" ++ escape true f) in Hlen.
  assert (begins_with ((lit "fsname=" ++ escape true f) ++ rest) (lit "fsname=") = true) as Hbeg.
  { apply begins_with_prefix; [literal|]. rewrite -app_assoc. by apply prefix_app_r. }
  set (str := (lit "fsname=" ++ escape true f) ++ rest) in *.
  assert (mount_opts_loop answer uid (S fuel) str o =
    (r ← mount_opt answer uid str (length (lit "fsname=" ++ escape true f)) o;
     match r with None => mret None | Some o => mount_opts_loop answer uid fuel (drop 1 (drop (length (lit "fsname=" ++ escape true f)) str)) o end)) as ->.
  { unfold str at 1. cbn [mount_opts_loop app lit list_ascii_of_string]. fold str. by rewrite Hbeg orb_true_l Hlen. }
  unfold mount_opt. rewrite Hbeg. unfold get_string_opt, mbind, X_bind, perform. rewrite Hok. cbn [negb mret X_ret fmap option_fmap option_map].
  assert (drop (length (lit "fsname=" ++ escape true f)) str = rest) as -> by by rewrite /str drop_app_length.
  do 3 f_equal. rewrite /str -app_assoc drop_app_length length_app Nat.add_comm Nat.add_sub take_app_length. by rewrite unescape_escape.
Qed.

(** *** The options before *)

Lemma split_commas_ne s : split_commas s <> [].
Proof. destruct s as [|c s]; [done|]. cbn [split_commas]. destruct (ceq c comma); [done|]. by destruct (split_commas s). Qed.

Lemma split_commas_app a b : split_commas (a ++ comma :: b) = split_commas a ++ split_commas b.
Proof.
  induction a as [|c a IH]; cbn [app split_commas]; [by rewrite ceq_refl|]. destruct (ceq c comma); [by rewrite IH|].
  rewrite IH. pose proof (split_commas_ne a). by destruct (split_commas a).
Qed.

Lemma join_split s : join_commas (split_commas s) = s.
Proof.
  induction s as [|c s IH]; [done|]. cbn [split_commas]. pose proof (split_commas_ne s). destruct (split_commas s) as [|o os]; [done|].
  destruct (ceq c comma) eqn:Hc; cbn in *; [apply ceq_true in Hc as ->|]; by rewrite -IH.
Qed.

Lemma split_head s o os : split_commas s = o :: os -> o `prefix_of` s.
Proof.
  revert o os. induction s as [|c s IH]; intros o os; cbn [split_commas]; [by intros [= <- _]|].
  destruct (ceq c comma); [intros [= <- _]; apply prefix_nil|]. pose proof (split_commas_ne s).
  destruct (split_commas s) as [|o' os']; [done|]. intros [= <- _]. by apply prefix_cons, (IH o' os').
Qed.

Definition has_comma_x (s : cstring) : Prop := exists a b, s = a ++ lit ",x-" ++ b.

Lemma is_x_prefix o : is_x o = true -> lit "x-" `prefix_of` o.
Proof.
  destruct o as [|c [|d o]]; [done|by rewrite /is_x /begins_with /= => /bool_decide_eq_true|]. intros Hx. 
  apply bool_decide_eq_true in Hx. cbn in Hx. injection Hx as -> ->. by exists o.
Qed.

(** An option after the first one that starts with [x-] has a comma before it. *)
Lemma split_tail_x s o : o ∈ tail (split_commas s) -> is_x o = true -> has_comma_x s.
Proof.
  intros Hin Hx. induction s as [|c s IH]; [by apply elem_of_nil in Hin|]. cbn [split_commas] in Hin.
  assert (has_comma_x s -> has_comma_x (c :: s)) as Hcons by (intros (a & b & ->); by exists (c :: a), b).
  destruct (ceq c comma) eqn:Hc; [apply ceq_true in Hc as ->|]; cbn [tail] in Hin.
  - destruct (split_commas s) as [|o' os] eqn:Hs; [by apply elem_of_nil in Hin|].
    apply elem_of_cons in Hin as [->|Hin]; [|by apply Hcons, IH].
    destruct (split_head _ _ _ Hs) as [r ->]. destruct (is_x_prefix _ Hx) as [r' ->]. exists [], (r' ++ r). done.
  - destruct (split_commas s) as [|o' os] eqn:Hs; [by apply elem_of_nil in Hin|]. by apply Hcons, IH.
Qed.

Lemma escape_comma_x g : has_comma_x (escape true g) -> has_comma_x g.
Proof.
  intros (a & b & He). revert a He. induction g as [|c g IH]; intros a He; cbn [escape andb] in He; [by destruct a|].
  assert (has_comma_x g -> has_comma_x (c :: g)) as Hcons by (intros (a' & b' & ->); by exists (c :: a'), b').
  destruct (ceq c OptParse.comma || ceq c OptParse.backslash) eqn:Hc.
  - destruct a as [|c1 [|c2 a]]; [done| |injection He as _ _ He; by apply Hcons, (IH a)].
    injection He as _ -> He. destruct g as [|g1 g]; [done|]. cbn [escape andb] in He.
    destruct (ceq g1 OptParse.comma || ceq g1 OptParse.backslash); [done|]. injection He as -> He.
    destruct g as [|g2 g]; [done|]. cbn [escape andb] in He. destruct (ceq g2 OptParse.comma || ceq g2 OptParse.backslash); [done|].
    injection He as -> _. by exists [], g.
  - destruct a as [|c1 a]; [|injection He as _ He; by apply Hcons, (IH a)]. injection He as -> _. done.
Qed.

Lemma fsname_not_x f o : ~ has_comma_x f -> o ∈ split_commas (lit "fsname=" ++ escape true f) -> is_x o = false.
Proof.
  intros Hf Hin. apply not_true_iff_false. intros Hx. set (e := lit "fsname=" ++ escape true f) in *.
  destruct (split_commas e) as [|o' os] eqn:Hs; [by apply elem_of_nil in Hin|]. apply elem_of_cons in Hin as [->|Hin].
  - destruct (split_head _ _ _ Hs) as [r Hr]. destruct (is_x_prefix _ Hx) as [r' ->]. done.
  - assert (has_comma_x (escape true (lit "fsname=" ++ f))) as He by (eapply (split_tail_x e o); [by rewrite Hs|done]).
    apply escape_comma_x in He as (a & b & Hab). apply Hf. do 7 (destruct a as [|? a]; [done|injection Hab as _ Hab]). by exists a, b.
Qed.

Lemma joined_around A E B : E <> [] -> head E <> Some [] ->
  exists p, join_commas (drop_empty (A ++ E ++ B)) = p ++ join_commas E ++ (B ≫= (fun o => comma :: o)) /\
    (p = [] \/ exists p0, p = p0 ++ [comma]).
Proof.
  intros HE HE1. assert (join_commas (E ++ B) = join_commas E ++ (B ≫= (fun o => comma :: o))) as HEB.
  { destruct E as [|o E]; [done|]. cbn. by rewrite bind_app app_assoc. }
  assert (drop_empty (A ++ E ++ B) = drop_empty A ++ E ++ B) as ->.
  { induction A as [|[|c o] A IH]; [destruct E as [|[|c o] E]; done|exact IH|done]. }
  destruct (drop_empty A) as [|o A'].
  - exists []. split; [done|by left].
  - exists (join_commas (o :: A') ++ [comma]). split; [|right; by eexists]. cbn. rewrite bind_app. destruct E as [|o' E]; [done|].
    cbn in HEB |- *. rewrite HEB. by rewrite -!app_assoc.
Qed.

(** The options after the one at hand that do not start with [x-], each with its comma. *)
Definition regular_after (q : cstring) : cstring :=
  match q with [] => [] | _ :: q0 => filter (fun o => is_x o = false) (split_commas q0) ≫= (fun o => comma :: o) end.

Lemma filter_all (P : cstring -> Prop) `{!forall x, Decision (P x)} (l : list cstring) : (forall o, o ∈ l -> P o) -> filter P l = l.
Proof.
  induction l as [|o l IH]; intros Hl; [done|]. assert (P o) as Ho by (apply Hl; by left).
  rewrite filter_cons_True //. f_equal. apply IH. intros o' Ho'. apply Hl. by right.
Qed.

Lemma extract_around (answer : forall A, list event -> call A -> A) (p e q : cstring) s : (forall o, o ∈ split_commas e -> is_x o = false) -> head (split_commas e) <> Some [] ->
  p = [] \/ (exists p0, p = p0 ++ [comma]) -> q = [] \/ (exists q0, q = comma :: q0) -> strlen (p ++ e ++ q) < 2 ^ 61 ->
  (forall l, answer bool l Malloc = true) ->
  exists p' x s1, extract_x_options answer (p ++ e ++ q) s = (Done (inr (p' ++ e ++ regular_after q, x)), s1) /\
    (p' = [] \/ exists p0, p' = p0 ++ [comma]).
Proof.
  intros Hx Hh Hp Hq Hlt Hmem. set (opts := p ++ e ++ q) in *. assert (0 <= strlen opts) by (unfold strlen; lia).
  assert (exists A B, split_commas opts = A ++ split_commas e ++ B /\ regular_after q = filter (fun o => is_x o = false) B ≫= (fun o => comma :: o)) as (A & B & Hs & HB).
  { assert (exists B, split_commas (e ++ q) = split_commas e ++ B /\ regular_after q = filter (fun o => is_x o = false) B ≫= (fun o => comma :: o)) as (B & HB1 & HB2).
    { destruct Hq as [->|[q0 ->]]; [exists []; by rewrite !app_nil_r|]. exists (split_commas q0). by rewrite split_commas_app. }
    destruct Hp as [->|[p0 ->]]; [by exists [], B|]. exists (split_commas p0), B. split; [|done].
    unfold opts. rewrite -app_assoc. cbn [app]. by rewrite split_commas_app HB1. }
  destruct (joined_around (filter (fun o => is_x o = false) A) (split_commas e) (filter (fun o => is_x o = false) B)) as (p' & Hj & Hp').
  { apply split_commas_ne. }
  { done. }
  exists p'. unfold extract_x_options, mbind, X_bind, mret, X_ret, perform. rewrite !Hmem. cbn [andb negb]. eexists _, _. split; [|done].
  pose proof (x_loop_spec (S (length opts)) (strlen opts + 1) opts [] [] ltac:(lia) ltac:(lia) ltac:(lia) ltac:(by left) ltac:(by left)) as Hl.
  cbn [drop_empty join_commas app] in Hl. change (strlen []) with 0 in Hl. rewrite Z.sub_0_r in Hl. rewrite Hl.
  rewrite Hs !list.filter_app (filter_all _ (split_commas e)) // Hj join_split HB. reflexivity.
Qed.

(** C28: the name of a file system survives the way through the mount helper.  The
    library escapes [fsname=] and the name, with any commas and backslashes in it, and
    puts it among the options, between [p] and [q].  When no comma of the name is
    followed by [x-], [extract_x_options] leaves the option as it is among the regular
    ones (a name with [,x-] is torn apart, [escaped_comma_swallows_option]); and the option
    loop, when it comes to it, takes exactly that string as one option, goes on with the
    next one and gets the name back as it was. *)
Theorem fsname_roundtrip (answer : forall A, list event -> call A -> A) uid fuel f e p q s :
  fuse_opt_add_opt_escaped true None (lit "fsname=" ++ f) = (0, Some e) -> ~ has_comma_x f ->
  p = [] \/ (exists p0, p = p0 ++ [comma]) -> q = [] \/ (exists q0, q = comma :: q0) -> strlen (p ++ e ++ q) < 2 ^ 61 ->
  (forall l, answer bool l Malloc = true) ->
  exists p' x s1, extract_x_options answer (p ++ e ++ q) s = (Done (inr (p' ++ e ++ regular_after q, x)), s1) /\
    (p' = [] \/ exists p0, p' = p0 ++ [comma]) /\
    forall o s2, mount_opts_loop answer uid (S fuel) (e ++ regular_after q) o s2 =
      mount_opts_loop answer uid fuel (drop 1 (regular_after q)) (set_mo_fsname o (Some f))
        (log_event s2 (Event bool (fm_priv s2) Malloc true)).
Proof.
  intros He Hf Hp Hq Hlt Hmem. assert (e = lit "fsname=" ++ escape true f) as Hee by by injection He as <-. clear He.
  destruct (extract_around answer p e q s) as (p' & x & s1 & ? & ?); [rewrite Hee; intros o; by apply fsname_not_x| |done..|].
  { subst e. cbn. by destruct (split_commas (escape true f)). }
  exists p', x, s1. split_and!; [done..|]. intros o s2. apply mount_opts_loop_fsname; [done| |done].
  unfold regular_after. destruct q as [|c q0]; [by left|]. destruct (filter _ _) as [|o1 l]; [by left|right; by eexists].
Qed.

(** ** Runs *)

(** The [n]-th allocation fails when [mem] says so, [mount] when there is an [errno]. *)
Definition lib_answer (mem : nat -> bool) (mount_errno : option Z) (spawned : bool) (A : Type) (l : list event) (c : call A) : A :=
  match c in call A return A with
  | Malloc => mem (length (List.filter (fun e => match ev_call e with Malloc => true | _ => false end) l))
  | Mount _ _ _ _ _ => mount_errno
  | Spawn _ _ _ => if spawned then inr 99 else inl ENOENT
  | c => sample_answer (inr []) [] _ l c
  end.

Definition plenty (n : nat) : bool := true.
Definition sample_mo (auto : bool) : mount_opts :=
  mkMountOpts (Z.lor MS_NOSUID MS_NODEV) auto false (Some (lit "a,b")) None None None (Some (lit "fsname=a\,b")) None.

Definition kern_run (mem : nat -> bool) (mount_errno : option Z) (spawned auto : bool) : ending (Z * mount_opts) * fm :=
  fuse_kern_mount (lib_answer mem mount_errno spawned) 1000 100 false 1 (lit "/home/m") (sample_mo auto) fm_start.

(** Without the privileges to mount the descriptor comes from the helper. *)
Example mounted_by_helper : let '(r, s) := kern_run plenty (Some EPERM) true false in
  (fst <$> match r with Done x => Some x | _ => None end) = Some 8 /\ bool_decide (fds (fm_log s) = {[+ 8 +]}) = true.
Proof. vm_compute. done. Qed.

Lemma kern_mount_descriptors_witness : m_auto_unmount (sample_mo false) = false /\
  exists r s', kern_run plenty (Some EPERM) true false = (r, s') /\ r <> Looping /\
    forall fd mo', r = Done (fd, mo') ->
      0 <= fd /\ fds (fm_log s') = fds (fm_log fm_start) ⊎ {[+ fd +]} \/
      fd = -1 /\ fds (fm_log s') = fds (fm_log fm_start) \/
      (fd = 0 \/ fd = -2) /\ fds (fm_log s') = fds (fm_log fm_start) /\ short s'.
Proof.
  split; [reflexivity|]. unfold kern_run.
  assert (forall l path fd, lib_answer plenty (Some EPERM) true (Z + Z) l (Open path) = inr fd -> 0 <= fd) as Hopen
    by (intros l path fd Hfd; injection Hfd as <-; lia).
  assert (forall l sock rv fd, lib_answer plenty (Some EPERM) true _ l (Recvmsg sock) = inr (rv, Some (Some fd)) -> 0 <= fd) as Hrecv
    by (intros l sock rv fd Hfd; injection Hfd as _ <-; lia).
  assert (forall l sock, lib_answer plenty (Some EPERM) true _ l (Recvmsg sock) = inl EINTR -> (interrupted l < 0)%nat) as Hintr
    by (intros l sock Hi; discriminate Hi).
  exact (kern_mount_descriptors (lib_answer plenty (Some EPERM) true) 1000 100 false 0 Hopen Hrecv Hintr (lit "/home/m") (sample_mo false)
    fm_start eq_refl).
Defined.

(** The system that allows everything, whatever was asked before. *)
Lemma sample_memory l : sample_answer (inr []) [] bool l Malloc = true.
Proof. reflexivity. Qed.

Lemma fsname_roundtrip_witness : let e := lit "fsname=a\,b\\c" in exists p' x s1,
  extract_x_options (sample_answer (inr []) []) (lit "rw,x-u," ++ e ++ lit ",x-v,ro") fm_start =
    (Done (inr (p' ++ e ++ regular_after (lit ",x-v,ro"), x)), s1) /\
  (p' = [] \/ exists p0, p' = p0 ++ [comma]) /\
  forall o s2, mount_opts_loop (sample_answer (inr []) []) 1000 12 (e ++ regular_after (lit ",x-v,ro")) o s2 =
    mount_opts_loop (sample_answer (inr []) []) 1000 11 (drop 1 (regular_after (lit ",x-v,ro"))) (set_mo_fsname o (Some (lit "a,b\c")))
      (log_event s2 (Event bool (fm_priv s2) Malloc true)).
Proof.
  apply (fsname_roundtrip (sample_answer (inr []) []) 1000 11 (lit "a,b\c") (lit "fsname=a\,b\\c") (lit "rw,x-u,") (lit ",x-v,ro") fm_start).
  - reflexivity.
  - intros (a & b & Hab). do 5 (destruct a as [|? a]; [done|injection Hab as _ Hab]). by destruct a.
  - right. by exists (lit "rw,x-u").
  - right. by exists (lit "x-v,ro").
  - reflexivity.
  - exact sample_memory.
Defined.

Definition sample_argv : list cstring := [lit "prog"; lit "-r"; lit "-o"; lit "fsname=x,allow_other,nodev,x-y,other"].

Lemma mount_opts_parsed_witness : exists mo args',
  parse_mount_opts plenty (fun _ _ => None) true (Some (mkArgs 4 (Some ((Some <$> sample_argv) ++ [None])) 0)) = Ok (mo, args').
Proof.
  apply (mount_opts_parsed plenty (fun _ _ => None) true (mkArgs 4 (Some ((Some <$> sample_argv) ++ [None])) 0) sample_argv).
  - discriminate.
  - repeat (apply List.Forall_cons; [apply nul_free_dec; reflexivity|]). constructor.
  - reflexivity.
  - reflexivity.
Defined.

(** The options that have been read, and what is left. *)
Example mount_opts_sample :
  parse_mount_opts plenty (fun _ _ => None) true (Some (mkArgs 4 (Some ((Some <$> sample_argv) ++ [None])) 0)) =
  Ok (Some (mkMountOpts 7 false false (Some (lit "x")) None None (Some (lit "x-y")) (Some (lit "fsname=x")) (Some (lit "allow_other"))),
      Some (mkArgs 3 (Some [Some (lit "prog"); Some (lit "-o"); Some (lit "other"); None]) 1)).
Proof. vm_compute. reflexivity. Qed.

(** *** Where the program does something else *)

Definition session_run (mem : nat -> bool) (mount_errno : option Z) : option (Z * Z) :=
  match (fuse_session_mount (lib_answer mem mount_errno true) 1000 100 false 9 (mkMntSession (-1) None (sample_mo false)) (lit "/home/m") fm_start).1 with
  | Done (r, se) => Some (r, ms_fd se)
  | _ => None
  end.

(** When there is no memory for the source, [fuse_mount_sys] closes the device and
    returns [0], the success of the call before; the session takes standard input for
    the device. *)
Theorem no_memory_stdin_lost : session_run (fun n => negb (n =? 5)%nat) None = Some (0, 0).
Proof. vm_compute. done. Qed.

(** When there is no memory for the options of the helper, [-2] is returned, which
    [fuse_session_mount] does not take for an error. *)
Theorem no_memory_success_lost : session_run (fun n => negb (n =? 7)%nat) (Some EPERM) = Some (0, -2).
Proof. vm_compute. done. Qed.

(** When automatic unmounting cannot be set up, the device stays open. *)
Theorem auto_unmount_failure_leaks : let '(r, s) := kern_run plenty None false true in
  (fst <$> match r with Done x => Some x | _ => None end) = Some (-1) /\ bool_decide (fds (fm_log s) = {[+ 5 +]}) = true.
Proof. vm_compute. done. Qed.
