(* ===== verification/Helper.v ===== *)
(** * The main program of a file system

    [src/lib/helper.c]: reading the command line ([fuse_parse_cmdline]), becoming a
    daemon and [fuse_main], which creates, mounts, serves, unmounts and destroys.  The
    parts it calls are modelled in other files; here they are steps that an oracle
    lets succeed or fail. *)
From S2P Require Import Prelude Receive OptParse Fusermount FusermountSafe FusermountOpts MountLib MountSafe.

(** ** The command line *)

(** [offsetof] the fields of [struct fuse_cmdline_opts] *)
Definition C_SINGLETHREAD : Z := 0.
Definition C_FOREGROUND : Z := 4.
Definition C_DEBUG : Z := 8.
Definition C_NODEFAULT_SUBTYPE : Z := 12.
Definition C_MOUNTPOINT : Z := 16.
Definition C_SHOW_VERSION : Z := 24.
Definition C_SHOW_HELP : Z := 28.
Definition C_CLONE_FD : Z := 32.
Definition C_MAX_IDLE_THREADS : Z := 36.
Definition C_MAX_THREADS : Z := 40.

Definition fuse_helper_opts : list fuse_opt :=
  [mount_opt_field "-h" C_SHOW_HELP;
   mount_opt_field "--help" C_SHOW_HELP;
   mount_opt_field "-V" C_SHOW_VERSION;
   mount_opt_field "--version" C_SHOW_VERSION;
   mount_opt_field "-d" C_DEBUG;
   mount_opt_field "debug" C_DEBUG;
   mount_opt_field "-d" C_FOREGROUND;
   mount_opt_field "debug" C_FOREGROUND;
   fuse_opt_key "-d" FUSE_OPT_KEY_KEEP;
   fuse_opt_key "debug" FUSE_OPT_KEY_KEEP;
   mount_opt_field "-f" C_FOREGROUND;
   mount_opt_field "-s" C_SINGLETHREAD;
   mount_opt_field "fsname=" C_NODEFAULT_SUBTYPE;
   fuse_opt_key "fsname=" FUSE_OPT_KEY_KEEP;
   mount_opt_field "subtype=" C_NODEFAULT_SUBTYPE;
   fuse_opt_key "subtype=" FUSE_OPT_KEY_KEEP;
   mount_opt_field "clone_fd" C_CLONE_FD;
   mount_opt_field "max_idle_threads=%u" C_MAX_IDLE_THREADS;
   mount_opt_field "max_threads=%u" C_MAX_THREADS].

(** [struct fuse_cmdline_opts] *)
Record fuse_cmdline_opts := mkCmdline {
  co_singlethread : bool; co_foreground : bool; co_debug : bool; co_nodefault_subtype : bool;
  co_mountpoint : option cstring; co_show_version : bool; co_show_help : bool; co_clone_fd : bool;
  co_max_idle_threads : Z; co_max_threads : Z;
}.

Definition cmdline_of (d : fields) : fuse_cmdline_opts :=
  mkCmdline (truth (int_field d C_SINGLETHREAD)) (truth (int_field d C_FOREGROUND)) (truth (int_field d C_DEBUG))
    (truth (int_field d C_NODEFAULT_SUBTYPE)) (str_field d C_MOUNTPOINT) (truth (int_field d C_SHOW_VERSION))
    (truth (int_field d C_SHOW_HELP)) (truth (int_field d C_CLONE_FD)) (int_field d C_MAX_IDLE_THREADS) (int_field d C_MAX_THREADS).

Section cmdline.
Context (alloc_ok : nat -> bool) (sscanf : cstring -> cstring -> option Z) (realpath : cstring -> option cstring).

Definition fuse_helper_opt_proc (d : fields) (arg : cstring) (key : Z) (a : fuse_args) (t : nat) : Z * fields * fuse_args * nat :=
  if key =? FUSE_OPT_KEY_NONOPT then
    match str_field d C_MOUNTPOINT with
    | None =>
        if negb (fuse_mnt_parse_fuse_fd arg =? -1) then add_to_field alloc_ok false d C_MOUNTPOINT arg a t
        else match realpath arg with
             | None => (-1, d, a, t)
             | Some mountpoint => add_to_field alloc_ok false d C_MOUNTPOINT mountpoint a t
             end
    | Some _ => (-1, d, a, t)
    end
  else (1, d, a, t).

Definition base_name (progname : cstring) : cstring :=
  match strrchr progname "/" with
  | None => progname
  | Some p => if ceq (char_at progname (S p)) NUL then drop p progname else drop (S p) progname
  end.

(** The three allocations may fail. *)
Definition add_default_subtype (ok ok1 ok2 : bool) (progname : cstring) (args : fuse_args) : outcome (Z * fuse_args) :=
  if negb ok then Ok (-1, args) else fuse_opt_add_arg ok1 ok2 args (lit "-osubtype=" ++ base_name progname).

Definition cmdline_start : fields := {[C_MAX_IDLE_THREADS := FInt UINT_MAX; C_MAX_THREADS := FInt 10]}.

(** The result, the options and the remaining arguments. *)
Definition fuse_parse_cmdline_312 (ok ok1 ok2 : bool) (args : fuse_args) : outcome (Z * fuse_cmdline_opts * option fuse_args) :=
  match fuse_opt_parse alloc_ok sscanf fuse_helper_opts (Some fuse_helper_opt_proc) (Some args) cmdline_start with
  | Ok (r, args, d) =>
      let opts := cmdline_of d in
      if r =? -1 then Ok (-1, opts, args)
      else if negb (co_nodefault_subtype opts) then
        match args with
        | None => Abort
        | Some args =>
            match add_default_subtype ok ok1 ok2 (arg_at (default [] (argv args)) 0) args with
            | Ok (r, args) => Ok (if r =? -1 then -1 else 0, opts, Some args)
            | Abort => Abort
            | Diverge => Diverge
            end
        end
      else Ok (0, opts, args)
  | Abort => Abort
  | Diverge => Diverge
  end.

(** Programs for older versions: their structure ends before [max_threads]. *)
Definition fuse_parse_cmdline_30 (ok ok1 ok2 : bool) (args : fuse_args) (out : fuse_cmdline_opts)
  : outcome (Z * fuse_cmdline_opts * option fuse_args) :=
  match fuse_parse_cmdline_312 ok ok1 ok2 args with
  | Ok (rc, o, args) =>
      Ok (rc, if rc =? 0 then mkCmdline (co_singlethread o) (co_foreground o) (co_debug o) (co_nodefault_subtype o) (co_mountpoint o)
                                (co_show_version o) (co_show_help o) (co_clone_fd o) (co_max_idle_threads o) (co_max_threads out)
              else out, args)
  | Abort => Abort
  | Diverge => Diverge
  end.
End cmdline.

(** ** The main program *)

(** What [fuse_main] calls, with the results; [Daemonize], [LoopSt] and [LoopMt] are
    [0] on success. *)
Inductive mstep :=
  | New (ok : bool) | MountFs (ok : bool) | Daemonize (ok : bool) | SetHandlers (ok : bool)
  | LoopSt (res : Z) | CfgCreate (ok : bool) | SetLoopMt (clone_fd : bool) (max_idle max_threads : Z) | LoopMt (res : Z)
  | RemoveHandlers | Unmount | Destroy | CfgDestroy | FreeMountpoint | FreeArgs.

(** What succeeds. *)
Record luck := mkLuck {
  lk_new : bool; lk_mount : bool; lk_daemonize : bool; lk_signals : bool; lk_cfg : bool; lk_loop : Z;
}.

(** The labels [out1], [out2] and [out3]. *)
Definition out1 : list mstep := [CfgDestroy; FreeMountpoint; FreeArgs].
Definition out2 : list mstep := Destroy :: out1.
Definition out3 : list mstep := Unmount :: out2.

(** The exit status and the steps; [parsed] is [fuse_parse_cmdline(&args, &opts) == 0]. *)
Definition fuse_main_real_versioned (parsed : bool) (o : fuse_cmdline_opts) (l : luck) : Z * list mstep :=
  if negb parsed then (1, [])
  else if co_show_version o then (0, out1)
  else if co_show_help o then (0, out1)
  else if match co_mountpoint o with None => true | Some _ => false end then (2, out1)
  else if negb (lk_new l) then (3, New false :: out1)
  else
    let '(res, steps) :=
      if negb (lk_mount l) then (4, MountFs false :: out2)
      else
        let '(res, steps) :=
          if negb (lk_daemonize l) then (5, Daemonize false :: out3)
          else
            let '(res, steps) :=
              if negb (lk_signals l) then (6, SetHandlers false :: out3)
              else
                let finish res := (if truth res then 8 else res, RemoveHandlers :: out3) in
                let '(res, steps) :=
                  if co_singlethread o then let '(r, t) := finish (lk_loop l) in (r, LoopSt (lk_loop l) :: t)
                  else if negb (lk_cfg l) then (7, CfgCreate false :: out3)
                  else
                    let '(r, t) := finish (lk_loop l) in
                    (r, CfgCreate true :: SetLoopMt (co_clone_fd o) (co_max_idle_threads o) (co_max_threads o) :: LoopMt (lk_loop l) :: t) in
                (res, SetHandlers true :: steps) in
            (res, Daemonize true :: steps) in
        (res, MountFs true :: steps) in
    (res, New true :: steps).

(** What the process holds; [None]: something is used or released that it does not
    hold, or the session goes while it is mounted. *)
Record held := mkHeld { h_fuse : bool; h_mounted : bool; h_handlers : bool }.

Definition hstep (h : held) (s : mstep) : option held :=
  match s with
  | New ok => if h_fuse h then None else Some (mkHeld ok false (h_handlers h))
  | MountFs ok => if h_fuse h then Some (mkHeld true ok (h_handlers h)) else None
  | SetHandlers ok => if h_fuse h then Some (mkHeld true (h_mounted h) ok) else None
  | RemoveHandlers => if h_fuse h && h_handlers h then Some (mkHeld true (h_mounted h) false) else None
  | Unmount => if h_fuse h then Some (mkHeld true false (h_handlers h)) else None
  | Destroy => if h_fuse h && negb (h_mounted h) then Some (mkHeld false false (h_handlers h)) else None
  | Daemonize _ | LoopSt _ | LoopMt _ => if h_fuse h && h_mounted h then Some h else None
  | CfgCreate _ | SetLoopMt _ _ _ | CfgDestroy | FreeMountpoint | FreeArgs => Some h
  end.

Fixpoint hrun (h : held) (steps : list mstep) : option held :=
  match steps with [] => Some h | s :: steps => match hstep h s with Some h => hrun h steps | None => None end end.

Definition nothing : held := mkHeld false false false.

(** [fuse_main] uses what it has created in a proper order and in the end holds
    nothing, on every path but one: when there is no memory for the configuration of
    the loop, the signal handlers stay, and they refer to the session that is gone. *)
Theorem main_releases parsed o l : let '(res, steps) := fuse_main_real_versioned parsed o l in
  hrun nothing steps = Some (mkHeld false false (res =? 7)).
Proof.
  unfold fuse_main_real_versioned. destruct parsed, (co_show_version o), (co_show_help o), (co_mountpoint o), l as [[] [] [] [] [] r],
    (co_singlethread o); cbn; try done; unfold truth; destruct (Z.eqb_spec r 0) as [->|]; done.
Qed.

(** ** The command line is read *)

Section proofs.
Context (alloc_ok : nat -> bool) (sscanf : cstring -> cstring -> option Z) (realpath : cstring -> option cstring).

Lemma fuse_helper_opt_proc_ok : proc_ok (Some (fuse_helper_opt_proc alloc_ok realpath)).
Proof.
  intros p d arg key a t r d' a' t' l [= <-] Hp Hl. exists l. split; [|done]. enough (a' = a) as -> by done.
  unfold fuse_helper_opt_proc, add_to_field in Hp. repeat (case_match; simplify_eq/=); done.
Qed.

(** Where the mount point comes from. *)
Definition resolved (d : fields) : Prop := forall m, str_field d C_MOUNTPOINT = Some m ->
  exists arg, realpath arg = Some m \/ fuse_mnt_parse_fuse_fd arg <> -1 /\ m = arg.

Lemma str_field_insert d o o' v : o <> o' -> str_field (<[o := v]> d) o' = str_field d o'.
Proof. intros Hne. unfold str_field. by rewrite lookup_insert_ne. Qed.

Lemma add_resolved d arg a t m : str_field d C_MOUNTPOINT = None ->
  (realpath arg = Some m \/ fuse_mnt_parse_fuse_fd arg <> -1 /\ m = arg) -> resolved (add_to_field alloc_ok false d C_MOUNTPOINT m a t).1.1.2.
Proof.
  intros Hn Hm. unfold add_to_field. rewrite Hn. unfold add_opt_common. destruct (alloc_ok t); cbn [negb fst snd]; intros m'.
  - cbn. unfold str_field. rewrite lookup_insert_eq. intros [= <-]. exists arg.
    assert (forall s, escape false s = s) as Hesc by (induction s as [|c s IH]; cbn; [done|by rewrite IH]). by rewrite Hesc.
  - by rewrite Hn.
Qed.

Lemma helper_proc_resolved d arg key a t : resolved d -> resolved (fuse_helper_opt_proc alloc_ok realpath d arg key a t).1.1.2.
Proof.
  intros Hd. unfold fuse_helper_opt_proc. destruct (key =? FUSE_OPT_KEY_NONOPT); [|done].
  destruct (str_field d C_MOUNTPOINT) eqn:Hm; [done|]. destruct (Z.eqb_spec (fuse_mnt_parse_fuse_fd arg) (-1)); cbn [negb].
  - destruct (realpath arg) as [m|] eqn:Hr; [|done]. eapply add_resolved; [done|]. by left.
  - eapply add_resolved; [done|]. by right.
Qed.

Lemma helper_parse_ends a l d : l <> [] -> Forall nul_free l ->
  argc a = Z.of_nat (length l) -> argv a = Some ((Some <$> l) ++ [None]) ->
  exists r args' d', fuse_opt_parse alloc_ok sscanf fuse_helper_opts (Some (fuse_helper_opt_proc alloc_ok realpath)) (Some a) d = Ok (r, args', d') /\
    (r = -1 \/ r = 0 /\ exists a' l', args' = Some a' /\ out_rep a' l').
Proof.
  intros Hl Hnf Hc Hv. unfold fuse_opt_parse. rewrite Hv. destruct (Z.eqb_spec (argc a) 0); [destruct l; [done|cbn in Hc; lia]|].
  set (c0 := mkCtx _ _ _ _ _ _ _ _). destruct (wp_Ok _ _ c0 (opt_parse_wp alloc_ok sscanf fuse_helper_opts (Some (fuse_helper_opt_proc alloc_ok realpath))
    fuse_helper_opt_proc_ok c0 eq_refl ltac:(cbn; lia) ltac:(by apply strings_ok_intro))) as (r & c' & -> & Hr).
  eexists _, _, _. split; [done|]. destruct Hr as [->|(-> & l' & Hl')]; [by left|right]. split; [done|]. by exists (outargs c'), l'.
Qed.

Lemma first_arg a l : out_rep a l -> arg_at (default [] (argv a)) 0 = hd [] l.
Proof. intros [[_ [[-> ->]|[junk ->]]] _]; [done|]. by destruct l. Qed.

(** [fuse_parse_cmdline] reads every command line, whatever allocations fail; the
    mount point it returns is a resolved path or [/dev/fd/N] as given; and unless
    [fsname=] or [subtype=] was given, the arguments it leaves to the file system end
    in the name of the program as subtype. *)
Theorem cmdline_read ok ok1 ok2 a l : l <> [] -> Forall nul_free l ->
  argc a = Z.of_nat (length l) -> argv a = Some ((Some <$> l) ++ [None]) ->
  exists r o args', fuse_parse_cmdline_312 alloc_ok sscanf realpath ok ok1 ok2 a = Ok (r, o, args') /\
    (forall m, co_mountpoint o = Some m -> exists arg, realpath arg = Some m \/ fuse_mnt_parse_fuse_fd arg <> -1 /\ m = arg) /\
    (r = -1 \/ r = 0 /\ exists a' l', args' = Some a' /\ out_rep a' l' /\
      (co_nodefault_subtype o = false -> exists l0, l' = l0 ++ [lit "-osubtype=" ++ base_name (hd [] l0)])).
Proof.
  intros Hl Hnf Hc Hv. unfold fuse_parse_cmdline_312.
  destruct (helper_parse_ends a l cmdline_start Hl Hnf Hc Hv) as (r & args' & d' & Hp & Hr). rewrite Hp.
  assert (resolved d') as Hres.
  { eapply (fuse_opt_parse_data alloc_ok sscanf fuse_helper_opts (fuse_helper_opt_proc alloc_ok realpath) resolved); [..|exact Hp].
    - intros o v d Ho _ Hd m. rewrite str_field_insert; [apply Hd|]. intros He.
      repeat (apply elem_of_cons in Ho as [->|Ho]; [done|]). by apply elem_of_nil in Ho.
    - intros. by apply helper_proc_resolved.
    - intros. by apply helper_proc_resolved.
    - apply no_space. vm_compute. reflexivity.
    - done. }
  destruct Hr as [->|(-> & a' & l' & -> & Hl')]; cbn [Z.eqb].
  { eexists _, _, _. split; [done|]. split; [apply Hres|by left]. }
  destruct (co_nodefault_subtype (cmdline_of d')) eqn:Hs; cbn [negb].
  { eexists _, _, _. split; [done|]. split; [apply Hres|right]. split; [done|]. exists a', l'. split_and!; [done|done|]. by rewrite Hs. }
  unfold add_default_subtype. destruct ok; cbn [negb]; [|eexists _, _, _; split; [done|]; split; [apply Hres|by left]].
  set (prog := arg_at _ 0). destruct (add_arg_cases ok1 ok2 a' l' (lit "-osubtype=" ++ base_name prog) Hl') as [[_ Ha]|(a2 & _ & Ha & Hl2)]; rewrite Ha.
  - eexists _, _, _. split; [done|]. split; [apply Hres|by left].
  - eexists _, _, _. split; [done|]. split; [apply Hres|right]. split; [done|]. exists a2, (l' ++ [lit "-osubtype=" ++ base_name prog]).
    split_and!; [done|done|]. intros _. exists l'. by rewrite -(first_arg a' l' Hl').
Qed.
End proofs.

(** A command line. *)
Example cmdline_sample : match fuse_parse_cmdline_312 plenty (fun _ _ => None) (fun p => Some (lit "/home/" ++ p)) true true true
    (mkArgs 4 (Some [Some (lit "bin/hello"); Some (lit "-f"); Some (lit "m"); Some (lit "-odebug,ro"); None]) 0) with
  | Ok (r, o, Some a) => r = 0 /\ co_mountpoint o = Some (lit "/home/m") /\ co_foreground o = true /\
      argv a = Some [Some (lit "bin/hello"); Some (lit "-o"); Some (lit "debug,ro"); Some (lit "-osubtype=hello"); None]
  | _ => False
  end.
Proof. vm_compute. done. Qed.
