(* ===== verification/Hidden.v ===== *)
(** * Names for hidden files ([lib/fuse.c], [hidden_name])

    A file that is removed while it is open is renamed to [.fuse_hidden] with its
    inode number and a counter in hexadecimal.  The inner loop of [hidden_name]
    counts on until the name is free: numbers below [2^32] have different
    numerals, so it ends after at most as many turns as there are nodes. *)
From S2P Require Import Prelude Locks NodeTable Node NodeOps TreeLock HighLevel.

Lemma hex_digit_inj a b : 0 <= a < 16 -> 0 <= b < 16 -> hex_digit a = hex_digit b -> a = b.
Proof.
  intros Ha Hb.
  assert (forallb (fun x => forallb (fun y => implb (bool_decide (hex_digit x = hex_digit y)) (x =? y)) (seqZ 0 16)) (seqZ 0 16) = true) as Hall
    by (vm_compute; reflexivity).
  rewrite forallb_forall in Hall. specialize (Hall a). rewrite forallb_forall in Hall. intros E.
  specialize (Hall ltac:(apply list_elem_of_In, elem_of_seqZ; lia) b ltac:(apply list_elem_of_In, elem_of_seqZ; lia)).
  rewrite bool_decide_true // in Hall. by apply Z.eqb_eq.
Qed.

(** The numerals of 32-bit numbers determine them. *)
Lemma hex8_inj x y : 0 <= x < 2 ^ 32 -> 0 <= y < 2 ^ 32 -> hex8 x = hex8 y -> x = y.
Proof.
  intros Hx Hy E. unfold hex8 in E. rewrite !wrap_small // in E.
  assert (forall i, i ∈ [7; 6; 5; 4; 3; 2; 1; 0] -> Z.land (Z.shiftr x (4 * i)) 15 = Z.land (Z.shiftr y (4 * i)) 15) as Hnib.
  { assert (forall v i, 0 <= Z.land (Z.shiftr v (4 * i)) 15 < 16) as Hr.
    { intros v i. change 15 with (Z.ones 4). rewrite Z.land_ones //. by apply Z.mod_pos_bound. }
    injection E as E7 E6 E5 E4 E3 E2 E1 E0. intros i. rewrite !elem_of_cons elem_of_nil.
    intros Hi. destruct_or! Hi; subst; try done; by apply hex_digit_inj. }
  apply Z.bits_inj'. intros j Hj. destruct (Z.lt_ge_cases j 32) as [Hlt|Hge].
  - pose proof (Z.div_mod j 4 ltac:(lia)) as Hd. pose proof (Z.mod_pos_bound j 4 ltac:(lia)) as Hm.
    assert (j / 4 ∈ [7; 6; 5; 4; 3; 2; 1; 0]) as Hin.
    { assert (0 <= j / 4 < 8) by (split; [apply Z.div_pos; lia|apply Z.div_lt_upper_bound; lia]). rewrite !elem_of_cons elem_of_nil. lia. }
    pose proof (f_equal (fun v => Z.testbit v (j mod 4)) (Hnib _ Hin)) as Hb. cbn beta in Hb.
    rewrite !Z.land_spec !Z.shiftr_spec in Hb; [lia|lia|].
    replace (j mod 4 + 4 * (j / 4)) with j in Hb by lia.
    assert (Z.testbit 15 (j mod 4) = true) as H15.
    { assert (j mod 4 = 0 \/ j mod 4 = 1 \/ j mod 4 = 2 \/ j mod 4 = 3) as Hc by lia. destruct_or! Hc; by rewrite Hc. }
    by rewrite H15 !andb_true_r in Hb.
  - by rewrite -(Z.mod_small x (2 ^ 32)) // -(Z.mod_small y (2 ^ 32)) // !Z.mod_pow2_bits_high.
Qed.

Lemma hidden_newname_inj n c c' : 0 <= c < 2 ^ 32 -> 0 <= c' < 2 ^ 32 -> hidden_newname n c = hidden_newname n c' -> c = c'.
Proof. unfold hidden_newname. intros Hc Hc' E%app_inv_head%app_inv_head. by apply hex8_inj. Qed.

(** More names than nodes cannot all be taken. *)
Lemma names_free remember rank f dir (names : list cstring) :
  inv remember rank ∅ ∅ None f -> NoDup names -> (forall nm, nm ∈ names -> is_Some (lookup_node f dir nm)) ->
  (length names <= base.size (nodes f))%nat.
Proof.
  intros Hinv Hnd Hall. set (ids := omap (lookup_node f dir) names).
  assert (length ids = length names /\ NoDup ids /\ forall x, x ∈ ids -> exists nm, nm ∈ names /\ lookup_node f dir nm = Some x) as (Hl & Hnd' & Hin).
  { unfold ids. clear ids. induction Hnd as [|nm names Hni Hnd IH]; [split_and!; [done|constructor|by intros x ?%elem_of_nil]|].
    destruct IH as (Hl & Hn & Hin); [intros; apply Hall; set_solver|].
    destruct (Hall nm) as [x Hx]; [set_solver|]. cbn. rewrite Hx. split_and!; [cbn; by rewrite Hl| |].
    - apply list.NoDup_cons. split; [|done]. intros (nm' & Hnm' & Hx')%Hin.
      apply (lookup_node_spec _ _ _ _ _ _ _ _ Hinv) in Hx as (xd & ? & ? & ?), Hx' as (xd' & ? & ? & ?). apply Hni. congruence.
    - intros y [->|(nm' & ? & ?)%Hin]%elem_of_cons; [exists nm; set_solver|exists nm'; set_solver]. }
  rewrite -Hl -(size_list_to_set (C := gset Z) ids) // -size_dom. apply subseteq_size. intros x (nm & _ & Hx)%elem_of_list_to_set%Hin.
  apply (lookup_node_spec _ _ _ _ _ _ _ _ Hinv) in Hx as (xd & Hx & _). by apply elem_of_dom_2 in Hx.
Qed.

Lemma hidden_fresh_wp remember f dir n :
  consistent remember f -> Z.of_nat (base.size (nodes f)) < 2 ^ 32 - 1 ->
  wp (hidden_fresh (S (base.size (nodes f))) dir n) (fun nm f' =>
    (exists c, f' = set_hidectr f c) /\ lookup_node f dir nm = None /\ exists c, 0 <= c < 2 ^ 32 /\ nm = hidden_newname n c) f.
Proof.
  intros [rank Hinv] Hsize. set (c0 := hidectr f). set (nm := fun i : nat => hidden_newname n (u32 (c0 + Z.of_nat i))).
  assert (forall fuel i g, (i + fuel = S (base.size (nodes f)))%nat -> g = f /\ i = O \/ g = set_hidectr f (u32 (c0 + Z.of_nat i)) ->
    (forall j, (1 <= j <= i)%nat -> is_Some (lookup_node f dir (nm j))) ->
    wp (hidden_fresh fuel dir n) (fun nm f' =>
      (exists c, f' = set_hidectr f c) /\ lookup_node f dir nm = None /\ exists c, 0 <= c < 2 ^ 32 /\ nm = hidden_newname n c) g) as H.
  2: { apply (H _ O); [done|by left|lia]. }
  induction fuel as [|fuel IH]; intros i g Hi Hg Hused.
  - exfalso. assert (length (nm <$> seq 1 i) <= base.size (nodes f))%nat as Hle.
    { apply (names_free remember rank f dir); [done| |].
      - apply NoDup_fmap_2_strong; [|apply NoDup_seq]. intros a b Ha%elem_of_seq Hb%elem_of_seq E%hidden_newname_inj;
          [|by apply wrap_range|by apply wrap_range].
        unfold wrap in E. assert ((c0 + Z.of_nat a - (c0 + Z.of_nat b)) mod 2 ^ 32 = 0) as Hm.
        { rewrite Zminus_mod E Z.sub_diag. done. }
        apply Z.mod_divide in Hm as [q Hq]; [|done]. assert (q = 0) by nia. lia.
      - intros x (j & -> & Hj%elem_of_seq)%list_elem_of_fmap. apply Hused. lia. }
    rewrite length_fmap length_seq in Hle. lia.
  - cbn [hidden_fresh]. apply wp_bind, wp_get, wp_bind, wp_put.
    assert (u32 (hidectr g + 1) = u32 (c0 + Z.of_nat (S i)) /\ set_hidectr g (u32 (hidectr g + 1)) = set_hidectr f (u32 (c0 + Z.of_nat (S i))) /\
      forall x, lookup_node g dir x = lookup_node f dir x) as (E1 & E2 & E3).
    { destruct Hg as [[-> ->]| ->].
      - done.
      - assert (u32 (u32 (c0 + Z.of_nat i) + 1) = u32 (c0 + Z.of_nat (S i))) as E.
        { unfold wrap. rewrite Zplus_mod_idemp_l. f_equal. lia. }
        cbn [hidectr set_hidectr]. rewrite E. done. }
    rewrite E2 E1 E3. fold (nm (S i)). destruct (lookup_node f dir (nm (S i))) as [x|] eqn:Hl.
    + apply (IH (S i)); [lia|by right|]. intros j Hj. destruct (decide (j = S i)) as [->|]; [by rewrite Hl|]. apply Hused. lia.
    + apply wp_ret. split_and!; [by eexists|done|]. eexists. split; [|done]. by apply wrap_range.
Qed.

(** They are C strings. *)
Lemma hidden_newname_nul_free n c : nul_free (hidden_newname n c).
Proof.
  assert (forall d, 0 <= d < 16 -> hex_digit d <> NUL) as Hd.
  { assert (forallb (fun x => negb (bool_decide (hex_digit x = NUL))) (seqZ 0 16) = true) as Hall by (vm_compute; reflexivity).
    intros d Hd. rewrite forallb_forall in Hall. specialize (Hall d ltac:(apply list_elem_of_In, elem_of_seqZ; lia)).
    apply negb_true_iff in Hall. by apply bool_decide_eq_false in Hall. }
  assert (forall v, NUL ∉ hex8 v) as Hh.
  { intros v (i & E & _)%list_elem_of_fmap. symmetry in E. revert E. apply Hd. change 15 with (Z.ones 4).
    rewrite Z.land_ones //. by apply Z.mod_pos_bound. }
  unfold nul_free, hidden_newname. rewrite !not_elem_of_app. split_and!; [by vm_compute; set_solver|apply Hh|apply Hh].
Qed.
