(* ===== verification/HighSafe.v ===== *)
(** * The high-level library serves the kernel ([lib/fuse.c])

    The kernel keeps count of what it has been told: how often each node was
    looked up, how often each file is open, and which directory handles there
    are.  This file shows that the library and the kernel never disagree: from
    every state in which they agree, every request that respects the protocol is
    answered exactly once, no assertion fails and nothing loops, every path lock
    is released again, and the two agree about the state after the answer. *)
From Stdlib Require Import SpecFloat.
From S2P Require Import Prelude Locks NodeTable Node NodeOps TreeLock Wire Dir HighLevel Hidden.

(** ** The kernel's side *)

Record kernel := mkKernel {
  k_lookups : Z -> Z;
  k_opens : Z -> Z;
  k_dirs : gset Z;
}.

Definition bump (g : Z -> Z) (n d m : Z) : Z := if m =? n then g m + d else g m.
Definition add_lookups (k : kernel) (n d : Z) : kernel := mkKernel (bump (k_lookups k) n d) (k_opens k) (k_dirs k).
Definition add_opens (k : kernel) (n d : Z) : kernel := mkKernel (k_lookups k) (bump (k_opens k) n d) (k_dirs k).
Definition set_dirs (k : kernel) (d : gset Z) : kernel := mkKernel (k_lookups k) (k_opens k) d.

(** What a request and its answer change; [taken] says that the answer reached
    the kernel (the reply did not return [-ENOENT]). *)
Definition kernel_step (k : kernel) (op : lib_op) (r : lib_reply) (taken : bool) : kernel :=
  match op, r with
  | LO_forget ino n, _ => add_lookups k ino (- n)
  | LO_forget_multi l, _ => foldl (fun k x => add_lookups k x.1 (- x.2)) k l
  | LO_release ino _, _ => add_opens k ino (-1)
  | LO_releasedir _ fi, _ => set_dirs k (k_dirs k ∖ {[fi_fh fi]})
  | LO_open ino _, L_open _ => if taken then add_opens k ino 1 else k
  | LO_opendir _ _, L_open fi => if taken then set_dirs k ({[fi_fh fi]} ∪ k_dirs k) else k
  | _, L_entry e => if taken && truth (e_ino e) then add_lookups k (e_ino e) 1 else k
  | _, L_create e _ => if taken then add_opens (add_lookups k (e_ino e) 1) (e_ino e) 1 else k
  | _, _ => k
  end.

(** ** Agreement *)

Definition nlookups (f : fuse) (n : Z) : Z := match nodes f !! n with Some nd => nlookup nd | None => 0 end.
Definition opens (f : fuse) (n : Z) : Z := match nodes f !! n with Some nd => open_count nd | None => 0 end.

(** The node store while the paths [holds] are locked; nodes are not remembered. *)
Record good (k : kernel) (holds : list hold) (f : fuse) : Prop := {
  g_lock : lock_state 0 f holds;
  g_ctr : counters_ok f;
  g_names : forall n, nul_free (name_of (nodes f) n);
  g_lookups : forall n, k_lookups k n = nlookups f n;
  g_opens : forall n, k_opens k n = opens f n;
  g_locks : forall n nd, nodes f !! n = Some nd -> locks_wf (locks nd);
  g_zero : nodes f !! 0 = None;
  g_sane : forall n, 0 <= k_opens k n /\ (0 < k_opens k n -> 0 < k_lookups k n);
}.

(** The library between requests. *)
Record agree (k : kernel) (h : lib) : Prop := {
  ag_good : good k [] (l_fuse h);
  ag_dirs : forall a, a ∈ k_dirs k <-> is_Some (l_dhs h !! a);
  ag_next : forall a, is_Some (l_dhs h !! a) -> a < l_next_dh h;
}.

(** A path that the kernel may ask for: it knows the node, the name is a C string
    and the path does not need more than 32 bits. *)
Record reachable (k : kernel) (f : fuse) (nodeid : Z) (nm : option cstring) : Prop := {
  rc_known : 0 < k_lookups k nodeid;
  rc_name : nul_free (suffix nm);
  rc_fits : forall l n, seg (nodes f) nodeid l n -> strlen (path_of (nodes f) l (suffix nm)) + 1 <= 4294967295;
}.

(** The limits of the counters. *)
Record roomy (f : fuse) : Prop := {
  rm_lookups : nlookups_ok f;
  rm_nodes : 2 * Z.of_nat (base.size (nodes f)) + 3 < INT_MAX;
}.

(** Kernels that have counted the same. *)
Definition keq (k k' : kernel) : Prop :=
  (forall n, k_lookups k n = k_lookups k' n) /\ (forall n, k_opens k n = k_opens k' n) /\ k_dirs k = k_dirs k'.

#[global] Instance keq_equiv : Equivalence keq.
Proof.
  split.
  - by intros k.
  - by intros k k' (H1 & H2 & H3).
  - intros k1 k2 k3 (H1 & H2 & H3) (H1' & H2' & H3'). split_and!; intros; etrans; eauto.
Qed.

Lemma good_keq k k' holds f : keq k k' -> good k holds f -> good k' holds f.
Proof.
  intros (H1 & H2 & H3) [Hl Hc Hn Hk Ho Hw Hz Hs]. split; try done; intros n; rewrite -?H1 -?H2; auto.
Qed.

#[global] Instance good_proper : Proper (keq ==> eq ==> eq ==> iff) good.
Proof. intros k k' Hk hs _ <- f _ <-. split; apply good_keq; [done|by symmetry]. Qed.

Lemma bump_cancel g n d m : bump (bump g n d) n (- d) m = g m.
Proof. unfold bump. destruct (m =? n); lia. Qed.

(** ** Agreement is kept *)

Lemma nlookups_shape f f' n : same_shape f f' -> nlookups f' n = nlookups f n.
Proof.
  intros Hst. unfold nlookups. pose proof (ss_nodes _ _ Hst n) as H.
  destruct (nodes f !! n), (nodes f' !! n); cbn in H; try done. injection H. congruence.
Qed.

Lemma known_lookups k holds f n : good k holds f -> 0 < k_lookups k n <-> known f n.
Proof.
  intros Hg. rewrite (g_lookups _ _ _ Hg). unfold nlookups, known. destruct (nodes f !! n) as [nd|]; split.
  - intros ?. by exists nd.
  - intros (nd' & [= <-] & ?). done.
  - lia.
  - intros (nd' & ? & _). done.
Qed.

(** Everything but lock words is as before. *)
Lemma good_same_tree k f f' holds holds' :
  good k holds f -> same_tree f f' -> lock_state 0 f' holds' -> good k holds' f'.
Proof.
  intros [_ Hc Hn Hl Ho Hw Hz Hs] Hst Hls. pose proof (same_tree_shape _ _ Hst) as Hsh.
  assert (forall n nd, nodes f' !! n = Some nd -> exists nd0, nodes f !! n = Some nd0 /\
    open_count nd = open_count nd0 /\ locks nd = locks nd0) as Hold.
  { intros n nd Hn'. destruct (same_tree_nodes _ _ _ _ Hst Hn') as (nd0 & ? & E). exists nd0. by injection E. }
  split; try done.
  - destruct (st_ctr _ _ Hst) as (E1 & E2 & _). unfold counters_ok in *. by rewrite E1 E2.
  - intros n. by rewrite (name_of_shape _ _ _ Hsh).
  - intros n. by rewrite (nlookups_shape _ _ _ Hsh).
  - intros n. rewrite Ho. unfold opens. destruct (nodes f' !! n) as [nd|] eqn:E.
    + by destruct (Hold n nd E) as (nd0 & -> & -> & _).
    + destruct (nodes f !! n) eqn:E0; [|done]. pose proof (st_nodes _ _ Hst n) as H. by rewrite E E0 in H.
  - intros n nd Hn'. destruct (Hold n nd Hn') as (nd0 & ? & _ & ->). eauto.
  - apply not_elem_of_dom. rewrite (same_shape_dom _ _ Hsh). by apply not_elem_of_dom.
Qed.

Lemma good_tick k holds f j : good k holds f -> good k holds (set_tick f j).
Proof.
  intros Hg. eapply good_same_tree; [exact Hg|apply same_tree_tick|].
  eapply lock_state_shape; [apply (g_lock _ _ _ Hg)|by apply same_tree_shape, same_tree_tick|done].
Qed.

(** A node that the kernel knows may be asked for. *)
Lemma reachable_request k holds f nodeid nm :
  good k holds f -> roomy f -> reachable k f nodeid nm -> Z.of_nat (length (readers holds)) <= Z.of_nat (base.size (nodes f)) + 1 ->
  request_ok f holds nodeid nm false.
Proof.
  intros Hg [_ Hm] [Hk Hn Hl] Hr. split; [by eapply known_lookups|done| |lia].
  split; [done|apply (g_names _ _ _ Hg)|done].
Qed.

(** Without holders nothing is locked. *)
Lemma idle_unlocked f n nd : lock_state 0 f [] -> nodes f !! n = Some nd -> treelock nd = 0.
Proof. intros Hls Hn. destruct (ls_inv _ _ _ Hls) as [_ H]. specialize (H n nd Hn). unfold lock_ok in H. cbn in H. lia. Qed.

(** No node is write-locked or waited for. *)
Definition clear (f : fuse) : Prop := forall n nd, nodes f !! n = Some nd -> 0 <= treelock nd.

Lemma idle_clear f : lock_state 0 f [] -> clear f.
Proof. intros Hls n nd Hn. by rewrite (idle_unlocked f n nd Hls Hn). Qed.

Section safe.
Context (alloc_ok : nat -> bool) (clock : nat -> Z) (conf : fuse_config) (ac_attr_timeout : double).
Context (has_op : fs_op -> bool) (fs_answer : nat -> fs_call -> fs_ret) (reply_res : nat -> Z).
Hypothesis Hrem : c_remember conf = 0.

(** ** Paths *)

(** The outcome of asking for a path without a write lock. *)
Definition path_post (k : kernel) (holds : list hold) (f : fuse) (nodeid : Z) (r : path_result) (f' : fuse) : Prop :=
  let '(err, path, w) := r in
  same_tree f f' /\ w = None /\
  match path with
  | Some _ => err = 0 /\ clear f' /\ exists l, seg (nodes f) nodeid l FUSE_ROOT_ID /\ good k (mkHold nodeid l None :: holds) f'
  | None => good k holds f'
  end.

Lemma try_read_wp k holds f nodeid nm :
  good k holds f -> clear f -> request_ok f holds nodeid nm false ->
  wp (try_get_path alloc_ok nodeid nm false true) (fun r f' =>
    path_post k holds f nodeid r f' /\ (r.1.1 = 0 -> r.1.2 <> None) /\ r.1.1 <> - EAGAIN) f.
Proof.
  intros Hg Hcl Hrq. eapply wp_mono; [apply (try_lock_wp alloc_ok 0 f holds nodeid nm false (g_lock _ _ _ Hg) Hrq)|].
  intros [[err path] w] f' [Hst Hpost].
  destruct Hpost as [(-> & Hu & Hw & l & Hs & -> & Hls)|(Hr & -> & -> & Hls)].
  - assert (w = None) as -> by (destruct w as [x|]; [by destruct (Hw x eq_refl)|done]).
    split; [|done]. split; [done|]. split_and!; [done|done| |].
    + intros n nd Hn. destruct (Z.lt_ge_cases (treelock nd) 0) as [Hlt|]; [|done].
      destruct (same_tree_nodes _ _ _ _ Hst Hn) as (nd0 & Hn0 & _). pose proof (Hcl n nd0 Hn0).
      destruct (Hu n nd nd0 Hn Hn0 Hlt); [lia|done].
    + exists l. split; [done|]. by eapply good_same_tree.
  - assert (err <> - EAGAIN /\ err <> 0) as [He1 He2].
    { destruct Hr as [[-> _]|[(-> & n & nd & Hn & Hx)|[-> _]]]; [done| |done]. exfalso.
      destruct Hx as [[_ ?]|[[? _] _]]; [|done]. specialize (Hcl n nd Hn). lia. }
    split; [|done]. split; [done|]. split; [done|]. by eapply good_same_tree.
Qed.

Lemma get_path_common_wp k holds f nodeid nm :
  good k holds f -> clear f -> request_ok f holds nodeid nm false ->
  wp (get_path_common alloc_ok 0 nodeid nm false) (fun r f' =>
    exists p, r = inl p /\ path_post k holds f nodeid p f' /\ (p.1.1 = 0 -> p.1.2 <> None)) f.
Proof.
  intros Hg Hcl Hrq. unfold get_path_common. apply wp_bind. eapply wp_mono; [by apply try_read_wp|].
  intros r f' (Hp & Hsure & Hne). apply wp_ret. rewrite (proj2 (Z.eqb_neq _ _) Hne). by exists r.
Qed.

(** Reading a path from an idle store. *)
Lemma lib_get_path_name_wp k holds f nodeid nm :
  good k holds f -> clear f -> request_ok f holds nodeid nm false ->
  wp (lib_get_path_name alloc_ok nodeid nm) (fun r f' =>
    path_post k holds f nodeid r f' /\ (r.1.1 = 0 -> r.1.2 <> None)) f.
Proof.
  intros Hg Hcl Hrq. unfold lib_get_path_name, no_wait. apply wp_bind.
  eapply wp_mono; [by apply get_path_common_wp|]. intros r f' (p & -> & ?). by apply wp_ret.
Qed.

Lemma lib_get_path_wp k holds f nodeid :
  good k holds f -> clear f -> request_ok f holds nodeid None false ->
  wp (lib_get_path alloc_ok nodeid) (fun r f' => path_post k holds f nodeid r f' /\ (r.1.1 = 0 -> r.1.2 <> None)) f.
Proof. apply lib_get_path_name_wp. Qed.

Lemma lib_get_path_nullok_wp k holds f nodeid :
  good k holds f -> clear f -> request_ok f holds nodeid None false ->
  wp (lib_get_path_nullok alloc_ok conf nodeid) (path_post k holds f nodeid) f.
Proof.
  intros Hg Hcl Hrq. unfold lib_get_path_nullok, no_wait, get_path_nullok. apply wp_bind.
  destruct (c_nullpath_ok conf).
  { apply wp_ret, wp_ret. split; [apply same_tree_refl|done]. }
  apply wp_bind. eapply wp_mono; [by apply get_path_common_wp|]. intros r f' ([[err path] w] & -> & (Hst & -> & Hp) & _).
  apply wp_ret, wp_ret. split; [done|]. split; [done|]. destruct path; [|done].
  destruct Hp as (-> & ? & ?). done.
Qed.

(** Releasing it. *)
Lemma lib_free_path_wp k f holds1 nodeid l holds2 path :
  good k (holds1 ++ mkHold nodeid l None :: holds2) f ->
  wp (lib_free_path alloc_ok nodeid (Some path)) (fun _ f' => good k (holds1 ++ holds2) f' /\ same_tree f f') f.
Proof.
  intros Hg. unfold lib_free_path, free_path, free_path_wrlock. apply wp_bind, wp_bind.
  eapply wp_mono; [apply (unlock_step 0 f holds1 (mkHold nodeid l None) holds2 (g_lock _ _ _ Hg))|].
  intros _ f' [Hls Hst]. apply wp_ret, wp_ret. split; [|done]. by eapply good_same_tree.
Qed.

Lemma lib_free_nopath_wp (Q : unit -> fuse -> Prop) f nodeid : Q tt f -> wp (lib_free_path alloc_ok nodeid None) Q f.
Proof. done. Qed.

(** ** Calls of the file system *)

(** Nothing that the requests depend on has changed. *)
Record quiet (h h' : lib) : Prop := {
  qt_fuse : exists j, l_fuse h' = set_tick (l_fuse h) j;
  qt_replies : l_replies h' = l_replies h;
  qt_dhs : l_dhs h' = l_dhs h /\ l_next_dh h' = l_next_dh h;
}.

Lemma quiet_refl h : quiet h h.
Proof. split; [|done..]. exists (tick (l_fuse h)). by destruct h as [[]]. Qed.

Lemma quiet_trans h1 h2 h3 : quiet h1 h2 -> quiet h2 h3 -> quiet h1 h3.
Proof.
  intros [[i Hi] R1 [D1 N1]] [[j Hj] R2 [D2 N2]]. split; [|congruence|split; congruence].
  exists j. rewrite Hj Hi. done.
Qed.

(** Code that only calls the file system: whatever is answered, it returns and
    leaves the library as it was. *)
Class Calm {A} (m : M lib A) : Prop :=
  calm : forall (Q : A -> lib -> Prop) h, (forall a h', quiet h h' -> Q a h') -> wp m Q h.

#[local] Instance calm_ret {A} (a : A) : Calm (mret a : M lib A).
Proof. intros Q h HQ. apply wp_ret, HQ, quiet_refl. Qed.

#[local] Instance calm_bind {A B} (m : M lib A) (g : A -> M lib B) :
  Calm m -> (forall a, Calm (g a)) -> Calm (m ≫= g).
Proof.
  intros Hm Hg Q h HQ. apply wp_bind, Hm. intros a h1 H1. apply Hg. intros b h2 H2. by eapply HQ, quiet_trans.
Qed.

#[local] Instance calm_if {A} (b : bool) (m1 m2 : M lib A) : Calm m1 -> Calm m2 -> Calm (if b then m1 else m2).
Proof. by destruct b. Qed.

#[local] Instance calm_pair {A B C} (p : A * B) (g : A -> B -> M lib C) :
  (forall x y, Calm (g x y)) -> Calm (let '(x, y) := p in g x y).
Proof. by destruct p. Qed.

#[local] Instance calm_fs_do c : Calm (fs_do fs_answer c).
Proof. intros Q h HQ. apply HQ. split; [|done..]. exists (tick (l_fuse h)). by destruct h as [[]]. Qed.

#[local] Instance calm_alloc : Calm (on_fuse (alloc alloc_ok)).
Proof. intros Q h HQ. apply HQ. split; [|done..]. by eexists. Qed.

#[local] Hint Extern 5 (Calm ?m) => let hd := get_head m in progress unfold hd : typeclass_instances.

#[local] Instance calm_setattr path attr valid fi : Calm (setattr_calls has_op fs_answer path attr valid fi).
Proof. unfold setattr_calls, step_if. apply _. Qed.

(** ** While a request is handled *)

(** The paths [holds] are locked and the answers so far are [rs]. *)
Record during (k : kernel) (holds : list hold) (rs : list lib_reply) (h : lib) : Prop := {
  du_good : good k holds (l_fuse h);
  du_replies : l_replies h = rs;
  du_dirs : forall a, a ∈ k_dirs k <-> is_Some (l_dhs h !! a);
  du_next : forall a, is_Some (l_dhs h !! a) -> a < l_next_dh h;
}.

Lemma agree_during k h : agree k h -> during k [] (l_replies h) h.
Proof. intros []. by split. Qed.

Lemma during_agree k rs h : during k [] rs h -> agree k h.
Proof. intros []. by split. Qed.

Lemma during_quiet k holds rs h h' : during k holds rs h -> quiet h h' -> during k holds rs h'.
Proof.
  intros [Hg Hr Hd Hn] [[j Hj] Hr' [Hd' Hn']]. split; [rewrite Hj; by apply good_tick|congruence|by rewrite Hd'|by rewrite Hd' Hn'].
Qed.

#[global] Instance during_proper : Proper (keq ==> eq ==> eq ==> eq ==> iff) during.
Proof.
  assert (forall k k' holds rs h, keq k k' -> during k holds rs h -> during k' holds rs h) as H.
  { intros k k' holds rs h Hk [Hg Hr Hd Hn]. split; [by rewrite -Hk|done| |done]. destruct Hk as (_ & _ & <-). done. }
  intros k k' Hk hs _ <- rs _ <- h _ <-. split; apply H; [done|by symmetry].
Qed.

(** A step of the node store. *)
Lemma on_fuse_wp {A} (m : M fuse A) (Q : A -> lib -> Prop) h :
  wp m (fun a f => Q a (set_l_fuse h f)) (l_fuse h) -> wp (on_fuse m) Q h.
Proof. unfold wp, on_fuse. by destruct (m (l_fuse h)) as [[a f]| |]. Qed.

Lemma during_fuse k k' holds holds' rs h f :
  during k holds rs h -> k_dirs k' = k_dirs k -> good k' holds' f -> during k' holds' rs (set_l_fuse h f).
Proof. intros [_ Hr Hd Hn] Hk Hg. split; [done|done|cbn; by rewrite Hk|done]. Qed.

Lemma roomy_shape f f' : same_shape f f' -> roomy f -> roomy f'.
Proof.
  intros Hst [Hl Hn]. split; [|by rewrite (same_shape_size _ _ Hst)]. intros n nd Hnd.
  destruct (same_shape_lookup _ _ _ _ (same_shape_sym _ _ Hst) Hnd) as (nd0 & Hn0 & _ & _ & E & _). rewrite -E. eauto.
Qed.

(** The locks that go with a path that was taken; there are none for [NULL]. *)
Definition held_for (nodeid : Z) (path : option cstring) (hs : list hold) : Prop :=
  path = None /\ hs = [] \/ exists s l, path = Some s /\ hs = [mkHold nodeid l None].

Lemma take_sure_wp k holds rs h nodeid take_path (R : path_result -> Prop) (Q : path_result -> lib -> Prop) :
  during k holds rs h -> wp take_path (fun r f => path_post k holds (l_fuse h) nodeid r f /\ R r) (l_fuse h) ->
  (forall err path hs f, held_for nodeid path hs -> during k (hs ++ holds) rs (set_l_fuse h f) ->
     same_tree (l_fuse h) f -> (path <> None -> err = 0 /\ clear f) -> R (err, path, None) ->
     Q (err, path, None) (set_l_fuse h f)) ->
  wp (on_fuse take_path) Q h.
Proof.
  intros Hd Ht HQ. apply on_fuse_wp. eapply wp_mono; [exact Ht|].
  intros [[err path] w] f [(Hst & -> & Hp) HR]. destruct path as [s|].
  - destruct Hp as (-> & Hcl & l & _ & Hg). apply (HQ 0 (Some s) [mkHold nodeid l None]); [right; eauto| |done|done|done].
    by eapply during_fuse.
  - apply (HQ err None []); [by left| |done|done|done]. by eapply during_fuse.
Qed.

Lemma take_wp k holds rs h nodeid take_path (Q : path_result -> lib -> Prop) :
  during k holds rs h -> wp take_path (path_post k holds (l_fuse h) nodeid) (l_fuse h) ->
  (forall err path hs f, held_for nodeid path hs -> during k (hs ++ holds) rs (set_l_fuse h f) ->
     same_tree (l_fuse h) f -> (path <> None -> err = 0 /\ clear f) -> Q (err, path, None) (set_l_fuse h f)) ->
  wp (on_fuse take_path) Q h.
Proof.
  intros Hd Ht HQ. eapply (take_sure_wp _ _ _ _ _ _ (fun _ => True)); [done|eapply wp_mono; [exact Ht|done]|].
  intros err path hs f ? ? ? ? _. by eapply HQ.
Qed.

Lemma give_wp k holds1 hs holds2 rs h nodeid path (Q : unit -> lib -> Prop) :
  held_for nodeid path hs -> during k (holds1 ++ hs ++ holds2) rs h ->
  (forall f, during k (holds1 ++ holds2) rs (set_l_fuse h f) -> same_tree (l_fuse h) f -> Q tt (set_l_fuse h f)) ->
  wp (on_fuse (lib_free_path alloc_ok nodeid path)) Q h.
Proof.
  intros [[-> ->]|(s & l & -> & ->)] Hd HQ; apply on_fuse_wp.
  - apply lib_free_nopath_wp, HQ; [|apply same_tree_refl]. eapply during_fuse; [done|done|apply (du_good _ _ _ _ Hd)].
  - eapply wp_mono; [apply (lib_free_path_wp k (l_fuse h) holds1 nodeid l holds2 s (du_good _ _ _ _ Hd))|].
    intros [] f [Hg Hst]. apply HQ; [|done]. by eapply during_fuse.
Qed.

(** The frame of most handlers.  [P a k'] is what the body promises of its result
    and the kernel's state. *)
Lemma with_path_wp {A} k rs h nodeid take_path (failed : Z -> A) body (P : A -> kernel -> Prop) :
  during k [] rs h ->
  wp take_path (path_post k [] (l_fuse h) nodeid) (l_fuse h) ->
  (forall err, err <> 0 -> P (failed err) k) ->
  (forall path hs h1, held_for nodeid path hs -> during k hs rs h1 -> same_tree (l_fuse h) (l_fuse h1) ->
     wp (body path) (fun a h2 => exists k2, P a k2 /\ during k2 hs rs h2) h1) ->
  wp (with_path alloc_ok take_path nodeid failed body) (fun a h2 => exists k2, P a k2 /\ during k2 [] rs h2) h.
Proof.
  intros Hd Ht Hf Hb. unfold with_path. apply wp_bind. eapply take_wp; [exact Hd|exact Ht|].
  intros err path hs f Hh Hd1 Hst Hp. rewrite app_nil_r in Hd1. unfold truth. destruct (Z.eqb_spec err 0) as [->|He]; cbn [negb].
  - apply wp_bind. eapply wp_mono; [by apply (Hb path hs)|]. intros a h2 (k2 & HP & Hd2).
    apply wp_bind. eapply (give_wp k2 [] hs []); [done|by rewrite app_nil_r|]. intros f3 Hd3 _. apply wp_ret. eauto.
  - apply wp_ret. exists k. split; [auto|]. destruct Hh as [[-> ->]|(s & l & -> & ->)]; [done|]. by destruct Hp.
Qed.

(** The common case: the body only calls the file system. *)
Lemma with_path_calm {A} k rs h nodeid take_path (failed : Z -> A) body :
  during k [] rs h -> wp take_path (path_post k [] (l_fuse h) nodeid) (l_fuse h) ->
  (forall path, Calm (body path)) ->
  wp (with_path alloc_ok take_path nodeid failed body) (fun _ h2 => during k [] rs h2) h.
Proof.
  intros Hd Ht Hc. eapply wp_mono; [apply (with_path_wp k rs h nodeid _ _ _ (fun _ k2 => k2 = k)); try done|].
  - intros path hs h1 _ H1 _. apply Hc. intros a h2 Hq. exists k. split; [done|]. by eapply during_quiet.
  - by intros a h2 (k2 & -> & ?).
Qed.

(** ** Answering *)

Definition accepted (rs : list lib_reply) : bool := negb (reply_res (length rs) =? - ENOENT).

(** The request has been answered, once, and the two sides agree. *)
Definition answered (k : kernel) (op : lib_op) (rs : list lib_reply) (_ : unit) (h' : lib) : Prop :=
  exists r, l_replies h' = rs ++ [r] /\ agree (kernel_step k op r (accepted rs)) h'.

Lemma reply_wp r (Q : Z -> lib -> Prop) h :
  Q (reply_res (length (l_replies h))) (set_l_replies h (l_replies h ++ [r])) -> wp (reply reply_res r) Q h.
Proof. done. Qed.

Lemma during_reply k holds rs h r : during k holds rs h -> during k holds (rs ++ [r]) (set_l_replies h (l_replies h ++ [r])).
Proof. intros [? Hr ? ?]. split; try done. cbn. by rewrite Hr. Qed.

Lemma answer_wp k k' op rs r h :
  during k' [] rs h -> kernel_step k op r (accepted rs) = k' -> wp (reply reply_res r;; mret tt) (answered k op rs) h.
Proof.
  intros Hd Hk. apply wp_bind, reply_wp, wp_ret. exists r. cbn. rewrite (du_replies _ _ _ _ Hd). split; [done|].
  rewrite Hk. eapply during_agree. rewrite -(du_replies _ _ _ _ Hd). apply during_reply. by destruct Hd.
Qed.

Lemma answer_err_wp k k' op rs err h :
  during k' [] rs h -> kernel_step k op (L_err (- err)) (accepted rs) = k' -> wp (reply_err reply_res err) (answered k op rs) h.
Proof. apply answer_wp. Qed.

(** ** Requests that leave the node store alone *)

Section requests.
Context (k : kernel) (h : lib).
Hypothesis Hag : agree k h.
Hypothesis Hroom : roomy (l_fuse h).
Let rs := l_replies h.

Lemma start_during : during k [] rs h.
Proof. by apply agree_during. Qed.

Lemma start_request nodeid nm : reachable k (l_fuse h) nodeid nm -> request_ok (l_fuse h) [] nodeid nm false.
Proof. intros Hr. eapply reachable_request; [apply (ag_good _ _ Hag)|done|done|cbn; lia]. Qed.

Lemma start_clear : clear (l_fuse h).
Proof. apply idle_clear, (g_lock _ _ _ (ag_good _ _ Hag)). Qed.

Lemma take_name_sure nodeid nm : reachable k (l_fuse h) nodeid nm ->
  wp (lib_get_path_name alloc_ok nodeid nm)
     (fun r f => path_post k [] (l_fuse h) nodeid r f /\ (r.1.1 = 0 -> r.1.2 <> None)) (l_fuse h).
Proof. intros Hr. apply lib_get_path_name_wp; [apply (ag_good _ _ Hag)|apply start_clear|by apply start_request]. Qed.

Lemma take_name nodeid nm : reachable k (l_fuse h) nodeid nm ->
  wp (lib_get_path_name alloc_ok nodeid nm) (path_post k [] (l_fuse h) nodeid) (l_fuse h).
Proof. intros Hr. eapply wp_mono; [by apply take_name_sure|]. by intros r f [? _]. Qed.

Lemma take_node nodeid : reachable k (l_fuse h) nodeid None ->
  wp (lib_get_path alloc_ok nodeid) (path_post k [] (l_fuse h) nodeid) (l_fuse h).
Proof. apply take_name. Qed.

Lemma take_nullok nodeid : reachable k (l_fuse h) nodeid None ->
  wp (lib_get_path_nullok alloc_ok conf nodeid) (path_post k [] (l_fuse h) nodeid) (l_fuse h).
Proof. intros Hr. apply lib_get_path_nullok_wp; [apply (ag_good _ _ Hag)|apply start_clear|by apply start_request]. Qed.

Lemma take_getattr fi nodeid : reachable k (l_fuse h) nodeid None ->
  wp (getattr_path alloc_ok conf fi nodeid) (path_post k [] (l_fuse h) nodeid) (l_fuse h).
Proof. destruct fi; [apply take_nullok|apply take_node]. Qed.

(** Take the path, call, release, answer. *)
Ltac calm_request Htake :=
  apply wp_bind; eapply wp_mono; [apply with_path_calm; [apply start_during|by apply Htake|intros; apply _]|];
  let a := fresh "a" in let h2 := fresh "h2" in let Hd := fresh "Hd" in
  intros a h2 Hd; cbn beta in Hd; repeat match goal with x : _ * _ |- _ => destruct x end;
  repeat (first [by eapply answer_wp|by eapply answer_err_wp|case_match]).

Lemma access_wp ino mask : reachable k (l_fuse h) ino None ->
  wp (fuse_lib_access alloc_ok has_op fs_answer reply_res ino mask) (answered k (LO_access ino mask) rs) h.
Proof. intros Hr. unfold fuse_lib_access, err_op. calm_request take_node. Qed.

Lemma fsync_wp ino datasync fi : reachable k (l_fuse h) ino None ->
  wp (fuse_lib_fsync alloc_ok conf has_op fs_answer reply_res ino datasync fi) (answered k (LO_fsync ino datasync fi) rs) h.
Proof. intros Hr. unfold fuse_lib_fsync, err_op. calm_request take_nullok. Qed.

Lemma setxattr_wp ino name_ value flags : reachable k (l_fuse h) ino None ->
  wp (fuse_lib_setxattr alloc_ok has_op fs_answer reply_res ino name_ value flags) (answered k (LO_setxattr ino name_ value flags) rs) h.
Proof. intros Hr. unfold fuse_lib_setxattr, err_op. calm_request take_node. Qed.

Lemma removexattr_wp ino name_ : reachable k (l_fuse h) ino None ->
  wp (fuse_lib_removexattr alloc_ok has_op fs_answer reply_res ino name_) (answered k (LO_removexattr ino name_) rs) h.
Proof. intros Hr. unfold fuse_lib_removexattr, err_op. calm_request take_node. Qed.

Lemma flock_wp ino fi op : reachable k (l_fuse h) ino None ->
  wp (fuse_lib_flock alloc_ok conf has_op fs_answer reply_res ino fi op) (answered k (LO_flock ino fi op) rs) h.
Proof. intros Hr. unfold fuse_lib_flock, err_op. calm_request take_nullok. Qed.

Lemma fallocate_wp ino mode offset length fi : reachable k (l_fuse h) ino None ->
  wp (fuse_lib_fallocate alloc_ok conf has_op fs_answer reply_res ino mode offset length fi) (answered k (LO_fallocate ino mode offset length fi) rs) h.
Proof. intros Hr. unfold fuse_lib_fallocate, err_op. calm_request take_nullok. Qed.

Lemma readlink_wp ino : reachable k (l_fuse h) ino None ->
  wp (fuse_lib_readlink alloc_ok has_op fs_answer reply_res ino) (answered k (LO_readlink ino) rs) h.
Proof. intros Hr. unfold fuse_lib_readlink. calm_request take_node. Qed.

Lemma read_wp ino size off fi : reachable k (l_fuse h) ino None ->
  wp (fuse_lib_read alloc_ok conf has_op fs_answer reply_res ino size off fi) (answered k (LO_read ino size off fi) rs) h.
Proof. intros Hr. unfold fuse_lib_read. calm_request take_nullok. Qed.

Lemma write_buf_wp ino buf off fi : reachable k (l_fuse h) ino None ->
  wp (fuse_lib_write_buf alloc_ok conf has_op fs_answer reply_res ino buf off fi) (answered k (LO_write_buf ino buf off fi) rs) h.
Proof. intros Hr. unfold fuse_lib_write_buf. calm_request take_nullok. Qed.

Lemma bmap_wp ino blocksize idx : reachable k (l_fuse h) ino None ->
  wp (fuse_lib_bmap alloc_ok has_op fs_answer reply_res ino blocksize idx) (answered k (LO_bmap ino blocksize idx) rs) h.
Proof. intros Hr. unfold fuse_lib_bmap. calm_request take_node. Qed.

Lemma poll_wp ino fi ph : reachable k (l_fuse h) ino None ->
  wp (fuse_lib_poll alloc_ok conf has_op fs_answer reply_res ino fi ph) (answered k (LO_poll ino fi ph) rs) h.
Proof. intros Hr. unfold fuse_lib_poll. calm_request take_nullok. Qed.

Lemma lseek_wp ino off whence fi : reachable k (l_fuse h) ino None ->
  wp (fuse_lib_lseek alloc_ok has_op fs_answer reply_res ino off whence fi) (answered k (LO_lseek ino off whence fi) rs) h.
Proof. intros Hr. unfold fuse_lib_lseek. calm_request take_node. Qed.

Lemma statfs_wp ino : ino = 0 \/ reachable k (l_fuse h) ino None ->
  wp (fuse_lib_statfs alloc_ok has_op fs_answer reply_res ino) (answered k (LO_statfs ino) rs) h.
Proof.
  intros Hr. unfold fuse_lib_statfs.
  assert (wp (if truth ino then lib_get_path alloc_ok ino else mret (0, None, None))
    (path_post k [] (l_fuse h) ino) (l_fuse h)) as Htake.
  { unfold truth. destruct (Z.eqb_spec ino 0); cbn [negb].
    - apply wp_ret. split; [apply same_tree_refl|]. split; [done|apply (ag_good _ _ Hag)].
    - destruct Hr; [done|]. by apply take_node. }
  calm_request Htake.
Qed.

(** [call] is one of the two that follow. *)
Lemma xattr_wp op size call :
  (forall h1, during k [] rs h1 -> same_tree (l_fuse h) (l_fuse h1) -> wp call (fun _ h2 => during k [] rs h2) h1) ->
  (forall r t, (exists e, r = L_err e) \/ (exists d, r = L_buf d) \/ (exists n, r = L_xattr n) -> kernel_step k op r t = k) ->
  wp (xattr_op alloc_ok reply_res size call) (answered k op rs) h.
Proof.
  intros Hcall Hop. unfold xattr_op.
  destruct (truth size).
  - apply wp_bind, calm. intros ok h1 Hq. pose proof (during_quiet _ _ _ _ _ start_during Hq) as Hd1.
    destruct ok; cbn [negb]; [|eapply answer_err_wp; [done|apply Hop; eauto]].
    apply wp_bind. eapply wp_mono; [apply Hcall; [done|]|].
    { destruct (qt_fuse _ _ Hq) as [j ->]. apply same_tree_tick. }
    intros [res value] h2 Hd2. destruct (0 <? res); [eapply answer_wp|eapply answer_err_wp]; (try done; apply Hop; eauto).
  - apply wp_bind. eapply wp_mono; [apply Hcall; [apply start_during|apply same_tree_refl]|].
    intros [res value] h2 Hd2. destruct (0 <=? res); [eapply answer_wp|eapply answer_err_wp]; (try done; apply Hop; eauto).
Qed.
End requests.
Lemma reachable_shape k f f' nodeid nm : same_shape f f' -> reachable k f nodeid nm -> reachable k f' nodeid nm.
Proof.
  intros Hst [Hk Hn Hf]. split; [done|done|]. intros l n Hs. rewrite (path_of_shape _ _ _ _ Hst).
  eapply Hf, seg_shape; [|done]. by apply same_shape_sym.
Qed.

(** Asking for the path of a node in the middle of a request that holds none. *)
Lemma with_node_calm {A} k rs h nodeid (failed : Z -> A) body :
  during k [] rs h -> roomy (l_fuse h) -> reachable k (l_fuse h) nodeid None -> (forall path, Calm (body path)) ->
  wp (with_path alloc_ok (lib_get_path alloc_ok nodeid) nodeid failed body) (fun _ h2 => during k [] rs h2) h.
Proof.
  intros Hd Hroom Hr Hc. apply with_path_calm; [done| |done].
  apply take_node; [by eapply during_agree|done|done].
Qed.

Lemma with_nullok_wp {A} k rs h nodeid (failed : Z -> A) body (P : A -> Prop) :
  during k [] rs h -> roomy (l_fuse h) -> reachable k (l_fuse h) nodeid None -> (forall path, Calm (body path)) ->
  (forall err, err <> 0 -> P (failed err)) -> (forall path h, wp (body path) (fun a _ => P a) h) ->
  wp (with_path alloc_ok (lib_get_path_nullok alloc_ok conf nodeid) nodeid failed body)
     (fun a h2 => P a /\ during k [] rs h2) h.
Proof.
  intros Hd Hroom Hr Hc Hf HP. eapply wp_mono.
  - apply (with_path_wp k rs h nodeid _ _ _ (fun a k2 => P a /\ k2 = k)); [done| |auto|].
    + apply take_nullok; [by eapply during_agree|done|done].
    + intros path hs h1 _ H1 _. specialize (HP path h1). destruct (wp_Ok _ _ _ HP) as (a & h2 & Hrun & Ha).
      eapply Ok_wp; [done|]. exists k. split; [done|]. eapply during_quiet; [done|].
      specialize (Hc path (fun _ h2 => quiet h1 h2) h1 ltac:(auto)). unfold wp in Hc. by rewrite Hrun in Hc.
  - by intros a h2 (k2 & (? & ->) & ?).
Qed.

Lemma held_readers k nodeid path hs rs1 h1 :
  held_for nodeid path hs -> during k hs rs1 h1 ->
  Z.of_nat (length (readers hs)) <= Z.of_nat (base.size (nodes (l_fuse h1))) + 1.
Proof.
  intros [[_ ->]|(s & l & _ & ->)] Hd; [cbn; lia|]. destruct (g_lock _ _ _ (du_good _ _ _ _ Hd)) as [[rank Hc] _ Hh].
  destruct (Hh (mkHold nodeid l None)) as (_ & Hs & _); [set_solver|]. cbn in Hs.
  assert (ranked rank (nodes (l_fuse h1))) as Hrk.
  { intros n nd p Hn Hp. by destruct (inv_parent _ _ _ _ _ _ Hc n nd p Hn ltac:(set_solver) Hp). }
  pose proof (seg_length _ _ _ _ _ Hrk Hs). unfold readers. cbn. rewrite app_nil_r. lia.
Qed.

Section requests2.
Context (k : kernel) (h : lib).
Hypothesis Hag : agree k h.
Hypothesis Hroom : roomy (l_fuse h).
Let rs := l_replies h.

Lemma getxattr_wp ino name_ size : reachable k (l_fuse h) ino None ->
  wp (fuse_lib_getxattr alloc_ok has_op fs_answer reply_res ino name_ size) (answered k (LO_getxattr ino name_ size) rs) h.
Proof.
  intros Hr. apply xattr_wp; [done| |].
  - intros h1 Hd Hst%same_tree_shape. apply with_node_calm; [done|by eapply roomy_shape|by eapply reachable_shape|].
    intros path. apply _.
  - by intros r t [[e ->]|[[d ->]|[n ->]]].
Qed.

Lemma listxattr_wp ino size : reachable k (l_fuse h) ino None ->
  wp (fuse_lib_listxattr alloc_ok has_op fs_answer reply_res ino size) (answered k (LO_listxattr ino size) rs) h.
Proof.
  intros Hr. apply xattr_wp; [done| |].
  - intros h1 Hd Hst%same_tree_shape. apply with_node_calm; [done|by eapply roomy_shape|by eapply reachable_shape|].
    intros path. apply _.
  - by intros r t [[e ->]|[[d ->]|[n ->]]].
Qed.

Lemma copy_file_range_wp nodeid_in off_in fi_in nodeid_out off_out fi_out len flags :
  reachable k (l_fuse h) nodeid_in None -> reachable k (l_fuse h) nodeid_out None ->
  wp (fuse_lib_copy_file_range alloc_ok conf has_op fs_answer reply_res nodeid_in off_in fi_in nodeid_out off_out fi_out len flags)
     (answered k (LO_copy_file_range nodeid_in off_in fi_in nodeid_out off_out fi_out len flags) rs) h.
Proof.
  intros Hin Hout. unfold fuse_lib_copy_file_range. apply wp_bind.
  eapply (take_wp k [] rs); [by apply start_during|by apply take_nullok|].
  intros err path1 hs1 f1 Hh1 Hd1 Hst1 Hp1. rewrite app_nil_r in Hd1. unfold truth.
  destruct (Z.eqb_spec err 0) as [->|He]; cbn [negb].
  2: { eapply answer_err_wp; [|done]. destruct Hh1 as [[-> ->]|(s & l & -> & ->)]; [done|]. by destruct Hp1. }
  assert (clear f1) as Hcl.
  { destruct Hh1 as [[-> ->]|(s & l & -> & ->)]; [|by apply Hp1]. apply idle_clear, (g_lock _ _ _ (du_good _ _ _ _ Hd1)). }
  pose proof (same_tree_shape _ _ Hst1) as Hsh1.
  apply wp_bind. eapply (take_wp k hs1 rs); [done| |].
  { apply lib_get_path_nullok_wp; [apply (du_good _ _ _ _ Hd1)|done|]. eapply reachable_request;
      [apply (du_good _ _ _ _ Hd1)|by eapply roomy_shape|by eapply reachable_shape|by eapply (held_readers _ _ _ _ _ _ Hh1)]. }
  intros err path2 hs2 f2 Hh2 Hd2 _ Hp2. unfold truth. destruct (Z.eqb_spec err 0) as [->|He]; cbn [negb].
  - apply wp_bind, calm. intros res h3 Hq. pose proof (during_quiet _ _ _ _ _ Hd2 Hq) as Hd3. apply wp_bind.
    assert (exists r, wp (if 0 <=? res then reply reply_res (L_write res);; mret tt else reply_err reply_res res)
      (fun _ h4 => during k (hs2 ++ hs1) (rs ++ [r]) h4) h3 /\
      forall t, kernel_step k (LO_copy_file_range nodeid_in off_in fi_in nodeid_out off_out fi_out len flags) r t = k)
      as (r & Hr & Hk).
    { destruct (0 <=? res); eexists; (split; [apply wp_bind, reply_wp, wp_ret, during_reply, Hd3|done]). }
    eapply wp_mono; [exact Hr|]. intros [] h4 Hd4. cbn beta in Hd4.
    apply wp_bind. eapply (give_wp k hs2 hs1 []); [done|by rewrite app_nil_r|]. intros f5 Hd5 _. rewrite app_nil_r in Hd5.
    eapply (give_wp k [] hs2 []); [done|by rewrite app_nil_r|]. intros f6 Hd6 _.
    exists r. split; [apply (du_replies _ _ _ _ Hd6)|]. rewrite Hk. by eapply during_agree.
  - destruct Hh2 as [[-> ->]|(s & l & -> & ->)]; [|by destruct Hp2].
    apply wp_bind. eapply (give_wp k [] hs1 []); [done|by rewrite app_nil_r|]. intros f3 Hd3 _. by eapply answer_err_wp.
Qed.

(** *** Directory handles *)

Lemma get_dirhandle_wp holds rs1 h1 llfi (Q : fuse_dh * fuse_file_info -> lib -> Prop) :
  during k holds rs1 h1 -> fi_fh llfi ∈ k_dirs k -> (forall dh fi, Q (dh, fi) h1) -> wp (get_dirhandle llfi) Q h1.
Proof.
  intros Hd [dh Hdh]%(du_dirs _ _ _ _ Hd) HQ. unfold wp, get_dirhandle. rewrite Hdh. apply HQ.
Qed.

Lemma fsyncdir_wp ino datasync llfi : reachable k (l_fuse h) ino None -> fi_fh llfi ∈ k_dirs k ->
  wp (fuse_lib_fsyncdir alloc_ok conf has_op fs_answer reply_res ino datasync llfi) (answered k (LO_fsyncdir ino datasync llfi) rs) h.
Proof.
  intros Hr Hdir. unfold fuse_lib_fsyncdir, err_op. apply wp_bind.
  eapply get_dirhandle_wp; [by apply start_during|done|]. intros dh fi. apply wp_bind.
  eapply wp_mono; [apply (with_path_calm k rs h ino); [by apply start_during|by apply take_nullok|intros; apply _]|].
  intros a h2 Hd. cbn beta in Hd. by eapply answer_err_wp.
Qed.

Lemma releasedir_wp ino llfi : reachable k (l_fuse h) ino None -> fi_fh llfi ∈ k_dirs k ->
  wp (fuse_lib_releasedir alloc_ok conf has_op fs_answer reply_res ino llfi) (answered k (LO_releasedir ino llfi) rs) h.
Proof.
  intros Hr Hdir. unfold fuse_lib_releasedir. apply wp_bind.
  eapply get_dirhandle_wp; [by apply start_during|done|]. intros dh fi. apply wp_bind.
  eapply (take_wp k [] rs); [by apply start_during|by apply take_nullok|].
  intros err path hs f Hh Hd _ _. rewrite app_nil_r in Hd. apply wp_bind, calm. intros _ h2 Hq.
  apply wp_bind. eapply (give_wp k [] hs []); [done|rewrite app_nil_r; by eapply during_quiet|]. intros f3 Hd3 _.
  apply wp_bind, wp_modify. eapply answer_err_wp; [|done]. destruct Hd3 as [Hg Hrs Hdirs Hnext]. split; [|done|..]; cbn.
  - by destruct Hg.
  - intros a. rewrite elem_of_difference elem_of_singleton Hdirs lookup_delete_is_Some. naive_solver.
  - intros a [? ?]%lookup_delete_is_Some. auto.
Qed.

Lemma dh_store_wp k1 holds rs1 h1 a dh (Q : unit -> lib -> Prop) :
  during k1 holds rs1 h1 -> a ∈ k_dirs k1 -> (forall h2, during k1 holds rs1 h2 -> Q tt h2) -> wp (dh_store a dh) Q h1.
Proof.
  intros Hd Ha HQ. apply wp_modify, HQ. destruct Hd as [Hg Hrs Hdirs Hnext].
  assert (forall b, is_Some (<[a:=dh]> (l_dhs h1) !! b) <-> is_Some (l_dhs h1 !! b)) as E.
  { intros b. rewrite lookup_insert_is_Some. destruct (decide (a = b)) as [<-|]; [|naive_solver].
    split; [intros _; by apply Hdirs|auto]. }
  split; [done|done|..]; cbn; intros b; rewrite E; auto.
Qed.

Lemma dh_free_wp D holds rs1 h1 a (Q : unit -> lib -> Prop) :
  during (set_dirs k ({[a]} ∪ D)) holds rs1 h1 -> a ∉ D -> (forall h2, during (set_dirs k D) holds rs1 h2 -> Q tt h2) ->
  wp (dh_free a) Q h1.
Proof.
  intros Hd Ha HQ. apply wp_modify, HQ. destruct Hd as [Hg Hrs Hdirs Hnext]. cbn in Hdirs. split; [by destruct Hg|done|..]; cbn.
  - intros b. rewrite lookup_delete_is_Some -Hdirs. set_solver.
  - intros b [_ ?]%lookup_delete_is_Some. auto.
Qed.

Lemma set_dirs_id : set_dirs k (k_dirs k) = k.
Proof. by destruct k. Qed.

Lemma opendir_wp ino llfi : reachable k (l_fuse h) ino None ->
  wp (fuse_lib_opendir alloc_ok has_op fs_answer reply_res ino llfi) (answered k (LO_opendir ino llfi) rs) h.
Proof.
  intros Hr. unfold fuse_lib_opendir. apply wp_bind, calm. intros ok h1 Hq.
  pose proof (during_quiet _ _ _ _ _ (start_during _ _ Hag) Hq) as Hd1. destruct ok; cbn [negb]; [|by eapply answer_err_wp].
  apply wp_bind, wp_gets. apply wp_bind, wp_modify. set (a := l_next_dh h1). set (h2 := set_l_dhs _ _ _).
  set (D := k_dirs k). assert (a ∉ D) as Ha.
  { intros Hin%(du_dirs _ _ _ _ Hd1)%(du_next _ _ _ _ Hd1). unfold a in Hin. lia. }
  assert (during (set_dirs k ({[a]} ∪ D)) [] rs h2) as Hd2.
  { destruct Hd1 as [Hg Hrs Hdirs Hnext]. split; [by destruct Hg|done|..]; cbn; intros b; rewrite lookup_insert_is_Some.
    - rewrite elem_of_union elem_of_singleton (Hdirs b). destruct (decide (a = b)); naive_solver.
    - intros [<-|[_ ?%Hnext]]; unfold a in *; lia. }
  assert (same_shape (l_fuse h) (l_fuse h2)) as Hsh.
  { destruct (qt_fuse _ _ Hq) as [j E]. cbn. rewrite E. apply same_tree_shape, same_tree_tick. }
  apply wp_bind. eapply (take_wp _ [] rs); [exact Hd2|apply take_node; [by eapply during_agree|by eapply roomy_shape|]|].
  { apply (reachable_shape _ _ _ _ _ Hsh) in Hr. by destruct Hr. }
  intros err path hs f3 Hh Hd3 _ Hp. rewrite app_nil_r in Hd3. apply wp_bind.
  apply wp_mono with (P := fun r h4 => during (set_dirs k ({[a]} ∪ D)) hs rs h4 /\ fi_fh r.1.2 = a).
  { unfold truth. destruct (Z.eqb_spec err 0) as [->|He]; cbn [negb]; [|by apply wp_ret].
    apply wp_bind, calm. intros [err fi] h4 Hq4. apply wp_bind.
    eapply dh_store_wp; [by eapply during_quiet|set_solver|]. intros h5 Hd5. by apply wp_ret. }
  intros [[err4 llfi4] fi4] h4 [Hd4 Hfh]. cbn [fst snd] in Hfh. apply wp_bind.
  apply wp_mono with (P := fun _ h5 => exists r,
    during (kernel_step k (LO_opendir ino llfi) r (accepted rs)) hs (rs ++ [r]) h5).
  - destruct (truth err4).
    + apply wp_bind, wp_bind, reply_wp, wp_ret. eapply (dh_free_wp D); [by apply during_reply|done|].
      intros h5 Hd5. unfold D in Hd5. rewrite set_dirs_id in Hd5. exists (L_err (- err4)). exact Hd5.
    + apply wp_bind, reply_wp. rewrite (du_replies _ _ _ _ Hd4) -/(rs).
      pose proof (during_reply _ _ _ _ (L_open llfi4) Hd4) as Hd5. rewrite (du_replies _ _ _ _ Hd4) in Hd5.
      destruct (Z.eqb_spec (reply_res (length rs)) (- ENOENT)) as [Hno|Hno].
      * apply wp_bind, calm. intros _ h6 Hq6. eapply (dh_free_wp D); [by eapply during_quiet|done|].
        intros h7 Hd7. exists (L_open llfi4). unfold accepted. rewrite Hno. cbn. unfold D in Hd7. by rewrite set_dirs_id in Hd7.
      * apply wp_ret. exists (L_open llfi4). unfold accepted. rewrite (proj2 (Z.eqb_neq _ _) Hno). cbn. by rewrite Hfh.
  - intros [] h5 [r Hd5]. eapply (give_wp _ [] hs []); [done|by rewrite app_nil_r|]. intros f6 Hd6 _.
    exists r. split; [apply (du_replies _ _ _ _ Hd6)|by eapply during_agree].
Qed.

Lemma ioctl_wp ino cmd arg llfi flags in_buf out_bufsz :
  reachable k (l_fuse h) ino None -> (has_flag flags FUSE_IOCTL_DIR = true -> fi_fh llfi ∈ k_dirs k) ->
  in_buf = [] \/ out_bufsz = 0 \/ Z.of_nat (length in_buf) = out_bufsz ->
  wp (fuse_lib_ioctl alloc_ok conf has_op fs_answer reply_res ino cmd arg llfi flags in_buf out_bufsz)
     (answered k (LO_ioctl ino cmd arg llfi flags in_buf out_bufsz) rs) h.
Proof.
  intros Hr Hdir Hsz. pose proof (start_during _ _ Hag) as Hd. unfold fuse_lib_ioctl.
  destruct (has_flag flags FUSE_IOCTL_UNRESTRICTED); [by eapply answer_err_wp|]. apply wp_bind.
  apply wp_mono with (P := fun _ h1 => h1 = h).
  { destruct (has_flag flags FUSE_IOCTL_DIR); [|by apply wp_ret]. apply wp_bind.
    eapply get_dirhandle_wp; [exact Hd|auto|]. intros dh fi. by apply wp_ret. }
  intros fi _ ->. apply wp_bind.
  apply wp_mono with (P := fun _ h1 => quiet h h1).
  { destruct (truth out_bufsz); [by apply calm|apply wp_ret, quiet_refl]. }
  intros ok h1 Hq. cbn beta in Hq. pose proof (during_quiet _ _ _ _ _ Hd Hq) as Hd1.
  assert (same_shape (l_fuse h) (l_fuse h1)) as Hsh.
  { destruct (qt_fuse _ _ Hq) as [j ->]. apply same_tree_shape, same_tree_tick. }
  destruct ok; cbn [negb]; [|by eapply answer_err_wp]. apply wp_bind, wp_assert.
  { destruct Hsz as [->|[->|<-]]; [done|by rewrite orb_true_r|by rewrite Z.eqb_refl orb_true_r]. }
  apply wp_bind. eapply (take_wp k [] (l_replies h)); [done| |].
  { apply take_nullok; [by eapply during_agree|by eapply roomy_shape|by eapply reachable_shape]. }
  intros err path hs f2 Hh Hd2 _ Hp. rewrite app_nil_r in Hd2. unfold truth. destruct (Z.eqb_spec err 0) as [->|He]; cbn [negb].
  2: { destruct Hh as [[-> ->]|(s & l & -> & ->)]; [by eapply answer_err_wp|by destruct Hp]. }
  apply wp_bind, calm. intros [err data] h3 Hq3. apply wp_bind.
  eapply (give_wp k [] hs []); [done|rewrite app_nil_r; by eapply during_quiet|]. intros f4 Hd4 _.
  destruct (err <? 0); [by eapply answer_err_wp|by eapply answer_wp].
Qed.
End requests2.

(** ** Requests that write to a node *)

(** Writing fields that are not part of the tree. *)
Lemma good_write k k' holds f n nd nd' :
  good k holds f -> nodes f !! n = Some nd ->
  shape nd' = shape nd -> treelock nd' = treelock nd -> locks_wf (locks nd') ->
  (forall m, k_lookups k' m = k_lookups k m) ->
  (forall m, k_opens k' m = if m =? n then open_count nd' else k_opens k m) ->
  (forall m, 0 <= k_opens k' m /\ (0 < k_opens k' m -> 0 < k_lookups k' m)) ->
  good k' holds (set_nodes f (<[n := nd']> (nodes f))).
Proof.
  intros Hg Hn Hs Ht Hw Hkl Hko Hsane. pose proof (same_shape_write f n nd nd' Hn Hs) as Hsh.
  split; [|by destruct Hg|..|done].
  - eapply lock_state_shape; [apply (g_lock _ _ _ Hg)|done|]. intros m. cbn. destruct (decide (m = n)) as [->|].
    + by rewrite lookup_insert_eq Hn /= Ht.
    + by rewrite lookup_insert_ne.
  - intros m. rewrite (name_of_shape _ _ _ Hsh). apply (g_names _ _ _ Hg).
  - intros m. rewrite (nlookups_shape _ _ _ Hsh) Hkl. apply (g_lookups _ _ _ Hg).
  - intros m. rewrite Hko. unfold opens. cbn. destruct (Z.eqb_spec m n) as [->|].
    + by rewrite lookup_insert_eq.
    + rewrite lookup_insert_ne //. apply (g_opens _ _ _ Hg).
  - intros m md. cbn. rewrite lookup_insert_Some. intros [[<- <-]|[_ Hm]]; [done|]. by apply (g_locks _ _ _ Hg m).
  - apply not_elem_of_dom. rewrite (same_shape_dom _ _ Hsh). by apply not_elem_of_dom, (g_zero _ _ _ Hg).
Qed.

(** The same, when the file is not opened or closed. *)
Lemma good_update k holds f n nd nd' :
  good k holds f -> nodes f !! n = Some nd -> shape nd' = shape nd -> treelock nd' = treelock nd ->
  open_count nd' = open_count nd -> locks_wf (locks nd') -> good k holds (set_nodes f (<[n := nd']> (nodes f))).
Proof.
  intros Hg Hn Hs Ht Ho Hw. eapply good_write; try done; [|apply (g_sane _ _ _ Hg)].
  intros m. destruct (Z.eqb_spec m n) as [->|]; [|done]. rewrite (g_opens _ _ _ Hg). unfold opens. by rewrite Hn.
Qed.

Lemma update_stat_wp k holds f n nd t sz :
  good k holds f -> nodes f !! n = Some nd ->
  wp (update_stat clock n t sz) (fun _ f' => good k holds f' /\ same_shape f f') f.
Proof.
  intros Hg Hn. pose proof (g_locks _ _ _ Hg n nd Hn) as Hw. unfold update_stat. apply wp_bind. eapply wp_update; [done|].
  set (nd1 := set_st_size _ _).
  assert (shape nd1 = shape nd /\ treelock nd1 = treelock nd /\ open_count nd1 = open_count nd /\ locks nd1 = locks nd)
    as (E1 & E2 & E3 & E4) by (unfold nd1; by destruct (_ && _)).
  assert (good k holds (set_nodes f (<[n := nd1]> (nodes f)))) as Hg1 by (eapply good_update; eauto; by rewrite E4).
  apply wp_bind. unfold curr_time, wp at 1. eapply wp_update; [cbn; by rewrite lookup_insert_eq|].
  split.
  - apply (good_update k holds (set_tick (set_nodes f (<[n := nd1]> (nodes f))) _) n nd1); try done;
      [by apply good_tick|cbn; by rewrite lookup_insert_eq|cbn; by rewrite E4].
  - eapply same_shape_trans; [by apply (same_shape_write f n nd nd1)|].
    eapply same_shape_trans; [apply same_tree_shape, same_tree_tick|]. eapply (same_shape_write _ n nd1); [|done].
    cbn. by rewrite lookup_insert_eq.
Qed.

Lemma set_l_fuse_id h : set_l_fuse h (l_fuse h) = h.
Proof. by destruct h. Qed.

(** The kernel knows the node: [get_node] finds it. *)
Lemma find_wp k holds rs h ino (Q : Z -> lib -> Prop) :
  during k holds rs h -> 0 < k_lookups k ino ->
  (forall nd, nodes (l_fuse h) !! ino = Some nd -> 0 < nlookup nd -> Q ino h) -> wp (on_fuse (get_node ino)) Q h.
Proof.
  intros Hd Hk HQ. pose proof (du_good _ _ _ _ Hd) as Hg. destruct (proj1 (known_lookups _ _ _ _ Hg) Hk) as (nd & Hn & Hpos).
  destruct (ls_consistent _ _ _ (g_lock _ _ _ Hg)) as [rank Hinv].
  apply on_fuse_wp. eapply get_node_wp; [done|done|set_solver|]. rewrite set_l_fuse_id. eauto.
Qed.

(** Reading it, then going on with it. *)
Lemma with_node_wp {A} k holds rs h ino (g : Z -> node -> M lib A) (Q : A -> lib -> Prop) :
  during k holds rs h -> 0 < k_lookups k ino ->
  (forall nd, nodes (l_fuse h) !! ino = Some nd -> 0 < nlookup nd -> wp (g ino nd) Q h) ->
  wp (n ← on_fuse (get_node ino); nd ← on_fuse (deref n); g n nd) Q h.
Proof.
  intros Hd Hk HQ. apply wp_bind. eapply find_wp; [done|done|]. intros nd Hn Hpos.
  apply wp_bind, on_fuse_wp. eapply wp_deref; [done|]. rewrite set_l_fuse_id. auto.
Qed.

Lemma auto_update_wp k holds rs h ino nd st (Q : unit -> lib -> Prop) :
  during k holds rs h -> nodes (l_fuse h) !! ino = Some nd ->
  (forall f, during k holds rs (set_l_fuse h f) -> same_shape (l_fuse h) f -> Q tt (set_l_fuse h f)) ->
  wp (on_fuse (auto_update clock conf ino st)) Q h.
Proof.
  intros Hd Hn HQ. apply on_fuse_wp. unfold auto_update. destruct (c_auto_cache conf).
  - eapply wp_mono; [by eapply update_stat_wp, Hn; apply (du_good _ _ _ _ Hd)|]. intros [] f [? ?].
    apply HQ; [by eapply during_fuse|done].
  - apply wp_ret, HQ; [by rewrite set_l_fuse_id|apply same_shape_refl].
Qed.

Section requests3.
Context (k : kernel) (h : lib).
Hypothesis Hag : agree k h.
Hypothesis Hroom : roomy (l_fuse h).
Let rs := l_replies h.

Lemma getattr_wp ino fi : reachable k (l_fuse h) ino None ->
  wp (fuse_lib_getattr alloc_ok clock conf has_op fs_answer reply_res ino fi) (answered k (LO_getattr ino fi) rs) h.
Proof.
  intros Hr. unfold fuse_lib_getattr. apply wp_bind.
  eapply wp_mono; [apply (with_path_calm k rs h ino); [by apply start_during|by apply take_getattr|intros; apply _]|].
  intros [err buf] h2 Hd. cbn beta in Hd. destruct (truth err); [by eapply answer_err_wp|].
  eapply with_node_wp; [exact Hd|apply Hr|]. intros nd Hn _.
  apply wp_bind. eapply auto_update_wp; [done|done|]. intros f Hd3 _. by eapply answer_wp.
Qed.

Lemma setattr_wp ino attr valid fi : reachable k (l_fuse h) ino None ->
  wp (fuse_lib_setattr alloc_ok clock conf has_op fs_answer reply_res ino attr valid fi) (answered k (LO_setattr ino attr valid fi) rs) h.
Proof.
  intros Hr. unfold fuse_lib_setattr. apply wp_bind.
  eapply wp_mono; [apply (with_path_calm k rs h ino); [by apply start_during|by apply take_getattr|intros; apply _]|].
  intros [err buf] h2 Hd. cbn beta in Hd. destruct (truth err); [by eapply answer_err_wp|]. apply wp_bind.
  apply wp_mono with (P := fun _ h3 => during k [] rs h3).
  - destruct (c_auto_cache conf) eqn:Hac; [|by apply wp_ret].
    apply wp_bind. eapply find_wp; [exact Hd|apply Hr|]. intros nd Hn _.
    by eapply auto_update_wp.
  - intros [] h3 Hd3. by eapply answer_wp.
Qed.
End requests3.

(** *** Record locks *)

Lemma locks_insert_total ok1 ok2 ls lk :
  locks_wf ls -> valid_range lk -> granted lk ->
  exists r ls', locks_insert ok1 ok2 ls lk = Ok (r, ls') /\ locks_wf ls'.
Proof.
  intros Hwf Hr Hg. destruct (locks_insert_run true true ls lk Hwf Hr Hg (or_intror (conj eq_refl eq_refl))) as (res & Hrun & []).
  unfold locks_insert in *. cbn [negb orb] in Hrun. rewrite andb_false_r in Hrun.
  destruct (_ && _); [eauto|]. rewrite Hrun. eauto.
Qed.

(** A lock request that the kernel may make. *)
Definition lock_request (lk : flock) : Prop := valid_range (flock_to_lock lk) /\ granted (flock_to_lock lk).

Lemma lib_locks_insert_wp k holds rs h ino lk o :
  during k holds rs h -> 0 < k_lookups k ino -> lock_request lk ->
  wp (lib_locks_insert alloc_ok ino (set_owner (flock_to_lock lk) o)) (fun _ h' =>
    during k holds rs h' /\ same_shape (l_fuse h) (l_fuse h')) h.
Proof.
  intros Hd Hk [Hv Hgr]. unfold lib_locks_insert. eapply with_node_wp; [done|done|]. intros nd Hn _.
  apply wp_bind, calm. intros ok1 h1 Hq1. apply wp_bind, calm. intros ok2 h2 Hq2.
  pose proof (quiet_trans _ _ _ Hq1 Hq2) as Hq. pose proof (during_quiet _ _ _ _ _ Hd Hq) as Hd2.
  destruct (qt_fuse _ _ Hq) as [j Hj]. assert (nodes (l_fuse h2) !! ino = Some nd) as Hn2 by by rewrite Hj.
  pose proof (g_locks _ _ _ (du_good _ _ _ _ Hd) ino nd Hn) as Hwf.
  destruct (locks_insert_total ok1 ok2 (locks nd) (set_owner (flock_to_lock lk) o) Hwf) as (r & ls & -> & Hwf'); [done|done|].
  apply on_fuse_wp, wp_modify. split.
  - eapply during_fuse; [done|done|]. eapply good_update; [apply (du_good _ _ _ _ Hd2)|done..].
  - cbn. rewrite Hj. eapply same_shape_trans; [apply same_tree_shape, same_tree_tick|]. by eapply same_shape_write.
Qed.

(** The file system does not change the lock that it is asked to set. *)
Hypothesis Hfs_lock : forall i path fi cmd lk, cmd <> F_GETLK -> r_flock (fs_answer i (C_lock path fi cmd lk)) = lk.

Lemma fs_lock_wp path fi cmd lk h : cmd <> F_GETLK ->
  wp (fuse_fs_lock has_op fs_answer path fi cmd lk) (fun r h' => r.2 = lk /\ quiet h h') h.
Proof.
  intros Hcmd. unfold fuse_fs_lock. destruct (has_op F_lock); [|apply wp_ret; split; [done|apply quiet_refl]].
  apply wp_bind. unfold fs_do, wp at 1. apply wp_ret. cbn. split; [by apply Hfs_lock|].
  split; [|done..]. exists (tick (l_fuse h)). by destruct h as [[]].
Qed.

Lemma flush_common_wp k holds rs h ino path fi :
  during k holds rs h -> 0 < k_lookups k ino ->
  wp (fuse_flush_common alloc_ok has_op fs_answer ino path fi) (fun _ h' =>
    during k holds rs h' /\ same_shape (l_fuse h) (l_fuse h')) h.
Proof.
  intros Hd Hk. unfold fuse_flush_common. apply wp_bind, calm. intros err h1 Hq1. apply wp_bind.
  eapply wp_mono; [by apply fs_lock_wp|]. intros [errlock lk] h2 [Hlk Hq2]. cbn in Hlk. subst lk.
  pose proof (quiet_trans _ _ _ Hq1 Hq2) as Hq. pose proof (during_quiet _ _ _ _ _ Hd Hq) as Hd2.
  assert (same_shape (l_fuse h) (l_fuse h2)) as Hsh.
  { destruct (qt_fuse _ _ Hq) as [j ->]. apply same_tree_shape, same_tree_tick. }
  destruct (errlock =? - ENOSYS); [by apply wp_ret|]. apply wp_bind.
  eapply wp_mono; [apply (lib_locks_insert_wp k holds rs h2 ino); [done|done|]|].
  - split; [|right; by right]. unfold valid_range. cbn. unfold OFFSET_MAX. lia.
  - intros [] h3 [Hd3 Hsh3]. apply wp_ret. split; [done|]. by eapply same_shape_trans.
Qed.

(** *** Closing files *)

Lemma do_release_wp k hs rs h ino path fi :
  during k hs rs h -> 0 < k_opens k ino ->
  (path = None -> hs = [] /\ reachable k (l_fuse h) ino None /\ roomy (l_fuse h)) ->
  wp (fuse_do_release alloc_ok conf has_op fs_answer ino path fi) (fun _ h' =>
    during (add_opens k ino (-1)) hs rs h') h.
Proof.
  intros Hd Ho Hnull. unfold fuse_do_release. apply wp_bind, calm. intros _ h1 Hq.
  pose proof (during_quiet _ _ _ _ _ Hd Hq) as Hd1. pose proof (du_good _ _ _ _ Hd1) as Hg1.
  assert (same_shape (l_fuse h) (l_fuse h1)) as Hsh1.
  { destruct (qt_fuse _ _ Hq) as [j ->]. apply same_tree_shape, same_tree_tick. }
  destruct (g_sane _ _ _ Hg1 ino) as [_ Hkl]. specialize (Hkl Ho).
  eapply with_node_wp; [done|done|]. intros nd Hn Hpos.
  assert (open_count nd = k_opens k ino) as Hoc by (rewrite (g_opens _ _ _ Hg1); unfold opens; by rewrite Hn).
  apply wp_bind, on_fuse_wp, wp_assert; [apply Z.ltb_lt; lia|]. rewrite set_l_fuse_id.
  set (hidden := is_hidden nd && _). set (nd' := if hidden then set_is_hidden _ false else _).
  assert (shape nd' = shape nd /\ treelock nd' = treelock nd /\ locks nd' = locks nd /\ open_count nd' = open_count nd - 1)
    as (E1 & E2 & E3 & E4) by (unfold nd'; by destruct hidden).
  apply wp_bind, on_fuse_wp, wp_modify. set (h2 := set_l_fuse h1 _).
  assert (during (add_opens k ino (-1)) hs rs h2) as Hd2.
  { eapply during_fuse; [done|done|]. eapply good_write; try done.
    - rewrite E3. by apply (g_locks _ _ _ Hg1 ino).
    - intros m. cbn. unfold bump. destruct (Z.eqb_spec m ino) as [->|]; [|done]. lia.
    - intros m. cbn. destruct (g_sane _ _ _ Hg1 m) as [? ?]. unfold bump. destruct (Z.eqb_spec m ino) as [->|]; lia. }
  destruct hidden; [|by apply wp_ret]. destruct path as [s|].
  { apply wp_bind, calm. intros _ h3 Hq3. apply wp_ret. by eapply during_quiet. }
  destruct (c_nullpath_ok conf); [|by apply wp_ret]. destruct (Hnull eq_refl) as (-> & Hr & Hroom).
  assert (same_shape (l_fuse h) (l_fuse h2)) as Hsh2.
  { eapply same_shape_trans; [exact Hsh1|]. by eapply same_shape_write. }
  apply wp_bind. eapply (take_wp _ [] rs); [exact Hd2| |].
  { apply take_node; [by eapply during_agree|by eapply roomy_shape|].
    apply (reachable_shape _ _ _ _ _ Hsh2) in Hr. by destruct Hr. }
  intros err path hs f3 Hh Hd3 _ _. rewrite app_nil_r in Hd3. apply wp_bind.
  apply wp_mono with (P := fun _ h4 => during (add_opens k ino (-1)) hs rs h4).
  - destruct (truth err); [by apply wp_ret|]. apply wp_bind, calm. intros _ h4 Hq4. apply wp_ret. by eapply during_quiet.
  - intros [] h4 Hd4. eapply (give_wp _ [] hs []); [done|by rewrite app_nil_r|]. done.
Qed.

Lemma inc_open_wp k hs rs h ino (Q : unit -> lib -> Prop) :
  during k hs rs h -> 0 < k_lookups k ino ->
  (forall f, during (add_opens k ino 1) hs rs (set_l_fuse h f) -> same_shape (l_fuse h) f -> Q tt (set_l_fuse h f)) ->
  wp (on_fuse (inc_open_count ino)) Q h.
Proof.
  intros Hd Hk HQ. pose proof (du_good _ _ _ _ Hd) as Hg. destruct (proj1 (known_lookups _ _ _ _ Hg) Hk) as (nd & Hn & Hpos).
  destruct (ls_consistent _ _ _ (g_lock _ _ _ Hg)) as [rank Hinv].
  assert (open_count nd = k_opens k ino) as Hoc by (rewrite (g_opens _ _ _ Hg); unfold opens; by rewrite Hn).
  apply on_fuse_wp. unfold inc_open_count. apply wp_bind. eapply get_node_wp; [done|done|set_solver|].
  eapply wp_update; [done|]. apply HQ; [|by eapply same_shape_write].
  eapply during_fuse; [done|done|]. eapply good_write; try done.
  - apply (g_locks _ _ _ Hg ino nd Hn).
  - intros m. cbn. unfold bump. destruct (Z.eqb_spec m ino) as [->|]; [|done]. lia.
  - intros m. cbn. destruct (g_sane _ _ _ Hg m) as [? ?]. unfold bump. destruct (Z.eqb_spec m ino) as [->|]; lia.
Qed.

Lemma open_auto_cache_wp k hs rs h ino path fi :
  during k hs rs h -> 0 < k_lookups k ino ->
  wp (open_auto_cache clock ac_attr_timeout has_op fs_answer ino path fi) (fun _ h' => during k hs rs h') h.
Proof.
  assert (forall h n nd nd', during k hs rs h -> nodes (l_fuse h) !! n = Some nd ->
    shape nd' = shape nd -> treelock nd' = treelock nd -> open_count nd' = open_count nd -> locks nd' = locks nd ->
    during k hs rs (set_l_fuse h (set_nodes (l_fuse h) (<[n := nd']> (nodes (l_fuse h)))))) as Hwrite.
  { intros h0 n nd nd' Hd Hn ? ? ? El. eapply during_fuse; [done|done|]. eapply good_update; try done; [apply (du_good _ _ _ _ Hd)|].
    rewrite El. by apply (g_locks _ _ _ (du_good _ _ _ _ Hd) n). }
  intros Hd Hk. unfold open_auto_cache. eapply with_node_wp; [done|done|]. intros nd Hn _. apply wp_bind.
  apply wp_mono with (P := fun _ h1 => during k hs rs h1 /\ is_Some (nodes (l_fuse h1) !! ino)).
  - destruct (cache_valid nd); [|by apply wp_ret; eauto]. apply wp_bind, on_fuse_wp. unfold curr_time, wp at 1.
    set (h1 := set_l_fuse h _). assert (quiet h h1) as Hq1 by (split; [by eexists|done..]).
    pose proof (during_quiet _ _ _ _ _ Hd Hq1) as Hd1.
    destruct (SFltb _ _); [|by apply wp_ret; eauto].
    apply wp_bind, calm. intros [err stbuf] h2 Hq2. pose proof (during_quiet _ _ _ _ _ Hd1 Hq2) as Hd2.
    assert (nodes (l_fuse h2) !! ino = Some nd) as Hn2 by (destruct (qt_fuse _ _ Hq2) as [j ->]; done).
    destruct (truth err); apply on_fuse_wp.
    + eapply wp_update; [done|]. split; [by eapply Hwrite|]. cbn. rewrite lookup_insert_eq. eauto.
    + eapply wp_mono; [by eapply update_stat_wp, Hn2; apply (du_good _ _ _ _ Hd2)|]. intros [] f [Hg Hsh].
      split; [by eapply during_fuse|]. destruct (same_shape_lookup _ _ _ _ Hsh Hn2) as (nd2 & ? & _). eauto.
  - intros [] h1 [Hd1 [nd1 Hn1]]. apply wp_bind, on_fuse_wp. eapply wp_deref; [done|]. rewrite set_l_fuse_id.
    apply wp_bind, on_fuse_wp. eapply wp_update; [done|]. apply wp_ret. by eapply Hwrite.
Qed.

Section requests4.
Context (k : kernel) (h : lib).
Hypothesis Hag : agree k h.
Hypothesis Hroom : roomy (l_fuse h).
Let rs := l_replies h.

Lemma getlk_wp ino fi lk : reachable k (l_fuse h) ino None ->
  wp (fuse_lib_getlk alloc_ok conf has_op fs_answer reply_res ino fi lk) (answered k (LO_getlk ino fi lk) rs) h.
Proof.
  intros Hr. pose proof (start_during _ _ Hag) as Hd. unfold fuse_lib_getlk.
  eapply with_node_wp; [exact Hd|apply Hr|]. intros nd _ _. apply wp_bind.
  apply wp_mono with (P := fun _ h1 => during k [] rs h1).
  - destruct (locks_conflict _ _); [by apply wp_ret|].
    apply (with_path_calm k rs h ino); [done|by apply take_nullok|intros; apply _].
  - intros [err lk1] h1 Hd1. cbn beta in Hd1. destruct (truth err); [by eapply answer_err_wp|by eapply answer_wp].
Qed.

Lemma setlk_wp ino fi lk sleep : reachable k (l_fuse h) ino None -> lock_request lk ->
  wp (fuse_lib_setlk alloc_ok conf has_op fs_answer reply_res ino fi lk sleep) (answered k (LO_setlk ino fi lk sleep) rs) h.
Proof.
  intros Hr Hlk. unfold fuse_lib_setlk, fuse_lock_common. apply wp_bind.
  eapply wp_mono; [apply (with_nullok_wp k rs h ino _ _ (fun a => a.2 = lk)); try done|].
  - by apply start_during.
  - intros path. apply _.
  - intros path h1. eapply wp_mono; [apply fs_lock_wp; by destruct sleep|]. by intros a h2 [? _].
  - intros [err lk1] h1 [Hlk1 Hd1]. cbn in Hlk1. subst lk1. apply wp_bind.
    apply wp_mono with (P := fun _ h2 => during k [] rs h2); [|intros [] h2 Hd2; by eapply answer_err_wp].
    destruct (truth err); [by apply wp_ret|].
    eapply wp_mono; [apply (lib_locks_insert_wp k [] rs h1 ino); [done|apply Hr|done]|]. by intros [] h2 [? _].
Qed.

Lemma flush_wp ino fi : reachable k (l_fuse h) ino None ->
  wp (fuse_lib_flush alloc_ok conf has_op fs_answer reply_res ino fi) (answered k (LO_flush ino fi) rs) h.
Proof.
  intros Hr. unfold fuse_lib_flush. apply wp_bind.
  eapply (take_wp k [] rs); [by apply start_during|by apply take_nullok|].
  intros err path hs f Hh Hd _ _. rewrite app_nil_r in Hd. apply wp_bind.
  eapply wp_mono; [apply (flush_common_wp k hs rs); [done|apply Hr]|]. intros err1 h1 [Hd1 _]. apply wp_bind.
  eapply (give_wp k [] hs []); [done|by rewrite app_nil_r|]. intros f2 Hd2 _. by eapply answer_err_wp.
Qed.

Lemma release_wp ino fi : reachable k (l_fuse h) ino None -> 0 < k_opens k ino ->
  wp (fuse_lib_release alloc_ok conf has_op fs_answer reply_res ino fi) (answered k (LO_release ino fi) rs) h.
Proof.
  intros Hr Ho. unfold fuse_lib_release. apply wp_bind.
  eapply (take_wp k [] rs); [by apply start_during|by apply take_nullok|].
  intros err path hs f Hh Hd Hst _. rewrite app_nil_r in Hd. apply wp_bind.
  apply wp_mono with (P := fun _ h1 => during k hs rs h1 /\ same_shape (l_fuse h) (l_fuse h1)).
  { apply same_tree_shape in Hst. destruct (fi_flush fi); [|by apply wp_ret]. apply wp_bind.
    eapply wp_mono; [apply (flush_common_wp k hs rs); [done|apply Hr]|]. intros err1 h1 [Hd1 Hsh].
    apply wp_ret. split; [done|]. by eapply same_shape_trans. }
  intros err1 h1 [Hd1 Hsh]. apply wp_bind. eapply wp_mono; [apply (do_release_wp k hs rs h1 ino); [done|done|]|].
  { intros ->. destruct Hh as [[_ ->]|(s & l & ? & _)]; [|done].
    split; [done|]. split; [by eapply reachable_shape|by eapply roomy_shape]. }
  intros [] h2 Hd2. apply wp_bind. eapply (give_wp _ [] hs []); [done|by rewrite app_nil_r|]. intros f3 Hd3 _.
  by eapply answer_err_wp.
Qed.

Lemma open_wp ino fi : reachable k (l_fuse h) ino None ->
  wp (fuse_lib_open alloc_ok clock conf ac_attr_timeout has_op fs_answer reply_res ino fi) (answered k (LO_open ino fi) rs) h.
Proof.
  intros Hr. unfold fuse_lib_open. apply wp_bind.
  eapply (take_sure_wp k [] rs); [by apply start_during|by apply (take_name_sure k h)|].
  intros err path hs f Hh Hd _ _ Hsure. cbn in Hsure. rewrite app_nil_r in Hd.
  apply wp_bind. apply wp_mono with (P := fun r h1 => during k hs rs h1 /\ (r.1 = 0 -> path <> None)).
  { unfold truth. destruct (Z.eqb_spec err 0) as [->|]; cbn [negb]; [|by apply wp_ret]. apply wp_bind, calm. intros [err1 fi1] h1 Hq.
    pose proof (during_quiet _ _ _ _ _ Hd Hq) as Hd1. destruct (negb (err1 =? 0)); [apply wp_ret; auto|]. apply wp_bind.
    destruct (c_auto_cache conf); [|apply wp_ret, wp_ret; auto].
    eapply wp_mono; [apply (open_auto_cache_wp k hs rs h1 ino); [done|apply Hr]|]. intros fi2 h2 Hd2. apply wp_ret. auto. }
  intros [err1 fi1] h1 [Hd1 Hpath]. cbn in Hpath. apply wp_bind.
  apply wp_mono with (P := fun _ h2 => exists r,
    during (kernel_step k (LO_open ino fi) r (accepted rs)) hs (rs ++ [r]) h2).
  2: { intros [] h2 [r Hd2]. eapply (give_wp _ [] hs []); [done|by rewrite app_nil_r|]. intros f3 Hd3 _.
       exists r. split; [apply (du_replies _ _ _ _ Hd3)|by eapply during_agree]. }
  unfold truth. destruct (Z.eqb_spec err1 0) as [->|]; cbn [negb].
  2: { apply wp_bind, reply_wp, wp_ret. exists (L_err (- err1)). by apply during_reply. }
  apply wp_bind. eapply inc_open_wp; [exact Hd1|apply Hr|]. intros f2 Hd2 _. apply wp_bind, reply_wp.
  rewrite (du_replies _ _ _ _ Hd2). pose proof (during_reply _ _ _ _ (L_open fi1) Hd2) as Hd3.
  rewrite (du_replies _ _ _ _ Hd2) in Hd3.
  destruct (Z.eqb_spec (reply_res (length rs)) (- ENOENT)) as [Hno|Hno].
  - eapply wp_mono; [apply (do_release_wp _ _ _ _ ino path fi1 Hd3)|].
    + cbn. unfold bump. rewrite Z.eqb_refl. destruct (g_sane _ _ _ (ag_good _ _ Hag) ino). lia.
    + intros ->. by destruct Hpath.
    + intros [] h4 Hd4. exists (L_open fi1). unfold accepted. rewrite Hno. cbn.
      eapply during_proper; [|reflexivity..|exact Hd4]. split_and!; [done| |done]. intros n. cbn. by rewrite bump_cancel.
  - apply wp_ret. exists (L_open fi1). unfold accepted. by rewrite (proj2 (Z.eqb_neq _ _) Hno).
Qed.
End requests4.

(** ** Requests that change the tree *)

(** Operations that keep the lock words, the place of the read-locked nodes and
    the nodes that the requests name. *)
Lemma respects_intro r f f' holds :
  lock_state r f holds -> consistent r f' ->
  (forall m md', nodes f' !! m = Some md' ->
     match nodes f !! m with Some md => treelock md' = treelock md | None => treelock md' = 0 end) ->
  (forall m md', m ∈ readers holds -> nodes f' !! m = Some md' ->
     exists md, nodes f !! m = Some md /\ parent md' = parent md) ->
  (forall hd n, hd ∈ holds -> n = h_nodeid hd \/ h_wnode hd = Some n -> known f n -> known f' n) ->
  respects f f' holds.
Proof.
  intros Hls [rank Hinv'] Hw Hp Hk. split; [done| |done].
  intros n nd (hd & Hin & Hpath)%elem_of_readers Hn.
  destruct (ls_holds _ _ _ Hls hd Hin) as (Hkn & Hseg & _).
  assert (h_nodeid hd ∈ dom (nodes f')) as Hstart by (eapply known_dom, Hk; eauto).
  assert (forall x, x ∈ h_path hd -> x ∈ readers holds) as Hsub by (intros; apply elem_of_readers; eauto).
  enough (n ∈ dom (nodes f')) as [nd' Hn']%elem_of_dom.
  { exists nd'. split; [done|]. destruct (Hp n nd') as (md & ? & ?); [auto|done|]. congruence. }
  clear Hkn. revert Hstart Hpath Hsub. induction Hseg as [|x xd p l e Hr Hx Hpar _ IH].
  { by intros _ ?%elem_of_nil. }
  intros [xd' Hx']%elem_of_dom [->|Hin']%elem_of_cons Hsub; [by apply elem_of_dom_2 in Hx'|].
  apply IH; [|done|intros y ?; apply Hsub; set_solver].
  destruct (Hp x xd') as (xd0 & Hx0 & E); [apply Hsub; set_solver|done|].
  assert (xd0 = xd) as -> by congruence. rewrite Hpar in E.
  by destruct (inv_parent _ _ _ _ _ _ Hinv' x xd' p Hx' ltac:(set_solver) E).
Qed.

Lemma soft_eq nd nd' : soft nd' = soft nd ->
  treelock nd' = treelock nd /\ open_count nd' = open_count nd /\ locks nd' = locks nd /\ is_hidden nd' = is_hidden nd.
Proof. unfold soft. by intros [= ????]. Qed.

(** The store after a lookup of [n]: a node more, or a count more. *)
Record looked_up (f f' : fuse) (p : Z) (nm : cstring) (n : Z) : Prop := {
  lu_named : named f' p nm n /\ n <> FUSE_ROOT_ID;
  lu_others : forall m md', m <> n -> nodes f' !! m = Some md' ->
    exists md, nodes f !! m = Some md /\ md' = set_refctr md (refctr md');
  lu_keep : forall m, is_Some (nodes f !! m) -> is_Some (nodes f' !! m);
  lu_node : exists nd', nodes f' !! n = Some nd' /\ n <> 0 /\
    match nodes f !! n with
    | Some nd => parent nd' = parent nd /\ name nd' = name nd /\ soft nd' = soft nd /\ nlookup nd' = nlookup nd + 1
    | None => name nd' = Some nm /\ soft nd' = soft node_zero /\ nlookup nd' = 1
    end;
}.

Lemma find_post_looked_up f p nm n f' :
  consistent 0 f -> nodes f !! 0 = None -> is_Some (nodes f !! p) -> find_post 0 f p nm (Some n) f' -> looked_up f f' p nm n.
Proof.
  intros [rank Hinv] Hz [pd Hp] Hf. cbn in Hf. destruct (lookup_node f p nm) as [m|] eqn:Hl.
  - destruct Hf as (-> & nd & nd' & Hn & Hns & ? & ? & ? & ?).
    apply (lookup_node_spec _ _ _ _ _ _ _ _ Hinv) in Hl. pose proof (named_not_root _ _ _ _ _ _ _ _ Hinv Hl).
    assert (m <> 0) by (intros ->; congruence). split; [|rewrite Hns..].
    + split; [|done]. destruct Hl as (nd0 & ? & ? & ?). exists nd'. rewrite Hns lookup_insert_eq. split_and!; congruence.
    + intros x xd' Hx. rewrite lookup_insert_ne //. intros ?. exists xd'. by rewrite set_refctr_id.
    + intros x ?. destruct (decide (x = m)) as [->|]; [by rewrite lookup_insert_eq; eauto|by rewrite lookup_insert_ne].
    + exists nd'. by rewrite lookup_insert_eq Hn.
  - destruct Hf as [(Hfr & ? & _) (nd & Hn & Hnpar & Hnm) (nd0 & Hn0 & _ & _ & Hnl & Hs) _ Hpar Hoth].
    assert (nd0 = nd) as -> by congruence.
    apply not_elem_of_dom in Hfr. assert (n <> p) as Hnp by congruence. split.
    + split; [by exists nd|]. intros ->. destruct (inv_root _ _ _ _ _ _ Hinv) as (_ & rd & ? & _). congruence.
    + intros x xd' Hx Hxd. destruct (decide (x = p)) as [->|Hxp].
      * rewrite (Hpar pd Hp) in Hxd. injection Hxd as <-. by exists pd.
      * rewrite Hoth // in Hxd. exists xd'. by rewrite set_refctr_id.
    + intros x Hx. destruct (decide (x = n)) as [->|]; [by eauto|]. destruct (decide (x = p)) as [->|Hxp].
      * rewrite (Hpar pd Hp). eauto.
      * by rewrite Hoth.
    + exists nd. rewrite Hfr Hnl. by split_and!.
Qed.

Lemma good_looked_up k holds f f' p nm n :
  good k holds f -> consistent 0 f' -> counters_ok f' -> nul_free nm -> looked_up f f' p nm n ->
  good (add_lookups k n 1) holds f'.
Proof.
  intros Hg Hc Hct Hnm [_ Ho Hk (nd' & Hn' & Hn0 & Hnode)].
  assert (forall m md', nodes f' !! m = Some md' -> match nodes f !! m with
    | Some md => treelock md' = treelock md /\ open_count md' = open_count md /\ locks md' = locks md /\
        parent md' = parent md /\ name md' = name md /\ nlookup md' = nlookup md + (if m =? n then 1 else 0)
    | None => treelock md' = 0 /\ open_count md' = 0 /\ locks md' = [] /\ m = n /\ name md' = Some nm /\ nlookup md' = 1
    end) as Hall.
  { intros m md' Hm. destruct (Z.eqb_spec m n) as [->|Hne].
    - simplify_eq. destruct (nodes f !! n) as [nd|].
      + destruct Hnode as (? & ? & (E1 & E2 & E3 & _)%soft_eq & ?). by split_and!.
      + destruct Hnode as (? & (E1 & E2 & E3 & _)%soft_eq & ?). by split_and!.
    - destruct (Ho m md' Hne Hm) as (md & -> & ->). cbn. split_and!; try done. lia. }
  assert (forall m, nodes f' !! m = None -> nodes f !! m = None) as Hgone.
  { intros m Hm. apply eq_None_not_Some. intros [? ?]%Hk. congruence. }
  split.
  - eapply respects_step; [apply (g_lock _ _ _ Hg)|done|]. apply (respects_intro 0); [apply (g_lock _ _ _ Hg)|done|..].
    + intros m md' Hm. pose proof (Hall m md' Hm). destruct (nodes f !! m); naive_solver.
    + intros m md' Hr Hm. pose proof (Hall m md' Hm). destruct (nodes f !! m) as [md|] eqn:E; [exists md; naive_solver|].
      apply elem_of_readers in Hr as (hd & Hin & Hp). destruct (ls_holds _ _ _ (g_lock _ _ _ Hg) hd Hin) as (_ & Hs & _).
      apply (seg_dom _ _ _ _ Hs) in Hp. by apply not_elem_of_dom in E.
    + intros hd m _ _ (md & Hm & Hpos). destruct (Hk m) as [md' Hm']; [eauto|]. pose proof (Hall m md' Hm') as H.
      rewrite Hm in H. exists md'. destruct H as (_ & _ & _ & _ & _ & ->). split; [done|]. destruct (m =? n); lia.
  - done.
  - intros m. unfold name_of. destruct (nodes f' !! m) as [md'|] eqn:Hm; [|apply not_elem_of_nil].
    pose proof (Hall m md' Hm) as H. pose proof (g_names _ _ _ Hg m) as Hold. unfold name_of in Hold.
    destruct (nodes f !! m); [by destruct H as (_ & _ & _ & _ & -> & _)|]. by destruct H as (_ & _ & _ & _ & -> & _).
  - intros m. cbn. unfold bump. rewrite (g_lookups _ _ _ Hg). unfold nlookups. destruct (nodes f' !! m) as [md'|] eqn:Hm.
    + pose proof (Hall m md' Hm) as H. destruct (nodes f !! m).
      * destruct H as (_ & _ & _ & _ & _ & ->). destruct (m =? n); lia.
      * destruct H as (_ & _ & _ & -> & _ & ->). by rewrite Z.eqb_refl.
    + rewrite (Hgone m Hm). destruct (Z.eqb_spec m n) as [->|]; [congruence|done].
  - intros m. cbn. rewrite (g_opens _ _ _ Hg). unfold opens. destruct (nodes f' !! m) as [md'|] eqn:Hm.
    + pose proof (Hall m md' Hm) as H. destruct (nodes f !! m); naive_solver.
    + by rewrite (Hgone m Hm).
  - intros m md' Hm. pose proof (Hall m md' Hm) as H. destruct (nodes f !! m) as [md|] eqn:E.
    + destruct H as (_ & _ & -> & _). by apply (g_locks _ _ _ Hg m).
    + destruct H as (_ & _ & -> & _). apply locks_wf_nil.
  - destruct (nodes f' !! 0) as [md'|] eqn:Hm; [|done]. pose proof (Hall 0 md' Hm) as H. rewrite (g_zero _ _ _ Hg) in H.
    destruct H as (_ & _ & _ & ? & _). congruence.
  - intros m. cbn. destruct (g_sane _ _ _ Hg m). unfold bump. destruct (m =? n); lia.
Qed.

(** *** Forgetting *)

(** Nodes that nobody knows may go, the others keep their locks and open files. *)
Record shrunk (k' : kernel) (f f' : fuse) : Prop := {
  sh_nodes : forall m md', nodes f' !! m = Some md' -> exists md, nodes f !! m = Some md /\
    treelock md' = treelock md /\ open_count md' = open_count md /\ locks md' = locks md /\
    nlookup md' = k_lookups k' m /\ nul_free (default [] (name md'));
  sh_gone : forall m, nodes f' !! m = None -> k_lookups k' m = 0 /\ k_opens k' m = 0;
}.

Lemma good_shrunk k k' holds f f' :
  good k holds f -> consistent 0 f' -> counters_ok f' -> respects f f' holds -> shrunk k' f f' ->
  (forall m, k_opens k' m = k_opens k m) -> (forall m, 0 < k_opens k' m -> 0 < k_lookups k' m) ->
  good k' holds f'.
Proof.
  intros Hg Hc Hct Hrs [Hall Hgone] Ho Hsane. split; [|done|..].
  - by eapply respects_step; [apply (g_lock _ _ _ Hg)|..].
  - intros m. unfold name_of. destruct (nodes f' !! m) as [md'|] eqn:Hm; [|apply not_elem_of_nil].
    by destruct (Hall m md' Hm) as (_ & _ & _ & _ & _ & _ & ?).
  - intros m. unfold nlookups. destruct (nodes f' !! m) as [md'|] eqn:Hm; [|by apply Hgone].
    by destruct (Hall m md' Hm) as (_ & _ & _ & _ & _ & -> & _).
  - intros m. unfold opens. destruct (nodes f' !! m) as [md'|] eqn:Hm; [|by apply Hgone].
    destruct (Hall m md' Hm) as (md & Em & _ & -> & _). rewrite Ho (g_opens _ _ _ Hg). unfold opens. by rewrite Em.
  - intros m md' Hm. destruct (Hall m md' Hm) as (md & Em & _ & _ & -> & _). by apply (g_locks _ _ _ Hg m).
  - destruct (nodes f' !! 0) as [md'|] eqn:Hm; [|done]. destruct (Hall 0 md' Hm) as (md & Em & _). by rewrite (g_zero _ _ _ Hg) in Em.
  - intros m. split; [rewrite Ho; apply (g_sane _ _ _ Hg)|apply Hsane].
Qed.

Lemma good_nlookup k holds f m md : good k holds f -> nodes f !! m = Some md -> nlookup md = k_lookups k m /\ 0 <= nlookup md.
Proof.
  intros Hg Hm. destruct (ls_consistent _ _ _ (g_lock _ _ _ Hg)) as [rank Hinv].
  destruct (inv_ref _ _ _ _ _ _ Hinv m md Hm). rewrite (g_lookups _ _ _ Hg). unfold nlookups. rewrite Hm. lia.
Qed.

Lemma good_name k holds f m md : good k holds f -> nodes f !! m = Some md -> nul_free (default [] (name md)).
Proof. intros Hg Hm. pose proof (g_names _ _ _ Hg m) as H. unfold name_of in H. by rewrite Hm in H. Qed.

(** What has gone was unknown, hence not open. *)
Lemma gone_unknown k holds f f' m :
  good k holds f -> (forall md, nodes f !! m = Some md -> 0 < nlookup md -> is_Some (nodes f' !! m)) ->
  nodes f' !! m = None -> k_lookups k m = 0 /\ k_opens k m = 0.
Proof.
  intros Hg Hkeep Hm. assert (k_lookups k m = 0) as E.
  { rewrite (g_lookups _ _ _ Hg). unfold nlookups. destruct (nodes f !! m) as [md|] eqn:Em; [|done].
    destruct (good_nlookup _ _ _ _ _ Hg Em). destruct (Z.eq_dec (nlookup md) 0); [done|].
    destruct (Hkeep md eq_refl ltac:(lia)) as [? ?]. congruence. }
  split; [done|]. destruct (g_sane _ _ _ Hg m). lia.
Qed.

(** A node that no request holds is not locked. *)
Lemma unheld_unlocked holds f n nd :
  lock_state 0 f holds -> nodes f !! n = Some nd ->
  (forall hd, hd ∈ holds -> n ∉ h_path hd /\ h_wnode hd <> Some n) -> treelock nd = 0.
Proof.
  intros Hls Hn Hno. destruct (ls_inv _ _ _ Hls) as [_ Hw]. specialize (Hw n nd Hn).
  rewrite !count_zero in Hw.
  - intros (hd & Hin & Hp)%elem_of_readers. by destruct (Hno hd Hin).
  - intros (hd & Hin & Hp)%elem_of_writers. by destruct (Hno hd Hin).
  - unfold lock_ok in Hw. lia.
Qed.

Lemma forget_wp k holds f n d :
  good k holds f -> n <> FUSE_ROOT_ID -> 0 < d <= k_lookups k n ->
  (d = k_lookups k n -> k_opens k n = 0 /\
     forall hd, hd ∈ holds -> n ∉ h_path hd /\ n <> h_nodeid hd /\ h_wnode hd <> Some n) ->
  wp (forget_node alloc_ok clock (c_remember conf) n d) (fun _ f' => good (add_lookups k n (- d)) holds f') f.
Proof.
  intros Hg Hroot Hd Hlast. pose proof (g_lock _ _ _ Hg) as Hls. destruct (ls_consistent _ _ _ Hls) as [rank Hinv].
  destruct (proj1 (known_lookups _ _ _ n Hg) ltac:(lia)) as (nd & Hn & Hpos).
  destruct (good_nlookup _ _ _ _ _ Hg Hn) as [Hkn _].
  rewrite Hrem. eapply wp_mono; [eapply (forget_node_wp alloc_ok 0 clock rank f n nd d Hinv Hn Hroot); [lia|]|].
  { intros E. destruct (Hlast ltac:(lia)) as [_ Hno]. split.
    - eapply unheld_unlocked; [done|done|]. intros hd (? & _ & ?)%Hno. done.
    - intros Hl. destruct (inv_lru _ _ _ _ _ _ Hinv n Hl) as [? _]. lia. }
  intros [] f' (Hinv' & Hkeep & Hmore & _ & [Hall [Hctr Hgen]]).
  assert (shrunk (add_lookups k n (- d)) f f') as Hsh.
  { split.
    - intros m md' Hm. destruct (Hall m md' Hm) as (md & Em & _ & Enm & (E1 & E2 & E3 & _)%soft_eq & E4). exists md.
      split_and!; [done..| |rewrite Enm; by eapply good_name]. cbn. unfold bump.
      destruct (good_nlookup _ _ _ _ _ Hg Em). destruct (m =? n); lia.
    - intros m Hm. cbn. unfold bump. destruct (Z.eqb_spec m n) as [->|Hne].
      + destruct (Z.eq_dec d (nlookup nd)) as [E|E]; [|destruct Hmore as (? & ? & _); [lia|congruence]].
        destruct (Hlast ltac:(lia)). lia.
      + eapply gone_unknown; [done| |done]. by intros md; apply Hkeep. }
  assert (forall hd m, hd ∈ holds -> m = h_nodeid hd \/ h_wnode hd = Some m -> m = n -> d < nlookup nd) as Hheld.
  { intros hd m Hin Hm ->. destruct (Z.eq_dec d (nlookup nd)) as [E|]; [|lia].
    destruct (Hlast ltac:(lia)) as [_ Hno]. destruct (Hno hd Hin) as (_ & ? & ?). by destruct Hm. }
  eapply good_shrunk; [done|by exists rank| | |exact Hsh|done|].
  - pose proof (g_ctr _ _ _ Hg) as Hc. unfold counters_ok in *. by rewrite Hctr Hgen.
  - apply (respects_intro 0); [done|by exists rank|..].
    + intros m md' Hm. by destruct (sh_nodes _ _ _ Hsh m md' Hm) as (md & -> & ? & _).
    + intros m md' _ Hm. destruct (Hall m md' Hm) as (md & ? & ? & _). eauto.
    + intros hd m Hin Hm (md & Em & Hp). pose proof (Hheld hd m Hin Hm) as Hlt. destruct (decide (m = n)) as [->|Hne].
      * destruct Hmore as (nd' & ? & ?); [auto|]. exists nd'. split; [done|]. specialize (Hlt eq_refl). lia.
      * destruct (Hkeep m md Hne Em Hp) as [md' Em']. exists md'. split; [done|].
        destruct (Hall m md' Em') as (md0 & ? & _ & _ & _ & E). assert (md0 = md) as -> by congruence.
        rewrite E (proj2 (Z.eqb_neq _ _) Hne). lia.
  - intros m Ho. cbn. destruct (g_sane _ _ _ Hg m) as [? Hs]. specialize (Hs Ho). cbn in Ho.
    unfold bump. destruct (Z.eqb_spec m n) as [->|]; [|done].
    destruct (Z.eq_dec d (k_lookups k n)) as [E|]; [|lia]. destruct (Hlast E). lia.
Qed.

(** *** Lookups *)

(** A lookup of [(p, nm)] has counted the node of the entry, or nothing. *)
Definition entry_post (k : kernel) (r : Z * fuse_entry_param) (k' : kernel) : Prop :=
  r.1 = 0 /\ e_ino r.2 <> 0 /\ e_ino r.2 <> FUSE_ROOT_ID /\ k' = add_lookups k (e_ino r.2) 1 \/
  (r.1 = 0 -> e_ino r.2 = 0) /\ k' = k.

Lemma roomy_find f : roomy f -> Z.of_nat (base.size (nodes f)) + 3 <= id_space.
Proof. intros [_ H]. unfold id_space, INT_MAX in *. lia. Qed.

Lemma do_lookup_wp k holds f p nm e :
  good k holds f -> roomy f -> 0 < k_lookups k p -> nul_free nm ->
  wp (do_lookup alloc_ok clock conf p (Some nm) e) (fun r f' =>
    r.1 = 0 /\ e_ino r.2 <> 0 /\ e_ino r.2 <> FUSE_ROOT_ID /\ good (add_lookups k (e_ino r.2) 1) holds f' /\
      named f' p nm (e_ino r.2) \/
    r.1 = - ENOMEM /\ good k holds f') f.
Proof.
  intros Hg Hroom Hp Hnm. unfold do_lookup. rewrite Hrem. apply wp_bind.
  pose proof (ls_consistent _ _ _ (g_lock _ _ _ Hg)) as Hc.
  pose proof (proj1 (known_lookups _ _ _ _ Hg) Hp) as (pd & Hpd & _).
  eapply wp_mono; [apply (find_node_wp alloc_ok 0 f p nm); [done|by apply elem_of_dom_2 in Hpd|apply (g_ctr _ _ _ Hg)
    |apply (rm_lookups _ Hroom)|by apply roomy_find]|].
  intros [n|] f1 (Hc1 & Hct1 & Hf).
  - apply find_post_looked_up in Hf; [|done|apply (g_zero _ _ _ Hg)|eauto].
    pose proof (good_looked_up _ _ _ _ _ _ _ Hg Hc1 Hct1 Hnm Hf) as Hg1.
    destruct Hf as [[Hnamed Hroot] _ _ (nd & Hn & Hn0 & _)].
    apply wp_bind. eapply wp_deref; [done|]. apply wp_bind.
    apply wp_mono with (P := fun _ f2 => good (add_lookups k n 1) holds f2 /\ same_shape f1 f2).
    { destruct (c_auto_cache conf); [by eapply update_stat_wp|apply wp_ret; split; [done|apply same_shape_refl]]. }
    intros [] f2 [Hg2 Hsh]. apply wp_ret. left. cbn. split_and!; try done.
    destruct Hnamed as (nd0 & Hn1 & Hpar & Hname). destruct (same_shape_lookup _ _ _ _ Hsh Hn1) as (nd2 & ? & ? & ? & _).
    exists nd2. split_and!; congruence.
  - apply wp_ret. right. split; [done|]. destruct Hf as [_ Hns].
    destruct Hc1 as [rank Hinv1].
    eapply (good_shrunk k); [done|by exists rank|done| | |done|by intros m; apply (g_sane _ _ _ Hg)].
    + apply (respects_intro 0); [apply (g_lock _ _ _ Hg)|by exists rank|..]; rewrite ?Hns.
      * by intros m md' ->.
      * eauto.
      * intros hd m _ _ (md & ? & ?). exists md. by rewrite Hns.
    + split; rewrite Hns.
      * intros m md Hm. exists md. split_and!; try done; [by eapply good_nlookup|by eapply good_name].
      * intros m Hm. eapply gone_unknown; [done| |done]. intros md E. congruence.
Qed.

Lemma lookup_path_wp k hs rs h p nm path fi :
  during k hs rs h -> roomy (l_fuse h) -> 0 < k_lookups k p -> nul_free nm ->
  wp (lookup_path alloc_ok clock conf has_op fs_answer p (Some nm) path fi) (fun r h' =>
    r.1 = 0 /\ e_ino r.2 <> 0 /\ e_ino r.2 <> FUSE_ROOT_ID /\ during (add_lookups k (e_ino r.2) 1) hs rs h' /\
      named (l_fuse h') p nm (e_ino r.2) \/
    r.1 <> 0 /\ during k hs rs h' /\ same_shape (l_fuse h) (l_fuse h')
    \/ r.1 = - ENOMEM /\ during k hs rs h') h.
Proof.
  intros Hd Hroom Hp Hnm. unfold lookup_path. apply wp_bind, calm. intros [res st] h1 Hq.
  pose proof (during_quiet _ _ _ _ _ Hd Hq) as Hd1.
  assert (same_shape (l_fuse h) (l_fuse h1)) as Hsh.
  { destruct (qt_fuse _ _ Hq) as [j ->]. apply same_tree_shape, same_tree_tick. }
  destruct (Z.eqb_spec res 0) as [->|Hne].
  - apply on_fuse_wp. eapply wp_mono; [apply (do_lookup_wp k hs); [apply (du_good _ _ _ _ Hd1)|by eapply roomy_shape|done|done]|].
    intros r f [(? & ? & ? & ? & ?)|[? ?]].
    + left. split_and!; try done. by eapply during_fuse.
    + right. right. split; [done|]. by eapply during_fuse.
  - apply wp_ret. right. left. done.
Qed.

Lemma entry_of k hs rs r h' (N S : Prop) :
  (r.1 = 0 /\ e_ino r.2 <> 0 /\ e_ino r.2 <> FUSE_ROOT_ID /\ during (add_lookups k (e_ino r.2) 1) hs rs h' /\ N \/
   r.1 <> 0 /\ during k hs rs h' /\ S \/ r.1 = - ENOMEM /\ during k hs rs h') ->
  exists k2, entry_post k r k2 /\ during k2 hs rs h'.
Proof.
  intros [(? & ? & ? & ? & _)|[(? & ? & _)|[E ?]]].
  - exists (add_lookups k (e_ino r.2) 1). split; [by left|done].
  - exists k. split; [by right|done].
  - exists k. split; [right; split; [by rewrite E|done]|done].
Qed.

(** The kernel does not forget what it has open. *)
Definition sane (k : kernel) : Prop := forall n, 0 <= k_lookups k n /\ 0 <= k_opens k n /\ (0 < k_opens k n -> 0 < k_lookups k n).

Lemma good_sane k holds f : good k holds f -> sane k.
Proof.
  intros Hg n. split; [|apply (g_sane _ _ _ Hg)]. rewrite (g_lookups _ _ _ Hg). unfold nlookups.
  destruct (nodes f !! n) as [nd|] eqn:Hn; [|done]. by destruct (good_nlookup _ _ _ _ _ Hg Hn).
Qed.

(** A lookup that the kernel does not learn of is taken back. *)
Lemma undo_lookup_wp k hs rs h n :
  during (add_lookups k n 1) hs rs h -> sane k -> n <> FUSE_ROOT_ID ->
  (forall hd, hd ∈ hs -> n ∉ h_path hd /\ n <> h_nodeid hd /\ h_wnode hd <> Some n) ->
  wp (lib_forget_node alloc_ok clock conf n 1) (fun _ h' => during k hs rs h') h.
Proof.
  intros Hd Hk Hroot Hno. destruct (Hk n) as (? & ? & ?).
  assert (k_lookups (add_lookups k n 1) n = k_lookups k n + 1) as Ek by (cbn; unfold bump; by rewrite Z.eqb_refl).
  apply on_fuse_wp. eapply wp_mono; [apply (forget_wp _ hs _ n 1 (du_good _ _ _ _ Hd) Hroot)|].
  - lia.
  - intros E. split; [|done]. cbn. lia.
  - intros [] f Hg. eapply during_fuse; [done|done|]. eapply good_proper; [|reflexivity..|exact Hg].
    split_and!; [|done..]. intros m. cbn. by rewrite bump_cancel.
Qed.

(** Requests whose answer may be an entry. *)
Definition makes_entry (op : lib_op) : Prop := forall k t,
  (forall e, kernel_step k op (L_entry e) t = if t && truth (e_ino e) then add_lookups k (e_ino e) 1 else k) /\
  (forall e, kernel_step k op (L_err e) t = k).

Lemma reply_entry_wp k k' op rs h e err :
  sane k -> during k' [] rs h -> entry_post k (err, e) k' -> makes_entry op ->
  wp (reply_entry alloc_ok clock conf reply_res e err) (answered k op rs) h.
Proof.
  intros Hk Hd He Hop. destruct (Hop k (accepted rs)) as [Hentry Herr]. unfold reply_entry, truth.
  destruct (Z.eqb_spec err 0) as [->|Hne]; cbn [negb].
  2: { destruct He as [[? _]|[_ ->]]; [done|]. by eapply answer_err_wp. }
  apply wp_bind, reply_wp. rewrite (du_replies _ _ _ _ Hd). pose proof (during_reply _ _ _ _ (L_entry e) Hd) as Hd1.
  rewrite (du_replies _ _ _ _ Hd) in Hd1. specialize (Hentry e). unfold answered, accepted, truth in *.
  destruct He as [(_ & Hi & Hroot & ->)|[Hi ->]]; cbn [fst snd] in *.
  - rewrite (proj2 (Z.eqb_neq _ _) Hi) in Hentry |- *. cbn [negb andb] in Hentry |- *. rewrite !andb_true_r in Hentry |- *.
    destruct (Z.eqb_spec (reply_res (length rs)) (- ENOENT)) as [Hno|Hno]; cbn [negb] in *.
    + eapply wp_mono; [apply (undo_lookup_wp k [] _ _ _ Hd1 Hk Hroot); by intros hd ?%elem_of_nil|].
      intros [] h2 Hd2. exists (L_entry e). split; [apply (du_replies _ _ _ _ Hd2)|]. rewrite Hentry. by eapply during_agree.
    + apply wp_ret. exists (L_entry e). split; [apply (du_replies _ _ _ _ Hd1)|]. rewrite Hentry. by eapply during_agree.
  - rewrite (Hi eq_refl) in Hentry |- *. cbn [Z.eqb negb andb] in Hentry |- *. rewrite !andb_false_r in Hentry |- *. apply wp_ret.
    exists (L_entry e). split; [apply (du_replies _ _ _ _ Hd1)|]. rewrite Hentry. by eapply during_agree.
Qed.

(** A child of a node is not on the path of that node. *)
Lemma child_off_path k rs h p l nm n :
  during k [mkHold p l None] rs h -> named (l_fuse h) p nm n ->
  forall hd, hd ∈ [mkHold p l None] -> n ∉ h_path hd /\ n <> h_nodeid hd /\ h_wnode hd <> Some n.
Proof.
  intros Hd (nd & Hn & Hpar & _) hd ->%list_elem_of_singleton. cbn.
  destruct (g_lock _ _ _ (du_good _ _ _ _ Hd)) as [[rank Hc] _ Hh].
  destruct (Hh (mkHold p l None)) as (_ & Hs & _); [set_solver|]. cbn in Hs.
  assert (ranked rank (nodes (l_fuse h))) as Hrk.
  { intros m md q Hm Hq. by destruct (inv_parent _ _ _ _ _ _ Hc m md q Hm ltac:(set_solver) Hq). }
  pose proof (Hrk n nd p Hn Hpar) as Hlt. split_and!; [|intros ->; lia|done].
  intros Hin. pose proof (seg_ranked _ _ _ _ _ n Hrk Hs Hin). lia.
Qed.

Section requests5.
Context (k : kernel) (h : lib).
Hypothesis Hag : agree k h.
Hypothesis Hroom : roomy (l_fuse h).
Let rs := l_replies h.

Lemma start_sane : sane k.
Proof. eapply good_sane, (ag_good _ _ Hag). Qed.

Lemma reachable_nul_free p nm : reachable k (l_fuse h) p (Some nm) -> nul_free nm.
Proof. intros [_ Hn _]. cbn in Hn. by apply nul_free_cons in Hn as [_ ?]. Qed.

(** [body] calls the file system and looks the entry up. *)
Lemma entry_path_wp p nm body :
  reachable k (l_fuse h) p (Some nm) ->
  (forall path hs h1, during k hs rs h1 -> roomy (l_fuse h1) ->
     wp (body path) (fun a h2 => exists k2, entry_post k a k2 /\ during k2 hs rs h2) h1) ->
  wp (with_path alloc_ok (lib_get_path_name alloc_ok p (Some nm)) p (fun err => (err, entry_zero)) body)
     (fun a h2 => exists k2, entry_post k a k2 /\ during k2 [] rs h2) h.
Proof.
  intros Hr Hbody. apply (with_path_wp k rs h p _ _ _ (entry_post k)); [by apply start_during|by apply take_name| |].
  - intros err He. right. split; [|done]. by intros ?.
  - intros path hs h1 _ Hd1 Hst. apply Hbody; [done|]. eapply roomy_shape; [by apply same_tree_shape|done].
Qed.

Lemma roomy_quiet h1 h2 : quiet h1 h2 -> roomy (l_fuse h1) -> roomy (l_fuse h2).
Proof. intros [[j ->] _ _]. eapply roomy_shape, same_tree_shape, same_tree_tick. Qed.

Lemma make_entry_wp op p nm call :
  reachable k (l_fuse h) p (Some nm) -> makes_entry op -> (forall path, Calm (call path)) ->
  wp (make_entry alloc_ok clock conf has_op fs_answer reply_res p nm call) (answered k op rs) h.
Proof.
  intros Hr Hop Hc. apply wp_bind. eapply wp_mono; [apply entry_path_wp; [done|]|].
  2: { intros [err e] h2 (k2 & He & Hd2). eapply reply_entry_wp; [apply start_sane|done..]. }
  intros path hs h1 Hd1 Hroom1.
  apply wp_bind, Hc. intros err h2 Hq. pose proof (during_quiet _ _ _ _ _ Hd1 Hq) as Hd2. unfold truth.
  destruct (Z.eqb_spec err 0) as [->|He]; cbn [negb].
  - eapply wp_mono; [eapply (lookup_path_wp k hs rs h2); [done|by eapply roomy_quiet|apply Hr|by eapply reachable_nul_free]|].
    intros a h3. apply entry_of.
  - apply wp_ret. exists k. split; [by right|done].
Qed.

Lemma mkdir_wp p nm mode : reachable k (l_fuse h) p (Some nm) ->
  wp (fuse_lib_mkdir alloc_ok clock conf has_op fs_answer reply_res p nm mode) (answered k (LO_mkdir p nm mode) rs) h.
Proof. intros Hr. apply make_entry_wp; [done|done|]. intros path. apply _. Qed.

Lemma symlink_wp linkname p nm : reachable k (l_fuse h) p (Some nm) ->
  wp (fuse_lib_symlink alloc_ok clock conf has_op fs_answer reply_res linkname p nm) (answered k (LO_symlink linkname p nm) rs) h.
Proof. intros Hr. apply make_entry_wp; [done|done|]. intros path. apply _. Qed.

(** The names [.] and [..] are looked up only by NFS exports. *)
Definition dot_name (nm : cstring) : bool :=
  ceq (char_at nm 0) "."%char && ((strlen nm =? 1) || (ceq (char_at nm 1) "."%char && (strlen nm =? 2))).

Lemma lookup_wp p nm : reachable k (l_fuse h) p (Some nm) -> dot_name nm = false ->
  wp (fuse_lib_lookup alloc_ok clock conf has_op fs_answer reply_res p nm) (answered k (LO_lookup p nm) rs) h.
Proof.
  intros Hr Hdot. unfold fuse_lib_lookup. unfold dot_name in Hdot. rewrite Hdot. cbn [negb].
  apply wp_bind, wp_get, wp_bind, wp_ret. apply wp_bind. eapply wp_mono; [apply entry_path_wp; [done|]|].
  - intros path hs h1 Hd1 Hroom1. apply wp_bind.
    eapply wp_mono; [eapply (lookup_path_wp k hs rs h1); [done|done|apply Hr|by eapply reachable_nul_free]|].
    intros [err e] h2 He. destruct ((err =? - ENOENT) && _) eqn:Hneg.
    + apply andb_true_iff in Hneg as [->%Z.eqb_eq _]. apply wp_ret. exists k. split; [by right|].
      destruct He as [[? _]|[(_ & ? & _)|[? _]]]; done.
    + apply wp_ret. by eapply entry_of.
  - intros [err e] h2 (k2 & He & Hd2). apply wp_bind, wp_ret. eapply reply_entry_wp; [apply start_sane|done..].
Qed.

Lemma mknod_wp p nm mode rdev : reachable k (l_fuse h) p (Some nm) ->
  wp (fuse_lib_mknod alloc_ok clock conf has_op fs_answer reply_res p nm mode rdev) (answered k (LO_mknod p nm mode rdev) rs) h.
Proof.
  intros Hr. pose proof (reachable_nul_free _ _ Hr) as Hnm. unfold fuse_lib_mknod. apply wp_bind.
  eapply wp_mono; [apply entry_path_wp; [done|]|].
  2: { intros [err e] h2 (k2 & He & Hd2). eapply reply_entry_wp; [apply start_sane|done..]. }
  intros path hs h1 Hd1 Hroom1. apply wp_bind.
  apply wp_mono with (P := fun r h2 => (exists k2, entry_post k r k2 /\ during k2 hs rs h2) /\
    (r.1 = - ENOSYS -> during k hs rs h2 /\ roomy (l_fuse h2))).
  - destruct (S_ISREG mode); [|apply wp_ret; split; [exists k; split; [by right|done]|done]].
    apply wp_bind, calm. intros [err fi] h2 Hq. pose proof (during_quiet _ _ _ _ _ Hd1 Hq) as Hd2. unfold truth.
    pose proof (roomy_quiet _ _ Hq Hroom1) as Hroom2.
    destruct (Z.eqb_spec err 0) as [->|He]; cbn [negb]; [|by apply wp_ret; split; [exists k; split; [by right|]|]].
    apply wp_bind. eapply wp_mono; [eapply (lookup_path_wp k hs rs h2); [done|done|apply Hr|done]|].
    intros r h3 Hpost. apply wp_bind, calm. intros _ h4 Hq4. apply wp_ret. split.
    + destruct (entry_of _ _ _ _ _ _ _ Hpost) as (k2 & ? & ?). exists k2. split; [done|]. by eapply during_quiet.
    + intros E. rewrite E in Hpost. destruct Hpost as [[? _]|[(_ & Hd3 & Hsh)|[? _]]]; [done| |done].
      split; [by eapply during_quiet|]. eapply roomy_quiet; [done|]. by eapply roomy_shape.
  - intros [err e] h2 [He Hns]. cbn [fst] in Hns. destruct (Z.eqb_spec err (- ENOSYS)) as [->|Hne]; [|by apply wp_ret].
    destruct (Hns eq_refl) as [Hd2 Hroom2]. apply wp_bind, calm. intros err h3 Hq.
    pose proof (during_quiet _ _ _ _ _ Hd2 Hq) as Hd3. unfold truth. destruct (Z.eqb_spec err 0) as [->|Hne]; cbn [negb].
    + eapply wp_mono; [eapply (lookup_path_wp k hs rs h3); [done|by eapply roomy_quiet|apply Hr|done]|]. intros a h4. apply entry_of.
    + apply wp_ret. exists k. split; [by right|done].
Qed.

(** A forget that the kernel may send: it gives back lookups that it has, the
    last one only of a file that is not open. *)
Definition forget_ok (k : kernel) (ino n : Z) : Prop :=
  ino <> FUSE_ROOT_ID /\ 0 < n <= k_lookups k ino /\ (n = k_lookups k ino -> k_opens k ino = 0).

Fixpoint forgets_ok (k : kernel) (l : list (Z * Z)) : Prop :=
  match l with
  | [] => True
  | (ino, n) :: l => forget_ok k ino n /\ forgets_ok (add_lookups k ino (- n)) l
  end.

Lemma do_forget_wp k1 f ino n : good k1 [] f -> forget_ok k1 ino n ->
  wp (do_forget alloc_ok clock conf ino n) (fun _ f' => good (add_lookups k1 ino (- n)) [] f') f.
Proof.
  intros Hg (Hroot & Hn & Hlast). apply forget_wp; [done|done|done|]. intros E. split; [auto|by intros hd ?%elem_of_nil].
Qed.

Lemma forget_all_wp l : forall k1 f, good k1 [] f -> forgets_ok k1 l ->
  wp (forget_all alloc_ok clock conf l)
     (fun _ f' => good (foldl (fun k x => add_lookups k x.1 (- x.2)) k1 l) [] f') f.
Proof.
  induction l as [|[ino n] l IH]; intros k1 f Hg Hok; [by apply wp_ret|]. destruct Hok as [Hok Hrest]. cbn.
  apply wp_bind. eapply wp_mono; [by apply do_forget_wp|]. intros [] f' Hg'. by apply IH.
Qed.

Lemma forget_request_wp ino n : forget_ok k ino n ->
  wp (fuse_lib_forget alloc_ok clock conf reply_res ino n) (answered k (LO_forget ino n) rs) h.
Proof.
  intros Hok. unfold fuse_lib_forget. apply wp_bind, on_fuse_wp. eapply wp_mono; [apply do_forget_wp; [apply (ag_good _ _ Hag)|done]|].
  intros [] f Hg. eapply answer_wp; [|done]. eapply during_fuse; [by apply start_during|done|done].
Qed.

Lemma forget_multi_wp l : forgets_ok k l ->
  wp (fuse_lib_forget_multi alloc_ok clock conf reply_res l) (answered k (LO_forget_multi l) rs) h.
Proof.
  intros Hok. unfold fuse_lib_forget_multi. apply wp_bind, on_fuse_wp.
  eapply wp_mono; [apply forget_all_wp; [apply (ag_good _ _ Hag)|done]|].
  intros [] f Hg. eapply answer_wp; [|done]. eapply during_fuse; [by apply start_during| |done].
  clear. revert k. induction l as [|x l IH]; intros k; [done|]. cbn. by rewrite IH.
Qed.

(** *** Two paths *)

Lemma get_path2_wp n1 nm1 n2 nm2 :
  reachable k (l_fuse h) n1 nm1 -> reachable k (l_fuse h) n2 nm2 ->
  wp (lib_get_path2 alloc_ok n1 nm1 n2 nm2 false) (fun r f' =>
    let '(err, paths, w1, w2) := r in same_tree (l_fuse h) f' /\ w1 = None /\ w2 = None /\
    (err = 0 /\ (exists l1 l2, good k [mkHold n2 l2 None; mkHold n1 l1 None] f') \/ err <> 0 /\ good k [] f')) (l_fuse h).
Proof.
  intros Hr1 Hr2. unfold lib_get_path2, no_wait, get_path2, try_get_path2. apply wp_bind, wp_bind, wp_bind.
  pose proof (ag_good _ _ Hag) as Hg.
  eapply wp_mono; [apply (try_read_wp k [] (l_fuse h) n1 nm1); [done|exact (start_clear _ _ Hag)|by eapply start_request]|].
  intros [[err path1] w1] f1 ((Hst1 & -> & Hp1) & Hsure & Hne). cbn in Hsure, Hne. unfold truth.
  destruct (Z.eqb_spec err 0) as [->|He]; cbn [negb].
  2: { apply wp_ret. cbn [fst]. rewrite (proj2 (Z.eqb_neq _ _) Hne). apply wp_ret, wp_ret. split_and!; [done..|]. right. split; [done|].
       destruct path1; [by destruct Hp1|done]. }
  destruct path1 as [s1|]; [|by destruct Hsure]. destruct Hp1 as (_ & Hcl1 & l1 & Hseg & Hg1). apply wp_bind.
  pose proof (same_tree_shape _ _ Hst1) as Hsh1.
  assert (held_for n1 (Some s1) [mkHold n1 l1 None]) as Hh1 by (right; eauto).
  eapply wp_mono; [apply (try_read_wp k [mkHold n1 l1 None] f1 n2 nm2); [done|done|]|].
  { eapply reachable_request; [done|by eapply roomy_shape|by eapply reachable_shape|].
    apply (held_readers k n1 (Some s1) _ rs (set_l_fuse h f1) Hh1). eapply during_fuse; [by apply start_during|done|done]. }
  intros [[err path2] w2] f2 ((Hst2 & -> & Hp2) & Hsure2 & Hne2). cbn in Hsure2, Hne2.
  assert (same_tree (l_fuse h) f2) as Hst by by eapply same_tree_trans. unfold truth.
  destruct (Z.eqb_spec err 0) as [->|He]; cbn [negb].
  - destruct path2 as [s2|]; [|by destruct Hsure2]. destruct Hp2 as (_ & _ & l2 & _ & Hg2).
    apply wp_ret, wp_ret, wp_ret. split_and!; [done..|]. left. split; [done|]. by exists l1, l2.
  - destruct path2 as [s2|]; [by destruct Hp2|]. apply wp_bind.
    eapply wp_mono; [apply (unlock_step 0 f2 [] (mkHold n1 l1 None) [] (g_lock _ _ _ Hp2))|].
    intros [] f3 [Hls Hst3]. apply wp_ret. cbn [fst]. rewrite (proj2 (Z.eqb_neq _ _) Hne2). apply wp_ret, wp_ret.
    split_and!; [by eapply same_tree_trans|done|done|]. right. split; [done|]. by eapply good_same_tree.
Qed.

Lemma free_path2_wp k1 f n1 l1 w1 n2 l2 w2 :
  good k1 [mkHold n2 l2 w2; mkHold n1 l1 w1] f ->
  wp (lib_free_path2 alloc_ok n1 n2 w1 w2) (fun _ f' => good k1 [] f') f.
Proof.
  intros Hg. unfold lib_free_path2, free_path2. apply wp_bind, wp_bind.
  eapply wp_mono; [apply (unlock_step 0 f [mkHold n2 l2 w2] (mkHold n1 l1 w1) [] (g_lock _ _ _ Hg))|].
  intros [] f1 [Hls1 Hst1]. apply wp_bind. eapply wp_mono; [apply (unlock_step 0 f1 [] (mkHold n2 l2 w2) [] Hls1)|].
  intros [] f2 [Hls2 Hst2]. apply wp_ret, wp_ret. eapply good_same_tree; [exact Hg| |exact Hls2]. by eapply same_tree_trans.
Qed.

Lemma link_wp ino newparent newname :
  reachable k (l_fuse h) ino None -> reachable k (l_fuse h) newparent (Some newname) ->
  wp (fuse_lib_link alloc_ok clock conf has_op fs_answer reply_res ino newparent newname)
     (answered k (LO_link ino newparent newname) rs) h.
Proof.
  intros Hr1 Hr2. unfold fuse_lib_link. apply wp_bind, on_fuse_wp. eapply wp_mono; [by apply get_path2_wp|].
  intros [[[err paths] w1] w2] f (Hst & _ & _ & Hcase). apply wp_bind. pose proof (start_during _ _ Hag) as Hd0.
  apply wp_mono with (P := fun r h2 => exists k2, entry_post k r k2 /\ during k2 [] rs h2).
  2: { intros [err1 e] h2 (k2 & He & Hd2). eapply reply_entry_wp; [apply start_sane|done..]. }
  unfold truth. destruct Hcase as [(-> & l1 & l2 & Hg)|[He Hg]].
  2: { rewrite (proj2 (Z.eqb_neq _ _) He). apply wp_ret. exists k. split; [by right|]. by eapply during_fuse. }
  cbn [Z.eqb negb]. assert (during k [mkHold newparent l2 None; mkHold ino l1 None] rs (set_l_fuse h f)) as Hd1 by by eapply during_fuse.
  apply wp_bind, calm. intros err1 h2 Hq. pose proof (during_quiet _ _ _ _ _ Hd1 Hq) as Hd2. apply wp_bind.
  apply wp_mono with (P := fun r h3 => exists k2, entry_post k r k2 /\ during k2 [mkHold newparent l2 None; mkHold ino l1 None] rs h3).
  - destruct (Z.eqb_spec err1 0) as [->|He]; cbn [negb]; [|apply wp_ret; exists k; split; [by right|done]].
    eapply wp_mono; [eapply (lookup_path_wp k _ rs h2); [done| |apply Hr2|by eapply reachable_nul_free]|intros a h3; apply entry_of].
    eapply roomy_quiet; [done|]. eapply roomy_shape; [by apply same_tree_shape|done].
  - intros r h3 (k2 & He & Hd3). apply wp_bind, on_fuse_wp.
    eapply wp_mono; [exact (free_path2_wp _ _ _ _ _ _ _ _ (du_good _ _ _ _ Hd3))|]. intros [] f4 Hg4. apply wp_ret.
    exists k2. split; [done|]. by eapply during_fuse.
Qed.

(** *** Creating and opening *)

(** The entry was looked up, or an error left the counts alone. *)
Lemma create_body_wp p nm mode fi s l h1 :
  reachable k (l_fuse h) p (Some nm) -> during k [mkHold p l None] rs h1 -> roomy (l_fuse h1) ->
  wp (r ← fuse_fs_create has_op fs_answer (Some s) mode fi;
      let '(err, fi) := r in
      if truth err then mret (err, entry_zero, fi)
      else
        r ← lookup_path alloc_ok clock conf has_op fs_answer p (Some nm) (Some s) (Some fi);
        let '(err, e) := r in
        if truth err then fuse_fs_release has_op fs_answer (Some s) fi;; mret (err, e, fi)
        else if negb (S_ISREG (sb_mode (e_attr e))) then
          fuse_fs_release has_op fs_answer (Some s) fi;;
          lib_forget_node alloc_ok clock conf (e_ino e) 1;;
          mret (- EIO, e, fi)
        else mret (0, e, fi_parallel conf (fi_cached conf fi)))
     (fun r h2 => let '(err, e, _) := r in
        err = 0 /\ e_ino e <> FUSE_ROOT_ID /\ during (add_lookups k (e_ino e) 1) [mkHold p l None] rs h2 /\
          (forall hd, hd ∈ [mkHold p l None] -> e_ino e ∉ h_path hd /\ e_ino e <> h_nodeid hd /\ h_wnode hd <> Some (e_ino e)) \/
        err <> 0 /\ during k [mkHold p l None] rs h2) h1.
Proof.
  intros Hr Hd1 Hroom1. apply wp_bind, calm. intros [err fi1] h2 Hq. pose proof (during_quiet _ _ _ _ _ Hd1 Hq) as Hd2.
  unfold truth. destruct (Z.eqb_spec err 0) as [->|He]; cbn [negb]; [|apply wp_ret; by right].
  apply wp_bind. eapply wp_mono; [eapply (lookup_path_wp k _ rs h2); [done|by eapply roomy_quiet|apply Hr|by eapply reachable_nul_free]|].
  intros [err e] h3 Hpost. cbn [fst snd] in Hpost.
  destruct (Z.eqb_spec err 0) as [->|He]; cbn [negb].
  - destruct Hpost as [(_ & Hi & Hroot & Hd3 & Hnamed)|[[? _]|[? _]]]; [|done|done].
    pose proof (child_off_path _ _ _ _ _ _ _ Hd3 Hnamed) as Hoff.
    destruct (S_ISREG _); cbn [negb]; [by apply wp_ret; left|].
    apply wp_bind, calm. intros _ h4 Hq4. apply wp_bind.
    eapply wp_mono; [apply (undo_lookup_wp k [mkHold p l None] rs h4 (e_ino e)); [exact (during_quiet _ _ _ _ _ Hd3 Hq4)|apply start_sane|done|done]|].
    intros [] h5 Hd5. apply wp_ret. by right.
  - assert (during k [mkHold p l None] rs h3) as Hd3 by (destruct Hpost as [[? _]|[(_ & ? & _)|[_ ?]]]; done).
    apply wp_bind, calm. intros _ h4 Hq4. apply wp_ret. right. split; [done|]. by eapply during_quiet.
Qed.

Lemma create_wp p nm mode fi : reachable k (l_fuse h) p (Some nm) ->
  wp (fuse_lib_create alloc_ok clock conf has_op fs_answer reply_res p nm mode fi) (answered k (LO_create p nm mode fi) rs) h.
Proof.
  intros Hr. unfold fuse_lib_create. apply wp_bind.
  eapply (take_sure_wp k [] rs); [by apply start_during|by apply (take_name_sure k h)|].
  intros err path hs f1 Hh Hd1 Hst Hp Hsure. rewrite app_nil_r in Hd1. cbn in Hsure.
  pose proof (start_sane) as Hk.
  assert (roomy (l_fuse (set_l_fuse h f1))) as Hroom1 by (eapply roomy_shape; [by apply same_tree_shape|done]).
  destruct Hh as [[-> ->]|(s & l & -> & ->)].
  { unfold truth. destruct (Z.eqb_spec err 0) as [->|He]; [by destruct Hsure|]. cbn [negb]. apply wp_bind, wp_ret.
    rewrite (proj2 (Z.eqb_neq _ _) He). cbn [negb]. apply wp_bind. eapply wp_mono; [by apply (answer_err_wp k k (LO_create p nm mode fi) rs)|].
    intros [] h2 (r & Hrep & Hag2). apply on_fuse_wp, lib_free_nopath_wp. exists r. by rewrite set_l_fuse_id. }
  destruct Hp as [-> _]; [done|]. cbn [truth Z.eqb negb]. apply wp_bind.
  eapply wp_mono; [by apply (create_body_wp p nm mode fi s l)|].
  intros [[err e] fi2] h2 Hcase. apply wp_bind.
  apply wp_mono with (P := fun _ h3 => exists r,
    during (kernel_step k (LO_create p nm mode fi) r (accepted rs)) [mkHold p l None] (rs ++ [r]) h3).
  2: { intros [] h3 [r Hd3]. eapply (give_wp _ [] [mkHold p l None] []); [right; eauto|done|]. intros f4 Hd4 _.
       exists r. split; [apply (du_replies _ _ _ _ Hd4)|by eapply during_agree]. }
  destruct Hcase as [(-> & Hroot & Hd2 & Hoff)|[He Hd2]]; unfold truth.
  2: { rewrite (proj2 (Z.eqb_neq _ _) He). cbn [negb]. apply wp_bind, reply_wp, wp_ret. exists (L_err (- err)). by apply during_reply. }
  cbn [Z.eqb negb]. set (n := e_ino e) in *. destruct (Hk n) as (? & ? & ?). apply wp_bind.
  eapply inc_open_wp; [exact Hd2|cbn; unfold bump; rewrite Z.eqb_refl; lia|]. intros f3 Hd3 _. apply wp_bind, reply_wp.
  rewrite (du_replies _ _ _ _ Hd3). pose proof (during_reply _ _ _ _ (L_create e fi2) Hd3) as Hd4.
  rewrite (du_replies _ _ _ _ Hd3) in Hd4.
  destruct (Z.eqb_spec (reply_res (length rs)) (- ENOENT)) as [Hno|Hno].
  - apply wp_bind. eapply wp_mono; [apply (do_release_wp _ _ _ _ n (Some s) fi2 Hd4); [|done]|].
    { cbn. unfold bump. rewrite Z.eqb_refl. lia. }
    intros [] h5 Hd5. assert (during (add_lookups k n 1) [mkHold p l None] (rs ++ [L_create e fi2]) h5) as Hd5'.
    { eapply during_proper; [|reflexivity..|exact Hd5]. split_and!; [done| |done]. intros m. cbn. by rewrite bump_cancel. }
    eapply wp_mono; [apply (undo_lookup_wp k _ _ _ _ Hd5' Hk Hroot Hoff)|]. intros [] h6 Hd6.
    exists (L_create e fi2). unfold accepted. by rewrite Hno.
  - apply wp_ret. exists (L_create e fi2). unfold accepted. rewrite (proj2 (Z.eqb_neq _ _) Hno). exact Hd4.
Qed.

(** *** Removing *)

Lemma remove_wp k1 f p l w nm :
  good k1 [mkHold p l w] f ->
  wp (remove_node alloc_ok (c_remember conf) p nm) (fun _ f' => good k1 [mkHold p l w] f') f.
Proof.
  intros Hg. pose proof (g_lock _ _ _ Hg) as Hls. destruct (ls_consistent _ _ _ Hls) as [rank Hinv].
  unfold remove_node. rewrite Hrem. apply wp_bind, wp_get. destruct (lookup_node f p nm) as [n|] eqn:Hl; [|by apply wp_ret].
  apply (lookup_node_spec _ _ _ _ _ _ _ _ Hinv) in Hl. pose proof (named_not_root _ _ _ _ _ _ _ _ Hinv Hl) as Hroot.
  destruct Hl as (nd & Hn & Hpar & Hnm).
  destruct (ls_holds _ _ _ Hls (mkHold p l w)) as (_ & Hseg & _); [set_solver|]. cbn in Hseg.
  assert (ranked rank (nodes f)) as Hrk.
  { intros m md q Hm Hq. by destruct (inv_parent _ _ _ _ _ _ Hinv m md q Hm ltac:(set_solver) Hq). }
  assert (n ∉ l) as Hnl.
  { intros Hin. pose proof (seg_ranked _ _ _ _ _ n Hrk Hseg Hin). pose proof (Hrk n nd p Hn Hpar). lia. }
  assert (readers [mkHold p l w] = l) as Hrd by (unfold readers; cbn; by rewrite app_nil_r).
  eapply wp_mono; [apply (unlink_node_wp alloc_ok 0 rank f n nd Hinv Hn Hroot); [|done]|].
  { destruct (ls_inv _ _ _ Hls) as [_ Hw]. specialize (Hw n nd Hn). rewrite Hrd (count_zero l n Hnl) in Hw.
    unfold lock_ok, read_locked in *. lia. }
  intros [] f' (Hinv' & (nd' & Hn' & Hp' & Hnm' & Hnl' & (E1 & E2 & E3 & _)%soft_eq) & [Hctr Hgen] & Hoth & Hkeep).
  cbn in Hnl'. rewrite Z.sub_0_r in Hnl'.
  assert (shrunk k1 f f') as Hsh.
  { split.
    - intros m md' Hm. destruct (decide (m = n)) as [->|Hne].
      + assert (md' = nd') as -> by congruence. exists nd. rewrite Hnm'. split_and!; try done; [|apply not_elem_of_nil].
        rewrite Hnl'. by eapply good_nlookup.
      + destruct (Hoth m md' Hne Hm) as (md & Em & ->). exists md. cbn. split_and!; try done; [by eapply good_nlookup|by eapply good_name].
    - intros m Hm. eapply gone_unknown; [done| |done]. intros md. apply Hkeep. }
  eapply good_shrunk; [done|by exists rank| | |exact Hsh|done|by intros m; apply (g_sane _ _ _ Hg)].
  - pose proof (g_ctr _ _ _ Hg) as Hc. unfold counters_ok in *. by rewrite Hctr Hgen.
  - apply (respects_intro 0); [done|by exists rank|..].
    + intros m md' Hm. by destruct (sh_nodes _ _ _ Hsh m md' Hm) as (md & -> & ? & _).
    + intros m md'. rewrite Hrd. intros Hin Hm. assert (m <> n) as Hne by congruence.
      destruct (Hoth m md' Hne Hm) as (md & Em & ->). by exists md.
    + intros hd m _ _ (md & Em & Hpos). destruct (Hkeep m md Em Hpos) as [md' Em']. exists md'. split; [done|].
      destruct (sh_nodes _ _ _ Hsh m md' Em') as (md0 & _ & _ & _ & _ & -> & _).
      destruct (good_nlookup _ _ _ _ _ Hg Em). lia.
Qed.

(** The entry, if there is one, is known to the kernel. *)
Definition entry_known (p : Z) (nm : cstring) : Prop :=
  forall w, lookup_node (l_fuse h) p nm = Some w -> 0 < k_lookups k w.

Lemma wrlock_wp p nm : reachable k (l_fuse h) p (Some nm) -> entry_known p nm ->
  wp (lib_get_path_wrlock alloc_ok p nm) (fun r f' => let '(err, path, w) := r in same_tree (l_fuse h) f' /\
    (err = 0 /\ w = lookup_node (l_fuse h) p nm /\ (exists l, good k [mkHold p l w] f') \/ err <> 0 /\ good k [] f')) (l_fuse h).
Proof.
  intros Hr Hw. pose proof (ag_good _ _ Hag) as Hg. unfold lib_get_path_wrlock, no_wait, get_path_wrlock, get_path_common.
  assert (request_ok (l_fuse h) [] p (Some nm) true) as Hrq.
  { destruct (start_request _ _ Hag Hroom _ _ Hr) as [Hkn _ Hpo Hm]. split; [done| |done|done].
    intros _ w Hl. eapply known_lookups; [exact Hg|]. by apply Hw. }
  apply wp_bind, wp_bind. eapply wp_mono; [apply wp_run, (try_lock_wp alloc_ok 0 _ [] p (Some nm) true (g_lock _ _ _ Hg) Hrq)|].
  intros [[err path] w] f' [[Hst Hpost] Hrun]. apply wp_ret. cbn [fst].
  destruct Hpost as [(-> & _ & _ & l & _ & -> & Hls)|(Hfail & -> & -> & Hls)].
  - apply wp_ret. split; [done|]. left. split; [done|]. split; [by apply try_get_path_wnode in Hrun|]. exists l. by eapply good_same_tree.
  - assert (err <> - EAGAIN /\ err <> 0) as [He1 He2].
    { destruct Hfail as [[-> _]|[(-> & n & nd & Hn & Hx)|[-> _]]]; [done| |done]. exfalso.
      pose proof (idle_unlocked _ _ _ (g_lock _ _ _ Hg) Hn) as Hz. destruct Hx as [[_ ?]|[_ ?]]; [lia|done]. }
    rewrite (proj2 (Z.eqb_neq _ _) He1). apply wp_ret. split; [done|]. right. split; [done|]. by eapply good_same_tree.
Qed.

Lemma free_wrlock_wp k1 f p l w : good k1 [mkHold p l w] f ->
  wp (lib_free_path_wrlock alloc_ok p w) (fun _ f' => good k1 [] f') f.
Proof.
  intros Hg. unfold lib_free_path_wrlock, free_path_wrlock. apply wp_bind, wp_bind.
  eapply wp_mono; [apply (unlock_step 0 f [] (mkHold p l w) [] (g_lock _ _ _ Hg))|].
  intros [] f1 [Hls Hst]. apply wp_ret, wp_ret. by eapply good_same_tree.
Qed.

(** The file system has removed the entry, now the library does. *)
Lemma removed_wp (err : Z) p nm l w rs1 h1 : during k [mkHold p l w] rs1 h1 ->
  wp (removed alloc_ok conf err p nm) (fun _ h2 => during k [mkHold p l w] rs1 h2) h1.
Proof.
  intros Hd. unfold removed. apply wp_bind. destruct (truth err); [by apply wp_ret, wp_ret|]. apply on_fuse_wp.
  eapply wp_mono; [apply remove_wp, (du_good _ _ _ _ Hd)|]. intros [] f Hg. apply wp_ret. by eapply during_fuse.
Qed.

Lemma entry_op_wp op p nm body :
  reachable k (l_fuse h) p (Some nm) -> entry_known p nm -> (forall e t, kernel_step k op (L_err e) t = k) ->
  (forall path l w f, during k [mkHold p l w] rs (set_l_fuse h f) -> same_tree (l_fuse h) f -> w = lookup_node (l_fuse h) p nm ->
     wp (body path w) (fun _ h2 => during k [mkHold p l w] rs h2) (set_l_fuse h f)) ->
  wp (entry_op alloc_ok reply_res p nm body) (answered k op rs) h.
Proof.
  intros Hr Hw Hop Hbody. pose proof (start_during _ _ Hag) as Hd0. apply wp_bind, on_fuse_wp.
  eapply wp_mono; [by apply wrlock_wp|]. intros [[err path] w] f (Hst & Hcase). apply wp_bind.
  apply wp_mono with (P := fun _ h2 => during k [] rs h2); [|intros err2 h2 Hd2; by eapply answer_err_wp].
  unfold truth. destruct Hcase as [(-> & Ew & l & Hg)|[He Hg]].
  - cbn [Z.eqb negb]. apply wp_bind. eapply wp_mono; [by apply (Hbody path l w f); [eapply during_fuse|..]|].
    intros err h2 Hd2. cbn beta in Hd2. apply wp_bind, on_fuse_wp.
    eapply wp_mono; [exact (free_wrlock_wp _ _ _ _ _ (du_good _ _ _ _ Hd2))|].
    intros [] f3 Hg3. apply wp_ret. by eapply during_fuse.
  - rewrite (proj2 (Z.eqb_neq _ _) He). apply wp_ret. by eapply during_fuse.
Qed.

Lemma rmdir_wp p nm : reachable k (l_fuse h) p (Some nm) -> entry_known p nm ->
  wp (fuse_lib_rmdir alloc_ok conf has_op fs_answer reply_res p nm) (answered k (LO_rmdir p nm) rs) h.
Proof.
  intros Hr Hw. apply entry_op_wp; [done|done|done|]. intros path l w f Hd _ _. apply wp_bind, calm. intros err h2 Hq.
  apply removed_wp. by eapply during_quiet.
Qed.

(** *** Renaming *)

(** The store after names have changed that no path depends on. *)
Lemma good_moved k1 holds f f' T nms :
  good k1 holds f -> consistent 0 f' -> moved 0 T nms f f' -> (forall nm, nm ∈ nms -> nul_free nm) ->
  (forall m, m ∈ T -> m ∉ readers holds) -> good k1 holds f'.
Proof.
  intros Hg Hc [Hn Hk [Hct Hgen]] Hnms HT. pose proof (g_lock _ _ _ Hg) as Hls.
  assert (shrunk k1 f f') as Hsh.
  { split.
    - intros m md' Hm. destruct (Hn m md' Hm) as (md & Em & (E1 & E2 & E3) & E4 & Enm & _). exists md. split_and!; try done.
      + rewrite E4 //. by eapply good_nlookup.
      + destruct Enm as [->|[->|(nm & Hin & ->)]]; [by eapply good_name|apply not_elem_of_nil|by apply Hnms].
    - intros m Hm. eapply gone_unknown; [done| |done]. intros md Em Hp. destruct (Hk m md Em Hp) as (md' & ? & _). eauto. }
  eapply good_shrunk; [done|done| | |exact Hsh|done|by intros m; apply (g_sane _ _ _ Hg)].
  - pose proof (g_ctr _ _ _ Hg) as Hctr. unfold counters_ok in *. by rewrite Hct Hgen.
  - apply (respects_intro 0); [done|done|..].
    + intros m md' Hm. by destruct (Hn m md' Hm) as (md & -> & (? & _) & _).
    + intros m md' Hr Hm. destruct (Hn m md' Hm) as (md & ? & _ & _ & _ & P). exists md. split; [done|].
      apply P. intros HmT. by apply (HT m).
    + intros hd m _ _ (md & Em & Hp). destruct (Hk m md Em Hp) as (md' & ? & ?). by exists md'.
Qed.

Lemma below_shape f f' n m : same_shape f f' -> below f' n m -> below f n m.
Proof.
  intros Hsh. induction 1 as [|m md q Hm Hq _ IH]; [constructor|].
  destruct (same_shape_lookup _ _ _ _ (same_shape_sym _ _ Hsh) Hm) as (md0 & ? & E & _). econstructor; [done|by rewrite E|done].
Qed.

Lemma seg_below f n l e : seg (nodes f) n l e -> below f e n.
Proof. induction 1 as [|n nd p l e _ Hn Hp _ IH]; [constructor|]. by econstructor. Qed.

Lemma seg_in_below f n l e x : seg (nodes f) n l e -> x ∈ l -> below f x n.
Proof.
  induction 1 as [|n nd p l e _ Hn Hp Hs IH]; [by intros ?%elem_of_nil|].
  intros [->|Hin]%elem_of_cons; [constructor|]. econstructor; [done|done|by apply IH].
Qed.

(** A child does not lie above its directory. *)
Lemma child_not_above f p nm n : consistent 0 f -> named f p nm n -> ~ below f n p.
Proof.
  intros [rank Hinv] (nd & Hn & Hp & _) Hb. apply (below_rank 0 rank) in Hb; [|done].
  destruct (inv_parent _ _ _ _ _ _ Hinv n nd p Hn ltac:(set_solver) Hp). lia.
Qed.

(** The hidden names of a directory fit into a path. *)
Definition hide_fits (f : fuse) (dir : Z) : Prop := forall n c, reachable k f dir (Some (hidden_newname n c)).

(** An open file that is removed, or replaced, must be hidden: its new path has to fit. *)
Definition closes (p : Z) (nm : cstring) : Prop :=
  c_hard_remove conf = true \/ is_open (l_fuse h) p nm = false \/ hide_fits (l_fuse h) p.

(** What the kernel guarantees of a rename: the directories and entries are known,
    the two names differ, and neither entry lies above the other's directory; an
    exchange needs both entries. *)
Record rename_request (d1 : Z) (nm1 : cstring) (d2 : Z) (nm2 : cstring) (flags : Z) : Prop := {
  rr_dir1 : reachable k (l_fuse h) d1 (Some nm1);
  rr_dir2 : reachable k (l_fuse h) d2 (Some nm2);
  rr_entries : entry_known d1 nm1 /\ entry_known d2 nm2;
  rr_differ : d1 <> d2 \/ nm1 <> nm2;
  rr_source : forall n, lookup_node (l_fuse h) d1 nm1 = Some n -> ~ below (l_fuse h) n d2;
  rr_target : forall n, lookup_node (l_fuse h) d2 nm2 = Some n -> ~ below (l_fuse h) n d1;
  rr_both : has_flag flags RENAME_EXCHANGE = true ->
    is_Some (lookup_node (l_fuse h) d1 nm1) /\ is_Some (lookup_node (l_fuse h) d2 nm2);
  rr_closed : has_flag flags RENAME_EXCHANGE = true \/ closes d2 nm2;
}.

Lemma request_wr f holds p nm :
  good k holds f -> same_shape (l_fuse h) f -> reachable k (l_fuse h) p (Some nm) -> entry_known p nm ->
  Z.of_nat (length (readers holds)) <= Z.of_nat (base.size (nodes f)) + 1 -> request_ok f holds p (Some nm) true.
Proof.
  intros Hg Hsh Hr Hw Hlen.
  destruct (reachable_request k holds f p (Some nm) Hg) as [Hkn _ Hpo Hm]; [by eapply roomy_shape|by eapply reachable_shape|done|].
  split; [done| |done|done]. intros _ w Hl. eapply known_lookups; [exact Hg|]. apply Hw. by rewrite -(lookup_node_shape _ _ _ _ Hsh).
Qed.

Lemma one_hold_readers k1 p l w f : good k1 [mkHold p l w] f ->
  Z.of_nat (length (readers [mkHold p l w])) <= Z.of_nat (base.size (nodes f)) + 1.
Proof.
  intros Hg. destruct (g_lock _ _ _ Hg) as [[rank Hc] _ Hh]. destruct (Hh (mkHold p l w)) as (_ & Hs & _); [set_solver|]. cbn in Hs.
  assert (ranked rank (nodes f)) as Hrk.
  { intros n nd q Hn Hp. by destruct (inv_parent _ _ _ _ _ _ Hc n nd q Hn ltac:(set_solver) Hp). }
  pose proof (seg_length _ _ _ _ _ Hrk Hs). unfold readers. cbn. rewrite app_nil_r. lia.
Qed.

(** Both paths, with both entries locked for writing. *)
Lemma get_path2_wr_wp d1 nm1 d2 nm2 flags : rename_request d1 nm1 d2 nm2 flags ->
  wp (lib_get_path2 alloc_ok d1 (Some nm1) d2 (Some nm2) true) (fun r f' =>
    let '(err, paths, w1, w2) := r in same_tree (l_fuse h) f' /\
    (err = 0 /\ (exists l1 l2, good k [mkHold d2 l2 w2; mkHold d1 l1 w1] f') \/ err <> 0 /\ good k [] f')) (l_fuse h).
Proof.
  intros [Hr1 Hr2 [Hk1 Hk2] Hdiff Hsrc Htgt _ _]. pose proof (ag_good _ _ Hag) as Hg. destruct (ls_consistent _ _ _ (g_lock _ _ _ Hg)) as [rank Hinv].
  unfold lib_get_path2, no_wait, get_path2, try_get_path2. apply wp_bind, wp_bind, wp_bind.
  assert (request_ok (l_fuse h) [] d1 (Some nm1) true) as Hrq1 by (apply request_wr; [done|apply same_shape_refl|done|done|cbn; lia]).
  eapply wp_mono; [apply (try_lock_wp alloc_ok 0 _ [] d1 (Some nm1) true (g_lock _ _ _ Hg) Hrq1)|].
  intros [[err path1] w1] f1 [Hst1 Hpost]. pose proof (same_tree_shape _ _ Hst1) as Hsh1.
  destruct Hpost as [(-> & Hum & Hw1 & l1 & Hs1 & -> & Hls1)|(Hfail & -> & -> & Hls)].
  2:{ assert (err <> - EAGAIN /\ err <> 0) as [He1 He2].
      { destruct Hfail as [[-> _]|[(-> & n & nd & Hn & Hx)|[-> _]]]; [done| |done]. exfalso.
        pose proof (idle_unlocked _ _ _ (g_lock _ _ _ Hg) Hn) as Hz. destruct Hx as [[_ ?]|[_ ?]]; [lia|done]. }
      unfold truth. rewrite (proj2 (Z.eqb_neq _ _) He2). apply wp_ret. cbn [fst]. rewrite (proj2 (Z.eqb_neq _ _) He1).
      apply wp_ret, wp_ret. split; [done|]. right. split; [done|]. by eapply good_same_tree. }
  cbn [truth Z.eqb negb]. assert (good k [mkHold d1 l1 w1] f1) as Hg1 by by eapply good_same_tree.
  assert (request_ok f1 [mkHold d1 l1 w1] d2 (Some nm2) true) as Hrq2.
  { apply request_wr; [done|done|done|done|by eapply one_hold_readers]. }
  apply wp_bind. eapply wp_mono; [apply (try_lock_wp alloc_ok 0 _ _ d2 (Some nm2) true Hls1 Hrq2)|].
  intros [[err path2] w2] f2 [Hst2 Hpost].
  assert (same_tree (l_fuse h) f2) as Hst by by eapply same_tree_trans.
  destruct Hpost as [(-> & _ & _ & l2 & _ & -> & Hls2)|(Hfail & -> & -> & Hls)].
  { cbn [truth Z.eqb negb]. apply wp_ret, wp_ret, wp_ret. split; [done|]. left. split; [done|]. exists l1, l2. by eapply good_same_tree. }
  assert (err <> - EAGAIN /\ err <> 0) as [He1 He2].
  { destruct Hfail as [[-> _]|[(-> & n & nd & Hn & Hx)|[-> _]]]; [done| |done]. exfalso.
    destruct (same_tree_nodes _ _ _ _ Hst1 Hn) as (nd0 & Hn0 & _). pose proof (idle_unlocked _ _ _ (g_lock _ _ _ Hg) Hn0) as Hz.
    destruct Hx as [[[l Hs] Hlt]|[[_ Hl] Hnz]].
    - destruct (Hum n nd nd0 Hn Hn0 Hlt) as [?| ->]; [lia|]. destruct (Hw1 n eq_refl) as [_ Hl].
      apply (Hsrc n Hl). eapply below_shape; [exact Hsh1|]. by eapply seg_below.
    - cbn in Hl. rewrite (lookup_node_shape _ _ _ _ Hsh1) in Hl. apply Hnz. eapply unheld_unlocked; [exact Hls1|done|].
      intros hd ->%list_elem_of_singleton. cbn. split.
      + intros Hin. apply (Htgt n Hl). by eapply seg_in_below.
      + intros ->. destruct (Hw1 n eq_refl) as [_ Hl']. cbn in Hl'.
        apply (lookup_node_spec _ _ _ _ _ _ _ _ Hinv) in Hl as (x & ? & ? & ?), Hl' as (y & ? & ? & ?).
        destruct Hdiff as [Hd|Hd]; apply Hd; congruence. }
  unfold truth. rewrite (proj2 (Z.eqb_neq _ _) He2). cbn [negb]. apply wp_bind.
  eapply wp_mono; [apply (unlock_step 0 f2 [] (mkHold d1 l1 w1) [] Hls)|]. intros [] f3 [Hls3 Hst3]. apply wp_ret. cbn [fst].
  rewrite (proj2 (Z.eqb_neq _ _) He1). apply wp_ret, wp_ret. split; [by eapply same_tree_trans|]. right. split; [done|].
  eapply good_same_tree; [exact Hg|by eapply same_tree_trans|done].
Qed.

(** A node that is on no path may be renamed. *)
Lemma not_read_locked holds f n nd :
  lock_state 0 f holds -> n ∉ readers holds -> nodes f !! n = Some nd -> ~ read_locked nd.
Proof.
  intros Hls Hn Hnd. destruct (ls_inv _ _ _ Hls) as [_ Hw]. specialize (Hw n nd Hnd).
  rewrite (count_zero _ _ Hn) in Hw. unfold lock_ok, read_locked in *. lia.
Qed.

(** What is known of an entry that is about to be moved to the directory [d]. *)
Definition movable (k1 : kernel) (holds : list hold) (f : fuse) (n d : Z) : Prop :=
  0 < k_lookups k1 n /\ ~ below f n d /\ n ∉ readers holds.

Lemma rename_step k1 holds f d1 nm1 d2 nm2 hide :
  good k1 holds f -> nul_free nm2 -> 0 < k_lookups k1 d2 -> (d1 <> d2 \/ nm1 <> nm2) ->
  (forall n, lookup_node f d1 nm1 = Some n -> movable k1 holds f n d2) ->
  (forall n, lookup_node f d2 nm2 = Some n -> n ∉ readers holds) ->
  wp (rename_node alloc_ok (c_remember conf) d1 nm1 d2 nm2 hide) (fun r f' => good k1 holds f' /\
    match lookup_node f d1 nm1 with
    | None => f' = f
    | Some n => moved 0 ({[n]} ∪ match lookup_node f d2 nm2 with Some t => {[t]} | None => ∅ end) [nm2] f f' /\
        (r = 0 -> renamed f f' n d1 nm1 d2 nm2)
    end) f.
Proof.
  intros Hg Hnm Hkd Hdiff Hsrc Htgt. pose proof (g_lock _ _ _ Hg) as Hls. destruct (ls_consistent _ _ _ Hls) as [rank Hinv].
  rewrite Hrem. destruct (lookup_node f d1 nm1) as [n|] eqn:Hl.
  2: { unfold rename_node. apply wp_bind, wp_get. rewrite Hl. by apply wp_ret. }
  destruct (Hsrc n eq_refl) as (Hkn & Hbel & Hun).
  assert (rename_pre 0 f d1 nm1 d2 nm2) as Hpre.
  { split; [|done|..].
    - apply (known_lookups _ _ _ d2 Hg). done.
    - intros x xd Hx%(lookup_node_spec _ _ _ _ _ _ _ _ Hinv) Hxd. assert (x = n) as -> by congruence.
      destruct (proj1 (known_lookups _ _ _ n Hg) Hkn) as (nd & ? & ?). assert (nd = xd) as -> by congruence.
      split_and!; [done|by eapply not_read_locked|done].
    - intros t td Ht%(lookup_node_spec _ _ _ _ _ _ _ _ Hinv) Htd. split; [|done]. eapply not_read_locked; [done|by apply Htgt|done]. }
  eapply wp_mono; [apply (rename_node_wp alloc_ok 0 f d1 nm1 d2 nm2 hide n); [by exists rank|done|done]|].
  intros r f' ((Hc & Hcase) & Hmv). split_and!; [|done|].
  - eapply good_moved; [done|done|exact Hmv|by intros x ->%list_elem_of_singleton|].
    intros m [->%elem_of_singleton|Hm]%elem_of_union; [done|].
    destruct (lookup_node f d2 nm2) as [t|] eqn:Ht; [|set_solver]. apply elem_of_singleton in Hm as ->. by apply Htgt.
  - intros ->. destruct Hcase as [(_ & _ & ? & _)|[(? & _)|(? & _)]]; [done|done|done].
Qed.

Lemma good_hidectr k1 holds f c : good k1 holds f -> good k1 holds (set_hidectr f c).
Proof. intros [Hl Hc Hn Hlk Ho Hw Hz Hs]. split; try done. by eapply lock_state_shape. Qed.

(** Only the counters of the environment and of hidden names have moved. *)
Definition ticked (f f' : fuse) : Prop := exists c j, f' = set_tick (set_hidectr f c) j.

Lemma ticked_trans f1 f2 f3 : ticked f1 f2 -> ticked f2 f3 -> ticked f1 f3.
Proof. intros (c & j & ->) (c' & j' & ->). by exists c', j'. Qed.

Lemma good_ticked k1 holds f f' : good k1 holds f -> ticked f f' -> good k1 holds f'.
Proof. intros Hg (c & j & ->). by apply good_tick, good_hidectr. Qed.

Lemma hidden_name_wp holds dir oldname failctr : forall h1,
  during k holds rs h1 -> roomy (l_fuse h1) -> hide_fits (l_fuse h1) dir ->
  wp (hidden_name alloc_ok has_op fs_answer failctr dir oldname) (fun r h2 =>
    during k holds rs h2 /\ ticked (l_fuse h1) (l_fuse h2) /\
    forall path nm, r = Some (path, nm) -> nul_free nm /\ is_Some (lookup_node (l_fuse h1) dir oldname) /\
      lookup_node (l_fuse h1) dir nm = None) h1.
Proof.
  assert (forall h1 : lib, ticked (l_fuse h1) (l_fuse h1)) as Hrefl.
  { intros h1. exists (hidectr (l_fuse h1)), (tick (l_fuse h1)). by destruct (l_fuse h1). }
  induction failctr as [|failctr IH]; intros h1 Hd Hrm Hfit; cbn [hidden_name]; [by apply wp_ret|].
  apply wp_bind, wp_get. destruct (lookup_node (l_fuse h1) dir oldname) as [n|] eqn:Hl; [|by apply wp_ret].
  pose proof (du_good _ _ _ _ Hd) as Hg. pose proof (ls_consistent _ _ _ (g_lock _ _ _ Hg)) as Hc. pose proof (rm_nodes _ Hrm) as Hsz.
  apply wp_bind, on_fuse_wp. eapply wp_mono; [apply (hidden_fresh_wp 0 (l_fuse h1) dir n Hc); unfold INT_MAX in Hsz; lia|].
  intros nm f1 ((c & ->) & Hnone & (c' & _ & Hnm)).
  assert (good k holds (set_hidectr (l_fuse h1) c)) as Hg1 by by apply good_hidectr.
  destruct (ls_consistent _ _ _ (g_lock _ _ _ Hg1)) as [rank Hinv].
  apply wp_bind, on_fuse_wp. eapply wp_mono; [apply (peek_path_wp alloc_ok 0 rank _ Hinv dir (Some nm))|].
  - eapply known_dom, known_lookups; [exact Hg1|]. apply (rc_known _ _ _ _ (Hfit n c')).
  - rewrite Hnm. destruct (Hfit n c') as [_ Hs Hfits]. split; [done|apply (g_names _ _ _ Hg1)|exact Hfits].
  - intros [[res newpath] w] f2 ((j & ->) & Hsome). cbn [fst snd] in Hsome.
    set (h2 := set_l_fuse _ _). assert (ticked (l_fuse h1) (l_fuse h2)) as Ht2 by by exists c, j.
    assert (during k holds rs h2) as Hd2 by (eapply during_fuse; [eapply during_fuse; [exact Hd|done|exact Hg1]|done|by apply good_tick]).
    destruct (truth res); [by apply wp_ret|]. apply wp_bind, calm. intros [res2 st] h3 Hq.
    assert (during k holds rs h3) as Hd3 by exact (during_quiet _ _ _ _ _ Hd2 Hq).
    assert (ticked (l_fuse h1) (l_fuse h3)) as Ht3.
    { eapply ticked_trans; [exact Ht2|]. destruct (qt_fuse _ _ Hq) as [j' ->]. by exists (hidectr (l_fuse h2)), j'. }
    destruct (res2 =? - ENOENT).
    { apply wp_ret. split_and!; [done|done|]. intros path nm' E. destruct newpath as [np|]; [|done]. cbn in E. injection E as <- <-.
      split_and!; [rewrite Hnm; apply hidden_newname_nul_free|by eexists|done]. }
    destruct (truth res2); [by apply wp_ret|]. pose proof Ht3 as (c3 & j3 & E3).
    eapply wp_mono; [apply (IH h3 Hd3)|].
    + rewrite E3. by destruct Hrm.
    + intros x y. rewrite E3. by destruct (Hfit x y).
    + intros r h4 (Hd4 & Ht4 & Hr). split_and!; [done|by eapply ticked_trans|]. intros path nm' E.
      destruct (Hr path nm' E) as (? & ? & Hl4). rewrite E3 in Hl4. by split_and!.
Qed.

(** The entry has got a hidden name in the same directory. *)
Record hidden_as (f f' : fuse) (dir : Z) (nm : cstring) (n : Z) (newname : cstring) : Prop := {
  ha_old : lookup_node f dir nm = Some n;
  ha_moved : moved 0 {[n]} [newname] f f';
  ha_renamed : renamed f f' n dir nm dir newname;
}.

Lemma hide_node_wp holds path dir nm h1 :
  during k holds rs h1 -> roomy (l_fuse h1) -> hide_fits (l_fuse h1) dir ->
  (forall n, lookup_node (l_fuse h1) dir nm = Some n -> 0 < k_lookups k n /\ n ∉ readers holds) ->
  wp (hide_node alloc_ok conf has_op fs_answer path dir nm) (fun err h2 => during k holds rs h2 /\
    (err = 0 -> exists n newname, hidden_as (l_fuse h1) (l_fuse h2) dir nm n newname)) h1.
Proof.
  intros Hd Hrm Hfit Hent. unfold hide_node. apply wp_bind. eapply wp_mono; [by apply (hidden_name_wp holds dir nm 10 h1)|].
  intros r h2 (Hd2 & Ht2 & Hr). destruct r as [[newpath newname]|]; [|by apply wp_ret].
  destruct (Hr _ _ eq_refl) as (Hnul & [n Hl] & Hfree). apply wp_bind, calm. intros err h3 Hq.
  pose proof (during_quiet _ _ _ _ _ Hd2 Hq) as Hd3. unfold truth. destruct (Z.eqb_spec err 0) as [->|He]; cbn [negb]; [|by apply wp_ret].
  assert (ticked (l_fuse h1) (l_fuse h3)) as (c & j & E3).
  { eapply ticked_trans; [exact Ht2|]. destruct (qt_fuse _ _ Hq) as [j' ->]. by exists (hidectr (l_fuse h2)), j'. }
  assert (forall d x, lookup_node (l_fuse h3) d x = lookup_node (l_fuse h1) d x) as El by (intros; by rewrite E3).
  pose proof (ls_consistent _ _ _ (g_lock _ _ _ (du_good _ _ _ _ Hd3))) as Hc3.
  assert (named (l_fuse h3) dir nm n) as Hnamed.
  { destruct Hc3 as [rank Hinv]. apply (lookup_node_spec _ _ _ _ _ _ _ _ Hinv). by rewrite El. }
  apply on_fuse_wp. eapply wp_mono; [apply (rename_step k holds (l_fuse h3) dir nm dir newname true)|].
  - apply (du_good _ _ _ _ Hd3).
  - done.
  - apply (rc_known _ _ _ _ (Hfit 0 0)).
  - right. intros ->. congruence.
  - intros x. rewrite El Hl. intros [= <-]. destruct (Hent n Hl). split_and!; [done|by eapply child_not_above|done].
  - intros x. by rewrite El Hfree.
  - intros err f4 (Hg4 & Hpost). split; [by eapply during_fuse|]. intros ->. rewrite !El Hl Hfree in Hpost. destruct Hpost as [Hmv Hren].
    exists n, newname. cbn. split; [done| |].
    + rewrite union_empty_r_L in Hmv. destruct Hmv as [N K C]. rewrite E3 in N, K, C. by split.
    + destruct (Hren eq_refl) as [R1 R2 R3 R4]. split; [done|done|..].
      * intros d x y. rewrite -El. apply R3.
      * intros d x y yd. rewrite -El. intros ? ? ? Hy. apply (R4 d x y yd); try done. by rewrite E3.
Qed.

(** The ancestors of other nodes are the same. *)
Lemma below_hidden f f' dir nm n newname x m :
  consistent 0 f -> consistent 0 f' -> hidden_as f f' dir nm n newname -> below f' x m -> below f x m.
Proof.
  intros [rank Hinv] [rank' Hinv'] [Ho Hmv Hren]. induction 1 as [|m md q Hm Hq _ IH]; [constructor|].
  apply (lookup_node_spec _ _ _ _ _ _ _ _ Hinv) in Ho as (nd & Hn & Hp & _). destruct (decide (m = n)) as [->|Hne].
  - pose proof (rn_new _ _ _ _ _ _ _ Hren) as (nd' & Hn' & Hp' & _)%(lookup_node_spec _ _ _ _ _ _ _ _ Hinv').
    econstructor; [exact Hn|exact Hp|]. assert (q = dir) as <- by congruence. done.
  - destruct (mv_nodes _ _ _ _ _ Hmv m md Hm) as (md0 & ? & _ & _ & _ & P). destruct P as (E & _); [set_solver|].
    econstructor; [done|by rewrite -E|done].
Qed.

Lemma hidden_as_tick f f' p nm n newname j : hidden_as f f' p nm n newname -> hidden_as f (set_tick f' j) p nm n newname.
Proof. intros [Ho [N K C] [R1 R2 R3 R4]]. split; [done|by split|by split]. Qed.

(** The end of an unlink that has hidden the file: it is still open. *)
Lemma unlink_hidden_wp holds p nm n newname f1 h2 :
  during k holds rs h2 -> consistent 0 f1 -> hidden_as f1 (l_fuse h2) p nm n newname -> is_open f1 p nm = true ->
  wp (unlink_hidden alloc_ok conf has_op fs_answer p (Some n)) (fun _ h3 => during k holds rs h3) h2.
Proof.
  intros Hd Hc1 [Ho Hmv Hren] Hopen. destruct (ls_consistent _ _ _ (g_lock _ _ _ (du_good _ _ _ _ Hd))) as [rank Hinv].
  pose proof (rn_new _ _ _ _ _ _ _ Hren) as Hnew. pose proof Hnew as (nd & Hn & Hp & Hnm)%(lookup_node_spec _ _ _ _ _ _ _ _ Hinv).
  unfold unlink_hidden. apply wp_bind, on_fuse_wp. eapply wp_deref; [exact Hn|]. rewrite Hnm. apply wp_bind, wp_gets.
  assert (is_open (l_fuse h2) p newname = true) as Hopen2.
  { unfold is_open in *. rewrite Ho in Hopen. rewrite Hnew Hn. destruct (mv_nodes _ _ _ _ _ Hmv n nd Hn) as (nd0 & E0 & (_ & E & _) & _).
    rewrite E0 in Hopen. by rewrite E. }
  rewrite set_l_fuse_id. rewrite Hopen2. by apply wp_ret.
Qed.

Lemma is_open_shape f f' p nm : same_tree f f' -> is_open f' p nm = is_open f p nm.
Proof.
  intros Hst. unfold is_open. rewrite (lookup_node_shape _ _ _ _ (same_tree_shape _ _ Hst)). destruct (lookup_node f p nm) as [n|]; [|done].
  pose proof (st_nodes _ _ Hst n) as H. destruct (nodes f !! n), (nodes f' !! n); cbn in H; try done. injection H. congruence.
Qed.

Lemma hide_fits_shape f f' p : same_shape f f' -> hide_fits f p -> hide_fits f' p.
Proof. intros Hsh H n c. by eapply reachable_shape. Qed.

Lemma child_unheld f p l w nm n : good k [mkHold p l w] f -> lookup_node f p nm = Some n -> n ∉ readers [mkHold p l w].
Proof.
  intros Hg Hl. pose proof (g_lock _ _ _ Hg) as Hls. pose proof (ls_consistent _ _ _ Hls) as Hc. pose proof Hc as [rank Hinv].
  apply (lookup_node_spec _ _ _ _ _ _ _ _ Hinv) in Hl. unfold readers. cbn. rewrite app_nil_r. intros Hin.
  destruct (ls_holds _ _ _ Hls (mkHold p l w)) as (_ & Hs & _); [set_solver|]. cbn in Hs.
  eapply child_not_above; [done..|]. by eapply seg_in_below.
Qed.

Lemma unlink_wp p nm : reachable k (l_fuse h) p (Some nm) -> entry_known p nm -> closes p nm ->
  wp (fuse_lib_unlink alloc_ok conf has_op fs_answer reply_res p nm) (answered k (LO_unlink p nm) rs) h.
Proof.
  intros Hr Hw Hcl. apply entry_op_wp; [done|done|done|]. intros path l w f Hd Hst Hwn. apply wp_bind, wp_gets. cbn.
  rewrite (is_open_shape _ _ p nm Hst). pose proof (same_tree_shape _ _ Hst) as Hsh.
  destruct (negb (c_hard_remove conf) && is_open (l_fuse h) p nm) eqn:Hhide.
  2: { apply wp_bind, calm. intros err h2 Hq. apply removed_wp. by eapply during_quiet. }
  apply andb_true_iff in Hhide as [Hhr Hopen]. destruct Hcl as [Hx|[Hx|Hfit]]; [by rewrite Hx in Hhr|congruence|].
  pose proof (du_good _ _ _ _ Hd) as Hg. cbn in Hg. apply wp_bind.
  eapply wp_mono; [apply (hide_node_wp [mkHold p l w] path p nm (set_l_fuse h f) Hd)|].
  - by eapply roomy_shape.
  - by eapply hide_fits_shape.
  - cbn. intros n Hl. split; [apply Hw; by rewrite -(lookup_node_shape _ _ _ _ Hsh)|by eapply child_unheld].
  - intros err h2 (Hd2 & Hpost). unfold truth. destruct (Z.eqb_spec err 0) as [->|He]; cbn [negb]; [|by apply wp_ret].
    destruct (Hpost eq_refl) as (n & newname & Hha). cbn in Hha.
    assert (w = Some n) as ->. { rewrite Hwn -(lookup_node_shape _ _ _ _ Hsh). apply (ha_old _ _ _ _ _ _ Hha). }
    eapply unlink_hidden_wp; [done| |exact Hha|by rewrite (is_open_shape _ _ p nm Hst)].
    apply (ls_consistent _ _ _ (g_lock _ _ _ Hg)).
Qed.

(** The nodes that a rename moves are on neither path. *)
Lemma unheld2 f d1 l1 w1 d2 l2 w2 n :
  good k [mkHold d2 l2 w2; mkHold d1 l1 w1] f -> ~ below f n d1 -> ~ below f n d2 ->
  n ∉ readers [mkHold d2 l2 w2; mkHold d1 l1 w1].
Proof.
  intros Hg H1 H2. pose proof (g_lock _ _ _ Hg) as Hls. unfold readers. cbn. rewrite app_nil_r.
  destruct (ls_holds _ _ _ Hls (mkHold d2 l2 w2)) as (_ & Hs2 & _); [set_solver|].
  destruct (ls_holds _ _ _ Hls (mkHold d1 l1 w1)) as (_ & Hs1 & _); [set_solver|]. cbn in Hs1, Hs2.
  intros [Hin|Hin]%elem_of_app; [apply H2|apply H1]; by eapply seg_in_below.
Qed.

(** The last step of a rename, on the node store. *)
Lemma rename_last_wp f d1 l1 w1 nm1 d2 l2 w2 nm2 flags :
  rename_request d1 nm1 d2 nm2 flags -> same_shape (l_fuse h) f -> good k [mkHold d2 l2 w2; mkHold d1 l1 w1] f ->
  forall f2, (f2 = f \/ has_flag flags RENAME_EXCHANGE = false /\ exists n newname, hidden_as f f2 d2 nm2 n newname) ->
  good k [mkHold d2 l2 w2; mkHold d1 l1 w1] f2 ->
  wp (if has_flag flags RENAME_EXCHANGE then exchange_node alloc_ok (c_remember conf) d1 nm1 d2 nm2
      else rename_node alloc_ok (c_remember conf) d1 nm1 d2 nm2 false)
     (fun _ f' => good k [mkHold d2 l2 w2; mkHold d1 l1 w1] f') f2.
Proof.
  intros [Hr1 Hr2 [Hk1 Hk2] Hdiff Hsrc Htgt Hboth _] Hsh Hg f2 Hf2 Hg2. set (holds := [_; _]) in *.
  pose proof (ls_consistent _ _ _ (g_lock _ _ _ Hg)) as Hc. pose proof (ls_consistent _ _ _ (g_lock _ _ _ Hg2)) as Hc2.
  pose proof Hc as [rank Hinv]. pose proof Hc2 as [rank2 Hinv2].
  assert (forall n, lookup_node f d1 nm1 = Some n -> movable k holds f n d2) as Hs.
  { intros n Hl. assert (~ below f n d2) as Hb.
    { intros Hb. apply (Hsrc n); [by rewrite -(lookup_node_shape _ _ _ _ Hsh)|by eapply below_shape]. }
    split_and!; [apply Hk1; by rewrite -(lookup_node_shape _ _ _ _ Hsh)|done|]. eapply unheld2; [exact Hg| |done].
    eapply child_not_above; [done|by apply (lookup_node_spec _ _ _ _ _ _ _ _ Hinv)]. }
  assert (forall n, lookup_node f d2 nm2 = Some n -> movable k holds f n d1) as Ht.
  { intros n Hl. assert (~ below f n d1) as Hb.
    { intros Hb. apply (Htgt n); [by rewrite -(lookup_node_shape _ _ _ _ Hsh)|by eapply below_shape]. }
    split_and!; [apply Hk2; by rewrite -(lookup_node_shape _ _ _ _ Hsh)|done|]. eapply unheld2; [exact Hg|done|].
    eapply child_not_above; [done|by apply (lookup_node_spec _ _ _ _ _ _ _ _ Hinv)]. }
  destruct (has_flag flags RENAME_EXCHANGE) eqn:Hx.
  - destruct Hf2 as [->|[? _]]; [|done]. destruct (Hboth eq_refl) as [[n1 Hl1] [n2 Hl2]].
    rewrite -(lookup_node_shape _ _ _ _ Hsh) in Hl1. rewrite -(lookup_node_shape _ _ _ _ Hsh) in Hl2.
    destruct (Hs n1 Hl1) as (? & Hb1 & Hu1), (Ht n2 Hl2) as (? & Hb2 & Hu2). rewrite Hrem.
    apply (lookup_node_spec _ _ _ _ _ _ _ _ Hinv) in Hl1, Hl2.
    assert (n1 <> n2) as Hne.
    { intros ->. destruct Hl1 as (? & ? & ? & ?), Hl2 as (? & ? & ? & ?). destruct Hdiff as [Hd|Hd]; apply Hd; congruence. }
    eapply wp_mono; [apply (exchange_node_wp alloc_ok 0 f d1 nm1 d2 nm2 n1 n2 Hc)|].
    + split; [done| | |done].
      * intros d [->| ->]; eapply known_lookups; try exact Hg; [apply Hr1|apply Hr2].
      * intros n nd Hn Hnd. destruct (good_nlookup _ _ _ _ _ Hg Hnd) as [E _]. split; [rewrite E; by destruct Hn as [->| ->]|].
        eapply not_read_locked; [apply (g_lock _ _ _ Hg)| |done]. by destruct Hn as [->| ->].
    + intros r f' (Hc' & Hmv & _). eapply good_moved; [exact Hg|done|exact Hmv| |].
      * intros nm [->| ->%list_elem_of_singleton]%elem_of_cons; by eapply reachable_nul_free.
      * intros m [->%elem_of_singleton| ->%elem_of_singleton]%elem_of_union; done.
  - eapply wp_mono; [apply (rename_step k holds f2 d1 nm1 d2 nm2 false Hg2)|by intros r f' [? _]].
    + by eapply reachable_nul_free.
    + apply (rc_known _ _ _ _ Hr2).
    + done.
    + destruct Hf2 as [->|(_ & n & newname & Hha)]; [exact Hs|]. destruct (Ht n (ha_old _ _ _ _ _ _ Hha)) as (Hkn & _ & Hun).
      intros x Hl. destruct (decide (x = n)) as [->|Hne].
      * split_and!; [done| |done]. eapply child_not_above; [done|].
        apply (lookup_node_spec _ _ _ _ _ _ _ _ Hinv2), (rn_new _ _ _ _ _ _ _ (ha_renamed _ _ _ _ _ _ Hha)).
      * destruct (Hs x) as (? & Hb & ?); [by apply (rn_sub _ _ _ _ _ _ _ (ha_renamed _ _ _ _ _ _ Hha))|]. split_and!; [done| |done].
        intros Hb2. apply Hb. by eapply below_hidden.
    + destruct Hf2 as [->|(_ & n & newname & Hha)]; [by intros n (_ & _ & ?)%Ht|].
      intros x. by rewrite (rn_old _ _ _ _ _ _ _ (ha_renamed _ _ _ _ _ _ Hha)).
Qed.

Lemma rename_wp d1 nm1 d2 nm2 flags : rename_request d1 nm1 d2 nm2 flags ->
  wp (fuse_lib_rename alloc_ok conf has_op fs_answer reply_res d1 nm1 d2 nm2 flags) (answered k (LO_rename d1 nm1 d2 nm2 flags) rs) h.
Proof.
  intros Hrr. pose proof (start_during _ _ Hag) as Hd0. unfold fuse_lib_rename. apply wp_bind, on_fuse_wp.
  eapply wp_mono; [by eapply get_path2_wr_wp|]. intros [[[err paths] w1] w2] f (Hst & Hcase). apply wp_bind.
  apply wp_mono with (P := fun _ h2 => during k [] rs h2); [|intros err2 h2 Hd2; by eapply answer_err_wp].
  unfold truth at 1. destruct Hcase as [(-> & l1 & l2 & Hg)|[He Hg]].
  2: { rewrite (proj2 (Z.eqb_neq _ _) He). apply wp_ret. by eapply during_fuse. }
  cbn [Z.eqb negb]. set (holds := [mkHold d2 l2 w2; mkHold d1 l1 w1]) in *. pose proof (same_tree_shape _ _ Hst) as Hsh.
  assert (during k holds rs (set_l_fuse h f)) as Hd1 by by eapply during_fuse.
  apply wp_bind, wp_gets, wp_bind. cbn [l_fuse set_l_fuse].
  apply wp_mono with (P := fun err h2 => during k holds rs h2 /\ (err = 0 -> l_fuse h2 = f \/
    has_flag flags RENAME_EXCHANGE = false /\ exists n newname, hidden_as f (l_fuse h2) d2 nm2 n newname)).
  { rewrite (is_open_shape _ _ d2 nm2 Hst). destruct (negb (c_hard_remove conf) && negb (has_flag flags RENAME_EXCHANGE) && is_open (l_fuse h) d2 nm2) eqn:Hhide.
    2: { apply wp_ret. split; [done|]. intros _. by left. }
    apply andb_true_iff in Hhide as [[Hhr Hx]%andb_true_iff Hopen]. apply negb_true_iff in Hx.
    assert (hide_fits (l_fuse h) d2) as Hfit.
    { destruct (rr_closed _ _ _ _ _ Hrr) as [E|[E|[E|E]]]; [congruence| |congruence|done]. by rewrite E in Hhr. }
    eapply wp_mono; [apply (hide_node_wp holds (snd <$> paths) d2 nm2 (set_l_fuse h f) Hd1)|].
    - by eapply roomy_shape.
    - by eapply hide_fits_shape.
    - cbn. intros n Hl. rewrite (lookup_node_shape _ _ _ _ Hsh) in Hl. split; [by apply (proj2 (rr_entries _ _ _ _ _ Hrr))|].
      pose proof (ls_consistent _ _ _ (g_lock _ _ _ Hg)) as Hc. pose proof Hc as [rank Hinv]. eapply unheld2; [exact Hg|..].
      + intros Hb. apply (rr_target _ _ _ _ _ Hrr n Hl). by eapply below_shape.
      + eapply child_not_above; [done|]. apply (lookup_node_spec _ _ _ _ _ _ _ _ Hinv). by rewrite (lookup_node_shape _ _ _ _ Hsh).
    - intros err h2 (Hd2 & Hpost). split; [done|]. intros ->. right. split; [done|]. by apply Hpost. }
  intros err h2 (Hd2 & Hf2). apply wp_bind. apply wp_mono with (P := fun _ h3 => during k holds rs h3).
  - unfold truth at 1. destruct (Z.eqb_spec err 0) as [->|He]; cbn [negb]; [|by apply wp_ret]. specialize (Hf2 eq_refl).
    apply wp_bind, calm. intros err2 h3 Hq. pose proof (during_quiet _ _ _ _ _ Hd2 Hq) as Hd3. unfold truth at 1.
    destruct (Z.eqb_spec err2 0) as [->|He2]; cbn [negb]; [|by apply wp_ret].
    destruct (qt_fuse _ _ Hq) as [j Ej]. pose proof (du_good _ _ _ _ Hd3) as Hg3.
    assert (wp (if has_flag flags RENAME_EXCHANGE then exchange_node alloc_ok (c_remember conf) d1 nm1 d2 nm2
      else rename_node alloc_ok (c_remember conf) d1 nm1 d2 nm2 false) (fun _ f' => good k holds f') (l_fuse h3)) as Hlast.
    { destruct Hf2 as [Ef|(Hx & n & newname & Hha)].
      - eapply (rename_last_wp (l_fuse h3)); [exact Hrr| |exact Hg3|by left|exact Hg3].
        rewrite Ej Ef. eapply same_shape_trans; [exact Hsh|]. by apply same_tree_shape, same_tree_tick.
      - eapply (rename_last_wp f); [exact Hrr|exact Hsh|exact Hg| |exact Hg3]. right. split; [done|]. exists n, newname.
        rewrite Ej. by apply hidden_as_tick. }
    destruct (has_flag flags RENAME_EXCHANGE); apply on_fuse_wp; (eapply wp_mono; [exact Hlast|]); intros r f4 Hg4; by eapply during_fuse.
  - intros err2 h3 Hd3. apply wp_bind, on_fuse_wp. eapply wp_mono; [exact (free_path2_wp _ _ _ _ _ _ _ _ (du_good _ _ _ _ Hd3))|].
    intros [] f4 Hg4. apply wp_ret. by eapply during_fuse.
Qed.

(** ** The protocol *)

(** What the kernel guarantees of a request. *)
Definition op_ok (op : lib_op) : Prop :=
  match op with
  | LO_lookup p nm => reachable k (l_fuse h) p (Some nm) /\ dot_name nm = false
  | LO_mknod p nm _ _ | LO_mkdir p nm _ | LO_symlink _ p nm | LO_create p nm _ _ => reachable k (l_fuse h) p (Some nm)
  | LO_link ino p nm => reachable k (l_fuse h) ino None /\ reachable k (l_fuse h) p (Some nm)
  | LO_rmdir p nm => reachable k (l_fuse h) p (Some nm) /\ entry_known p nm
  | LO_unlink p nm => reachable k (l_fuse h) p (Some nm) /\ entry_known p nm /\ closes p nm
  | LO_rename d1 nm1 d2 nm2 flags => rename_request d1 nm1 d2 nm2 flags
  | LO_forget ino n => forget_ok k ino n
  | LO_forget_multi l => forgets_ok k l
  | LO_statfs ino => ino = 0 \/ reachable k (l_fuse h) ino None
  | LO_release ino _ => reachable k (l_fuse h) ino None /\ 0 < k_opens k ino
  | LO_releasedir ino fi | LO_fsyncdir ino _ fi => reachable k (l_fuse h) ino None /\ fi_fh fi ∈ k_dirs k
  | LO_setlk ino _ lk _ => reachable k (l_fuse h) ino None /\ lock_request lk
  | LO_ioctl ino _ _ fi flags in_buf out_bufsz => reachable k (l_fuse h) ino None /\
      (has_flag flags FUSE_IOCTL_DIR = true -> fi_fh fi ∈ k_dirs k) /\
      (in_buf = [] \/ out_bufsz = 0 \/ Z.of_nat (length in_buf) = out_bufsz)
  | LO_copy_file_range ino1 _ _ ino2 _ _ _ _ => reachable k (l_fuse h) ino1 None /\ reachable k (l_fuse h) ino2 None
  | LO_getattr ino _ | LO_setattr ino _ _ _ | LO_access ino _ | LO_readlink ino | LO_open ino _ | LO_read ino _ _ _
  | LO_write_buf ino _ _ _ | LO_flush ino _ | LO_fsync ino _ _ | LO_opendir ino _ | LO_setxattr ino _ _ _
  | LO_getxattr ino _ _ | LO_listxattr ino _ | LO_removexattr ino _ | LO_getlk ino _ _ | LO_flock ino _ _
  | LO_bmap ino _ _ | LO_poll ino _ _ | LO_fallocate ino _ _ _ _ | LO_lseek ino _ _ _ => reachable k (l_fuse h) ino None
  | LO_readdir _ _ _ _ _ => False
  end.

Lemma request_wp fs_readdir op : op_ok op ->
  wp (fuse_path_ops alloc_ok clock conf ac_attr_timeout has_op fs_answer reply_res fs_readdir op) (answered k op rs) h.
Proof.
  destruct op; cbn [op_ok fuse_path_ops]; intros Hok; try destruct_and? Hok; try done.
  all: eauto using lookup_wp, forget_request_wp, forget_multi_wp, getattr_wp, setattr_wp, access_wp, readlink_wp, mknod_wp,
    mkdir_wp, unlink_wp, rmdir_wp, symlink_wp, link_wp, rename_wp, create_wp, open_wp, read_wp, write_buf_wp, flush_wp, release_wp,
    fsync_wp, opendir_wp, releasedir_wp, fsyncdir_wp, statfs_wp, setxattr_wp, getxattr_wp, listxattr_wp, removexattr_wp,
    getlk_wp, setlk_wp, flock_wp, bmap_wp, ioctl_wp, poll_wp, fallocate_wp, copy_file_range_wp, lseek_wp.
Qed.
End requests5.
End safe.

(** ** Sequences of requests *)

(** The library and the kernel after [fuse_new]. *)
Definition lib_start (ok : bool) : lib := mkLib (fuse_init ok) [] [] ∅ 0.
Definition kernel_start : kernel := mkKernel (fun n => if n =? FUSE_ROOT_ID then 1 else 0) (fun _ => 0) ∅.

Lemma start_agree ok : agree kernel_start (lib_start ok).
Proof.
  assert (forall n nd, nodes (fuse_init ok) !! n = Some nd -> n = FUSE_ROOT_ID /\ nd = root_node) as Hone.
  { intros n nd Hn. cbn in Hn. by apply lookup_singleton_Some in Hn as [<- <-]. }
  assert (nodes (fuse_init ok) !! FUSE_ROOT_ID = Some root_node) as Hroot by apply lookup_singleton_eq.
  split; [split|..].
  - apply no_locks_state; [apply fuse_init_consistent|]. by intros n nd [-> ->]%Hone.
  - done.
  - intros n. unfold name_of. destruct (nodes (l_fuse (lib_start ok)) !! n) as [nd|] eqn:Hn; [|apply not_elem_of_nil].
    destruct (Hone n nd Hn) as [-> ->]. apply (bool_decide_eq_false (NUL ∈ _)). done.
  - intros n. unfold nlookups. destruct (nodes (l_fuse (lib_start ok)) !! n) as [nd|] eqn:Hn.
    + by destruct (Hone n nd Hn) as [-> ->].
    + cbn. destruct (Z.eqb_spec n FUSE_ROOT_ID) as [->|]; [|done]. cbn [l_fuse lib_start] in Hn. congruence.
  - intros n. unfold opens. destruct (nodes (l_fuse (lib_start ok)) !! n) as [nd|] eqn:Hn; [|done].
    by destruct (Hone n nd Hn) as [-> ->].
  - intros n nd [-> ->]%Hone. apply locks_wf_nil.
  - destruct (nodes (l_fuse (lib_start ok)) !! 0) as [nd|] eqn:Hn; [|done]. by destruct (Hone 0 nd Hn).
  - intros n. cbn. lia.
  - intros a. cbn. rewrite lookup_empty. split; [set_solver|by intros [? ?]].
  - intros a [? Ha]. by rewrite lookup_empty in Ha.
Qed.

Section run.
Context (alloc_ok : nat -> bool) (clock : nat -> Z) (conf : fuse_config) (ac_attr_timeout : double).
Context (has_op : fs_op -> bool) (fs_answer : nat -> fs_call -> fs_ret) (reply_res : nat -> Z).
Context (fs_readdir : filler -> Z -> Z -> M dirst Z).

Definition serve (op : lib_op) : M lib unit :=
  fuse_path_ops alloc_ok clock conf ac_attr_timeout has_op fs_answer reply_res fs_readdir op.

(** One request that respects the protocol, within the limits of the counters. *)
Inductive lib_step : kernel * lib -> kernel * lib -> Prop :=
  | step_request k h op r h' :
      roomy (l_fuse h) -> op_ok conf k h op ->
      serve op h = Ok (tt, h') -> l_replies h' = l_replies h ++ [r] ->
      lib_step (k, h) (kernel_step k op r (accepted reply_res (l_replies h)), h').

Hypothesis Hrem : c_remember conf = 0.
Hypothesis Hfs_lock : forall i path fi cmd lk, cmd <> F_GETLK -> r_flock (fs_answer i (C_lock path fi cmd lk)) = lk.

Lemma serve_answered k h op : agree k h -> roomy (l_fuse h) -> op_ok conf k h op ->
  wp (serve op) (answered reply_res k op (l_replies h)) h.
Proof. intros. by apply request_wp. Qed.

Lemma reached_agree x y : rtc lib_step x y -> agree x.1 x.2 -> agree y.1 y.2.
Proof.
  induction 1 as [x|x y z Hstep _ IH]; [done|]. intros Hag. apply IH. clear IH.
  destruct Hstep as [k h op r h' Hroom Hok Hrun Hrep]. cbn in *.
  pose proof (serve_answered k h op Hag Hroom Hok) as Hwp. unfold wp in Hwp. rewrite Hrun in Hwp. destruct Hwp as (r' & Hr & ?).
  rewrite Hrep in Hr. apply (inj (app _)) in Hr. by simplify_eq.
Qed.
End run.

(** C1: the library and the kernel agree for ever.  From the start, after any
    sequence of requests that respect the protocol, the next such request is
    handled without failing an assertion, touching a freed node or waiting, it is
    answered exactly once, and afterwards no path is locked, the lookup count and
    the open count of every node are what the kernel has been told, and the
    directory handles are the ones it was given, whatever the file system answers,
    whichever allocations fail and whether or not the kernel takes the answer.  This is
    about sessions without [-o remember] and all requests but READDIR, READDIRPLUS
    and the LOOKUP of [.] and [..], for file systems whose [lock] changes the lock only
    for [F_GETLK], while ids and counters have room. *)
Theorem requests_answered alloc_ok clock conf ac_attr_timeout has_op fs_answer reply_res fs_readdir ok k h op :
  c_remember conf = 0 ->
  (forall i path fi cmd lk, cmd <> F_GETLK -> r_flock (fs_answer i (C_lock path fi cmd lk)) = lk) ->
  rtc (lib_step alloc_ok clock conf ac_attr_timeout has_op fs_answer reply_res fs_readdir)
      (kernel_start, lib_start ok) (k, h) ->
  roomy (l_fuse h) -> op_ok conf k h op ->
  exists h' r, let k' := kernel_step k op r (accepted reply_res (l_replies h)) in
    serve alloc_ok clock conf ac_attr_timeout has_op fs_answer reply_res fs_readdir op h = Ok (tt, h') /\
    l_replies h' = l_replies h ++ [r] /\
    (forall n nd, nodes (l_fuse h') !! n = Some nd ->
       treelock nd = 0 /\ nlookup nd = k_lookups k' n /\ open_count nd = k_opens k' n) /\
    (forall a, a ∈ k_dirs k' <-> is_Some (l_dhs h' !! a)) /\
    consistent 0 (l_fuse h').
Proof.
  intros Hrem Hlk Hsteps Hroom Hok.
  assert (agree k h) as Hag by (eapply (reached_agree _ _ _ _ _ _ _ _ Hrem Hlk _ (k, h)); [exact Hsteps|apply start_agree]).
  destruct (wp_Ok _ _ _ (serve_answered alloc_ok clock conf ac_attr_timeout has_op fs_answer reply_res fs_readdir Hrem Hlk
    k h op Hag Hroom Hok)) as ([] & h' & Hrun & r & Hr & [Hg Hdirs _]).
  exists h', r. split_and!; [done|done| |done|apply (ls_consistent _ _ _ (g_lock _ _ _ Hg))].
  intros n nd Hn. split; [by apply (idle_unlocked _ _ _ (g_lock _ _ _ Hg) Hn)|].
  rewrite (g_lookups _ _ _ Hg) (g_opens _ _ _ Hg). unfold nlookups, opens. by rewrite Hn.
Qed.

(** A file system in which everything is an empty directory. *)
Definition sample_fs (i : nat) (c : fs_call) : fs_ret :=
  mkRet 0 (set_sb_mode stat_zero (S_IFDIR + 493)) fi0 [] (mkStatvfs 0 0 0 0 0 0 0 0)
    (match c with C_lock _ _ _ lk => lk | _ => mkFlock 0 0 0 0 end) 0.

Lemma requests_answered_witness :
  exists h' r, let k' := kernel_step kernel_start (LO_mkdir FUSE_ROOT_ID (lit "a") 493) r true in
    serve (fun _ => true) (fun _ => 0) sample_conf (f64_of_Z 1) (fun _ => true) sample_fs (fun _ => 0)
      (fun _ _ _ => mret 0) (LO_mkdir FUSE_ROOT_ID (lit "a") 493) (lib_start true) = Ok (tt, h') /\
    l_replies h' = [r] /\
    (forall n nd, nodes (l_fuse h') !! n = Some nd ->
       treelock nd = 0 /\ nlookup nd = k_lookups k' n /\ open_count nd = k_opens k' n) /\
    (forall a, a ∈ k_dirs k' <-> is_Some (l_dhs h' !! a)) /\
    consistent 0 (l_fuse h').
Proof.
  apply (requests_answered (fun _ => true) (fun _ => 0) sample_conf (f64_of_Z 1) (fun _ => true) sample_fs (fun _ => 0)
    (fun _ _ _ => mret 0) true kernel_start (lib_start true) (LO_mkdir FUSE_ROOT_ID (lit "a") 493)).
  - reflexivity.
  - intros i path fi cmd lk _. reflexivity.
  - apply rtc_refl.
  - split.
    + apply fuse_init_nlookups.
    + vm_compute. reflexivity.
  - split.
    + reflexivity.
    + apply (bool_decide_eq_false (NUL ∈ _)). reflexivity.
    + intros l n Hs. inversion Hs as [|? nd p l' e Hr _ _ _]; subst; [vm_compute; discriminate|].
      exfalso. apply Hr. reflexivity.
Defined.
